(* ===== verification/_CoqProject ===== *)
-Q . S2P
Prelude.v
Double.v
Adaptive.v
AdaptiveProps.v
Regs.v
Monad.v
RenameMap.v
RenameHistory.v
RenameInit.v
RenameThreads.v
DynInst.v
Stage.v
ROB.v
ROBProps.v
Rename.v
RenameProps.v
RenameFlow.v
TimeBuffer.v
StoreSet.v
FUPool.v
MemDep.v
MemDepSpec.v
MemDepProps.v
InstQueueUnit.v
DepGraph.v
ReadyList.v
InstQueue.v
InstQueueSpec.v
InstQueueWake.v
InstQueueInv.v
InstQueueOps.v
InstQueueInsert.v
InstQueueWakeup.v
InstQueueSquash.v
InstQueueIssue.v
InstQueueProps.v
Commit.v
CommitInv.v
CommitSquash.v
CommitInsts.v
CommitChoose.v
CommitHead.v
CommitLoop.v
CommitCycle.v
CommitProps.v
Decode.v
DecodeInv.v
DecodeStep.v
DecodeLoop.v
DecodeThread.v
DecodePath.v
DecodeCycle.v
DecodeTick.v
DecodeProps.v
FrontEnd.v
FrontEndSend.v
FrontEndInv.v
FrontEndProps.v
FrontEndTight.v
