(* ===== verification/Prelude.v ===== *)
(** * Stall-aware out-of-order execution: a verification library

    The repository is a fork of the gem5 simulator whose out-of-order CPU
    ([src/src/cpu/o3]) has an adaptive controller: it watches windows of cycles,
    classifies what the pipeline stalls on, and narrows or widens fetch, rename
    and dispatch.  This library models that controller and the parts of the CPU
    it acts on or reads, and proves that they do what they promise.

    ** The program and the files

    A cycle of the CPU ([CPU::tick] of [cpu.cc]) runs the stages fetch, decode,
    rename, IEW (issue, execute, write back) and commit, advances the time
    buffers they communicate through, removes the instructions that left the
    machine, and gives the controller the cycle's signals.

    - [Prelude]: machine integers, record update, outcomes of operations
      ([Ok], [Panic] for a failed assertion or [panic], [Undef] for undefined
      behaviour), tactics and lemmas on lists shared by all files.
    - [Monad]: the state monad of the stages over these outcomes, with the
      rules for what a computation preserves.
    - [Double]: the IEEE double arithmetic of the controller, on the standard
      library's [SpecFloat].
    - [Adaptive], [AdaptiveProps]: the adaptive controller of [cpu.cc] and
      [cpu.hh] with the parameters of [BaseO3CPU.py]: recording a cycle,
      closing a window, classifying it, switching modes under hysteresis,
      sizing windows, and the widths and the throttle the stages ask for.
    - [Regs]: register identifiers ([reg_class.hh]), the layout of the physical
      register file ([regfile.cc]), the free lists ([free_list.hh]) and the
      scoreboard ([scoreboard.hh]).
    - [RenameMap], [RenameHistory], [RenameInit], [RenameThreads]: the rename
      maps ([rename_map.cc]), the history buffer of the rename stage with the
      undoing and committing of renames ([rename.cc]), and the loops of the CPU's
      constructor that set the maps up ([cpu.cc]), for one thread and for all.
    - [DynInst]: instructions in flight ([dyn_inst.hh], [dyn_inst.cc]) as
      entries of a heap that all stages share.
    - [ROB], [ROBProps]: the reorder buffer ([rob.cc]) and the CPU's list of
      instructions in flight ([addInst], [removeInstsUntil], ... of [cpu.cc]).
    - [Rename], [RenameProps], [RenameFlow]: the rename stage ([rename.cc]): its
      queues, its handling of stall, squash and serialisation, and its main loop,
      with the width the controller grants; [RenameFlow] follows the instructions
      through squashes and has the reachable states.
    - [TimeBuffer]: time buffers ([timebuf.hh]) and the activity recorder
      ([activity.cc]).
    - [StoreSet]: the memory dependence predictor ([store_set.cc]).
    - [FUPool]: the pool of functional units ([fu_pool.cc], [func_unit.cc]).
    - [MemDep], [MemDepSpec], [MemDepProps]: the memory dependence unit
      ([mem_dep_unit.cc]) over any predictor of the interface [DepPredictor],
      which [StoreSet] implements; its abstract specification and the
      refinement.
    - [DepGraph], [ReadyList]: the dependency graph ([dep_graph.hh]), and the
      ready queues with the list of their oldest instructions
      ([inst_queue.cc]).
    - [InstQueue]: the instruction queue ([inst_queue.cc]) over all of the
      above: insertion, wake-up, scheduling, completion, commit of
      non-speculative instructions, memory replays, squash.  Its invariant and
      the proofs are in [InstQueueUnit] (what the queue asks of the memory
      dependence unit), [InstQueueSpec] (the invariant), [InstQueueWake],
      [InstQueueInv] and [InstQueueOps] (its frame rules), [InstQueueInsert],
      [InstQueueWakeup], [InstQueueSquash] and [InstQueueIssue] (one group of
      operations each) and [InstQueueProps] (the reachable queues and the
      theorems).
    - [Decode]: the decode stage ([decode.cc]): its skid buffers, blocking and
      unblocking, the two squashes, and the loop that passes instructions to
      rename and finds mispredicted direct branches.  The target of a branch is a
      parameter.  [DecodeInv] says how the stage changes the instructions in
      flight, [DecodeStep] specifies what a cycle should do and proves it of the
      single operations, [DecodeLoop], [DecodeThread], [DecodePath],
      [DecodeCycle] and [DecodeTick] put a cycle together, and [DecodeProps] has
      the theorems.
    - [FrontEnd]: the part of [fetch.cc] that hands instructions to decode, and
      a cycle of both stages joined by the time buffers.  [FrontEndSend] proves
      the hand-over loop, [FrontEndInv] has the invariant of the flow control,
      [FrontEndProps] the theorems, and [FrontEndTight] the run that shows the
      size of the skid buffers to be exact.
    - [Stage]: the status of a stage and its calls of the activity recorder,
      which the stages share.
    - [Commit]: the commit stage ([commit.cc], with [processInterrupts], [trap]
      and [squashFromTC] of [cpu.cc] and [conditionalSquash] of
      [thread_context.hh]): squashes, interrupts, taking instructions from
      rename, the choice of the thread, the commit loop, the commit rename map.
      The program counter, the invocation of faults, the interrupt controller
      and the PC events are parameters (record [ISA]).  Its invariant is in
      [CommitInv]; [CommitSquash], [CommitInsts], [CommitChoose], [CommitHead]
      and [CommitLoop] follow the parts of a cycle, [CommitCycle] puts them
      together, and [CommitProps] has the reachable states, the theorems and a
      machine of two threads on which they are evaluated.

    ** How code corresponds to definitions

    A class is a record with the fields of the class, a method a function of
    the same name from the state to an outcome and a new state.  Where the code
    reads what another stage wrote (a wire of a time buffer) the definition
    takes it as an argument ([RenameIn], [PipelineView]).  [unsigned] and
    [uint64_t] are integers with the wrap-around of their width written out;
    fixed arrays indexed by thread or operation class are functions; pointers
    to instructions are keys of the heap; list iterators are the element they
    point to.  [DPRINTF], statistics and probes are left out.  Loops over lists
    are structural; the loops that are not (the search for a free unit, the
    squash of the store sets, the walk along a chain of dependents, the issue
    loop with its list of queues that shrinks and moves) take fuel and return
    [None] or [Undef] when it runs out, and the theorems about them show that
    one round per element, and one, is enough; for the issue loop it is one
    round for each ready instruction and each queue ([issueFuel]).  The commit
    loop takes one round for each instruction of the reorder buffer, and one,
    since squashed instructions do not count towards its width
    ([stageLoop_ok]); the hand-over from fetch to decode takes two rounds over
    the active threads for each instruction to be sent ([sendLoop_ok]); the loop
    over the PC events one for each registered event and two.  A cycle of the rename stage is a computation in the monad; the
    theorems about it speak of cycles that fail no assertion, and an evaluated
    cycle of a concrete machine shows one.

    ** What the theorems show

    - Register renaming: physical registers are conserved and owned once by the
      free list, the map or the history, from the constructor on and over any
      sequence of renames, commits and squashes; a squash restores the map;
      squash and commit always succeed; [canRename] guarantees that renaming
      fails no assertion.
    - Rename stage: in every state reachable from a reset a cycle loses,
      duplicates and reorders no instruction, and of a squashed thread keeps the
      serialising instruction the squash spares; it sends no more than the
      controller's width and, in a cycle without a squash, no more than the
      reorder buffer and the instruction queue have entries for.  The first needs
      that a thread that resumes a serialising stall after a squash is the only
      active one and is not told to stall in that cycle: otherwise the code
      sends younger instructions ahead of the serialising one, as an evaluated
      run shows.
    - Decode stage: given room in the skid buffers and legal stall signals (both
      are assertions of the stage; [FrontEndProps] shows that fetch ensures them)
      a cycle completes; it passes each thread's instructions on in order and
      loses none but those behind a mispredicted branch or squashed by commit; it
      squashes exactly the younger instructions of the branch's thread.
    - Front end: the hand-over loop of fetch terminates and is in order; fetch's
      stall flag and decode's status agree up to the signals on their way; the
      skid buffers never overflow when they are sized for the delays in both
      directions, and that size is exact: with any smaller one, such as the
      constructor's when the delay back is more than a cycle, a run reaches the
      failing assertion.  These theorems assume that the CPU lists every
      instruction in flight that is not squashed, in order, that only control
      instructions are predicted taken, and that rename unblocks only what it
      blocked.
    - Reorder buffer: its operations are safe and keep its counters, order and
      squash iterator right; a squash ends and marks exactly the younger
      instructions; the head is the oldest instruction; the CPU's list loses
      exactly the squashed instructions.
    - Controller: widths are bounded, an empty pipeline is never throttled,
      throttling is monotone, a disabled controller is the baseline, every
      window is accounted for and every mode switch justified, window sizes
      stay in bounds, no signal is NaN; and, as findings, when the modes are
      never left again, when the width exceeds the machine's, and when window
      doubling wraps.
    - Instruction queue: from the constructor on, over any sequence of the
      calls the IEW stage may make, no assertion fails and nothing undefined
      happens; an instruction is ready exactly when its source registers are;
      the queue's free entries are what the instructions in it leave; a cycle
      issues in age order past the queues without a unit; a memory instruction
      issues only when its dependences allow it; a squash removes exactly the
      younger instructions; misuse is reported.
    - Commit stage: from the constructor on, over any sequence of cycles, trap
      events, drains and writes through thread contexts, with the other stages
      changing the instructions in between, a cycle completes; it retires each thread's instructions in program order, commits
      only what was executed without a fault, and stops only for a reason; traps
      are precise; a squash from the back end is obeyed in the cycle it arrives;
      the commit map follows the committed instructions; round robin is fair and
      the other policy takes the oldest head.  These theorems assume that no PC
      events are registered and that the instructions that commit are not part
      of a hardware transaction ([committable]); the definitions cover both.
      They also assume what only the other stages can ensure ([cycleOK]), three
      assertions of the stage among it: rename hands over no more than the buffer
      has room for, an unexecuted ready head waits for commit, and a ready store
      conditional has completed.  Writes through thread contexts that fall on a
      pending squash-after are left out: after one the next squash-after fails
      its assertion ([stale_squashAfter]).
    - Memory dependence unit: it refines an abstract order of memory
      instructions, keeps barriers, and drains.
    - Functional units: a unit has one owner; [getUnit] is exact and ends, and
      misses a free unit when a class is listed twice.
    - Communication: a time buffer is a delay line; the activity count is exact,
      so the CPU sleeps exactly when nothing is under way.
    - Store sets: operations, queries included, never get stuck, a violation is
      learned, a squash forgets exactly the younger stores.

    ** Bounds

    [MaxThreads] is 4 and [MaxWidth] 12, as in [limits.hh].  Sizes of tables are
    assumed below 2^31, time buffers below 2^30 slots.  [RegId::flatten] of the
    ISA, which is outside the modelled parts, is a parameter of the rename
    stage.

    ** What is not modelled

    IEW and the load/store queue are not modelled as stages, and of fetch only
    the hand-over to decode: the rest of it is branch prediction, translation
    and the instruction cache.  What they ask of the modelled parts is an
    argument or an operation of these.  Register values, execution, the memory system, the
    ISAs, the event loop and the configuration scripts are outside the
    library. *)

From stdpp Require Import base numbers list gmap option sorting.

#[local] Open Scope Z_scope.

(** ** Machine integers

    [unsigned] and [uint64_t] values are integers in [0, 2^w); arithmetic on
    them is arithmetic on [Z] followed by the wrap of the width. *)
Definition wrap (w : Z) (z : Z) : Z := z mod 2 ^ w.

Abbreviation u32 := (wrap 32).
Abbreviation u64 := (wrap 64).

(** Conversion of an integer to [int]. *)
Definition s32 (z : Z) : Z := wrap 32 (z + 2 ^ 31) - 2 ^ 31.

(** [std::numeric_limits<unsigned>::max()]. *)
Definition UINT_MAX : Z := 2 ^ 32 - 1.

Definition in_u32 (z : Z) : Prop := 0 <= z < 2 ^ 32.
Definition in_u64 (z : Z) : Prop := 0 <= z < 2 ^ 64.

(** ** Field update

    [r <| f := v |>] is the record [r] with field [f] replaced.  A record type
    opts in by an [Eta] instance listing its projections; the updater of a
    field is then found by abstracting the field's projection from that list. *)
Class Eta (R : Type) := eta_of : R -> R.

Class FieldUpd {R T : Type} (f : R -> T) := upd_field : T -> R -> R.

Arguments upd_field {_ _ _ _} _ _ /.

Ltac derive_field_upd :=
  lazymatch goal with
  | |- @FieldUpd ?R ?T ?f =>
      let inst := constr:(_ : Eta R) in
      let r := fresh "record" in
      let body := constr:(fun (r : R) => ltac:(
        let e := eval cbv beta delta [eta_of] in (@eta_of R inst r) in
        let e := eval hnf in e in
        let p := eval pattern (f r) in e in
        lazymatch p with ?g _ => exact g end)) in
      exact (fun (v : T) (x : R) => body x v)
  end.

#[export] Hint Extern 1 (FieldUpd _) => derive_field_upd : typeclass_instances.

Declare Scope record_scope.
Delimit Scope record_scope with rec.
Notation "r <| f := v |>" := (upd_field (f := f) v r)
  (at level 12, left associativity, f constr at level 5, v constr at level 99,
   only parsing) : record_scope.
Open Scope record_scope.

(** ** Outcomes

    An operation of the simulator returns, or stops it by a failed [assert], a
    [panic] or a [fatal] ([Panic]), or leaves the language (the front of an
    empty queue, an element past the end of a vector, a null or dangling
    pointer: [Undef]). *)
Inductive res (A : Type) : Type :=
  | Ok (a : A)
  | Panic
  | Undef.
Arguments Ok {A} a.
Arguments Panic {A}.
Arguments Undef {A}.

#[export] Instance res_ret : MRet res := fun A a => Ok a.
#[export] Instance res_bind : MBind res := fun A B f m =>
  match m with Ok a => f a | Panic => Panic | Undef => Undef end.

(** [assert(b)]. *)
Definition assertR (b : bool) : res unit := if b then Ok tt else Panic.

(** An access that is only defined when the option is. *)
Definition deref {A} (o : option A) : res A :=
  match o with Some a => Ok a | None => Undef end.

Notation "'assert!' b ;; e" := (assertR b ≫= λ _, e)
  (at level 100, b at level 79, e at level 200, right associativity,
   format "'assert!'  b ;;  '/' e").

(** A loop over a list that can stop the simulator. *)
Fixpoint foldR {A S} (f : S -> A -> res S) (s : S) (l : list A) : res S :=
  match l with
  | [] => Ok s
  | x :: l => f s x ≫= λ s, foldR f s l
  end.

(** ** Automation shared by the components *)

Create HintDb o3.
Create HintDb o3_arith.

(** Split on the tests of the code until none is left. *)
Ltac case_tests :=
  repeat match goal with
  | |- context [if ?b then _ else _] => destruct b eqn:?
  | H : context [if ?b then _ else _] |- _ => destruct b eqn:?
  end.

(** The same on the goal only, forgetting the tests. *)
Ltac case_ifs :=
  repeat match goal with |- context [if ?b then _ else _] => destruct b end.

(** Turn boolean comparisons into propositions. *)
Ltac bool_to_prop :=
  repeat match goal with
  | H : (_ && _)%bool = true |- _ => apply andb_prop in H as [? ?]
  | H : (_ || _)%bool = false |- _ => apply orb_false_elim in H as [? ?]
  | H : negb _ = true |- _ => apply negb_true_iff in H
  | H : negb _ = false |- _ => apply negb_false_iff in H
  | H : (_ =? _)%Z = true |- _ => apply Z.eqb_eq in H
  | H : (_ =? _)%Z = false |- _ => apply Z.eqb_neq in H
  | H : (_ <=? _)%Z = true |- _ => apply Z.leb_le in H
  | H : (_ <=? _)%Z = false |- _ => apply Z.leb_gt in H
  | H : (_ <? _)%Z = true |- _ => apply Z.ltb_lt in H
  | H : (_ <? _)%Z = false |- _ => apply Z.ltb_ge in H
  end.

(** Take apart a computation known to have succeeded. *)
Ltac inv_ok :=
  repeat match goal with
  | H : Ok _ = Ok _ |- _ => injection H as H; try subst
  | H : mret _ = Ok _ |- _ => injection H as H; try subst
  | H : Panic = Ok _ |- _ => discriminate H
  | H : Undef = Ok _ |- _ => discriminate H
  | H : (assertR ?b ≫= _) = Ok _ |- _ =>
      destruct b eqn:?; cbn [assertR mbind res_bind] in H; [|discriminate H]
  | H : (deref ?o ≫= _) = Ok _ |- _ =>
      destruct o eqn:?; cbn [deref mbind res_bind] in H; [|discriminate H]
  | H : (?m ≫= _) = Ok _ |- _ =>
      destruct m eqn:?; cbn [mbind res_bind] in H; [|discriminate H|discriminate H]
  end.

(** ** Arithmetic *)

Lemma wrap_small w z : 0 <= z < 2 ^ w -> wrap w z = z.
Proof. intros Hz. unfold wrap. by apply Z.mod_small. Qed.

Lemma wrap_bounds w z : 0 <= w -> 0 <= wrap w z < 2 ^ w.
Proof. intros Hw. unfold wrap. apply Z.mod_pos_bound. lia. Qed.

Lemma u32_small z : in_u32 z -> u32 z = z.
Proof. apply wrap_small. Qed.

Lemma s32_small z : - 2 ^ 31 <= z < 2 ^ 31 -> s32 z = z.
Proof. intros Hz. unfold s32. rewrite wrap_small by lia. lia. Qed.

Lemma u64_small z : in_u64 z -> u64 z = z.
Proof. apply wrap_small. Qed.

Lemma u32_bounds z : in_u32 (u32 z).
Proof. by apply wrap_bounds. Qed.

Lemma u64_bounds z : in_u64 (u64 z).
Proof. by apply wrap_bounds. Qed.

#[export] Hint Resolve u32_bounds u64_bounds : o3_arith.

(** [std::max(1u, std::min(a, b))] clamps [b] into [1, a]. *)
Lemma clamp_bounds a b : 1 <= a -> 1 <= Z.max 1 (Z.min a b) <= a.
Proof. lia. Qed.

(** ** Lists *)

Lemma Forall_take_lookup {A} (P : A -> Prop) (l : list A) n :
  (forall i x, (i < n)%nat -> l !! i = Some x -> P x) -> Forall P (take n l).
Proof.
  intros H. apply Forall_lookup_2. intros i x Hi.
  apply lookup_take_Some in Hi as [Hl Hlt]. eauto.
Qed.

(** ** Loops *)

(** An invariant of the body is an invariant of the loop. *)
Lemma foldR_inv {A S} (f : S -> A -> res S) (I : S -> Prop) l s s' :
  (forall s x s', I s -> f s x = Ok s' -> I s') ->
  I s -> foldR f s l = Ok s' -> I s'.
Proof.
  intros Hf. revert s. induction l as [|x l IH]; cbn; intros s Hs H; inv_ok; [done|].
  eauto.
Qed.

Lemma foldR_app {A S} (f : S -> A -> res S) s l k :
  foldR f s (l ++ k) = foldR f s l ≫= λ s, foldR f s k.
Proof.
  revert s. induction l as [|x l IH]; intros s; cbn; [done|].
  destruct (f s x); cbn; auto.
Qed.

(** ** Filtering *)

Lemma filter_none {A} (P : A -> Prop) `{forall x, Decision (P x)} (l : list A) :
  (forall x, x ∈ l -> ~ P x) -> filter P l = [].
Proof.
  induction l as [|x l IH]; intros Hl; [done|]. rewrite filter_cons_False.
  - apply IH. intros y Hy. apply Hl. by right.
  - apply Hl. left.
Qed.

Lemma filter_all {A} (P : A -> Prop) `{forall x, Decision (P x)} (l : list A) :
  (forall x, x ∈ l -> P x) -> filter P l = l.
Proof.
  induction l as [|x l IH]; intros Hl; [done|]. rewrite filter_cons_True.
  - f_equal. apply IH. intros y Hy. apply Hl. by right.
  - apply Hl. left.
Qed.

Lemma list_filter_iff' {A} (P Q : A -> Prop) `{forall x, Decision (P x), forall x, Decision (Q x)}
    (l : list A) :
  (forall x, x ∈ l -> P x <-> Q x) -> filter P l = filter Q l.
Proof.
  induction l as [|x l IH]; intros Hl; [done|].
  assert (Hx : P x <-> Q x) by (apply Hl; left).
  rewrite !filter_cons, IH by (intros y Hy; apply Hl; by right).
  repeat case_decide; tauto.
Qed.

Lemma Forall_filter_sub {A} (P Q : A -> Prop) `{forall x, Decision (Q x)} (l : list A) :
  Forall P l -> Forall P (filter Q l).
Proof. rewrite !Forall_forall. intros Hl x [_ Hx]%list_elem_of_filter. auto. Qed.

Lemma StronglySorted_weaken {A} (R R' : A -> A -> Prop) (l : list A) :
  (forall x y, R x y -> R' x y) -> StronglySorted R l -> StronglySorted R' l.
Proof.
  intros HR Hl. induction Hl as [|x l Hl IH Hx]; constructor; [done|].
  eapply Forall_impl; eauto.
Qed.

Lemma StronglySorted_filter {A} (R : A -> A -> Prop) (P : A -> Prop)
    `{forall x, Decision (P x)} (l : list A) :
  StronglySorted R l -> StronglySorted R (filter P l).
Proof.
  induction 1 as [|x l _ IH Hx]; [constructor|]. rewrite filter_cons. case_decide; [|done].
  constructor; [done|]. rewrite Forall_forall in Hx |- *. intros y [_ Hy]%list_elem_of_filter. auto.
Qed.

Lemma omap_ext_in {A B} (f g : A -> option B) (l : list A) :
  (forall x, x ∈ l -> f x = g x) -> omap f l = omap g l.
Proof.
  induction l as [|x l IH]; intros Hl; [done|]. cbn.
  rewrite (Hl x), IH by (done || by left || intros y Hy; apply Hl; by right). done.
Qed.

(** Updating one element, as a map over the list. *)
Lemma imap_insert_one {A} (l : list A) k x (g : A -> A) : l !! k = Some x ->
  <[k := g x]> l = imap (fun j y => if decide (j = k) then g y else y) l.
Proof.
  intros Hk. apply list_eq. intros j. rewrite list_lookup_imap.
  destruct (decide (j = k)) as [->|Hne].
  - rewrite list_lookup_insert_eq by (by eapply lookup_lt_Some). by rewrite Hk.
  - rewrite list_lookup_insert_ne by done. by destruct (l !! j).
Qed.

Lemma imap_id {A} (l : list A) : imap (fun _ x => x) l = l.
Proof. apply list_eq. intros j. rewrite list_lookup_imap. by destruct (l !! j). Qed.

Lemma NoDup_omap_inj {A B} (f : A -> option B) (l : list A) :
  (forall x y b, x ∈ l -> y ∈ l -> f x = Some b -> f y = Some b -> x = y) ->
  NoDup l -> NoDup (omap f l).
Proof.
  induction l as [|x l IH]; intros Hf Hnd; [constructor|].
  apply list_relations.list.NoDup_cons in Hnd as [Hx Hnd]. cbn.
  assert (IH' : NoDup (omap f l)).
  { apply IH; [|done]. intros y z b Hy Hz. apply Hf; by right. }
  destruct (f x) as [b|] eqn:E; [|done]. apply list_relations.list.NoDup_cons. split; [|done].
  rewrite list_elem_of_omap. intros (y & Hy & Ey).
  by rewrite (Hf x y b) in Hx by (done || by left || by right).
Qed.
