(* ===== verification/Double.v ===== *)
(** * IEEE 754 binary64

    The controller's signals and thresholds are C++ [double]s.  They are
    modelled by the executable specification of binary64 of the Standard
    Library ([SpecFloat] at precision 53 and maximal exponent 1024, rounding to
    nearest even), so that every comparison of the model is the comparison the
    code performs, rounding included. *)

From Stdlib Require Import SpecFloat.
From stdpp Require Import base numbers list.
From S2P Require Import Prelude.

#[local] Open Scope Z_scope.

Definition double := spec_float.

(** [static_cast<double>(n)]. *)
Definition double_of_Z (n : Z) : double := binary_normalize 53 1024 n 0 false.

Definition ddiv (x y : double) : double := SFdiv 53 1024 x y.
Definition dmul (x y : double) : double := SFmul 53 1024 x y.

(** The conversion to an integer: towards zero, for a finite value. *)
Definition dtrunc (x : double) : Z :=
  match x with
  | S754_finite s m e =>
      let v := if (0 <=? e)%Z then (Zpos m * 2 ^ e)%Z else (Zpos m / 2 ^ (- e))%Z in
      if s then (- v)%Z else v
  | _ => 0%Z
  end.

(** The comparison operators of C++; all are false when an operand is a NaN. *)
Definition dlt (x y : double) : bool := SFltb x y.
Definition dle (x y : double) : bool := SFleb x y.
Definition dgt (x y : double) : bool := SFltb y x.
Definition dge (x y : double) : bool := SFleb y x.

(** The literal [n / 10^k]: correctly rounded, because both operands of the
    division are exact in binary64 for the literals of the code. *)
Definition dlit (n d : Z) : double := ddiv (double_of_Z n) (double_of_Z d).

Definition dzero : double := double_of_Z 0.

#[global] Arguments double_of_Z : simpl never.
#[global] Arguments ddiv : simpl never.
#[global] Arguments dlit : simpl never.
#[global] Arguments dzero : simpl never.
#[global] Arguments dlt : simpl never.
#[global] Arguments dle : simpl never.
#[global] Arguments dgt : simpl never.
#[global] Arguments dge : simpl never.

Definition is_nan (x : double) : bool :=
  match x with S754_nan => true | _ => false end.

Example dlit_015 : dlit 15 100 = S754_finite false 5404319552844595 (-55).
Proof. vm_compute. reflexivity. Qed.

(** ** Facts about the operations *)

Lemma shr_1_nonneg mrs : 0 <= shr_m mrs -> 0 <= shr_m (shr_1 mrs).
Proof. destruct mrs as [[|[p|p|]|p] r s]; cbn; lia. Qed.

Lemma iter_pos_nonneg p mrs :
  0 <= shr_m mrs -> 0 <= shr_m (SpecFloat.iter_pos shr_1 p mrs).
Proof.
  revert mrs. induction p as [p IH|p IH|]; intros mrs H; cbn.
  - apply IH, IH, shr_1_nonneg, H.
  - apply IH, IH, H.
  - apply shr_1_nonneg, H.
Qed.

Lemma shr_record_of_loc_m m l : shr_m (shr_record_of_loc m l) = m.
Proof. destruct l as [|[]]; reflexivity. Qed.

Lemma shr_fexp_nonneg m e l :
  0 <= m -> 0 <= shr_m (fst (shr_fexp 53 1024 m e l)).
Proof.
  intros H. unfold shr_fexp, shr.
  destruct (Z.sub _ e); cbn [fst]; rewrite ?shr_record_of_loc_m; try done.
  apply iter_pos_nonneg. by rewrite shr_record_of_loc_m.
Qed.

Lemma round_nearest_even_nonneg m l : 0 <= m -> 0 <= round_nearest_even m l.
Proof. intros H. destruct l as [|[]]; cbn; try case_match; lia. Qed.

Lemma binary_round_aux_not_nan s m e l :
  0 <= m -> is_nan (binary_round_aux 53 1024 s m e l) = false.
Proof.
  intros H. unfold binary_round_aux.
  pose proof (shr_fexp_nonneg m e l H) as H1.
  destruct (shr_fexp 53 1024 m e l) as [mrs e1]. cbn [fst] in H1.
  pose proof (shr_fexp_nonneg _ e1 loc_Exact
    (round_nearest_even_nonneg _ (loc_of_shr_record mrs) H1)) as H2.
  destruct (shr_fexp 53 1024 _ e1 loc_Exact) as [mrs2 e2]. cbn [fst] in H2.
  destruct (shr_m mrs2); [done|by case_match|lia].
Qed.

Lemma double_of_Z_not_nan n : is_nan (double_of_Z n) = false.
Proof.
  unfold double_of_Z, binary_normalize, binary_round.
  destruct n; [done| |]; destruct (shl_align _ _ _);
    by apply binary_round_aux_not_nan.
Qed.

Lemma new_location_div_nonneg m1 e1 m2 e2 :
  let '(q, _, _) := SFdiv_core_binary 53 1024 (Zpos m1) e1 (Zpos m2) e2 in
  0 <= q.
Proof.
  unfold SFdiv_core_binary.
  set (s := Z.sub (Z.sub e1 e2) _).
  set (m' := match s with Zpos _ => _ | Z0 => _ | Zneg _ => _ end).
  assert (0 <= m').
  { subst m'. destruct s; [done| |done]. by apply Z.shiftl_nonneg. }
  pose proof (Z_div_mod m' (Zpos m2) eq_refl) as Hd.
  destruct (Z.div_eucl m' (Zpos m2)) as [q r]. nia.
Qed.

(** Dividing by a finite nonzero number never yields a NaN. *)
Lemma ddiv_finite_not_nan x s m e :
  is_nan x = false -> is_nan (ddiv x (S754_finite s m e)) = false.
Proof.
  intros Hx. destruct x as [sx|sx| |sx mx ex]; try done.
  unfold ddiv, SFdiv. pose proof (new_location_div_nonneg mx ex m e) as H.
  destruct (SFdiv_core_binary _ _ _ _ _ _) as [[q e'] l].
  by apply binary_round_aux_not_nan.
Qed.

(** Comparison of two numbers that are not NaNs is total. *)
Lemma SFcompare_swap x y :
  SFcompare y x = CompOpp <$> SFcompare x y.
Proof.
  destruct x as [[]|[]| |[] mx ex], y as [[]|[]| |[] my ey]; cbn; try done;
    rewrite (Z.compare_antisym ex ey); destruct (ex ?= ey)%Z; cbn; try done;
    change (Pos.compare_cont Eq my mx) with (Pos.compare my mx);
    change (Pos.compare_cont Eq mx my) with (Pos.compare mx my);
    rewrite (Pos.compare_antisym mx my); by destruct (Pos.compare mx my).
Qed.

Lemma SFcompare_not_nan x y :
  is_nan x = false -> is_nan y = false -> exists c, SFcompare x y = Some c.
Proof.
  destruct x as [[]|[]| |[] mx ex], y as [[]|[]| |[] my ey]; cbn; eauto; done.
Qed.

Lemma dge_negb_dlt x y :
  is_nan x = false -> is_nan y = false -> dge x y = negb (dlt x y).
Proof.
  intros Hx Hy. unfold dge, dlt, SFleb, SFltb.
  rewrite (SFcompare_swap x y).
  destruct (SFcompare_not_nan x y Hx Hy) as [[] ->]; done.
Qed.

(** ** Conversion of positive counters

    A positive 64-bit counter converts to a finite positive double, so the
    divisors [std::max<uint64_t>(n, 1)] of the code are never zero. *)

Lemma digits2_log2 m : Zpos (digits2_pos m) = Z.log2 (Zpos m) + 1.
Proof.
  assert (Hsz : digits2_pos m = Pos.size m).
  { induction m as [m IH|m IH|]; cbn; by rewrite ?IH. }
  rewrite Hsz. destruct m; cbn; lia.
Qed.

Lemma shr_1_m mrs : 0 <= shr_m mrs -> shr_m (shr_1 mrs) = shr_m mrs / 2.
Proof.
  intros H. destruct mrs as [[|[p|p|]|p] r s]; cbn -[Z.div] in *; try done.
  - rewrite Pos2Z.inj_xI. rewrite Z.mul_comm, Z.div_add_l by lia.
    change (1 / 2) with 0. lia.
  - rewrite Pos2Z.inj_xO. rewrite Z.mul_comm, Z.div_mul; lia.
Qed.

Lemma iter_pos_shr_m p mrs :
  0 <= shr_m mrs ->
  shr_m (SpecFloat.iter_pos shr_1 p mrs) = shr_m mrs / 2 ^ Zpos p.
Proof.
  revert mrs. induction p as [p IH|p IH|]; intros mrs H; cbn [SpecFloat.iter_pos].
  - rewrite !IH, shr_1_m by eauto using iter_pos_nonneg, shr_1_nonneg.
    rewrite !Z.div_div by lia. f_equal.
    replace (Zpos p~1) with (1 + Zpos p + Zpos p) by lia.
    rewrite !Z.pow_add_r by lia. lia.
  - rewrite !IH by eauto using iter_pos_nonneg.
    rewrite Z.div_div by lia. f_equal.
    replace (Zpos p~0) with (Zpos p + Zpos p) by lia.
    rewrite !Z.pow_add_r by lia. lia.
  - by rewrite shr_1_m.
Qed.

(** One rounding step of a mantissa of [k] bits with [53 <= k] keeps its
    leading bit. *)
Lemma shr_fexp_range m e l :
  2 ^ 52 <= m -> -1000 <= e ->
  let '(mrs, e') := shr_fexp 53 1024 m e l in
  2 ^ 52 <= shr_m mrs < 2 ^ 53 /\ e' = e + (Z.log2 m - 52).
Proof.
  intros Hm He. unfold shr_fexp, shr, fexp, emin.
  destruct m as [|m|m]; [lia| |lia]. cbn [Zdigits2]. rewrite digits2_log2.
  assert (Hl : 52 <= Z.log2 (Zpos m)) by (apply Z.log2_le_pow2; lia).
  rewrite Z.max_l by lia.
  replace (Z.log2 (Zpos m) + 1 + e - 53 - e) with (Z.log2 (Zpos m) - 52) by lia.
  pose proof (Z.log2_spec (Zpos m) eq_refl) as [Hlo Hhi].
  destruct (Z.log2 (Zpos m) - 52) as [|k|k] eqn:Hk.
  - rewrite shr_record_of_loc_m. replace (Z.log2 (Zpos m)) with 52 in * by lia.
    cbn in Hhi. lia.
  - rewrite iter_pos_shr_m, shr_record_of_loc_m by (by rewrite shr_record_of_loc_m).
    split; [|lia]. split.
    + apply Z.div_le_lower_bound; [lia|].
      rewrite <- Z.pow_add_r by lia. by replace (Zpos k + 52) with (Z.log2 (Zpos m)) by lia.
    + apply Z.div_lt_upper_bound; [lia|].
      rewrite <- Z.pow_add_r by lia.
      by replace (Zpos k + 53) with (Z.succ (Z.log2 (Zpos m))) by lia.
  - lia.
Qed.

Lemma binary_round_aux_finite s m e l :
  2 ^ 52 <= m -> -1000 <= e -> Z.log2 m + e < 1000 ->
  exists m' e', binary_round_aux 53 1024 s m e l = S754_finite s m' e'.
Proof.
  intros Hm He Hup. unfold binary_round_aux.
  pose proof (shr_fexp_range m e l Hm He) as H1.
  assert (52 <= Z.log2 m) by (apply Z.log2_le_pow2; lia).
  destruct (shr_fexp 53 1024 m e l) as [mrs e1]. destruct H1 as [[H1 H1'] ->].
  set (r := round_nearest_even _ _).
  assert (Hr : 2 ^ 52 <= r <= 2 ^ 53).
  { subst r. destruct (loc_of_shr_record mrs) as [|[]]; cbn; try case_match; lia. }
  pose proof (shr_fexp_range r (e + (Z.log2 m - 52)) loc_Exact ltac:(lia) ltac:(lia)) as H2.
  assert (Z.log2 r <= 53) by (rewrite <- (Z.log2_pow2 53) by lia; apply Z.log2_le_mono; lia).
  destruct (shr_fexp 53 1024 r _ _) as [mrs2 e2]. destruct H2 as [[H2 _] ->].
  destruct (shr_m mrs2); [lia| |lia].
  rewrite (proj2 (Z.leb_le _ _)) by lia. eauto.
Qed.

Lemma iter_xO_value m k : Zpos (Pos.iter xO m k) = Zpos m * 2 ^ Zpos k.
Proof. induction k using Pos.peano_ind; [cbn; lia|].
  rewrite Pos.iter_succ, Pos2Z.inj_xO, IHk, Pos2Z.inj_succ, Z.pow_succ_r; lia.
Qed.

Lemma double_of_Z_pos n :
  1 <= n < 2 ^ 64 -> exists m e, double_of_Z n = S754_finite false m e.
Proof.
  intros Hn. destruct n as [|n|n]; [lia| |lia].
  unfold double_of_Z, binary_normalize, binary_round, shl_align, fexp, emin.
  rewrite digits2_log2.
  assert (Hl : 0 <= Z.log2 (Zpos n) < 64).
  { split; [apply Z.log2_nonneg|]. apply Z.log2_lt_pow2; lia. }
  rewrite Z.max_l by lia.
  pose proof (Z.log2_spec (Zpos n) eq_refl) as [Hlo Hhi].
  destruct (_ - 0) as [|k|k] eqn:Hk.
  - apply binary_round_aux_finite; try lia. transitivity (2 ^ Z.log2 (Zpos n)); [|done].
    apply Z.pow_le_mono_r; lia.
  - apply binary_round_aux_finite; try lia. transitivity (2 ^ Z.log2 (Zpos n)); [|done].
    apply Z.pow_le_mono_r; lia.
  - assert (Hv := iter_xO_value n k).
    apply binary_round_aux_finite; rewrite ?Hv.
    + transitivity (2 ^ Z.log2 (Zpos n) * 2 ^ Zpos k); [|nia].
      rewrite <- Z.pow_add_r by lia. apply Z.pow_le_mono_r; lia.
    + lia.
    + rewrite Z.log2_mul_pow2; lia.
Qed.

#[export] Hint Resolve double_of_Z_not_nan ddiv_finite_not_nan : o3.
