(* ===== verification/Adaptive.v ===== *)
(** * The stall-aware adaptive controller

    The controller of [src/src/cpu/o3/cpu.cc] (functions [adaptive*] of
    [o3::CPU]): once per cycle it samples the pipeline into the counters of the
    current window, at a window boundary it classifies the window, maps the
    class to an execution mode, applies the hysteresis policy, chooses the
    sub-levels of the mode and logs the window; the stages read the resulting
    fetch, rename and dispatch widths and the fetch throttle.  The members the
    constructor sets once are [AdaptiveConfig], the others [AdaptiveState]. *)

From stdpp Require Import base numbers list strings.
From S2P Require Import Prelude Double.

#[local] Open Scope Z_scope.

(** ** Classes and modes *)

Inductive AdaptiveClass :=
  | SerializedMemoryDominated
  | HighMLPMemoryDominated
  | ControlDominated
  | ResourceContentionDominated.

Inductive AdaptiveMode :=
  | Aggressive
  | Conservative
  | SerializedProfile
  | HighMLPProfile
  | ControlProfile
  | ResourceProfile.

#[export] Instance AdaptiveClass_eq_dec : EqDecision AdaptiveClass.
Proof. solve_decision. Defined.

#[export] Instance AdaptiveMode_eq_dec : EqDecision AdaptiveMode.
Proof. solve_decision. Defined.

(** ** Parameters

    The adaptive parameters of [BaseO3CPU] (Param.Unsigned is [unsigned],
    Param.Float is [double]). *)
Module Params.
Record BaseO3CPUParams := mkParams {
  adaptiveWindowCycles : Z;
  numThreads : Z;
  enableStallAdaptive : bool;
  adaptiveWindowAutoSize : bool;
  adaptiveWindowMin : Z;
  adaptiveWindowMax : Z;
  adaptiveSwitchHysteresis : Z;
  adaptiveMinModeWindows : Z;
  fetchWidth : Z;
  adaptiveConservativeFetchWidth : Z;
  adaptiveConservativeInflightCap : Z;
  adaptiveConservativeIQCap : Z;
  adaptiveConservativeLSQCap : Z;
  adaptiveConservativeRenameWidth : Z;
  adaptiveConservativeDispatchWidth : Z;
  adaptiveUseClassProfiles : bool;
  adaptiveSerializedFetchWidth : Z;
  adaptiveSerializedInflightCap : Z;
  adaptiveSerializedRenameWidth : Z;
  adaptiveSerializedDispatchWidth : Z;
  adaptiveHighMLPFetchWidth : Z;
  adaptiveHighMLPInflightCap : Z;
  adaptiveHighMLPRenameWidth : Z;
  adaptiveHighMLPDispatchWidth : Z;
  adaptiveControlFetchWidth : Z;
  adaptiveControlInflightCap : Z;
  adaptiveControlRenameWidth : Z;
  adaptiveControlDispatchWidth : Z;
  adaptiveResourceFetchWidth : Z;
  adaptiveResourceInflightCap : Z;
  adaptiveResourceRenameWidth : Z;
  adaptiveResourceDispatchWidth : Z;
  adaptiveResourceTightMaxInflightProxy : double;
  adaptiveResourceTightMinSquashRatio : double;
  adaptiveResourceTightFetchWidth : Z;
  adaptiveResourceTightInflightCap : Z;
  adaptiveResourceTightRenameWidth : Z;
  adaptiveResourceTightDispatchWidth : Z;
  adaptiveSerializedTightSquashThres : double;
  adaptiveSerializedTightFetchWidth : Z;
  adaptiveSerializedTightInflightCap : Z;
  adaptiveSquashProportionalFW : Z;
  adaptiveAggressiveFetchLimit : Z;
  adaptiveResourceCongestionCommitThres : double;
  adaptiveResourceCongestionInflightCap : Z;
  adaptiveResourceCongestionIQCap : Z;
  adaptiveResourceCongestionLSQCap : Z;
  adaptiveMemBlockRatioThres : double;
  adaptiveOutstandingMissThres : double;
  adaptiveHighMLPMaxInflightProxy : double;
  adaptiveBranchRecoveryRatioThres : double;
  adaptiveSquashRatioThres : double;
  adaptiveIQSaturationRatioThres : double;
  adaptiveCommitActivityRatioThres : double
}.

#[global] Instance eta_params : Eta BaseO3CPUParams := fun p =>
  mkParams
    (adaptiveWindowCycles p) (numThreads p) (enableStallAdaptive p)
    (adaptiveWindowAutoSize p) (adaptiveWindowMin p) (adaptiveWindowMax p)
    (adaptiveSwitchHysteresis p) (adaptiveMinModeWindows p) (fetchWidth p)
    (adaptiveConservativeFetchWidth p) (adaptiveConservativeInflightCap p)
    (adaptiveConservativeIQCap p) (adaptiveConservativeLSQCap p)
    (adaptiveConservativeRenameWidth p) (adaptiveConservativeDispatchWidth p)
    (adaptiveUseClassProfiles p) (adaptiveSerializedFetchWidth p)
    (adaptiveSerializedInflightCap p) (adaptiveSerializedRenameWidth p)
    (adaptiveSerializedDispatchWidth p) (adaptiveHighMLPFetchWidth p)
    (adaptiveHighMLPInflightCap p) (adaptiveHighMLPRenameWidth p)
    (adaptiveHighMLPDispatchWidth p) (adaptiveControlFetchWidth p)
    (adaptiveControlInflightCap p) (adaptiveControlRenameWidth p)
    (adaptiveControlDispatchWidth p) (adaptiveResourceFetchWidth p)
    (adaptiveResourceInflightCap p) (adaptiveResourceRenameWidth p)
    (adaptiveResourceDispatchWidth p) (adaptiveResourceTightMaxInflightProxy p)
    (adaptiveResourceTightMinSquashRatio p) (adaptiveResourceTightFetchWidth p)
    (adaptiveResourceTightInflightCap p) (adaptiveResourceTightRenameWidth p)
    (adaptiveResourceTightDispatchWidth p) (adaptiveSerializedTightSquashThres p)
    (adaptiveSerializedTightFetchWidth p) (adaptiveSerializedTightInflightCap p)
    (adaptiveSquashProportionalFW p) (adaptiveAggressiveFetchLimit p)
    (adaptiveResourceCongestionCommitThres p) (adaptiveResourceCongestionInflightCap p)
    (adaptiveResourceCongestionIQCap p) (adaptiveResourceCongestionLSQCap p)
    (adaptiveMemBlockRatioThres p) (adaptiveOutstandingMissThres p)
    (adaptiveHighMLPMaxInflightProxy p) (adaptiveBranchRecoveryRatioThres p)
    (adaptiveSquashRatioThres p) (adaptiveIQSaturationRatioThres p)
    (adaptiveCommitActivityRatioThres p).

(** The default values of the parameter declarations. *)
Definition default : BaseO3CPUParams := {|
  adaptiveWindowCycles := 5000;
  numThreads := 1;
  enableStallAdaptive := false;
  adaptiveWindowAutoSize := false;
  adaptiveWindowMin := 1000;
  adaptiveWindowMax := 10000;
  adaptiveSwitchHysteresis := 2;
  adaptiveMinModeWindows := 2;
  fetchWidth := 8;
  adaptiveConservativeFetchWidth := 6;
  adaptiveConservativeInflightCap := 128;
  adaptiveConservativeIQCap := 0;
  adaptiveConservativeLSQCap := 0;
  adaptiveConservativeRenameWidth := 0;
  adaptiveConservativeDispatchWidth := 0;
  adaptiveUseClassProfiles := false;
  adaptiveSerializedFetchWidth := 2;
  adaptiveSerializedInflightCap := 64;
  adaptiveSerializedRenameWidth := 4;
  adaptiveSerializedDispatchWidth := 4;
  adaptiveHighMLPFetchWidth := 0;
  adaptiveHighMLPInflightCap := 0;
  adaptiveHighMLPRenameWidth := 0;
  adaptiveHighMLPDispatchWidth := 0;
  adaptiveControlFetchWidth := 2;
  adaptiveControlInflightCap := 96;
  adaptiveControlRenameWidth := 4;
  adaptiveControlDispatchWidth := 4;
  adaptiveResourceFetchWidth := 0;
  adaptiveResourceInflightCap := 96;
  adaptiveResourceRenameWidth := 5;
  adaptiveResourceDispatchWidth := 5;
  adaptiveResourceTightMaxInflightProxy := double_of_Z 24;
  adaptiveResourceTightMinSquashRatio := dlit 15 100;
  adaptiveResourceTightFetchWidth := 2;
  adaptiveResourceTightInflightCap := 72;
  adaptiveResourceTightRenameWidth := 4;
  adaptiveResourceTightDispatchWidth := 4;
  adaptiveSerializedTightSquashThres := dlit 30 100;
  adaptiveSerializedTightFetchWidth := 4;
  adaptiveSerializedTightInflightCap := 128;
  adaptiveSquashProportionalFW := 0;
  adaptiveAggressiveFetchLimit := 0;
  adaptiveResourceCongestionCommitThres := dlit 95 100;
  adaptiveResourceCongestionInflightCap := 56;
  adaptiveResourceCongestionIQCap := 26;
  adaptiveResourceCongestionLSQCap := 28;
  adaptiveMemBlockRatioThres := dlit 8 100;
  adaptiveOutstandingMissThres := double_of_Z 8;
  adaptiveHighMLPMaxInflightProxy := double_of_Z 32;
  adaptiveBranchRecoveryRatioThres := dlit 10 100;
  adaptiveSquashRatioThres := dlit 20 100;
  adaptiveIQSaturationRatioThres := dlit 10 100;
  adaptiveCommitActivityRatioThres := dlit 20 100
|}.
End Params.

(** The members the constructor fixes and nothing changes afterwards. *)
Record AdaptiveConfig := {
  cpuNumThreads : Z;
  adaptiveEnable : bool;
  adaptiveWindowAutoSize : bool;
  adaptiveWindowMin : Z;
  adaptiveWindowMax : Z;
  adaptiveSwitchHysteresis : Z;
  adaptiveMinModeWindows : Z;
  adaptiveAggressiveFetch : Z;
  adaptiveConservativeFetch : Z;
  adaptiveConservativeInflightCap : Z;
  adaptiveConservativeIQCap : Z;
  adaptiveConservativeLSQCap : Z;
  adaptiveConservativeRenameWidth : Z;
  adaptiveConservativeDispatchWidth : Z;
  adaptiveUseClassProfiles : bool;
  adaptiveSerializedFetchWidth : Z;
  adaptiveSerializedInflightCap : Z;
  adaptiveSerializedRenameWidth : Z;
  adaptiveSerializedDispatchWidth : Z;
  adaptiveHighMLPFetchWidth : Z;
  adaptiveHighMLPInflightCap : Z;
  adaptiveHighMLPRenameWidth : Z;
  adaptiveHighMLPDispatchWidth : Z;
  adaptiveControlFetchWidth : Z;
  adaptiveControlInflightCap : Z;
  adaptiveControlRenameWidth : Z;
  adaptiveControlDispatchWidth : Z;
  adaptiveResourceFetchWidth : Z;
  adaptiveResourceInflightCap : Z;
  adaptiveResourceRenameWidth : Z;
  adaptiveResourceDispatchWidth : Z;
  adaptiveResourceTightMaxInflightProxy : double;
  adaptiveResourceTightMinSquashRatio : double;
  adaptiveResourceTightFetchWidth : Z;
  adaptiveResourceTightInflightCap : Z;
  adaptiveResourceTightRenameWidth : Z;
  adaptiveResourceTightDispatchWidth : Z;
  adaptiveSerializedTightSquashThres : double;
  adaptiveSerializedTightFetch : Z;
  adaptiveSerializedTightInflightCap : Z;
  adaptiveSquashProportionalFW : Z;
  adaptiveAggressiveFetchLimit : Z;
  adaptiveResourceCongestionCommitThres : double;
  adaptiveResourceCongestionInflightCap : Z;
  adaptiveResourceCongestionIQCap : Z;
  adaptiveResourceCongestionLSQCap : Z;
  adaptiveMemBlockRatioThres : double;
  adaptiveOutstandingMissThres : double;
  adaptiveHighMLPMaxInflightProxy : double;
  adaptiveBranchRecoveryRatioThres : double;
  adaptiveSquashRatioThres : double;
  adaptiveIQSaturationRatioThres : double;
  adaptiveCommitActivityRatioThres : double
}.
(** ** State *)

Record AdaptiveWindowStats := mkStats {
  cycles : Z;
  fetchedInsts : Z;
  committedInsts : Z;
  squashedInsts : Z;
  branchMispredictEvents : Z;
  commitBlockedMemCycles : Z;
  iqSaturationCycles : Z;
  branchRecoveryCycles : Z;
  inflightInstSamples : Z;
  iqOccupancySamples : Z;
  outstandingMissSamples : Z
}.

#[export] Instance eta_stats : Eta AdaptiveWindowStats := fun w =>
  mkStats (cycles w) (fetchedInsts w) (committedInsts w) (squashedInsts w)
    (branchMispredictEvents w) (commitBlockedMemCycles w)
    (iqSaturationCycles w) (branchRecoveryCycles w) (inflightInstSamples w)
    (iqOccupancySamples w) (outstandingMissSamples w).

(** [AdaptiveWindowStats{}]. *)
Definition emptyStats : AdaptiveWindowStats := mkStats 0 0 0 0 0 0 0 0 0 0 0.

(** A line of [adaptive_window_log.csv], column by column. *)
Record WindowLogRow := {
  row_window_id : Z;
  row_cycles : Z;
  row_class : string;
  row_target_mode : string;
  row_applied_mode : string;
  row_resource_profile_level : string;
  row_switched : string;
  row_fetched_insts : Z;
  row_committed_insts : Z;
  row_squashed_insts : Z;
  row_branch_mispredicts : Z;
  row_commit_blocked_mem_cycles : Z;
  row_avg_outstanding_misses_proxy : double;
  row_avg_iq_occupancy : double;
  row_iq_saturation_ratio : double;
  row_branch_recovery_ratio : double;
  row_squash_ratio : double;
  row_commit_activity_ratio : double;
  row_avg_inflight_proxy : double
}.

Record AdaptiveState := mkState {
  adaptiveWindowCycles : Z;
  adaptiveWindowId : Z;
  adaptiveWindowsInMode : Z;
  adaptivePendingClassCount : Z;
  adaptiveCurrentClass : AdaptiveClass;
  adaptivePendingClass : AdaptiveClass;
  adaptiveCurrentMode : AdaptiveMode;
  adaptiveCurrentResourceTight : bool;
  adaptiveCurrentSerializedTight : bool;
  adaptiveCurrentSquashRatio : double;
  adaptiveCurrentResourceCongested : bool;
  adaptiveWindowStats : AdaptiveWindowStats;
  adaptiveWindowCheckCount : Z;
  adaptiveClassChangeCount : Z;
  adaptivePrevWindowClass : AdaptiveClass;
  adaptiveDecoupledOutstandingMisses : double;
  adaptiveDecoupledMemBlockRatio : double;
  adaptiveWindowLog : list WindowLogRow
}.

#[export] Instance eta_state : Eta AdaptiveState := fun s =>
  mkState (adaptiveWindowCycles s) (adaptiveWindowId s)
    (adaptiveWindowsInMode s) (adaptivePendingClassCount s)
    (adaptiveCurrentClass s) (adaptivePendingClass s) (adaptiveCurrentMode s)
    (adaptiveCurrentResourceTight s) (adaptiveCurrentSerializedTight s)
    (adaptiveCurrentSquashRatio s) (adaptiveCurrentResourceCongested s)
    (adaptiveWindowStats s) (adaptiveWindowCheckCount s)
    (adaptiveClassChangeCount s) (adaptivePrevWindowClass s)
    (adaptiveDecoupledOutstandingMisses s) (adaptiveDecoupledMemBlockRatio s)
    (adaptiveWindowLog s).

(** The member that no code assigns. *)
Definition adaptiveWindowCheckInterval : Z := 8.

(** The constructor copies the parameters into the members. *)
Definition configOf (params : Params.BaseO3CPUParams) : AdaptiveConfig := {|
  cpuNumThreads := Params.numThreads params;
  adaptiveEnable := Params.enableStallAdaptive params;
  adaptiveWindowAutoSize := Params.adaptiveWindowAutoSize params;
  adaptiveWindowMin := Params.adaptiveWindowMin params;
  adaptiveWindowMax := Params.adaptiveWindowMax params;
  adaptiveSwitchHysteresis := Params.adaptiveSwitchHysteresis params;
  adaptiveMinModeWindows := Params.adaptiveMinModeWindows params;
  adaptiveAggressiveFetch := Params.fetchWidth params;
  adaptiveConservativeFetch := Params.adaptiveConservativeFetchWidth params;
  adaptiveConservativeInflightCap := Params.adaptiveConservativeInflightCap params;
  adaptiveConservativeIQCap := Params.adaptiveConservativeIQCap params;
  adaptiveConservativeLSQCap := Params.adaptiveConservativeLSQCap params;
  adaptiveConservativeRenameWidth := Params.adaptiveConservativeRenameWidth params;
  adaptiveConservativeDispatchWidth := Params.adaptiveConservativeDispatchWidth params;
  adaptiveUseClassProfiles := Params.adaptiveUseClassProfiles params;
  adaptiveSerializedFetchWidth := Params.adaptiveSerializedFetchWidth params;
  adaptiveSerializedInflightCap := Params.adaptiveSerializedInflightCap params;
  adaptiveSerializedRenameWidth := Params.adaptiveSerializedRenameWidth params;
  adaptiveSerializedDispatchWidth := Params.adaptiveSerializedDispatchWidth params;
  adaptiveHighMLPFetchWidth := Params.adaptiveHighMLPFetchWidth params;
  adaptiveHighMLPInflightCap := Params.adaptiveHighMLPInflightCap params;
  adaptiveHighMLPRenameWidth := Params.adaptiveHighMLPRenameWidth params;
  adaptiveHighMLPDispatchWidth := Params.adaptiveHighMLPDispatchWidth params;
  adaptiveControlFetchWidth := Params.adaptiveControlFetchWidth params;
  adaptiveControlInflightCap := Params.adaptiveControlInflightCap params;
  adaptiveControlRenameWidth := Params.adaptiveControlRenameWidth params;
  adaptiveControlDispatchWidth := Params.adaptiveControlDispatchWidth params;
  adaptiveResourceFetchWidth := Params.adaptiveResourceFetchWidth params;
  adaptiveResourceInflightCap := Params.adaptiveResourceInflightCap params;
  adaptiveResourceRenameWidth := Params.adaptiveResourceRenameWidth params;
  adaptiveResourceDispatchWidth := Params.adaptiveResourceDispatchWidth params;
  adaptiveResourceTightMaxInflightProxy := Params.adaptiveResourceTightMaxInflightProxy params;
  adaptiveResourceTightMinSquashRatio := Params.adaptiveResourceTightMinSquashRatio params;
  adaptiveResourceTightFetchWidth := Params.adaptiveResourceTightFetchWidth params;
  adaptiveResourceTightInflightCap := Params.adaptiveResourceTightInflightCap params;
  adaptiveResourceTightRenameWidth := Params.adaptiveResourceTightRenameWidth params;
  adaptiveResourceTightDispatchWidth := Params.adaptiveResourceTightDispatchWidth params;
  adaptiveSerializedTightSquashThres := Params.adaptiveSerializedTightSquashThres params;
  adaptiveSerializedTightFetch := Params.adaptiveSerializedTightFetchWidth params;
  adaptiveSerializedTightInflightCap := Params.adaptiveSerializedTightInflightCap params;
  adaptiveSquashProportionalFW := Params.adaptiveSquashProportionalFW params;
  adaptiveAggressiveFetchLimit := Params.adaptiveAggressiveFetchLimit params;
  adaptiveResourceCongestionCommitThres := Params.adaptiveResourceCongestionCommitThres params;
  adaptiveResourceCongestionInflightCap := Params.adaptiveResourceCongestionInflightCap params;
  adaptiveResourceCongestionIQCap := Params.adaptiveResourceCongestionIQCap params;
  adaptiveResourceCongestionLSQCap := Params.adaptiveResourceCongestionLSQCap params;
  adaptiveMemBlockRatioThres := Params.adaptiveMemBlockRatioThres params;
  adaptiveOutstandingMissThres := Params.adaptiveOutstandingMissThres params;
  adaptiveHighMLPMaxInflightProxy := Params.adaptiveHighMLPMaxInflightProxy params;
  adaptiveBranchRecoveryRatioThres := Params.adaptiveBranchRecoveryRatioThres params;
  adaptiveSquashRatioThres := Params.adaptiveSquashRatioThres params;
  adaptiveIQSaturationRatioThres := Params.adaptiveIQSaturationRatioThres params;
  adaptiveCommitActivityRatioThres := Params.adaptiveCommitActivityRatioThres params
|}.
(** The members' initial values, as the class declares and the constructor
    sets them. *)
Definition initialState (params : Params.BaseO3CPUParams) : AdaptiveState :=
  {| adaptiveWindowCycles := Params.adaptiveWindowCycles params;
     adaptiveWindowId := 0;
     adaptiveWindowsInMode := 0;
     adaptivePendingClassCount := 0;
     adaptiveCurrentClass := ResourceContentionDominated;
     adaptivePendingClass := ResourceContentionDominated;
     adaptiveCurrentMode := Aggressive;
     adaptiveCurrentResourceTight := false;
     adaptiveCurrentSerializedTight := false;
     adaptiveCurrentSquashRatio := dzero;
     adaptiveCurrentResourceCongested := false;
     adaptiveWindowStats := emptyStats;
     adaptiveWindowCheckCount := 0;
     adaptiveClassChangeCount := 0;
     adaptivePrevWindowClass := ResourceContentionDominated;
     adaptiveDecoupledOutstandingMisses := dzero;
     adaptiveDecoupledMemBlockRatio := dzero;
     adaptiveWindowLog := [] |}.

(** ** What the controller reads of the pipeline

    The values the calls on the ROB, the instruction queue, the load/store
    queue and commit return for thread 0 in one cycle. *)
Record PipelineView := {
  rob_getThreadEntries : Z;
  rob_isHeadReady : bool;
  instQueue_getCount : Z;
  instQueue_isFull : bool;
  ldstQueue_getCount : Z;
  ldstQueue_isStalled : bool;
  ldstQueue_hasStoresToWB : bool;
  ldstQueue_cacheBlocked : bool;
  commit_isSquashing : bool
}.

(** ** Ratios *)

Definition safeRatio (numerator denominator : Z) : double :=
  if denominator =? 0 then dzero
  else ddiv (double_of_Z numerator) (double_of_Z denominator).

Section Controller.
Context (c : AdaptiveConfig).

(** ** Widths and caps *)

Definition adaptiveFetchWidthFromParam (param : Z) : Z :=
  if param =? 0 then adaptiveAggressiveFetch c
  else Z.max 1 (Z.min (adaptiveAggressiveFetch c) param).

Definition adaptiveInflightCapFromParam (param : Z) : Z :=
  if param =? 0 then UINT_MAX else param.

Definition adaptiveEffectiveInflightCap (s : AdaptiveState) : Z :=
  match adaptiveCurrentMode s with
  | SerializedProfile =>
      adaptiveInflightCapFromParam (adaptiveSerializedInflightCap c)
  | HighMLPProfile =>
      adaptiveInflightCapFromParam (adaptiveHighMLPInflightCap c)
  | ControlProfile =>
      adaptiveInflightCapFromParam (adaptiveControlInflightCap c)
  | ResourceProfile =>
      if adaptiveCurrentResourceTight s then
        adaptiveInflightCapFromParam (adaptiveResourceTightInflightCap c)
      else adaptiveInflightCapFromParam (adaptiveResourceInflightCap c)
  | Conservative =>
      if adaptiveCurrentSerializedTight s then
        adaptiveInflightCapFromParam (adaptiveSerializedTightInflightCap c)
      else adaptiveInflightCapFromParam (adaptiveConservativeInflightCap c)
  | Aggressive =>
      if adaptiveCurrentResourceCongested s then
        adaptiveInflightCapFromParam (adaptiveResourceCongestionInflightCap c)
      else UINT_MAX
  end.

Definition adaptiveEffectiveRenameWidthLimit (s : AdaptiveState) : Z :=
  match adaptiveCurrentMode s with
  | SerializedProfile => adaptiveSerializedRenameWidth c
  | HighMLPProfile => adaptiveHighMLPRenameWidth c
  | ControlProfile => adaptiveControlRenameWidth c
  | ResourceProfile =>
      if adaptiveCurrentResourceTight s then adaptiveResourceTightRenameWidth c
      else adaptiveResourceRenameWidth c
  | Conservative => adaptiveConservativeRenameWidth c
  | Aggressive => 0
  end.

Definition adaptiveEffectiveDispatchWidthLimit (s : AdaptiveState) : Z :=
  match adaptiveCurrentMode s with
  | SerializedProfile => adaptiveSerializedDispatchWidth c
  | HighMLPProfile => adaptiveHighMLPDispatchWidth c
  | ControlProfile => adaptiveControlDispatchWidth c
  | ResourceProfile =>
      if adaptiveCurrentResourceTight s then adaptiveResourceTightDispatchWidth c
      else adaptiveResourceDispatchWidth c
  | Conservative => adaptiveConservativeDispatchWidth c
  | Aggressive => 0
  end.

(** The squash-proportional branch of [adaptiveFetchWidth]. *)
Definition squashProportionalWidth (sq : double) : Z :=
  if dlt sq (dlit 15 100) then 7
  else if dlt sq (dlit 25 100) then 6
  else if dlt sq (dlit 35 100) then 5
  else if dlt sq (dlit 45 100) then 4
  else 3.

Definition adaptiveFetchWidth (s : AdaptiveState) : Z :=
  if negb (adaptiveEnable c) then adaptiveAggressiveFetch c else
  match adaptiveCurrentMode s with
  | SerializedProfile => adaptiveFetchWidthFromParam (adaptiveSerializedFetchWidth c)
  | HighMLPProfile => adaptiveFetchWidthFromParam (adaptiveHighMLPFetchWidth c)
  | ControlProfile => adaptiveFetchWidthFromParam (adaptiveControlFetchWidth c)
  | ResourceProfile =>
      if adaptiveCurrentResourceTight s then
        adaptiveFetchWidthFromParam (adaptiveResourceTightFetchWidth c)
      else adaptiveFetchWidthFromParam (adaptiveResourceFetchWidth c)
  | Conservative =>
      if 0 <? adaptiveSquashProportionalFW c then
        squashProportionalWidth (adaptiveCurrentSquashRatio s)
      else if adaptiveCurrentSerializedTight s then
        adaptiveFetchWidthFromParam (adaptiveSerializedTightFetch c)
      else adaptiveFetchWidthFromParam (adaptiveConservativeFetch c)
  | Aggressive =>
      if (0 <? adaptiveAggressiveFetchLimit c) &&
         (adaptiveAggressiveFetchLimit c <? adaptiveAggressiveFetch c)
      then adaptiveAggressiveFetchLimit c
      else adaptiveAggressiveFetch c
  end.

Definition adaptiveRenameWidth (s : AdaptiveState) (base_width : Z) : Z :=
  if negb (adaptiveEnable c) then base_width else
  let lim := adaptiveEffectiveRenameWidthLimit s in
  if lim =? 0 then base_width else Z.max 1 (Z.min base_width lim).

Definition adaptiveDispatchWidth (s : AdaptiveState) (base_width : Z) : Z :=
  if negb (adaptiveEnable c) then base_width else
  let lim := adaptiveEffectiveDispatchWidthLimit s in
  if lim =? 0 then base_width else Z.max 1 (Z.min base_width lim).

(** ** Fetch throttle *)

Definition adaptiveShouldThrottleFetch (v : PipelineView) (s : AdaptiveState) : bool :=
  if negb (adaptiveEnable c) then false else
  if cpuNumThreads c =? 0 then false else
  if adaptiveEffectiveInflightCap s <=? rob_getThreadEntries v then true else
  let '(iq_cap, lsq_cap) :=
    if decide (adaptiveCurrentMode s = Conservative) then
      (adaptiveConservativeIQCap c, adaptiveConservativeLSQCap c)
    else if adaptiveCurrentResourceCongested s then
      (adaptiveResourceCongestionIQCap c, adaptiveResourceCongestionLSQCap c)
    else (0, 0) in
  if (0 <? iq_cap) && (iq_cap <=? instQueue_getCount v) then true else
  if (0 <? lsq_cap) && (lsq_cap <=? ldstQueue_getCount v) then true else
  false.

(** ** Event counters *)

Definition adaptiveNoteFetchedInst (count : Z) (s : AdaptiveState) : AdaptiveState :=
  if adaptiveEnable c then
    let w := adaptiveWindowStats s in
    s <| adaptiveWindowStats := w <| fetchedInsts := u64 (fetchedInsts w + count) |> |>
  else s.

Definition adaptiveNoteCommittedInst (count : Z) (s : AdaptiveState) : AdaptiveState :=
  if adaptiveEnable c then
    let w := adaptiveWindowStats s in
    s <| adaptiveWindowStats := w <| committedInsts := u64 (committedInsts w + count) |> |>
  else s.

Definition adaptiveNoteSquashedInst (count : Z) (s : AdaptiveState) : AdaptiveState :=
  if adaptiveEnable c then
    let w := adaptiveWindowStats s in
    s <| adaptiveWindowStats := w <| squashedInsts := u64 (squashedInsts w + count) |> |>
  else s.

Definition adaptiveNoteBranchMispredict (count : Z) (s : AdaptiveState) : AdaptiveState :=
  if adaptiveEnable c then
    let w := adaptiveWindowStats s in
    s <| adaptiveWindowStats :=
           w <| branchMispredictEvents := u64 (branchMispredictEvents w + count) |> |>
  else s.

(** ** Per-cycle sampling *)

Definition adaptiveRecordCycleSignals (v : PipelineView) (s : AdaptiveState) : AdaptiveState :=
  if cpuNumThreads c =? 0 then s else
  let w := adaptiveWindowStats s in
  let w := w <| cycles := u64 (cycles w + 1) |> in
  let rob_occupancy := rob_getThreadEntries v in
  let iq_occupancy := instQueue_getCount v in
  let lq_occupancy_proxy := ldstQueue_getCount v in
  let w := w <| inflightInstSamples := u64 (inflightInstSamples w + rob_occupancy) |> in
  let w := w <| iqOccupancySamples := u64 (iqOccupancySamples w + iq_occupancy) |> in
  let w := w <| outstandingMissSamples :=
                  u64 (outstandingMissSamples w + lq_occupancy_proxy) |> in
  let w := if instQueue_isFull v then
             w <| iqSaturationCycles := u64 (iqSaturationCycles w + 1) |> else w in
  let w := if commit_isSquashing v then
             w <| branchRecoveryCycles := u64 (branchRecoveryCycles w + 1) |> else w in
  let head_not_ready := (0 <? rob_occupancy) && negb (rob_isHeadReady v) in
  let mem_backpressured :=
    ldstQueue_isStalled v || ldstQueue_hasStoresToWB v || ldstQueue_cacheBlocked v in
  let w := if head_not_ready && mem_backpressured then
             w <| commitBlockedMemCycles := u64 (commitBlockedMemCycles w + 1) |> else w in
  s <| adaptiveWindowStats := w |>.

(** ** Window metrics

    The expressions the classifier, the sub-level selection and the log share;
    [cyclesD] is [const double cycles = std::max<uint64_t>(window.cycles, 1)]. *)
Definition cyclesD (w : AdaptiveWindowStats) : double := double_of_Z (Z.max (cycles w) 1).
Definition memBlockRatio w := safeRatio (commitBlockedMemCycles w) (cycles w).
Definition avgOutstandingMisses w := ddiv (double_of_Z (outstandingMissSamples w)) (cyclesD w).
Definition branchRecoveryRatio w := safeRatio (branchRecoveryCycles w) (cycles w).
Definition squashRatio w := safeRatio (squashedInsts w) (Z.max (fetchedInsts w) 1).
Definition iqSaturationRatio w := safeRatio (iqSaturationCycles w) (cycles w).
Definition commitActivityRatio w := safeRatio (committedInsts w) (Z.max (fetchedInsts w) 1).
Definition avgInflightProxy w := ddiv (double_of_Z (inflightInstSamples w)) (cyclesD w).
Definition avgIQOccupancy w := ddiv (double_of_Z (iqOccupancySamples w)) (cyclesD w).

(** ** Classification *)

Definition adaptiveClassifyWindow (s : AdaptiveState) (window : AdaptiveWindowStats)
    : AdaptiveClass :=
  let mem_block_ratio_raw := memBlockRatio window in
  let avg_outstanding_misses_raw := avgOutstandingMisses window in
  let branch_recovery_ratio := branchRecoveryRatio window in
  let squash_ratio := squashRatio window in
  let iq_saturation_ratio := iqSaturationRatio window in
  let commit_activity_ratio := commitActivityRatio window in
  let avg_inflight_proxy := avgInflightProxy window in
  let in_aggressive := bool_decide (adaptiveCurrentMode s = Aggressive) in
  let mem_block_ratio :=
    if in_aggressive then mem_block_ratio_raw else adaptiveDecoupledMemBlockRatio s in
  let avg_outstanding_misses_proxy :=
    if in_aggressive then avg_outstanding_misses_raw
    else adaptiveDecoupledOutstandingMisses s in
  if dge mem_block_ratio (adaptiveMemBlockRatioThres c) then
    if dge avg_outstanding_misses_proxy (adaptiveOutstandingMissThres c) then
      let inflight_guard_disabled := dle (adaptiveHighMLPMaxInflightProxy c) dzero in
      let inflight_matches_high_mlp :=
        dle avg_inflight_proxy (adaptiveHighMLPMaxInflightProxy c) in
      if inflight_guard_disabled || inflight_matches_high_mlp
      then HighMLPMemoryDominated
      else ResourceContentionDominated
    else SerializedMemoryDominated
  else if dge branch_recovery_ratio (adaptiveBranchRecoveryRatioThres c) &&
          dge squash_ratio (adaptiveSquashRatioThres c) then ControlDominated
  else if dge iq_saturation_ratio (adaptiveIQSaturationRatioThres c) &&
          dge commit_activity_ratio (adaptiveCommitActivityRatioThres c)
  then ResourceContentionDominated
  else ResourceContentionDominated.

Definition adaptiveMapClassToProfile (cls : AdaptiveClass) : AdaptiveMode :=
  match cls with
  | SerializedMemoryDominated => SerializedProfile
  | HighMLPMemoryDominated => HighMLPProfile
  | ControlDominated => ControlProfile
  | ResourceContentionDominated => ResourceProfile
  end.

Definition adaptiveMapClassToMode (cls : AdaptiveClass) : AdaptiveMode :=
  if adaptiveUseClassProfiles c then adaptiveMapClassToProfile cls else
  match cls with
  | SerializedMemoryDominated | ControlDominated => Conservative
  | HighMLPMemoryDominated | ResourceContentionDominated => Aggressive
  end.

Definition adaptiveShouldUseTightResourceProfile
    (window : AdaptiveWindowStats) (cls : AdaptiveClass) : bool :=
  if decide (cls <> ResourceContentionDominated) then false else
  let inflight_arm_enabled := dgt (adaptiveResourceTightMaxInflightProxy c) dzero in
  let squash_arm_enabled := dgt (adaptiveResourceTightMinSquashRatio c) dzero in
  let low_inflight_resource :=
    inflight_arm_enabled &&
    dle (avgInflightProxy window) (adaptiveResourceTightMaxInflightProxy c) in
  let squashy_resource :=
    squash_arm_enabled &&
    dge (squashRatio window) (adaptiveResourceTightMinSquashRatio c) in
  low_inflight_resource || squashy_resource.

(** ** Names *)

Definition adaptiveResourceProfileLevel (s : AdaptiveState) : string :=
  if bool_decide (adaptiveCurrentMode s = Aggressive) &&
     adaptiveCurrentResourceCongested s then "res-congested"
  else if decide (adaptiveCurrentMode s = ResourceProfile) then
    (if adaptiveCurrentResourceTight s then "tight" else "base")
  else if decide (adaptiveCurrentMode s = Conservative) then
    (if adaptiveCurrentSerializedTight s then "ser-tight" else "na")
  else "na".

Definition adaptiveClassName (cls : AdaptiveClass) : string :=
  match cls with
  | SerializedMemoryDominated => "Serialized-memory dominated"
  | HighMLPMemoryDominated => "High-MLP memory dominated"
  | ControlDominated => "Control dominated"
  | ResourceContentionDominated => "Resource-contention / compute dominated"
  end.

Definition adaptiveModeName (mode : AdaptiveMode) : string :=
  match mode with
  | SerializedProfile => "serialized-profile"
  | HighMLPProfile => "high-mlp-profile"
  | ControlProfile => "control-profile"
  | ResourceProfile => "resource-profile"
  | Conservative => "conservative"
  | Aggressive => "aggressive"
  end.

(** ** Mode switching *)

Definition adaptiveMaybeSwitch (new_class : AdaptiveClass) (target_mode : AdaptiveMode)
    (s : AdaptiveState) : AdaptiveState :=
  let s :=
    if decide (new_class <> adaptivePendingClass s) then
      s <| adaptivePendingClass := new_class |> <| adaptivePendingClassCount := 1 |>
    else s <| adaptivePendingClassCount := u64 (adaptivePendingClassCount s + 1) |> in
  let s := s <| adaptiveCurrentClass := new_class |> in
  if decide (target_mode = adaptiveCurrentMode s) then
    s <| adaptiveWindowsInMode := u64 (adaptiveWindowsInMode s + 1) |>
  else
    let hysteresis_ok := adaptiveSwitchHysteresis c <=? adaptivePendingClassCount s in
    let hold_ok := adaptiveMinModeWindows c <=? adaptiveWindowsInMode s in
    if hysteresis_ok && hold_ok then
      s <| adaptiveCurrentMode := target_mode |> <| adaptiveWindowsInMode := 0 |>
    else s <| adaptiveWindowsInMode := u64 (adaptiveWindowsInMode s + 1) |>.

(** ** The window log *)

Definition adaptiveEmitWindowLog (window : AdaptiveWindowStats) (cls : AdaptiveClass)
    (target_mode : AdaptiveMode) (switched : bool) (s : AdaptiveState) : AdaptiveState :=
  let row := {|
    row_window_id := adaptiveWindowId s;
    row_cycles := cycles window;
    row_class := adaptiveClassName cls;
    row_target_mode := adaptiveModeName target_mode;
    row_applied_mode := adaptiveModeName (adaptiveCurrentMode s);
    row_resource_profile_level := adaptiveResourceProfileLevel s;
    row_switched := if switched then "1" else "0";
    row_fetched_insts := fetchedInsts window;
    row_committed_insts := committedInsts window;
    row_squashed_insts := squashedInsts window;
    row_branch_mispredicts := branchMispredictEvents window;
    row_commit_blocked_mem_cycles := commitBlockedMemCycles window;
    row_avg_outstanding_misses_proxy := avgOutstandingMisses window;
    row_avg_iq_occupancy := avgIQOccupancy window;
    row_iq_saturation_ratio := iqSaturationRatio window;
    row_branch_recovery_ratio := branchRecoveryRatio window;
    row_squash_ratio := squashRatio window;
    row_commit_activity_ratio := commitActivityRatio window;
    row_avg_inflight_proxy := avgInflightProxy window |} in
  s <| adaptiveWindowLog := adaptiveWindowLog s ++ [row] |>.

(** ** The window boundary, in the order of the code *)

(** Storing the raw signals of aggressive windows. *)
Definition storeDecoupledSignals (window : AdaptiveWindowStats) (s : AdaptiveState)
    : AdaptiveState :=
  let raw_mem := memBlockRatio window in
  let raw_miss := avgOutstandingMisses window in
  let in_aggressive :=
    bool_decide (adaptiveCurrentMode s = Aggressive) || (adaptiveWindowId s <=? 1) in
  if in_aggressive then
    s <| adaptiveDecoupledMemBlockRatio := raw_mem |>
      <| adaptiveDecoupledOutstandingMisses := raw_miss |>
  else s.

(** The serialized sub-level. *)
Definition selectSerializedLevel (window : AdaptiveWindowStats) (cls : AdaptiveClass)
    (s : AdaptiveState) : AdaptiveState :=
  let s := s <| adaptiveCurrentSerializedTight := false |> in
  let s := s <| adaptiveCurrentSquashRatio := dzero |> in
  if decide (cls = SerializedMemoryDominated \/ cls = ControlDominated) then
    let squash_ratio := squashRatio window in
    let s := s <| adaptiveCurrentSquashRatio := squash_ratio |> in
    if dgt (adaptiveSerializedTightSquashThres c) dzero &&
       dge squash_ratio (adaptiveSerializedTightSquashThres c) then
      s <| adaptiveCurrentSerializedTight := true |>
    else s
  else s.

(** The resource-congestion sub-level. *)
Definition selectCongestionLevel (window : AdaptiveWindowStats) (cls : AdaptiveClass)
    (s : AdaptiveState) : AdaptiveState :=
  let s := s <| adaptiveCurrentResourceCongested := false |> in
  if decide (cls = ResourceContentionDominated) then
    let commit_activity := commitActivityRatio window in
    let ipc_proxy := ddiv (double_of_Z (committedInsts window))
                          (double_of_Z (Z.max (cycles window) 1)) in
    if dgt (adaptiveResourceCongestionCommitThres c) dzero &&
       dlt commit_activity (adaptiveResourceCongestionCommitThres c) &&
       dgt ipc_proxy (double_of_Z 2) then
      s <| adaptiveCurrentResourceCongested := true |>
    else s
  else s.

(** The automatic window size. *)
Definition adjustWindowSize (cls : AdaptiveClass) (s : AdaptiveState) : AdaptiveState :=
  if adaptiveWindowAutoSize c then
    let s := if decide (cls <> adaptivePrevWindowClass s) then
               s <| adaptiveClassChangeCount := u32 (adaptiveClassChangeCount s + 1) |>
             else s in
    let s := s <| adaptivePrevWindowClass := cls |> in
    let s := s <| adaptiveWindowCheckCount := u32 (adaptiveWindowCheckCount s + 1) |> in
    if adaptiveWindowCheckInterval <=? adaptiveWindowCheckCount s then
      let change_rate := ddiv (double_of_Z (adaptiveClassChangeCount s))
                              (double_of_Z adaptiveWindowCheckInterval) in
      let s :=
        if dgt change_rate (dlit 3 10) && (adaptiveWindowMin c <? adaptiveWindowCycles s) then
          s <| adaptiveWindowCycles :=
                 Z.max (adaptiveWindowMin c) (adaptiveWindowCycles s / 2) |>
        else if dlt change_rate (dlit 1 10) &&
                (adaptiveWindowCycles s <? adaptiveWindowMax c) then
          s <| adaptiveWindowCycles :=
                 Z.min (adaptiveWindowMax c) (u32 (adaptiveWindowCycles s * 2)) |>
        else s in
      s <| adaptiveWindowCheckCount := 0 |> <| adaptiveClassChangeCount := 0 |>
    else s
  else s.

Definition adaptiveAdvanceWindow (s : AdaptiveState) : AdaptiveState :=
  if cycles (adaptiveWindowStats s) <? adaptiveWindowCycles s then s else
  let s := s <| adaptiveWindowId := u64 (adaptiveWindowId s + 1) |> in
  let window := adaptiveWindowStats s in
  let s := storeDecoupledSignals window s in
  let cls := adaptiveClassifyWindow s window in
  let target_mode := adaptiveMapClassToMode cls in
  let prev_mode := adaptiveCurrentMode s in
  let s := adaptiveMaybeSwitch cls target_mode s in
  let s := s <| adaptiveCurrentResourceTight :=
                  adaptiveShouldUseTightResourceProfile window cls |> in
  let s := selectSerializedLevel window cls s in
  let s := selectCongestionLevel window cls s in
  let s := adaptiveEmitWindowLog window cls target_mode
             (bool_decide (prev_mode <> adaptiveCurrentMode s)) s in
  let s := adjustWindowSize cls s in
  s <| adaptiveWindowStats := emptyStats |>.

(** ** The cycle

    What happens to the controller in one call of [CPU::tick]: the stages
    report fetched, committed and squashed instructions and mispredicted
    branches, then [tick] samples and advances the window. *)
Inductive AdaptiveEvent :=
  | NoteFetched (n : Z)
  | NoteCommitted (n : Z)
  | NoteSquashed (n : Z)
  | NoteMispredict (n : Z).

Definition noteEvent (s : AdaptiveState) (e : AdaptiveEvent) : AdaptiveState :=
  match e with
  | NoteFetched n => adaptiveNoteFetchedInst n s
  | NoteCommitted n => adaptiveNoteCommittedInst n s
  | NoteSquashed n => adaptiveNoteSquashedInst n s
  | NoteMispredict n => adaptiveNoteBranchMispredict n s
  end.

Definition tickAdaptive (v : PipelineView) (s : AdaptiveState) : AdaptiveState :=
  if adaptiveEnable c then
    adaptiveAdvanceWindow (adaptiveRecordCycleSignals v s)
  else s.

Definition cycle (s : AdaptiveState) (i : list AdaptiveEvent * PipelineView)
    : AdaptiveState :=
  tickAdaptive i.2 (foldl noteEvent s i.1).

(** A run: the controller driven by what the pipeline does, cycle by cycle. *)
Definition run (s : AdaptiveState) (inputs : list (list AdaptiveEvent * PipelineView))
    : AdaptiveState :=
  foldl cycle s inputs.

End Controller.
