(* ===== verification/AdaptiveProps.v ===== *)
(** * Properties of the adaptive controller

    Bounds of the widths and of the throttle, what the classifier can and
    cannot see, the automatic window size, and the behaviour of whole runs:
    window accounting, the hysteresis policy as the log shows it, and the modes
    a run cannot leave. *)

From stdpp Require Import base numbers list strings.
From S2P Require Import Prelude Double Adaptive.

#[local] Open Scope Z_scope.

(** ** Frames: what each step of a window boundary changes *)

Section Frames.
Context (c : AdaptiveConfig).
Implicit Types (s : AdaptiveState) (w : AdaptiveWindowStats) (cls : AdaptiveClass).

Lemma storeDecoupledSignals_frame w s : exists x y,
  storeDecoupledSignals w s =
    s <| adaptiveDecoupledMemBlockRatio := x |>
      <| adaptiveDecoupledOutstandingMisses := y |>.
Proof. unfold storeDecoupledSignals. destruct s; cbn; case_ifs; cbn; repeat eexists. Qed.

Lemma selectSerializedLevel_frame w cls s : exists b r,
  selectSerializedLevel c w cls s =
    s <| adaptiveCurrentSerializedTight := b |> <| adaptiveCurrentSquashRatio := r |>.
Proof. unfold selectSerializedLevel. destruct s; cbn; case_ifs; cbn; repeat eexists. Qed.

Lemma selectCongestionLevel_frame w cls s : exists b,
  selectCongestionLevel c w cls s = s <| adaptiveCurrentResourceCongested := b |>.
Proof. unfold selectCongestionLevel. destruct s; cbn; case_ifs; cbn; repeat eexists. Qed.

Lemma adjustWindowSize_frame cls s : exists W k n p,
  adjustWindowSize c cls s =
    s <| adaptiveWindowCycles := W |> <| adaptiveWindowCheckCount := k |>
      <| adaptiveClassChangeCount := n |> <| adaptivePrevWindowClass := p |>.
Proof. unfold adjustWindowSize. destruct s; cbn; case_ifs; cbn; repeat eexists. Qed.

(** The state after a window boundary, in terms of the state [s1] the
    classifier sees and the state [s2] the switching policy leaves. *)
Definition boundaryS1 s : AdaptiveState :=
  storeDecoupledSignals (adaptiveWindowStats s)
    (s <| adaptiveWindowId := u64 (adaptiveWindowId s + 1) |>).

Definition boundaryClass s : AdaptiveClass :=
  adaptiveClassifyWindow c (boundaryS1 s) (adaptiveWindowStats s).

Definition boundaryS2 s : AdaptiveState :=
  adaptiveMaybeSwitch c (boundaryClass s)
    (adaptiveMapClassToMode c (boundaryClass s)) (boundaryS1 s).

(** The fields the automatic window size reads and writes. *)
Definition same_sizing s s' : Prop :=
  adaptiveWindowCycles s = adaptiveWindowCycles s' /\
  adaptiveWindowCheckCount s = adaptiveWindowCheckCount s' /\
  adaptiveClassChangeCount s = adaptiveClassChangeCount s' /\
  adaptivePrevWindowClass s = adaptivePrevWindowClass s'.

Record boundary_result s s' : Prop := {
  br_id : adaptiveWindowId s' = u64 (adaptiveWindowId s + 1);
  br_hold : adaptiveWindowsInMode s' = adaptiveWindowsInMode (boundaryS2 s);
  br_count : adaptivePendingClassCount s' = adaptivePendingClassCount (boundaryS2 s);
  br_class : adaptiveCurrentClass s' = adaptiveCurrentClass (boundaryS2 s);
  br_pending : adaptivePendingClass s' = adaptivePendingClass (boundaryS2 s);
  br_mode : adaptiveCurrentMode s' = adaptiveCurrentMode (boundaryS2 s);
  br_mem : adaptiveDecoupledMemBlockRatio s' = adaptiveDecoupledMemBlockRatio (boundaryS1 s);
  br_miss :
    adaptiveDecoupledOutstandingMisses s' = adaptiveDecoupledOutstandingMisses (boundaryS1 s);
  br_stats : adaptiveWindowStats s' = emptyStats;
  br_size : exists s0, same_sizing s s0 /\
    same_sizing (adjustWindowSize c (boundaryClass s) s0) s';
  br_log : exists row, adaptiveWindowLog s' = adaptiveWindowLog s ++ [row] /\
    row_class row = adaptiveClassName (boundaryClass s) /\
    row_cycles row = cycles (adaptiveWindowStats s) /\
    row_commit_blocked_mem_cycles row = commitBlockedMemCycles (adaptiveWindowStats s) /\
    row_switched row =
      (if bool_decide (adaptiveCurrentMode s <> adaptiveCurrentMode s') then "1" else "0")%string
}.

Lemma boundaryS1_frame s : exists x y,
  boundaryS1 s = s <| adaptiveWindowId := u64 (adaptiveWindowId s + 1) |>
      <| adaptiveDecoupledMemBlockRatio := x |>
      <| adaptiveDecoupledOutstandingMisses := y |>.
Proof. apply storeDecoupledSignals_frame. Qed.

Lemma maybeSwitch_frame cls m s : exists h n k p m',
  adaptiveMaybeSwitch c cls m s =
    s <| adaptiveWindowsInMode := h |> <| adaptivePendingClassCount := n |>
      <| adaptiveCurrentClass := k |> <| adaptivePendingClass := p |>
      <| adaptiveCurrentMode := m' |>.
Proof.
  unfold adaptiveMaybeSwitch. destruct s; cbn; case_ifs; cbn; repeat eexists.
Qed.

Lemma boundaryS2_keeps s :
  adaptiveWindowId (boundaryS2 s) = u64 (adaptiveWindowId s + 1) /\
  adaptiveDecoupledMemBlockRatio (boundaryS2 s) = adaptiveDecoupledMemBlockRatio (boundaryS1 s) /\
  adaptiveDecoupledOutstandingMisses (boundaryS2 s) =
    adaptiveDecoupledOutstandingMisses (boundaryS1 s) /\
  adaptiveWindowLog (boundaryS2 s) = adaptiveWindowLog s /\
  adaptiveCurrentMode (boundaryS1 s) = adaptiveCurrentMode s /\
  same_sizing s (boundaryS2 s).
Proof.
  unfold boundaryS2. destruct (maybeSwitch_frame (boundaryClass s)
    (adaptiveMapClassToMode c (boundaryClass s)) (boundaryS1 s)) as (?&?&?&?&?&->).
  by destruct (boundaryS1_frame s) as (?&?&->).
Qed.

Lemma adaptiveAdvanceWindow_boundary s :
  adaptiveWindowCycles s <= cycles (adaptiveWindowStats s) ->
  boundary_result s (adaptiveAdvanceWindow c s).
Proof.
  intros Hb. unfold adaptiveAdvanceWindow.
  rewrite (proj2 (Z.ltb_ge _ _) Hb). cbv zeta.
  change (adaptiveWindowStats (s <| adaptiveWindowId := _ |>)) with (adaptiveWindowStats s).
  fold (boundaryS1 s). fold (boundaryClass s). fold (boundaryS2 s).
  destruct (boundaryS2_keeps s) as (Hid & Hm & Hx & Hlog & Hmode & Hsz).
  destruct (selectSerializedLevel_frame (adaptiveWindowStats s) (boundaryClass s)
    (boundaryS2 s <| adaptiveCurrentResourceTight :=
       adaptiveShouldUseTightResourceProfile c (adaptiveWindowStats s) (boundaryClass s) |>))
    as (b1 & r1 & ->).
  set (s3 := upd_field r1 _).
  destruct (selectCongestionLevel_frame (adaptiveWindowStats s) (boundaryClass s) s3)
    as (b2 & ->).
  match goal with |- context [adjustWindowSize c ?k ?x] => set (s4 := x) end.
  assert (Hs4 : exists s0, same_sizing s s0 /\ same_sizing (adjustWindowSize c (boundaryClass s) s0)
    (adjustWindowSize c (boundaryClass s) s4 <| adaptiveWindowStats := emptyStats |>))
    by (by exists s4).
  destruct (adjustWindowSize_frame (boundaryClass s) s4) as (W & k1 & n1 & p1 & Had).
  rewrite Had in Hs4 |- *. clear Had. subst s3 s4.
  split; cbn; try done.
  eexists. rewrite Hlog. split; [reflexivity|]. cbn. by rewrite Hmode.
Qed.

Lemma adaptiveAdvanceWindow_inside s :
  cycles (adaptiveWindowStats s) < adaptiveWindowCycles s ->
  adaptiveAdvanceWindow c s = s.
Proof. intros H. unfold adaptiveAdvanceWindow. by rewrite (proj2 (Z.ltb_lt _ _) H). Qed.

End Frames.

(** ** Widths *)

Section Widths.
Context (c : AdaptiveConfig).

Lemma fetchWidthFromParam_bounds p :
  1 <= adaptiveAggressiveFetch c ->
  1 <= adaptiveFetchWidthFromParam c p <= adaptiveAggressiveFetch c.
Proof. intros H. unfold adaptiveFetchWidthFromParam. case_ifs; lia. Qed.

(** with the squash-proportional widths off, the fetch stage is never given
    more than the configured fetch width and never zero, whatever mode and
    sub-level the controller is in. *)
Theorem adaptiveFetchWidth_bounds s :
  1 <= adaptiveAggressiveFetch c ->
  adaptiveSquashProportionalFW c = 0 ->
  1 <= adaptiveFetchWidth c s <= adaptiveAggressiveFetch c.
Proof.
  intros H Hsq. pose proof fetchWidthFromParam_bounds as Hb.
  unfold adaptiveFetchWidth. rewrite Hsq.
  destruct (adaptiveCurrentMode s); case_tests; bool_to_prop; auto; lia.
Qed.

Lemma clampWidth_bounds lim base :
  1 <= base -> 1 <= (if lim =? 0 then base else Z.max 1 (Z.min base lim)) <= base.
Proof. case_ifs; lia. Qed.

(** rename and dispatch always keep at least one slot and never exceed the
    width of the stage. *)
Theorem adaptive_rename_dispatch_bounds s base :
  1 <= base ->
  1 <= adaptiveRenameWidth c s base <= base /\
  1 <= adaptiveDispatchWidth c s base <= base.
Proof.
  intros H. unfold adaptiveRenameWidth, adaptiveDispatchWidth.
  split; case_ifs; auto using clampWidth_bounds; lia.
Qed.

End Widths.

(** ** Throttle *)

Section Throttle.
Context (c : AdaptiveConfig).

(** The in-flight cap parameters; they are [unsigned]. *)
Definition inflightCaps : list Z :=
  [adaptiveSerializedInflightCap c; adaptiveHighMLPInflightCap c;
   adaptiveControlInflightCap c; adaptiveResourceTightInflightCap c;
   adaptiveResourceInflightCap c; adaptiveSerializedTightInflightCap c;
   adaptiveConservativeInflightCap c; adaptiveResourceCongestionInflightCap c].

Lemma inflightCap_pos s : Forall in_u32 inflightCaps -> 1 <= adaptiveEffectiveInflightCap c s.
Proof.
  intros H. unfold inflightCaps, in_u32 in H. rewrite !Forall_cons in H. destruct_and!.
  unfold adaptiveEffectiveInflightCap, adaptiveInflightCapFromParam, UINT_MAX.
  destruct (adaptiveCurrentMode s); case_tests; bool_to_prop; lia.
Qed.

(** the throttle cannot starve the pipeline: once the ROB, the instruction
    queue and the load/store queue have drained, fetch is allowed, in every
    mode and for every value of the cap parameters. *)
Theorem adaptiveShouldThrottleFetch_drained s v :
  Forall in_u32 inflightCaps ->
  rob_getThreadEntries v = 0 -> instQueue_getCount v = 0 -> ldstQueue_getCount v = 0 ->
  adaptiveShouldThrottleFetch c v s = false.
Proof.
  intros Hc%(inflightCap_pos s) Hr Hi Hl. unfold adaptiveShouldThrottleFetch.
  rewrite Hr, Hi, Hl. case_tests; bool_to_prop; try done; lia.
Qed.

(** the throttle is monotone: a fuller pipeline is throttled whenever an
    emptier one is. *)
Theorem adaptiveShouldThrottleFetch_mono s v v' :
  rob_getThreadEntries v <= rob_getThreadEntries v' ->
  instQueue_getCount v <= instQueue_getCount v' ->
  ldstQueue_getCount v <= ldstQueue_getCount v' ->
  adaptiveShouldThrottleFetch c v s = true ->
  adaptiveShouldThrottleFetch c v' s = true.
Proof.
  intros Hr Hi Hl. unfold adaptiveShouldThrottleFetch.
  case_tests; bool_to_prop; try done; try lia;
    repeat match goal with
    | H : (_ && _)%bool = false |- _ => apply andb_false_iff in H as [?|?]
    end; bool_to_prop; lia.
Qed.

End Throttle.

(** ** Disabled controller *)

Lemma foldl_noteEvent_disabled c s es :
  adaptiveEnable c = false -> foldl (noteEvent c) s es = s.
Proof.
  intros H. revert s. induction es as [|e es IH]; intros s; cbn; [done|].
  rewrite IH. destruct e; cbn;
    unfold adaptiveNoteFetchedInst, adaptiveNoteCommittedInst,
      adaptiveNoteSquashedInst, adaptiveNoteBranchMispredict; by rewrite H.
Qed.

(** C39: with [enableStallAdaptive] off the CPU is the baseline CPU: no run
    changes the controller's state or writes its log, every width is the
    stage's own and fetch is never throttled. *)
Theorem disabled_is_baseline c s inputs v base :
  adaptiveEnable c = false ->
  run c s inputs = s /\
  adaptiveFetchWidth c s = adaptiveAggressiveFetch c /\
  adaptiveRenameWidth c s base = base /\
  adaptiveDispatchWidth c s base = base /\
  adaptiveShouldThrottleFetch c v s = false.
Proof.
  intros H. split.
  - induction inputs as [|i inputs IH]; cbn; [done|].
    unfold run in IH. unfold cycle at 2, tickAdaptive.
    by rewrite foldl_noteEvent_disabled, H.
  - unfold adaptiveFetchWidth, adaptiveRenameWidth, adaptiveDispatchWidth,
      adaptiveShouldThrottleFetch. by rewrite H.
Qed.

(** ** Classifier *)

Section Classifier.
Context (c : AdaptiveConfig).

(** The counters a throttled window is judged by. *)
Definition sameUnthrottledCounters (w w' : AdaptiveWindowStats) : Prop :=
  cycles w = cycles w' /\ fetchedInsts w = fetchedInsts w' /\
  committedInsts w = committedInsts w' /\ squashedInsts w = squashedInsts w' /\
  branchRecoveryCycles w = branchRecoveryCycles w' /\
  iqSaturationCycles w = iqSaturationCycles w' /\
  inflightInstSamples w = inflightInstSamples w'.

(** signal decoupling: outside aggressive mode the class of a window does
    not depend on its own memory counters (blocked cycles, load/store queue
    occupancy), only on the ones stored from the last aggressive window. *)
Theorem adaptiveClassifyWindow_decoupled s w w' :
  adaptiveCurrentMode s <> Aggressive ->
  sameUnthrottledCounters w w' ->
  adaptiveClassifyWindow c s w = adaptiveClassifyWindow c s w'.
Proof.
  intros Hm (H1 & H2 & H3 & H4 & H5 & H6 & H7).
  unfold adaptiveClassifyWindow, branchRecoveryRatio, squashRatio, iqSaturationRatio,
    commitActivityRatio, avgInflightProxy, cyclesD.
  rewrite (bool_decide_eq_false_2 _ Hm). by rewrite H1, H2, H3, H4, H5, H6, H7.
Qed.

Lemma ratio_not_nan n d : in_u64 n -> in_u64 d -> is_nan (safeRatio n d) = false.
Proof.
  intros Hn Hd. unfold safeRatio. destruct (Z.eqb_spec d 0); [done|].
  destruct (double_of_Z_pos d) as (m & e & ->); [unfold in_u64 in *; lia|].
  auto with o3.
Qed.

Lemma quotient_not_nan n d :
  in_u64 d -> is_nan (ddiv (double_of_Z n) (double_of_Z (Z.max d 1))) = false.
Proof.
  intros Hd. destruct (double_of_Z_pos (Z.max d 1)) as (m & e & ->);
    [unfold in_u64 in *; lia|]. auto with o3.
Qed.

(** The counters are [uint64_t]. *)
Record stats_u64 (w : AdaptiveWindowStats) : Prop := {
  su_cycles : in_u64 (cycles w);
  su_fetched : in_u64 (fetchedInsts w);
  su_committed : in_u64 (committedInsts w);
  su_squashed : in_u64 (squashedInsts w);
  su_mispredict : in_u64 (branchMispredictEvents w);
  su_blocked : in_u64 (commitBlockedMemCycles w);
  su_iqsat : in_u64 (iqSaturationCycles w);
  su_recovery : in_u64 (branchRecoveryCycles w);
  su_inflight : in_u64 (inflightInstSamples w);
  su_iqocc : in_u64 (iqOccupancySamples w);
  su_miss : in_u64 (outstandingMissSamples w)
}.

(** no signal of a window is ever a NaN, an empty window and a window
    without fetched instructions included, so none of the threshold tests is
    silently false. *)
Theorem window_signals_not_nan w :
  stats_u64 w ->
  is_nan (memBlockRatio w) = false /\ is_nan (avgOutstandingMisses w) = false /\
  is_nan (branchRecoveryRatio w) = false /\ is_nan (squashRatio w) = false /\
  is_nan (iqSaturationRatio w) = false /\ is_nan (commitActivityRatio w) = false /\
  is_nan (avgInflightProxy w) = false /\ is_nan (avgIQOccupancy w) = false.
Proof.
  intros []. assert (in_u64 (Z.max (fetchedInsts w) 1)) by (unfold in_u64 in *; lia).
  unfold memBlockRatio, avgOutstandingMisses, branchRecoveryRatio, squashRatio,
    iqSaturationRatio, commitActivityRatio, avgInflightProxy, avgIQOccupancy, cyclesD.
  auto 20 using ratio_not_nan, quotient_not_nan.
Qed.

End Classifier.

(** ** Cycles and runs *)

Section Cycles.
Context (c : AdaptiveConfig).
Implicit Types (s : AdaptiveState).

Lemma upd_stats_twice s w w' :
  s <| adaptiveWindowStats := w |> <| adaptiveWindowStats := w' |> =
  s <| adaptiveWindowStats := w' |>.
Proof. reflexivity. Qed.

Lemma upd_stats_id s : s <| adaptiveWindowStats := adaptiveWindowStats s |> = s.
Proof. by destruct s. Qed.

(** Between two boundaries only the window's counters change. *)
Lemma noteEvent_frame s e : exists w, noteEvent c s e = s <| adaptiveWindowStats := w |>.
Proof.
  destruct e; cbn; unfold adaptiveNoteFetchedInst, adaptiveNoteCommittedInst,
    adaptiveNoteSquashedInst, adaptiveNoteBranchMispredict;
    case_ifs; eauto using upd_stats_id; rewrite <- (upd_stats_id s) at 1; eauto.
Qed.

Lemma foldl_noteEvent_frame s es :
  exists w, foldl (noteEvent c) s es = s <| adaptiveWindowStats := w |>.
Proof.
  revert s. induction es as [|e es IH]; intros s; cbn [foldl].
  - eexists. symmetry. apply upd_stats_id.
  - destruct (noteEvent_frame s e) as [w ->].
    destruct (IH (s <| adaptiveWindowStats := w |>)) as [w' ->].
    eexists. apply upd_stats_twice.
Qed.

Lemma recordCycle_frame v s :
  exists w, adaptiveRecordCycleSignals c v s = s <| adaptiveWindowStats := w |>.
Proof.
  unfold adaptiveRecordCycleSignals. destruct (cpuNumThreads c =? 0); [|by eexists].
  eexists. symmetry. apply upd_stats_id.
Qed.

Lemma cycle_frame s i :
  cycle c s i = s \/
  exists w, cycle c s i = adaptiveAdvanceWindow c (s <| adaptiveWindowStats := w |>).
Proof.
  destruct (adaptiveEnable c) eqn:E; unfold cycle, tickAdaptive; rewrite ?E.
  - right. destruct (foldl_noteEvent_frame s i.1) as [w ->].
    destruct (recordCycle_frame i.2 (s <| adaptiveWindowStats := w |>)) as [w' ->].
    by eexists.
  - left. by apply foldl_noteEvent_disabled.
Qed.

(** A property of the number of cycles and the state that does not look at the
    counters and that a boundary keeps is kept by whole runs. *)
Lemma run_invariant (P : Z -> AdaptiveState -> Prop) n s inputs :
  (forall n s, P n s -> P (n + 1) s) ->
  (forall n s w, P n s -> P n (s <| adaptiveWindowStats := w |>)) ->
  (forall n s, adaptiveWindowCycles s <= cycles (adaptiveWindowStats s) -> P n s ->
    P (n + 1) (adaptiveAdvanceWindow c s)) ->
  P n s -> P (n + Z.of_nat (length inputs)) (run c s inputs).
Proof.
  intros Hn Hw Hb. revert n s.
  induction inputs as [|i inputs IH]; intros n s Hs; cbn [run foldl length].
  - by rewrite Z.add_0_r.
  - rewrite Nat2Z.inj_succ, <- Z.add_1_l, Z.add_assoc. apply IH.
    destruct (cycle_frame s i) as [->|[w ->]]; [auto|].
    destruct (Z.lt_ge_cases (cycles w) (adaptiveWindowCycles s)) as [Hlt|Hge].
    + rewrite adaptiveAdvanceWindow_inside; auto.
    + apply Hb; auto.
Qed.

End Cycles.

(** ** Automatic window size *)

Section AutoSize.
Context (c : AdaptiveConfig).
Implicit Types (s : AdaptiveState).

Definition changeRate (n : Z) : double :=
  ddiv (double_of_Z n) (double_of_Z adaptiveWindowCheckInterval).

(** The floating-point tests of the check interval, as integer tests. *)
Lemma changeRate_fast n : 0 <= n <= 8 -> dgt (changeRate n) (dlit 3 10) = (3 <=? n).
Proof.
  intros H. assert (n ∈ [0;1;2;3;4;5;6;7;8]) as Hn.
  { rewrite !elem_of_cons. lia. }
  repeat (apply elem_of_cons in Hn as [->|Hn]; [vm_compute; reflexivity|]).
  by apply elem_of_nil in Hn.
Qed.

Lemma changeRate_stable n : 0 <= n <= 8 -> dlt (changeRate n) (dlit 1 10) = (n =? 0).
Proof.
  intros H. assert (n ∈ [0;1;2;3;4;5;6;7;8]) as Hn.
  { rewrite !elem_of_cons. lia. }
  repeat (apply elem_of_cons in Hn as [->|Hn]; [vm_compute; reflexivity|]).
  by apply elem_of_nil in Hn.
Qed.

(** The next window size after [n] class changes in a check interval. *)
Definition nextWindowCycles (n W : Z) : Z :=
  if (3 <=? n) && (adaptiveWindowMin c <? W) then Z.max (adaptiveWindowMin c) (W / 2)
  else if (n =? 0) && (W <? adaptiveWindowMax c) then Z.min (adaptiveWindowMax c) (u32 (W * 2))
  else W.

Definition classChanges (cls : AdaptiveClass) s : Z :=
  adaptiveClassChangeCount s +
    (if decide (cls <> adaptivePrevWindowClass s) then 1 else 0).

(** The invariant of the auto-sizing counters. *)
Record autosize_wf s : Prop := {
  aw_check : 0 <= adaptiveWindowCheckCount s < adaptiveWindowCheckInterval;
  aw_change : 0 <= adaptiveClassChangeCount s <= adaptiveWindowCheckCount s
}.

Lemma adjustWindowSize_step cls s :
  autosize_wf s -> adaptiveWindowAutoSize c = true ->
  let s' := adjustWindowSize c cls s in
  autosize_wf s' /\
  adaptivePrevWindowClass s' = cls /\
  if adaptiveWindowCheckCount s =? adaptiveWindowCheckInterval - 1 then
    adaptiveWindowCheckCount s' = 0 /\ adaptiveClassChangeCount s' = 0 /\
    adaptiveWindowCycles s' = nextWindowCycles (classChanges cls s) (adaptiveWindowCycles s)
  else
    adaptiveWindowCheckCount s' = adaptiveWindowCheckCount s + 1 /\
    adaptiveClassChangeCount s' = classChanges cls s /\
    adaptiveWindowCycles s' = adaptiveWindowCycles s.
Proof.
  intros [Hc Hn] Hon. unfold adaptiveWindowCheckInterval in *. cbv zeta.
  unfold adjustWindowSize. rewrite Hon.
  set (s1 := if decide (cls <> adaptivePrevWindowClass s) then _ else s).
  assert (Hs1 : s1 = s <| adaptiveClassChangeCount := classChanges cls s |>).
  { subst s1. unfold classChanges. case_decide; destruct s; cbn in *; f_equal; [|lia].
    apply u32_small. unfold in_u32. lia. }
  rewrite Hs1. clearbody s1. clear Hs1 s1. cbn.
  rewrite u32_small by (unfold in_u32; lia).
  assert (Hk : 0 <= classChanges cls s <= adaptiveWindowCheckCount s + 1)
    by (unfold classChanges; case_decide; lia).
  fold (changeRate (classChanges cls s)). rewrite changeRate_fast, changeRate_stable by lia.
  destruct (Z.leb_spec adaptiveWindowCheckInterval (adaptiveWindowCheckCount s + 1)) as [H|H];
    unfold adaptiveWindowCheckInterval in *.
  - rewrite (proj2 (Z.eqb_eq (adaptiveWindowCheckCount s) _)) by lia. unfold nextWindowCycles.
    case_ifs; cbn; repeat split; cbn; unfold adaptiveWindowCheckInterval; lia.
  - rewrite (proj2 (Z.eqb_neq (adaptiveWindowCheckCount s) _)) by lia.
    cbn; repeat split; cbn; unfold adaptiveWindowCheckInterval; lia.
Qed.

(** auto-sizing, exactly: the window is reconsidered every eight windows;
    three or more class changes halve it (not below the minimum), none doubles
    it (not above the maximum), one or two leave it; both counters restart. *)
Theorem adjustWindowSize_spec cls s :
  autosize_wf s -> adaptiveWindowAutoSize c = true ->
  let s' := adjustWindowSize c cls s in
  autosize_wf s' /\
  adaptivePrevWindowClass s' = cls /\
  if adaptiveWindowCheckCount s =? adaptiveWindowCheckInterval - 1 then
    adaptiveWindowCheckCount s' = 0 /\ adaptiveClassChangeCount s' = 0 /\
    adaptiveWindowCycles s' = nextWindowCycles (classChanges cls s) (adaptiveWindowCycles s)
  else
    adaptiveWindowCheckCount s' = adaptiveWindowCheckCount s + 1 /\
    adaptiveClassChangeCount s' = classChanges cls s /\
    adaptiveWindowCycles s' = adaptiveWindowCycles s.
Proof. apply adjustWindowSize_step. Qed.

Lemma adjustWindowSize_off cls s :
  adaptiveWindowAutoSize c = false -> adjustWindowSize c cls s = s.
Proof. intros H. unfold adjustWindowSize. by rewrite H. Qed.

Lemma nextWindowCycles_bounds n W :
  adaptiveWindowMax c < 2 ^ 31 ->
  0 <= adaptiveWindowMin c -> adaptiveWindowMin c <= W <= adaptiveWindowMax c ->
  adaptiveWindowMin c <= nextWindowCycles n W <= adaptiveWindowMax c.
Proof.
  intros. unfold nextWindowCycles.
  assert (W / 2 <= W) by (apply Z.div_le_upper_bound; lia).
  case_tests; bool_to_prop; try lia.
  rewrite u32_small by (unfold in_u32; lia). lia.
Qed.

End AutoSize.

(** ** Window accounting *)

Section Accounting.
Context (c : AdaptiveConfig).
Implicit Types (s : AdaptiveState).

(** Every cycle counter of a window is bounded by the cycles of the window. *)
Record cycle_counters_le (w : AdaptiveWindowStats) : Prop := {
  cl_cycles : 0 <= cycles w;
  cl_blocked : 0 <= commitBlockedMemCycles w <= cycles w;
  cl_iqsat : 0 <= iqSaturationCycles w <= cycles w;
  cl_recovery : 0 <= branchRecoveryCycles w <= cycles w
}.

Lemma noteEvent_cycles s e :
  let w := adaptiveWindowStats s in
  let w' := adaptiveWindowStats (noteEvent c s e) in
  cycles w' = cycles w /\ commitBlockedMemCycles w' = commitBlockedMemCycles w /\
  iqSaturationCycles w' = iqSaturationCycles w /\
  branchRecoveryCycles w' = branchRecoveryCycles w.
Proof.
  destruct e; cbn; unfold adaptiveNoteFetchedInst, adaptiveNoteCommittedInst,
    adaptiveNoteSquashedInst, adaptiveNoteBranchMispredict; by case_ifs.
Qed.

Lemma foldl_noteEvent_cycles s es :
  let w := adaptiveWindowStats s in
  let w' := adaptiveWindowStats (foldl (noteEvent c) s es) in
  cycles w' = cycles w /\ (cycle_counters_le w -> cycle_counters_le w').
Proof.
  revert s. induction es as [|e es IH]; intros s; cbn [foldl]; [done|].
  destruct (IH (noteEvent c s e)) as [H1 H2].
  destruct (noteEvent_cycles s e) as (E1 & E2 & E3 & E4). split; [congruence|].
  intros [? ? ? ?]. apply H2. split; congruence.
Qed.

Lemma recordCycle_cycles v s :
  cpuNumThreads c <> 0 ->
  let w := adaptiveWindowStats s in
  let w' := adaptiveWindowStats (adaptiveRecordCycleSignals c v s) in
  cycles w < 2 ^ 64 - 1 -> cycle_counters_le w ->
  cycles w' = cycles w + 1 /\ cycle_counters_le w'.
Proof.
  intros Hn. cbv zeta. intros Hlt [? ? ? ?]. unfold adaptiveRecordCycleSignals.
  rewrite (proj2 (Z.eqb_neq _ _) Hn).
  case_ifs; cbn; rewrite !(u64_small (_ + 1)) by (unfold in_u64; lia);
    (split; [done|split; cbn; lia]).
Qed.

Definition row_ok (W : Z) (r : WindowLogRow) : Prop :=
  row_cycles r = W /\ 0 <= row_commit_blocked_mem_cycles r <= W.

(** The state after [n] cycles of a fixed window of [W] cycles. *)
Record accounted (W n : Z) s : Prop := {
  ac_size : adaptiveWindowCycles s = W;
  ac_le : cycle_counters_le (adaptiveWindowStats s);
  ac_len : Z.of_nat (length (adaptiveWindowLog s)) = n / W;
  ac_open : cycles (adaptiveWindowStats s) = n mod W;
  ac_rows : Forall (row_ok W) (adaptiveWindowLog s)
}.

Lemma advance_size_off s :
  adaptiveWindowAutoSize c = false ->
  adaptiveWindowCycles s <= cycles (adaptiveWindowStats s) ->
  adaptiveWindowCycles (adaptiveAdvanceWindow c s) = adaptiveWindowCycles s.
Proof.
  intros Hoff Hb. destruct (adaptiveAdvanceWindow_boundary c s Hb).
  destruct br_size0 as (s0 & (H1 & _) & H2). rewrite adjustWindowSize_off in H2 by done.
  destruct H2 as [H2 _]. congruence.
Qed.

Lemma accounted_advance W n s :
  adaptiveWindowAutoSize c = false -> 0 < W ->
  adaptiveWindowCycles s = W -> cycle_counters_le (adaptiveWindowStats s) ->
  Z.of_nat (length (adaptiveWindowLog s)) = n / W ->
  cycles (adaptiveWindowStats s) = n mod W + 1 ->
  Forall (row_ok W) (adaptiveWindowLog s) ->
  accounted W (n + 1) (adaptiveAdvanceWindow c s).
Proof.
  intros Hoff HW Hs Hle Hlen Hcyc Hrows.
  pose proof (Z.mod_pos_bound n W HW) as Hmod.
  pose proof (Z.div_mod n W ltac:(lia)) as Hdm.
  destruct (Z.lt_ge_cases (n mod W + 1) W) as [Hlt|Hge].
  - rewrite adaptiveAdvanceWindow_inside by lia.
    assert (Hd : (n + 1) / W = n / W) by (symmetry; apply (Z.div_unique _ _ _ (n mod W + 1)); lia).
    assert (Hm : (n + 1) mod W = n mod W + 1) by (symmetry; apply (Z.mod_unique _ _ (n / W)); lia).
    split; rewrite ?Hd, ?Hm; done.
  - assert (Hb : adaptiveWindowCycles s <= cycles (adaptiveWindowStats s)) by lia.
    assert (Hd : (n + 1) / W = n / W + 1) by (symmetry; apply (Z.div_unique _ _ _ 0); lia).
    assert (Hm : (n + 1) mod W = 0) by (symmetry; apply (Z.mod_unique _ _ (n / W + 1)); lia).
    pose proof (advance_size_off s Hoff Hb) as Hsz.
    destruct (adaptiveAdvanceWindow_boundary c s Hb).
    destruct br_log0 as (row & Hlog & _ & Hrc & Hrb & _).
    split; rewrite ?Hd, ?Hm, ?Hlog, ?br_stats0, ?length_app; cbn; try lia.
    + split; cbn; lia.
    + apply Forall_app. split; [done|]. constructor; [|constructor].
      destruct Hle. split; lia.
Qed.

Lemma accounted_cycle W n s i :
  adaptiveEnable c = true -> cpuNumThreads c <> 0 -> adaptiveWindowAutoSize c = false ->
  0 < W < 2 ^ 32 -> accounted W n s -> accounted W (n + 1) (cycle c s i).
Proof.
  intros Hen Hth Hoff HW []. unfold cycle, tickAdaptive. rewrite Hen.
  pose proof (Z.mod_pos_bound n W ltac:(lia)) as Hmod.
  destruct (foldl_noteEvent_cycles s i.1) as [Hc1 Hl1].
  destruct (foldl_noteEvent_frame c s i.1) as [w1 Hw1]. rewrite Hw1 in *. cbn in Hc1, Hl1.
  set (s1 := s <| adaptiveWindowStats := w1 |>) in *.
  pose proof (recordCycle_cycles i.2 s1 Hth) as Hr. cbv zeta in Hr.
  destruct Hr as [Hc2 Hl2]; [cbn; lia|cbn; auto|].
  destruct (recordCycle_frame c i.2 s1) as [w2 Hw2]. rewrite Hw2 in *. cbn in Hc2, Hl2.
  apply accounted_advance; cbn; auto; lia.
Qed.

End Accounting.

(** window accounting: with a fixed window of [W] cycles, after [N] cycles
    exactly [N / W] windows have been closed and logged and the open one has
    [N mod W] cycles; every logged window has exactly [W] cycles, no more of
    them blocked on memory than that. *)
Theorem run_window_accounting params inputs :
  Params.enableStallAdaptive params = true ->
  Params.numThreads params <> 0 ->
  Params.adaptiveWindowAutoSize params = false ->
  0 < Params.adaptiveWindowCycles params < 2 ^ 32 ->
  accounted (Params.adaptiveWindowCycles params) (Z.of_nat (length inputs))
    (run (configOf params) (initialState params) inputs).
Proof.
  intros Hen Hth Hau HW.
  induction inputs as [|i inputs IH] using rev_ind.
  - split; cbn; done.
  - unfold run in *. rewrite foldl_app, length_app, Nat2Z.inj_add.
    by apply accounted_cycle.
Qed.

(** ** The switching policy *)

Section Switching.
Context (c : AdaptiveConfig).
Implicit Types (s : AdaptiveState).

Lemma maybeSwitch_pending cls m s :
  adaptivePendingClass (adaptiveMaybeSwitch c cls m s) = cls.
Proof.
  unfold adaptiveMaybeSwitch. destruct (decide (cls <> adaptivePendingClass s)) as [H|H];
    case_ifs; cbn; try done; symmetry; by apply dec_stable.
Qed.

Lemma maybeSwitch_count cls m s :
  adaptivePendingClassCount (adaptiveMaybeSwitch c cls m s) =
    if decide (cls <> adaptivePendingClass s) then 1
    else u64 (adaptivePendingClassCount s + 1).
Proof. unfold adaptiveMaybeSwitch. case_ifs; reflexivity. Qed.

(** A window either keeps the mode and ages it, or satisfies both the
    hysteresis and the hold condition, adopts the target and restarts the age. *)
Lemma maybeSwitch_cases cls m s :
  let s' := adaptiveMaybeSwitch c cls m s in
  (adaptiveCurrentMode s' = adaptiveCurrentMode s /\
   adaptiveWindowsInMode s' = u64 (adaptiveWindowsInMode s + 1)) \/
  (adaptiveCurrentMode s' = m /\ m <> adaptiveCurrentMode s /\
   adaptiveWindowsInMode s' = 0 /\
   adaptiveSwitchHysteresis c <= adaptivePendingClassCount s' /\
   adaptiveMinModeWindows c <= adaptiveWindowsInMode s).
Proof.
  cbv zeta. unfold adaptiveMaybeSwitch.
  destruct (decide (cls <> adaptivePendingClass s)); cbn;
    case_decide; cbn; auto; case_tests; cbn; auto; bool_to_prop; auto 10.
Qed.

(** What the log shows of a switch at row [i]: the classes of the last
    [hysteresis] rows agree, and none of the [hold] rows before it switched. *)
Definition justified (log : list WindowLogRow) (i : nat) (row : WindowLogRow) : Prop :=
  adaptiveSwitchHysteresis c <= Z.of_nat i + 1 /\
  adaptiveMinModeWindows c <= Z.of_nat i /\
  (forall j r, Z.of_nat i - adaptiveSwitchHysteresis c < Z.of_nat j -> (j <= i)%nat ->
    log !! j = Some r -> row_class r = row_class row) /\
  (forall j r, Z.of_nat i - adaptiveMinModeWindows c <= Z.of_nat j -> (j < i)%nat ->
    log !! j = Some r -> row_switched r = "0"%string).

Record history s : Prop := {
  h_count : 0 <= adaptivePendingClassCount s <= Z.of_nat (length (adaptiveWindowLog s));
  h_classes : forall j r,
    Z.of_nat (length (adaptiveWindowLog s)) - adaptivePendingClassCount s <= Z.of_nat j ->
    adaptiveWindowLog s !! j = Some r ->
    row_class r = adaptiveClassName (adaptivePendingClass s);
  h_hold : 0 <= adaptiveWindowsInMode s <= Z.of_nat (length (adaptiveWindowLog s));
  h_quiet : forall j r,
    Z.of_nat (length (adaptiveWindowLog s)) - adaptiveWindowsInMode s <= Z.of_nat j ->
    adaptiveWindowLog s !! j = Some r -> row_switched r = "0"%string;
  h_justified : forall i r, adaptiveWindowLog s !! i = Some r ->
    row_switched r = "1"%string -> justified (adaptiveWindowLog s) i r
}.

Lemma justified_app log log' i r :
  (i < length log)%nat -> justified log i r -> justified (log ++ log') i r.
Proof.
  intros Hi (H1 & H2 & H3 & H4). repeat split; try done; intros j r' Hj Hlt Hl;
    rewrite lookup_app_l in Hl by lia; eauto.
Qed.

Lemma lookup_snoc_cases {A} (l : list A) (x y : A) j :
  (l ++ [x]) !! j = Some y ->
  (j < length l)%nat /\ l !! j = Some y \/ j = length l /\ y = x.
Proof.
  intros H. destruct (decide (j < length l)%nat).
  - rewrite lookup_app_l in H by done. auto.
  - right. assert (j < length (l ++ [x]))%nat by (by eapply lookup_lt_Some).
    rewrite length_app in *. cbn in *. assert (j = length l) as -> by lia.
    rewrite list_lookup_middle in H by done. split; congruence.
Qed.

(** The counters before a boundary, as the policy sees them. *)
Lemma boundaryS1_counters s :
  adaptivePendingClass (boundaryS1 s) = adaptivePendingClass s /\
  adaptivePendingClassCount (boundaryS1 s) = adaptivePendingClassCount s /\
  adaptiveWindowsInMode (boundaryS1 s) = adaptiveWindowsInMode s /\
  adaptiveCurrentMode (boundaryS1 s) = adaptiveCurrentMode s.
Proof. by destruct (boundaryS1_frame s) as (?&?&->). Qed.

Lemma history_advance s :
  adaptiveWindowCycles s <= cycles (adaptiveWindowStats s) ->
  Z.of_nat (length (adaptiveWindowLog s)) < 2 ^ 64 - 1 ->
  history s -> history (adaptiveAdvanceWindow c s).
Proof.
  intros Hb Hlen []. destruct (adaptiveAdvanceWindow_boundary c s Hb).
  destruct br_log0 as (row & Hlog & Hcls & _ & _ & Hsw).
  destruct (boundaryS1_counters s) as (Ep & Ec & Eh & Em).
  set (s' := adaptiveAdvanceWindow c s) in *. set (n := length (adaptiveWindowLog s)) in *.
  assert (Hn' : length (adaptiveWindowLog s') = S n) by (rewrite Hlog, length_app; cbn; lia).
  (* the pending class and its age *)
  assert (Hp : adaptivePendingClass s' = boundaryClass c s).
  { rewrite br_pending0. apply maybeSwitch_pending. }
  assert (Hc : 0 < adaptivePendingClassCount s' <= Z.of_nat n + 1 /\
    (adaptivePendingClassCount s' <> 1 -> adaptivePendingClass s = boundaryClass c s /\
      adaptivePendingClassCount s' = adaptivePendingClassCount s + 1)).
  { rewrite br_count0. unfold boundaryS2. rewrite maybeSwitch_count, Ep, Ec.
    destruct (decide (boundaryClass c s <> adaptivePendingClass s)) as [Hd|Hd]; [split; [lia|done]|]. apply dec_stable in Hd.
    rewrite u64_small by (unfold in_u64; lia). split; [lia|done]. }
  assert (Hcl : forall j r, Z.of_nat n + 1 - adaptivePendingClassCount s' <= Z.of_nat j ->
    adaptiveWindowLog s' !! j = Some r -> row_class r = adaptiveClassName (boundaryClass c s)).
  { intros j r Hj Hl. rewrite Hlog in Hl. apply lookup_snoc_cases in Hl as [[Hlt Hl]|[-> ->]];
      [|done]. fold n in Hlt.
    destruct Hc as [Hc1 Hc2]. destruct Hc2 as [<- Hc2]; [lia|]. eapply (h_classes0 j); [lia|done]. }
  (* the age of the mode *)
  pose proof (maybeSwitch_cases (boundaryClass c s)
    (adaptiveMapClassToMode c (boundaryClass c s)) (boundaryS1 s)) as Hcase.
  cbv zeta in Hcase. fold (boundaryS2 c s) in Hcase. rewrite Eh, Em in Hcase.
  rewrite <- br_hold0, <- br_mode0, <- br_count0 in Hcase.
  destruct Hcase as [[Hmode Hhold]|(Hmode & Hne & Hhold & Hhy & Hmin)].
  - rewrite u64_small in Hhold by (unfold in_u64; lia).
    rewrite Hmode, bool_decide_eq_false_2 in Hsw by (intros []; done).
    split; rewrite ?Hn', ?Hp; try lia; try (intros j r Hj; apply Hcl; lia).
    + intros j r Hj Hl. rewrite Hlog in Hl. apply lookup_snoc_cases in Hl as [[_ Hl]|[-> ->]];
        [|done]. eapply (h_quiet0 j); [lia|done].
    + intros i r Hl Hr. rewrite Hlog in Hl |- *.
      apply lookup_snoc_cases in Hl as [[Hi Hl]|[-> ->]]; [|congruence].
      apply justified_app; auto.
  - split; rewrite ?Hn', ?Hp; try lia; try (intros j r Hj; apply Hcl; lia).
    + intros j r Hj Hl. apply lookup_lt_Some in Hl. lia.
    + intros i r Hl Hr. pose proof Hl as Hl0. rewrite Hlog in Hl.
      apply lookup_snoc_cases in Hl as [[Hi Hl]|[-> ->]].
      { rewrite Hlog. apply justified_app; auto. }
      repeat split; try (fold n; lia).
      * intros j r' Hj _ Hl'. rewrite Hcls. eapply (Hcl j); [fold n in Hj; lia|done].
      * intros j r' Hj Hlt Hl'. rewrite Hlog, lookup_app_l in Hl' by done.
        eapply (h_quiet0 j); [|done]. fold n in Hj. lia.
Qed.

End Switching.

(** C36: the switching policy as the log shows it: in the log of any run, a
    window marked as a switch is the last of at least [adaptiveSwitchHysteresis]
    consecutive windows of the same class, and at least
    [adaptiveMinModeWindows] windows lie between two switches (and before the
    first one). *)
Theorem run_switches_justified params inputs i r :
  Z.of_nat (length inputs) < 2 ^ 64 ->
  let c := configOf params in
  let log := adaptiveWindowLog (run c (initialState params) inputs) in
  log !! i = Some r -> row_switched r = "1"%string -> justified c log i r.
Proof.
  intros Hlen. cbv zeta. set (c := configOf params).
  pose (P := fun n s => Z.of_nat (length (adaptiveWindowLog s)) <= n /\ (n < 2 ^ 64 -> history c s)).
  assert (H : P (0 + Z.of_nat (length inputs)) (run c (initialState params) inputs)).
  { apply run_invariant; unfold P.
    - intros n s [H1 H2]. split; [lia|]. intros. apply H2. lia.
    - intros n s w [H1 H2]. split; [done|]. intros Hn. by destruct (H2 Hn).
    - intros n s Hb [H1 H2]. split.
      + destruct (adaptiveAdvanceWindow_boundary c s Hb). destruct br_log0 as (row & -> & _).
        rewrite length_app. cbn. lia.
      + intros Hn. apply history_advance; [done|lia|]. apply H2. lia.
    - split; [done|]. intros _. split; cbn; try lia; try (intros; by rewrite lookup_nil in *). }
  destruct H as [_ H]. destruct H; [lia|]. apply h_justified0.
Qed.

(** ** Modes a run cannot leave *)

Section Latching.
Context (c : AdaptiveConfig).
Implicit Types (s : AdaptiveState).

(** The stored memory signals say "serialized memory" and are frozen. *)
Record latched (m : AdaptiveMode) s : Prop := {
  la_mode : adaptiveCurrentMode s = m;
  la_target : adaptiveMapClassToMode c SerializedMemoryDominated = m;
  la_throttled : m <> Aggressive;
  la_mem : dge (adaptiveDecoupledMemBlockRatio s) (adaptiveMemBlockRatioThres c) = true;
  la_miss : dge (adaptiveDecoupledOutstandingMisses s) (adaptiveOutstandingMissThres c) = false
}.

Lemma boundaryS1_frozen s :
  adaptiveCurrentMode s <> Aggressive -> 1 <= adaptiveWindowId s < 2 ^ 64 - 1 ->
  boundaryS1 s = s <| adaptiveWindowId := u64 (adaptiveWindowId s + 1) |>.
Proof.
  intros Hm Hid. unfold boundaryS1, storeDecoupledSignals. cbn.
  rewrite (bool_decide_eq_false_2 _ Hm). cbn.
  rewrite u64_small by (unfold in_u64; lia).
  by rewrite (proj2 (Z.leb_gt _ _)) by lia.
Qed.

Lemma maybeSwitch_same cls s :
  adaptiveCurrentMode (adaptiveMaybeSwitch c cls (adaptiveCurrentMode s) s) =
  adaptiveCurrentMode s.
Proof. unfold adaptiveMaybeSwitch. case_ifs; cbn in *; done. Qed.

Lemma latched_class m s w :
  latched m s -> adaptiveClassifyWindow c s w = SerializedMemoryDominated.
Proof.
  intros []. unfold adaptiveClassifyWindow.
  rewrite bool_decide_eq_false_2 by congruence. by rewrite la_mem0, la_miss0.
Qed.

Lemma latched_advance m s :
  adaptiveWindowCycles s <= cycles (adaptiveWindowStats s) ->
  1 <= adaptiveWindowId s < 2 ^ 64 - 1 -> latched m s -> latched m (adaptiveAdvanceWindow c s).
Proof.
  intros Hb Hid Hl. destruct (adaptiveAdvanceWindow_boundary c s Hb).
  assert (HS1 := boundaryS1_frozen s ltac:(destruct Hl; congruence) Hid).
  assert (Hl1 : latched m (boundaryS1 s)) by (rewrite HS1; by destruct Hl).
  assert (Hc : boundaryClass c s = SerializedMemoryDominated) by (by eapply latched_class).
  destruct Hl1. split; try congruence.
  rewrite br_mode0. unfold boundaryS2. rewrite Hc, la_target0, <- la_mode0.
  apply maybeSwitch_same.
Qed.

(** The window in which an aggressive run turns to the serialized class leaves
    the signals latched. *)
Lemma latched_entry s :
  adaptiveWindowCycles s <= cycles (adaptiveWindowStats s) ->
  adaptiveCurrentMode s = Aggressive ->
  adaptiveCurrentClass (adaptiveAdvanceWindow c s) = SerializedMemoryDominated ->
  adaptiveCurrentMode (adaptiveAdvanceWindow c s) <> Aggressive ->
  latched (adaptiveCurrentMode (adaptiveAdvanceWindow c s)) (adaptiveAdvanceWindow c s).
Proof.
  intros Hb Hm Hcls Hne. destruct (adaptiveAdvanceWindow_boundary c s Hb).
  set (s' := adaptiveAdvanceWindow c s) in *.
  assert (HS1 : boundaryS1 s = s <| adaptiveWindowId := u64 (adaptiveWindowId s + 1) |>
    <| adaptiveDecoupledMemBlockRatio := memBlockRatio (adaptiveWindowStats s) |>
    <| adaptiveDecoupledOutstandingMisses := avgOutstandingMisses (adaptiveWindowStats s) |>).
  { unfold boundaryS1, storeDecoupledSignals. cbn. by rewrite bool_decide_eq_true_2. }
  assert (Hc : boundaryClass c s = SerializedMemoryDominated).
  { rewrite <- Hcls, br_class0. unfold boundaryS2, adaptiveMaybeSwitch. by case_ifs. }
  assert (Hk := Hc). unfold boundaryClass, adaptiveClassifyWindow in Hk.
  rewrite HS1 in Hk. cbn in Hk. rewrite bool_decide_eq_true_2 in Hk by done.
  split; rewrite ?br_mem0, ?br_miss0, ?HS1; cbn; try done.
  - rewrite <- Hc. destruct (maybeSwitch_cases c (boundaryClass c s)
      (adaptiveMapClassToMode c (boundaryClass c s)) (boundaryS1 s)) as [[H _]|(H & _)].
    + fold (boundaryS2 c s) in H. rewrite <- br_mode0 in H.
      rewrite HS1 in H. cbn in H. congruence.
    + fold (boundaryS2 c s) in H. congruence.
  - case_tests; done.
  - case_tests; done.
Qed.

Lemma latched_run m s inputs :
  1 <= adaptiveWindowId s -> adaptiveWindowId s + Z.of_nat (length inputs) < 2 ^ 64 ->
  latched m s -> latched m (run c s inputs).
Proof.
  intros H1 Hlen Hl.
  pose (P := fun n s => 1 <= adaptiveWindowId s <= n /\ (n < 2 ^ 64 -> latched m s) \/ 2 ^ 64 <= n).
  assert (H : P (adaptiveWindowId s + Z.of_nat (length inputs)) (run c s inputs)).
  { apply run_invariant; unfold P.
    - intros n s0 [[H H']|H]; [left|right; lia]. split; [lia|]. intros. apply H'. lia.
    - intros n s0 w [[H H']|H]; [left|by right]. split; [done|]. intros Hn. by destruct (H' Hn).
    - intros n s0 Hb [[H H']|H]; [|right; lia].
      destruct (Z.lt_ge_cases (n + 1) (2 ^ 64)); [left|by right].
      destruct (adaptiveAdvanceWindow_boundary c s0 Hb).
      rewrite br_id0, u64_small by (unfold in_u64; lia). split; [lia|].
      intros. apply latched_advance; [done|lia|]. apply H'. lia.
    - left. split; [lia|done]. }
  destruct H as [[_ H]|H]; [|lia]. apply H. lia.
Qed.

End Latching.

(** C40: serialized throttling is permanent: when a window closes in aggressive
    mode, is classified as serialized memory and switches the mode, no
    continuation of the run, whatever the pipeline does, ever leaves that
    mode: the classifier then only sees the stored signals, which only
    aggressive windows refresh. *)
Theorem serialized_switch_permanent c s inputs :
  let s' := adaptiveAdvanceWindow c s in
  adaptiveWindowCycles s <= cycles (adaptiveWindowStats s) ->
  adaptiveCurrentMode s = Aggressive ->
  adaptiveCurrentClass s' = SerializedMemoryDominated ->
  adaptiveCurrentMode s' <> Aggressive ->
  0 <= adaptiveWindowId s ->
  adaptiveWindowId s + 1 + Z.of_nat (length inputs) < 2 ^ 64 ->
  adaptiveCurrentMode (run c s' inputs) = adaptiveCurrentMode s'.
Proof.
  cbv zeta. intros Hb Hm Hc Hne Hid Hlen.
  pose proof (latched_entry c s Hb Hm Hc Hne) as Hl.
  assert (Eid : adaptiveWindowId (adaptiveAdvanceWindow c s) = adaptiveWindowId s + 1).
  { destruct (adaptiveAdvanceWindow_boundary c s Hb). rewrite br_id0.
    apply u64_small. unfold in_u64. lia. }
  eapply la_mode, latched_run; [lia|lia|exact Hl].
Qed.

Lemma mapClassToProfile_not_aggressive c cls :
  adaptiveUseClassProfiles c = true -> adaptiveMapClassToMode c cls <> Aggressive.
Proof. intros H. unfold adaptiveMapClassToMode. rewrite H. by destruct cls. Qed.

(** The mode of a throttled state and its stored signals. *)
Definition frozen_signals (x y : double) (s : AdaptiveState) : Prop :=
  adaptiveCurrentMode s <> Aggressive /\
  adaptiveDecoupledMemBlockRatio s = x /\ adaptiveDecoupledOutstandingMisses s = y.

(** with per-class profiles, the first switch freezes the memory signals
    for good: no run ever returns to aggressive mode, so the stored signals
    never change again. *)
Theorem profiles_freeze_signals c s inputs :
  adaptiveUseClassProfiles c = true ->
  adaptiveCurrentMode s <> Aggressive ->
  1 <= adaptiveWindowId s -> adaptiveWindowId s + Z.of_nat (length inputs) < 2 ^ 64 ->
  frozen_signals (adaptiveDecoupledMemBlockRatio s) (adaptiveDecoupledOutstandingMisses s)
    (run c s inputs).
Proof.
  intros Hp Hm H1 Hlen.
  set (F := frozen_signals (adaptiveDecoupledMemBlockRatio s) (adaptiveDecoupledOutstandingMisses s)).
  pose (P := fun n s => 1 <= adaptiveWindowId s <= n /\ F s \/ 2 ^ 64 <= n).
  assert (H : P (adaptiveWindowId s + Z.of_nat (length inputs)) (run c s inputs)).
  { apply run_invariant; unfold P.
    - intros n s0 [[H H']|H]; [left|right; lia]. split; [lia|done].
    - auto.
    - intros n s0 Hb [[H (Ha & Hx & Hy)]|H]; [|right; lia].
      destruct (Z.lt_ge_cases (n + 1) (2 ^ 64)); [left|by right].
      assert (HS1 := boundaryS1_frozen s0 Ha ltac:(lia)).
      destruct (adaptiveAdvanceWindow_boundary c s0 Hb).
      rewrite br_id0, u64_small by (unfold in_u64; lia). split; [lia|].
      split; [|by rewrite br_mem0, br_miss0, HS1].
      rewrite br_mode0. destruct (maybeSwitch_cases c (boundaryClass c s0)
        (adaptiveMapClassToMode c (boundaryClass c s0)) (boundaryS1 s0)) as [[E _]|(E & _)];
        fold (boundaryS2 c s0) in E; rewrite E.
      + by rewrite HS1.
      + by apply mapClassToProfile_not_aggressive.
    - left. split; [lia|done]. }
  destruct H as [[_ H]|H]; [done|lia].
Qed.

(** the automatic window size stays between its two bounds for whole runs
    (the bounds being below 2^31, so that doubling does not wrap). *)
Theorem run_window_size_bounds params inputs :
  let c := configOf params in
  adaptiveWindowAutoSize c = true ->
  0 <= adaptiveWindowMin c ->
  adaptiveWindowMin c <= Params.adaptiveWindowCycles params <= adaptiveWindowMax c ->
  adaptiveWindowMax c < 2 ^ 31 ->
  adaptiveWindowMin c <= adaptiveWindowCycles (run c (initialState params) inputs)
    <= adaptiveWindowMax c.
Proof.
  cbv zeta. set (c := configOf params). intros Hon Hmin HW Hmax.
  pose (P := fun (_ : Z) s => autosize_wf s /\
    adaptiveWindowMin c <= adaptiveWindowCycles s <= adaptiveWindowMax c).
  assert (H : P (0 + Z.of_nat (length inputs)) (run c (initialState params) inputs)).
  { apply run_invariant; unfold P.
    - auto.
    - intros _ s w [[] H]. done.
    - intros _ s Hb [[Hw1 Hw2] H]. destruct (adaptiveAdvanceWindow_boundary c s Hb).
      destruct br_size0 as (s0 & (E1 & E2 & E3 & _) & (F1 & F2 & F3 & _)).
      rewrite E1, E2, E3 in *.
      destruct (adjustWindowSize_step c (boundaryClass c s) s0 (Build_autosize_wf _ Hw1 Hw2) Hon)
        as (Hwf & _ & Hcase).
      split; [destruct Hwf; split; congruence|]. rewrite <- F1. revert Hcase.
      case_ifs; intros (_ & _ & ->); [|lia]. apply nextWindowCycles_bounds; lia.
    - split; [|done]. split; cbn; unfold adaptiveWindowCheckInterval; lia. }
  apply H.
Qed.

(** ** Two corners of the code *)

(** the squash-proportional widths ignore the configured fetch width: on a
    machine that fetches fewer than seven instructions a low squash ratio in
    conservative mode widens fetch beyond it. *)
Theorem squash_proportional_exceeds_width c s :
  adaptiveEnable c = true -> adaptiveCurrentMode s = Conservative ->
  0 < adaptiveSquashProportionalFW c ->
  dlt (adaptiveCurrentSquashRatio s) (dlit 15 100) = true ->
  adaptiveAggressiveFetch c < 7 ->
  adaptiveAggressiveFetch c < adaptiveFetchWidth c s.
Proof.
  intros He Hm Hp Hsq Hw. unfold adaptiveFetchWidth, squashProportionalWidth.
  rewrite He, Hm, (proj2 (Z.ltb_lt _ _) Hp), Hsq. done.
Qed.

(** with a maximal window above 2^31 the doubling wraps: a stable phase
    then shrinks a window of 2^31 cycles or more instead of growing it. *)
Theorem autosize_doubling_wraps c cls s :
  autosize_wf s -> adaptiveWindowAutoSize c = true ->
  adaptiveWindowCheckCount s = 7 -> classChanges cls s = 0 ->
  2 ^ 31 <= adaptiveWindowCycles s < adaptiveWindowMax c ->
  adaptiveWindowMax c < 2 ^ 32 ->
  adaptiveWindowCycles (adjustWindowSize c cls s) < adaptiveWindowCycles s.
Proof.
  intros Hwf Hon Hk Hn HW Hmax.
  destruct (adjustWindowSize_step c cls s Hwf Hon) as (_ & _ & H).
  rewrite Hk in H. cbn in H. destruct H as (_ & _ & ->).
  unfold nextWindowCycles. rewrite Hn. cbn.
  rewrite (proj2 (Z.ltb_lt _ _)) by lia. unfold wrap.
  rewrite <- (Z.mod_unique (adaptiveWindowCycles s * 2) (2 ^ 32) 1
    (adaptiveWindowCycles s * 2 - 2 ^ 32)); lia.
Qed.

(** ** Witnesses *)

Module Witness.
Definition params : Params.BaseO3CPUParams :=
  Params.default <| Params.enableStallAdaptive := true |>
                 <| Params.adaptiveWindowCycles := 2 |>.
Definition c := configOf params.

(** A cycle in which commit waits for memory. *)
Definition memView : PipelineView := {|
  rob_getThreadEntries := 10; rob_isHeadReady := false; instQueue_getCount := 4;
  instQueue_isFull := false; ldstQueue_getCount := 2; ldstQueue_isStalled := false;
  ldstQueue_hasStoresToWB := true; ldstQueue_cacheBlocked := false;
  commit_isSquashing := false |}.

(** A cycle of an empty pipeline. *)
Definition idleView : PipelineView := {|
  rob_getThreadEntries := 0; rob_isHeadReady := false; instQueue_getCount := 0;
  instQueue_isFull := false; ldstQueue_getCount := 0; ldstQueue_isStalled := false;
  ldstQueue_hasStoresToWB := false; ldstQueue_cacheBlocked := false;
  commit_isSquashing := false |}.

Definition memCycle : list AdaptiveEvent * PipelineView := ([NoteFetched 4; NoteCommitted 2], memView).
Definition idleCycle : list AdaptiveEvent * PipelineView := ([], idleView).

(** The state at the end of the third memory-bound window, before the boundary. *)
Definition beforeSwitch : AdaptiveState :=
  adaptiveRecordCycleSignals c memView (run c (initialState params) (replicate 5 memCycle)).

Definition profParams := params <| Params.adaptiveUseClassProfiles := true |>.
Definition autoParams := params <| Params.adaptiveWindowAutoSize := true |>
  <| Params.adaptiveWindowMin := 1 |> <| Params.adaptiveWindowMax := 4 |>.
Definition wrapParams := params <| Params.adaptiveWindowAutoSize := true |>
  <| Params.adaptiveWindowMax := 4000000000 |>.
Definition narrowParams := params <| Params.fetchWidth := 4 |>
  <| Params.adaptiveSquashProportionalFW := 1 |>.
End Witness.

Lemma adaptiveFetchWidth_bounds_witness :
  1 <= adaptiveFetchWidth Witness.c (run Witness.c (initialState Witness.params)
    (replicate 6 Witness.memCycle)) <= 8.
Proof. apply (adaptiveFetchWidth_bounds Witness.c); [vm_compute; discriminate|reflexivity]. Defined.

Lemma adaptive_rename_dispatch_bounds_witness :
  1 <= adaptiveRenameWidth Witness.c (initialState Witness.params) 8 <= 8 /\
  1 <= adaptiveDispatchWidth Witness.c (initialState Witness.params) 8 <= 8.
Proof. apply (adaptive_rename_dispatch_bounds Witness.c). lia. Defined.

Lemma adaptiveShouldThrottleFetch_drained_witness :
  adaptiveShouldThrottleFetch Witness.c Witness.idleView
    (run Witness.c (initialState Witness.params) (replicate 6 Witness.memCycle)) = false.
Proof.
  apply (adaptiveShouldThrottleFetch_drained Witness.c);
    [|reflexivity|reflexivity|reflexivity].
  repeat constructor; vm_compute; discriminate.
Defined.

Lemma adaptiveShouldThrottleFetch_mono_witness :
  let s := run Witness.c (initialState Witness.params) (replicate 6 Witness.memCycle) in
  let v n := Build_PipelineView n false 0 false 0 false false false false in
  adaptiveShouldThrottleFetch Witness.c (v 200) s = true.
Proof.
  cbv zeta. eapply (adaptiveShouldThrottleFetch_mono Witness.c _
    (Build_PipelineView 128 false 0 false 0 false false false false));
    [cbn; lia|cbn; lia|cbn; lia|vm_compute; reflexivity].
Defined.

Lemma disabled_is_baseline_witness :
  let c := configOf Params.default in
  run c (initialState Params.default) [Witness.memCycle] = initialState Params.default.
Proof.
  cbv zeta. apply (disabled_is_baseline (configOf Params.default) _ _ Witness.memView 8).
  reflexivity.
Defined.

Lemma adaptiveClassifyWindow_decoupled_witness :
  let s := run Witness.c (initialState Witness.params) (replicate 6 Witness.memCycle) in
  adaptiveClassifyWindow Witness.c s (mkStats 2 8 4 0 0 2 0 0 20 8 4) =
  adaptiveClassifyWindow Witness.c s (mkStats 2 8 4 0 0 0 0 0 20 8 0).
Proof.
  cbv zeta. apply adaptiveClassifyWindow_decoupled.
  - vm_compute. discriminate.
  - repeat split.
Defined.

Lemma window_signals_not_nan_witness :
  is_nan (memBlockRatio (mkStats 2 8 4 0 0 2 0 0 20 8 4)) = false.
Proof.
  apply window_signals_not_nan. split; vm_compute; split; try discriminate; reflexivity.
Defined.

Lemma adjustWindowSize_spec_witness :
  let s := initialState Witness.autoParams <| adaptiveWindowCheckCount := 7 |> in
  adaptiveWindowCycles
    (adjustWindowSize (configOf Witness.autoParams) ResourceContentionDominated s) = 4.
Proof.
  cbv zeta.
  destruct (adjustWindowSize_spec (configOf Witness.autoParams) ResourceContentionDominated
    (initialState Witness.autoParams <| adaptiveWindowCheckCount := 7 |>)) as (_ & _ & H).
  - split; vm_compute; split; try discriminate; reflexivity.
  - reflexivity.
  - destruct H as (_ & _ & H). rewrite H. vm_compute. reflexivity.
Defined.

Lemma run_window_accounting_witness :
  accounted 2 5 (run Witness.c (initialState Witness.params) (replicate 5 Witness.memCycle)).
Proof.
  apply (run_window_accounting Witness.params (replicate 5 Witness.memCycle));
    [reflexivity|discriminate|reflexivity|vm_compute; split; reflexivity].
Defined.

Lemma run_switches_justified_witness :
  let log := adaptiveWindowLog
    (run Witness.c (initialState Witness.params) (replicate 6 Witness.memCycle)) in
  exists r, log !! 2%nat = Some r /\ row_switched r = "1"%string /\ justified Witness.c log 2 r.
Proof.
  cbv zeta. eexists. split; [vm_compute; reflexivity|]. split; [reflexivity|].
  apply (run_switches_justified Witness.params (replicate 6 Witness.memCycle));
    [vm_compute; reflexivity|vm_compute; reflexivity|reflexivity].
Defined.

Lemma serialized_switch_permanent_witness :
  adaptiveCurrentMode (run Witness.c (adaptiveAdvanceWindow Witness.c Witness.beforeSwitch)
    (replicate 20 Witness.idleCycle)) = Conservative.
Proof.
  rewrite (serialized_switch_permanent Witness.c Witness.beforeSwitch);
    vm_compute; try reflexivity; discriminate.
Defined.

Lemma profiles_freeze_signals_witness :
  let c := configOf Witness.profParams in
  let s := run c (initialState Witness.profParams) (replicate 6 Witness.memCycle) in
  adaptiveCurrentMode (run c s (replicate 20 Witness.idleCycle)) <> Aggressive.
Proof.
  cbv zeta. apply (profiles_freeze_signals (configOf Witness.profParams));
    vm_compute; try reflexivity; discriminate.
Defined.

Lemma run_window_size_bounds_witness :
  1 <= adaptiveWindowCycles (run (configOf Witness.autoParams)
    (initialState Witness.autoParams) (replicate 40 Witness.memCycle)) <= 4.
Proof.
  apply (run_window_size_bounds Witness.autoParams);
    [reflexivity|vm_compute; discriminate|vm_compute; split; discriminate|vm_compute; reflexivity].
Defined.

Lemma squash_proportional_exceeds_width_witness :
  4 < adaptiveFetchWidth (configOf Witness.narrowParams)
        (initialState Witness.narrowParams <| adaptiveCurrentMode := Conservative |>).
Proof.
  apply (squash_proportional_exceeds_width (configOf Witness.narrowParams));
    vm_compute; reflexivity.
Defined.

Lemma autosize_doubling_wraps_witness :
  adaptiveWindowCycles (adjustWindowSize (configOf Witness.wrapParams)
    ResourceContentionDominated
    (initialState Witness.wrapParams <| adaptiveWindowCheckCount := 7 |>
       <| adaptiveWindowCycles := 3000000000 |>)) < 3000000000.
Proof.
  apply (autosize_doubling_wraps (configOf Witness.wrapParams));
    try (split; vm_compute; try split; try discriminate; reflexivity);
    vm_compute; try split; try discriminate; reflexivity.
Defined.
