(* ===== verification/Regs.v ===== *)
(** * Registers: identifiers, physical register file, free list, scoreboard

    [src/src/cpu/reg_class.hh] (identifiers and pinning), the identifiers and
    free-list initialisation of [src/src/cpu/o3/regfile.cc],
    [src/src/cpu/o3/free_list.hh] and [src/src/cpu/o3/scoreboard.hh].

    A [PhysRegIdPtr] points into the register file's identifier vectors, so the
    pointer is modelled by the immutable parts of the identifier (class, index
    and flat index); the mutable pinning counters are a separate store. *)

From stdpp Require Import base numbers list gmap.
From S2P Require Import Prelude.

#[local] Open Scope Z_scope.

(** ** Identifiers *)

Inductive RegClassType :=
  | IntRegClass | FloatRegClass | VecRegClass | VecElemClass
  | VecPredRegClass | MatRegClass | CCRegClass | MiscRegClass | InvalidRegClass.

#[export] Instance RegClassType_eq_dec : EqDecision RegClassType.
Proof. solve_decision. Defined.

(** The enumerator's value; [InvalidRegClass] is -1. *)
Definition classNum (c : RegClassType) : Z :=
  match c with
  | IntRegClass => 0 | FloatRegClass => 1 | VecRegClass => 2 | VecElemClass => 3
  | VecPredRegClass => 4 | MatRegClass => 5 | CCRegClass => 6 | MiscRegClass => 7
  | InvalidRegClass => -1
  end.

(** The classes the per-class arrays [std::array<..., CCRegClass + 1>] hold. *)
Definition renamedClasses : list RegClassType :=
  [IntRegClass; FloatRegClass; VecRegClass; VecElemClass; VecPredRegClass;
   MatRegClass; CCRegClass].

(** [array[type]]: the position in such an array, if there is one. *)
Definition classSlot (c : RegClassType) : option nat :=
  match c with
  | MiscRegClass | InvalidRegClass => None
  | c => Some (Z.to_nat (classNum c))
  end.

Record RegId := mkRegId {
  classValue : RegClassType;
  index : nat;
  numPinnedWrites : Z
}.

Definition isRenameable (r : RegId) : bool :=
  bool_decide (classValue r <> MiscRegClass) && bool_decide (classValue r <> InvalidRegClass).

(** A physical register, as a pointer. *)
Record PhysRegId := mkPhys {
  p_class : RegClassType;
  p_index : Z;
  flatIndex : Z
}.

#[export] Instance PhysRegId_eq_dec : EqDecision PhysRegId.
Proof. solve_decision. Defined.

#[export] Instance RegId_eq_dec : EqDecision RegId.
Proof. solve_decision. Defined.

Definition classOfNum (z : Z) : RegClassType :=
  nth (Z.to_nat z) (renamedClasses ++ [MiscRegClass]) InvalidRegClass.

#[export] Instance RegClassType_countable : Countable RegClassType.
Proof.
  apply (inj_countable' (fun c => Z.to_nat (classNum c + 1))
    (fun n => nth n (InvalidRegClass :: renamedClasses ++ [MiscRegClass]) InvalidRegClass)).
  by intros [].
Defined.

#[export] Instance PhysRegId_countable : Countable PhysRegId.
Proof.
  apply (inj_countable' (fun r => (p_class r, p_index r, flatIndex r))
    (fun '(c, i, f) => mkPhys c i f)).
  by intros [].
Defined.

Definition isFixedMapping (r : PhysRegId) : bool :=
  negb (bool_decide (p_class r <> MiscRegClass) && bool_decide (p_class r <> InvalidRegClass)).

(** [static PhysRegId invalidPhysRegId{}]. *)
Definition invalidPhysRegId : PhysRegId := mkPhys InvalidRegClass 65535 65535.

(** ** Pinning *)

(** The counters are [int]s and kept at that width. *)

Record PinInfo := mkPin {
  pinWrites : Z;             (* numPinnedWrites *)
  pinWritesToComplete : Z;   (* numPinnedWritesToComplete *)
  pinned : bool
}.

#[export] Instance eta_pin : Eta PinInfo := fun p =>
  mkPin (pinWrites p) (pinWritesToComplete p) (pinned p).

Abbreviation Pins := (gmap PhysRegId PinInfo).

Definition pinOf (ps : Pins) (r : PhysRegId) : PinInfo := default (mkPin 0 0 false) (ps !! r).
Definition updPin (r : PhysRegId) (f : PinInfo -> PinInfo) (ps : Pins) : Pins :=
  <[r := f (pinOf ps r)]> ps.

Definition setNumPinnedWrites (n : Z) (p : PinInfo) : PinInfo :=
  p <| pinned := negb (n =? 0) |> <| pinWrites := n |>.
Definition decrNumPinnedWrites (p : PinInfo) := p <| pinWrites := s32 (pinWrites p - 1) |>.
Definition incrNumPinnedWrites (p : PinInfo) := p <| pinWrites := s32 (pinWrites p + 1) |>.
Definition setNumPinnedWritesToComplete (n : Z) (p : PinInfo) := p <| pinWritesToComplete := n |>.
Definition decrNumPinnedWritesToComplete (p : PinInfo) :=
  p <| pinWritesToComplete := s32 (pinWritesToComplete p - 1) |>.
Definition incrNumPinnedWritesToComplete (p : PinInfo) :=
  p <| pinWritesToComplete := s32 (pinWritesToComplete p + 1) |>.

(** ** The physical register file's identifiers *)

Record PhysRegFile := {
  intRegIds : list PhysRegId;
  floatRegIds : list PhysRegId;
  vecRegIds : list PhysRegId;
  vecElemIds : list PhysRegId;
  vecPredRegIds : list PhysRegId;
  matRegIds : list PhysRegId;
  ccRegIds : list PhysRegId;
  miscRegIds : list PhysRegId;
  totalNumRegs : Z
}.

(** One of the constructor's loops: [RegIndex] is [uint16_t], so the flat index
    wraps at 2^16, and a count the 16-bit loop counter cannot reach is never
    reached ([None]). *)
Definition emplaceIds (cls : RegClassType) (n flat : Z) : option (list PhysRegId * Z) :=
  if n <? 2 ^ 16 then
    Some (foldl (fun '(ids, f) i => (ids ++ [mkPhys cls (Z.of_nat i) f], wrap 16 (f + 1)))
      ([], flat) (seq 0 (Z.to_nat n)))
  else None.

Definition PhysRegFile_ctor (nInt nFloat nVec nVecPred nMat nCC : Z)
    (numRegs : RegClassType -> Z) : option PhysRegFile :=
  if numRegs VecRegClass =? 0 then None (* division by zero *) else
  let nVecElem := u32 (nVec * (numRegs VecElemClass / numRegs VecRegClass)) in
  '(ints, f) ← emplaceIds IntRegClass nInt 0;
  '(floats, f) ← emplaceIds FloatRegClass nFloat f;
  '(vecs, f) ← emplaceIds VecRegClass nVec f;
  '(elems, f) ← emplaceIds VecElemClass nVecElem f;
  '(preds, f) ← emplaceIds VecPredRegClass nVecPred f;
  '(mats, f) ← emplaceIds MatRegClass nMat f;
  '(ccs, f) ← emplaceIds CCRegClass nCC f;
  let miscs := (fun i => mkPhys MiscRegClass (Z.of_nat i) 0) <$> seq 0 (Z.to_nat (numRegs MiscRegClass)) in
  Some {| intRegIds := ints; floatRegIds := floats; vecRegIds := vecs; vecElemIds := elems;
          vecPredRegIds := preds; matRegIds := mats; ccRegIds := ccs; miscRegIds := miscs;
          totalNumRegs := u32 (nInt + nFloat + nVec + nVecElem + nVecPred + nMat + nCC) |}.

Definition getMiscRegId (rf : PhysRegFile) (reg_idx : nat) : res PhysRegId :=
  deref (miscRegIds rf !! reg_idx).

(** ** Free lists *)

Module SimpleFreeList.
Abbreviation t := (list PhysRegId).
Definition addReg (reg : PhysRegId) (fl : t) : t := fl ++ [reg].
Definition getReg (fl : t) : res (PhysRegId * t) :=
  match fl with
  | [] => Panic
  | r :: fl => Ok (r, fl)
  end.
Definition numFreeRegs (fl : t) : Z := u32 (Z.of_nat (length fl)).
Definition hasFreeRegs (fl : t) : bool := negb (bool_decide (fl = [])).
End SimpleFreeList.

Module UnifiedFreeList.
(** [std::array<SimpleFreeList, CCRegClass + 1> freeLists]. *)
Abbreviation t := (list (list PhysRegId)).

Definition empty : t := replicate 7 [].

Definition getReg (type : RegClassType) (fl : t) : res (PhysRegId * t) :=
  i ← deref (classSlot type);
  l ← deref (fl !! i);
  '(r, l) ← SimpleFreeList.getReg l;
  Ok (r, <[i := l]> fl).

Definition addReg (freed_reg : PhysRegId) (fl : t) : res t :=
  i ← deref (classSlot (p_class freed_reg));
  l ← deref (fl !! i);
  Ok (<[i := SimpleFreeList.addReg freed_reg l]> fl).

Definition addRegs (regs : list PhysRegId) (fl : t) : res t :=
  foldR (fun fl r => addReg r fl) fl regs.

Definition hasFreeRegs (type : RegClassType) (fl : t) : res bool :=
  i ← deref (classSlot type);
  l ← deref (fl !! i);
  Ok (SimpleFreeList.hasFreeRegs l).

Definition numFreeRegs (type : RegClassType) (fl : t) : res Z :=
  i ← deref (classSlot type);
  l ← deref (fl !! i);
  Ok (SimpleFreeList.numFreeRegs l).
End UnifiedFreeList.

(** The check [assert(ids[reg_idx].index() == reg_idx)] for every entry, then
    the entries go to the free list of their class. *)
Definition checkedAddRegs (ids : list PhysRegId) (fl : UnifiedFreeList.t)
    : res UnifiedFreeList.t :=
  assert! forallb (fun '(i, r) => (p_index r =? Z.of_nat i)) (imap pair ids) ;;
  UnifiedFreeList.addRegs ids fl.

Definition initFreeList (rf : PhysRegFile) (fl : UnifiedFreeList.t) : res UnifiedFreeList.t :=
  fl ← checkedAddRegs (intRegIds rf) fl;
  fl ← checkedAddRegs (floatRegIds rf) fl;
  fl ← checkedAddRegs (vecRegIds rf) fl;
  fl ← checkedAddRegs (vecElemIds rf) fl;
  fl ← checkedAddRegs (vecPredRegIds rf) fl;
  fl ← checkedAddRegs (matRegIds rf) fl;
  checkedAddRegs (ccRegIds rf) fl.

(** ** Scoreboard *)

Module Scoreboard.
Record t := mk { regScoreBoard : list bool; numPhysRegs : Z }.
#[export] Instance eta_sb : Eta t := fun s => mk (regScoreBoard s) (numPhysRegs s).

Definition ctor (numPhysicalRegs : Z) : t :=
  mk (replicate (Z.to_nat numPhysicalRegs) true) numPhysicalRegs.

Definition getReg (r : PhysRegId) (sb : t) : res bool :=
  if isFixedMapping r then Ok true else
  assert! flatIndex r <? numPhysRegs sb ;;
  deref (regScoreBoard sb !! Z.to_nat (flatIndex r)).

Definition writeReg (r : PhysRegId) (b : bool) (sb : t) : res t :=
  if isFixedMapping r then Ok sb else
  assert! flatIndex r <? numPhysRegs sb ;;
  _ ← deref (regScoreBoard sb !! Z.to_nat (flatIndex r));
  Ok (sb <| regScoreBoard := <[Z.to_nat (flatIndex r) := b]> (regScoreBoard sb) |>).

Definition setReg (r : PhysRegId) (sb : t) : res t := writeReg r true sb.
Definition unsetReg (r : PhysRegId) (sb : t) : res t := writeReg r false sb.
End Scoreboard.

(** ** Identifiers are laid out consecutively *)

Definition idRange (cls : RegClassType) (n flat : Z) : list PhysRegId :=
  (fun i => mkPhys cls i (flat + i)) <$> seqZ 0 n.

Definition allIds (rf : PhysRegFile) : list PhysRegId :=
  intRegIds rf ++ floatRegIds rf ++ vecRegIds rf ++ vecElemIds rf ++
  vecPredRegIds rf ++ matRegIds rf ++ ccRegIds rf.

Lemma seqZ_0_seq n : 0 <= n -> seqZ 0 n = Z.of_nat <$> seq 0 (Z.to_nat n).
Proof. intros H. unfold seqZ. apply list_fmap_ext. intros. lia. Qed.

Lemma emplaceIds_spec cls n flat :
  0 <= n -> 0 <= flat -> flat + n < 2 ^ 16 ->
  emplaceIds cls n flat = Some (idRange cls n flat, flat + n).
Proof.
  intros Hn Hf Hlt. unfold emplaceIds. rewrite (proj2 (Z.ltb_lt _ _)) by lia. f_equal.
  rewrite <- (Z2Nat.id n) at 3 by done. rewrite <- (Z2Nat.id n) in Hlt by done.
  unfold idRange. rewrite seqZ_0_seq by done.
  set (m := Z.to_nat n) in *. clearbody m. clear Hn n.
  induction m as [|m IH]; [cbn; f_equal; lia|].
  rewrite seq_S, foldl_app, IH by lia. cbn.
  rewrite fmap_app, fmap_app. cbn. f_equal.
  rewrite wrap_small by lia. lia.
Qed.

Lemma idRange_flat cls n flat : flatIndex <$> idRange cls n flat = seqZ flat n.
Proof.
  unfold idRange, seqZ. rewrite <- !list_fmap_compose. apply list_fmap_ext. cbn. lia.
Qed.

Lemma emplaceIds_inv cls n flat ids f :
  0 <= n -> 0 <= flat -> flat + n < 2 ^ 16 ->
  emplaceIds cls n flat = Some (ids, f) -> ids = idRange cls n flat /\ f = flat + n.
Proof. intros ? ? ? H. rewrite emplaceIds_spec in H by done. by simplify_eq. Qed.

(** The counts of the constructor, element registers included. *)
Record regCounts := { k_int : Z; k_float : Z; k_vec : Z; k_pred : Z; k_mat : Z; k_cc : Z }.

Definition elemCount (k : regCounts) (numRegs : RegClassType -> Z) : Z :=
  k_vec k * (numRegs VecElemClass / numRegs VecRegClass).

Definition totalCount (k : regCounts) (numRegs : RegClassType -> Z) : Z :=
  k_int k + k_float k + k_vec k + elemCount k numRegs + k_pred k + k_mat k + k_cc k.

Record counts_ok (k : regCounts) (numRegs : RegClassType -> Z) : Prop := {
  ok_int : 0 <= k_int k; ok_float : 0 <= k_float k; ok_vec : 0 <= k_vec k;
  ok_pred : 0 <= k_pred k; ok_mat : 0 <= k_mat k; ok_cc : 0 <= k_cc k;
  ok_vecs : 0 < numRegs VecRegClass; ok_elems : 0 <= numRegs VecElemClass;
  ok_total : totalCount k numRegs < 2 ^ 16
}.

Definition buildRegFile (k : regCounts) (numRegs : RegClassType -> Z) : option PhysRegFile :=
  PhysRegFile_ctor (k_int k) (k_float k) (k_vec k) (k_pred k) (k_mat k) (k_cc k) numRegs.

Lemma elemCount_nonneg k numRegs : counts_ok k numRegs -> 0 <= elemCount k numRegs.
Proof.
  intros []. unfold elemCount. apply Z.mul_nonneg_nonneg; [done|]. by apply Z.div_pos.
Qed.

(** The register file the constructor builds. *)
Lemma buildRegFile_ok k numRegs :
  counts_ok k numRegs ->
  buildRegFile k numRegs = Some {|
    intRegIds := idRange IntRegClass (k_int k) 0;
    floatRegIds := idRange FloatRegClass (k_float k) (k_int k);
    vecRegIds := idRange VecRegClass (k_vec k) (k_int k + k_float k);
    vecElemIds := idRange VecElemClass (elemCount k numRegs) (k_int k + k_float k + k_vec k);
    vecPredRegIds := idRange VecPredRegClass (k_pred k)
      (k_int k + k_float k + k_vec k + elemCount k numRegs);
    matRegIds := idRange MatRegClass (k_mat k)
      (k_int k + k_float k + k_vec k + elemCount k numRegs + k_pred k);
    ccRegIds := idRange CCRegClass (k_cc k)
      (k_int k + k_float k + k_vec k + elemCount k numRegs + k_pred k + k_mat k);
    miscRegIds := (fun i => mkPhys MiscRegClass (Z.of_nat i) 0) <$>
      seq 0 (Z.to_nat (numRegs MiscRegClass));
    totalNumRegs := totalCount k numRegs |}.
Proof.
  intros Hk. pose proof (elemCount_nonneg _ _ Hk) as He. destruct Hk.
  unfold totalCount in *. unfold buildRegFile, PhysRegFile_ctor.
  rewrite (proj2 (Z.eqb_neq _ _)) by lia. fold (elemCount k numRegs). cbv zeta.
  rewrite (u32_small (elemCount k numRegs)) by (unfold in_u32; lia).
  do 7 (rewrite emplaceIds_spec by lia; cbn [mbind option_bind]).
  rewrite u32_small by (unfold in_u32; lia). reflexivity.
Qed.

(** every renameable physical register has its own scoreboard slot: over
    all classes, in the order of construction, the flat indices are exactly
    0, 1, ..., [totalNumPhysRegs() - 1]. *)
Theorem flat_indices_consecutive k numRegs rf :
  counts_ok k numRegs -> buildRegFile k numRegs = Some rf ->
  flatIndex <$> allIds rf = seqZ 0 (totalNumRegs rf) /\
  totalNumRegs rf = totalCount k numRegs.
Proof.
  intros Hk H. rewrite buildRegFile_ok in H by done. injection H as <-. split; [|done].
  pose proof (elemCount_nonneg _ _ Hk) as He. destruct Hk.
  unfold allIds, totalCount. cbn. rewrite !fmap_app, !idRange_flat.
  rewrite !seqZ_app by lia. rewrite !Z.add_0_l. by rewrite !app_assoc.
Qed.

(** ** The initial free list *)

Lemma addReg_class cls i r fl l :
  classSlot cls = Some i -> p_class r = cls -> fl !! i = Some l ->
  UnifiedFreeList.addReg r fl = Ok (<[i := l ++ [r]]> fl).
Proof. intros Hi Hr Hl. unfold UnifiedFreeList.addReg. rewrite Hr, Hi. cbn. by rewrite Hl. Qed.

Lemma addRegs_class cls i ids fl l :
  classSlot cls = Some i -> Forall (fun r => p_class r = cls) ids -> fl !! i = Some l ->
  UnifiedFreeList.addRegs ids fl = Ok (<[i := l ++ ids]> fl).
Proof.
  intros Hi Hall. revert fl l. unfold UnifiedFreeList.addRegs.
  induction Hall as [|r ids Hr Hall IH]; intros fl l Hl; cbn [foldR].
  - rewrite app_nil_r. by rewrite list_insert_id.
  - rewrite (addReg_class cls i) with (l := l) by done. cbn [mbind res_bind].
    rewrite (IH _ (l ++ [r])).
    + rewrite list_insert_insert_eq. by rewrite <- app_assoc.
    + apply list_lookup_insert_eq. by eapply lookup_lt_Some.
Qed.

Lemma idRange_checked cls n flat fl i l :
  0 <= n -> classSlot cls = Some i -> fl !! i = Some l ->
  checkedAddRegs (idRange cls n flat) fl = Ok (<[i := l ++ idRange cls n flat]> fl).
Proof.
  intros Hn Hi Hl. unfold checkedAddRegs.
  replace (forallb _ _) with true; cbn.
  - eapply addRegs_class; [done| |done].
    apply Forall_fmap, Forall_true. done.
  - symmetry. apply Is_true_true, forallb_True, Forall_lookup_2. intros j [j' r] Hj.
    rewrite list_lookup_imap in Hj. apply fmap_Some in Hj as (r' & Hr & [= -> ->]).
    unfold idRange in Hr. apply list_lookup_fmap_Some in Hr as (z & -> & Hz).
    apply lookup_seqZ in Hz as [-> _]. cbn. apply Is_true_true. lia.
Qed.

Lemma initFreeList_ok k numRegs rf :
  counts_ok k numRegs -> buildRegFile k numRegs = Some rf ->
  initFreeList rf UnifiedFreeList.empty =
    Ok [intRegIds rf; floatRegIds rf; vecRegIds rf; vecElemIds rf;
        vecPredRegIds rf; matRegIds rf; ccRegIds rf].
Proof.
  intros Hk H. rewrite buildRegFile_ok in H by done. injection H as <-.
  pose proof (elemCount_nonneg _ _ Hk). destruct Hk.
  unfold initFreeList. cbn [intRegIds floatRegIds vecRegIds vecElemIds vecPredRegIds
    matRegIds ccRegIds].
  do 7 (erewrite idRange_checked by first [lia|reflexivity]; cbn [mbind res_bind]).
  reflexivity.
Qed.

(** the initial free lists are complete and in order: after construction
    the free list of each class holds every physical register of the class,
    and none of the construction's assertions fails. *)
Theorem initFreeList_complete k numRegs rf :
  counts_ok k numRegs -> buildRegFile k numRegs = Some rf ->
  initFreeList rf UnifiedFreeList.empty =
    Ok [intRegIds rf; floatRegIds rf; vecRegIds rf; vecElemIds rf;
        vecPredRegIds rf; matRegIds rf; ccRegIds rf].
Proof. apply initFreeList_ok. Qed.

(** ** Scoreboard *)

Definition sb_wf (sb : Scoreboard.t) : Prop :=
  Z.of_nat (length (Scoreboard.regScoreBoard sb)) = Scoreboard.numPhysRegs sb.

(** A register the scoreboard has a slot for. *)
Definition tracked (sb : Scoreboard.t) (r : PhysRegId) : Prop :=
  isFixedMapping r = false /\ 0 <= flatIndex r < Scoreboard.numPhysRegs sb.

Lemma writeReg_ok sb r b :
  sb_wf sb -> tracked sb r ->
  Scoreboard.writeReg r b sb = Ok (Scoreboard.mk
    (<[Z.to_nat (flatIndex r) := b]> (Scoreboard.regScoreBoard sb)) (Scoreboard.numPhysRegs sb)).
Proof.
  intros Hw [Hf Hr]. unfold Scoreboard.writeReg, sb_wf in *. rewrite Hf.
  rewrite (proj2 (Z.ltb_lt _ _)) by lia. cbn.
  destruct (lookup_lt_is_Some_2 (Scoreboard.regScoreBoard sb) (Z.to_nat (flatIndex r)))
    as [x Hx]; [lia|]. by rewrite Hx.
Qed.

Lemma getReg_ok sb r :
  sb_wf sb -> tracked sb r -> exists b, Scoreboard.getReg r sb = Ok b /\
    Scoreboard.regScoreBoard sb !! Z.to_nat (flatIndex r) = Some b.
Proof.
  intros Hw [Hf Hr]. unfold Scoreboard.getReg, sb_wf in *. rewrite Hf.
  rewrite (proj2 (Z.ltb_lt _ _)) by lia. cbn.
  destruct (lookup_lt_is_Some_2 (Scoreboard.regScoreBoard sb) (Z.to_nat (flatIndex r)))
    as [x Hx]; [lia|]. rewrite Hx. eauto.
Qed.

(** the scoreboard is a faithful ready bit per register: writing a tracked
    register succeeds, is read back, and leaves every register with another
    flat index alone. *)
Theorem scoreboard_write_read sb r b :
  sb_wf sb -> tracked sb r ->
  exists sb', Scoreboard.writeReg r b sb = Ok sb' /\ sb_wf sb' /\
    Scoreboard.getReg r sb' = Ok b /\
    forall r', flatIndex r' <> flatIndex r -> 0 <= flatIndex r' ->
      Scoreboard.getReg r' sb' = Scoreboard.getReg r' sb.
Proof.
  intros Hw Ht. rewrite writeReg_ok by done. eexists. split; [done|].
  pose proof Ht as [Hf Hr]. unfold sb_wf in *. split; [|split].
  - cbn. by rewrite length_insert.
  - unfold Scoreboard.getReg. cbn. rewrite Hf, (proj2 (Z.ltb_lt _ _)) by lia. cbn.
    rewrite list_lookup_insert_eq by lia. done.
  - intros r' Hne Hpos. unfold Scoreboard.getReg. cbn.
    rewrite list_lookup_insert_ne by lia. done.
Qed.
