(* ===== verification/Monad.v ===== *)
(** * State and outcome

    The stages of the pipeline update a record of state through many small
    functions that may also fail an assertion.  They are written in the monad
    [M S]: a state passed along, with an outcome.  The two Hoare-style judgments
    are the partial one ([keeps]: an invariant survives every successful run)
    and the total one ([runs]: from the precondition the code returns, and
    returns what it should). *)

From stdpp Require Import base numbers list.
From S2P Require Import Prelude.

Definition M (S A : Type) : Type := S -> res (A * S).

#[export] Instance M_ret S : MRet (M S) := fun A a s => Ok (a, s).
#[export] Instance M_bind S : MBind (M S) := fun A B f m s =>
  match m s with Ok (a, s') => f a s' | Panic => Panic | Undef => Undef end.

Section Operations.
Context {S : Type}.

Definition gets {A} (f : S -> A) : M S A := fun s => Ok (f s, s).
Definition modify (f : S -> S) : M S unit := fun s => Ok (tt, f s).
Definition lift {A} (r : res A) : M S A := fun s =>
  match r with Ok a => Ok (a, s) | Panic => Panic | Undef => Undef end.
Definition assertM (b : bool) : M S unit := lift (assertR b).
Definition panic {A} : M S A := fun _ => Panic.
Definition when (b : bool) (m : M S unit) : M S unit := if b then m else mret tt.

Fixpoint forM {A} (l : list A) (body : A -> M S unit) : M S unit :=
  match l with
  | [] => mret tt
  | x :: l => body x ≫= λ _, forM l body
  end.

(** ** Invariants *)

Definition keeps (I : S -> Prop) {A} (m : M S A) : Prop :=
  forall s a s', I s -> m s = Ok (a, s') -> I s'.

Lemma keeps_ret I {A} (a : A) : keeps I (mret a).
Proof. intros s a' s' H [= <- <-]. done. Qed.

Lemma keeps_bind I {A B} (m : M S A) (f : A -> M S B) :
  keeps I m -> (forall a, keeps I (f a)) -> keeps I (m ≫= f).
Proof.
  intros Hm Hf s b s' H Hr. unfold mbind, M_bind in Hr.
  destruct (m s) as [[a s1]| |] eqn:E; try done. eapply Hf; [|done]. by eapply Hm.
Qed.

Lemma keeps_gets I {A} (f : S -> A) : keeps I (gets f).
Proof. intros s a s' H [= _ <-]. done. Qed.

Lemma keeps_modify I (f : S -> S) : (forall s, I s -> I (f s)) -> keeps I (modify f).
Proof. intros Hf s a s' H [= _ <-]. auto. Qed.

Lemma keeps_lift I {A} (r : res A) : keeps I (lift r).
Proof. intros s a s' H Hr. unfold lift in Hr. destruct r; try done. by injection Hr as _ <-. Qed.

Lemma keeps_assert I b : keeps I (assertM b).
Proof. apply keeps_lift. Qed.

Lemma keeps_panic I {A} : keeps I (panic : M S A).
Proof. intros s a s' _ [=]. Qed.

Lemma keeps_when I b m : keeps I m -> keeps I (when b m).
Proof. destruct b; [done|]. intros _. apply keeps_ret. Qed.

Lemma keeps_forM I {A} (l : list A) body :
  (forall x, keeps I (body x)) -> keeps I (forM l body).
Proof.
  intros Hb. induction l as [|x l IH]; [apply keeps_ret|]. cbn. by apply keeps_bind.
Qed.

(** ** Partial correctness *)

Definition triple {A} (P : S -> Prop) (m : M S A) (Q : A -> S -> Prop) : Prop :=
  forall s a s', P s -> m s = Ok (a, s') -> Q a s'.

Lemma triple_keeps {A} I (m : M S A) : triple I m (fun _ => I) <-> keeps I m.
Proof. done. Qed.

Lemma triple_ret {A} P (a : A) (Q : A -> S -> Prop) :
  (forall s, P s -> Q a s) -> triple P (mret a) Q.
Proof. intros H s a' s' Hs [= <- <-]. auto. Qed.

Lemma triple_bind {A B} P Q (m : M S A) (f : A -> M S B) (R : B -> S -> Prop) :
  triple P m Q -> (forall a, triple (Q a) (f a) R) -> triple P (m ≫= f) R.
Proof.
  intros Hm Hf s b s' Hs Hr. unfold mbind, M_bind in Hr.
  destruct (m s) as [[a s1]| |] eqn:E; try done. eapply Hf; [|done]. by eapply Hm.
Qed.

Lemma triple_conseq {A} (P P' : S -> Prop) (m : M S A) (Q Q' : A -> S -> Prop) :
  triple P' m Q' -> (forall s, P s -> P' s) -> (forall a s, Q' a s -> Q a s) -> triple P m Q.
Proof. intros Hm HP HQ s a s' Hs E. eauto. Qed.

Lemma triple_gets {A} (P : S -> Prop) (f : S -> A) : 
  triple P (gets f) (fun a s => P s /\ a = f s).
Proof. intros s a s' Hs [= <- <-]. auto. Qed.

Lemma triple_modify (P : S -> Prop) (f : S -> S) (Q : unit -> S -> Prop) :
  (forall s, P s -> Q tt (f s)) -> triple P (modify f) Q.
Proof. intros H s a s' Hs [= <- <-]. auto. Qed.

Lemma triple_lift {A} (P : S -> Prop) (r : res A) :
  triple P (lift r) (fun a s => P s /\ r = Ok a).
Proof. intros s a s' Hs Hr. unfold lift in Hr. destruct r; try done. by injection Hr as <- <-. Qed.

Lemma triple_assert (P : S -> Prop) b : triple P (assertM b) (fun _ s => P s /\ b = true).
Proof.
  intros s a s' Hs Hr. unfold assertM, lift in Hr. destruct b; try done. by injection Hr as <- <-.
Qed.

Lemma triple_panic {A} P (Q : A -> S -> Prop) : triple P panic Q.
Proof. intros s a s' _ [=]. Qed.

Lemma triple_when P b (m : M S unit) (Q : unit -> S -> Prop) :
  (b = true -> triple P m Q) -> (b = false -> forall s, P s -> Q tt s) -> triple P (when b m) Q.
Proof. destruct b; intros H1 H2; cbn; [auto|]. apply triple_ret. auto. Qed.

Lemma triple_frame {A} (P F : S -> Prop) (m : M S A) (Q : A -> S -> Prop) :
  triple P m Q -> keeps F m -> triple (fun s => P s /\ F s) m (fun a s => Q a s /\ F s).
Proof. intros Hm HF s a s' [Hs Hf] E. split; [by eapply Hm|by eapply HF]. Qed.

(** ** Total correctness *)

Definition runs {A} (P : S -> Prop) (m : M S A) (Q : A -> S -> Prop) : Prop :=
  forall s, P s -> exists a s', m s = Ok (a, s') /\ Q a s'.

Lemma runs_ret {A} P (a : A) (Q : A -> S -> Prop) : (forall s, P s -> Q a s) -> runs P (mret a) Q.
Proof. intros H s Hs. exists a, s. auto. Qed.

Lemma runs_bind {A B} P Q (m : M S A) (f : A -> M S B) (R : B -> S -> Prop) :
  runs P m Q -> (forall a, runs (Q a) (f a) R) -> runs P (m ≫= f) R.
Proof.
  intros Hm Hf s Hs. destruct (Hm s Hs) as (a & s1 & E & H1).
  destruct (Hf a s1 H1) as (b & s2 & E2 & H2). exists b, s2. split; [|done].
  unfold mbind, M_bind. by rewrite E.
Qed.

Lemma runs_conseq {A} (P P' : S -> Prop) (m : M S A) (Q Q' : A -> S -> Prop) :
  runs P' m Q' -> (forall s, P s -> P' s) -> (forall a s, Q' a s -> Q a s) -> runs P m Q.
Proof.
  intros Hm HP HQ s Hs. destruct (Hm s (HP s Hs)) as (a & s' & E & H). eauto.
Qed.

Lemma runs_gets {A} (P : S -> Prop) (f : S -> A) (Q : A -> S -> Prop) :
  (forall s, P s -> Q (f s) s) -> runs P (gets f) Q.
Proof. intros H s Hs. exists (f s), s. auto. Qed.

Lemma runs_modify (P : S -> Prop) (f : S -> S) (Q : unit -> S -> Prop) :
  (forall s, P s -> Q tt (f s)) -> runs P (modify f) Q.
Proof. intros H s Hs. exists tt, (f s). auto. Qed.

Lemma runs_assert (P : S -> Prop) b : b = true -> runs P (assertM b) (fun _ => P).
Proof. intros -> s Hs. exists tt, s. auto. Qed.

Lemma runs_forM {A} (I : S -> Prop) (l : list A) body :
  (forall x, x ∈ l -> runs I (body x) (fun _ => I)) -> runs I (forM l body) (fun _ => I).
Proof.
  induction l as [|x l IH]; intros Hb; cbn.
  - apply runs_ret. auto.
  - eapply runs_bind.
    + apply Hb. by apply list_elem_of_here.
    + intros ?. apply IH. intros y Hy. apply Hb. by apply list_elem_of_further.
Qed.

End Operations.

Create HintDb o3_keeps.

#[export] Hint Resolve keeps_ret keeps_gets keeps_lift keeps_assert keeps_panic
  keeps_when : o3_keeps.

(** Decompose a [keeps] goal along the structure of the code. *)
Ltac keeps_step :=
  match goal with
  | |- keeps _ (_ ≫= _) => apply keeps_bind; [|intros ?]
  | |- keeps _ (forM _ _) => apply keeps_forM; intros ?
  | |- keeps _ (when _ _) => apply keeps_when
  | |- keeps _ (if ?b then _ else _) => destruct b
  | |- keeps _ (match ?o with _ => _ end) => destruct o
  | |- keeps _ (let '(_, _) := ?p in _) => destruct p
  | |- keeps _ (modify _) => apply keeps_modify; intros ? ?
  | |- keeps _ _ => solve [auto with o3_keeps]
  end.

Ltac keeps_auto := repeat (cbv zeta; keeps_step).

(** ** Running the monad *)

Lemma bind_ok {S A B} (m : M S A) (f : A -> M S B) s b s' :
  (m ≫= f) s = Ok (b, s') -> exists a s1, m s = Ok (a, s1) /\ f a s1 = Ok (b, s').
Proof. unfold mbind, M_bind. destruct (m s) as [[a s1]| |]; naive_solver. Qed.

Lemma lift_ok {S A} (r : res A) (s : S) a s' : lift r s = Ok (a, s') -> r = Ok a /\ s' = s.
Proof. unfold lift. destruct r; naive_solver. Qed.

(** Take a successful run apart, step by step. *)
Ltac run_step :=
  match goal with
  | H : (_ ≫= _) _ = Ok _ |- _ => apply bind_ok in H as (? & ? & ? & H)
  | H : gets _ _ = Ok _ |- _ => injection H as <- <-
  | H : modify _ _ = Ok _ |- _ => injection H as <- <-
  | H : mret _ _ = Ok _ |- _ => injection H as <- <-
  | H : panic _ = Ok _ |- _ => discriminate H
  | H : lift _ _ = Ok _ |- _ => apply lift_ok in H as [? ->]
  | H : assertM _ _ = Ok _ |- _ => apply lift_ok in H as [? ->]
  | H : when ?b _ _ = Ok _ |- _ => unfold when in H; destruct b eqn:?
  end.
Ltac run := repeat run_step.

(** Run a computation forward, from a state. *)
Section Forward.
Context {S : Type}.

Lemma bind_gets {A B} (g : S -> A) (f : A -> M S B) s : (gets g ≫= f) s = f (g s) s.
Proof. done. Qed.

Lemma bind_modify {B} (g : S -> S) (f : unit -> M S B) s : (modify g ≫= f) s = f tt (g s).
Proof. done. Qed.

Lemma bind_ret {A B} (a : A) (f : A -> M S B) s : (mret a ≫= f) s = f a s.
Proof. done. Qed.

Lemma bind_lift {A B} (a : A) (f : A -> M S B) s : (lift (Ok a) ≫= f) s = f a s.
Proof. done. Qed.

Lemma bind_deref {A B} (a : A) (f : A -> M S B) s : (lift (deref (Some a)) ≫= f) s = f a s.
Proof. done. Qed.

Lemma bind_assert {B} (f : unit -> M S B) s : (assertM true ≫= f) s = f tt s.
Proof. done. Qed.

Lemma bind_when_false {B} m (f : unit -> M S B) s : (when false m ≫= f) s = f tt s.
Proof. done. Qed.

Lemma bind_bind {A B C} (m : M S A) (f : A -> M S B) (g : B -> M S C) s :
  ((m ≫= f) ≫= g) s = (m ≫= λ a, f a ≫= g) s.
Proof. unfold mbind, M_bind. by destruct (m s) as [[a s1]| |]. Qed.

Lemma modify_run (g : S -> S) s : modify g s = Ok (tt, g s).
Proof. done. Qed.

Lemma gets_run {A} (g : S -> A) s : gets g s = Ok (g s, s).
Proof. done. Qed.

Lemma ret_run {A} (a : A) (s : S) : (mret a : M S A) s = Ok (a, s).
Proof. done. Qed.

Lemma bind_run {A B} (m : M S A) (f : A -> M S B) s a s1 :
  m s = Ok (a, s1) -> (m ≫= f) s = f a s1.
Proof. intros H. unfold mbind, M_bind. by rewrite H. Qed.

Lemma bind_panic {A B} (m : M S A) (f : A -> M S B) s : m s = Panic -> (m ≫= f) s = Panic.
Proof. intros H. unfold mbind, M_bind. by rewrite H. Qed.

End Forward.

Ltac fwd_step :=
  first [rewrite bind_gets | rewrite bind_modify | rewrite bind_ret | rewrite bind_lift
        | rewrite bind_deref
        | rewrite bind_assert | rewrite bind_when_false | rewrite bind_bind
        | rewrite modify_run | rewrite gets_run | rewrite ret_run]; cbv beta.
Ltac fwd := repeat fwd_step.
