(* ===== verification/RenameMap.v ===== *)
(** * Rename maps

    [src/src/cpu/o3/rename_map.hh] and [rename_map.cc]: the per-class map from
    architectural to physical registers and the unified map over the classes.
    The free lists and the pinning counters they work on are shared by all maps
    and threads, so they are arguments and results of the operations. *)

From stdpp Require Import base numbers list gmap.
From S2P Require Import Prelude Regs.

#[local] Open Scope Z_scope.

(** The state [rename] works on: one thread's map, and what is shared. *)
Record RenameEnv := mkEnv {
  renameMaps : list (list (option PhysRegId));   (* null pointers are [None] *)
  freeLists : UnifiedFreeList.t;
  pins : Pins
}.

#[export] Instance eta_env : Eta RenameEnv := fun e =>
  mkEnv (renameMaps e) (freeLists e) (pins e).

Definition RenameInfo : Type := PhysRegId * PhysRegId.

Module SimpleRenameMap.
Abbreviation t := (list (option PhysRegId)).

(** [init] on a map that has not been initialised. *)
Definition init (numRegs : nat) (m : t) : res t :=
  assert! bool_decide (m = []) ;;
  Ok (replicate numRegs None).

(** [lookup]; its callers dereference the pointer at once. *)
Definition lookup (arch_reg : RegId) (m : t) : res PhysRegId :=
  assert! bool_decide (index arch_reg <= length m)%nat ;;
  o ← deref (m !! index arch_reg);
  deref o.

Definition setEntry (arch_reg : RegId) (phys_reg : PhysRegId) (m : t) : res t :=
  assert! bool_decide (index arch_reg <= length m)%nat ;;
  _ ← deref (m !! index arch_reg);
  Ok (<[index arch_reg := Some phys_reg]> m).

Definition rename (arch_reg : RegId) (m : t) (fl : SimpleFreeList.t) (ps : Pins)
    : res (RenameInfo * t * SimpleFreeList.t * Pins) :=
  o ← deref (m !! index arch_reg);
  prev_reg ← deref o;
  if decide (classValue arch_reg = InvalidRegClass) then
    assert! bool_decide (p_class prev_reg = InvalidRegClass) ;;
    Ok ((prev_reg, prev_reg), m, fl, ps)
  else if 0 <? pinWrites (pinOf ps prev_reg) then
    assert! numPinnedWrites arch_reg =? 0 ;;
    Ok ((prev_reg, prev_reg), m, fl, updPin prev_reg decrNumPinnedWrites ps)
  else
    '(renamed_reg, fl) ← SimpleFreeList.getReg fl;
    let m := <[index arch_reg := Some renamed_reg]> m in
    let ps := updPin renamed_reg (setNumPinnedWrites (numPinnedWrites arch_reg)) ps in
    let ps := updPin renamed_reg
                (setNumPinnedWritesToComplete (s32 (numPinnedWrites arch_reg + 1))) ps in
    Ok ((renamed_reg, prev_reg), m, fl, ps).
End SimpleRenameMap.

Section Unified.
Context (rf : PhysRegFile).

(** [UnifiedRenameMap::init]. *)
Definition initMaps (numRegs : RegClassType -> nat) (maps : list SimpleRenameMap.t)
    : res (list SimpleRenameMap.t) :=
  foldR (fun acc c =>
    i ← deref (classSlot c);
    m ← deref (maps !! i);
    m ← SimpleRenameMap.init (numRegs c) m;
    Ok (acc ++ [m])) [] renamedClasses.

Definition lookup (arch_reg : RegId) (maps : list SimpleRenameMap.t) : res PhysRegId :=
  match classValue arch_reg with
  | InvalidRegClass => Ok invalidPhysRegId
  | MiscRegClass => getMiscRegId rf (index arch_reg)
  | c =>
      i ← deref (classSlot c);
      m ← deref (maps !! i);
      SimpleRenameMap.lookup arch_reg m
  end.

Definition rename (arch_reg : RegId) (e : RenameEnv) : res (RenameInfo * RenameEnv) :=
  if negb (isRenameable arch_reg) then
    phys_reg ← lookup arch_reg (renameMaps e);
    Ok ((phys_reg, phys_reg), e)
  else
    i ← deref (classSlot (classValue arch_reg));
    m ← deref (renameMaps e !! i);
    fl ← deref (freeLists e !! i);
    '(info, m, fl, ps) ← SimpleRenameMap.rename arch_reg m fl (pins e);
    Ok (info, mkEnv (<[i := m]> (renameMaps e)) (<[i := fl]> (freeLists e)) ps).

Definition setEntry (arch_reg : RegId) (phys_reg : PhysRegId) (maps : list SimpleRenameMap.t)
    : res (list SimpleRenameMap.t) :=
  assert! bool_decide (p_class phys_reg = classValue arch_reg) ;;
  if negb (isRenameable arch_reg) then
    r ← lookup arch_reg maps;
    assert! bool_decide (phys_reg = r) ;;
    Ok maps
  else
    i ← deref (classSlot (classValue arch_reg));
    m ← deref (maps !! i);
    m ← SimpleRenameMap.setEntry arch_reg phys_reg m;
    Ok (<[i := m]> maps).

(** [numFreeEntries()]: the minimum over the classes in use. *)
Definition numFreeEntries (e : RenameEnv) : Z :=
  foldl (fun min_free '(m, fl) =>
    if bool_decide (m = []) then min_free else Z.min min_free (SimpleFreeList.numFreeRegs fl))
    UINT_MAX (zip (renameMaps e) (freeLists e)).

(** [canRename]: [numDestRegs] counts the destinations of a class. *)
Definition canRename (numDestRegs : RegClassType -> Z) (e : RenameEnv) : bool :=
  forallb (fun '(c, fl) => negb (SimpleFreeList.numFreeRegs fl <? numDestRegs c))
    (zip renamedClasses (freeLists e)).

End Unified.
