(* ===== verification/RenameHistory.v ===== *)
(** * Renaming with a history

    The part of the rename stage ([src/src/cpu/o3/rename.cc]) that owns the
    physical registers: renaming the destinations of an instruction records
    the previous mapping in the history buffer, a commit frees the previous
    registers of the committed instructions, a squash walks the history back.
    The theorems are the ones register renaming stands on: no physical register
    is lost or handed out twice, whatever sequence of renames, commits and
    squashes happens, and a squash restores the map it found. *)

From stdpp Require Import base numbers list gmap.
From S2P Require Import Prelude Regs RenameMap.

#[local] Open Scope Z_scope.

(** ** Definitions *)

Record RenameHistory := mkHist {
  instSeqNum : Z;
  archReg : RegId;
  newPhysReg : PhysRegId;
  prevPhysReg : PhysRegId
}.

(** The registers side of one thread: the environment and its history buffer,
    youngest entry first ([push_front]). *)
Record RegState := mkRegState {
  env : RenameEnv;
  historyBuffer : list RenameHistory
}.

#[export] Instance eta_regstate : Eta RegState := fun s =>
  mkRegState (env s) (historyBuffer s).

Section History.
Context (rf : PhysRegFile).

(** One destination of [renameDestRegs]: rename it and push the history entry.
    [flat_dest_regid] is the flattened register with the pinning of the
    original one. *)
Definition renameDest (seqNum : Z) (flat_dest_regid : RegId) (s : RegState)
    : res (RenameInfo * RegState) :=
  '(rename_result, e) ← rename rf flat_dest_regid (env s);
  let hb_entry := mkHist seqNum flat_dest_regid rename_result.1 rename_result.2 in
  Ok (rename_result, mkRegState e (hb_entry :: historyBuffer s)).

(** All destinations of an instruction, in order. *)
Fixpoint renameDests (seqNum : Z) (dests : list RegId) (s : RegState)
    : res (list RenameInfo * RegState) :=
  match dests with
  | [] => Ok ([], s)
  | d :: dests =>
      '(info, s) ← renameDest seqNum d s;
      '(infos, s) ← renameDests seqNum dests s;
      Ok (info :: infos, s)
  end.

(** The body of [doSquash]'s loop. *)
Definition undoEntry (h : RenameHistory) (e : RenameEnv) : res RenameEnv :=
  if decide (newPhysReg h <> prevPhysReg h) then
    maps ← setEntry rf (archReg h) (prevPhysReg h) (renameMaps e);
    fl ← UnifiedFreeList.addReg (newPhysReg h) (freeLists e);
    Ok (mkEnv maps fl (pins e))
  else Ok e.

Fixpoint doSquashLoop (squashed_seq_num : Z) (hb : list RenameHistory) (e : RenameEnv)
    : res RegState :=
  match hb with
  | [] => Ok (mkRegState e [])
  | h :: hb' =>
      if squashed_seq_num <? instSeqNum h then
        e ← undoEntry h e;
        doSquashLoop squashed_seq_num hb' e
      else Ok (mkRegState e hb)
  end.

Definition doSquash (squashed_seq_num : Z) (s : RegState) : res RegState :=
  doSquashLoop squashed_seq_num (historyBuffer s) (env s).

(** The body of [removeFromHistory]'s loop. *)
Definition commitEntry (h : RenameHistory) (e : RenameEnv) : res RenameEnv :=
  if decide (newPhysReg h <> prevPhysReg h) then
    fl ← UnifiedFreeList.addReg (prevPhysReg h) (freeLists e);
    Ok (mkEnv (renameMaps e) fl (pins e))
  else Ok e.

(** The loop runs from the back of the buffer: [bh] is the buffer reversed. *)
Fixpoint removeLoop (inst_seq_num : Z) (bh : list RenameHistory) (e : RenameEnv)
    : res (list RenameHistory * RenameEnv) :=
  match bh with
  | [] => Ok ([], e)
  | h :: bh' =>
      if instSeqNum h <=? inst_seq_num then
        e ← commitEntry h e;
        removeLoop inst_seq_num bh' e
      else Ok (bh, e)
  end.

Definition removeFromHistory (inst_seq_num : Z) (s : RegState) : res RegState :=
  '(bh, e) ← removeLoop inst_seq_num (reverse (historyBuffer s)) (env s);
  Ok (mkRegState e (reverse bh)).

(** ** What a thread owns *)

Definition freeOf (e : RenameEnv) (i : nat) : list PhysRegId := default [] (freeLists e !! i).
Definition mappedOf (maps : list (list (option PhysRegId))) (i : nat) : list PhysRegId :=
  omap id (default [] (maps !! i)).

(** The previous registers the history still keeps alive in class slot [i]. *)
Definition keptOf (hb : list RenameHistory) (i : nat) : list PhysRegId :=
  prevPhysReg <$> filter (fun h => newPhysReg h <> prevPhysReg h /\
    classSlot (p_class (prevPhysReg h)) = Some i) hb.

Definition owned (s : RegState) (i : nat) : list PhysRegId :=
  freeOf (env s) i ++ mappedOf (renameMaps (env s)) i ++ keptOf (historyBuffer s) i.

(** Reading and writing a map entry. *)
Definition mapGet (maps : list (list (option PhysRegId))) (a : RegId) : option PhysRegId :=
  i ← classSlot (classValue a); m ← maps !! i; o ← m !! index a; o.

Definition mapSet (maps : list (list (option PhysRegId))) (a : RegId) (r : PhysRegId)
    : list (list (option PhysRegId)) :=
  match classSlot (classValue a) with
  | Some i => alter (fun m => <[index a := Some r]> m) i maps
  | None => maps
  end.

(** The history can be walked back from the current map: each entry's register
    is the current mapping once the younger entries are undone. *)
Fixpoint undoable (hb : list RenameHistory) (maps : list (list (option PhysRegId))) : Prop :=
  match hb with
  | [] => True
  | h :: hb =>
      if decide (newPhysReg h = prevPhysReg h) then undoable hb maps else
      p_class (newPhysReg h) = classValue (archReg h) /\
      p_class (prevPhysReg h) = classValue (archReg h) /\
      mapGet maps (archReg h) = Some (newPhysReg h) /\
      undoable hb (mapSet maps (archReg h) (prevPhysReg h))
  end.

(** The map after walking back the entries of [hb]. *)
Fixpoint undoMaps (hb : list RenameHistory) (maps : list (list (option PhysRegId)))
    : list (list (option PhysRegId)) :=
  match hb with
  | [] => maps
  | h :: hb =>
      undoMaps hb (if decide (newPhysReg h = prevPhysReg h) then maps
                   else mapSet maps (archReg h) (prevPhysReg h))
  end.

(** Well-formed environments: the arrays have their seven slots and every
    register is in the slots of its own class. *)
Record env_wf (e : RenameEnv) : Prop := {
  ew_maps : length (renameMaps e) = 7%nat;
  ew_free : length (freeLists e) = 7%nat;
  ew_free_class : forall i r, r ∈ freeOf e i -> classSlot (p_class r) = Some i;
  ew_map_class : forall i r, r ∈ mappedOf (renameMaps e) i -> classSlot (p_class r) = Some i
}.

Record reg_wf (s : RegState) : Prop := {
  rw_env : env_wf (env s);
  rw_undo : undoable (historyBuffer s) (renameMaps (env s))
}.

(** Splitting a youngest-first history at a sequence number. *)
Fixpoint younger (n : Z) (hb : list RenameHistory) : list RenameHistory :=
  match hb with
  | [] => []
  | h :: hb => if n <? instSeqNum h then h :: younger n hb else []
  end.

Fixpoint notYounger (n : Z) (hb : list RenameHistory) : list RenameHistory :=
  match hb with
  | [] => []
  | h :: hb' => if n <? instSeqNum h then notYounger n hb' else hb
  end.

(** The entries a commit leaves, oldest first. *)
Fixpoint notCommitted (n : Z) (bh : list RenameHistory) : list RenameHistory :=
  match bh with
  | [] => []
  | h :: bh' => if instSeqNum h <=? n then notCommitted n bh' else bh
  end.

(** A register has at most one owner. *)
Definition reg_inv (s : RegState) : Prop := reg_wf s /\ forall i, NoDup (owned s i).

(** The operations of the stage on this state. *)
Inductive RegOp :=
  | OpRename (seqNum : Z) (dests : list RegId)
  | OpCommit (inst_seq_num : Z)
  | OpSquash (squashed_seq_num : Z).

Definition regStep (s : RegState) (op : RegOp) : res RegState :=
  match op with
  | OpRename seqNum dests => '(_, s) ← renameDests seqNum dests s; Ok s
  | OpCommit n => removeFromHistory n s
  | OpSquash n => doSquash n s
  end.

(** The destinations of class [c]. *)
Definition destsOf (c : RegClassType) (dests : list RegId) : Z :=
  Z.of_nat (length (filter (fun d => classValue d = c) dests)).

(** A destination the map can rename: an entry of an initialised map, or a
    register with a fixed mapping; and it does not ask to be pinned. *)
Definition renamableDest (maps : list (list (option PhysRegId))) (d : RegId) : Prop :=
  numPinnedWrites d = 0 /\
  match classValue d with
  | InvalidRegClass => True
  | MiscRegClass => (index d < length (miscRegIds rf))%nat
  | _ => is_Some (mapGet maps d)
  end.

(** ** Maps *)

Lemma omap_id_insert (m : list (option PhysRegId)) k old r :
  m !! k = Some (Some old) -> omap id (<[k := Some r]> m) ++ [old] ≡ₚ omap id m ++ [r].
Proof.
  intros H. rewrite <- (take_drop_middle m k (Some old) H) at 2.
  rewrite (insert_take_drop m k) by (by eapply lookup_lt_Some).
  rewrite !omap_app. cbn. rewrite <- !app_assoc. cbn.
  apply Permutation_app_head. rewrite <- !Permutation_cons_append. apply perm_swap.
Qed.

Lemma mapGet_inv maps a r :
  mapGet maps a = Some r ->
  exists i m, classSlot (classValue a) = Some i /\ maps !! i = Some m /\
    m !! index a = Some (Some r).
Proof.
  unfold mapGet. intros H.
  apply bind_Some in H as (i & Hi & H). apply bind_Some in H as (m & Hm & H).
  apply bind_Some in H as (o & Ho & ->). eauto.
Qed.

Lemma mappedOf_mapSet maps a old r i :
  mapGet maps a = Some old -> classSlot (classValue a) = Some i ->
  mappedOf (mapSet maps a r) i ++ [old] ≡ₚ mappedOf maps i ++ [r].
Proof.
  intros H Hi. apply mapGet_inv in H as (i' & m & Hi' & Hm & Hk).
  assert (i' = i) as -> by congruence. unfold mapSet, mappedOf. rewrite Hi.
  rewrite list_lookup_alter_eq, Hm. cbn. by apply omap_id_insert.
Qed.

Lemma mappedOf_mapSet_ne maps a r i :
  classSlot (classValue a) <> Some i -> mappedOf (mapSet maps a r) i = mappedOf maps i.
Proof.
  intros H. unfold mapSet, mappedOf. destruct (classSlot (classValue a)) as [j|]; [|done].
  by rewrite list_lookup_alter_ne by congruence.
Qed.

Lemma length_mapSet maps a r : length (mapSet maps a r) = length maps.
Proof. unfold mapSet. case_match; [apply length_alter|done]. Qed.

Lemma mapGet_mapSet maps a old r :
  mapGet maps a = Some old -> mapGet (mapSet maps a r) a = Some r.
Proof.
  intros H. apply mapGet_inv in H as (i & m & Hi & Hm & Hk).
  unfold mapGet, mapSet. rewrite Hi. cbn. rewrite list_lookup_alter_eq, Hm. cbn.
  rewrite list_lookup_insert_eq; [done|]. by eapply lookup_lt_Some.
Qed.

Lemma mapSet_undo maps a old r :
  mapGet maps a = Some old -> mapSet (mapSet maps a r) a old = maps.
Proof.
  intros H. apply mapGet_inv in H as (i & m & Hi & Hm & Hk).
  unfold mapSet. rewrite Hi.
  apply list_eq. intros j. destruct (decide (i = j)) as [<-|Hne].
  - rewrite !list_lookup_alter_eq, Hm. cbn. f_equal.
    rewrite list_insert_insert_eq. by apply list_insert_id.
  - by rewrite !list_lookup_alter_ne.
Qed.

Lemma mapGet_mapped maps a r i :
  mapGet maps a = Some r -> classSlot (classValue a) = Some i -> r ∈ mappedOf maps i.
Proof.
  intros H Hi. apply mapGet_inv in H as (i' & m & Hi' & Hm & Hk).
  assert (i' = i) as -> by congruence. unfold mappedOf. rewrite Hm. cbn.
  apply list_elem_of_omap. exists (Some r). split; [|done].
  by eapply list_elem_of_lookup_2.
Qed.

Lemma classSlot_inj c c' i : classSlot c = Some i -> classSlot c' = Some i -> c = c'.
Proof. intros H1 H2. destruct c, c'; vm_compute in H1, H2; congruence. Qed.

Lemma classSlot_renameable a i : classSlot (classValue a) = Some i -> isRenameable a = true.
Proof. unfold isRenameable. by destruct (classValue a). Qed.

Lemma setEntry_ok maps a old r :
  mapGet maps a = Some old -> p_class r = classValue a ->
  setEntry rf a r maps = Ok (mapSet maps a r).
Proof.
  intros H Hr. apply mapGet_inv in H as (i & m & Hi & Hm & Hk).
  unfold setEntry, mapSet. rewrite bool_decide_eq_true_2 by done. cbn.
  rewrite (classSlot_renameable a i Hi). cbn. rewrite Hi. cbn. rewrite Hm. cbn.
  unfold SimpleRenameMap.setEntry.
  assert (index a < length m)%nat by (by eapply lookup_lt_Some).
  rewrite bool_decide_eq_true_2 by lia. cbn. rewrite Hk. cbn. do 2 f_equal.
  apply list_eq. intros j. destruct (decide (i = j)) as [<-|Hne].
  - rewrite list_lookup_alter_eq, Hm. cbn. apply list_lookup_insert_eq.
    by eapply lookup_lt_Some.
  - by rewrite list_lookup_alter_ne, list_lookup_insert_ne.
Qed.

(** ** Free lists *)

Lemma freeList_addReg e r i :
  length (freeLists e) = 7%nat -> classSlot (p_class r) = Some i ->
  exists fl, UnifiedFreeList.addReg r (freeLists e) = Ok fl /\ length fl = 7%nat /\
    forall maps ps j, freeOf (mkEnv maps fl ps) j =
      if decide (j = i) then freeOf e i ++ [r] else freeOf e j.
Proof.
  intros Hlen Hi. destruct (lookup_lt_is_Some_2 (freeLists e) i) as [l Hl].
  { rewrite Hlen. destruct (p_class r); naive_solver lia. }
  exists (<[i := l ++ [r]]> (freeLists e)). split; [by eapply addReg_class|].
  rewrite length_insert. split; [done|]. intros maps ps j. unfold freeOf. cbn.
  case_decide as Hj; [subst j|].
  - rewrite list_lookup_insert_eq, Hl; [done|]. by eapply lookup_lt_Some.
  - by rewrite list_lookup_insert_ne by congruence.
Qed.

(** ** Walking the history back *)

Lemma keptOf_cons h hb i :
  keptOf (h :: hb) i =
    (if decide (newPhysReg h <> prevPhysReg h /\ classSlot (p_class (prevPhysReg h)) = Some i)
     then [prevPhysReg h] else []) ++ keptOf hb i.
Proof. unfold keptOf. rewrite filter_cons. by case_decide. Qed.

Lemma undoEntry_ok h hb e :
  env_wf e -> undoable (h :: hb) (renameMaps e) ->
  exists e', undoEntry h e = Ok e' /\ env_wf e' /\
    renameMaps e' = undoMaps [h] (renameMaps e) /\ pins e' = pins e /\
    undoable hb (renameMaps e') /\
    forall i, owned (mkRegState e' hb) i ≡ₚ owned (mkRegState e (h :: hb)) i.
Proof.
  intros [Hm Hf Hfc Hmc] Hu. cbn in Hu. unfold undoEntry. cbn [undoMaps].
  destruct (decide (newPhysReg h = prevPhysReg h)) as [Heq|Hne].
  - rewrite decide_False by (intros []; done). exists e. repeat split; try done.
    intros i. unfold owned. cbn [env historyBuffer]. by rewrite keptOf_cons, decide_False by tauto.
  - destruct Hu as (Hn & Hp & Hg & Hu). rewrite decide_True by done.
    rewrite (setEntry_ok _ _ _ _ Hg Hp). cbn.
    destruct (mapGet_inv _ _ _ Hg) as (i & m & Hi & _ & _).
    destruct (freeList_addReg e (newPhysReg h) i) as (fl & Hfl & Hlen & Hfree);
      [done|by rewrite Hn|].
    rewrite Hfl. cbn. eexists. split; [done|]. cbn.
    assert (Hmp := mappedOf_mapSet _ _ _ (prevPhysReg h) i Hg Hi).
    split; [|split; [done|split; [done|split; [done|]]]].
    + split; cbn; rewrite ?length_mapSet; try done.
      * intros j r. rewrite Hfree. case_decide as Hj; [subst j|auto].
        rewrite elem_of_app, list_elem_of_singleton. intros [Hr|Hr]; [eauto|subst r; congruence].
      * intros j r Hr. destruct (decide (Some i = Some j)) as [[= <-]|Hj].
        -- assert (Hr' : r ∈ mappedOf (mapSet (renameMaps e) (archReg h) (prevPhysReg h)) i ++ [newPhysReg h])
             by (rewrite elem_of_app; auto).
           rewrite Hmp in Hr'. rewrite elem_of_app, list_elem_of_singleton in Hr'.
           destruct Hr' as [Hr'|Hr']; [eauto|subst r; congruence].
        -- rewrite mappedOf_mapSet_ne in Hr by congruence. auto.
    + intros j. unfold owned. cbn [env historyBuffer renameMaps].
      rewrite Hfree, keptOf_cons. destruct (decide (j = i)) as [->|Hj].
      * rewrite decide_True by (split; congruence).
        rewrite <- app_assoc. apply Permutation_app_head.
        rewrite (Permutation_app_comm [newPhysReg h]), <- app_assoc.
        rewrite (Permutation_app_comm (keptOf hb i)), app_assoc, Hmp. by rewrite <- app_assoc.
      * rewrite decide_False by (intros [_ ?]; congruence).
        by rewrite mappedOf_mapSet_ne by congruence.
Qed.

Lemma younger_app n hb1 hb2 :
  Forall (fun h => n < instSeqNum h) hb1 -> Forall (fun h => instSeqNum h <= n) hb2 ->
  younger n (hb1 ++ hb2) = hb1 /\ notYounger n (hb1 ++ hb2) = hb2.
Proof.
  intros H1 H2. induction H1 as [|h hb1 Hh H1 IH]; cbn.
  - destruct H2 as [|h hb2 Hh H2]; cbn; [done|]. by rewrite (proj2 (Z.ltb_ge _ _)) by done.
  - rewrite (proj2 (Z.ltb_lt _ _)) by done. destruct IH. split; congruence.
Qed.

Lemma doSquashLoop_ok n hb e :
  env_wf e -> undoable hb (renameMaps e) ->
  exists e', doSquashLoop n hb e = Ok (mkRegState e' (notYounger n hb)) /\
    reg_wf (mkRegState e' (notYounger n hb)) /\
    renameMaps e' = undoMaps (younger n hb) (renameMaps e) /\ pins e' = pins e /\
    forall i, owned (mkRegState e' (notYounger n hb)) i ≡ₚ owned (mkRegState e hb) i.
Proof.
  revert e. induction hb as [|h hb IH]; intros e Hwf Hu.
  - exists e. done.
  - cbn [doSquashLoop younger notYounger]. destruct (n <? instSeqNum h) eqn:E.
    + destruct (undoEntry_ok h hb e Hwf Hu) as (e1 & -> & Hwf1 & Hm1 & Hp1 & Hu1 & Ho1).
      destruct (IH e1 Hwf1 Hu1) as (e2 & He2 & Hr2 & Hm2 & Hp2 & Ho2).
      exists e2. cbn [mbind res_bind]. split_and!; [exact He2|done| |congruence|].
      * rewrite Hm2, Hm1. done.
      * intros i. by rewrite Ho2, Ho1.
    + exists e. done.
Qed.

(** ** Committing *)

Lemma undoable_app hb1 hb2 maps :
  undoable (hb1 ++ hb2) maps <-> undoable hb1 maps /\ undoable hb2 (undoMaps hb1 maps).
Proof.
  revert maps. induction hb1 as [|h hb1 IH]; intros maps; cbn; [tauto|].
  case_decide; rewrite IH; tauto.
Qed.

Lemma undoMaps_app hb1 hb2 maps :
  undoMaps (hb1 ++ hb2) maps = undoMaps hb2 (undoMaps hb1 maps).
Proof. revert maps. induction hb1 as [|h hb1 IH]; intros maps; cbn; [done|]. apply IH. Qed.

Lemma keptOf_app hb1 hb2 i : keptOf (hb1 ++ hb2) i = keptOf hb1 i ++ keptOf hb2 i.
Proof. unfold keptOf. by rewrite filter_app, fmap_app. Qed.

Lemma commitEntry_ok h hb e :
  env_wf e -> undoable (hb ++ [h]) (renameMaps e) ->
  exists e', commitEntry h e = Ok e' /\ env_wf e' /\
    renameMaps e' = renameMaps e /\ pins e' = pins e /\
    forall i, owned (mkRegState e' hb) i ≡ₚ owned (mkRegState e (hb ++ [h])) i.
Proof.
  intros [Hm Hf Hfc Hmc] Hu. unfold commitEntry.
  apply undoable_app in Hu as [_ Hu]. cbn in Hu.
  destruct (decide (newPhysReg h = prevPhysReg h)) as [Heq|Hne].
  - rewrite decide_False by (intros []; done). exists e. repeat split; try done.
    intros i. unfold owned. cbn [env historyBuffer].
    rewrite keptOf_app, keptOf_cons, decide_False by tauto. by rewrite !app_nil_r.
  - destruct Hu as (Hn & Hp & Hg & _). rewrite decide_True by done.
    destruct (mapGet_inv _ _ _ Hg) as (i & m & Hi & _ & _).
    destruct (freeList_addReg e (prevPhysReg h) i) as (fl & Hfl & Hlen & Hfree);
      [done|by rewrite Hp|].
    rewrite Hfl. cbn. eexists. split; [done|]. cbn.
    split; [|split; [done|split; [done|]]].
    + split; cbn; try done. intros j r. rewrite Hfree. case_decide as Hj; [subst j|auto].
      rewrite elem_of_app, list_elem_of_singleton. intros [Hr|Hr]; [eauto|subst r; congruence].
    + intros j. unfold owned. cbn [env historyBuffer renameMaps].
      rewrite Hfree, keptOf_app, keptOf_cons. destruct (decide (j = i)) as [->|Hj].
      * rewrite decide_True by (split; congruence).
        change (keptOf [] i) with (@nil PhysRegId). rewrite app_nil_r, <- app_assoc.
        apply Permutation_app_head.
        by rewrite (Permutation_app_comm [prevPhysReg h]), <- app_assoc.
      * rewrite decide_False by (intros [_ ?]; congruence).
        change (keptOf [] j) with (@nil PhysRegId). by rewrite !app_nil_r.
Qed.

Lemma removeLoop_ok n bh e :
  env_wf e -> undoable (reverse bh) (renameMaps e) ->
  exists e', removeLoop n bh e = Ok (notCommitted n bh, e') /\
    reg_wf (mkRegState e' (reverse (notCommitted n bh))) /\
    renameMaps e' = renameMaps e /\ pins e' = pins e /\
    forall i, owned (mkRegState e' (reverse (notCommitted n bh))) i ≡ₚ
      owned (mkRegState e (reverse bh)) i.
Proof.
  revert e. induction bh as [|h bh IH]; intros e Hwf Hu.
  - exists e. done.
  - cbn [removeLoop notCommitted]. destruct (instSeqNum h <=? n).
    + rewrite reverse_cons in Hu |- *.
      destruct (commitEntry_ok h (reverse bh) e Hwf Hu) as (e1 & -> & Hwf1 & Hm1 & Hp1 & Ho1).
      apply undoable_app in Hu as [Hu _]. rewrite <- Hm1 in Hu.
      destruct (IH e1 Hwf1 Hu) as (e2 & He2 & Hr2 & Hm2 & Hp2 & Ho2).
      exists e2. cbn [mbind res_bind]. split_and!; [exact He2|done|congruence|congruence|].
      intros i. by rewrite Ho2, Ho1.
    + exists e. done.
Qed.

(** ** Renaming *)

(** What a successful [rename] did: nothing to the maps and free lists, or a
    register moved from the head of its free list into the map. *)
Lemma rename_inv a e info e' :
  rename rf a e = Ok (info, e') ->
  (info.1 = info.2 /\ renameMaps e' = renameMaps e /\ freeLists e' = freeLists e) \/
  (exists i l, classSlot (classValue a) = Some i /\
    freeLists e !! i = Some (info.1 :: l) /\ freeLists e' = <[i := l]> (freeLists e) /\
    mapGet (renameMaps e) a = Some info.2 /\
    renameMaps e' = mapSet (renameMaps e) a info.1).
Proof.
  unfold rename. intros H. destruct (isRenameable a) eqn:Ea; cbn in H.
  - destruct (classSlot (classValue a)) as [i|] eqn:Hi; cbn in H; [|done].
    destruct (renameMaps e !! i) as [m|] eqn:Hm; cbn in H; [|done].
    destruct (freeLists e !! i) as [fl|] eqn:Hfl; cbn in H; [|done].
    unfold SimpleRenameMap.rename in H.
    destruct (m !! index a) as [o|] eqn:Ho; cbn in H; [|done].
    destruct o as [prev|]; cbn in H; [|done].
    assert (Hs : <[i := m]> (renameMaps e) = renameMaps e /\
                 <[i := fl]> (freeLists e) = freeLists e)
      by (split; by apply list_insert_id).
    destruct (decide (classValue a = InvalidRegClass)).
    { rewrite e0 in Hi. done. }
    destruct (0 <? _); cbn in H.
    { inv_ok. left. by destruct Hs as [-> ->]. }
    destruct fl as [|r l]; cbn in H; [done|]. injection H as <- <-. right.
    exists i, l. cbn. split_and!; try done.
    + unfold mapGet. rewrite Hi. cbn. rewrite Hm. cbn. by rewrite Ho.
    + unfold mapSet. rewrite Hi. apply list_eq. intros j.
      destruct (decide (i = j)) as [<-|Hne].
      * rewrite list_lookup_alter_eq, Hm, list_lookup_insert_eq; [done|].
        by eapply lookup_lt_Some.
      * by rewrite list_lookup_alter_ne, list_lookup_insert_ne.
  - inv_ok. left. done.
Qed.

Lemma freeOf_lookup e i l : freeLists e !! i = Some l -> freeOf e i = l.
Proof. unfold freeOf. by intros ->. Qed.

Lemma freeOf_insert e e' i l j :
  freeLists e' = <[i := l]> (freeLists e) -> is_Some (freeLists e !! i) ->
  freeOf e' j = if decide (j = i) then l else freeOf e j.
Proof.
  intros H [x Hx]. unfold freeOf. rewrite H. case_decide as Hj; [subst j|].
  - rewrite list_lookup_insert_eq; [done|]. by eapply lookup_lt_Some.
  - by rewrite list_lookup_insert_ne by congruence.
Qed.

Lemma env_wf_ext e e' :
  renameMaps e' = renameMaps e -> freeLists e' = freeLists e -> env_wf e -> env_wf e'.
Proof.
  intros Hm Hf [H1 H2 H3 H4]. split; rewrite ?Hm, ?Hf; try done.
  intros i r Hr. apply H3. unfold freeOf in *. by rewrite <- Hf.
Qed.

(** The state a move from the free list into the map leaves. *)
Lemma move_ok a r prev i l e e' :
  env_wf e -> classSlot (classValue a) = Some i -> freeLists e !! i = Some (r :: l) ->
  freeLists e' = <[i := l]> (freeLists e) -> mapGet (renameMaps e) a = Some prev ->
  renameMaps e' = mapSet (renameMaps e) a r ->
  env_wf e' /\ p_class r = classValue a /\ p_class prev = classValue a.
Proof.
  intros [Hm Hf Hfc Hmc] Hi Hfl Hfl' Hg Hm'.
  assert (Hr : classSlot (p_class r) = Some i).
  { apply Hfc. rewrite (freeOf_lookup _ _ _ Hfl). left. }
  assert (Hp : classSlot (p_class prev) = Some i) by (eauto using mapGet_mapped).
  split; [|split; eapply classSlot_inj; eauto].
  split; rewrite ?Hm', ?length_mapSet, ?Hfl', ?length_insert; try done.
  - intros j x. rewrite (freeOf_insert e e' i l j) by eauto. case_decide as Hj; [subst j|auto].
    intros Hx. apply Hfc. rewrite (freeOf_lookup _ _ _ Hfl). by right.
  - intros j x Hx. destruct (decide (Some i = Some j)) as [[= <-]|Hj].
    + assert (Hx' : x ∈ mappedOf (mapSet (renameMaps e) a r) i ++ [prev])
        by (rewrite elem_of_app; auto).
      rewrite (mappedOf_mapSet _ _ _ _ _ Hg Hi) in Hx'.
      rewrite elem_of_app, list_elem_of_singleton in Hx'.
      destruct Hx' as [Hx'|Hx']; [eauto|subst x; congruence].
    + rewrite mappedOf_mapSet_ne in Hx by congruence. auto.
Qed.

Lemma move_owned a r prev i l e e' hb sn :
  env_wf e -> classSlot (classValue a) = Some i -> freeLists e !! i = Some (r :: l) ->
  freeLists e' = <[i := l]> (freeLists e) -> mapGet (renameMaps e) a = Some prev ->
  renameMaps e' = mapSet (renameMaps e) a r -> r <> prev ->
  forall j, owned (mkRegState e' (mkHist sn a r prev :: hb)) j ≡ₚ owned (mkRegState e hb) j.
Proof.
  intros Hwf Hi Hfl Hfl' Hg Hm' Hne j.
  destruct (move_ok _ _ _ _ _ _ _ Hwf Hi Hfl Hfl' Hg Hm') as (_ & _ & Hp).
  unfold owned. cbn [env historyBuffer]. rewrite keptOf_cons, Hm'. cbn [newPhysReg prevPhysReg].
  rewrite (freeOf_insert e e' i l j) by eauto. destruct (decide (j = i)) as [->|Hj].
  - rewrite decide_True by (split; congruence). rewrite (freeOf_lookup _ _ _ Hfl).
    rewrite (app_assoc (mappedOf _ _)), (mappedOf_mapSet _ _ _ _ _ Hg Hi), <- app_assoc.
    cbn [app]. rewrite <- Permutation_middle. by rewrite <- Permutation_middle.
  - rewrite decide_False by (intros [_ ?]; congruence).
    by rewrite mappedOf_mapSet_ne by congruence.
Qed.

Lemma free_not_mapped s i l r x :
  NoDup (owned s i) -> freeLists (env s) !! i = Some (r :: l) ->
  x ∈ mappedOf (renameMaps (env s)) i -> r <> x.
Proof.
  intros Hnd Hfl Hx ->. unfold owned in Hnd. rewrite (freeOf_lookup _ _ _ Hfl) in Hnd.
  apply NoDup_cons in Hnd as [Hn _]. apply Hn. rewrite !elem_of_app. auto.
Qed.

Lemma renameDest_ok sn d s info s' :
  reg_inv s -> renameDest sn d s = Ok (info, s') ->
  reg_inv s' /\ (forall i, owned s' i ≡ₚ owned s i) /\
  exists h, historyBuffer s' = h :: historyBuffer s /\ instSeqNum h = sn /\
    undoMaps [h] (renameMaps (env s')) = renameMaps (env s).
Proof.
  intros [[Hwf Hu] Hnd] H. unfold renameDest in H. destruct s as [e hb]. cbn in *.
  destruct (rename rf d e) as [[info' e']| |] eqn:Hr; cbn in H; [|done|done].
  injection H as <- <-. apply rename_inv in Hr as [(Heq & Hm & Hf)|Hr].
  - assert (Ho : forall i, owned (mkRegState e' (mkHist sn d info'.1 info'.2 :: hb)) i
                 = owned (mkRegState e hb) i).
    { intros i. unfold owned. cbn [env historyBuffer]. rewrite keptOf_cons. cbn.
      rewrite decide_False by tauto. unfold freeOf. by rewrite Hf, Hm. }
    split; [split; [split|]|split; [|eexists; split_and!; [done|done|]]].
    + by apply (env_wf_ext e).
    + cbn. by rewrite decide_True, Hm.
    + intros i. by rewrite Ho.
    + intros i. by rewrite Ho.
    + cbn. by rewrite decide_True.
  - destruct Hr as (i & l & Hi & Hfl & Hfl' & Hg & Hm).
    assert (Hne : info'.1 <> info'.2).
    { apply (free_not_mapped (mkRegState e hb) i l); [done|done|].
      by eapply mapGet_mapped. }
    destruct (move_ok _ _ _ _ _ _ _ Hwf Hi Hfl Hfl' Hg Hm) as (Hwf' & Hc1 & Hc2).
    pose proof (move_owned _ _ _ _ _ _ _ hb sn Hwf Hi Hfl Hfl' Hg Hm Hne) as Ho.
    split; [split; [split|]|split; [|eexists; split_and!; [done|done|]]]; cbn; try done.
    + rewrite decide_False by done. rewrite Hm. split_and!; try done.
      * by eapply mapGet_mapSet.
      * by rewrite (mapSet_undo _ _ _ _ Hg).
    + intros j. by rewrite Ho.
    + rewrite decide_False by done. rewrite Hm. by apply mapSet_undo.
Qed.

Lemma renameDests_ok sn dests s infos s' :
  reg_inv s -> renameDests sn dests s = Ok (infos, s') ->
  reg_inv s' /\ (forall i, owned s' i ≡ₚ owned s i) /\
  exists hs, historyBuffer s' = hs ++ historyBuffer s /\
    Forall (fun h => instSeqNum h = sn) hs /\
    undoMaps hs (renameMaps (env s')) = renameMaps (env s).
Proof.
  revert s infos. induction dests as [|d dests IH]; intros s infos Hinv H; cbn in H.
  - injection H as <- <-. split_and!; [done|done|]. exists []. split_and!; done.
  - destruct (renameDest sn d s) as [[info s1]| |] eqn:H1; cbn in H; try done.
    destruct (renameDests sn dests s1) as [[infos' s2]| |] eqn:H2; cbn in H; try done.
    injection H as <- <-.
    apply renameDest_ok in H1 as (Hi1 & Ho1 & h & Hh1 & Hsn & Hu1); [|done].
    apply IH in H2 as (Hi2 & Ho2 & hs & Hh2 & Hall & Hu2); [|done].
    split_and!; [done| |].
    + intros i. by rewrite Ho2, Ho1.
    + exists (hs ++ [h]). rewrite <- app_assoc. split_and!.
      * by rewrite Hh2, Hh1.
      * apply Forall_app. auto.
      * by rewrite undoMaps_app, Hu2.
Qed.

Lemma doSquash_ok n s :
  reg_wf s ->
  exists s', doSquash n s = Ok s' /\ reg_wf s' /\
    historyBuffer s' = notYounger n (historyBuffer s) /\
    renameMaps (env s') = undoMaps (younger n (historyBuffer s)) (renameMaps (env s)) /\
    forall i, owned s' i ≡ₚ owned s i.
Proof.
  intros [Hwf Hu]. destruct (doSquashLoop_ok n _ _ Hwf Hu) as (e' & H & Hr & Hm & _ & Ho).
  destruct s as [e hb]. eexists. split; [exact H|]. auto.
Qed.

Lemma removeFromHistory_ok n s :
  reg_wf s ->
  exists s', removeFromHistory n s = Ok s' /\ reg_wf s' /\
    historyBuffer s' = reverse (notCommitted n (reverse (historyBuffer s))) /\
    renameMaps (env s') = renameMaps (env s) /\
    forall i, owned s' i ≡ₚ owned s i.
Proof.
  intros [Hwf Hu]. destruct s as [e hb]. cbn [env historyBuffer] in *.
  destruct (removeLoop_ok n (reverse hb) e Hwf) as (e' & H & Hr & Hm & _ & Ho);
    [by rewrite reverse_involutive|].
  unfold removeFromHistory. cbn [env historyBuffer]. rewrite H. cbn.
  eexists. split; [done|]. rewrite reverse_involutive in Ho. auto.
Qed.

Lemma regStep_inv op s s' :
  reg_inv s -> regStep s op = Ok s' -> reg_inv s' /\ forall i, owned s' i ≡ₚ owned s i.
Proof.
  intros Hinv H. pose proof Hinv as [Hwf Hnd]. destruct op as [sn dests|n|n]; cbn in H.
  - destruct (renameDests sn dests s) as [[infos s1]| |] eqn:E; cbn in H; try done.
    injection H as <-. apply renameDests_ok in E as (? & ? & _); auto.
  - destruct (removeFromHistory_ok n s Hwf) as (s1 & H1 & Hr & _ & _ & Ho).
    rewrite H1 in H. injection H as <-. split; [split; [done|]|done].
    intros i. by rewrite Ho.
  - destruct (doSquash_ok n s Hwf) as (s1 & H1 & Hr & _ & _ & Ho).
    rewrite H1 in H. injection H as <-. split; [split; [done|]|done].
    intros i. by rewrite Ho.
Qed.

Lemma regSteps_inv ops s s' :
  reg_inv s -> foldR regStep s ops = Ok s' ->
  reg_inv s' /\ forall i, owned s' i ≡ₚ owned s i.
Proof.
  revert s. induction ops as [|op ops IH]; intros s Hinv H; cbn in H.
  - injection H as <-. done.
  - destruct (regStep s op) as [s1| |] eqn:E; cbn in H; try done.
    apply regStep_inv in E as [Hi Ho]; [|done]. apply IH in H as [Hi' Ho']; [|done].
    split; [done|]. intros i. by rewrite Ho'.
Qed.

(** Renaming a sequence of instructions stacks their entries on the history. *)
Lemma renames_stack (insts : list (Z * list RegId)) s s' :
  reg_inv s -> foldR regStep s ((fun x => OpRename x.1 x.2) <$> insts) = Ok s' ->
  exists hs, historyBuffer s' = hs ++ historyBuffer s /\
    Forall (fun h => instSeqNum h ∈ insts.*1) hs /\
    undoMaps hs (renameMaps (env s')) = renameMaps (env s).
Proof.
  revert s. induction insts as [|[sn dests] insts IH]; intros s Hinv H; cbn in H.
  - injection H as <-. exists []. done.
  - destruct (renameDests sn dests s) as [[infos s1]| |] eqn:E; cbn in H; try done.
    apply renameDests_ok in E as (Hi & _ & hs1 & Hh1 & Ha1 & Hu1); [|done].
    apply IH in H as (hs2 & Hh2 & Ha2 & Hu2); [|done].
    exists (hs2 ++ hs1). rewrite <- app_assoc. split_and!.
    + by rewrite Hh2, Hh1.
    + apply Forall_app. split; eapply Forall_impl; eauto; cbn; intros h.
      * intros. by right.
      * intros ->. left.
    + by rewrite undoMaps_app, Hu2.
Qed.

(** ** Enough free registers *)

(** The free lists cover the destinations still to rename. *)
Definition covers (e : RenameEnv) (dests : list RegId) : Prop :=
  forall c i, classSlot c = Some i -> destsOf c dests <= Z.of_nat (length (freeOf e i)).

Lemma mapGet_mapSet_some maps a r d :
  is_Some (mapGet maps d) -> is_Some (mapGet (mapSet maps a r) d).
Proof.
  intros [x H]. apply mapGet_inv in H as (i & m & Hi & Hm & Hk).
  unfold mapGet, mapSet. rewrite Hi. cbn.
  destruct (classSlot (classValue a)) as [j|]; cbn; [|rewrite Hm; cbn; rewrite Hk; eauto].
  destruct (decide (j = i)) as [->|Hne].
  - rewrite list_lookup_alter_eq, Hm. cbn.
    destruct (decide (index a = index d)) as [->|Hx].
    + rewrite list_lookup_insert_eq; [eauto|]. by eapply lookup_lt_Some.
    + rewrite list_lookup_insert_ne by done. rewrite Hk. eauto.
  - rewrite list_lookup_alter_ne by done. rewrite Hm. cbn. rewrite Hk. eauto.
Qed.

Lemma renamableDest_mapSet maps a r d :
  renamableDest maps d -> renamableDest (mapSet maps a r) d.
Proof.
  intros [Hp H]. split; [done|]. destruct (classValue d); auto using mapGet_mapSet_some.
Qed.

Lemma rename_ok d e :
  length (freeLists e) = 7%nat -> renamableDest (renameMaps e) d ->
  (forall i, classSlot (classValue d) = Some i -> freeOf e i <> []) ->
  exists info e', rename rf d e = Ok (info, e').
Proof.
  intros Hlen [Hpin Hd] Hfree. unfold rename. destruct (isRenameable d) eqn:Er.
  - assert (Hg : is_Some (mapGet (renameMaps e) d))
      by (unfold isRenameable in Er; destruct (classValue d); done).
    destruct Hg as [prev Hg]. apply mapGet_inv in Hg as (i & m & Hi & Hm & Hk).
    cbn. rewrite Hi. cbn. rewrite Hm. cbn.
    specialize (Hfree i Hi). unfold freeOf in Hfree.
    destruct (freeLists e !! i) as [fl|]; [|done]. cbn in *.
    unfold SimpleRenameMap.rename. rewrite Hk. cbn.
    rewrite decide_False by (intros Hc; rewrite Hc in Hi; done).
    destruct (0 <? _); cbn; [rewrite Hpin; cbn; eauto|].
    destruct fl; [done|]. cbn. eauto.
  - cbn. unfold lookup. destruct (classValue d) eqn:Ec;
      unfold isRenameable in Er; rewrite Ec in Er; try done; cbn; [|eauto].
    unfold getMiscRegId. destruct (lookup_lt_is_Some_2 _ _ Hd) as [x ->]. cbn. eauto.
Qed.

Lemma destsOf_cons c d dests :
  destsOf c (d :: dests) = (if decide (classValue d = c) then 1 else 0) + destsOf c dests.
Proof.
  unfold destsOf. rewrite filter_cons. case_decide; cbn [length]; lia.
Qed.

Lemma destsOf_nonneg c dests : 0 <= destsOf c dests.
Proof. unfold destsOf. lia. Qed.

Lemma covers_step d dests e info e' :
  rename rf d e = Ok (info, e') -> covers e (d :: dests) -> covers e' dests.
Proof.
  intros H Hc c i Hi. specialize (Hc c i Hi). rewrite destsOf_cons in Hc.
  apply rename_inv in H as [(_ & _ & Hf)|(j & l & Hj & Hfl & Hfl' & _)].
  - unfold freeOf in *. rewrite Hf. case_decide; lia.
  - rewrite (freeOf_insert e e' j l i) by eauto.
    destruct (decide (i = j)) as [->|Hne].
    + rewrite (freeOf_lookup _ _ _ Hfl) in Hc.
      rewrite decide_True in Hc by (eapply classSlot_inj; eauto). cbn [length] in Hc. lia.
    + case_decide; lia.
Qed.

Lemma renamable_step d e info e' x :
  rename rf d e = Ok (info, e') -> renamableDest (renameMaps e) x ->
  renamableDest (renameMaps e') x.
Proof.
  intros H Hx. apply rename_inv in H as [(_ & -> & _)|(j & l & _ & _ & _ & _ & ->)];
    auto using renamableDest_mapSet.
Qed.

Lemma renameDests_total sn dests s :
  length (freeLists (env s)) = 7%nat ->
  Forall (renamableDest (renameMaps (env s))) dests -> covers (env s) dests ->
  exists infos s', renameDests sn dests s = Ok (infos, s').
Proof.
  revert s. induction dests as [|d dests IH]; intros s Hlen Hall Hc; cbn [renameDests].
  - eauto.
  - apply Forall_cons in Hall as [Hd Hall].
    destruct (rename_ok d (env s)) as (info & e' & Hr); [done|done| |].
    { intros i Hi Hn. specialize (Hc _ _ Hi).
      rewrite destsOf_cons, Hn, decide_True in Hc by done.
      pose proof (destsOf_nonneg (classValue d) dests). cbn in Hc. lia. }
    unfold renameDest. rewrite Hr. cbn.
    edestruct (IH (mkRegState e' (mkHist sn d info.1 info.2 :: historyBuffer s)))
      as (infos & s' & ->); cbn.
    + apply rename_inv in Hr as [(_ & _ & ->)|(j & l & _ & _ & -> & _)];
        rewrite ?length_insert; done.
    + eapply Forall_impl; [exact Hall|]. intros x. by eapply renamable_step.
    + by eapply covers_step.
    + eauto.
Qed.

Lemma renameDests_length sn dests s infos s' :
  renameDests sn dests s = Ok (infos, s') -> length infos = length dests.
Proof.
  revert s infos. induction dests as [|d dests IH]; intros s infos H; cbn in H.
  - injection H as <- <-. done.
  - destruct (renameDest sn d s) as [[info s1]| |]; cbn in H; try done.
    destruct (renameDests sn dests s1) as [[infos' s2]| |] eqn:E; cbn in H; try done.
    injection H as <- <-. cbn. f_equal. eauto.
Qed.

Lemma canRename_covers e dests :
  length (freeLists e) = 7%nat -> canRename (fun c => destsOf c dests) e = true ->
  covers e dests.
Proof.
  intros Hlen H c i Hi. unfold canRename in H.
  apply Is_true_true, forallb_True in H. rewrite Forall_lookup in H.
  destruct (lookup_lt_is_Some_2 (freeLists e) i) as [l Hl].
  { rewrite Hlen. destruct c; vm_compute in Hi; naive_solver lia. }
  specialize (H i (c, l)). rewrite (freeOf_lookup _ _ _ Hl).
  assert (Hc : renamedClasses !! i = Some c)
    by (destruct c; vm_compute in Hi; simplify_eq; done).
  assert (Hx := H ltac:(rewrite lookup_zip_with, Hc; cbn; by rewrite Hl)).
  apply Is_true_true, negb_true_iff, Z.ltb_ge in Hx.
  unfold SimpleFreeList.numFreeRegs in Hx. etrans; [exact Hx|].
  unfold u32, wrap. apply Z.mod_le; lia.
Qed.

(** ** Claims *)

(** C1: physical registers are conserved: starting from a state in which every
    physical register has one owner (the free list, the rename map, or the
    history that keeps the previous mapping alive), any successful sequence of
    renames, commits and squashes leaves each class with the same registers,
    each of them still owned exactly once. *)
Theorem registers_conserved ops s s' :
  reg_inv s -> foldR regStep s ops = Ok s' ->
  reg_inv s' /\ forall i, owned s' i ≡ₚ owned s i.
Proof. apply regSteps_inv. Qed.

(** C2: a squash undoes the renames of the squashed instructions: after
    renaming any instructions younger than [n], squashing to [n] succeeds and
    gives back the rename map and the history buffer the renames found, and
    each class's free list up to order. *)
Theorem squash_undoes_renames n (insts : list (Z * list RegId)) s s1 :
  reg_inv s -> Forall (fun h => instSeqNum h <= n) (historyBuffer s) ->
  Forall (fun sn => n < sn) insts.*1 ->
  foldR regStep s ((fun x => OpRename x.1 x.2) <$> insts) = Ok s1 ->
  exists s2, doSquash n s1 = Ok s2 /\
    renameMaps (env s2) = renameMaps (env s) /\ historyBuffer s2 = historyBuffer s /\
    forall i, freeOf (env s2) i ≡ₚ freeOf (env s) i.
Proof.
  intros Hinv Hold Hnew H. pose proof (renames_stack _ _ _ Hinv H) as (hs & Hh & Ha & Hu).
  apply regSteps_inv in H as [[Hwf1 _] Ho1]; [|done].
  destruct (doSquash_ok n s1 Hwf1) as (s2 & H2 & _ & Hb & Hm & Ho2).
  assert (Hall : Forall (fun h => n < instSeqNum h) hs).
  { eapply Forall_impl; [exact Ha|]. cbn. intros h Hin.
    rewrite Forall_forall in Hnew. auto. }
  destruct (younger_app n hs (historyBuffer s) Hall Hold) as [Hy Hn].
  rewrite Hh in Hb, Hm. rewrite Hn in Hb. rewrite Hy, Hu in Hm.
  exists s2. split_and!; try done. intros i. specialize (Ho2 i). rewrite Ho1 in Ho2.
  unfold owned in Ho2. rewrite Hm, Hb in Ho2. by eapply Permutation_app_inv_r.
Qed.

(** squashes and commits cannot go wrong: from a well-formed state none of
    their assertions fails and no array is left, a squash removes exactly the
    entries younger than its sequence number and installs the map walked back
    over them, a commit leaves the map alone. *)
Theorem squash_commit_total n s :
  reg_wf s ->
  (exists s', doSquash n s = Ok s' /\ reg_wf s' /\
    historyBuffer s' = notYounger n (historyBuffer s) /\
    renameMaps (env s') = undoMaps (younger n (historyBuffer s)) (renameMaps (env s))) /\
  (exists s', removeFromHistory n s = Ok s' /\ reg_wf s' /\
    historyBuffer s' = reverse (notCommitted n (reverse (historyBuffer s))) /\
    renameMaps (env s') = renameMaps (env s)).
Proof.
  intros Hwf. split.
  - destruct (doSquash_ok n s Hwf) as (s' & ? & ? & ? & ? & _). eauto.
  - destruct (removeFromHistory_ok n s Hwf) as (s' & ? & ? & ? & ? & _). eauto.
Qed.

(** the stage's resource check is sufficient: when [canRename] accepts an
    instruction, renaming its destinations never takes from an empty free list
    nor fails any other assertion of the rename map. *)
Theorem canRename_sufficient sn dests s :
  reg_wf s -> Forall (renamableDest (renameMaps (env s))) dests ->
  canRename (fun c => destsOf c dests) (env s) = true ->
  exists infos s', renameDests sn dests s = Ok (infos, s') /\
    length infos = length dests.
Proof.
  intros [[Hm Hf _ _] _] Hall Hc. apply canRename_covers in Hc; [|done].
  destruct (renameDests_total sn dests s Hf Hall Hc) as (infos & s' & H).
  exists infos, s'. split; [done|]. by eapply renameDests_length.
Qed.

End History.
