(* ===== verification/RenameInit.v ===== *)
(** * The initial register state

    The loops of the CPU constructor ([src/src/cpu/o3/cpu.cc], [CPU::CPU]) that
    size the rename maps and give every architectural register of an active
    thread a physical register, with the theorem that they establish the
    invariant the rename stage preserves. *)

From stdpp Require Import base numbers list gmap.
From S2P Require Import Prelude Regs RenameMap RenameHistory.

#[local] Open Scope Z_scope.

(** ** Definitions *)

(** What the loops change: the thread's two maps and the shared free list. *)
Record InitState := mkInit {
  i_renameMap : list SimpleRenameMap.t;
  i_commitRenameMap : list SimpleRenameMap.t;
  i_freeList : UnifiedFreeList.t
}.

Section Init.
Context (rf : PhysRegFile) (numRegs : RegClassType -> nat).

(** The innermost body: [id] is register [k] of class [type]. *)
Definition assignReg (type : RegClassType) (s : InitState) (k : nat) : res InitState :=
  '(phys_reg, fl) ← UnifiedFreeList.getReg type (i_freeList s);
  let id := mkRegId type k 0 in
  rm ← setEntry rf id phys_reg (i_renameMap s);
  cm ← setEntry rf id phys_reg (i_commitRenameMap s);
  Ok (mkInit rm cm fl).

Definition assignClass (s : InitState) (type : RegClassType) : res InitState :=
  foldR (assignReg type) s (seq 0 (numRegs type)).

Definition assignAll (s : InitState) : res InitState := foldR assignClass s renamedClasses.

(** The constructor's work for a CPU with one thread: [init] of both maps, then
    the assignment.  [RenameThreads] has the loops over the threads. *)
Definition initThread (fl : UnifiedFreeList.t) : res InitState :=
  cm ← initMaps numRegs (replicate 7 []);
  rm ← initMaps numRegs (replicate 7 []);
  assignAll (mkInit rm cm fl).

(** The state the rename stage starts from. *)
Definition initRegState (s : InitState) : RegState :=
  mkRegState (mkEnv (i_renameMap s) (i_freeList s) ∅) [].

(** ** One class *)

Lemma renamedClasses_slot i c : renamedClasses !! i = Some c -> classSlot c = Some i.
Proof. intros H. do 7 (destruct i as [|i]; [by injection H as <-|]). done. Qed.

(** A half assigned map: the first registers have an entry. *)
Definition halfMap (assigned : list PhysRegId) (k : nat) : list (option PhysRegId) :=
  (Some <$> assigned) ++ replicate k None.

Lemma omap_id_fmap_Some {A} (l : list A) : omap id (Some <$> l) = l.
Proof. induction l as [|x l IH]; cbn; [done|]. by rewrite IH. Qed.

Definition withSlot (s : InitState) (i : nat) m fl : InitState :=
  mkInit (<[i := m]> (i_renameMap s)) (<[i := m]> (i_commitRenameMap s))
         (<[i := fl]> (i_freeList s)).

Lemma setEntry_half type i maps a r k :
  classSlot type = Some i -> maps !! i = Some (halfMap a (S k)) -> p_class r = type ->
  setEntry rf (mkRegId type (length a) 0) r maps = Ok (<[i := halfMap (a ++ [r]) k]> maps).
Proof.
  intros Hi Hm Hr. unfold setEntry. cbn [classValue].
  rewrite bool_decide_eq_true_2 by done. cbn.
  rewrite (classSlot_renameable (mkRegId type (length a) 0) i Hi). cbn.
  rewrite Hi. cbn. rewrite Hm. cbn. unfold SimpleRenameMap.setEntry, halfMap. cbn [index].
  rewrite bool_decide_eq_true_2 by (rewrite length_app, length_fmap, length_replicate; lia).
  cbn. rewrite lookup_app_r by (rewrite length_fmap; lia). rewrite length_fmap, Nat.sub_diag.
  cbn. do 2 f_equal. rewrite insert_app_r_alt by (rewrite length_fmap; lia).
  rewrite length_fmap, Nat.sub_diag. cbn. by rewrite fmap_app, <- app_assoc.
Qed.

Lemma assignClass_loop type i s a l1 l2 :
  classSlot type = Some i ->
  i_renameMap s !! i = Some (halfMap a (length l1)) ->
  i_commitRenameMap s !! i = Some (halfMap a (length l1)) ->
  i_freeList s !! i = Some (l1 ++ l2) -> Forall (fun r => p_class r = type) l1 ->
  foldR (assignReg type) s (seq (length a) (length l1)) =
    Ok (withSlot s i (halfMap (a ++ l1) 0) l2).
Proof.
  intros Hi. revert s a. induction l1 as [|r l1 IH]; intros s a Hrm Hcm Hfl Hall.
  - cbn. rewrite app_nil_r. unfold withSlot. rewrite !list_insert_id by done. by destruct s.
  - apply Forall_cons in Hall as [Hr Hall]. cbn [length seq foldR].
    unfold assignReg at 2, UnifiedFreeList.getReg. rewrite Hi. cbn. rewrite Hfl. cbn.
    rewrite (setEntry_half type i _ a r (length l1)) by done. cbn.
    rewrite (setEntry_half type i _ a r (length l1)) by done. cbn.
    rewrite <- (Nat.add_1_r (length a)).
    change (length a + 1)%nat with (length a + length [r])%nat. rewrite <- length_app.
    rewrite IH; cbn.
    + unfold withSlot. cbn. rewrite !list_insert_insert_eq. by rewrite <- app_assoc.
    + apply list_lookup_insert_eq. by eapply lookup_lt_Some.
    + apply list_lookup_insert_eq. by eapply lookup_lt_Some.
    + apply list_lookup_insert_eq. by eapply lookup_lt_Some.
    + done.
Qed.

Lemma assignClass_ok type i s l1 l2 :
  classSlot type = Some i -> length l1 = numRegs type ->
  i_renameMap s !! i = Some (replicate (length l1) None) ->
  i_commitRenameMap s !! i = Some (replicate (length l1) None) ->
  i_freeList s !! i = Some (l1 ++ l2) -> Forall (fun r => p_class r = type) l1 ->
  assignClass s type = Ok (withSlot s i (Some <$> l1) l2).
Proof.
  intros Hi Hn Hrm Hcm Hfl Hall. unfold assignClass. rewrite <- Hn.
  etrans; [by apply (assignClass_loop type i s [] l1 l2)|].
  unfold halfMap. cbn. by rewrite app_nil_r.
Qed.

(** ** All classes *)

(** The free list after construction has enough registers of each class. *)
Definition enough (fl : UnifiedFreeList.t) : Prop :=
  length fl = 7%nat /\
  forall c i l, classSlot c = Some i -> fl !! i = Some l ->
    (numRegs c <= length l)%nat /\ Forall (fun r => p_class r = c) l.

Lemma assignClass_take c i s l :
  classSlot c = Some i -> (numRegs c <= length l)%nat -> Forall (fun r => p_class r = c) l ->
  i_renameMap s !! i = Some (replicate (numRegs c) None) ->
  i_commitRenameMap s !! i = Some (replicate (numRegs c) None) ->
  i_freeList s !! i = Some l ->
  assignClass s c = Ok (withSlot s i (Some <$> take (numRegs c) l) (drop (numRegs c) l)).
Proof.
  intros Hi Hle Hall Hrm Hcm Hfl.
  assert (Hlen : length (take (numRegs c) l) = numRegs c) by (rewrite length_take; lia).
  apply assignClass_ok; rewrite ?Hlen; try done.
  - by rewrite take_drop.
  - by apply Forall_take.
Qed.

(** The state the loops end in, for free lists [l0] .. [l6]. *)
Definition assigned (fl : UnifiedFreeList.t) : InitState :=
  let maps := zip_with (fun c l => Some <$> take (numRegs c) l) renamedClasses fl in
  mkInit maps maps (zip_with (fun c l => drop (numRegs c) l) renamedClasses fl).

Lemma initMaps_ok : initMaps numRegs (replicate 7 []) =
  Ok ((fun c => replicate (numRegs c) None) <$> renamedClasses).
Proof. reflexivity. Qed.

Definition blankMaps : list SimpleRenameMap.t :=
  (fun c => replicate (numRegs c) None) <$> renamedClasses.

Lemma assignAll_ok fl : enough fl -> assignAll (mkInit blankMaps blankMaps fl) = Ok (assigned fl).
Proof.
  intros [Hlen Hfl].
  assert (Hn : forall c i l, classSlot c = Some i -> fl !! i = Some l ->
    (numRegs c <= length l)%nat) by (intros; by eapply Hfl).
  assert (Hk : forall c i l, classSlot c = Some i -> fl !! i = Some l ->
    Forall (fun r => p_class r = c) l) by (intros; by eapply Hfl).
  clear Hfl. destruct fl as [|l0 [|l1 [|l2 [|l3 [|l4 [|l5 [|l6 []]]]]]]]; try done.
  unfold assignAll, blankMaps, renamedClasses. cbn [foldR fmap list_fmap].
  do 7 (erewrite assignClass_take by
    first [reflexivity | by eapply Hn | by eapply Hk]; cbn [mbind res_bind]).
  reflexivity.
Qed.

Lemma initThread_ok fl : enough fl -> initThread fl = Ok (assigned fl).
Proof. intros Hfl. unfold initThread. rewrite initMaps_ok. by apply assignAll_ok. Qed.

Lemma assigned_owned fl i :
  length fl = 7%nat -> owned (initRegState (assigned fl)) i ≡ₚ default [] (fl !! i).
Proof.
  intros Hlen. unfold owned, freeOf, mappedOf, assigned, initRegState.
  cbn [env historyBuffer renameMaps freeLists i_renameMap i_freeList].
  change (keptOf [] i) with (@nil PhysRegId). rewrite !lookup_zip_with, app_nil_r.
  destruct (fl !! i) as [l|] eqn:Hl; cbn.
  - destruct (lookup_lt_is_Some_2 renamedClasses i) as [c ->].
    { apply lookup_lt_Some in Hl. cbn. lia. }
    cbn. rewrite omap_id_fmap_Some, Permutation_app_comm. by rewrite take_drop.
  - destruct (renamedClasses !! i); done.
Qed.

Lemma assigned_class fl i r :
  enough fl -> r ∈ owned (initRegState (assigned fl)) i -> classSlot (p_class r) = Some i.
Proof.
  intros [Hlen Hfl] Hr. rewrite assigned_owned in Hr by done.
  destruct (fl !! i) as [l|] eqn:Hl; cbn in Hr; [|by apply not_elem_of_nil in Hr].
  destruct (lookup_lt_is_Some_2 renamedClasses i) as [c Hc].
  { apply lookup_lt_Some in Hl. cbn. lia. }
  apply renamedClasses_slot in Hc. destruct (Hfl c i l Hc Hl) as [_ Hall].
  rewrite Forall_forall in Hall. by rewrite (Hall r Hr).
Qed.

Lemma assigned_inv fl :
  enough fl -> (forall i, NoDup (default [] (fl !! i))) ->
  reg_inv (initRegState (assigned fl)).
Proof.
  intros He Hnd. pose proof He as [Hlen _]. split; [split; [split|done]|].
  - cbn [env initRegState renameMaps i_renameMap assigned]. rewrite length_zip_with, Hlen. done.
  - cbn [env initRegState freeLists i_freeList assigned]. rewrite length_zip_with, Hlen. done.
  - intros i r Hr. apply (assigned_class fl); [done|]. unfold owned.
    rewrite !elem_of_app. by left.
  - intros i r Hr. apply (assigned_class fl); [done|]. unfold owned.
    rewrite !elem_of_app. right. by left.
  - intros i. by rewrite assigned_owned.
Qed.

End Init.

(** ** The constructor *)

(** What the constructor's assertions say of the parameters, for one thread. *)
Record params_ok (k : regCounts) (numRegs : RegClassType -> Z) : Prop := {
  po_int : 0 <= numRegs IntRegClass <= k_int k;
  po_float : 0 <= numRegs FloatRegClass <= k_float k;
  po_vec : 0 <= numRegs VecRegClass <= k_vec k;
  po_pred : 0 <= numRegs VecPredRegClass <= k_pred k;
  po_mat : 0 <= numRegs MatRegClass <= k_mat k;
  po_cc : 0 <= numRegs CCRegClass <= k_cc k;
  po_elem : (numRegs VecRegClass | numRegs VecElemClass)
}.

Lemma idRange_NoDup cls n flat : NoDup (idRange cls n flat).
Proof.
  apply NoDup_fmap_2; [|apply NoDup_seqZ]. intros x y [= H]. done.
Qed.

Lemma idRange_class cls n flat : Forall (fun r => p_class r = cls) (idRange cls n flat).
Proof. apply Forall_fmap, Forall_true. done. Qed.

Lemma idRange_length cls n flat : length (idRange cls n flat) = Z.to_nat n.
Proof. unfold idRange. by rewrite length_fmap, length_seqZ. Qed.

Lemma elems_enough k numRegs :
  counts_ok k numRegs -> params_ok k numRegs -> numRegs VecElemClass <= elemCount k numRegs.
Proof.
  intros [] []. unfold elemCount. destruct po_elem0 as [q Hq]. rewrite Hq.
  rewrite Z.div_mul by lia. assert (0 <= q) by nia. nia.
Qed.

(** C37: the constructor establishes the register invariant of a CPU with one
    thread: given the parameters its assertions demand and vectors of whole
    elements, building the register file and the free
    list and assigning the architectural registers succeeds, the commit map
    equals the rename map, and in every class each physical register is owned
    exactly once. *)
Theorem initThread_establishes k numRegs rf fl :
  counts_ok k numRegs -> params_ok k numRegs ->
  buildRegFile k numRegs = Some rf -> initFreeList rf UnifiedFreeList.empty = Ok fl ->
  exists s, initThread rf (fun c => Z.to_nat (numRegs c)) fl = Ok s /\
    i_commitRenameMap s = i_renameMap s /\ reg_inv (initRegState s) /\
    forall i, owned (initRegState s) i ≡ₚ default [] (fl !! i).
Proof.
  intros Hk Hp Hrf Hfl. rewrite (initFreeList_ok _ _ _ Hk Hrf) in Hfl. injection Hfl as <-.
  rewrite buildRegFile_ok in Hrf by done. injection Hrf as <-.
  pose proof (elems_enough _ _ Hk Hp) as He. destruct Hp.
  match goal with |- context [initThread _ ?n ?fl] => set (nr := n); set (l := fl) end.
  assert (Henough : enough nr l).
  { split; [done|]. intros c i x Hc Hx. subst l nr. cbv beta.
    destruct c; vm_compute in Hc; simplify_eq; cbn in Hx; injection Hx as <-;
      rewrite idRange_length; (split; [lia|apply idRange_class]). }
  exists (assigned nr l). split; [by apply initThread_ok|]. split; [done|].
  split; [|by intros; apply assigned_owned].
  apply assigned_inv; [done|]. intros i. subst l.
  do 7 (destruct i as [|i]; [apply idRange_NoDup|]). apply NoDup_nil_2.
Qed.

(** ** A small machine *)

Definition sampleCounts : regCounts :=
  {| k_int := 6; k_float := 2; k_vec := 2; k_pred := 2; k_mat := 2; k_cc := 2 |}.

Definition sampleRegs (c : RegClassType) : Z :=
  match c with
  | IntRegClass => 3 | VecElemClass => 2 | MiscRegClass => 2 | InvalidRegClass => 0 | _ => 1
  end.

Definition sampleFile : PhysRegFile :=
  default {| intRegIds := []; floatRegIds := []; vecRegIds := []; vecElemIds := [];
             vecPredRegIds := []; matRegIds := []; ccRegIds := []; miscRegIds := [];
             totalNumRegs := 0 |} (buildRegFile sampleCounts sampleRegs).

Definition sampleFree : UnifiedFreeList.t :=
  [intRegIds sampleFile; floatRegIds sampleFile; vecRegIds sampleFile; vecElemIds sampleFile;
   vecPredRegIds sampleFile; matRegIds sampleFile; ccRegIds sampleFile].

Definition sampleState : RegState :=
  initRegState (assigned (fun c => Z.to_nat (sampleRegs c)) sampleFree).

Lemma sample_counts_ok : counts_ok sampleCounts sampleRegs.
Proof. split; vm_compute; congruence. Qed.

Lemma sample_params_ok : params_ok sampleCounts sampleRegs.
Proof. split; try (vm_compute; split; congruence). by exists 2. Qed.

Lemma sample_inv : reg_inv sampleState.
Proof.
  apply assigned_inv.
  - split; [done|]. intros c i x Hc Hx.
    destruct c; vm_compute in Hc; simplify_eq; vm_compute in Hx; injection Hx as <-;
      (split; [vm_compute; lia|repeat constructor]).
  - intros i. do 7 (destruct i as [|i]; [apply (bool_decide_unpack _); vm_compute; exact I|]).
    apply NoDup_nil_2.
Qed.

Lemma initThread_establishes_witness :
  exists s, initThread sampleFile (fun c => Z.to_nat (sampleRegs c)) sampleFree = Ok s /\
    i_commitRenameMap s = i_renameMap s /\ reg_inv (initRegState s) /\
    forall i, owned (initRegState s) i ≡ₚ default [] (sampleFree !! i).
Proof.
  apply (initThread_establishes sampleCounts sampleRegs sampleFile sampleFree);
    [apply sample_counts_ok|apply sample_params_ok|reflexivity|reflexivity].
Defined.

(** Two instructions that write r1 (twice), r0, a float and a misc register;
    the first commits, the second is squashed. *)
Definition r (k : nat) : RegId := mkRegId IntRegClass k 0.

Definition sampleOps : list RegOp :=
  [OpRename 10 [r 1; mkRegId FloatRegClass 0 0]; OpRename 11 [r 1; r 0; mkRegId MiscRegClass 1 0];
   OpCommit 10; OpSquash 10].

Definition sampleEnd : RegState :=
  match foldR (regStep sampleFile) sampleState sampleOps with Ok s => s | _ => sampleState end.

Lemma registers_conserved_witness :
  freeOf (env sampleEnd) 0 <> freeOf (env sampleState) 0 /\
  reg_inv sampleEnd /\ forall i, owned sampleEnd i ≡ₚ owned sampleState i.
Proof.
  split; [vm_compute; congruence|].
  apply (registers_conserved sampleFile sampleOps sampleState sampleEnd);
    [apply sample_inv|vm_compute; reflexivity].
Defined.

Definition sampleInsts : list (Z * list RegId) := [(10, [r 1; r 2]); (11, [r 1])].

Definition sampleRenamed : RegState :=
  match foldR (regStep sampleFile) sampleState
          ((fun x => OpRename x.1 x.2) <$> sampleInsts) with
  | Ok s => s | _ => sampleState
  end.

Lemma squash_undoes_renames_witness :
  renameMaps (env sampleRenamed) <> renameMaps (env sampleState) /\
  exists s2, doSquash sampleFile 9 sampleRenamed = Ok s2 /\
    renameMaps (env s2) = renameMaps (env sampleState) /\
    historyBuffer s2 = historyBuffer sampleState /\
    forall i, freeOf (env s2) i ≡ₚ freeOf (env sampleState) i.
Proof.
  split; [vm_compute; congruence|].
  apply (squash_undoes_renames sampleFile 9 sampleInsts sampleState sampleRenamed);
    [apply sample_inv|constructor|repeat constructor|vm_compute; reflexivity].
Defined.

Lemma sampleRenamed_wf : reg_wf sampleRenamed.
Proof.
  apply (regSteps_inv sampleFile ((fun x => OpRename x.1 x.2) <$> sampleInsts) sampleState);
    [apply sample_inv|vm_compute; reflexivity].
Qed.

Lemma squash_commit_total_witness :
  (exists s', doSquash sampleFile 10 sampleRenamed = Ok s' /\ reg_wf s' /\
    historyBuffer s' = notYounger 10 (historyBuffer sampleRenamed) /\
    renameMaps (env s') =
      undoMaps (younger 10 (historyBuffer sampleRenamed)) (renameMaps (env sampleRenamed))) /\
  (exists s', removeFromHistory 10 sampleRenamed = Ok s' /\ reg_wf s' /\
    historyBuffer s' = reverse (notCommitted 10 (reverse (historyBuffer sampleRenamed))) /\
    renameMaps (env s') = renameMaps (env sampleRenamed)).
Proof. apply (squash_commit_total sampleFile 10 sampleRenamed sampleRenamed_wf). Defined.

Lemma canRename_sufficient_witness :
  canRename (fun c => destsOf c [r 0; r 1; r 2]) (env sampleState) = true /\
  exists infos s', renameDests sampleFile 12 [r 0; r 1; r 2] sampleState = Ok (infos, s') /\
    length infos = 3%nat.
Proof.
  split; [vm_compute; reflexivity|].
  apply (canRename_sufficient sampleFile 12 [r 0; r 1; r 2] sampleState);
    [apply sample_inv| |vm_compute; reflexivity].
  repeat constructor; vm_compute; eauto.
Defined.

Lemma flat_indices_consecutive_witness :
  flatIndex <$> allIds sampleFile = seqZ 0 (totalNumRegs sampleFile) /\
  totalNumRegs sampleFile = totalCount sampleCounts sampleRegs.
Proof.
  apply (flat_indices_consecutive sampleCounts sampleRegs sampleFile);
    [apply sample_counts_ok|reflexivity].
Defined.

Lemma initFreeList_complete_witness :
  initFreeList sampleFile UnifiedFreeList.empty = Ok sampleFree.
Proof.
  apply (initFreeList_complete sampleCounts sampleRegs sampleFile);
    [apply sample_counts_ok|reflexivity].
Defined.

Lemma scoreboard_write_read_witness :
  exists sb', Scoreboard.writeReg (mkPhys FloatRegClass 1 7) false (Scoreboard.ctor 17) = Ok sb' /\
    sb_wf sb' /\ Scoreboard.getReg (mkPhys FloatRegClass 1 7) sb' = Ok false /\
    forall r', flatIndex r' <> 7 -> 0 <= flatIndex r' ->
      Scoreboard.getReg r' sb' = Scoreboard.getReg r' (Scoreboard.ctor 17).
Proof.
  apply (scoreboard_write_read (Scoreboard.ctor 17) (mkPhys FloatRegClass 1 7) false);
    [reflexivity|split; [reflexivity|vm_compute; split; congruence]].
Defined.
