(* ===== verification/RenameThreads.v ===== *)
(** * The initial register state of all threads

    The loops of the CPU constructor ([src/src/cpu/o3/cpu.cc], [CPU::CPU]) over
    the threads: all threads get empty maps, the active ones a physical register
    for each architectural one, from the free list they share. *)

From stdpp Require Import base numbers list gmap functions.
From S2P Require Import Prelude Regs RenameMap RenameHistory RenameInit.

#[local] Open Scope Z_scope.

(** ** Definitions *)

(** The maps of each thread and the shared free list. *)
Record CPURegs := mkCPURegs {
  renameMap : nat -> list SimpleRenameMap.t;
  commitRenameMap : nat -> list SimpleRenameMap.t;
  c_freeList : UnifiedFreeList.t
}.

Section Threads.
Context (rf : PhysRegFile) (numRegs : RegClassType -> nat).

(** The body of the loop over [numThreads]. *)
Definition initThreadMaps (s : CPURegs) (tid : nat) : res CPURegs :=
  cm ← initMaps numRegs (commitRenameMap s tid);
  rm ← initMaps numRegs (renameMap s tid);
  Ok (mkCPURegs (<[tid := rm]> (renameMap s)) (<[tid := cm]> (commitRenameMap s)) (c_freeList s)).

(** The body of the loop over [active_threads]. *)
Definition assignThread (s : CPURegs) (tid : nat) : res CPURegs :=
  i ← assignAll rf numRegs (mkInit (renameMap s tid) (commitRenameMap s tid) (c_freeList s));
  Ok (mkCPURegs (<[tid := i_renameMap i]> (renameMap s))
        (<[tid := i_commitRenameMap i]> (commitRenameMap s)) (i_freeList i)).

Definition initThreads (numThreads active_threads : nat) (fl : UnifiedFreeList.t) : res CPURegs :=
  s ← foldR initThreadMaps
        (mkCPURegs (fun _ => replicate 7 []) (fun _ => replicate 7 []) fl) (seq 0 numThreads);
  foldR assignThread s (seq 0 active_threads).

(** ** The loops *)

(** The free list once [k] threads have taken their registers. *)
Definition taken (k : nat) (fl : UnifiedFreeList.t) : UnifiedFreeList.t :=
  zip_with (fun c l => drop (k * numRegs c) l) renamedClasses fl.

(** The maps of thread [k]. *)
Definition mapsOf (k : nat) (fl : UnifiedFreeList.t) : list SimpleRenameMap.t :=
  zip_with (fun c l => Some <$> take (numRegs c) (drop (k * numRegs c) l)) renamedClasses fl.

(** Enough registers of each class for [n] threads. *)
Definition enoughFor (n : nat) (fl : UnifiedFreeList.t) : Prop :=
  length fl = 7%nat /\
  forall c i l, classSlot c = Some i -> fl !! i = Some l ->
    (n * numRegs c <= length l)%nat /\ Forall (fun r => p_class r = c) l.

Lemma slot_class c i : classSlot c = Some i -> renamedClasses !! i = Some c.
Proof. by destruct c; intros [= <-]. Qed.

Lemma taken_enough n k fl : enoughFor n fl -> (k < n)%nat -> enough numRegs (taken k fl).
Proof.
  intros [Hlen Hfl] Hk. split; [unfold taken; by rewrite length_zip_with, Hlen|].
  intros c i l Hc Hl. unfold taken in Hl. rewrite lookup_zip_with, (slot_class c i Hc) in Hl. cbn in Hl.
  destruct (fl !! i) as [l0|] eqn:E; [|done]. injection Hl as <-.
  destruct (Hfl c i l0 Hc E) as [Hn Hall]. rewrite length_drop. split; [nia|by apply Forall_drop].
Qed.

Lemma zip_with_zip_with {A B C D} (f : A -> C -> D) (g : A -> B -> C) xs ys :
  zip_with f xs (zip_with g xs ys) = zip_with (fun x y => f x (g x y)) xs ys.
Proof. revert ys. induction xs as [|x xs IH]; intros [|y ys]; cbn; [done..|]. by rewrite IH. Qed.

Lemma assigned_taken k fl :
  assigned numRegs (taken k fl) = mkInit (mapsOf k fl) (mapsOf k fl) (taken (S k) fl).
Proof.
  unfold assigned, taken, mapsOf. rewrite !zip_with_zip_with. f_equal.
  apply zip_with_ext; try done. intros c l. rewrite drop_drop. f_equal. lia.
Qed.

(** Both loops, in closed form. *)
Lemma initThreadMaps_loop n s :
  (forall t, renameMap s t = replicate 7 [] /\ commitRenameMap s t = replicate 7 []) ->
  exists s', foldR initThreadMaps s (seq 0 n) = Ok s' /\ c_freeList s' = c_freeList s /\
    forall t, let m := if decide (t < n)%nat then blankMaps numRegs else replicate 7 [] in
      renameMap s' t = m /\ commitRenameMap s' t = m.
Proof.
  intros Hs. induction n as [|n (s' & E & Ef & Em)].
  - by exists s.
  - rewrite seq_S, foldR_app, E. cbn [foldR mbind res_bind plus]. unfold initThreadMaps.
    pose proof (Em n) as [-> ->]. rewrite decide_False by lia. rewrite initMaps_ok. cbn [mbind res_bind].
    eexists. split; [done|]. split; [done|]. intros t. cbn.
    destruct (decide (t = n)) as [->|Ht].
    + rewrite !fn_lookup_insert, decide_True by lia. done.
    + rewrite !fn_lookup_insert_ne by done. destruct (Em t) as [-> ->].
      by rewrite (decide_ext (t < n)%nat (t < S n)%nat) by lia.
Qed.

Lemma assignThread_loop n a s fl :
  enoughFor n fl -> (a <= n)%nat -> c_freeList s = fl ->
  (forall t, (t < n)%nat -> renameMap s t = blankMaps numRegs /\ commitRenameMap s t = blankMaps numRegs) ->
  exists s', foldR assignThread s (seq 0 a) = Ok s' /\ c_freeList s' = taken a fl /\
    forall t, (t < n)%nat -> let m := if decide (t < a)%nat then mapsOf t fl else blankMaps numRegs in
      renameMap s' t = m /\ commitRenameMap s' t = m.
Proof.
  intros He Ha Hfl Hs. induction a as [|a IH].
  - exists s. split; [done|]. split.
    + rewrite Hfl. unfold taken. destruct He as [Hlen _].
      do 7 (destruct fl as [|? fl]; [done|]). by destruct fl.
    + intros t Ht. rewrite decide_False by lia. by apply Hs.
  - destruct IH as (s' & E & Ef & Em); [lia|]. rewrite seq_S, foldR_app, E.
    cbn [foldR mbind res_bind plus]. unfold assignThread. destruct (Em a) as [-> ->]; [lia|].
    rewrite decide_False, Ef by lia.
    rewrite assignAll_ok, assigned_taken by (apply (taken_enough n); [done|lia]). cbn [mbind res_bind].
    eexists. split; [done|]. split; [done|]. intros t Ht. cbn.
    destruct (decide (t = a)) as [->|Hne].
    + rewrite !fn_lookup_insert, decide_True by lia. done.
    + rewrite !fn_lookup_insert_ne by done. destruct (Em t Ht) as [-> ->].
      by rewrite (decide_ext (t < a)%nat (t < S a)%nat) by lia.
Qed.

Lemma initThreads_ok n a fl :
  enoughFor n fl -> (a <= n)%nat ->
  exists s, initThreads n a fl = Ok s /\ c_freeList s = taken a fl /\
    forall t, (t < n)%nat -> let m := if decide (t < a)%nat then mapsOf t fl else blankMaps numRegs in
      renameMap s t = m /\ commitRenameMap s t = m.
Proof.
  intros He Ha. unfold initThreads.
  edestruct (initThreadMaps_loop n) as (s1 & -> & Ef & Em); [|]; cycle 1.
  - cbn [mbind res_bind]. eapply assignThread_loop; [done..|].
    intros t Ht. destruct (Em t) as [-> ->]. by rewrite decide_True.
  - done.
Qed.

(** The threads' registers and the free ones make up the free list. *)
Lemma split_threads {A} (n a : nat) (l : list A) :
  flat_map (fun t => take n (drop (t * n) l)) (seq 0 a) ++ drop (a * n) l = l.
Proof.
  induction a as [|a IH]; [done|]. rewrite seq_S, flat_map_app. cbn [flat_map plus].
  rewrite app_nil_r, <- app_assoc. etrans; [|exact IH]. f_equal.
  etrans; [|exact (take_drop n (drop (a * n) l))]. f_equal. rewrite drop_drop. f_equal. lia.
Qed.

End Threads.

(** ** The constructor *)

(** The constructor's assertions on the parameters, for [n] threads. *)
Record threads_ok (n : nat) (k : regCounts) (numRegs : RegClassType -> Z) : Prop := {
  to_regs : forall c, 0 <= numRegs c;
  to_int : Z.of_nat n * numRegs IntRegClass <= k_int k;
  to_float : Z.of_nat n * numRegs FloatRegClass <= k_float k;
  to_vec : Z.of_nat n * numRegs VecRegClass <= k_vec k;
  to_pred : Z.of_nat n * numRegs VecPredRegClass <= k_pred k;
  to_mat : Z.of_nat n * numRegs MatRegClass <= k_mat k;
  to_cc : Z.of_nat n * numRegs CCRegClass <= k_cc k;
  to_elem : (numRegs VecRegClass | numRegs VecElemClass)
}.

Lemma elems_enoughFor n k numRegs :
  counts_ok k numRegs -> threads_ok n k numRegs ->
  Z.of_nat n * numRegs VecElemClass <= elemCount k numRegs.
Proof.
  intros [] []. unfold elemCount. destruct to_elem0 as [q Hq]. rewrite Hq.
  rewrite Z.div_mul by lia. assert (0 <= q) by nia. nia.
Qed.

(** The registers thread [t] maps in class slot [i]. *)
Definition threadRegs (s : CPURegs) (i t : nat) : list PhysRegId := mappedOf (renameMap s t) i.

Lemma mapsOf_regs numRegs fl c i l t :
  classSlot c = Some i -> fl !! i = Some l ->
  mappedOf (mapsOf numRegs t fl) i = take (numRegs c) (drop (t * numRegs c) l).
Proof.
  intros Hc Hl. unfold mappedOf, mapsOf. rewrite lookup_zip_with, (slot_class c i Hc). cbn.
  rewrite Hl. cbn. apply omap_id_fmap_Some.
Qed.

Lemma threads_share rf nr n a l :
  enoughFor nr n l -> (forall i, NoDup (default [] (l !! i))) -> (a <= n)%nat ->
  exists s, initThreads rf nr n a l = Ok s /\
    (forall t, (t < n)%nat -> commitRenameMap s t = renameMap s t) /\
    forall c i, classSlot c = Some i ->
      (forall t, (t < a)%nat -> length (threadRegs s i t) = nr c) /\
      NoDup (flat_map (threadRegs s i) (seq 0 a) ++ default [] (c_freeList s !! i)) /\
      flat_map (threadRegs s i) (seq 0 a) ++ default [] (c_freeList s !! i) = default [] (l !! i).
Proof.
  intros Henough Hnd Ha. destruct (initThreads_ok rf nr n a l Henough Ha) as (s & -> & Ef & Em).
  exists s. split; [done|].
  split; [intros t Ht; by destruct (Em t Ht) as [-> ->]|]. intros c i Hc. destruct Henough as [H7 Hle].
  destruct (lookup_lt_is_Some_2 l i) as [x Hx].
  { apply slot_class, lookup_lt_Some in Hc. cbn in Hc. lia. }
  destruct (Hle c i x Hc Hx) as [Hlen _].
  assert (Ht : forall t, (t < a)%nat -> threadRegs s i t = take (nr c) (drop (t * nr c) x)).
  { intros t Ht. unfold threadRegs. destruct (Em t) as [-> _]; [lia|]. rewrite decide_True by done.
    by apply mapsOf_regs. }
  assert (Hall : flat_map (threadRegs s i) (seq 0 a) ++ default [] (c_freeList s !! i) = x).
  { rewrite Ef. unfold taken. rewrite lookup_zip_with, (slot_class c i Hc). cbn. rewrite Hx. cbn.
    etrans; [|exact (split_threads (nr c) a x)]. f_equal.
    rewrite !flat_map_concat_map. f_equal. apply map_ext_in. intros t Hin%in_seq. apply Ht. lia. }
  specialize (Hnd i). rewrite Hx in Hnd |- *. cbn in Hnd |- *. rewrite Hall. split_and!; [|done|done].
  intros t Hta. rewrite Ht, length_take, length_drop by done. nia.
Qed.

(** C38: the constructor of a CPU with several threads: given the parameters its
    assertions demand and vectors of whole elements, initialising the maps of
    all threads and assigning registers to the active ones succeeds.  Each
    thread's commit map equals its rename map; in every class each active thread
    maps as many registers as the architecture has, no physical register is
    mapped twice, by one thread or by two, or mapped and free, and none is
    lost. *)
Theorem initThreads_establishes n a k numRegs rf fl :
  counts_ok k numRegs -> threads_ok n k numRegs -> (a <= n)%nat ->
  buildRegFile k numRegs = Some rf -> initFreeList rf UnifiedFreeList.empty = Ok fl ->
  exists s, initThreads rf (fun c => Z.to_nat (numRegs c)) n a fl = Ok s /\
    (forall t, (t < n)%nat -> commitRenameMap s t = renameMap s t) /\
    forall c i, classSlot c = Some i ->
      (forall t, (t < a)%nat -> length (threadRegs s i t) = Z.to_nat (numRegs c)) /\
      NoDup (flat_map (threadRegs s i) (seq 0 a) ++ default [] (c_freeList s !! i)) /\
      flat_map (threadRegs s i) (seq 0 a) ++ default [] (c_freeList s !! i) = default [] (fl !! i).
Proof.
  intros Hk Hp Ha Hrf Hfl. rewrite (initFreeList_ok _ _ _ Hk Hrf) in Hfl. injection Hfl as <-.
  rewrite buildRegFile_ok in Hrf by done. injection Hrf as <-.
  pose proof (elems_enoughFor _ _ _ Hk Hp) as He. destruct Hp.
  match goal with |- context [initThreads _ ?m _ _ ?fl] => set (nr := m); set (l := fl) end.
  assert (Henough : enoughFor nr n l).
  { split; [done|]. intros c i x Hc Hx. pose proof (to_regs0 c). subst l nr. cbv beta.
    destruct c; vm_compute in Hc; simplify_eq; cbn in Hx; injection Hx as <-;
      rewrite idRange_length; (split; [lia|apply idRange_class]). }
  assert (Hnd : forall i, NoDup (default [] (l !! i))).
  { intros i. subst l. do 7 (destruct i as [|i]; [apply idRange_NoDup|]). apply NoDup_nil_2. }
  by apply threads_share.
Qed.

Lemma sample_threads_ok : threads_ok 2 sampleCounts sampleRegs.
Proof. split; try (vm_compute; congruence). { by intros []. } by exists 2. Qed.

Lemma initThreads_establishes_witness :
  exists s, initThreads sampleFile (fun c => Z.to_nat (sampleRegs c)) 2 2 sampleFree = Ok s /\
    (forall t, (t < 2)%nat -> commitRenameMap s t = renameMap s t) /\
    forall c i, classSlot c = Some i ->
      (forall t, (t < 2)%nat -> length (threadRegs s i t) = Z.to_nat (sampleRegs c)) /\
      NoDup (flat_map (threadRegs s i) (seq 0 2) ++ default [] (c_freeList s !! i)) /\
      flat_map (threadRegs s i) (seq 0 2) ++ default [] (c_freeList s !! i) = default [] (sampleFree !! i).
Proof.
  apply (initThreads_establishes 2 2 sampleCounts sampleRegs sampleFile sampleFree);
    [apply sample_counts_ok|apply sample_threads_ok|lia|reflexivity|reflexivity].
Defined.
