(* ===== verification/DynInst.v ===== *)
(** * Dynamic instructions

    [src/src/cpu/o3/dyn_inst.hh] and [dyn_inst.cc]: the instruction objects all
    stages point to.  A [DynInstPtr] is a key of a shared heap, so that a status
    bit set through one list is seen through the others.  The physical
    registers' pinning counters are shared the same way. *)

From stdpp Require Import base numbers list gmap functions.
From S2P Require Import Prelude Regs.

#[local] Open Scope Z_scope.

(** ** Data *)

Abbreviation InstPtr := positive.
Abbreviation ThreadID := nat.

(** [MaxThreads] of [limits.hh]; per-thread arrays are functions of the thread
    number, which is below it. *)
Definition MaxThreads : nat := 4.

(** [DynInst::Status]. *)
Inductive Status :=
  | IqEntry | RobEntry | LsqEntry | Completed | ResultReady | CanIssue | Issued
  | Executed | CanCommit | AtCommit | Committed | Squashed | SquashedInIQ
  | SquashedInLSQ | SquashedInROB | PinnedRegsRenamed | PinnedRegsWritten
  | PinnedRegsSquashDone | RecoverInst | BlockingInst | ThreadsyncWait
  | SerializeBefore | SerializeAfter | SerializeHandled.

#[export] Instance Status_eq_dec : EqDecision Status.
Proof. solve_decision. Defined.

(** [DynInst::Flags]. *)
Inductive InstFlag :=
  | NotAnInst | TranslationStarted | TranslationCompleted | PossibleLoadViolation
  | HitExternalSnoop | EffAddrValid | RecordResult | Predicate | MemAccPredicate
  | PredTaken | IsStrictlyOrdered | ReqMade | MemOpDone | HtmFromTransaction.

#[export] Instance InstFlag_eq_dec : EqDecision InstFlag.
Proof. solve_decision. Defined.

(** [StaticInstFlags::Flags], the enumeration of [StaticInstFlags.py]. *)
Inductive StaticFlag :=
  | IsNop | IsInteger | IsFloating | IsVector | IsVectorElem | IsMatrix | IsLoad
  | IsStore | IsAtomic | IsStoreConditional | IsInstPrefetch | IsDataPrefetch
  | IsControl | IsDirectControl | IsIndirectControl | IsCondControl
  | IsUncondControl | IsCall | IsReturn | IsSerializing | IsSerializeBefore
  | IsSerializeAfter | IsWriteBarrier | IsReadBarrier | IsNonSpeculative | IsQuiesce
  | IsUnverifiable | IsSyscall | IsMacroop | IsMicroop | IsDelayedCommit
  | IsLastMicroop | IsFirstMicroop | IsSquashAfter | IsHtmStart | IsHtmStop
  | IsHtmCancel.

#[export] Instance StaticFlag_eq_dec : EqDecision StaticFlag.
Proof. solve_decision. Defined.

(** What the pipeline asks of the decoded instruction ([StaticInst]): its
    operands, its operation class and its flags. *)
Record StaticInst := mkStatic {
  srcRegIdx : list RegId;
  destRegIdx : list RegId;
  si_opClass : nat;
  flags : StaticFlag -> bool
}.

(** The flag accessors of [static_inst.hh]. *)
Definition si_isMemRef (s : StaticInst) : bool := flags s IsLoad || flags s IsStore || flags s IsAtomic.
Definition si_isFullMemBarrier (s : StaticInst) : bool := flags s IsReadBarrier && flags s IsWriteBarrier.
Definition si_isHtmCmd (s : StaticInst) : bool :=
  flags s IsHtmStart || flags s IsHtmStop || flags s IsHtmCancel.

(** [Fault] is a pointer; [NoFault] is the null pointer. *)
Abbreviation Fault := (option positive).
Abbreviation NoFault := (None : Fault).

Record DynInst := mkInst {
  seqNum : Z;
  threadNumber : ThreadID;
  staticInst : StaticInst;
  status : Status -> bool;
  instFlags : InstFlag -> bool;
  fault : Fault;
  pc : Z;                          (* [pcState().instAddr()] *)
  flatDestIdx : list RegId;
  destIdx : list (option PhysRegId);
  prevDestIdx : list (option PhysRegId);
  srcIdx : list (option PhysRegId);
  readySrcIdx : list bool;
  readyRegs : Z
}.

#[export] Instance eta_inst : Eta DynInst := fun i =>
  mkInst (seqNum i) (threadNumber i) (staticInst i) (status i) (instFlags i) (fault i) (pc i)
    (flatDestIdx i) (destIdx i) (prevDestIdx i) (srcIdx i) (readySrcIdx i) (readyRegs i).

(** The constructor: no status bit is set, no source is ready; the index arrays
    are not initialised. *)
Definition DynInst_ctor (si : StaticInst) (pc : Z) (seq_num : Z) (tid : ThreadID) : DynInst :=
  mkInst seq_num tid si (fun _ => false)
    (fun f => match f with RecordResult | Predicate | MemAccPredicate => true | _ => false end)
    NoFault pc
    (replicate (length (destRegIdx si)) (mkRegId InvalidRegClass 0 0))
    (replicate (length (destRegIdx si)) None)
    (replicate (length (destRegIdx si)) None)
    (replicate (length (srcRegIdx si)) None)
    (replicate (length (srcRegIdx si)) false) 0.

(** The heap of instructions and the pinning counters. *)
Record InstMem := mkMem { heap : gmap InstPtr DynInst; mpins : Pins }.

#[export] Instance eta_mem : Eta InstMem := fun m => mkMem (heap m) (mpins m).

(** ** Operations *)

Definition numSrcRegs (i : DynInst) : nat := length (srcIdx i).
Definition numDestRegs (i : DynInst) : nat := length (destIdx i).

Definition setStatus (b : Status) (v : bool) (i : DynInst) : DynInst :=
  i <| status := <[b := v]> (status i) |>.

Definition setFlag (f : InstFlag) (v : bool) (i : DynInst) : DynInst :=
  i <| instFlags := <[f := v]> (instFlags i) |>.

Definition isSquashed (i : DynInst) : bool := status i Squashed.
Definition readyToCommit (i : DynInst) : bool := status i CanCommit.
Definition readyToIssue (i : DynInst) : bool := status i CanIssue.
Definition isIssued (i : DynInst) : bool := status i Issued.
Definition isCompleted (i : DynInst) : bool := status i Completed.
Definition isSquashedInIQ (i : DynInst) : bool := status i SquashedInIQ.
Definition isInROB (i : DynInst) : bool := status i RobEntry.
Definition isSerializeBefore (i : DynInst) : bool :=
  flags (staticInst i) IsSerializeBefore || status i SerializeBefore.
Definition isSerializeAfter (i : DynInst) : bool :=
  flags (staticInst i) IsSerializeAfter || status i SerializeAfter.
Definition isSerializeHandled (i : DynInst) : bool := status i SerializeHandled.
Definition isMemRef (i : DynInst) : bool := si_isMemRef (staticInst i).
Definition isLoad (i : DynInst) : bool := flags (staticInst i) IsLoad.
Definition isStore (i : DynInst) : bool := flags (staticInst i) IsStore.
Definition isAtomic (i : DynInst) : bool := flags (staticInst i) IsAtomic.
Definition isStoreConditional (i : DynInst) : bool := flags (staticInst i) IsStoreConditional.
Definition isNonSpeculative (i : DynInst) : bool := flags (staticInst i) IsNonSpeculative.
Definition isReadBarrier (i : DynInst) : bool := flags (staticInst i) IsReadBarrier.
Definition isWriteBarrier (i : DynInst) : bool := flags (staticInst i) IsWriteBarrier.
Definition isFullMemBarrier (i : DynInst) : bool := si_isFullMemBarrier (staticInst i).
Definition isHtmCmd (i : DynInst) : bool := si_isHtmCmd (staticInst i).
Definition memOpDone (i : DynInst) : bool := instFlags i MemOpDone.
Definition translationCompleted (i : DynInst) : bool := instFlags i TranslationCompleted.

Definition isExecuted (i : DynInst) : bool := status i Executed.
Definition notAnInst (i : DynInst) : bool := instFlags i NotAnInst.
Definition strictlyOrdered (i : DynInst) : bool := instFlags i IsStrictlyOrdered.
Definition readPredicate (i : DynInst) : bool := instFlags i Predicate.
Definition readPredTaken (i : DynInst) : bool := instFlags i PredTaken.
Definition inHtmTransactionalState (i : DynInst) : bool := instFlags i HtmFromTransaction.
Definition isHtmStart (i : DynInst) : bool := flags (staticInst i) IsHtmStart.
Definition isHtmStop (i : DynInst) : bool := flags (staticInst i) IsHtmStop.
Definition isControl (i : DynInst) : bool := flags (staticInst i) IsControl.
Definition isDirectCtrl (i : DynInst) : bool := flags (staticInst i) IsDirectControl.
Definition isUncondCtrl (i : DynInst) : bool := flags (staticInst i) IsUncondControl.
Definition isSquashAfter (i : DynInst) : bool := flags (staticInst i) IsSquashAfter.
Definition isMicroop (i : DynInst) : bool := flags (staticInst i) IsMicroop.
Definition isLastMicroop (i : DynInst) : bool := flags (staticInst i) IsLastMicroop.
Definition isDelayedCommit (i : DynInst) : bool := flags (staticInst i) IsDelayedCommit.

Definition setCompleted (i : DynInst) : DynInst := setStatus Completed true i.
Definition setCanCommit (i : DynInst) : DynInst := setStatus CanCommit true i.
Definition clearCanCommit (i : DynInst) : DynInst := setStatus CanCommit false i.
Definition setCanIssue (i : DynInst) : DynInst := setStatus CanIssue true i.

Definition setSquashedInIQ (i : DynInst) : DynInst :=
  setStatus Squashed true (setStatus SquashedInIQ true i).
Definition setSquashedInLSQ (i : DynInst) : DynInst :=
  setStatus Squashed true (setStatus SquashedInLSQ true i).

Definition setPinnedRegsRenamed (i : DynInst) : res DynInst :=
  assert! negb (status i PinnedRegsSquashDone) ;;
  assert! negb (status i PinnedRegsWritten) ;;
  Ok (setStatus PinnedRegsRenamed true i).

Definition setPinnedRegsWritten (i : DynInst) : res DynInst :=
  assert! negb (status i PinnedRegsSquashDone) ;;
  assert! status i PinnedRegsRenamed ;;
  Ok (setStatus PinnedRegsWritten true i).

Definition setPinnedRegsSquashDone (i : DynInst) : res DynInst :=
  assert! negb (status i PinnedRegsSquashDone) ;;
  Ok (setStatus PinnedRegsSquashDone true i).

(** [markSrcRegReady()]: the counter is an [uint8_t]. *)
Definition markSrcRegReady (i : DynInst) : DynInst :=
  let i := i <| readyRegs := wrap 8 (readyRegs i + 1) |> in
  if readyRegs i =? Z.of_nat (numSrcRegs i) then setStatus CanIssue true i else i.

(** [markSrcRegReady(src_idx)]. *)
Definition markSrcRegReadyIdx (src_idx : nat) (i : DynInst) : res DynInst :=
  _ ← deref (readySrcIdx i !! src_idx);
  Ok (markSrcRegReady (i <| readySrcIdx := <[src_idx := true]> (readySrcIdx i) |>)).

(** [renameSrcReg] and [renameDestReg]. *)
Definition renameSrcReg (idx : nat) (renamed_src : PhysRegId) (i : DynInst) : res DynInst :=
  _ ← deref (srcIdx i !! idx);
  Ok (i <| srcIdx := <[idx := Some renamed_src]> (srcIdx i) |>).

Definition renameDestReg (idx : nat) (renamed_dest previous_rename : PhysRegId) (ps : Pins)
    (i : DynInst) : res DynInst :=
  _ ← deref (destIdx i !! idx);
  let i := i <| destIdx := <[idx := Some renamed_dest]> (destIdx i) |> in
  let i := i <| prevDestIdx := <[idx := Some previous_rename]> (prevDestIdx i) |> in
  if pinned (pinOf ps renamed_dest) then setPinnedRegsRenamed i else Ok i.

(** ** Through the pointer *)

Definition getInst (p : InstPtr) (m : InstMem) : res DynInst := deref (heap m !! p).

Definition updInst (p : InstPtr) (f : DynInst -> DynInst) (m : InstMem) : res InstMem :=
  i ← getInst p m;
  Ok (m <| heap := <[p := f i]> (heap m) |>).

(** One destination of [setSquashed]'s loop. *)
Definition unpinDest (written : bool) (ps : Pins) (o : option PhysRegId) : res Pins :=
  phys_dest_reg ← deref o;
  if pinned (pinOf ps phys_dest_reg) then
    let ps := updPin phys_dest_reg incrNumPinnedWrites ps in
    Ok (if written then updPin phys_dest_reg incrNumPinnedWritesToComplete ps else ps)
  else Ok ps.

Definition setSquashed (p : InstPtr) (m : InstMem) : res InstMem :=
  m ← updInst p (setStatus Squashed true) m;
  i ← getInst p m;
  if negb (status i PinnedRegsRenamed) || status i PinnedRegsSquashDone then Ok m else
  ps ← foldR (unpinDest (status i PinnedRegsWritten)) (mpins m) (destIdx i);
  i ← setPinnedRegsSquashDone i;
  Ok (mkMem (<[p := i]> (heap m)) ps).

(** ** Identity

    Instructions in flight keep their identity; everything else about them may
    change between two operations. *)
Definition sameInst (i i' : DynInst) : Prop :=
  seqNum i' = seqNum i /\ threadNumber i' = threadNumber i /\ staticInst i' = staticInst i /\
  pc i' = pc i.

Definition extends (m m' : InstMem) : Prop :=
  forall p i, heap m !! p = Some i -> exists i', heap m' !! p = Some i' /\ sameInst i i'.

Lemma sameInst_refl i : sameInst i i.
Proof. done. Qed.

Lemma extends_refl m : extends m m.
Proof. intros p i Hp. eauto using sameInst_refl. Qed.

Lemma setStatus_sameInst b v i : sameInst i (setStatus b v i).
Proof. done. Qed.

Lemma updInst_extends p f m m' :
  (forall i, sameInst i (f i)) -> updInst p f m = Ok m' -> extends m m'.
Proof.
  intros Hf H. unfold updInst, getInst in H. inv_ok. intros q j Hq. cbn.
  destruct (decide (q = p)) as [->|Hne].
  - rewrite lookup_insert_eq. simplify_eq. eauto.
  - rewrite lookup_insert_ne by done. eauto using sameInst_refl.
Qed.

Lemma sameInst_trans i j k : sameInst i j -> sameInst j k -> sameInst i k.
Proof. unfold sameInst. intuition congruence. Qed.

Lemma extends_trans m1 m2 m3 : extends m1 m2 -> extends m2 m3 -> extends m1 m3.
Proof.
  intros H1 H2 p i Hp. destruct (H1 _ _ Hp) as (j & Hj & Hs). destruct (H2 _ _ Hj) as (k & Hk & Hs').
  eauto using sameInst_trans.
Qed.

(** ** Squashing an instruction *)

(** The instruction is in a state in which its pinned destinations can be
    released: if they were renamed, every destination has its register. *)
Definition squashable (i : DynInst) : Prop :=
  status i PinnedRegsRenamed = true -> Forall is_Some (destIdx i).

(** [i'] is [i] but for the two bits a squash may set. *)
Definition squashedFrom (i i' : DynInst) : Prop :=
  i' = i <| status := status i' |> /\ status i' Squashed = true /\
  forall b, b <> Squashed -> b <> PinnedRegsSquashDone -> status i' b = status i b.

Lemma unpinDest_ok written ps l :
  Forall is_Some l -> exists ps', foldR (unpinDest written) ps l = Ok ps'.
Proof.
  intros H. revert ps. induction H as [|o l [r ->] H IH]; intros ps; cbn [foldR]; [eauto|].
  unfold unpinDest at 2. cbn. destruct (pinned _); [destruct written|]; cbn; apply IH.
Qed.

Lemma setSquashed_ok p i m :
  heap m !! p = Some i -> squashable i ->
  exists i' ps, setSquashed p m = Ok (mkMem (<[p := i']> (heap m)) ps) /\ squashedFrom i i'.
Proof.
  intros Hp Hi. unfold setSquashed, updInst, getInst. rewrite Hp. cbn.
  rewrite lookup_insert_eq. cbn. rewrite fn_lookup_insert_ne by done.
  rewrite !fn_lookup_insert_ne by done.
  destruct (status i PinnedRegsRenamed) eqn:Er, (status i PinnedRegsSquashDone) eqn:Ed; cbn.
  2: { destruct (unpinDest_ok (status i PinnedRegsWritten) (mpins m) (destIdx i) (Hi Er))
         as [ps Hps].
       rewrite Hps. cbn. unfold setPinnedRegsSquashDone. cbn.
       rewrite fn_lookup_insert_ne, Ed by done. cbn. rewrite insert_insert_eq.
       do 2 eexists. split; [done|]. split_and!; cbn; try done.
       intros b Hb Hb'. by rewrite !fn_lookup_insert_ne by done. }
  all: do 2 eexists; split; [done|]; split_and!; cbn; try done;
    intros b Hb Hb'; by rewrite fn_lookup_insert_ne by done.
Qed.

Lemma squashedFrom_fields i i' :
  squashedFrom i i' -> seqNum i' = seqNum i /\ threadNumber i' = threadNumber i /\
    staticInst i' = staticInst i /\ destIdx i' = destIdx i.
Proof. intros (-> & _ & _). done. Qed.

Lemma squashedFrom_squashable i i' : squashedFrom i i' -> squashable i -> squashable i'.
Proof.
  intros (E & _ & Hb) Hi Hr. rewrite E. cbn. apply Hi. rewrite <- Hr. symmetry. by apply Hb.
Qed.

(** squashing an instruction again changes nothing: the pinned writes of
    its destinations are given back once, however many squashes (of the ROB, of
    the CPU's list, of the queues) reach it. *)
Theorem setSquashed_idempotent p i m m' :
  heap m !! p = Some i -> setSquashed p m = Ok m' ->
  exists i', heap m' !! p = Some i' /\ isSquashed i' = true /\
    setSquashed p m' = Ok (m' <| heap := <[p := setStatus Squashed true i']> (heap m') |>).
Proof.
  intros Hp H. unfold setSquashed, updInst, getInst in H. rewrite Hp in H. cbn in H.
  rewrite lookup_insert_eq in H. cbn in H. rewrite !fn_lookup_insert_ne in H by done.
  unfold setSquashed, updInst, getInst.
  destruct (status i PinnedRegsRenamed) eqn:Er, (status i PinnedRegsSquashDone) eqn:Ed;
    cbn in H.
  2: { destruct (foldR _ _ _) as [ps| |]; cbn in H; try done.
       unfold setPinnedRegsSquashDone in H. cbn in H.
       rewrite fn_lookup_insert_ne, Ed in H by done. cbn in H. injection H as <-.
       rewrite insert_insert_eq. cbn. rewrite lookup_insert_eq. eexists. split; [done|].
       split; [done|]. cbn. rewrite lookup_insert_eq. cbn.
       rewrite !fn_lookup_insert_ne, fn_lookup_insert by done. rewrite orb_true_r. done. }
  all: injection H as <-; cbn; rewrite lookup_insert_eq; eexists; split; [done|];
    split; [done|]; cbn; rewrite lookup_insert_eq; cbn;
    rewrite !fn_lookup_insert_ne, Er, ?Ed by done; done.
Qed.

(** A renamed instruction with a pinned destination. *)
Definition pinnedDest : PhysRegId := mkPhys VecRegClass 0 0.

Definition pinnedMem : InstMem :=
  mkMem {[ 1%positive := mkInst 1 0 (mkStatic [] [mkRegId VecRegClass 0 2] 0 (fun _ => false))
    (fun s => bool_decide (s = PinnedRegsRenamed)) (fun _ => false) NoFault 0 [mkRegId VecRegClass 0 2]
    [Some pinnedDest] [None] [] [] 0 ]} {[ pinnedDest := mkPin 1 2 true ]}.

Definition pinnedAfter : InstMem :=
  match setSquashed 1 pinnedMem with Ok m => m | _ => pinnedMem end.

Lemma setSquashed_idempotent_witness :
  pinOf (mpins pinnedAfter) pinnedDest = mkPin 2 2 true /\
  exists i', heap pinnedAfter !! 1%positive = Some i' /\ isSquashed i' = true /\
    setSquashed 1 pinnedAfter
      = Ok (pinnedAfter <| heap := <[1%positive := setStatus Squashed true i']> (heap pinnedAfter) |>).
Proof.
  split; [vm_compute; reflexivity|].
  eapply (setSquashed_idempotent 1 _ pinnedMem pinnedAfter); [reflexivity|vm_compute; reflexivity].
Defined.
