(* ===== verification/Stage.v ===== *)
(** * What the stages of the pipeline share

    The limits of [src/src/cpu/o3/limits.hh], the status of a stage as a whole
    and the calls a stage makes on the CPU's activity recorder. *)

From stdpp Require Import base numbers.
From S2P Require Import Prelude.

#[local] Open Scope Z_scope.

(** [MaxWidth] of [limits.hh]: the size of the arrays of the time buffers. *)
Definition MaxWidth : Z := 12.

(** A stage is active when it has work of its own for the next cycle. *)
Inductive StageStatus := Active | Inactive.

#[export] Instance StageStatus_eq_dec : EqDecision StageStatus.
Proof. solve_decision. Defined.

(** The calls on the CPU's activity recorder. *)
Inductive ActivityCall := ActivityThisCycle | ActivateStage | DeactivateStage.
