(* ===== verification/ROB.v ===== *)
(** * The reorder buffer

    [src/src/cpu/o3/rob.hh] and [rob.cc], with the CPU's list of in-flight
    instructions ([instList], [removeList] of [cpu.cc]) that retiring and
    squashing work on.  List iterators are the instruction they point to
    ([None] is [end()]); following one to an instruction that has left the list
    is undefined. *)

From stdpp Require Import base numbers list gmap functions.
From S2P Require Import Prelude Regs DynInst.

#[local] Open Scope Z_scope.

(** ** State *)

Inductive ROBStatus := ROBRunning | ROBIdle | ROBSquashing.
Inductive SMTQueuePolicy := Dynamic | Partitioned | Threshold.

#[export] Instance SMTQueuePolicy_eq_dec : EqDecision SMTQueuePolicy.
Proof. solve_decision. Defined.

Record ROB := mkROB {
  robStatus : ThreadID -> ROBStatus;
  robPolicy : SMTQueuePolicy;
  activeThreads : list ThreadID;
  numEntries : Z;
  threadEntries : ThreadID -> Z;
  maxEntries : ThreadID -> Z;
  instList : ThreadID -> list InstPtr;
  squashWidth : Z;
  tail : option InstPtr;
  head : option InstPtr;
  squashIt : ThreadID -> option InstPtr;
  numInstsInROB : Z;
  squashedSeqNum : ThreadID -> Z;
  doneSquashing : ThreadID -> bool;
  robNumThreads : nat
}.

#[export] Instance eta_rob : Eta ROB := fun r =>
  mkROB (robStatus r) (robPolicy r) (activeThreads r) (numEntries r) (threadEntries r)
    (maxEntries r) (instList r) (squashWidth r) (tail r) (head r) (squashIt r)
    (numInstsInROB r) (squashedSeqNum r) (doneSquashing r) (robNumThreads r).

(** The CPU's own list of instructions in flight, all threads together. *)
Record CpuInsts := mkCpuInsts {
  cpuInstList : list InstPtr;
  removeList : list InstPtr;
  removeInstsThisCycle : bool
}.

#[export] Instance eta_cpuinsts : Eta CpuInsts := fun c =>
  mkCpuInsts (cpuInstList c) (removeList c) (removeInstsThisCycle c).

Record Core := mkCore { rob : ROB; cpu : CpuInsts; mem : InstMem }.

#[export] Instance eta_core : Eta Core := fun c => mkCore (rob c) (cpu c) (mem c).

(** ** Construction *)

(** [resetState]; the lists themselves are left alone. *)
Definition resetState (r : ROB) : ROB :=
  r <| threadEntries := fun _ => 0 |>
    <| squashIt := fun _ => None |>
    <| squashedSeqNum := fun _ => 0 |>
    <| doneSquashing := fun _ => true |>
    <| numInstsInROB := 0 |>
    <| head := None |>
    <| tail := None |>.

(** The entries the policy gives a thread. *)
Definition policyEntries (policy : SMTQueuePolicy) (numEntries smtROBThreshold : Z)
    (numThreads : nat) : Z :=
  match policy with
  | Dynamic => numEntries
  | Partitioned => numEntries / Z.of_nat numThreads
  | Threshold => smtROBThreshold
  end.

(** The constructor, given what the uninitialised members hold. *)
Definition ROB_ctor (policy : SMTQueuePolicy) (numROBEntries squashWidth smtROBThreshold : Z)
    (numThreads : nat) (active : list ThreadID) (status0 : ThreadID -> ROBStatus) : ROB :=
  resetState
    {| robStatus := status0;
       robPolicy := policy;
       activeThreads := active;
       numEntries := numROBEntries;
       threadEntries := fun _ => 0;
       maxEntries := fun tid =>
         if (tid <? numThreads)%nat
         then policyEntries policy numROBEntries smtROBThreshold numThreads else 0;
       instList := fun _ => [];
       squashWidth := squashWidth;
       tail := None;
       head := None;
       squashIt := fun _ => None;
       numInstsInROB := 0;
       squashedSeqNum := fun _ => 0;
       doneSquashing := fun _ => true;
       robNumThreads := numThreads |}.

(** One thread of [resetEntries]'s loop. *)
Definition resetEntry (active_threads : Z) (r : ROB) (tid : ThreadID) : ROB :=
  if decide (robPolicy r = Partitioned) then
    r <| maxEntries := <[tid := numEntries r / active_threads]> (maxEntries r) |>
  else if bool_decide (robPolicy r = Threshold) && (active_threads =? 1) then
    r <| maxEntries := <[tid := numEntries r]> (maxEntries r) |>
  else r.

Definition resetEntries (r : ROB) : ROB :=
  if negb (bool_decide (robPolicy r = Dynamic)) || (1 <? robNumThreads r)%nat then
    foldl (resetEntry (Z.of_nat (length (activeThreads r)))) r (activeThreads r)
  else r.

Definition entryAmount (num_threads : Z) (r : ROB) : res Z :=
  if decide (robPolicy r = Partitioned) then
    if num_threads =? 0 then Undef else Ok (numEntries r / num_threads)
  else Ok 0.

(** ** Reading *)

Definition countInstsOf (tid : ThreadID) (r : ROB) : Z := Z.of_nat (length (instList r tid)).
Definition countInsts (r : ROB) : Z :=
  foldl (fun total tid => total + countInstsOf tid r) 0 (seq 0 (robNumThreads r)).

Definition numFreeEntries (r : ROB) : Z := u32 (numEntries r - numInstsInROB r).
Definition numFreeEntriesOf (tid : ThreadID) (r : ROB) : Z :=
  u32 (maxEntries r tid - threadEntries r tid).
Definition isFull (r : ROB) : bool := u32 (numInstsInROB r) =? numEntries r.
(** The thread's entries are compared with the size of the whole buffer. *)
Definition isFullOf (tid : ThreadID) (r : ROB) : bool := threadEntries r tid =? numEntries r.
Definition isEmpty (r : ROB) : bool := numInstsInROB r =? 0.
Definition isEmptyOf (tid : ThreadID) (r : ROB) : bool := threadEntries r tid =? 0.

Definition drainSanityCheck (r : ROB) : res unit :=
  assert! forallb (fun tid => bool_decide (instList r tid = [])) (seq 0 (robNumThreads r)) ;;
  assertR (isEmpty r).

Definition isHeadReady (tid : ThreadID) (c : Core) : res bool :=
  if negb (threadEntries (rob c) tid =? 0) then
    p ← deref (list.head (instList (rob c) tid));
    i ← getInst p (mem c);
    Ok (readyToCommit i)
  else Ok false.

Fixpoint anyHeadReady (threads : list ThreadID) (c : Core) : res bool :=
  match threads with
  | [] => Ok false
  | tid :: threads =>
      b ← isHeadReady tid c;
      if b : bool then Ok true else anyHeadReady threads c
  end.

Definition canCommit (c : Core) : res bool := anyHeadReady (activeThreads (rob c)) c.

(** [readHeadInst]; [None] is the dummy instruction. *)
Definition readHeadInst (tid : ThreadID) (c : Core) : res (option InstPtr) :=
  if negb (threadEntries (rob c) tid =? 0) then
    p ← deref (list.head (instList (rob c) tid));
    i ← getInst p (mem c);
    assert! isInROB i ;;
    Ok (Some p)
  else Ok None.

Definition readTailInst (tid : ThreadID) (c : Core) : res InstPtr :=
  deref (list.last (instList (rob c) tid)).

Fixpoint findIn (l : list InstPtr) (squash_inst : Z) (m : InstMem) : res (option InstPtr) :=
  match l with
  | [] => Ok None
  | p :: l =>
      i ← getInst p m;
      if seqNum i =? squash_inst then Ok (Some p) else findIn l squash_inst m
  end.

Definition findInst (tid : ThreadID) (squash_inst : Z) (c : Core) : res (option InstPtr) :=
  findIn (instList (rob c) tid) squash_inst (mem c).

(** ** The universal head and tail *)

(** One thread of [updateHead]: [acc] is the head found so far, with its
    sequence number. *)
Definition headStep (c : Core) (acc : option (InstPtr * Z)) (tid : ThreadID)
    : res (option (InstPtr * Z)) :=
  match instList (rob c) tid with
  | [] => Ok acc
  | p :: _ =>
      i ← getInst p (mem c);
      match acc with
      | None => Ok (Some (p, seqNum i))
      | Some (_, lowest_num) =>
          if seqNum i <? lowest_num then Ok (Some (p, seqNum i)) else Ok acc
      end
  end.

Definition updateHead (c : Core) : res Core :=
  acc ← foldR (headStep c) None (activeThreads (rob c));
  Ok (c <| rob := rob c <| head := fst <$> acc |> |>).

Definition tailStep (c : Core) (acc : option (InstPtr * Z)) (tid : ThreadID)
    : res (option (InstPtr * Z)) :=
  match list.last (instList (rob c) tid) with
  | None => Ok acc
  | Some p =>
      i ← getInst p (mem c);
      match acc with
      | None => Ok (Some (p, seqNum i))
      | Some (_, highest) =>
          if highest <? seqNum i then Ok (Some (p, seqNum i)) else Ok acc
      end
  end.

Definition updateTail (c : Core) : res Core :=
  acc ← foldR (tailStep c) None (activeThreads (rob c));
  Ok (c <| rob := rob c <| tail := fst <$> acc |> |>).

(** ** Inserting and retiring *)

Definition insertInst (p : InstPtr) (c : Core) : res Core :=
  let r := rob c in
  assert! negb (u32 (numInstsInROB r) =? numEntries r) ;;
  i ← getInst p (mem c);
  let tid := threadNumber i in
  let l := instList r tid ++ [p] in
  (* the head is set when this is the only instruction *)
  assert! negb (numInstsInROB r =? 0) || bool_decide (list.head l = Some p) ;;
  m ← updInst p (setStatus RobEntry true) (mem c);
  let r' := r <| instList := <[tid := l]> (instList r) |>
              <| head := (if numInstsInROB r =? 0 then list.head l else head r) |>
              <| tail := list.last l |>
              <| numInstsInROB := numInstsInROB r + 1 |>
              <| threadEntries := <[tid := u32 (threadEntries r tid + 1)]> (threadEntries r) |> in
  Ok (c <| rob := r' |> <| mem := m |>).

(** [CPU::removeFrontInst]; the iterator an instruction keeps to its place in
    the CPU's list is the instruction itself. *)
Definition removeFrontInst (p : InstPtr) (u : CpuInsts) : CpuInsts :=
  u <| removeInstsThisCycle := true |> <| removeList := removeList u ++ [p] |>.

Definition retireHead (tid : ThreadID) (c : Core) : res Core :=
  let r := rob c in
  assert! 0 <? numInstsInROB r ;;
  p ← deref (list.head (instList r tid));
  i ← getInst p (mem c);
  assert! readyToCommit i ;;
  let r := r <| instList := <[tid := list.tail (instList r tid)]> (instList r) |>
             <| numInstsInROB := numInstsInROB r - 1 |>
             <| threadEntries := <[tid := u32 (threadEntries r tid - 1)]> (threadEntries r) |> in
  m ← updInst p (fun i => setStatus Committed true (setStatus RobEntry false i)) (mem c);
  c ← updateHead (c <| rob := r |> <| mem := m |>);
  Ok (c <| cpu := removeFrontInst p (cpu c) |>).

(** ** Squashing *)

(** [it--]: the instruction before [p] in the list. *)
Fixpoint prevIn (l : list InstPtr) (p : InstPtr) : option InstPtr :=
  match l with
  | q :: ((p' :: _) as l') => if decide (p' = p) then Some q else prevIn l' p
  | _ => None
  end.

Inductive SquashEnd := ReachedHead | Stopped (it : InstPtr).

(** The loop of [doSquash]: at most [n] instructions, from [it] towards the head,
    as long as they are younger than [sn]. *)
Fixpoint doSquashLoop (n : nat) (l : list InstPtr) (sn : Z) (it : InstPtr)
    (robTailUpdate : bool) (m : InstMem) : res (SquashEnd * bool * InstMem) :=
  match n with
  | O => Ok (Stopped it, robTailUpdate, m)
  | S n =>
      _ ← deref (list_find (eq it) l);
      i ← getInst it m;
      if sn <? seqNum i then
        m ← setSquashed it m;
        m ← updInst it (setStatus CanCommit true) m;
        if decide (list.head l = Some it) then Ok (ReachedHead, robTailUpdate, m) else
        let robTailUpdate := robTailUpdate || bool_decide (list.last l = Some it) in
        it' ← deref (prevIn l it);
        doSquashLoop n l sn it' robTailUpdate m
      else Ok (Stopped it, robTailUpdate, m)
  end.

Definition doneWith (tid : ThreadID) (r : ROB) : ROB :=
  r <| squashIt := <[tid := None]> (squashIt r) |>
    <| doneSquashing := <[tid := true]> (doneSquashing r) |>.

(** The end of [doSquash], when the loop stopped at [it]. *)
Definition squashFinish (tid : ThreadID) (it : InstPtr) (robTailUpdate : bool) (c : Core)
    : res Core :=
  let r := rob c in
  i ← getInst it (mem c);
  let r := if seqNum i <=? squashedSeqNum r tid then doneWith tid r
           else r <| squashIt := <[tid := Some it]> (squashIt r) |> in
  let c := c <| rob := r |> in
  if robTailUpdate : bool then updateTail c else Ok c.

(** [isThreadExiting] is the CPU's answer for the thread. *)
Definition doSquash (isThreadExiting : bool) (tid : ThreadID) (c : Core) : res Core :=
  let r := rob c in
  it ← match squashIt r tid with Some it => Ok it | None => Panic end;
  _ ← deref (list_find (eq it) (instList r tid));
  i ← getInst it (mem c);
  if seqNum i <? squashedSeqNum r tid then Ok (c <| rob := doneWith tid r |>) else
  let numInstsToSquash := if isThreadExiting then numEntries r else squashWidth r in
  '(e, robTailUpdate, m) ←
    doSquashLoop (Z.to_nat numInstsToSquash) (instList r tid) (squashedSeqNum r tid) it false (mem c);
  match e with
  | ReachedHead => Ok (c <| rob := doneWith tid r |> <| mem := m |>)
  | Stopped it => squashFinish tid it robTailUpdate (c <| mem := m |>)
  end.

Definition squash (isThreadExiting : bool) (squash_num : Z) (tid : ThreadID) (c : Core) : res Core :=
  let r := rob c in
  if isEmptyOf tid r then Ok c else
  let r := r <| robStatus := <[tid := ROBSquashing]> (robStatus r) |>
             <| doneSquashing := <[tid := false]> (doneSquashing r) |>
             <| squashedSeqNum := <[tid := squash_num]> (squashedSeqNum r) |> in
  match list.last (instList r tid) with
  | Some p =>
      doSquash isThreadExiting tid
        (c <| rob := r <| squashIt := <[tid := Some p]> (squashIt r) |> |>)
  | None => Ok (c <| rob := r |>)
  end.

(** ** The CPU's list *)

Definition addInst (p : InstPtr) (u : CpuInsts) : CpuInsts :=
  u <| cpuInstList := cpuInstList u ++ [p] |>.

Definition squashInstIt (p : InstPtr) (tid : ThreadID) (c : Core) : res Core :=
  i ← getInst p (mem c);
  if decide (threadNumber i = tid) then
    m ← setSquashed p (mem c);
    Ok (c <| mem := m |> <| cpu := (cpu c) <| removeList := removeList (cpu c) ++ [p] |> |>)
  else Ok c.

(** The walk of [removeInstsNotInROB] over the reversed list, down to [end_it]. *)
Fixpoint squashDownTo (l : list InstPtr) (end_it : InstPtr) (tid : ThreadID) (c : Core) : res Core :=
  match l with
  | [] => Undef
  | p :: l =>
      if decide (p = end_it) then Ok c else
      c ← squashInstIt p tid c;
      squashDownTo l end_it tid c
  end.

Definition removeInstsNotInROB (tid : ThreadID) (c : Core) : res Core :=
  let l := cpuInstList (cpu c) in
  match l with
  | [] => Ok c
  | first :: _ =>
      let rob_empty := isEmptyOf tid (rob c) in
      end_it ← if rob_empty then Ok first else readTailInst tid c;
      let c := c <| cpu := (cpu c) <| removeInstsThisCycle := true |> |> in
      c ← squashDownTo (reverse l) end_it tid c;
      if rob_empty then squashInstIt end_it tid c else Ok c
  end.

(** The walk of [removeInstsUntil] over the reversed list.  The iterator is
    moved before [break_loop] is looked at, and not used afterwards. *)
Fixpoint squashUntil (l : list InstPtr) (seq_num : Z) (tid : ThreadID) (c : Core) : res Core :=
  match l with
  | [] => Ok c
  | p :: l =>
      i ← getInst p (mem c);
      if seq_num <? seqNum i then
        c ← squashInstIt p tid c;
        squashUntil l seq_num tid c
      else Ok c
  end.

Definition removeInstsUntil (seq_num : Z) (tid : ThreadID) (c : Core) : res Core :=
  let l := cpuInstList (cpu c) in
  assert! negb (bool_decide (l = [])) ;;
  let c := c <| cpu := (cpu c) <| removeInstsThisCycle := true |> |> in
  squashUntil (reverse l) seq_num tid c.

(** [instList.erase(it)]: undefined when the instruction has already left. *)
Definition eraseInst (l : list InstPtr) (p : InstPtr) : res (list InstPtr) :=
  '(k, _) ← deref (list_find (eq p) l);
  Ok (delete k l).

Definition cleanUpRemovedInsts (u : CpuInsts) : res CpuInsts :=
  l ← foldR eraseInst (cpuInstList u) (removeList u);
  Ok (mkCpuInsts l [] false).
