(* ===== verification/ROBProps.v ===== *)
(** * Correctness of the reorder buffer

    The well-formedness of the buffer (entry counts, program order, the squash
    iterator) and that the operations succeed and preserve it under the
    conditions their callers ensure; what a squash marks, and that it ends; that
    the universal head is the oldest instruction. *)

From stdpp Require Import base numbers list gmap functions sorting.
From S2P Require Import Prelude Regs DynInst ROB.

#[local] Open Scope Z_scope.

(** ** Definitions *)

(** The sequence number behind a pointer. *)
Definition seqAt (m : InstMem) (p : InstPtr) : Z := from_option seqNum 0 (heap m !! p).

(** Program order: sequence numbers increase along the list. *)
Definition ordered (m : InstMem) (l : list InstPtr) : Prop :=
  StronglySorted (fun p q => seqAt m p < seqAt m q) l.

(** An instruction of thread [tid] in the buffer. *)
Definition robInst (m : InstMem) (tid : ThreadID) (p : InstPtr) : Prop :=
  exists i, heap m !! p = Some i /\ threadNumber i = tid /\ isInROB i = true /\ squashable i.

Definition totalInsts (r : ROB) : Z :=
  foldr Z.add 0 ((fun tid => Z.of_nat (length (instList r tid))) <$> seq 0 MaxThreads).

(** Everything younger than the squash iterator is already squashed. *)
Definition squashing_ok (m : InstMem) (l : list InstPtr) (it : option InstPtr) (done : bool)
    : Prop :=
  match it with
  | None => done = true
  | Some it => done = false /\ exists l1 l2, l = l1 ++ it :: l2 /\
      Forall (fun p => exists i, heap m !! p = Some i /\ isSquashed i = true) l2
  end.

Record rob_wf (c : Core) : Prop := {
  rb_entries : forall tid, threadEntries (rob c) tid = Z.of_nat (length (instList (rob c) tid));
  rb_threads : forall tid, (MaxThreads <= tid)%nat -> instList (rob c) tid = [];
  rb_total : numInstsInROB (rob c) = totalInsts (rob c);
  rb_capacity : totalInsts (rob c) <= numEntries (rob c) < 2 ^ 31;
  rb_insts : forall tid p, p ∈ instList (rob c) tid -> robInst (mem c) tid p;
  rb_order : forall tid, ordered (mem c) (instList (rob c) tid);
  rb_squash : forall tid, squashing_ok (mem c) (instList (rob c) tid)
                (squashIt (rob c) tid) (doneSquashing (rob c) tid)
}.

(** The memory after marking the instructions of [done] as squashed. *)
Definition squashedIn (m m' : InstMem) (done : list InstPtr) : Prop :=
  (forall p, p ∈ done -> exists i i', heap m !! p = Some i /\ heap m' !! p = Some i' /\
     seqNum i' = seqNum i /\ threadNumber i' = threadNumber i /\
     staticInst i' = staticInst i /\ isInROB i' = isInROB i /\
     isSquashed i' = true /\ readyToCommit i' = true /\ (squashable i -> squashable i')) /\
  (forall p, p ∉ done -> heap m' !! p = heap m !! p).

(** [doSquash] every cycle until the thread is done, as commit calls it. *)
Fixpoint squashCycles (n : nat) (isThreadExiting : bool) (tid : ThreadID) (c : Core) : res Core :=
  if doneSquashing (rob c) tid then Ok c else
  match n with
  | O => Undef
  | S n => c ← doSquash isThreadExiting tid c; squashCycles n isThreadExiting tid c
  end.

(** The CPU's list: in program order, every pointer live. *)
Definition cpu_list_ok (m : InstMem) (l : list InstPtr) : Prop :=
  ordered m l /\ forall p, p ∈ l -> exists i, heap m !! p = Some i /\ squashable i.

(** The instructions a squash of thread [tid] to [sn] removes. *)
Definition doomed (m : InstMem) (sn : Z) (tid : ThreadID) (p : InstPtr) : Prop :=
  from_option threadNumber 0%nat (heap m !! p) = tid /\ sn < seqAt m p.

#[export] Instance doomed_dec m sn tid p : Decision (doomed m sn tid p).
Proof. unfold doomed. apply _. Defined.

(** The operations on the buffer, with what their callers (rename's dispatch
    through commit's [getInsts], [commitHead], [squashAll] and the squashing
    cycles of commit) ensure. *)
Inductive RobOp :=
  | OpInsert (p : InstPtr)
  | OpRetire (tid : ThreadID)
  | OpSquash (isThreadExiting : bool) (squash_num : Z) (tid : ThreadID)
  | OpDoSquash (isThreadExiting : bool) (tid : ThreadID).

Definition runOp (op : RobOp) (c : Core) : res Core :=
  match op with
  | OpInsert p => insertInst p c
  | OpRetire tid => retireHead tid c
  | OpSquash b sn tid => squash b sn tid c
  | OpDoSquash b tid => doSquash b tid c
  end.

Definition squashBudget (isThreadExiting : bool) (r : ROB) : Z :=
  if isThreadExiting then numEntries r else squashWidth r.

Definition allowed (op : RobOp) (c : Core) : Prop :=
  match op with
  | OpInsert p => exists i, heap (mem c) !! p = Some i /\ squashable i /\
      (threadNumber i < MaxThreads)%nat /\ numInstsInROB (rob c) < numEntries (rob c) /\
      squashIt (rob c) (threadNumber i) = None /\
      Forall (fun q => seqAt (mem c) q < seqNum i) (instList (rob c) (threadNumber i))
  | OpRetire tid => exists p i l, instList (rob c) tid = p :: l /\
      heap (mem c) !! p = Some i /\ readyToCommit i = true /\
      squashIt (rob c) tid <> Some p
  | OpSquash b _ _ => 0 < squashBudget b (rob c)
  | OpDoSquash b tid => is_Some (squashIt (rob c) tid) /\ 0 < squashBudget b (rob c)
  end.

(** ** Memory *)

Lemma getInst_ok p i m : heap m !! p = Some i -> getInst p m = Ok i.
Proof. unfold getInst. by intros ->. Qed.

Lemma squashedIn_refl m : squashedIn m m [].
Proof. split; [|done]. intros p Hp. by apply not_elem_of_nil in Hp. Qed.

Lemma squashedIn_seqAt m m' done p : squashedIn m m' done -> seqAt m' p = seqAt m p.
Proof.
  intros [H1 H2]. unfold seqAt. destruct (decide (p ∈ done)) as [Hp|Hp].
  - destruct (H1 p Hp) as (i & i' & -> & -> & Hs & _). done.
  - by rewrite H2.
Qed.

Lemma squashedIn_robInst m m' done tid p :
  squashedIn m m' done -> robInst m tid p -> robInst m' tid p.
Proof.
  intros [H1 H2] (i & Hi & Ht & Hr & Hs). destruct (decide (p ∈ done)) as [Hp|Hp].
  - destruct (H1 p Hp) as (j & j' & Hj & Hj' & _ & Ht' & _ & Hr' & _ & _ & Hq).
    rewrite Hi in Hj. injection Hj as <-. exists j'. split_and!; [done| | |]; [congruence..|auto].
  - exists i. by rewrite H2.
Qed.

Lemma squashedIn_trans m m' m'' d d' :
  squashedIn m m' d -> squashedIn m' m'' d' -> (forall p, p ∈ d -> p ∉ d') ->
  squashedIn m m'' (d' ++ d).
Proof.
  intros [H1 H2] [H1' H2'] Hd. split.
  - intros p Hp. apply elem_of_app in Hp as [Hp|Hp].
    + destruct (H1' p Hp) as (i & i' & Hi & Hi' & ?).
      exists i, i'. split; [|done]. rewrite <- H2; [done|]. intros Hx. by apply (Hd p).
    + destruct (H1 p Hp) as (i & i' & Hi & Hi' & ?). exists i, i'.
      rewrite H2' by auto. done.
  - intros p Hp. apply not_elem_of_app in Hp as [Hp Hp']. by rewrite H2', H2.
Qed.

Lemma squash_one m p i :
  heap m !! p = Some i -> squashable i ->
  exists m', (m ← setSquashed p m; updInst p (setStatus CanCommit true) m) = Ok m' /\
    squashedIn m m' [p].
Proof.
  intros Hp Hi. destruct (setSquashed_ok p i m Hp Hi) as (i1 & ps & -> & Hsq).
  cbn. unfold updInst, getInst. cbn. rewrite lookup_insert_eq. cbn.
  eexists. split; [done|]. cbn. split.
  - intros q Hq. apply list_elem_of_singleton in Hq as ->.
    destruct (squashedFrom_fields _ _ Hsq) as (E1 & E2 & E3 & E4).
    pose proof (squashedFrom_squashable _ _ Hsq) as Hs. destruct Hsq as (_ & Hs1 & Hs2).
    exists i, (setStatus CanCommit true i1). cbn. rewrite insert_insert_eq, lookup_insert_eq.
    split_and!; try done. by apply Hs2.
  - intros q Hq. rewrite list_elem_of_singleton in Hq. cbn.
    by rewrite !lookup_insert_ne by congruence.
Qed.

(** ** Lists in program order *)

Lemma ordered_NoDup m l : ordered m l -> NoDup l.
Proof.
  induction 1 as [|p l Hs IH Hp]; constructor; [|done].
  intros Hin. rewrite Forall_forall in Hp. specialize (Hp p Hin). lia.
Qed.

Lemma ordered_ext m m' l :
  (forall p, p ∈ l -> seqAt m' p = seqAt m p) -> ordered m l -> ordered m' l.
Proof.
  intros He H. induction H as [|p l Hs IH Hp]; constructor.
  - apply IH. intros q Hq. apply He. by right.
  - rewrite Forall_forall in *. intros q Hq.
    rewrite !He by (by left || by right). auto.
Qed.

Lemma ordered_app m l1 l2 :
  ordered m (l1 ++ l2) -> forall p q, p ∈ l1 -> q ∈ l2 -> seqAt m p < seqAt m q.
Proof.
  induction l1 as [|x l1 IH]; cbn; intros H p q Hp Hq; [by apply not_elem_of_nil in Hp|].
  inversion_clear H as [|? ? Hs Hx]. rewrite Forall_forall in Hx.
  apply elem_of_cons in Hp as [->|Hp]; [|eauto]. apply Hx. rewrite elem_of_app. auto.
Qed.

Lemma ordered_sub m l1 l2 : ordered m (l1 ++ l2) -> ordered m l1 /\ ordered m l2.
Proof. intros H. split; [by eapply StronglySorted_app_1_l|by eapply StronglySorted_app_1_r]. Qed.

Lemma ordered_snoc m l p :
  ordered m l -> Forall (fun q => seqAt m q < seqAt m p) l -> ordered m (l ++ [p]).
Proof.
  intros Hl Hp. induction Hl as [|x l Hs IH Hx]; cbn; [repeat constructor|].
  apply Forall_cons in Hp as [Hxp Hp]. constructor; [by apply IH|]. apply Forall_app. auto.
Qed.

Lemma prevIn_app l1 q p l2 :
  NoDup (l1 ++ q :: p :: l2) -> prevIn (l1 ++ q :: p :: l2) p = Some q.
Proof.
  induction l1 as [|x l1 IH]; cbn; intros Hnd.
  - by rewrite decide_True.
  - apply NoDup_cons in Hnd as [_ Hnd]. destruct l1 as [|y l1]; cbn in *.
    + destruct (decide (q = p)) as [->|]; [|by rewrite decide_True].
      apply NoDup_cons in Hnd as [Hn _]. exfalso. apply Hn. left.
    + destruct (decide (y = p)) as [->|]; [|auto].
      apply NoDup_cons in Hnd as [Hn _]. exfalso. apply Hn.
      rewrite elem_of_app. right. right. left.
Qed.

Lemma app_split_unique (l1 l2 l1' l2' : list InstPtr) p :
  NoDup (l1 ++ p :: l2) -> l1 ++ p :: l2 = l1' ++ p :: l2' -> l1 = l1'.
Proof.
  revert l1'. induction l1 as [|x l1 IH]; intros [|y l1'] Hnd H; cbn in *; simplify_eq; try done.
  - apply NoDup_cons in Hnd as [Hn _]. exfalso. apply Hn. rewrite elem_of_app. right. left.
  - apply NoDup_cons in Hnd as [Hn _]. exfalso. apply Hn. rewrite elem_of_app. right. left.
  - apply NoDup_cons in Hnd as [_ Hnd]. f_equal. eauto.
Qed.

Lemma list_find_in l (p : InstPtr) : p ∈ l -> exists x, list_find (eq p) l = Some x.
Proof.
  intros Hp. destruct (list_find (eq p) l) as [x|] eqn:E; [eauto|].
  apply list_find_None in E. rewrite Forall_forall in E. by destruct (E p Hp).
Qed.

(** ** The squash loop *)

(** Where the loop ends: [rest] is what is left to look at, [done] what it marked. *)
Definition loopEnd (n : nat) (sn : Z) (m : InstMem) (rest done : list InstPtr) (e : SquashEnd)
    : Prop :=
  match e with
  | ReachedHead => rest = []
  | Stopped it => exists rest', rest = rest' ++ [it] /\ (length done = n \/ seqAt m it <= sn)
  end.

Lemma robSquashLoop_ok n l sn l1 it l2 tu m tid :
  l = l1 ++ it :: l2 -> ordered m l -> (forall p, p ∈ l -> robInst m tid p) ->
  exists e tu' m' rest done,
    doSquashLoop n l sn it tu m = Ok (e, tu', m') /\
    l1 ++ [it] = rest ++ done /\ Forall (fun p => sn < seqAt m p) done /\
    squashedIn m m' done /\ loopEnd n sn m rest done e.
Proof.
  intros Hl. revert l1 it l2 tu m Hl.
  induction n as [|n IH]; intros l1 it l2 tu m Hl Hord Hin.
  { exists (Stopped it), tu, m, (l1 ++ [it]), []. rewrite app_nil_r. split_and!; try done.
    - apply squashedIn_refl.
    - exists l1. auto. }
  assert (Hit : it ∈ l) by (subst l; rewrite elem_of_app; right; left).
  destruct (Hin it Hit) as (i & Hi & Ht & Hr & Hs).
  assert (Hseq : seqAt m it = seqNum i) by (unfold seqAt; by rewrite Hi).
  cbn [doSquashLoop]. destruct (list_find_in l it Hit) as [x ->]. cbn [mbind res_bind deref].
  unfold getInst. rewrite Hi. cbn [mbind res_bind deref].
  destruct (Z.ltb_spec sn (seqNum i)) as [Hlt|Hge].
  2: { exists (Stopped it), tu, m, (l1 ++ [it]), []. rewrite app_nil_r. split_and!; try done.
       - apply squashedIn_refl.
       - exists l1. split; [done|]. right. lia. }
  destruct (squash_one m it i Hi Hs) as (m1 & Hm1 & Hsq1).
  destruct (setSquashed it m) as [m0| |]; cbn [mbind res_bind] in Hm1; [|done|done].
  cbn [mbind res_bind]. rewrite Hm1. cbn [mbind res_bind].
  destruct (decide (list.head l = Some it)) as [Hh|Hh].
  { assert (l1 = []) as ->.
    { subst l. destruct l1 as [|y l1]; [done|]. cbn in Hh. injection Hh as ->.
      apply ordered_NoDup, NoDup_cons in Hord as [Hn _]. exfalso. apply Hn.
      rewrite elem_of_app. right. left. }
    exists ReachedHead, tu, m1, [], [it]. split_and!; try done. by repeat constructor; rewrite Hseq. }
  destruct l1 as [|q l1 _] using rev_ind; [by subst l|].
  rewrite <- app_assoc in Hl. cbn in Hl.
  assert (Hpr : prevIn l it = Some q).
  { subst l. apply prevIn_app. by eapply ordered_NoDup. }
  rewrite Hpr. cbn [mbind res_bind deref].
  edestruct (IH l1 q (it :: l2) (tu || bool_decide (list.last l = Some it)) m1)
    as (e & tu' & m2 & rest & dn & Hrun & Hsplit & Hall & Hsq & He); [done| | |].
  { eapply ordered_ext; [|exact Hord]. intros p _. by eapply squashedIn_seqAt. }
  { intros p Hp. eapply squashedIn_robInst; eauto. }
  exists e, tu', m2, rest, (dn ++ [it]). split_and!.
  - exact Hrun.
  - by rewrite Hsplit, app_assoc.
  - apply Forall_app. split.
    + eapply Forall_impl; [exact Hall|]. cbn. intros p. by rewrite (squashedIn_seqAt _ _ _ _ Hsq1).
    + repeat constructor. by rewrite Hseq.
  - eapply squashedIn_trans; [done..|]. intros p Hp. apply list_elem_of_singleton in Hp as ->.
    intros Hd. assert (Hin' : it ∈ l1 ++ [q]) by (rewrite Hsplit, elem_of_app; auto).
    subst l. replace (l1 ++ q :: it :: l2) with ((l1 ++ [q]) ++ it :: l2) in Hord
      by (by rewrite <- app_assoc).
    pose proof (ordered_app _ _ _ Hord it it Hin') as Hx. specialize (Hx ltac:(left)). lia.
  - destruct e as [|it']; cbn in *; [done|]. destruct He as (rest' & -> & Hor). exists rest'.
    split; [done|]. rewrite length_app. cbn.
    destruct Hor as [Hor|Hor]; [left; lia|right]. by rewrite <- (squashedIn_seqAt _ _ _ _ Hsq1).
Qed.

(** ** A cycle of squashing *)

Lemma squashedIn_squashed m m' dn p :
  squashedIn m m' dn -> (exists i, heap m !! p = Some i /\ isSquashed i = true) ->
  exists i, heap m' !! p = Some i /\ isSquashed i = true.
Proof.
  intros [H1 H2] (i & Hi & Hs). destruct (decide (p ∈ dn)) as [Hp|Hp].
  - destruct (H1 p Hp) as (j & j' & _ & Hj' & _ & _ & _ & _ & Hs' & _). eauto.
  - exists i. by rewrite H2.
Qed.

Lemma squashing_ok_mono m m' dn l it d :
  squashedIn m m' dn -> squashing_ok m l it d -> squashing_ok m' l it d.
Proof.
  intros Hsq. destruct it as [it|]; [|done]. intros (Hd & l1 & l2 & Hl & Hall).
  split; [done|]. exists l1, l2. split; [done|]. eapply Forall_impl; [exact Hall|].
  intros p. by eapply squashedIn_squashed.
Qed.

Lemma rob_wf_squash c r' m' dn tid :
  rob_wf c -> squashedIn (mem c) m' dn ->
  instList r' = instList (rob c) -> threadEntries r' = threadEntries (rob c) ->
  numInstsInROB r' = numInstsInROB (rob c) -> numEntries r' = numEntries (rob c) ->
  (forall t, t <> tid -> squashIt r' t = squashIt (rob c) t /\
     doneSquashing r' t = doneSquashing (rob c) t) ->
  squashing_ok m' (instList (rob c) tid) (squashIt r' tid) (doneSquashing r' tid) ->
  rob_wf (mkCore r' (cpu c) m').
Proof.
  intros [H1 H2 H3 H4 H5 H6 H7] Hsq El Et En Ee Ho Hnew.
  assert (Htot : totalInsts r' = totalInsts (rob c)) by (unfold totalInsts; by rewrite El).
  split; cbn; rewrite ?El, ?Et, ?En, ?Ee, ?Htot; try done.
  - intros t p Hp. eapply squashedIn_robInst; eauto.
  - intros t. eapply ordered_ext; [|apply H6]. intros p _. by eapply squashedIn_seqAt.
  - intros t. destruct (decide (t = tid)) as [->|Hne]; [done|].
    destruct (Ho t Hne) as [-> ->]. by eapply squashing_ok_mono.
Qed.

(** Looking up the tails never fails. *)
Lemma tailStep_ok c acc tid :
  (forall tid p, p ∈ instList (rob c) tid -> robInst (mem c) tid p) ->
  exists acc', tailStep c acc tid = Ok acc'.
Proof.
  intros H. unfold tailStep. destruct (list.last (instList (rob c) tid)) as [p|] eqn:E; [|eauto].
  apply list.last_Some in E as [l' El].
  destruct (H tid p) as (i & Hi & _). { rewrite El, elem_of_app. right. left. }
  unfold getInst. rewrite Hi. cbn. destruct acc as [[? ?]|]; [case_match|]; eauto.
Qed.

Lemma updateTail_ok c :
  (forall tid p, p ∈ instList (rob c) tid -> robInst (mem c) tid p) ->
  exists t, updateTail c = Ok (c <| rob := rob c <| tail := t |> |>).
Proof.
  intros H. unfold updateTail.
  assert (Hf : forall l acc, exists acc', foldR (tailStep c) acc l = Ok acc').
  { induction l as [|tid l IH]; intros acc; cbn; [eauto|].
    destruct (tailStep_ok c acc tid H) as [acc' ->]. cbn. apply IH. }
  destruct (Hf (activeThreads (rob c)) None) as [acc ->]. cbn. eauto.
Qed.

(** What one call of [doSquash] does to the thread. *)
Record squashCycle (c c' : Core) (tid : ThreadID) (l1 : list InstPtr) (it : InstPtr) : Prop := {
  sc_wf : rob_wf c';
  sc_cpu : cpu c' = cpu c;
  sc_lists : instList (rob c') = instList (rob c);
  sc_seq : squashedSeqNum (rob c') = squashedSeqNum (rob c);
  sc_width : squashWidth (rob c') = squashWidth (rob c) /\ numEntries (rob c') = numEntries (rob c);
  sc_marked : exists rest dn, l1 ++ [it] = rest ++ dn /\
    Forall (fun p => squashedSeqNum (rob c) tid < seqAt (mem c) p) dn /\
    squashedIn (mem c) (mem c') dn /\
    if doneSquashing (rob c') tid
    then Forall (fun p => seqAt (mem c) p <= squashedSeqNum (rob c) tid) rest
    else dn <> [] /\ exists rest' it', rest = rest' ++ [it'] /\ squashIt (rob c') tid = Some it'
}.

Lemma rest_older m l2 rest' it' sn :
  ordered m (rest' ++ [it'] ++ l2) -> seqAt m it' <= sn ->
  Forall (fun p => seqAt m p <= sn) (rest' ++ [it']).
Proof.
  intros Hord Hle. rewrite app_assoc in Hord. apply ordered_sub in Hord as [Hord _].
  apply Forall_app. split; [|by repeat constructor]. rewrite Forall_forall. intros p Hp.
  pose proof (ordered_app _ _ _ Hord p it' Hp ltac:(left)). lia.
Qed.

Lemma rob_wf_tail c t : rob_wf c -> rob_wf (c <| rob := rob c <| tail := t |> |>).
Proof. intros [H1 H2 H3 H4 H5 H6 H7]. split; done. Qed.

Lemma maybe_updateTail (tu : bool) c :
  rob_wf c -> exists t, (if tu then updateTail c else Ok c) = Ok (c <| rob := rob c <| tail := t |> |>).
Proof.
  intros Hwf. destruct tu; [apply updateTail_ok, Hwf|]. exists (tail (rob c)). by destruct c as [[]].
Qed.

Lemma doneWith_wf c m' dn tid :
  rob_wf c -> squashedIn (mem c) m' dn -> rob_wf (mkCore (doneWith tid (rob c)) (cpu c) m').
Proof.
  intros Hwf Hsq. eapply (rob_wf_squash c _ _ dn tid); try done.
  - intros t Ht. cbn. by rewrite !fn_lookup_insert_ne.
  - cbn. by rewrite !fn_lookup_insert.
Qed.

Lemma stopped_wf c m' rest' it' dn it l1 l2 tid :
  rob_wf c -> squashedIn (mem c) m' dn ->
  squashIt (rob c) tid = Some it -> instList (rob c) tid = l1 ++ it :: l2 ->
  Forall (fun p => exists i, heap (mem c) !! p = Some i /\ isSquashed i = true) l2 ->
  l1 ++ [it] = (rest' ++ [it']) ++ dn ->
  rob_wf (mkCore (rob c <| squashIt := <[tid := Some it']> (squashIt (rob c)) |>) (cpu c) m').
Proof.
  intros Hwf Hsq Hit Hl Hl2 Hsplit. eapply (rob_wf_squash c _ _ dn tid); try done.
  - intros t Ht. cbn. by rewrite fn_lookup_insert_ne.
  - cbn. rewrite fn_lookup_insert.
    pose proof (rb_squash _ Hwf tid) as Hs. rewrite Hit in Hs. destruct Hs as [Hd _].
    split; [done|]. exists rest', (dn ++ l2). split.
    + rewrite Hl. replace (l1 ++ it :: l2) with ((l1 ++ [it]) ++ l2) by (by rewrite <- app_assoc).
      rewrite Hsplit, <- !app_assoc. done.
    + apply Forall_app. split.
      * rewrite Forall_forall. intros p Hp. destruct Hsq as [H1 _].
        destruct (H1 p Hp) as (? & j & _ & Hj & _ & _ & _ & _ & Hq & _). eauto.
      * eapply Forall_impl; [exact Hl2|]. intros p. by eapply squashedIn_squashed.
Qed.

(** The loop stopped at [it'], before the head. *)
Lemma squashFinish_ok c m' tu rest' it' dn it l1 l2 tid :
  rob_wf c -> squashedIn (mem c) m' dn ->
  squashIt (rob c) tid = Some it -> instList (rob c) tid = l1 ++ it :: l2 ->
  Forall (fun p => exists i, heap (mem c) !! p = Some i /\ isSquashed i = true) l2 ->
  l1 ++ [it] = (rest' ++ [it']) ++ dn ->
  Forall (fun p => squashedSeqNum (rob c) tid < seqAt (mem c) p) dn ->
  (dn = [] -> seqAt (mem c) it' <= squashedSeqNum (rob c) tid) ->
  exists c', squashFinish tid it' tu (c <| mem := m' |>) = Ok c' /\ squashCycle c c' tid l1 it.
Proof.
  intros Hwf Hsq Hit Hl Hl2 Hsplit Hall Hprog. pose proof (rb_order _ Hwf tid) as Hord.
  assert (Hl' : instList (rob c) tid = rest' ++ [it'] ++ dn ++ l2).
  { rewrite Hl. replace (l1 ++ it :: l2) with ((l1 ++ [it]) ++ l2) by (by rewrite <- app_assoc).
    rewrite Hsplit, <- !app_assoc. done. }
  assert (Hin' : it' ∈ instList (rob c) tid) by (rewrite Hl', elem_of_app; right; left).
  destruct (squashedIn_robInst _ _ _ _ _ Hsq (rb_insts _ Hwf tid it' Hin')) as (i' & Hi' & _).
  assert (Hseq' : seqNum i' = seqAt (mem c) it').
  { rewrite <- (squashedIn_seqAt _ _ _ _ Hsq). unfold seqAt. by rewrite Hi'. }
  unfold squashFinish. cbn [mem rob upd_field]. rewrite (getInst_ok _ _ _ Hi').
  cbn [mbind res_bind]. rewrite Hseq'.
  destruct (Z.leb_spec (seqAt (mem c) it') (squashedSeqNum (rob c) tid)) as [Hle|Hgt].
  - assert (Hwf' := doneWith_wf c m' dn tid Hwf Hsq).
    destruct (maybe_updateTail tu _ Hwf') as [t Ht].
    eexists. split; [exact Ht|]. split; try done; [by apply rob_wf_tail|].
    exists (rest' ++ [it']), dn. split_and!; try done. cbn. rewrite fn_lookup_insert.
    apply (rest_older _ (dn ++ l2)); [|done]. by rewrite <- Hl'.
  - assert (Hwf' := stopped_wf c m' rest' it' dn it l1 l2 tid Hwf Hsq Hit Hl Hl2 Hsplit).
    destruct (maybe_updateTail tu _ Hwf') as [t Ht].
    eexists. split; [exact Ht|]. split; try done; [by apply rob_wf_tail|].
    pose proof (rb_squash _ Hwf tid) as Hs. rewrite Hit in Hs. destruct Hs as [Hd _].
    exists (rest' ++ [it']), dn. split_and!; try done. cbn. rewrite Hd, fn_lookup_insert.
    split; [|eauto]. intros Hdn. specialize (Hprog Hdn). lia.
Qed.

Lemma robSquash_ok exiting tid c it :
  rob_wf c -> squashIt (rob c) tid = Some it -> 0 < squashBudget exiting (rob c) ->
  exists c' l1 l2, instList (rob c) tid = l1 ++ it :: l2 /\
    doSquash exiting tid c = Ok c' /\ squashCycle c c' tid l1 it.
Proof.
  intros Hwf Hit Hb. pose proof (rb_squash _ Hwf tid) as Hs. rewrite Hit in Hs.
  destruct Hs as (Hd & l1 & l2 & Hl & Hl2).
  assert (Hin : it ∈ instList (rob c) tid) by (rewrite Hl, elem_of_app; right; left).
  destruct (rb_insts _ Hwf tid it Hin) as (i & Hi & _).
  assert (Hseq : seqAt (mem c) it = seqNum i) by (unfold seqAt; by rewrite Hi).
  pose proof (rb_order _ Hwf tid) as Hord. rewrite Hl in Hord.
  unfold doSquash. rewrite Hit. cbn [mbind res_bind].
  destruct (list_find_in _ _ Hin) as [x ->]. cbn [mbind res_bind deref].
  rewrite (getInst_ok _ _ _ Hi). cbn [mbind res_bind].
  destruct (Z.ltb_spec (seqNum i) (squashedSeqNum (rob c) tid)) as [Hlt|Hge].
  { do 3 eexists. split; [exact Hl|]. split; [done|].
    split; try done; [exact (doneWith_wf c (mem c) [] tid Hwf (squashedIn_refl _))|].
    exists (l1 ++ [it]), []. rewrite app_nil_r. split_and!; try done; [apply squashedIn_refl|].
    cbn. rewrite fn_lookup_insert. apply (rest_older _ l2); [done|lia]. }
  destruct (robSquashLoop_ok (Z.to_nat (squashBudget exiting (rob c))) (instList (rob c) tid)
    (squashedSeqNum (rob c) tid) l1 it l2 false (mem c) tid Hl (rb_order _ Hwf tid)
    (rb_insts _ Hwf tid)) as (e & tu & m' & rest & dn & Hrun & Hsplit & Hall & Hsq & He).
  fold (squashBudget exiting (rob c)). rewrite Hrun. cbn [mbind res_bind].
  destruct e as [|it']; cbn in He.
  { do 3 eexists. split; [exact Hl|]. split; [done|].
    split; try done; [exact (doneWith_wf c m' dn tid Hwf Hsq)|].
    exists rest, dn. split_and!; try done. cbn. rewrite fn_lookup_insert. by subst rest. }
  destruct He as (rest' & -> & Hor).
  destruct (squashFinish_ok c m' tu rest' it' dn it l1 l2 tid) as (c' & Hc' & Hsc); try done.
  { intros ->. cbn in Hor. lia. }
  exists c', l1, l2. split; [exact Hl|]. by split.
Qed.

(** ** A whole squash *)

Lemma squashCycles_ok n exiting tid c l1 it :
  rob_wf c -> 0 < squashBudget exiting (rob c) -> (length l1 < n)%nat ->
  doneSquashing (rob c) tid = false -> squashIt (rob c) tid = Some it ->
  (exists l2, instList (rob c) tid = l1 ++ it :: l2) ->
  exists c' rest dn, squashCycles n exiting tid c = Ok c' /\ rob_wf c' /\
    doneSquashing (rob c') tid = true /\ instList (rob c') = instList (rob c) /\
    l1 ++ [it] = rest ++ dn /\ squashedIn (mem c) (mem c') dn /\
    Forall (fun p => squashedSeqNum (rob c) tid < seqAt (mem c) p) dn /\
    Forall (fun p => seqAt (mem c) p <= squashedSeqNum (rob c) tid) rest.
Proof.
  revert c l1 it. induction n as [|n IH]; intros c l1 it Hwf Hb Hn Hd Hit [l2 Hl]; [lia|].
  destruct (robSquash_ok exiting tid c it Hwf Hit Hb) as (c1 & l1' & l2' & Hl' & H1 & Hc).
  assert (l1' = l1) as ->.
  { rewrite Hl in Hl'. pose proof (rb_order _ Hwf tid) as Hord. rewrite Hl in Hord.
    symmetry. by eapply app_split_unique; [apply (ordered_NoDup _ _ Hord)|]. }
  destruct Hc as [Hwf1 _ El Es [Ew Ee] (rest & dn & Hsplit & Hall & Hsq & Hcase)].
  cbn [squashCycles]. rewrite Hd, H1. cbn [mbind res_bind].
  destruct (doneSquashing (rob c1) tid) eqn:Hd1.
  { exists c1, rest, dn. split_and!; try done. destruct n; cbn; by rewrite Hd1. }
  destruct Hcase as (Hdn & rest' & it' & -> & Hit').
  assert (Hlen : (length l1 + 1 = length rest' + 1 + length dn)%nat).
  { assert (length (l1 ++ [it]) = length ((rest' ++ [it']) ++ dn)) as Hx by (by rewrite Hsplit).
    rewrite !length_app in Hx. cbn in Hx. lia. }
  destruct dn as [|d dn]; [done|].
  destruct (IH c1 rest' it') as (c2 & rest2 & dn2 & H2 & Hwf2 & Hd2 & El2 & Hsplit2 & Hsq2 & Hall2 & Hold2).
  - done.
  - unfold squashBudget in *. by rewrite Ew, Ee.
  - cbn in Hlen. lia.
  - done.
  - done.
  - exists ((d :: dn) ++ l2). rewrite El, Hl.
    replace (l1 ++ it :: l2) with ((l1 ++ [it]) ++ l2) by (by rewrite <- app_assoc).
    rewrite Hsplit, <- !app_assoc. done.
  - exists c2, rest2, (dn2 ++ (d :: dn)). rewrite Es in Hall2, Hold2.
    split_and!; try done; [congruence| | | |].
    + by rewrite Hsplit, Hsplit2, app_assoc.
    + eapply squashedIn_trans; [done..|]. intros p Hp Hp2.
      assert (Hx : p ∈ rest' ++ [it']) by (rewrite Hsplit2, elem_of_app; auto).
      pose proof (rb_order _ Hwf tid) as Hord. rewrite Hl in Hord.
      replace (l1 ++ it :: l2) with ((l1 ++ [it]) ++ l2) in Hord by (by rewrite <- app_assoc).
      apply ordered_sub in Hord as [Hord _]. rewrite Hsplit in Hord.
      pose proof (ordered_app _ _ _ Hord p p Hx Hp). lia.
    + apply Forall_app. split; [|done]. eapply Forall_impl; [exact Hall2|]. cbn. intros p.
      by rewrite (squashedIn_seqAt _ _ _ _ Hsq).
    + eapply Forall_impl; [exact Hold2|]. cbn. intros p. by rewrite (squashedIn_seqAt _ _ _ _ Hsq).
Qed.

(** The state [squash] hands to its first [doSquash]. *)
Definition squashStart (sn : Z) (tid : ThreadID) (p : InstPtr) (c : Core) : Core :=
  c <| rob := rob c <| robStatus := <[tid := ROBSquashing]> (robStatus (rob c)) |>
                    <| doneSquashing := <[tid := false]> (doneSquashing (rob c)) |>
                    <| squashedSeqNum := <[tid := sn]> (squashedSeqNum (rob c)) |>
                    <| squashIt := <[tid := Some p]> (squashIt (rob c)) |> |>.

Lemma squash_start exiting sn tid p l c :
  rob_wf c -> instList (rob c) tid = l ++ [p] ->
  squash exiting sn tid c = doSquash exiting tid (squashStart sn tid p c) /\
  rob_wf (squashStart sn tid p c).
Proof.
  intros Hwf Hl. split.
  - unfold squash, isEmptyOf. rewrite (rb_entries _ Hwf), Hl, length_app. cbn [length].
    rewrite (proj2 (Z.eqb_neq _ _)) by lia. cbn [instList rob upd_field].
    rewrite Hl, last_snoc. done.
  - eapply (rob_wf_squash c _ _ [] tid); try done.
    + apply squashedIn_refl.
    + intros t Ht. cbn. by rewrite !fn_lookup_insert_ne.
    + cbn. rewrite !fn_lookup_insert. split; [done|]. exists l, []. by rewrite Hl.
Qed.

(** ** The oldest instruction *)

Lemma headStep_fold c l acc :
  (forall tid p, p ∈ instList (rob c) tid -> robInst (mem c) tid p) ->
  exists acc', foldR (headStep c) acc l = Ok acc' /\
    match acc' with
    | None => acc = None /\ forall tid, tid ∈ l -> instList (rob c) tid = []
    | Some (p, n) =>
        (acc = Some (p, n) \/ exists tid l', tid ∈ l /\ instList (rob c) tid = p :: l' /\
           n = seqAt (mem c) p) /\
        (forall q k, acc = Some (q, k) -> n <= k) /\
        (forall tid q l', tid ∈ l -> instList (rob c) tid = q :: l' -> n <= seqAt (mem c) q)
    end.
Proof.
  intros H. revert acc. induction l as [|tid l IH]; intros acc; cbn [foldR].
  { exists acc. split; [done|]. destruct acc as [[p n]|]; [|split; [done|]].
    - split; [auto|]. split; [intros q k [= <- <-]; lia|]. intros tid q l' Hin.
      by apply not_elem_of_nil in Hin.
    - intros tid Hin. by apply not_elem_of_nil in Hin. }
  unfold headStep at 2. destruct (instList (rob c) tid) as [|q lt] eqn:El.
  - cbn [mbind res_bind]. destruct (IH acc) as (acc' & -> & Ha). exists acc'. split; [done|].
    destruct acc' as [[p n]|].
    + destruct Ha as ([Ha|(t & l' & Ht & Hl & Hn)] & Hk & Hm); split_and!; auto.
      * intros t q l' [->|Ht]%elem_of_cons Hl; [congruence|eauto].
      * right. exists t, l'. split_and!; auto. by right.
      * intros t' q l'' [->|Ht']%elem_of_cons Hl'; [congruence|eauto].
    + destruct Ha as [-> Ha]. split; [done|]. intros t [->|Ht]%elem_of_cons; auto.
  - destruct (H tid q) as (i & Hi & _); [rewrite El; left|].
    assert (Hs : seqNum i = seqAt (mem c) q) by (unfold seqAt; by rewrite Hi).
    unfold getInst. rewrite Hi. cbn [mbind res_bind deref].
    set (acc1 := match acc with
                 | Some (_, k) => if seqNum i <? k then Some (q, seqNum i) else acc
                 | None => Some (q, seqNum i) end).
    assert (Hacc : exists p1 n1, acc1 = Some (p1, n1) /\ n1 <= seqAt (mem c) q /\
      (acc = Some (p1, n1) \/ p1 = q /\ n1 = seqAt (mem c) q) /\
      (forall p k, acc = Some (p, k) -> n1 <= k)).
    { subst acc1. rewrite Hs. destruct acc as [[p k]|]; [destruct (Z.ltb_spec (seqAt (mem c) q) k)|];
        do 2 eexists; (split; [done|]); (split; [lia|]); (split; [auto|]);
        intros ? ? [= <- <-]; lia. }
    replace (match acc with
             | Some (_, lowest_num) => if seqNum i <? lowest_num then Ok (Some (q, seqNum i)) else Ok acc
             | None => Ok (Some (q, seqNum i)) end) with (Ok acc1 : res (option (InstPtr * Z)))
      by (subst acc1; destruct acc as [[? ?]|]; [case_match|]; done).
    cbn [mbind res_bind]. destruct Hacc as (p1 & n1 & -> & Hle & Hor & Hk).
    destruct (IH (Some (p1, n1))) as (acc' & -> & Ha). exists acc'. split; [done|].
    destruct acc' as [[p n]|]; [|by destruct Ha].
    destruct Ha as (Ha & Hk' & Hm). assert (n <= n1) by eauto. split_and!.
    + destruct Ha as [[= -> ->]|(t & l' & Ht & Hl & Hn)].
      * destruct Hor as [->|[-> ->]]; [by left|]. right. exists tid, lt. split_and!; auto. left.
      * right. exists t, l'. split_and!; auto. by right.
    + intros q' k Hq. specialize (Hk q' k Hq). lia.
    + intros t q' l' [->|Ht]%elem_of_cons Hl; [|eauto]. rewrite El in Hl. injection Hl as <- <-. lia.
Qed.

Lemma updateHead_ok c :
  (forall tid p, p ∈ instList (rob c) tid -> robInst (mem c) tid p) ->
  exists h, updateHead c = Ok (c <| rob := rob c <| head := h |> |>).
Proof.
  intros H. destruct (headStep_fold c (activeThreads (rob c)) None H) as (acc & Ha & _).
  unfold updateHead. rewrite Ha. cbn. eauto.
Qed.

(** ** Inserting and retiring *)

Lemma totalInsts_set r tid l n f :
  (tid < MaxThreads)%nat ->
  totalInsts (r <| instList := <[tid := l]> (instList r) |> <| numInstsInROB := n |>
                <| threadEntries := f |>) =
  totalInsts r - Z.of_nat (length (instList r tid)) + Z.of_nat (length l).
Proof.
  intros H. unfold totalInsts, MaxThreads in *. cbn.
  destruct tid as [|[|[|[|tid]]]]; [..|lia];
    rewrite fn_lookup_insert, !fn_lookup_insert_ne by done; lia.
Qed.

Lemma thread_le_total r tid :
  (tid < MaxThreads)%nat -> 0 <= Z.of_nat (length (instList r tid)) <= totalInsts r.
Proof.
  intros H. unfold totalInsts, MaxThreads in *. cbn.
  destruct tid as [|[|[|[|tid]]]]; [..|lia]; lia.
Qed.

(** Changing a status bit other than those the invariant reads off another
    instruction. *)
Definition bitChange (m m' : InstMem) (p : InstPtr) : Prop :=
  (forall q, q <> p -> heap m' !! q = heap m !! q) /\
  (forall i, heap m !! p = Some i -> exists i', heap m' !! p = Some i' /\
     seqNum i' = seqNum i /\ isSquashed i' = isSquashed i).

Lemma bitChange_seqAt m m' p q : bitChange m m' p -> is_Some (heap m !! p) -> seqAt m' q = seqAt m q.
Proof.
  intros [H1 H2] [i Hi]. unfold seqAt. destruct (decide (q = p)) as [->|Hq]; [|by rewrite H1].
  destruct (H2 i Hi) as (i' & -> & Hs & _). by rewrite Hi.
Qed.

Lemma bitChange_squashed m m' p q :
  bitChange m m' p -> (exists i, heap m !! q = Some i /\ isSquashed i = true) ->
  exists i, heap m' !! q = Some i /\ isSquashed i = true.
Proof.
  intros [H1 H2] (i & Hi & Hs). destruct (decide (q = p)) as [->|Hq].
  - destruct (H2 i Hi) as (i' & Hi' & _ & Hs'). exists i'. by rewrite Hs'.
  - exists i. by rewrite H1.
Qed.

Lemma updInst_bit p i f m :
  heap m !! p = Some i -> seqNum (f i) = seqNum i -> isSquashed (f i) = isSquashed i ->
  exists m', updInst p f m = Ok m' /\ heap m' = <[p := f i]> (heap m) /\ bitChange m m' p.
Proof.
  intros Hi Hs Hq. unfold updInst. rewrite (getInst_ok _ _ _ Hi). cbn.
  eexists. split; [done|]. split; [done|]. split; cbn.
  - intros q Hne. by rewrite lookup_insert_ne.
  - intros j Hj. rewrite Hi in Hj. injection Hj as <-. rewrite lookup_insert_eq. eauto.
Qed.

Lemma squashing_ok_change m m' p l it d :
  bitChange m m' p -> squashing_ok m l it d -> squashing_ok m' l it d.
Proof.
  intros Hb. destruct it as [it|]; [|done]. intros (Hd & l1 & l2 & Hl & Hall).
  split; [done|]. exists l1, l2. split; [done|]. eapply Forall_impl; [exact Hall|].
  intros q. by eapply bitChange_squashed.
Qed.

(** One thread's list replaced, and the status of one instruction changed. *)
Lemma rob_wf_setList c r' u m' p tid l :
  rob_wf c -> bitChange (mem c) m' p -> is_Some (heap (mem c) !! p) -> (tid < MaxThreads)%nat ->
  instList r' = <[tid := l]> (instList (rob c)) ->
  threadEntries r' = <[tid := Z.of_nat (length l)]> (threadEntries (rob c)) ->
  numInstsInROB r' = numInstsInROB (rob c) - Z.of_nat (length (instList (rob c) tid))
                       + Z.of_nat (length l) ->
  numInstsInROB r' <= numEntries (rob c) -> numEntries r' = numEntries (rob c) ->
  squashIt r' = squashIt (rob c) -> doneSquashing r' = doneSquashing (rob c) ->
  (forall q, q ∈ l -> robInst m' tid q) ->
  (forall t q, t <> tid -> q ∈ instList (rob c) t -> robInst m' t q) ->
  ordered m' l -> squashing_ok m' l (squashIt (rob c) tid) (doneSquashing (rob c) tid) ->
  rob_wf (mkCore r' u m').
Proof.
  intros [H1 H2 H3 H4 H5 H6 H7] Hbit Hsome Ht El Ee En Hcap Ec Es Ed Hl Hothers Hord Hsq.
  assert (Hx : totalInsts r' =
    totalInsts (rob c) - Z.of_nat (length (instList (rob c) tid)) + Z.of_nat (length l)).
  { rewrite <- (totalInsts_set (rob c) tid l 0 (fun _ => 0) Ht). unfold totalInsts. by rewrite El. }
  split; cbn [rob mem]; rewrite ?El, ?Ee, ?Ec, ?Es, ?Ed, ?Hx.
  - intros t. destruct (decide (t = tid)) as [->|Hne].
    + by rewrite !fn_lookup_insert.
    + by rewrite !fn_lookup_insert_ne.
  - intros t Htm. rewrite fn_lookup_insert_ne by lia. auto.
  - lia.
  - lia.
  - intros t q. destruct (decide (t = tid)) as [->|Hne];
      [rewrite fn_lookup_insert|rewrite fn_lookup_insert_ne by done]; auto.
  - intros t. destruct (decide (t = tid)) as [->|Hne];
      [by rewrite fn_lookup_insert|rewrite fn_lookup_insert_ne by done].
    eapply ordered_ext; [|apply H6]. intros q _. by eapply bitChange_seqAt.
  - intros t. destruct (decide (t = tid)) as [->|Hne];
      [by rewrite fn_lookup_insert|rewrite fn_lookup_insert_ne by done].
    eapply squashing_ok_change; eauto.
Qed.

Lemma robInst_other c m' p tid t q :
  rob_wf c -> bitChange (mem c) m' p -> (exists i, heap (mem c) !! p = Some i /\ threadNumber i = tid) ->
  t <> tid -> q ∈ instList (rob c) t -> robInst m' t q.
Proof.
  intros Hwf [Hb _] (i & Hi & Ht) Hne Hq. destruct (rb_insts _ Hwf _ _ Hq) as (j & Hj & Hjt & Hr).
  exists j. rewrite Hb; [done|]. intros ->. congruence.
Qed.

Lemma insertInst_ok p c :
  rob_wf c -> allowed (OpInsert p) c ->
  exists c' i, heap (mem c) !! p = Some i /\ insertInst p c = Ok c' /\ rob_wf c' /\
    instList (rob c') = <[threadNumber i := instList (rob c) (threadNumber i) ++ [p]]>
                          (instList (rob c)).
Proof.
  intros Hwf (i & Hi & Hsq & Ht & Hfull & Hit & Hord).
  pose proof (thread_le_total (rob c) _ Ht) as Hle.
  pose proof (rb_total _ Hwf) as H3. pose proof (rb_capacity _ Hwf) as H4.
  destruct (updInst_bit p i (setStatus RobEntry true) (mem c) Hi eq_refl eq_refl)
    as (m' & Hm & Hheap & Hbit).
  assert (Hsome : is_Some (heap (mem c) !! p)) by eauto.
  unfold insertInst. rewrite u32_small by (unfold in_u32; lia).
  rewrite (proj2 (Z.eqb_neq (numInstsInROB (rob c)) (numEntries (rob c)))) by lia.
  cbn [negb assertR mbind res_bind]. rewrite (getInst_ok _ _ _ Hi). cbn [mbind res_bind].
  set (tid := threadNumber i) in *.
  replace (negb (numInstsInROB (rob c) =? 0) || _) with true.
  2: { destruct (Z.eqb_spec (numInstsInROB (rob c)) 0) as [Hz|Hz]; [|done].
       rewrite (nil_length_inv (instList (rob c) tid)) by lia.
       by rewrite bool_decide_eq_true_2. }
  cbn [assertR mbind res_bind]. rewrite Hm. cbn [mbind res_bind].
  eexists _, i. split; [done|]. split; [done|]. split; [|done].
  eapply (rob_wf_setList c _ _ m' p tid); try done; cbn.
  - rewrite (rb_entries _ Hwf), length_app, u32_small by (unfold in_u32; lia). cbn.
    f_equal. lia.
  - rewrite length_app. cbn. lia.
  - lia.
  - intros q Hq. unfold robInst. rewrite Hheap. destruct (decide (q = p)) as [->|Hqp].
    + exists (setStatus RobEntry true i). rewrite lookup_insert_eq. done.
    + apply elem_of_app in Hq as [Hq|Hq%list_elem_of_singleton]; [|done].
      destruct (rb_insts _ Hwf _ _ Hq) as (j & Hj & ?). exists j. by rewrite lookup_insert_ne.
  - intros t q Hne Hq. eapply (robInst_other c m' p tid); eauto.
  - apply ordered_snoc.
    + eapply ordered_ext; [|apply (rb_order _ Hwf)]. intros q _. by eapply bitChange_seqAt.
    + eapply Forall_impl; [exact Hord|]. cbn. intros q.
      rewrite !(bitChange_seqAt _ _ _ _ Hbit Hsome). unfold seqAt at 3. by rewrite Hi.
  - pose proof (rb_squash _ Hwf tid) as H7. by rewrite Hit in *.
Qed.

Lemma rob_wf_head c h : rob_wf c -> rob_wf (c <| rob := rob c <| head := h |> |>).
Proof. intros [H1 H2 H3 H4 H5 H6 H7]. split; done. Qed.

Lemma squashing_ok_tail m p l it d :
  squashing_ok m (p :: l) it d -> it <> Some p -> squashing_ok m l it d.
Proof.
  destruct it as [it|]; [|done]. intros (Hd & l1 & l2 & Hl & Hall) Hne. split; [done|].
  destruct l1 as [|x l1]; cbn in Hl; simplify_eq. eauto.
Qed.

Lemma retireHead_ok tid c :
  rob_wf c -> allowed (OpRetire tid) c ->
  exists c' p l, instList (rob c) tid = p :: l /\ retireHead tid c = Ok c' /\ rob_wf c' /\
    instList (rob c') = <[tid := l]> (instList (rob c)) /\
    cpu c' = removeFrontInst p (cpu c) /\
    (exists i', heap (mem c') !! p = Some i' /\ status i' Committed = true /\ isInROB i' = false).
Proof.
  intros Hwf (p & i & l & Hl & Hi & Hready & Hit).
  assert (Ht : (tid < MaxThreads)%nat).
  { destruct (decide (MaxThreads <= tid)%nat) as [Hx|]; [|lia].
    rewrite (rb_threads _ Hwf tid Hx) in Hl. done. }
  assert (Hin : p ∈ instList (rob c) tid) by (rewrite Hl; left).
  destruct (rb_insts _ Hwf tid p Hin) as (i0 & Hi0 & Hti & _).
  assert (i0 = i) as -> by congruence.
  pose proof (thread_le_total (rob c) _ Ht) as Hle. rewrite Hl in Hle. cbn [length] in Hle.
  pose proof (rb_total _ Hwf) as H3. pose proof (rb_capacity _ Hwf) as H4.
  pose proof (rb_order _ Hwf tid) as Hord. rewrite Hl in Hord.
  set (f := fun i => setStatus Committed true (setStatus RobEntry false i)).
  destruct (updInst_bit p i f (mem c) Hi eq_refl eq_refl) as (m' & Hm & Hheap & Hbit).
  assert (Hsome : is_Some (heap (mem c) !! p)) by eauto.
  unfold retireHead. rewrite (proj2 (Z.ltb_lt _ _)) by lia. cbn [assertR mbind res_bind].
  rewrite Hl. cbn [list.head list.tail hd_error tl deref mbind res_bind].
  rewrite (getInst_ok _ _ _ Hi). cbn [mbind res_bind]. rewrite Hready.
  cbn [assertR mbind res_bind]. fold f. rewrite Hm. cbn [mbind res_bind].
  match goal with |- context [updateHead ?x] => set (c1 := x) end.
  assert (Hwf1 : rob_wf c1).
  { eapply (rob_wf_setList c _ _ m' p tid); try done; cbn.
    - rewrite (rb_entries _ Hwf), Hl, u32_small by (unfold in_u32; cbn [length]; lia).
      f_equal. cbn [length]. lia.
    - rewrite Hl. cbn [length]. lia.
    - lia.
    - intros q Hq. destruct (rb_insts _ Hwf tid q) as (j & Hj & ?).
      { rewrite Hl. by right. }
      exists j. destruct Hbit as [Hb _]. rewrite Hb; [done|]. intros ->.
      apply ordered_NoDup, NoDup_cons in Hord as [Hn _]. done.
    - intros t q Hne Hq. eapply (robInst_other c m' p); eauto.
    - inversion_clear Hord. eapply ordered_ext; [|done]. intros q _. by eapply bitChange_seqAt.
    - eapply squashing_ok_tail; [|done]. rewrite <- Hl.
      eapply squashing_ok_change; [done|]. apply (rb_squash _ Hwf). }
  destruct (updateHead_ok c1 (rb_insts _ Hwf1)) as [h ->]. cbn [mbind res_bind].
  eexists _, p, l. split; [done|]. split; [done|].
  split; [destruct (rob_wf_head c1 h Hwf1); by split|]. split; [done|]. split; [done|].
  exists (f i). cbn. rewrite Hheap, lookup_insert_eq. done.
Qed.

(** ** The CPU's list *)

Lemma squashInstIt_ok p tid c i :
  heap (mem c) !! p = Some i -> squashable i -> threadNumber i = tid ->
  exists m', squashInstIt p tid c =
      Ok (mkCore (rob c) (cpu c <| removeList := removeList (cpu c) ++ [p] |>) m') /\
    exists i', squashedFrom i i' /\ heap m' = <[p := i']> (heap (mem c)).
Proof.
  intros Hi Hs Ht. unfold squashInstIt. rewrite (getInst_ok _ _ _ Hi). cbn [mbind res_bind].
  rewrite decide_True by done. destruct (setSquashed_ok p i (mem c) Hi Hs) as (i' & ps & -> & Hsq).
  cbn. eexists. split; [done|]. exists i'. done.
Qed.

(** The walk of [removeInstsUntil]: it stops at the first instruction that is
    old enough, which is where the instructions to remove end. *)
Lemma squashUntil_ok sn tid rl c :
  StronglySorted (fun p q => seqAt (mem c) q < seqAt (mem c) p) rl ->
  (forall p, p ∈ rl -> exists i, heap (mem c) !! p = Some i /\ squashable i) ->
  exists m', squashUntil rl sn tid c =
      Ok (mkCore (rob c) (cpu c <| removeList :=
            removeList (cpu c) ++ filter (doomed (mem c) sn tid) rl |>) m') /\
    (forall p, p ∈ rl -> doomed (mem c) sn tid p ->
       exists i, heap m' !! p = Some i /\ isSquashed i = true) /\
    (forall p, p ∉ rl \/ ~ doomed (mem c) sn tid p -> heap m' !! p = heap (mem c) !! p).
Proof.
  intros Hord. revert c Hord. induction rl as [|p rl IH]; intros c Hord Hin; cbn [squashUntil].
  { exists (mem c). rewrite app_nil_r. split; [by destruct c as [? []]|]. split; [|done].
    intros p Hp. by apply not_elem_of_nil in Hp. }
  destruct (Hin p ltac:(left)) as (i & Hi & Hs). rewrite (getInst_ok _ _ _ Hi).
  cbn [mbind res_bind]. inversion_clear Hord as [|? ? Hord' Hp].
  assert (Hseq : seqAt (mem c) p = seqNum i) by (unfold seqAt; by rewrite Hi).
  destruct (Z.ltb_spec sn (seqNum i)) as [Hlt|Hge].
  2: { exists (mem c).
       assert (Hnone : forall q, q ∈ p :: rl -> ~ doomed (mem c) sn tid q).
       { intros q Hq [_ Hd]. apply elem_of_cons in Hq as [->|Hq]; [lia|].
         rewrite Forall_forall in Hp. specialize (Hp q Hq). lia. }
       assert (Hf : filter (doomed (mem c) sn tid) (p :: rl) = []).
       { by apply filter_none. }
       rewrite Hf, app_nil_r. split; [by destruct c as [? []]|]. split; [|done].
       intros q Hq Hd. by apply Hnone in Hq. }
  destruct (decide (threadNumber i = tid)) as [Ht|Ht].
  - destruct (squashInstIt_ok p tid c i Hi Hs Ht) as (m1 & -> & i' & Hsf & Hheap).
    cbn [mbind res_bind].
    assert (Hfields := squashedFrom_fields _ _ Hsf).
    assert (Hsame : forall q, seqAt m1 q = seqAt (mem c) q /\
      (doomed m1 sn tid q <-> doomed (mem c) sn tid q)).
    { intros q. unfold doomed, seqAt. rewrite Hheap. destruct (decide (q = p)) as [->|Hq].
      - rewrite lookup_insert_eq, Hi. cbn. destruct Hfields as (-> & -> & _). done.
      - by rewrite lookup_insert_ne by done. }
    destruct (IH (mkCore (rob c) (cpu c <| removeList := removeList (cpu c) ++ [p] |>) m1))
      as (m2 & -> & Hsq & Hun); cbn [mem rob cpu].
    { eapply StronglySorted_weaken; [|exact Hord']. intros x y. by rewrite !(proj1 (Hsame _)). }
    { intros q Hq. rewrite Hheap. destruct (decide (q = p)) as [->|Hne].
      - exists i'. rewrite lookup_insert_eq. split; [done|]. by eapply squashedFrom_squashable.
      - rewrite lookup_insert_ne by done. apply Hin. by right. }
    assert (Hdp : doomed (mem c) sn tid p).
    { split; [by rewrite Hi|]. by rewrite Hseq. }
    exists m2. split; [|split].
    + rewrite filter_cons_True by done. cbn. rewrite <- app_assoc. cbn.
      do 5 f_equal. apply list_filter_iff. intros q. apply Hsame.
    + intros q Hq Hd. apply elem_of_cons in Hq as [->|Hq].
      * destruct (decide (p ∈ rl)) as [Hx|Hx]; [apply Hsq; [done|by apply Hsame]|].
        exists i'. rewrite Hun by auto. cbn. rewrite Hheap, lookup_insert_eq.
        split; [done|]. by destruct Hsf as (_ & ? & _).
      * apply Hsq; [done|]. by apply Hsame.
    + intros q Hq. destruct (decide (q = p)) as [->|Hne].
      * exfalso. destruct Hq as [Hq|Hq]; [apply Hq; left|done].
      * rewrite Hun; cbn; [by rewrite Hheap, lookup_insert_ne|].
        destruct Hq as [Hq|Hq]; [left|right; by rewrite (proj2 (Hsame _))].
        intros Hx. apply Hq. by right.
  - unfold squashInstIt. rewrite (getInst_ok _ _ _ Hi). cbn [mbind res_bind].
    rewrite decide_False by done. cbn [mbind res_bind].
    assert (Hdp : ~ doomed (mem c) sn tid p) by (intros [Hd _]; rewrite Hi in Hd; done).
    destruct (IH c Hord') as (m2 & -> & Hsq & Hun); [intros q Hq; apply Hin; by right|].
    exists m2. rewrite filter_cons_False by done. split; [done|]. split.
    + intros q [->|Hq]%elem_of_cons Hd; [done|auto].
    + intros q Hq. apply Hun. destruct Hq as [Hq|Hq]; [left|by right].
      intros Hx. apply Hq. by right.
Qed.

Lemma eraseInst_ok l p :
  NoDup l -> p ∈ l -> eraseInst l p = Ok (filter (fun q => q <> p) l).
Proof.
  intros Hnd Hp. unfold eraseInst. destruct (list_find_in l p Hp) as [[k q] Hf].
  rewrite Hf. cbn. f_equal. apply list_find_Some in Hf as (Hk & -> & Hbefore).
  clear Hp. revert k Hk Hbefore. induction l as [|x l IH]; intros k Hk Hbefore; [done|].
  apply NoDup_cons in Hnd as [Hx Hnd]. destruct k as [|k]; cbn in Hk.
  - injection Hk as ->. rewrite filter_cons_False by tauto. symmetry.
    cbn. apply filter_all. intros y Hy ->. done.
  - rewrite filter_cons_True.
    + cbn. f_equal. apply IH; [done|done|]. intros j y Hj Hlt. apply (Hbefore (S j) y Hj). lia.
    + intros ->. apply Hx. by eapply list_elem_of_lookup_2.
Qed.

Lemma erase_all l d :
  NoDup l -> NoDup d -> (forall p, p ∈ d -> p ∈ l) ->
  foldR eraseInst l d = Ok (filter (fun q => q ∉ d) l).
Proof.
  revert l. induction d as [|p d IH]; intros l Hl Hd Hin; cbn [foldR].
  - f_equal. symmetry. apply filter_all. intros q _ Hq. by apply not_elem_of_nil in Hq.
  - apply NoDup_cons in Hd as [Hp Hd].
    rewrite eraseInst_ok; [|done|apply Hin; left]. cbn [mbind res_bind]. rewrite IH; [|..|done|].
    + f_equal. rewrite list_filter_filter. apply list_filter_iff. intros q.
      rewrite not_elem_of_cons. tauto.
    + by apply NoDup_filter.
    + intros q Hq. apply list_elem_of_filter. split; [congruence|]. apply Hin. by right.
Qed.

Lemma ordered_reverse m l :
  ordered m l -> StronglySorted (fun p q => seqAt m q < seqAt m p) (reverse l).
Proof.
  induction 1 as [|p l Hs IH Hp]; [constructor|]. rewrite reverse_cons.
  apply StronglySorted_app_2; [|done|repeat constructor].
  intros q x Hq Hx%list_elem_of_singleton. subst x. rewrite Forall_forall in Hp. apply Hp.
  by rewrite elem_of_reverse in Hq.
Qed.

(** ** Claims *)

(** C4: the reorder buffer's operations are safe: under what their callers
    ensure (the buffer is not full and the instruction is the youngest of its
    thread; the head is ready and not under the squash iterator; the squash
    width is positive) inserting, retiring, starting and continuing a squash
    fail no assertion, follow no dangling iterator, and preserve the
    well-formedness of the buffer: the entry counters count the lists, the
    lists are in program order, and everything younger than the squash
    iterator is squashed. *)
Theorem rob_ops_safe op c :
  rob_wf c -> allowed op c -> exists c', runOp op c = Ok c' /\ rob_wf c'.
Proof.
  intros Hwf Ha. destruct op as [p|tid|b sn tid|b tid]; cbn [runOp].
  - destruct (insertInst_ok p c Hwf Ha) as (c' & _ & _ & ? & ? & _). eauto.
  - destruct (retireHead_ok tid c Hwf Ha) as (c' & _ & _ & _ & ? & ? & _). eauto.
  - cbn in Ha. destruct (instList (rob c) tid) as [|p l _] eqn:El using rev_ind.
    + exists c. split; [|done]. unfold squash, isEmptyOf. by rewrite (rb_entries _ Hwf), El.
    + destruct (squash_start b sn tid p l c Hwf El) as [-> Hwf'].
      destruct (robSquash_ok b tid _ p Hwf') as (c' & ? & ? & _ & H & Hc);
        [cbn; by rewrite fn_lookup_insert|done|].
      exists c'. split; [done|]. apply Hc.
  - destruct Ha as [[it Hit] Hb].
    destruct (robSquash_ok b tid c it Hwf Hit Hb) as (c' & ? & ? & _ & H & Hc).
    exists c'. split; [done|]. apply Hc.
Qed.

(** C5: a squash marks exactly the younger instructions, and ends: starting a
    squash of a thread to [sn] and continuing it every cycle is done after at
    most as many cycles as the thread has instructions; then every instruction
    of the thread younger than [sn] is squashed and can commit, every other
    instruction of the machine is untouched, and the buffer still holds them
    all. *)
Theorem squash_marks_younger exiting sn tid c :
  rob_wf c -> 0 < squashBudget exiting (rob c) -> instList (rob c) tid <> [] ->
  exists c1 c', squash exiting sn tid c = Ok c1 /\
    squashCycles (pred (length (instList (rob c) tid))) exiting tid c1 = Ok c' /\
    rob_wf c' /\ doneSquashing (rob c') tid = true /\
    instList (rob c') = instList (rob c) /\
    forall p, if decide (p ∈ instList (rob c) tid /\ sn < seqAt (mem c) p)
      then exists i, heap (mem c') !! p = Some i /\ isSquashed i = true /\ readyToCommit i = true
      else heap (mem c') !! p = heap (mem c) !! p.
Proof.
  intros Hwf Hb Hne. destruct (instList (rob c) tid) as [|p l _] eqn:El using rev_ind; [done|].
  destruct (squash_start exiting sn tid p l c Hwf El) as [Hst Hwf0].
  destruct (squashCycles_ok (length (l ++ [p])) exiting tid (squashStart sn tid p c) l p)
    as (c' & rest & dn & Hrun & Hwf' & Hd & El' & Hsplit & Hsq & Hall & Hold); try done.
  { rewrite length_app. cbn. lia. }
  { cbn. by rewrite fn_lookup_insert. }
  { cbn. by rewrite fn_lookup_insert. }
  { exists []. exact El. }
  cbn in Hsq, Hall, Hold. rewrite fn_lookup_insert in Hall, Hold.
  rewrite length_app, Nat.add_1_r in Hrun |- *. cbn [squashCycles pred] in Hrun |- *.
  cbn [doneSquashing squashStart rob upd_field] in Hrun. rewrite fn_lookup_insert in Hrun.
  rewrite <- Hst in Hrun. destruct (squash exiting sn tid c) as [c1| |]; cbn in Hrun; [|done..].
  exists c1, c'. split_and!; try done. intros q. rewrite Hsplit.
  rewrite Forall_forall in Hall, Hold. destruct Hsq as [Hs1 Hs2].
  case_decide as Hq; rewrite elem_of_app in Hq.
  - destruct Hq as [[Hq|Hq] Hlt]; [specialize (Hold q Hq); lia|].
    destruct (Hs1 q Hq) as (i & i' & _ & Hi' & _ & _ & _ & _ & ? & ? & _). eauto.
  - apply Hs2. intros Hx. apply Hq. auto.
Qed.

(** the universal head is the oldest instruction: [updateHead] finds, over
    the active threads, an instruction no other is older than, and no head only
    when they have none. *)
Theorem updateHead_oldest c :
  rob_wf c ->
  exists h, updateHead c = Ok (c <| rob := rob c <| head := h |> |>) /\
    match h with
    | None => forall tid, tid ∈ activeThreads (rob c) -> instList (rob c) tid = []
    | Some p => (exists tid, tid ∈ activeThreads (rob c) /\ p ∈ instList (rob c) tid) /\
        forall tid q, tid ∈ activeThreads (rob c) -> q ∈ instList (rob c) tid ->
          seqAt (mem c) p <= seqAt (mem c) q
    end.
Proof.
  intros Hwf. destruct (headStep_fold c (activeThreads (rob c)) None (rb_insts _ Hwf))
    as (acc & Ha & Hacc). unfold updateHead. rewrite Ha. cbn. eexists. split; [done|].
  destruct acc as [[p n]|]; cbn; [|by destruct Hacc].
  destruct Hacc as ([[=]|(t & l & Ht & Hl & ->)] & _ & Hmin). split.
  - exists t. split; [done|]. rewrite Hl. left.
  - intros tid q Htid Hq. destruct (instList (rob c) tid) as [|h lt] eqn:Et;
      [by apply not_elem_of_nil in Hq|].
    specialize (Hmin tid h lt Htid Et). pose proof (rb_order _ Hwf tid) as Hord.
    rewrite Et in Hord. inversion_clear Hord as [|? ? _ Hh]. rewrite Forall_forall in Hh.
    apply elem_of_cons in Hq as [->|Hq]; [done|]. specialize (Hh q Hq). lia.
Qed.

(** removing the squashed instructions of a thread from the CPU's list
    removes exactly those: after [removeInstsUntil] and the clean-up at the end
    of the cycle, the list is the old one without the thread's instructions
    younger than [sn], in the same order; each of them has been squashed and
    the others have not been touched. *)
Theorem removeInstsUntil_exact sn tid c :
  cpu_list_ok (mem c) (cpuInstList (cpu c)) -> cpuInstList (cpu c) <> [] ->
  removeList (cpu c) = [] ->
  exists c' u, removeInstsUntil sn tid c = Ok c' /\ cleanUpRemovedInsts (cpu c') = Ok u /\
    cpuInstList u = filter (fun p => ~ doomed (mem c) sn tid p) (cpuInstList (cpu c)) /\
    removeList u = [] /\
    forall p, if decide (p ∈ cpuInstList (cpu c) /\ doomed (mem c) sn tid p)
      then exists i, heap (mem c') !! p = Some i /\ isSquashed i = true
      else heap (mem c') !! p = heap (mem c) !! p.
Proof.
  intros [Hord Hin] Hne Hrl. set (l := cpuInstList (cpu c)) in *.
  unfold removeInstsUntil. fold l. rewrite bool_decide_eq_false_2 by done.
  cbn [negb assertR mbind res_bind].
  destruct (squashUntil_ok sn tid (reverse l) (c <| cpu := cpu c <| removeInstsThisCycle := true |> |>))
    as (m' & -> & Hsq & Hun).
  { by apply ordered_reverse. }
  { intros p Hp. apply Hin. by rewrite elem_of_reverse in Hp. }
  cbn [mem rob cpu upd_field removeList] in *. rewrite Hrl. cbn [app].
  set (d := filter (doomed (mem c) sn tid) (reverse l)).
  assert (Hnd : NoDup l) by (by eapply ordered_NoDup).
  assert (Hd : forall p, p ∈ d <-> p ∈ l /\ doomed (mem c) sn tid p).
  { intros p. unfold d. rewrite list_elem_of_filter, elem_of_reverse. tauto. }
  eexists _, _. split; [done|]. unfold cleanUpRemovedInsts. cbn [cpu cpuInstList removeList upd_field].
  fold l. rewrite (erase_all l d); [|done| |intros p Hp; by apply Hd].
  2: { apply NoDup_filter. by rewrite reverse_Permutation. }
  split; [done|]. split_and!; [|done|].
  - cbn. apply list_filter_iff'. intros p Hp. rewrite Hd. tauto.
  - intros p. cbn. case_decide as Hp.
    + apply Hsq; rewrite ?elem_of_reverse; tauto.
    + apply Hun. rewrite elem_of_reverse. destruct (decide (p ∈ l)); [right|left]; tauto.
Qed.

(** ** A small machine *)

Lemma rob_ctor_wf policy n w th nt active st u m :
  0 <= n < 2 ^ 31 -> rob_wf (mkCore (ROB_ctor policy n w th nt active st) u m).
Proof.
  intros Hn. split; cbn; try done; try constructor; try lia.
  intros tid p Hp. by apply not_elem_of_nil in Hp.
Qed.

Lemma insert_wf p c c' :
  rob_wf c -> allowed (OpInsert p) c -> insertInst p c = Ok c' -> rob_wf c'.
Proof.
  intros Hwf Ha H. destruct (insertInst_ok p c Hwf Ha) as (c1 & _ & _ & H1 & Hwf1 & _). congruence.
Qed.

Definition sampleStatic : StaticInst :=
  mkStatic [] [] 0 (fun _ => false).

Definition sampleInst (sn : Z) (tid : ThreadID) : DynInst := DynInst_ctor sampleStatic 0 sn tid.

(** Thread 0 has instructions 1, 2 and 5, thread 1 has instruction 3. *)
Definition sampleMem : InstMem :=
  mkMem (<[1%positive := sampleInst 1 0]> (<[2%positive := sampleInst 2 0]>
        (<[3%positive := sampleInst 5 0]> (<[4%positive := sampleInst 3 1]> ∅)))) ∅.

Definition sampleCore0 : Core :=
  mkCore (ROB_ctor Dynamic 8 2 0 2 [0%nat; 1%nat] (fun _ => ROBRunning))
    (mkCpuInsts [1%positive; 2%positive; 4%positive; 3%positive] [] false) sampleMem.

Definition after (r : res Core) (c : Core) : Core := match r with Ok c' => c' | _ => c end.

Definition sampleCore1 : Core := after (insertInst 1 sampleCore0) sampleCore0.
Definition sampleCore2 : Core := after (insertInst 2 sampleCore1) sampleCore1.
Definition sampleCore3 : Core := after (insertInst 4 sampleCore2) sampleCore2.
Definition sampleCore : Core := after (insertInst 3 sampleCore3) sampleCore3.

Ltac insert_sample :=
  eexists; split; [vm_compute; reflexivity|];
  split; [intros Hx; vm_compute in Hx; discriminate Hx|];
  split; [vm_compute; lia|]; split; [reflexivity|]; split; [reflexivity|];
  vm_compute; repeat constructor.

Lemma sampleCore_wf : rob_wf sampleCore.
Proof.
  apply (insert_wf 3 sampleCore3); [|insert_sample|vm_compute; reflexivity].
  apply (insert_wf 4 sampleCore2); [|insert_sample|vm_compute; reflexivity].
  apply (insert_wf 2 sampleCore1); [|insert_sample|vm_compute; reflexivity].
  apply (insert_wf 1 sampleCore0); [|insert_sample|vm_compute; reflexivity].
  by apply rob_ctor_wf.
Qed.

Lemma rob_ops_safe_witness :
  exists c', runOp (OpSquash false 1 0) sampleCore = Ok c' /\ rob_wf c'.
Proof.
  apply (rob_ops_safe (OpSquash false 1 0) sampleCore sampleCore_wf). vm_compute; reflexivity.
Defined.

Lemma squash_marks_younger_witness :
  exists c1 c', squash false 0 0 sampleCore = Ok c1 /\
    squashCycles 2 false 0 c1 = Ok c' /\
    rob_wf c' /\ doneSquashing (rob c') 0%nat = true /\
    instList (rob c') = instList (rob sampleCore) /\
    forall p, if decide (p ∈ instList (rob sampleCore) 0%nat /\ 0 < seqAt (mem sampleCore) p)
      then exists i, heap (mem c') !! p = Some i /\ isSquashed i = true /\ readyToCommit i = true
      else heap (mem c') !! p = heap (mem sampleCore) !! p.
Proof.
  apply (squash_marks_younger false 0 0 sampleCore sampleCore_wf);
    [vm_compute; reflexivity|vm_compute; congruence].
Defined.

Lemma updateHead_oldest_witness :
  exists h, updateHead sampleCore = Ok (sampleCore <| rob := rob sampleCore <| head := h |> |>) /\
    match h with
    | None => forall tid, tid ∈ activeThreads (rob sampleCore) -> instList (rob sampleCore) tid = []
    | Some p => (exists tid, tid ∈ activeThreads (rob sampleCore) /\ p ∈ instList (rob sampleCore) tid) /\
        forall tid q, tid ∈ activeThreads (rob sampleCore) -> q ∈ instList (rob sampleCore) tid ->
          seqAt (mem sampleCore) p <= seqAt (mem sampleCore) q
    end.
Proof. apply (updateHead_oldest sampleCore sampleCore_wf). Defined.

Lemma removeInstsUntil_exact_witness :
  exists c' u, removeInstsUntil 1 0 sampleCore = Ok c' /\ cleanUpRemovedInsts (cpu c') = Ok u /\
    cpuInstList u = filter (fun p => ~ doomed (mem sampleCore) 1 0 p) (cpuInstList (cpu sampleCore)) /\
    removeList u = [] /\
    forall p, if decide (p ∈ cpuInstList (cpu sampleCore) /\ doomed (mem sampleCore) 1 0 p)
      then exists i, heap (mem c') !! p = Some i /\ isSquashed i = true
      else heap (mem c') !! p = heap (mem sampleCore) !! p.
Proof.
  apply (removeInstsUntil_exact 1 0 sampleCore); [|vm_compute; congruence|vm_compute; reflexivity].
  split; [vm_compute; repeat constructor|]. intros p Hp. vm_compute in Hp.
  repeat (apply elem_of_cons in Hp as [->|Hp]; [eexists; split; [vm_compute; reflexivity|];
    intros Hx; vm_compute in Hx; discriminate Hx|]). by apply not_elem_of_nil in Hp.
Defined.
