(* ===== verification/Rename.v ===== *)
(** * The rename stage

    [src/src/cpu/o3/rename.cc] and [rename.hh]: the stage as a state machine
    that runs once per cycle ([tick]).  What it reads from the time buffers this
    cycle (decode's instructions, IEW's and commit's signals) is an input; what
    it writes (to IEW and back to decode) is part of the state.  The width it
    renames with is the controller's.  Statistics and probe listeners are left
    out. *)

From stdpp Require Import base numbers list gmap functions.
From S2P Require Import Prelude Adaptive Regs Monad RenameMap RenameHistory DynInst Stage.

#[local] Open Scope Z_scope.

(** ** State *)

Inductive ThreadStatus :=
  | Running | Idle | StartSquash | Squashing | Blocked | Unblocking | SerializeStall.

#[export] Instance ThreadStatus_eq_dec : EqDecision ThreadStatus.
Proof. solve_decision. Defined.

Record FreeEntries := mkFree {
  iqEntries : Z; robEntries : Z; lqEntries : Z; sqEntries : Z
}.

#[export] Instance eta_free : Eta FreeEntries := fun f =>
  mkFree (iqEntries f) (robEntries f) (lqEntries f) (sqEntries f).

Record Rename := mkRename {
  stage_status : StageStatus;
  renameStatus : ThreadID -> ThreadStatus;
  histories : ThreadID -> list RenameHistory;
  insts : ThreadID -> list InstPtr;
  skidBuffer : ThreadID -> list InstPtr;
  threadMaps : ThreadID -> list SimpleRenameMap.t;
  freeList : UnifiedFreeList.t;
  scoreboard : Scoreboard.t;
  instMem : InstMem;
  instsInProgress : ThreadID -> Z;
  loadsInProgress : ThreadID -> Z;
  storesInProgress : ThreadID -> Z;
  wroteToTimeBuffer : bool;
  freeEntries : ThreadID -> FreeEntries;
  emptyROB : ThreadID -> bool;
  stalls_iew : ThreadID -> bool;
  serializeInst : ThreadID -> option InstPtr;
  serializeOnNextInst : ThreadID -> bool;
  toIEWIndex : Z;
  blockThisCycle : bool;
  resumeSerialize : bool;
  resumeUnblocking : bool;
  (* written this cycle *)
  toIEW : list InstPtr;
  renameBlock : ThreadID -> bool;
  renameUnblock : ThreadID -> bool;
  activity : list ActivityCall
}.

#[export] Instance eta_rename : Eta Rename := fun s =>
  mkRename (stage_status s) (renameStatus s) (histories s) (insts s) (skidBuffer s)
    (threadMaps s) (freeList s) (scoreboard s) (instMem s) (instsInProgress s)
    (loadsInProgress s) (storesInProgress s) (wroteToTimeBuffer s) (freeEntries s)
    (emptyROB s) (stalls_iew s) (serializeInst s) (serializeOnNextInst s) (toIEWIndex s)
    (blockThisCycle s) (resumeSerialize s) (resumeUnblocking s) (toIEW s) (renameBlock s)
    (renameUnblock s) (activity s).

(** What the time buffers show the stage this cycle. *)
Record IewComm := {
  iewBlock : bool; iewUnblock : bool;
  dispatched : Z; dispatchedToLQ : Z; dispatchedToSQ : Z;
  usedIQ : bool; usedLSQ : bool;
  freeIQEntries : Z; freeLQEntries : Z; freeSQEntries : Z
}.

Record CommitComm := {
  commit_squash : bool; doneSeqNum : Z;
  usedROB : bool; freeROBEntries : Z; commit_emptyROB : bool
}.

Record RenameIn := {
  fromDecode : list InstPtr;
  fromIEW : ThreadID -> IewComm;
  fromCommit : ThreadID -> CommitComm
}.

(** What the constructor fixes. *)
Record RenameConfig := {
  renameWidth : Z;
  numThreads : nat;
  skidBufferMax : Z;
  activeThreads : list ThreadID
}.

(** The constructor's checks and derived parameters. *)
Definition Rename_ctor (renameWidth decodeToRenameDelay decodeWidth : Z) (numThreads : nat)
    (active : list ThreadID) : res RenameConfig :=
  assert! negb (MaxWidth <? renameWidth) ;;
  Ok {| renameWidth := renameWidth; numThreads := numThreads;
        skidBufferMax := u32 ((decodeToRenameDelay + 1) * decodeWidth);
        activeThreads := active |}.

(** The register state of one thread, as [RenameHistory] works on it. *)
Definition regsOf (tid : ThreadID) (s : Rename) : RegState :=
  mkRegState (mkEnv (threadMaps s tid) (freeList s) (mpins (instMem s))) (histories s tid).

Definition setRegs (tid : ThreadID) (r : RegState) (s : Rename) : Rename :=
  s <| threadMaps := <[tid := renameMaps (env r)]> (threadMaps s) |>
    <| freeList := freeLists (env r) |>
    <| instMem := instMem s <| mpins := pins (env r) |> |>
    <| histories := <[tid := historyBuffer r]> (histories s) |>.

(** ** One cycle *)

Section Cycle.
Context (rf : PhysRegFile).
Context (flatten : RegId -> RegId).   (* [RegId::flatten] of the ISA *)
Context (cfg : RenameConfig) (inp : RenameIn).
Context (rename_width : Z).           (* [cpu->adaptiveRenameWidth(renameWidth)] *)

Abbreviation R := (M Rename).

Definition instOf (p : InstPtr) : R DynInst :=
  m ← gets instMem; lift (getInst p m).

Definition setInst (p : InstPtr) (i : DynInst) : R unit :=
  modify (fun s => s <| instMem := instMem s <| heap := <[p := i]> (heap (instMem s)) |> |>).

Definition setThreadStatus (tid : ThreadID) (st : ThreadStatus) : R unit :=
  modify (fun s => s <| renameStatus := <[tid := st]> (renameStatus s) |>).

Definition setRenameUnblock (tid : ThreadID) (b : bool) : R unit :=
  modify (fun s => s <| renameUnblock := <[tid := b]> (renameUnblock s) |>).

(** *** Free entries *)

Definition calcFreeROBEntries (tid : ThreadID) (s : Rename) : Z :=
  s32 (robEntries (freeEntries s tid) -
       (instsInProgress s tid - dispatched (fromIEW inp tid))).
Definition calcFreeIQEntries (tid : ThreadID) (s : Rename) : Z :=
  s32 (iqEntries (freeEntries s tid) -
       (instsInProgress s tid - dispatched (fromIEW inp tid))).
Definition calcFreeLQEntries (tid : ThreadID) (s : Rename) : Z :=
  s32 (lqEntries (freeEntries s tid) -
       (loadsInProgress s tid - dispatchedToLQ (fromIEW inp tid))).
Definition calcFreeSQEntries (tid : ThreadID) (s : Rename) : Z :=
  s32 (sqEntries (freeEntries s tid) -
       (storesInProgress s tid - dispatchedToSQ (fromIEW inp tid))).

Definition readFreeEntries (tid : ThreadID) : R unit :=
  let iew := fromIEW inp tid in
  let commit := fromCommit inp tid in
  _ ← when (usedIQ iew) (modify (fun s => s <| freeEntries :=
        <[tid := freeEntries s tid <| iqEntries := freeIQEntries iew |>]> (freeEntries s) |>));
  _ ← when (usedLSQ iew) (modify (fun s => s <| freeEntries :=
        <[tid := freeEntries s tid <| lqEntries := freeLQEntries iew |>
                                   <| sqEntries := freeSQEntries iew |>]> (freeEntries s) |>));
  when (usedROB commit) (modify (fun s =>
    s <| freeEntries := <[tid := freeEntries s tid <| robEntries := freeROBEntries commit |>]>
           (freeEntries s) |>
      <| emptyROB := <[tid := commit_emptyROB commit]> (emptyROB s) |>)).

Definition readStallSignals (tid : ThreadID) : R unit :=
  _ ← when (iewBlock (fromIEW inp tid))
        (modify (fun s => s <| stalls_iew := <[tid := true]> (stalls_iew s) |>));
  when (iewUnblock (fromIEW inp tid))
    (b ← gets (fun s => stalls_iew s tid);
     _ ← assertM b;
     modify (fun s => s <| stalls_iew := <[tid := false]> (stalls_iew s) |>)).

Definition checkStall (tid : ThreadID) (s : Rename) : bool :=
  if stalls_iew s tid then true
  else if calcFreeROBEntries tid s <=? 0 then true
  else if calcFreeIQEntries tid s <=? 0 then true
  else if (calcFreeLQEntries tid s <=? 0) && (calcFreeSQEntries tid s <=? 0) then true
  else if numFreeEntries (env (regsOf tid s)) <=? 0 then true
  else if bool_decide (renameStatus s tid = SerializeStall) &&
          (negb (emptyROB s tid) || negb (instsInProgress s tid =? 0)) then true
  else false.

(** *** Queues *)

Definition popInsts (tid : ThreadID) : R unit :=
  modify (fun s => s <| insts := <[tid := list.tail (insts s tid)]> (insts s) |>).

Definition skidInsert (tid : ThreadID) : R unit :=
  l ← gets (fun s => insts s tid);
  _ ← forM l (fun p =>
        _ ← popInsts tid;
        i ← instOf p;
        _ ← assertM (bool_decide (tid = threadNumber i));
        modify (fun s => s <| skidBuffer := <[tid := skidBuffer s tid ++ [p]]> (skidBuffer s) |>));
  n ← gets (fun s => Z.of_nat (length (skidBuffer s tid)));
  if skidBufferMax cfg <? n then panic else mret tt.

Definition sortInsts : R unit :=
  forM (fromDecode inp) (fun p =>
    i ← instOf p;
    modify (fun s => s <| insts :=
      <[threadNumber i := insts s (threadNumber i) ++ [p]]> (insts s) |>)).

Definition skidsEmpty (s : Rename) : bool :=
  forallb (fun tid => bool_decide (skidBuffer s tid = [])) (activeThreads cfg).

Fixpoint countValid (l : list InstPtr) (m : InstMem) : res Z :=
  match l with
  | [] => Ok 0
  | p :: l =>
      i ← getInst p m;
      n ← countValid l m;
      Ok (if isSquashed i then n else n + 1)
  end.

Definition validInsts : R Z := m ← gets instMem; lift (countValid (fromDecode inp) m).

(** *** Blocking *)

Definition block (tid : ThreadID) : R bool :=
  _ ← skidInsert tid;
  st ← gets (fun s => renameStatus s tid);
  if decide (st <> Blocked) then
    resume ← gets resumeUnblocking;
    _ ← when (resume || bool_decide (st <> Unblocking)) (modify (fun s =>
          s <| renameBlock := <[tid := true]> (renameBlock s) |>
            <| renameUnblock := <[tid := false]> (renameUnblock s) |>
            <| wroteToTimeBuffer := true |>));
    if decide (st <> SerializeStall) then
      _ ← setThreadStatus tid Blocked;
      mret true
    else mret false
  else mret false.

Definition unblock (tid : ThreadID) : R bool :=
  s ← gets (fun s => s);
  if decide (skidBuffer s tid = [] /\ renameStatus s tid <> SerializeStall) then
    _ ← setRenameUnblock tid true;
    _ ← modify (fun s => s <| wroteToTimeBuffer := true |>);
    _ ← setThreadStatus tid Running;
    mret true
  else mret false.

(** *** Squashing *)

Definition squash (squash_seq_num : Z) (tid : ThreadID) : R unit :=
  st ← gets (fun s => renameStatus s tid);
  _ ← (if decide (st = Blocked \/ st = Unblocking) then
         _ ← setRenameUnblock tid true;
         modify (fun s => s <| resumeSerialize := false |>
                            <| serializeInst := <[tid := None]> (serializeInst s) |>)
       else if decide (st = SerializeStall) then
         o ← gets (fun s => serializeInst s tid);
         p ← lift (deref o);
         i ← instOf p;
         if seqNum i <=? squash_seq_num then
           modify (fun s => s <| resumeSerialize := true |>)
         else
           _ ← modify (fun s => s <| resumeSerialize := false |>);
           _ ← setRenameUnblock tid true;
           modify (fun s => s <| serializeInst := <[tid := None]> (serializeInst s) |>)
       else mret tt);
  _ ← setThreadStatus tid Squashing;
  _ ← forM (fromDecode inp) (fun p =>
        i ← instOf p;
        when (bool_decide (threadNumber i = tid) && (squash_seq_num <? seqNum i))
          (m ← gets instMem;
           m ← lift (setSquashed p m);
           modify (fun s => s <| instMem := m |> <| wroteToTimeBuffer := true |>)));
  _ ← modify (fun s => s <| insts := <[tid := []]> (insts s) |>
                         <| skidBuffer := <[tid := []]> (skidBuffer s) |>);
  s ← gets (fun s => s);
  r ← lift (RenameHistory.doSquash rf squash_seq_num (regsOf tid s));
  modify (setRegs tid r).

(** *** Renaming an instruction *)

Definition renameSrcRegs (p : InstPtr) (tid : ThreadID) : R unit :=
  i0 ← instOf p;
  forM (seq 0 (numSrcRegs i0)) (fun src_idx =>
    i ← instOf p;
    src_reg ← lift (deref (srcRegIdx (staticInst i) !! src_idx));
    s ← gets (fun s => s);
    renamed_reg ← lift (lookup rf (flatten src_reg) (threadMaps s tid));
    i ← lift (renameSrcReg src_idx renamed_reg i);
    ready ← lift (Scoreboard.getReg renamed_reg (scoreboard s));
    i ← lift (if ready : bool then markSrcRegReadyIdx src_idx i else Ok i);
    setInst p i).

(** The flattened destination keeps the pinning of the original operand. *)
Definition flatDest (dest_reg : RegId) : RegId :=
  mkRegId (classValue (flatten dest_reg)) (index (flatten dest_reg)) (numPinnedWrites dest_reg).

Definition renameDestRegs (p : InstPtr) (tid : ThreadID) : R unit :=
  i0 ← instOf p;
  forM (seq 0 (numDestRegs i0)) (fun dest_idx =>
    i ← instOf p;
    dest_reg ← lift (deref (destRegIdx (staticInst i) !! dest_idx));
    s ← gets (fun s => s);
    '(info, r) ← lift (renameDest rf (seqNum i) (flatDest dest_reg) (regsOf tid s));
    _ ← modify (setRegs tid r);
    sb ← lift (Scoreboard.unsetReg info.1 (scoreboard s));
    _ ← modify (fun s => s <| scoreboard := sb |>);
    let i := i <| flatDestIdx := <[dest_idx := flatDest dest_reg]> (flatDestIdx i) |> in
    i ← lift (renameDestReg dest_idx info.1 info.2 (pins (env r)) i);
    setInst p i).

(** [numDestRegs(type)] of the static instruction. *)
Definition numDestRegsOf (i : DynInst) (type : RegClassType) : Z :=
  Z.of_nat (length (filter (fun d => classValue d = type) (destRegIdx (staticInst i)))).

(** *** The main loop *)

(** The queue the loop takes instructions from: the skid buffer when
    unblocking, decode's instructions otherwise. *)
Definition queueOf (skid : bool) (tid : ThreadID) (s : Rename) : list InstPtr :=
  if skid then skidBuffer s tid else insts s tid.

Definition setQueue (skid : bool) (tid : ThreadID) (q : list InstPtr) (s : Rename) : Rename :=
  if skid then s <| skidBuffer := <[tid := q]> (skidBuffer s) |>
  else s <| insts := <[tid := q]> (insts s) |>.

Definition setSerializeBefore (p : InstPtr) : R unit :=
  i ← instOf p; setInst p (setStatus SerializeBefore true i).

Definition serializeAfter (skid : bool) (tid : ThreadID) : R unit :=
  q ← gets (queueOf skid tid);
  match q with
  | [] => modify (fun s => s <| serializeOnNextInst := <[tid := true]> (serializeOnNextInst s) |>)
  | p :: _ => setSerializeBefore p
  end.

(** Put the instruction in the rename queue. *)
Definition sendToIEW (p : InstPtr) : R unit :=
  k ← gets toIEWIndex;
  _ ← lift (if k <? MaxWidth then Ok tt else Undef);
  modify (fun s => s <| toIEW := toIEW s ++ [p] |> <| toIEWIndex := u32 (toIEWIndex s + 1) |>).

Definition countMemInst (tid : ThreadID) (i : DynInst) : R unit :=
  if isAtomic i || isStore i then
    modify (fun s => s <| storesInProgress := <[tid := storesInProgress s tid + 1]> (storesInProgress s) |>)
  else if isLoad i then
    modify (fun s => s <| loadsInProgress := <[tid := loadsInProgress s tid + 1]> (loadsInProgress s) |>)
  else mret tt.

(** The renaming proper of an instruction taken off the queue. *)
Definition renameOne (p : InstPtr) (tid : ThreadID) : R unit :=
  i ← instOf p;
  _ ← renameSrcRegs p (threadNumber i);
  _ ← renameDestRegs p (threadNumber i);
  _ ← countMemInst tid i;
  sendToIEW p.

(** The loop: [insts_available] instructions may be taken; the result is how
    many are left, and how many were renamed. *)
Fixpoint renameLoop (skid : bool) (tid : ThreadID) (insts_available : nat) (renamed_insts : Z)
    : R (nat * Z) :=
  match insts_available with
  | O => mret (O, renamed_insts)
  | S n =>
      k ← gets toIEWIndex;
      if negb (k <? rename_width) then mret (S n, renamed_insts) else
      s ← gets (fun s => s);
      match queueOf skid tid s with
      | [] => panic
      | p :: q =>
          i ← instOf p;
          if isLoad i && (calcFreeLQEntries tid s <=? 0) then mret (S n, renamed_insts)
          else if (isStore i || isAtomic i) && (calcFreeSQEntries tid s <=? 0) then
            mret (S n, renamed_insts)
          else
            _ ← modify (setQueue skid tid q);
            if isSquashed i then renameLoop skid tid n renamed_insts
            else if negb (canRename (numDestRegsOf i) (env (regsOf tid s))) then
              _ ← modify (fun s => setQueue skid tid (p :: queueOf skid tid s)
                                     (s <| blockThisCycle := true |>));
              mret (S n, renamed_insts)
            else if isSerializeBefore i && negb (isSerializeHandled i) then
              _ ← (if status i SerializeBefore then mret tt
                   else setInst p (setStatus SerializeHandled true i));
              _ ← setThreadStatus tid SerializeStall;
              _ ← modify (fun s => s <| serializeInst := <[tid := Some p]> (serializeInst s) |>
                                     <| blockThisCycle := true |>);
              mret (S n, renamed_insts)
            else
              _ ← when ((isStoreConditional i || isSerializeAfter i) &&
                        negb (isSerializeHandled i))
                    (_ ← setInst p (setStatus SerializeHandled true i);
                     serializeAfter skid tid);
              _ ← renameOne p tid;
              renameLoop skid tid n (renamed_insts + 1)
      end
  end.

(** The beginning of [renameInsts]: how many instructions the queue and the
    free entries allow; [None] when there is nothing to do or no space. *)
Definition availableInsts (skid : bool) (tid : ThreadID) : R (option nat) :=
  s ← gets (fun s => s);
  let insts_available := Z.of_nat (length (queueOf skid tid s)) in
  if insts_available =? 0 then mret None else
  let min_free_entries := Z.min (calcFreeROBEntries tid s) (calcFreeIQEntries tid s) in
  if min_free_entries <=? 0 then
    _ ← modify (fun s => s <| blockThisCycle := true |>);
    _ ← block tid;
    mret None
  else if min_free_entries <? insts_available then
    _ ← modify (fun s => s <| blockThisCycle := true |>);
    mret (Some (Z.to_nat min_free_entries))
  else mret (Some (Z.to_nat insts_available)).

(** Handle serializing the next instruction if necessary. *)
Definition serializeNext (skid : bool) (tid : ThreadID) : R unit :=
  s ← gets (fun s => s);
  if serializeOnNextInst s tid then
    if emptyROB s tid && (instsInProgress s tid =? 0) then
      modify (fun s => s <| serializeOnNextInst := <[tid := false]> (serializeOnNextInst s) |>)
    else match queueOf skid tid s with
         | [] => mret tt
         | p :: _ => setSerializeBefore p
         end
  else mret tt.

Definition renameInsts (tid : ThreadID) : R unit :=
  skid ← gets (fun s => bool_decide (renameStatus s tid = Unblocking));
  avail ← availableInsts skid tid;
  match avail with
  | None => mret tt
  | Some insts_available =>
      _ ← serializeNext skid tid;
      '(remaining, renamed_insts) ← renameLoop skid tid insts_available 0;
      _ ← modify (fun s => s <| instsInProgress :=
            <[tid := instsInProgress s tid + renamed_insts]> (instsInProgress s) |>);
      k ← gets toIEWIndex;
      _ ← when (negb (k =? 0)) (modify (fun s => s <| wroteToTimeBuffer := true |>));
      _ ← when (negb (remaining =? 0)%nat) (modify (fun s => s <| blockThisCycle := true |>));
      b ← gets blockThisCycle;
      when b (_ ← block tid; setRenameUnblock tid false)
  end.

(** *** The stage *)

(** [rename]: returns the new [status_change]. *)
Definition rename (status_change : bool) (tid : ThreadID) : R bool :=
  st ← gets (fun s => renameStatus s tid);
  _ ← (if decide (st = SerializeStall) then
         r ← gets resumeSerialize;
         when r (_ ← modify (fun s => s <| resumeSerialize := false |>);
                 _ ← block tid;
                 setRenameUnblock tid false)
       else if decide (st = Unblocking) then
         r ← gets resumeUnblocking;
         when r (_ ← block tid;
                 _ ← modify (fun s => s <| resumeUnblocking := false |>);
                 setRenameUnblock tid false)
       else mret tt);
  st ← gets (fun s => renameStatus s tid);
  if decide (st = Running \/ st = Idle) then
    _ ← renameInsts tid;
    mret status_change
  else if decide (st = Unblocking) then
    _ ← renameInsts tid;
    v ← validInsts;
    _ ← when (negb (v =? 0)) (skidInsert tid);
    u ← unblock tid;
    b ← gets blockThisCycle;
    mret (u || status_change || b)
  else mret status_change.

Definition checkSignalsAndUpdate (tid : ThreadID) : R bool :=
  _ ← readFreeEntries tid;
  _ ← readStallSignals tid;
  if commit_squash (fromCommit inp tid) then
    _ ← squash (doneSeqNum (fromCommit inp tid)) tid;
    mret true
  else
  stall ← gets (checkStall tid);
  if stall : bool then block tid else
  st ← gets (fun s => renameStatus s tid);
  if decide (st = Blocked) then
    _ ← setThreadStatus tid Unblocking;
    _ ← unblock tid;
    mret true
  else if decide (st = Squashing) then
    rs ← gets resumeSerialize;
    ru ← gets resumeUnblocking;
    if rs : bool then _ ← setThreadStatus tid SerializeStall; mret true
    else if ru : bool then _ ← setThreadStatus tid Unblocking; mret true
    else _ ← setThreadStatus tid Running; mret false
  else if decide (st = SerializeStall) then
    o ← gets (fun s => serializeInst s tid);
    _ ← setThreadStatus tid Unblocking;
    _ ← unblock tid;
    p ← lift (deref o);
    i ← instOf p;
    _ ← setInst p (setStatus SerializeBefore false i);
    sk ← gets (fun s => skidBuffer s tid);
    _ ← (if decide (sk <> [])
         then modify (fun s => s <| skidBuffer := <[tid := p :: skidBuffer s tid]> (skidBuffer s) |>)
         else modify (fun s => s <| insts := <[tid := p :: insts s tid]> (insts s) |>));
    _ ← modify (fun s => s <| serializeInst := <[tid := None]> (serializeInst s) |>);
    mret true
  else mret false.

Definition updateStatus : R unit :=
  s ← gets (fun s => s);
  if existsb (fun tid => bool_decide (renameStatus s tid = Unblocking)) (activeThreads cfg) then
    if decide (stage_status s = Inactive) then
      modify (fun s => s <| stage_status := Active |> <| activity := activity s ++ [ActivateStage] |>)
    else mret tt
  else if decide (stage_status s = Active) then
    modify (fun s => s <| stage_status := Inactive |> <| activity := activity s ++ [DeactivateStage] |>)
  else mret tt.

(** The threads' part of [tick]. *)
Fixpoint tickThreads (threads : list ThreadID) (status_change : bool) : R bool :=
  match threads with
  | [] => mret status_change
  | tid :: threads =>
      b ← checkSignalsAndUpdate tid;
      c ← rename (b || status_change) tid;
      tickThreads threads c
  end.

Definition commitThread (tid : ThreadID) : R unit :=
  st ← gets (fun s => renameStatus s tid);
  let commit := fromCommit inp tid in
  when (negb (doneSeqNum commit =? 0) && negb (commit_squash commit) &&
        bool_decide (st <> Squashing))
    (s ← gets (fun s => s);
     r ← lift (RenameHistory.removeFromHistory (doneSeqNum commit) (regsOf tid s));
     modify (setRegs tid r)).

Definition updateProgress (tid : ThreadID) : R unit :=
  let iew := fromIEW inp tid in
  _ ← modify (fun s =>
        s <| instsInProgress := <[tid := s32 (instsInProgress s tid - dispatched iew)]> (instsInProgress s) |>
          <| loadsInProgress := <[tid := s32 (loadsInProgress s tid - dispatchedToLQ iew)]> (loadsInProgress s) |>
          <| storesInProgress := <[tid := s32 (storesInProgress s tid - dispatchedToSQ iew)]> (storesInProgress s) |>);
  s ← gets (fun s => s);
  _ ← assertM (0 <=? loadsInProgress s tid);
  _ ← assertM (0 <=? storesInProgress s tid);
  assertM (0 <=? instsInProgress s tid).

Definition tick : R unit :=
  _ ← modify (fun s => s <| wroteToTimeBuffer := false |> <| blockThisCycle := false |>
                         <| toIEWIndex := 0 |> <| toIEW := [] |>
                         <| renameBlock := fun _ => false |>
                         <| renameUnblock := fun _ => false |> <| activity := [] |>);
  _ ← sortInsts;
  status_change ← tickThreads (activeThreads cfg) false;
  _ ← when status_change updateStatus;
  w ← gets wroteToTimeBuffer;
  _ ← when w (modify (fun s => s <| activity := activity s ++ [ActivityThisCycle] |>));
  _ ← forM (activeThreads cfg) commitThread;
  forM (seq 0 (numThreads cfg)) updateProgress.

End Cycle.

(** ** Resetting *)

(** [clearStates] and the body of [resetStage]'s loop, given the free entries
    the back end reports. *)
Definition clearStates (free : FreeEntries) (tid : ThreadID) (s : Rename) : Rename :=
  s <| renameStatus := <[tid := Idle]> (renameStatus s) |>
    <| freeEntries := <[tid := free]> (freeEntries s) |>
    <| emptyROB := <[tid := true]> (emptyROB s) |>
    <| stalls_iew := <[tid := false]> (stalls_iew s) |>
    <| serializeInst := <[tid := None]> (serializeInst s) |>
    <| instsInProgress := <[tid := 0]> (instsInProgress s) |>
    <| loadsInProgress := <[tid := 0]> (loadsInProgress s) |>
    <| storesInProgress := <[tid := 0]> (storesInProgress s) |>
    <| serializeOnNextInst := <[tid := false]> (serializeOnNextInst s) |>.

Definition resetStage (numThreads : nat) (free : ThreadID -> FreeEntries) (s : Rename) : Rename :=
  foldl (fun s tid => clearStates (free tid) tid s)
    (s <| stage_status := Inactive |> <| resumeSerialize := false |> <| resumeUnblocking := false |>)
    (seq 0 numThreads).

Definition isDrained (numThreads : nat) (s : Rename) : bool :=
  forallb (fun tid =>
    (instsInProgress s tid =? 0) && bool_decide (histories s tid = []) &&
    bool_decide (skidBuffer s tid = []) && bool_decide (insts s tid = []) &&
    (bool_decide (renameStatus s tid = Idle) || bool_decide (renameStatus s tid = Running)))
    (seq 0 numThreads).

(** The cycle as the CPU runs it: the width is the controller's answer. *)
Definition cpuTick (rf : PhysRegFile) (flatten : RegId -> RegId) (ac : AdaptiveConfig)
    (as_ : AdaptiveState) (cfg : RenameConfig) (inp : RenameIn) : M Rename unit :=
  tick rf flatten cfg inp (adaptiveRenameWidth ac as_ (renameWidth cfg)).
