(* ===== verification/RenameProps.v ===== *)
(** * Correctness of the rename stage

    What a cycle of the stage does with instructions: it passes each thread's
    instructions on in order, loses none and duplicates none, never more than
    the controller's width and the free entries of the back end allow. *)

From stdpp Require Import base numbers list gmap functions.
From S2P Require Import Prelude Adaptive AdaptiveProps Regs Monad RenameMap RenameHistory RenameInit DynInst Stage Rename.

#[local] Open Scope Z_scope.

(** ** Definitions *)

(** What the flow of instructions depends on: the thread of an instruction,
    whether it has been squashed, and its number. *)
Definition view := InstPtr -> option (ThreadID * (bool * Z)).

Definition viewOf (m : InstMem) : view :=
  fun p => (fun i => (threadNumber i, (isSquashed i, seqNum i))) <$> heap m !! p.

Definition ofThread (V : view) (t : ThreadID) (p : InstPtr) : Prop := fst <$> V p = Some t.
Definition live (V : view) (p : InstPtr) : Prop := fst ∘ snd <$> V p <> Some true.

#[export] Instance ofThread_dec V t p : Decision (ofThread V t p).
Proof. unfold ofThread. apply _. Defined.
#[export] Instance live_dec V p : Decision (live V p).
Proof. unfold live. apply _. Defined.

(** The instructions of a thread waiting in the stage, oldest first. *)
Definition pend (t : ThreadID) (s : Rename) : list InstPtr :=
  option_list (serializeInst s t) ++ skidBuffer s t ++ insts s t.

(** The instructions of a thread sent on this cycle. *)
Definition sent (V : view) (t : ThreadID) (s : Rename) : list InstPtr :=
  filter (ofThread V t) (toIEW s).

(** The flow of instructions through the stage is [L], of which [H t] is in
    hand between the queues and the time buffer. *)
Record flow (V : view) (L H : ThreadID -> list InstPtr) (s : Rename) : Prop := {
  fl_view : forall p, viewOf (instMem s) p = V p;
  fl_thread : forall t p, p ∈ pend t s -> ofThread V t p;
  fl_serial : forall t, is_Some (serializeInst s t) -> renameStatus s t = SerializeStall;
  fl_resume : resumeSerialize s = false /\ resumeUnblocking s = false;
  fl_live : forall t, filter (live V) (sent V t s ++ H t ++ pend t s) = L t
}.

Definition stalled (st : ThreadStatus) : Prop :=
  st = Blocked \/ st = Unblocking \/ st = SerializeStall.

(** The skid buffer is only used by a thread that is stalled. *)
Definition skidOK (s : Rename) : Prop :=
  forall t, ~ stalled (renameStatus s t) -> skidBuffer s t = [].

Definition none : ThreadID -> list InstPtr := fun _ => [].

(** ** Queues *)

(** Only the queues changed, and they are as [f] and [g] say. *)
Definition queuesTo (tid : ThreadID) (q : list InstPtr) (l : list InstPtr) (s s' : Rename) : Prop :=
  exists f g, s' = s <| skidBuffer := f |> <| insts := g |> /\
    f tid = q /\ g tid = l /\
    forall t, t <> tid -> f t = skidBuffer s t /\ g t = insts s t.

Lemma skidInsert_spec cfg tid s u s' :
  skidInsert cfg tid s = Ok (u, s') ->
  queuesTo tid (skidBuffer s tid ++ insts s tid) [] s s'.
Proof.
  unfold skidInsert. intros H. apply bind_ok in H as (l0 & s0 & Hg & H). injection Hg as <- <-.
  apply bind_ok in H as (u0 & s1 & Hloop & H).
  assert (Hl : forall l s0 u0 s1, insts s0 tid = l ->
    forM l (fun p => _ ← popInsts tid; i ← instOf p;
            _ ← assertM (bool_decide (tid = threadNumber i));
            modify (fun s => s <| skidBuffer := <[tid := skidBuffer s tid ++ [p]]> (skidBuffer s) |>))
      s0 = Ok (u0, s1) -> queuesTo tid (skidBuffer s0 tid ++ l) [] s0 s1).
  { clear. induction l as [|p l IH]; intros s0 u0 s1 El H; cbn in H.
    - injection H as <- <-. exists (skidBuffer s0), (insts s0). rewrite app_nil_r.
      split; [by destruct s0|]. done.
    - unfold popInsts, instOf in H. run. apply IH in H as (f & g & -> & Hf & Hg & Ho).
      + exists f, g. split; [done|]. cbn in Hf, Ho. rewrite fn_lookup_insert in Hf.
        rewrite <- app_assoc in Hf. split_and!; try done. intros t Ht.
        destruct (Ho t Ht) as [-> ->]. by rewrite !fn_lookup_insert_ne.
      + cbn. by rewrite fn_lookup_insert, El. }
  apply Hl in Hloop; [|done]. run_step. run_step. case_match; run; done.
Qed.

Lemma pend_queues tid s s' :
  queuesTo tid (skidBuffer s tid ++ insts s tid) [] s s' -> forall t, pend t s' = pend t s.
Proof.
  intros (f & g & -> & Hf & Hg & Ho) t. unfold pend. cbn.
  destruct (decide (t = tid)) as [->|Ht].
  - by rewrite Hf, Hg, app_nil_r.
  - by destruct (Ho t Ht) as [-> ->].
Qed.

(** ** Frames *)

(** The stage's state but for what the flow depends on. *)
Lemma flow_ext V L H s s' :
  (forall t, pend t s' = pend t s) -> serializeInst s' = serializeInst s ->
  (forall t, is_Some (serializeInst s t) -> renameStatus s t = SerializeStall ->
     renameStatus s' t = SerializeStall) ->
  resumeSerialize s' = resumeSerialize s -> resumeUnblocking s' = resumeUnblocking s ->
  toIEW s' = toIEW s -> (forall p, viewOf (instMem s') p = viewOf (instMem s) p) ->
  flow V L H s -> flow V L H s'.
Proof.
  intros Ep Es Est Er Eu Et Ev [Hv Hth Hse Hre Hl]. split.
  - intros p. by rewrite Ev.
  - intros t p. rewrite Ep. auto.
  - intros t. rewrite Es. auto.
  - by rewrite Er, Eu.
  - intros t. rewrite Ep. unfold sent. rewrite Et. apply Hl.
Qed.

(** A change of fields the flow does not read. *)
Ltac flow_frame := intros; eapply flow_ext; [..|eassumption]; done.

Lemma skidInsert_flow V L H cfg tid : keeps (flow V L H) (skidInsert cfg tid).
Proof.
  intros s u s' Hs Hr. apply skidInsert_spec in Hr.
  pose proof (pend_queues _ _ _ Hr) as Hp. destruct Hr as (f & g & -> & _).
  eapply flow_ext; [..|exact Hs]; done.
Qed.

(** What [block] leaves. *)
Lemma block_spec cfg tid s b s' :
  block cfg tid s = Ok (b, s') ->
  (forall t, pend t s' = pend t s) /\ serializeInst s' = serializeInst s /\
  renameStatus s' tid = (if decide (renameStatus s tid = SerializeStall) then SerializeStall else Blocked) /\
  (forall t, t <> tid -> renameStatus s' t = renameStatus s t /\ skidBuffer s' t = skidBuffer s t) /\
  resumeSerialize s' = resumeSerialize s /\ resumeUnblocking s' = resumeUnblocking s /\
  toIEW s' = toIEW s /\ toIEWIndex s' = toIEWIndex s /\ instMem s' = instMem s /\
  instsInProgress s' = instsInProgress s.
Proof.
  unfold block. intros H. apply bind_ok in H as (u & s1 & Hsk & H).
  apply skidInsert_spec in Hsk. pose proof (pend_queues _ _ _ Hsk) as Hp.
  destruct Hsk as (f & g & -> & Hf & Hg & Ho).
  assert (Hsk : forall t, t <> tid -> f t = skidBuffer s t) by (intros t Ht; by apply Ho).
  run_step. run_step. cbn [renameStatus upd_field] in *.
  destruct (decide (renameStatus s tid = Blocked)) as [Eb|Eb].
  - rewrite decide_False in H by tauto. run. cbn.
    rewrite Eb, decide_False by done. split_and!; try done. intros t Ht. by rewrite Hsk.
  - rewrite decide_True in H by done.
    repeat (run_step || case_match || (unfold setThreadStatus in *)); cbn in *;
      repeat case_decide; try tauto; split_and!;
      first [exact Hp | done | by rewrite fn_lookup_insert
            | intros t Ht; rewrite ?fn_lookup_insert_ne by done; auto].
Qed.

Lemma block_flow V L H cfg tid : keeps (flow V L H) (block cfg tid).
Proof.
  intros s b s' Hs Hr. apply block_spec in Hr as (Hp & Es & Et & Eo & Er & Eu & Ei & _ & Em & _).
  eapply flow_ext; [exact Hp|exact Es| |exact Er|exact Eu|exact Ei| |exact Hs].
  - intros t _ Hst. destruct (decide (t = tid)) as [->|Ht].
    + rewrite Et. by rewrite decide_True.
    + by destruct (Eo t Ht) as [-> _].
  - intros p. by rewrite Em.
Qed.

Lemma block_skidOK cfg tid : keeps skidOK (block cfg tid).
Proof.
  intros s b s' Hs Hr. apply block_spec in Hr as (_ & _ & Et & Eo & _). intros t Hst.
  destruct (decide (t = tid)) as [->|Ht].
  - exfalso. apply Hst. rewrite Et. unfold stalled. case_decide; auto.
  - destruct (Eo t Ht) as [E1 E2]. rewrite E1 in Hst. rewrite E2. auto.
Qed.

Lemma setThreadStatus_flow V L H tid st :
  keeps (fun s => flow V L H s /\ (st = SerializeStall \/ serializeInst s tid = None))
    (setThreadStatus tid st).
Proof.
  intros s u s' [Hs Hst] Hr. unfold setThreadStatus in Hr. run. split; [|done].
  eapply flow_ext; [..|exact Hs]; try done. cbn. intros t Ht Hse.
  destruct (decide (t = tid)) as [->|Hne].
  - rewrite fn_lookup_insert. destruct Hst as [->|Hst]; [done|]. rewrite Hst in Ht.
    by destruct Ht.
  - by rewrite fn_lookup_insert_ne.
Qed.

(** What [unblock] leaves. *)
Lemma unblock_spec tid s b s' :
  unblock tid s = Ok (b, s') ->
  insts s' = insts s /\ skidBuffer s' = skidBuffer s /\ serializeInst s' = serializeInst s /\
  resumeSerialize s' = resumeSerialize s /\ resumeUnblocking s' = resumeUnblocking s /\
  toIEW s' = toIEW s /\ toIEWIndex s' = toIEWIndex s /\ instMem s' = instMem s /\
  (forall t, t <> tid -> renameStatus s' t = renameStatus s t) /\
  (renameStatus s' tid = renameStatus s tid \/
   renameStatus s' tid = Running /\ skidBuffer s tid = [] /\ renameStatus s tid <> SerializeStall).
Proof.
  unfold unblock, setRenameUnblock, setThreadStatus. intros H. run_step. run_step.
  case_decide as Hd; run; cbn; split_and!; try done; auto.
  - intros t Ht. by rewrite fn_lookup_insert_ne.
  - right. rewrite fn_lookup_insert. tauto.
Qed.

Lemma unblock_flow V L H tid : keeps (flow V L H) (unblock tid).
Proof.
  intros s b s' Hs Hr.
  apply unblock_spec in Hr as (E1 & E2 & E3 & E4 & E5 & E6 & _ & E7 & E8 & E9).
  eapply flow_ext; [..|exact Hs]; try done.
  - intros t. unfold pend. by rewrite E1, E2, E3.
  - intros t _ Hst. destruct (decide (t = tid)) as [->|Ht]; [|by rewrite E8].
    destruct E9 as [->|(_ & _ & Hx)]; [done|]. by destruct Hx.
  - intros p. by rewrite E7.
Qed.

Lemma unblock_skidOK tid : keeps skidOK (unblock tid).
Proof.
  intros s b s' Hs Hr.
  apply unblock_spec in Hr as (_ & E2 & _ & _ & _ & _ & _ & _ & E8 & E9).
  intros t Hst. rewrite E2. destruct (decide (t = tid)) as [->|Ht].
  - destruct E9 as [E9|(_ & Hx & _)]; [|done]. rewrite E9 in Hst. auto.
  - rewrite E8 in Hst by done. auto.
Qed.

(** ** Instructions *)

Definition sameView (i i' : DynInst) : Prop :=
  threadNumber i' = threadNumber i /\ isSquashed i' = isSquashed i /\ seqNum i' = seqNum i.

(** The pointer's entry in the view. *)
Definition hasView (V : view) (p : InstPtr) (i : DynInst) : Prop :=
  V p = Some (threadNumber i, (isSquashed i, seqNum i)).

Lemma hasView_same V p i i' : hasView V p i -> sameView i i' -> hasView V p i'.
Proof. unfold hasView. intros H (-> & -> & ->). done. Qed.

(** Steps that leave the queues, the status and the outgoing instructions alone. *)
Record quiet (s s' : Rename) : Prop := {
  q_insts : insts s' = insts s;
  q_skid : skidBuffer s' = skidBuffer s;
  q_serial : serializeInst s' = serializeInst s;
  q_status : renameStatus s' = renameStatus s;
  q_resume : resumeSerialize s' = resumeSerialize s /\ resumeUnblocking s' = resumeUnblocking s;
  q_toIEW : toIEW s' = toIEW s /\ toIEWIndex s' = toIEWIndex s;
  q_view : forall p, viewOf (instMem s') p = viewOf (instMem s) p
}.

Lemma quiet_refl s : quiet s s.
Proof. done. Qed.

Lemma quiet_trans s1 s2 s3 : quiet s1 s2 -> quiet s2 s3 -> quiet s1 s3.
Proof.
  intros [A1 A2 A3 A4 [A5 A6] [A7 A8] A9] [B1 B2 B3 B4 [B5 B6] [B7 B8] B9].
  split; [congruence..|split; congruence|split; congruence|]. intros p. by rewrite B9.
Qed.

Lemma quiet_flow V L H s s' : quiet s s' -> flow V L H s -> flow V L H s'.
Proof.
  intros [A1 A2 A3 A4 [A5 A6] [A7 A8] A9]. apply flow_ext; try done.
  - intros t. unfold pend. by rewrite A1, A2, A3.
  - intros t. by rewrite A4.
Qed.

Lemma quiet_skidOK s s' : quiet s s' -> skidOK s -> skidOK s'.
Proof. intros [_ A2 _ A4 _ _ _] H t. rewrite A2, A4. apply H. Qed.

Ltac quiet_frame := intros; eapply quiet_trans; [eassumption|]; split; done.

Lemma instOf_spec p s i s' :
  instOf p s = Ok (i, s') -> s' = s /\ heap (instMem s) !! p = Some i.
Proof.
  intros Hr. unfold instOf in Hr. run. unfold getInst in *.
  match goal with H : deref ?o = _ |- _ =>
    destruct o as [j|] eqn:Ej; [|done]; injection H as -> end. done.
Qed.

Lemma hasView_lookup s p i : heap (instMem s) !! p = Some i -> hasView (viewOf (instMem s)) p i.
Proof. unfold hasView, viewOf. by intros ->. Qed.

(** Reading an instruction after quiet steps. *)
Lemma instOf_quiet s0 p s i s' :
  quiet s0 s -> instOf p s = Ok (i, s') -> s' = s /\ hasView (viewOf (instMem s0)) p i.
Proof.
  intros Hq Hr. apply instOf_spec in Hr as [-> Hi]. split; [done|].
  unfold hasView. rewrite <- (q_view _ _ Hq). by apply hasView_lookup.
Qed.

Lemma setInst_quiet s0 p i : hasView (viewOf (instMem s0)) p i -> keeps (quiet s0) (setInst p i).
Proof.
  intros Hv s u s' Hs Hr. unfold setInst in Hr. run. eapply quiet_trans; [exact Hs|].
  split; try done. intros q. unfold viewOf. cbn. destruct (decide (q = p)) as [->|Hq].
  - rewrite lookup_insert_eq. cbn. pose proof (q_view _ _ Hs p) as Hp. unfold viewOf in Hp.
    rewrite Hp. unfold hasView, viewOf in Hv. by rewrite Hv.
  - by rewrite lookup_insert_ne.
Qed.

Lemma setStatus_same b v i : b <> Squashed -> sameView i (setStatus b v i).
Proof. intros Hb. split_and!; [done| |done]. unfold isSquashed. cbn. by rewrite fn_lookup_insert_ne. Qed.

Lemma renameSrcReg_same k r i i' : renameSrcReg k r i = Ok i' -> sameView i i'.
Proof. unfold renameSrcReg. intros H. inv_ok. done. Qed.

Lemma markSrcRegReadyIdx_same k i i' : markSrcRegReadyIdx k i = Ok i' -> sameView i i'.
Proof.
  unfold markSrcRegReadyIdx, markSrcRegReady. intros H. inv_ok. case_match; [|done].
  split_and!; [done| |done]. unfold isSquashed. cbn. by rewrite fn_lookup_insert_ne.
Qed.

Lemma renameDestReg_same k a b ps i i' : renameDestReg k a b ps i = Ok i' -> sameView i i'.
Proof.
  unfold renameDestReg, setPinnedRegsRenamed. intros H. inv_ok. case_match; inv_ok; [|done].
  split_and!; [done| |done]. unfold isSquashed. cbn. by rewrite fn_lookup_insert_ne.
Qed.

Lemma sameView_trans i j k : sameView i j -> sameView j k -> sameView i k.
Proof. intros (? & ? & ?) (? & ? & ?). split_and!; congruence. Qed.

Lemma setRegs_quiet tid r s : quiet s (setRegs tid r s).
Proof. done. Qed.

(** ** Renaming an instruction *)

Section Flow.
Context (rf : PhysRegFile) (flatten : RegId -> RegId) (cfg : RenameConfig) (inp : RenameIn)
  (rename_width : Z).

Lemma renameSrcRegs_quiet s0 p tid : keeps (quiet s0) (renameSrcRegs rf flatten p tid).
Proof.
  intros s u s' Hs Hr. unfold renameSrcRegs in Hr. apply bind_ok in Hr as (i0 & s1 & Hi & Hr).
  apply (instOf_quiet s0) in Hi as (-> & _); [|done].
  revert s u s' Hs Hr. apply keeps_forM. intros k s u s' Hs Hr.
  apply bind_ok in Hr as (i & s1 & Hi & Hr). apply (instOf_quiet s0) in Hi as (-> & Hv); [|done].
  run. revert Hr. eapply setInst_quiet; [|done].
  eapply hasView_same; [done|]. eapply sameView_trans; [by eapply renameSrcReg_same|].
  case_match; [by eapply markSrcRegReadyIdx_same|]. by inv_ok.
Qed.

Lemma renameDestRegs_quiet s0 p tid : keeps (quiet s0) (renameDestRegs rf flatten p tid).
Proof.
  intros s u s' Hs Hr. unfold renameDestRegs in Hr. apply bind_ok in Hr as (i0 & s1 & Hi & Hr).
  apply (instOf_quiet s0) in Hi as (-> & _); [|done].
  revert s u s' Hs Hr. apply keeps_forM. intros k s u s' Hs Hr.
  apply bind_ok in Hr as (i & s1 & Hi & Hr). apply (instOf_quiet s0) in Hi as (-> & Hv); [|done].
  apply bind_ok in Hr as (d & s1 & Hd & Hr). apply lift_ok in Hd as [Hd ->].
  apply bind_ok in Hr as (s1 & s2 & Hg & Hr). injection Hg as <- <-.
  apply bind_ok in Hr as ([info r] & s1 & Hrn & Hr). apply lift_ok in Hrn as [_ ->].
  run. revert Hr. eapply setInst_quiet.
  - eapply hasView_same; [done|]. eapply sameView_trans; [|by eapply renameDestReg_same]. done.
  - eapply quiet_trans; [exact Hs|]. split; done.
Qed.

Lemma countMemInst_quiet s0 tid i : keeps (quiet s0) (countMemInst tid i).
Proof. unfold countMemInst. repeat case_match; try apply keeps_ret; apply keeps_modify; quiet_frame. Qed.

Lemma setSerializeBefore_quiet s0 p : keeps (quiet s0) (setSerializeBefore p).
Proof.
  intros s u s' Hs Hr. unfold setSerializeBefore in Hr. apply bind_ok in Hr as (i & s1 & Hi & Hr).
  apply (instOf_quiet s0) in Hi as (-> & Hv); [|done].
  revert Hs Hr. apply setInst_quiet. eapply hasView_same; [done|]. by apply setStatus_same.
Qed.

Lemma serializeAfter_quiet s0 skid tid : keeps (quiet s0) (serializeAfter skid tid).
Proof.
  intros s u s' Hs Hr. unfold serializeAfter in Hr. run_step. run_step.
  case_match; [|by eapply setSerializeBefore_quiet]. run. revert Hs. quiet_frame.
Qed.

(** [renameOne] up to handing the instruction on. *)
Lemma renameOne_spec p tid s u s' :
  renameOne rf flatten p tid s = Ok (u, s') ->
  exists s1, quiet s s1 /\ sendToIEW p s1 = Ok (u, s').
Proof.
  intros Hr. unfold renameOne in Hr. apply bind_ok in Hr as (i & s0 & Hi & Hr).
  apply instOf_spec in Hi as [-> _].
  apply bind_ok in Hr as (u1 & s1 & H1 & Hr). apply (renameSrcRegs_quiet s) in H1; [|done].
  apply bind_ok in Hr as (u2 & s2 & H2 & Hr). eapply renameDestRegs_quiet in H2; [|done].
  apply bind_ok in Hr as (u3 & s3 & H3 & Hr). eapply countMemInst_quiet in H3; [|done].
  eauto.
Qed.

Context (V : view) (L : ThreadID -> list InstPtr).

(** An instruction in hand is sent. *)
Lemma sendToIEW_flow p tid :
  ofThread V tid p ->
  triple (flow V L (<[tid := [p]]> none)) (sendToIEW p) (fun _ => flow V L none).
Proof.
  intros Hp s u s' [Hv Hth Hse Hre Hl] Hr. unfold sendToIEW in Hr. run.
  split; try done. intros t. specialize (Hl t). rewrite <- Hl. clear Hl.
  pose (s1 := s <| toIEW := toIEW s ++ [p] |>).
  assert (Hf : sent V t s1 = sent V t s ++ (if decide (t = tid) then [p] else [])).
  { unfold sent, s1. cbn [toIEW upd_field]. rewrite list_basics.list.filter_app. f_equal.
    case_decide as Ht; [subst t; by apply filter_all; intros x ->%list_elem_of_singleton|].
    apply filter_none. intros x ->%list_elem_of_singleton. unfold ofThread in *. congruence. }
  change (filter (live V) (sent V t s1 ++ pend t s) =
          filter (live V) (sent V t s ++ <[tid := [p]]> none t ++ pend t s)).
  rewrite Hf, <- app_assoc. do 2 f_equal. case_decide as Ht.
  - subst t. by rewrite fn_lookup_insert.
  - by rewrite fn_lookup_insert_ne.
Qed.

(** ** The loop *)

Record loopInv (skid : bool) (tid : ThreadID) (s : Rename) : Prop := {
  li_flow : flow V L none s;
  li_skidOK : skidOK s;
  li_serial : serializeInst s tid = None;
  li_skid : skid = false -> skidBuffer s tid = []
}.

(** The instruction at the front of the queue is the oldest waiting one. *)
Lemma pend_front skid tid s p q :
  serializeInst s tid = None -> (skid = false -> skidBuffer s tid = []) ->
  queueOf skid tid s = p :: q ->
  pend tid s = p :: pend tid (setQueue skid tid q s).
Proof.
  intros Hs Hk Hq. unfold pend, queueOf, setQueue in *. rewrite Hs. destruct skid; cbn.
  - by rewrite Hq, Hs, fn_lookup_insert.
  - rewrite (Hk eq_refl), Hs. cbn. by rewrite Hq, fn_lookup_insert.
Qed.

Lemma pend_other skid tid s q t : t <> tid -> pend t (setQueue skid tid q s) = pend t s.
Proof. intros Ht. unfold pend, setQueue. destruct skid; cbn; by rewrite fn_lookup_insert_ne. Qed.

(** Taking the front instruction in hand. *)
Lemma take_front skid tid s p q :
  loopInv skid tid s -> queueOf skid tid s = p :: q ->
  flow V L (<[tid := [p]]> none) (setQueue skid tid q s) /\ skidOK (setQueue skid tid q s) /\
  ofThread V tid p.
Proof.
  intros [[Hv Hth Hse Hre Hl] Hok Hs Hk] Hq. pose proof (pend_front _ _ _ _ _ Hs Hk Hq) as Hp.
  split_and!.
  - split.
    + by destruct skid.
    + intros t x Hx. apply Hth. destruct (decide (t = tid)) as [->|Ht].
      * rewrite Hp. by right.
      * by rewrite pend_other in Hx.
    + by destruct skid.
    + by destruct skid.
    + intros t. rewrite <- Hl. replace (sent V t (setQueue skid tid q s)) with (sent V t s)
        by (by destruct skid).
      do 2 f_equal. destruct (decide (t = tid)) as [->|Ht].
      * by rewrite fn_lookup_insert, Hp.
      * by rewrite fn_lookup_insert_ne, pend_other.
  - intros t Hst. destruct skid; [|by apply Hok]. cbn in *.
    destruct (decide (t = tid)) as [->|Ht]; [|rewrite fn_lookup_insert_ne by done; auto].
    rewrite (Hok tid Hst) in Hq. done.
  - apply Hth. rewrite Hp. left.
Qed.

Lemma drop_squashed tid p s :
  flow V L (<[tid := [p]]> none) s -> ~ live V p -> flow V L none s.
Proof.
  intros [Hv Hth Hse Hre Hl] Hd. split; try done. intros t. rewrite <- Hl.
  rewrite !list_basics.list.filter_app. f_equal. f_equal.
  destruct (decide (t = tid)) as [->|Ht].
  - rewrite fn_lookup_insert. symmetry. apply filter_none. by intros x ->%list_elem_of_singleton.
  - by rewrite fn_lookup_insert_ne.
Qed.

(** The loop has sent [l]. *)
Record loopSent (tid : ThreadID) (s s' : Rename) (l : list InstPtr) : Prop := {
  ls_toIEW : toIEW s' = toIEW s ++ l;
  ls_index : toIEWIndex s' = toIEWIndex s + Z.of_nat (length l);
  ls_width : l = [] \/ toIEWIndex s' <= rename_width;
  ls_stalled : forall t, stalled (renameStatus s t) -> stalled (renameStatus s' t);
  ls_thread : Forall (ofThread V tid) l
}.

Definition widthOK (s : Rename) : Prop :=
  0 <= toIEWIndex s <= rename_width /\ toIEWIndex s = Z.of_nat (length (toIEW s)).

Lemma loopSent_nil tid s s' :
  toIEW s' = toIEW s -> toIEWIndex s' = toIEWIndex s ->
  (forall t, stalled (renameStatus s t) -> stalled (renameStatus s' t)) -> loopSent tid s s' [].
Proof. intros E1 E2 E3. split; [by rewrite app_nil_r|cbn; lia|by left|done|done]. Qed.

(** The serializing instruction in hand becomes the one the thread stalls on. *)
Lemma hold_serial tid p s :
  flow V L (<[tid := [p]]> none) s -> serializeInst s tid = None -> ofThread V tid p ->
  flow V L none (s <| renameStatus := <[tid := SerializeStall]> (renameStatus s) |>
                   <| serializeInst := <[tid := Some p]> (serializeInst s) |>
                   <| blockThisCycle := true |>).
Proof.
  intros [Hv Hth Hse Hre Hl] Hs Hp. split; try done.
  - intros t x. unfold pend. cbn. destruct (decide (t = tid)) as [->|Ht].
    + rewrite fn_lookup_insert. cbn. intros [->|Hx]%elem_of_cons; [done|]. apply Hth.
      unfold pend. by rewrite Hs.
    + rewrite fn_lookup_insert_ne by done. apply Hth.
  - intros t. cbn. destruct (decide (t = tid)) as [->|Ht].
    + by rewrite !fn_lookup_insert.
    + rewrite !fn_lookup_insert_ne by done. apply Hse.
  - intros t. rewrite <- Hl. unfold sent, pend, none. cbn. f_equal. f_equal.
    destruct (decide (t = tid)) as [->|Ht].
    + by rewrite !fn_lookup_insert, Hs.
    + by rewrite !fn_lookup_insert_ne.
Qed.

Lemma sendToIEW_spec p s u s' :
  sendToIEW p s = Ok (u, s') ->
  toIEWIndex s < MaxWidth /\
  s' = s <| toIEW := toIEW s ++ [p] |> <| toIEWIndex := u32 (toIEWIndex s + 1) |>.
Proof.
  unfold sendToIEW. intros H. run. case_match eqn:E; [|done]. by apply Z.ltb_lt in E.
Qed.

(** Sending the front instruction, after the quiet steps of renaming it. *)
Lemma loop_send skid tid s p q s1 s2 u :
  loopInv skid tid s -> 0 <= toIEWIndex s -> queueOf skid tid s = p :: q ->
  quiet (setQueue skid tid q s) s1 -> sendToIEW p s1 = Ok (u, s2) ->
  loopInv skid tid s2 /\ toIEW s2 = toIEW s ++ [p] /\ toIEWIndex s2 = toIEWIndex s + 1 /\
  renameStatus s2 = renameStatus s.
Proof.
  intros Hinv Hpos Hq Hquiet Hsend.
  destruct (take_front _ _ _ _ _ Hinv Hq) as (Hfl & Hok & Hp).
  pose proof (quiet_flow _ _ _ _ _ Hquiet Hfl) as Hfl1.
  pose proof (sendToIEW_flow p tid Hp s1 u s2 Hfl1 Hsend) as Hfl2.
  pose proof (quiet_skidOK _ _ Hquiet Hok) as Hok1.
  apply sendToIEW_spec in Hsend as [Hlt ->]. unfold MaxWidth in Hlt.
  destruct Hinv as [_ _ Hs Hk]. destruct Hquiet as [_ A2 A3 A4 _ [A7 A8] _].
  assert (E : toIEWIndex (setQueue skid tid q s) = toIEWIndex s /\
              toIEW (setQueue skid tid q s) = toIEW s /\
              serializeInst (setQueue skid tid q s) = serializeInst s /\
              renameStatus (setQueue skid tid q s) = renameStatus s) by (by destruct skid).
  destruct E as (E1 & E2 & E3 & E4). rewrite E4 in A4. rewrite E1 in A8. rewrite E2 in A7. rewrite E3 in A3.
  split; [split; try done|].
  - cbn. by rewrite A3.
  - cbn. rewrite A2. intros ->. cbn. auto.
  - cbn. rewrite A7, A8. split; [done|]. split; [|done]. apply u32_small. unfold in_u32.
    rewrite A8 in Hlt. lia.
Qed.
(** Returning without having taken the front instruction. *)
Lemma loop_stop skid tid s n k :
  loopInv skid tid s ->
  exists l, loopSent tid s s l /\ flow V L none s /\ skidOK s /\
    (S n + length l <= S n)%nat /\ k = k + Z.of_nat (length l).
Proof.
  intros [H1 H2 _ _]. exists []. split; [by apply loopSent_nil|]. cbn. split_and!; [done..|lia|lia].
Qed.

Lemma setQueue_back skid tid s p q :
  queueOf skid tid s = p :: q ->
  let s1 := setQueue skid tid q s in
  let s2 := setQueue skid tid (p :: queueOf skid tid s1) (s1 <| blockThisCycle := true |>) in
  (forall t, pend t s2 = pend t s) /\ (forall t, skidBuffer s2 t = skidBuffer s t) /\
  serializeInst s2 = serializeInst s /\ renameStatus s2 = renameStatus s /\
  toIEW s2 = toIEW s /\ toIEWIndex s2 = toIEWIndex s /\ instMem s2 = instMem s /\
  resumeSerialize s2 = resumeSerialize s /\ resumeUnblocking s2 = resumeUnblocking s.
Proof.
  intros Hq s1 s2.
  assert (Hsk : forall t, skidBuffer s2 t = skidBuffer s t /\ insts s2 t = insts s t).
  { intros t. subst s1 s2. unfold queueOf, setQueue in *. destruct skid; cbn in *;
      (destruct (decide (t = tid)) as [->|Ht];
       [rewrite !fn_lookup_insert; split; congruence|by rewrite !fn_lookup_insert_ne]). }
  assert (He : serializeInst s2 = serializeInst s) by (by subst s1 s2; destruct skid).
  split_and!; try (by subst s1 s2; destruct skid).
  - intros t. unfold pend. destruct (Hsk t) as [-> ->]. by rewrite He.
  - intros t. by destruct (Hsk t).
Qed.

Lemma renameLoop_spec skid tid n k s a s' :
  loopInv skid tid s -> 0 <= toIEWIndex s ->
  renameLoop rf flatten inp rename_width skid tid n k s = Ok (a, s') ->
  exists l, loopSent tid s s' l /\ flow V L none s' /\ skidOK s' /\
    (a.1 + length l <= n)%nat /\ a.2 = k + Z.of_nat (length l).
Proof.
  revert k s. induction n as [|n IH]; intros k s Hinv Hpos Hr; cbn [renameLoop] in Hr.
  { run. exists []. split; [by apply loopSent_nil|]. destruct Hinv. cbn. split_and!; [done..|lia|lia]. }
  apply bind_ok in Hr as (w & s0 & Hw & Hr). injection Hw as <- <-.
  destruct (toIEWIndex s <? rename_width) eqn:Ew; cbn [negb] in Hr; [|run; by apply (loop_stop skid tid)].
  apply Z.ltb_lt in Ew.
  apply bind_ok in Hr as (s0 & s1 & Hg & Hr). injection Hg as <- <-.
  destruct (queueOf skid tid s) as [|p q] eqn:Hq; [run|].
  apply bind_ok in Hr as (i & s1 & Hi & Hr). apply instOf_spec in Hi as [-> Hi].
  destruct (isLoad i && _); [run; by apply (loop_stop skid tid)|].
  destruct ((isStore i || isAtomic i) && _); [run; by apply (loop_stop skid tid)|].
  destruct (take_front _ _ _ _ _ Hinv Hq) as (Hfl & Hok & Hp).
  pose proof Hinv as [_ _ Hs Hk].
  assert (Hv : hasView V p i).
  { unfold hasView. rewrite <- (fl_view _ _ _ _ (li_flow _ _ _ Hinv)). by apply hasView_lookup. }
  apply bind_ok in Hr as (u & s1 & Hm & Hr). injection Hm as <- <-.
  assert (Eq : toIEW (setQueue skid tid q s) = toIEW s /\
               toIEWIndex (setQueue skid tid q s) = toIEWIndex s /\
               serializeInst (setQueue skid tid q s) = serializeInst s /\
               instMem (setQueue skid tid q s) = instMem s /\
               renameStatus (setQueue skid tid q s) = renameStatus s /\
               (skid = false -> skidBuffer (setQueue skid tid q s) tid = []))
    by (destruct skid; cbn; split_and!; (done || auto)).
  destruct Eq as (Eq1 & Eq2 & Eq3 & Eq4 & Eq6 & Eq5).
  destruct (isSquashed i) eqn:Esq.
  { assert (Hd : ~ live V p) by (unfold live; rewrite Hv; cbn; rewrite Esq; tauto).
    apply IH in Hr as (l & [Hl1 Hl2 Hl3 Hl4 Hl5] & Hf & Ho & Hn & Hkk); [|split; try done|by rewrite Eq2].
    - exists l. rewrite Eq6 in Hl4. split; [split; [congruence|congruence|done|done|done]|]. split_and!; try done. lia.
    - by eapply drop_squashed.
    - congruence. }
  destruct (negb (canRename _ _)).
  { run. cbv beta. destruct (setQueue_back skid tid s p q Hq) as (B1 & B2 & B3 & B4 & B5 & B6 & B7 & B8 & B9).
    eexists []. split.
    { apply loopSent_nil; try done. intros t Hx.
      exact (eq_ind_r stalled Hx (f_equal (fun f => f t) B4)). }
    split_and!; [| |cbn; lia|cbn; lia].
    - eapply flow_ext; [exact B1|exact B3| |exact B8|exact B9|exact B5| |by destruct Hinv].
      + intros t _ Hst. rewrite <- Hst. exact (f_equal (fun f => f t) B4).
      + intros x. exact (f_equal (fun m => viewOf m x) B7).
    - intros t Hst. etrans; [exact (B2 t)|]. apply (li_skidOK _ _ _ Hinv). intros Hx.
      apply Hst. exact (eq_ind_r stalled Hx (f_equal (fun f => f t) B4)). }
  destruct (isSerializeBefore i && _).
  { apply bind_ok in Hr as (u & s1 & H1 & Hr).
    assert (Hq1 : quiet (setQueue skid tid q s) s1).
    { destruct (status i SerializeBefore); [by run|].
      eapply (setInst_quiet (setQueue skid tid q s)); [|apply quiet_refl|exact H1].
      eapply hasView_same; [|by apply setStatus_same]. rewrite Eq4. by apply hasView_lookup. }
    pose proof (quiet_flow _ _ _ _ _ Hq1 Hfl) as Hfl1.
    pose proof (quiet_skidOK _ _ Hq1 Hok) as Hok1.
    destruct Hq1 as [_ A2 A3 A4 _ [A7 A8] _]. unfold setThreadStatus in Hr. run.
    exists []. split.
    { apply loopSent_nil; cbn; [congruence|congruence|]. intros t.
      destruct (decide (t = tid)) as [->|Ht].
      - rewrite fn_lookup_insert. unfold stalled. auto.
      - by rewrite fn_lookup_insert_ne, A4, Eq6. }
    split; [|split; [|cbn; split; lia]].
    - apply hold_serial; [done|congruence|done].
    - intros t. cbn. destruct (decide (t = tid)) as [->|Ht].
      + rewrite fn_lookup_insert. intros Hx. exfalso. apply Hx. unfold stalled. auto.
      + rewrite fn_lookup_insert_ne by done. apply Hok1. }
  apply bind_ok in Hr as (u & s1 & H1 & Hr).
  assert (Hq1 : quiet (setQueue skid tid q s) s1).
  { unfold when in H1. case_match; [|by run]. apply bind_ok in H1 as (u1 & s2 & H2 & H1).
    eapply (setInst_quiet (setQueue skid tid q s)) in H2; [|..|apply quiet_refl].
    - by eapply serializeAfter_quiet in H1.
    - eapply hasView_same; [|by apply setStatus_same]. rewrite Eq4. by apply hasView_lookup. }
  apply bind_ok in Hr as (u2 & s2 & H2 & Hr).
  apply renameOne_spec in H2 as (s3 & Hq2 & Hsend).
  destruct (loop_send skid tid s p q s3 s2 u2 Hinv Hpos Hq) as (Hinv2 & E1 & E2 & E3); [|done|].
  { by eapply quiet_trans. }
  apply IH in Hr as (l & [Hl1 Hl2 Hl3 Hl4 Hl5] & Hf & Ho & Hn & Hkk); [|done|lia].
  exists (p :: l). split; [split|].
  - rewrite Hl1, E1, <- app_assoc. done.
  - cbn [length]. lia.
  - right. destruct Hl3 as [->|Hl3]; [|done]. cbn in Hl2. lia.
  - by rewrite E3 in Hl4.
  - by constructor.
  - split_and!; try done; cbn [length]; lia.
Qed.

(** ** The stage's functions *)

Record stageInv (s : Rename) : Prop := {
  si_flow : flow V L none s;
  si_skid : skidOK s;
  si_width : widthOK s
}.

Lemma quiet_stageInv s s' : quiet s s' -> stageInv s -> stageInv s'.
Proof.
  intros Hq [H1 H2 H3]. split; [by eapply quiet_flow|by eapply quiet_skidOK|].
  destruct Hq as [_ _ _ _ _ [E1 E2] _]. unfold widthOK. by rewrite E1, E2.
Qed.

Lemma quiet_keeps {A} (m : M Rename A) : (forall s0, keeps (quiet s0) m) -> keeps stageInv m.
Proof. intros Hm s a s' Hs Hr. eapply quiet_stageInv; [|done]. by eapply (Hm s). Qed.

Lemma block_stageInv tid : keeps stageInv (block cfg tid).
Proof.
  intros s b s' [H1 H2 H3] Hr. split; [by eapply block_flow|by eapply block_skidOK|].
  apply block_spec in Hr as (_ & _ & _ & _ & _ & _ & E1 & E2 & _). unfold widthOK. by rewrite E1, E2.
Qed.

Lemma unblock_stageInv tid : keeps stageInv (unblock tid).
Proof.
  intros s b s' [H1 H2 H3] Hr. split; [by eapply unblock_flow|by eapply unblock_skidOK|].
  apply unblock_spec in Hr as (_ & _ & _ & _ & _ & E1 & E2 & _). unfold widthOK. by rewrite E1, E2.
Qed.

Lemma skidInsert_stageInv tid :
  keeps (fun s => stageInv s /\ stalled (renameStatus s tid)) (skidInsert cfg tid).
Proof.
  intros s u s' [[H1 H2 H3] Hst] Hr. split; [split|].
  - by eapply skidInsert_flow.
  - apply skidInsert_spec in Hr as (f & g & -> & _ & _ & Ho). intros t Ht. cbn in *.
    destruct (decide (t = tid)) as [->|Hne]; [done|]. destruct (Ho t Hne) as [-> _]. auto.
  - by apply skidInsert_spec in Hr as (f & g & -> & _).
  - by apply skidInsert_spec in Hr as (f & g & -> & _).
Qed.

Lemma setRenameUnblock_quiet s0 tid b : keeps (quiet s0) (setRenameUnblock tid b).
Proof. apply keeps_modify. quiet_frame. Qed.

Lemma serializeNext_quiet s0 skid tid : keeps (quiet s0) (serializeNext skid tid).
Proof.
  intros s u s' Hs Hr. unfold serializeNext in Hr. run_step. run_step.
  repeat case_match; run; try done; [|by eapply setSerializeBefore_quiet].
  revert Hs. quiet_frame.
Qed.

(** What the beginning of [renameInsts] grants. *)
Lemma availableInsts_spec skid tid s o s' :
  stageInv s -> availableInsts cfg inp skid tid s = Ok (o, s') ->
  stageInv s' /\
  (forall t, stalled (renameStatus s t) -> stalled (renameStatus s' t)) /\ toIEW s' = toIEW s /\
  (forall n, o = Some n -> quiet s s' /\
     Z.of_nat n <= calcFreeROBEntries inp tid s /\ Z.of_nat n <= calcFreeIQEntries inp tid s).
Proof.
  intros Hinv Hr. unfold availableInsts in Hr. run_step. run_step.
  case_match eqn:E1; [by run|]. case_match eqn:E2.
  - apply bind_ok in Hr as (u & s1 & H1 & Hr). injection H1 as <- <-.
    apply bind_ok in Hr as (b & s1 & Hb & Hr). run.
    assert (Hinv1 : stageInv (s <| blockThisCycle := true |>))
      by (by apply (quiet_stageInv s)).
    split; [by eapply block_stageInv|].
    apply block_spec in Hb as (_ & _ & Et & Eo & _ & _ & Ei & _). split_and!; [|exact Ei|done].
    intros t Ht. destruct (decide (t = tid)) as [->|Hne].
    + rewrite Et. unfold stalled. case_decide; auto.
    + destruct (Eo t Hne) as [E _]. by rewrite E.
  - apply Z.leb_gt in E2. case_match eqn:E3; run; bool_to_prop;
      (split; [by apply (quiet_stageInv s)|]; split; [done|]; split; [done|];
       intros n [= <-]; split; [done|lia]).
Qed.

Lemma renameInsts_spec tid s u s' :
  stageInv s -> (renameStatus s tid = Running \/ renameStatus s tid = Idle \/
                 renameStatus s tid = Unblocking) ->
  renameInsts rf flatten cfg inp rename_width tid s = Ok (u, s') ->
  stageInv s' /\ (forall t, stalled (renameStatus s t) -> stalled (renameStatus s' t)) /\
  exists l, toIEW s' = toIEW s ++ l /\ Forall (ofThread V tid) l /\
    (l = [] \/ Z.of_nat (length l) <= calcFreeROBEntries inp tid s /\
               Z.of_nat (length l) <= calcFreeIQEntries inp tid s).
Proof.
  intros Hinv Hst Hr. unfold renameInsts in Hr.
  apply bind_ok in Hr as (skid & s0 & Hg & Hr). injection Hg as Hskid <-.
  apply bind_ok in Hr as (o & s1 & Ha & Hr).
  apply availableInsts_spec in Ha as (Hinv1 & Hst1 & Ei1 & Ho); [|done].
  destruct o as [n|]; [|run; split_and!; try done; exists []; rewrite app_nil_r; split_and!; auto].
  destruct (Ho n eq_refl) as (Hq1 & Hn1 & Hn2). clear Ho.
  apply bind_ok in Hr as (u2 & s2 & H2 & Hr). eapply (serializeNext_quiet s) in H2; [|done].
  apply bind_ok in Hr as ([rem k] & s3 & H3 & Hr).
  pose proof (quiet_stageInv _ _ H2 Hinv) as Hinv2.
  assert (Hli : loopInv skid tid s2).
  { destruct Hinv2 as [F O _]. pose proof (q_status _ _ H2) as Est. split; [done|done| |].
    - destruct (serializeInst s2 tid) as [x|] eqn:Ex; [|done].
      pose proof (fl_serial _ _ _ _ F tid (ex_intro _ x Ex)) as Hx. rewrite Est in Hx.
      rewrite Hx in Hst. naive_solver.
    - intros ->. apply O. rewrite Est. apply bool_decide_eq_false in Hskid.
      unfold stalled. destruct Hst as [->|[->|Hst]]; naive_solver. }
  apply renameLoop_spec in H3 as (l & [L1 L2 L3 L4 L5] & F3 & O3 & Hrem & _);
    [|done|by destruct Hinv2 as [_ _ [? _]]; lia].
  assert (Hinv3 : stageInv s3).
  { split; [done|done|]. destruct Hinv2 as [_ _ [W1 W2]]. unfold widthOK.
    rewrite L1, length_app, L2. destruct L3 as [->|L3]; [cbn; lia|lia]. }
  assert (Hst3 : forall t, stalled (renameStatus s t) -> stalled (renameStatus s3 t)).
  { intros t Ht. apply L4. by rewrite (q_status _ _ H2). }
  assert (Hl : toIEW s3 = toIEW s ++ l) by (rewrite L1; f_equal; apply H2).
  assert (Hcount : Z.of_nat (length l) <= calcFreeROBEntries inp tid s /\
                   Z.of_nat (length l) <= calcFreeIQEntries inp tid s) by (cbn in Hrem; lia).
  apply bind_ok in Hr as (u4 & s4 & H4 & Hr). injection H4 as <- <-.
  apply bind_ok in Hr as (k5 & s5 & H5 & Hr). injection H5 as <- <-.
  apply bind_ok in Hr as (u6 & s6 & H6 & Hr).
  apply bind_ok in Hr as (u7 & s7 & H7 & Hr).
  apply bind_ok in Hr as (b & s8 & H8 & Hr). injection H8 as <- <-.
  assert (Hq7 : quiet s3 s7).
  { unfold when in H6, H7. repeat case_match; run; done. }
  pose proof (quiet_stageInv _ _ Hq7 Hinv3) as Hinv7.
  assert (Hst7 : forall t, stalled (renameStatus s t) -> stalled (renameStatus s7 t)).
  { intros t Ht. rewrite (q_status _ _ Hq7). auto. }
  assert (Hl7 : toIEW s7 = toIEW s ++ l) by (destruct (q_toIEW _ _ Hq7); congruence).
  unfold when in Hr. destruct (blockThisCycle s7); [|run; eauto 10].
  apply bind_ok in Hr as (bb & s8 & H8 & Hr).
  pose proof (block_stageInv tid _ _ _ Hinv7 H8) as Hinv8.
  apply block_spec in H8 as (_ & _ & Et & Eo & _ & _ & Ei & _).
  apply (setRenameUnblock_quiet s8) in Hr; [|done].
  split; [by eapply quiet_stageInv|]. split.
  - intros t Ht. rewrite (q_status _ _ Hr). destruct (decide (t = tid)) as [->|Hne].
    + rewrite Et. unfold stalled. case_decide; auto.
    + destruct (Eo t Hne) as [-> _]. auto.
  - exists l. destruct (q_toIEW _ _ Hr) as [-> _]. rewrite Ei. auto.
Qed.

Lemma setStatus_stageInv tid st s :
  (st = Blocked \/ st = Unblocking \/ st = SerializeStall \/ skidBuffer s tid = []) ->
  (st = SerializeStall \/ serializeInst s tid = None) ->
  stageInv s -> stageInv (s <| renameStatus := <[tid := st]> (renameStatus s) |>).
Proof.
  intros Hsk Hse [F O W]. split; [|intros t; cbn|done].
  - by eapply (setThreadStatus_flow V L none tid st s tt).
  - destruct (decide (t = tid)) as [->|Hne].
    + rewrite fn_lookup_insert. unfold stalled. intros Hx. naive_solver.
    + rewrite fn_lookup_insert_ne by done. apply O.
Qed.

(** Outside a serialising stall no instruction is held. *)
Lemma serial_none s tid : stageInv s -> renameStatus s tid <> SerializeStall ->
  serializeInst s tid = None.
Proof.
  intros [F _ _] Hst. destruct (serializeInst s tid) eqn:E; [|done].
  destruct Hst. by eapply fl_serial.
Qed.

(** The end of a serialising stall puts the instruction back at the front. *)
Lemma resume_serial_stageInv tid s b s' p m :
  stageInv s -> renameStatus s tid = SerializeStall -> serializeInst s tid = Some p ->
  unblock tid (s <| renameStatus := <[tid := Unblocking]> (renameStatus s) |>) = Ok (b, s') ->
  (forall q, viewOf m q = viewOf (instMem s) q) ->
  forall f g, (f = <[tid := p :: skidBuffer s tid]> (skidBuffer s) /\ g = insts s /\
               skidBuffer s tid <> []) \/
              (f = skidBuffer s /\ g = <[tid := p :: insts s tid]> (insts s) /\
               skidBuffer s tid = []) ->
  stageInv (s' <| instMem := m |> <| skidBuffer := f |> <| insts := g |>
               <| serializeInst := <[tid := None]> (serializeInst s') |>).
Proof.
  intros [F O W] Hst Hp Hr Hm f g Hfg.
  apply unblock_spec in Hr as (E1 & E2 & E3 & E4 & E5 & E6 & E7 & E8 & E9 & E10).
  cbn in *. rewrite fn_lookup_insert in E10.
  assert (Hpend : forall t, option_list (<[tid := None]> (serializeInst s') t) ++ f t ++ g t
                            = pend t s).
  { intros t. unfold pend. rewrite E3. destruct (decide (t = tid)) as [->|Hne].
    - rewrite fn_lookup_insert, Hp. cbn.
      destruct Hfg as [(-> & -> & _)|(-> & -> & ->)]; by rewrite fn_lookup_insert.
    - rewrite fn_lookup_insert_ne by done.
      destruct Hfg as [(-> & -> & _)|(-> & -> & _)]; by rewrite ?fn_lookup_insert_ne. }
  split.
  - destruct F as [Fv Ft Fs [Fr1 Fr2] Fl]. split; cbn.
    + intros q. rewrite Hm. apply Fv.
    + intros t q. unfold pend at 1. cbn. rewrite Hpend. apply Ft.
    + intros t. rewrite E3. destruct (decide (t = tid)) as [->|Hne].
      * rewrite fn_lookup_insert. by intros [? ?].
      * rewrite fn_lookup_insert_ne, E9, fn_lookup_insert_ne by done. apply Fs.
    + by rewrite E4, E5.
    + intros t. unfold sent, pend. cbn. rewrite E6. rewrite Hpend. apply Fl.
  - intros t. cbn. destruct (decide (t = tid)) as [->|Hne].
    + intros Hx. destruct Hfg as [(_ & _ & Hsk)|(-> & _ & ->)]; [|done].
      exfalso. apply Hx. destruct E10 as [->|(_ & Hs & _)]; unfold stalled; [auto|done].
    + rewrite E9, fn_lookup_insert_ne by done. intros Hx.
      destruct Hfg as [(-> & _)|(-> & _)]; rewrite ?fn_lookup_insert_ne by done; auto.
  - unfold widthOK. cbn. by rewrite E6, E7.
Qed.

Lemma readFreeEntries_quiet s0 tid : keeps (quiet s0) (readFreeEntries inp tid).
Proof. unfold readFreeEntries. keeps_auto; quiet_frame. Qed.

Lemma readStallSignals_quiet s0 tid : keeps (quiet s0) (readStallSignals inp tid).
Proof. unfold readStallSignals. keeps_auto; try quiet_frame. Qed.

Lemma resumeSerial_stageInv tid s s' :
  stageInv s -> renameStatus s tid = SerializeStall ->
  (o ← gets (fun s => serializeInst s tid);
   _ ← setThreadStatus tid Unblocking;
   _ ← unblock tid;
   p ← lift (deref o);
   i ← instOf p;
   _ ← setInst p (setStatus SerializeBefore false i);
   sk ← gets (fun s => skidBuffer s tid);
   _ ← (if decide (sk <> [])
        then modify (fun s => s <| skidBuffer := <[tid := p :: skidBuffer s tid]> (skidBuffer s) |>)
        else modify (fun s => s <| insts := <[tid := p :: insts s tid]> (insts s) |>));
   _ ← modify (fun s => s <| serializeInst := <[tid := None]> (serializeInst s) |>);
   mret true) s = Ok (true, s') -> stageInv s'.
Proof.
  intros Hinv Hst Hr. apply bind_ok in Hr as (o & s0 & H0 & Hr). injection H0 as <- <-.
  apply bind_ok in Hr as (u1 & s1 & H1 & Hr). injection H1 as <- <-.
  apply bind_ok in Hr as (b2 & s2 & H2 & Hr).
  apply bind_ok in Hr as (p & s3 & H3 & Hr). apply lift_ok in H3 as [H3 ->].
  destruct (serializeInst s tid) as [p'|] eqn:Ep; [|done]. injection H3 as ->.
  apply bind_ok in Hr as (i & s3 & H3 & Hr). apply instOf_spec in H3 as [-> Hi].
  apply bind_ok in Hr as (u4 & s4 & H4 & Hr).
  apply (setInst_quiet s2) in H4 as Hq; [|eapply hasView_same;
    [by apply hasView_lookup|by apply setStatus_same]|done].
  unfold setInst in H4. apply bind_ok in Hr as (sk & s5 & H5 & Hr). injection H5 as <- <-.
  apply bind_ok in Hr as (u6 & s6 & H6 & Hr). apply bind_ok in Hr as (u7 & s7 & H7 & Hr).
  injection H7 as <- <-. injection Hr as <-.
  pose proof (unblock_spec _ _ _ _ H2) as (E1 & E2 & _ & _ & _ & _ & _ & E8 & _). cbn in E1, E2, E8.
  pose proof (q_view _ _ Hq) as Hv. rewrite E8 in Hv.
  pose proof (resume_serial_stageInv tid s b2 s2 p _ Hinv Hst Ep H2 Hv) as Hres.
  injection H4 as <- <-. clear - E1 E2 Hres H6. destruct s2; cbn in *; subst.
  case_decide as Hsk; injection H6 as <- <-; cbn; apply Hres; [by left|by right].
Qed.

Lemma checkSignalsAndUpdate_stageInv tid :
  commit_squash (fromCommit inp tid) = false ->
  keeps stageInv (checkSignalsAndUpdate rf cfg inp tid).
Proof.
  intros Hc s b s' Hinv Hr. unfold checkSignalsAndUpdate in Hr. rewrite Hc in Hr.
  apply bind_ok in Hr as (u1 & s1 & H1 & Hr). eapply (readFreeEntries_quiet s) in H1; [|done].
  apply bind_ok in Hr as (u2 & s2 & H2 & Hr). eapply (readStallSignals_quiet s) in H2; [|done].
  pose proof (quiet_stageInv _ _ H2 Hinv) as Hinv2. clear s s1 H1 H2 Hinv.
  apply bind_ok in Hr as (st & s3 & H3 & Hr). injection H3 as <- <-.
  case_match; [by eapply block_stageInv|].
  apply bind_ok in Hr as (st & s3 & H3 & Hr). injection H3 as <- <-.
  case_decide as Hb; [|case_decide as Hq; [|case_decide as Hs; [|by run]]].
  - apply bind_ok in Hr as (u4 & s4 & H4 & Hr). injection H4 as <- <-.
    apply bind_ok in Hr as (b5 & s5 & H5 & Hr). injection Hr as <- <-.
    eapply unblock_stageInv; [|exact H5]. apply setStatus_stageInv; auto.
    right. apply serial_none; [done|]. by rewrite Hb.
  - apply bind_ok in Hr as (rs & s4 & H4 & Hr). injection H4 as <- <-.
    apply bind_ok in Hr as (ru & s4 & H4 & Hr). injection H4 as <- <-.
    destruct (fl_resume _ _ _ _ (si_flow _ Hinv2)) as [R1 R2].
    rewrite R1, R2 in Hr.
    apply bind_ok in Hr as (u4 & s4 & H4 & Hr). injection H4 as <- <-. injection Hr as <- <-.
    apply setStatus_stageInv; [| |done].
    + do 3 right. apply (si_skid _ Hinv2). rewrite Hq. unfold stalled. naive_solver.
    + right. apply serial_none; [done|]. by rewrite Hq.
  - assert (b = true) as ->.
    { repeat (apply bind_ok in Hr as (? & ? & _ & Hr)). by injection Hr. }
    by eapply resumeSerial_stageInv.
Qed.

Lemma validInsts_quiet s0 : keeps (quiet s0) (validInsts inp).
Proof. unfold validInsts. keeps_auto. Qed.

(** What [rename] sends is of its thread and fits the free entries. *)
Definition fits (tid : ThreadID) (s : Rename) (l : list InstPtr) : Prop :=
  Forall (ofThread V tid) l /\
  (l = [] \/ Z.of_nat (length l) <= calcFreeROBEntries inp tid s /\
             Z.of_nat (length l) <= calcFreeIQEntries inp tid s).

Lemma rename_spec sc tid s b s' :
  stageInv s -> rename rf flatten cfg inp rename_width sc tid s = Ok (b, s') ->
  stageInv s' /\ exists l, toIEW s' = toIEW s ++ l /\ fits tid s l.
Proof.
  intros Hinv Hr. unfold rename in Hr.
  apply bind_ok in Hr as (st & s0 & H0 & Hr). injection H0 as Hst <-.
  apply bind_ok in Hr as (u1 & s1 & H1 & Hr).
  destruct (fl_resume _ _ _ _ (si_flow _ Hinv)) as [R1 R2].
  assert (s1 = s) as ->.
  { case_decide; [|case_decide; [|by run]];
      apply bind_ok in H1 as (r & s2 & H2 & H1); injection H2 as <- <-;
      rewrite ?R1, ?R2 in H1; by run. }
  clear H1. apply bind_ok in Hr as (st' & s0 & H0 & Hr). injection H0 as <- <-. subst st.
  case_decide as Hd; [|case_decide as Hu].
  - apply bind_ok in Hr as (u2 & s2 & H2 & Hr). injection Hr as <- <-.
    destruct (renameInsts_spec tid s u2 s2) as (? & _ & l & ? & ? & ?); [done|tauto|done|].
    split; [done|]. exists l. unfold fits. auto.
  - apply bind_ok in Hr as (u2 & s2 & H2 & Hr).
    apply renameInsts_spec in H2 as (Hinv2 & Hst2 & l & El & Hl & Hc); [|done|tauto].
    specialize (Hst2 tid). rewrite Hu in Hst2. assert (Hst3 : stalled (renameStatus s2 tid))
      by (apply Hst2; unfold stalled; auto). clear Hst2.
    apply bind_ok in Hr as (v & s3 & H3 & Hr).
    assert (s3 = s2) as -> by (unfold validInsts in H3; run; done). clear H3.
    apply bind_ok in Hr as (u4 & s4 & H4 & Hr).
    assert (Hinv4 : stageInv s4 /\ toIEW s4 = toIEW s2).
    { unfold when in H4. case_match; [|by run]. split; [by eapply (skidInsert_stageInv tid s2)|].
      by apply skidInsert_spec in H4 as (f & g & -> & _). }
    destruct Hinv4 as [Hinv4 E4]. apply bind_ok in Hr as (u5 & s5 & H5 & Hr).
    clear H4. run. split; [by eapply unblock_stageInv|]. exists l.
    apply unblock_spec in H5 as (_ & _ & _ & _ & _ & E5 & _). split; [congruence|by split].
  - run. split; [done|]. exists []. rewrite app_nil_r. split; [done|]. split; auto.
Qed.

Lemma rename_stageInv sc tid : keeps stageInv (rename rf flatten cfg inp rename_width sc tid).
Proof. intros s b s' Hs Hr. by eapply rename_spec. Qed.

(** ** Free entries *)

(** What IEW and commit report this cycle replaces what was reported before. *)
Definition newFree (t : ThreadID) (f : FreeEntries) : FreeEntries :=
  let iew := fromIEW inp t in
  let f := if usedIQ iew then f <| iqEntries := freeIQEntries iew |> else f in
  let f := if usedLSQ iew then f <| lqEntries := freeLQEntries iew |> <| sqEntries := freeSQEntries iew |>
           else f in
  if usedROB (fromCommit inp t) then f <| robEntries := freeROBEntries (fromCommit inp t) |> else f.

(** The stage as it sees the free entries once it has read the signals. *)
Definition withNewFree (t : ThreadID) (s : Rename) : Rename :=
  s <| freeEntries := <[t := newFree t (freeEntries s t)]> (freeEntries s) |>.

Definition credits (a : list InstPtr) (f : ThreadID -> FreeEntries) (g : ThreadID -> Z) (s : Rename) : Prop :=
  toIEW s = a /\ (forall t, freeEntries s t = f t) /\ (forall t, instsInProgress s t = g t).

Ltac credits_auto := keeps_auto; first [assumption | done].

Lemma skidInsert_credits a f g tid : keeps (credits a f g) (skidInsert cfg tid).
Proof. unfold skidInsert, popInsts, instOf. credits_auto. Qed.

Lemma block_credits a f g tid : keeps (credits a f g) (block cfg tid).
Proof.
  pose proof skidInsert_credits. unfold block, setThreadStatus. keeps_auto; first [assumption|done|auto].
Qed.

Lemma unblock_credits a f g tid : keeps (credits a f g) (unblock tid).
Proof. unfold unblock, setRenameUnblock, setThreadStatus. credits_auto. Qed.

Lemma readFreeEntries_credits a f g tid s u s' :
  credits a f g s -> readFreeEntries inp tid s = Ok (u, s') ->
  credits a (<[tid := newFree tid (f tid)]> f) g s'.
Proof.
  intros (H1 & H2 & H3) Hr. unfold readFreeEntries in Hr. run; cbn; (split; [done|]; split; [|done]);
    intros t; cbn; unfold newFree; rewrite ?Heqb, ?Heqb0, ?Heqb1;
    (destruct (decide (t = tid)) as [->|Hne];
     [rewrite ?fn_lookup_insert|rewrite ?fn_lookup_insert_ne by done]; rewrite ?H2; done).
Qed.

Lemma checkSignals_credits a f g tid s b s' :
  commit_squash (fromCommit inp tid) = false ->
  credits a f g s -> checkSignalsAndUpdate rf cfg inp tid s = Ok (b, s') ->
  credits a (<[tid := newFree tid (f tid)]> f) g s'.
Proof.
  intros Hc Hs Hr. unfold checkSignalsAndUpdate in Hr. rewrite Hc in Hr.
  apply bind_ok in Hr as (u1 & s1 & H1 & Hr). eapply readFreeEntries_credits in H1; [|done].
  revert Hr. match goal with |- ?m s1 = _ -> _ =>
    refine ((_ : keeps (credits a (<[tid := newFree tid (f tid)]> f) g) m) s1 _ _ H1) end.
  pose proof block_credits. pose proof unblock_credits.
  unfold readStallSignals, setThreadStatus, instOf, setInst.
  keeps_auto; first [assumption|done|auto].
Qed.

(** Renaming a thread leaves the others' counts alone. *)
Definition others (tid : ThreadID) (f : ThreadID -> FreeEntries) (g : ThreadID -> Z) (s : Rename) : Prop :=
  (forall t, freeEntries s t = f t) /\ (forall t, t <> tid -> instsInProgress s t = g t).

Lemma renameLoop_others tid f g skid n k :
  keeps (others tid f g) (renameLoop rf flatten inp rename_width skid tid n k).
Proof.
  revert k. induction n as [|n IH]; intros k; cbn [renameLoop]; [apply keeps_ret|].
  unfold renameOne, renameSrcRegs, renameDestRegs, countMemInst, sendToIEW, serializeAfter,
    setSerializeBefore, setThreadStatus, instOf, setInst, setQueue.
  keeps_auto; repeat case_match; first [apply IH|assumption|done].
Qed.

Lemma renameInsts_others tid f g :
  keeps (others tid f g) (renameInsts rf flatten cfg inp rename_width tid).
Proof.
  assert (Hb : keeps (others tid f g) (block cfg tid)).
  { unfold block, skidInsert, popInsts, setThreadStatus, instOf. credits_auto. }
  pose proof (renameLoop_others tid f g).
  unfold renameInsts, availableInsts, serializeNext, setRenameUnblock, setSerializeBefore, instOf, setInst.
  keeps_auto; try first [assumption|done|solve [auto]].
  match goal with H : others _ _ _ _ |- _ => destruct H as [H1 H2] end.
  split; [done|]. intros t Ht. cbn. rewrite fn_lookup_insert_ne by done. auto.
Qed.

Lemma rename_others tid f g sc :
  keeps (others tid f g) (rename rf flatten cfg inp rename_width sc tid).
Proof.
  assert (Hk : keeps (others tid f g) (skidInsert cfg tid))
    by (unfold skidInsert, popInsts, instOf; credits_auto).
  assert (Hb : keeps (others tid f g) (block cfg tid))
    by (unfold block, setThreadStatus; keeps_auto; first [assumption|done]).
  pose proof (renameInsts_others tid f g).
  unfold rename, unblock, setRenameUnblock, setThreadStatus, validInsts.
  keeps_auto; first [assumption|done|auto].
Qed.

(** The instructions each thread sends over the threads' turns fit the entries
    that were free when its turn came. *)
Lemma tickThreads_fits threads sc s b s' :
  NoDup threads -> (forall t, t ∈ threads -> commit_squash (fromCommit inp t) = false) ->
  stageInv s -> tickThreads rf flatten cfg inp rename_width threads sc s = Ok (b, s') ->
  exists l, toIEW s' = toIEW s ++ l /\
    forall t, filter (ofThread V t) l = [] \/
      t ∈ threads /\ fits t (withNewFree t s) (filter (ofThread V t) l).
Proof.
  revert sc s. induction threads as [|tid threads IH]; intros sc s Hnd Hc Hinv Hr; cbn in Hr.
  { run. exists []. rewrite app_nil_r. auto. }
  apply list_relations.list.NoDup_cons in Hnd as [Hni Hnd].
  apply bind_ok in Hr as (b1 & s1 & H1 & Hr). apply bind_ok in Hr as (b2 & s2 & H2 & Hr).
  assert (Hsq : commit_squash (fromCommit inp tid) = false) by (apply Hc; left).
  pose proof (checkSignalsAndUpdate_stageInv tid Hsq s b1 s1 Hinv H1) as Hinv1.
  eapply (checkSignals_credits (toIEW s) (freeEntries s) (instsInProgress s)) in H1
    as (E1 & F1 & G1); [|done..].
  destruct (rename_spec _ tid s1 b2 s2 Hinv1 H2) as (Hinv2 & l1 & El1 & Hf1).
  destruct (rename_others tid (freeEntries s1) (instsInProgress s1) _ s1 b2 s2 ltac:(by split) H2) as [F2 G2].
  apply IH in Hr as (l2 & El2 & Hf2); [|done|intros t Ht; apply Hc; by right|done].
  exists (l1 ++ l2). split; [rewrite El2, El1, E1, <- app_assoc; done|].
  assert (Hl1 : forall t, t <> tid -> filter (ofThread V t) l1 = []).
  { intros t Ht. apply filter_none. intros x Hx Hv. destruct Hf1 as [Hf1 _].
    rewrite list_relations.list.Forall_forall in Hf1. specialize (Hf1 x Hx). unfold ofThread in *. congruence. }
  intros t. rewrite list_basics.list.filter_app. destruct (decide (t = tid)) as [->|Hne].
  - destruct (Hf2 tid) as [->|[? _]]; [|done]. rewrite app_nil_r.
    rewrite filter_all by (destruct Hf1 as [Hf1 _]; by rewrite list_relations.list.Forall_forall in Hf1).
    right. split; [left|]. destruct Hf1 as [Ht Hb]. split; [done|].
    destruct Hb as [->|Hb]; [by left|right]. unfold calcFreeROBEntries, calcFreeIQEntries in *.
    cbn. rewrite fn_lookup_insert. rewrite F1, G1, fn_lookup_insert in Hb. done.
  - rewrite Hl1 by done. cbn. destruct (Hf2 t) as [->|[Hin [Ht Hb]]]; [by left|right].
    split; [by right|]. split; [done|]. destruct Hb as [->|Hb]; [by left|right].
    unfold calcFreeROBEntries, calcFreeIQEntries, withNewFree in *. cbn in *.
    rewrite fn_lookup_insert in *. rewrite F2, G2, F1, G1, fn_lookup_insert_ne in Hb by done. done.
Qed.

Lemma tickThreads_stageInv threads sc :
  (forall t, t ∈ threads -> commit_squash (fromCommit inp t) = false) ->
  keeps stageInv (tickThreads rf flatten cfg inp rename_width threads sc).
Proof.
  revert sc. induction threads as [|tid threads IH]; intros sc Hc; [apply keeps_ret|]. cbn.
  apply keeps_bind; [apply checkSignalsAndUpdate_stageInv, Hc; left|intros b].
  apply keeps_bind; [apply rename_stageInv|intros c]. apply IH. intros t Ht. apply Hc. by right.
Qed.

Lemma updateStatus_quiet s0 : keeps (quiet s0) (updateStatus cfg).
Proof. unfold updateStatus. keeps_auto; repeat case_match; keeps_auto; quiet_frame. Qed.

Lemma commitThread_quiet s0 tid : keeps (quiet s0) (commitThread inp tid).
Proof. unfold commitThread. keeps_auto; try quiet_frame. Qed.

Lemma updateProgress_quiet s0 tid : keeps (quiet s0) (updateProgress inp tid).
Proof. unfold updateProgress. keeps_auto; try quiet_frame. Qed.

(** Sorting this cycle's instructions by thread. *)
Lemma sortInsts_spec s u s' :
  (forall p, viewOf (instMem s) p = V p) ->
  sortInsts inp s = Ok (u, s') ->
  exists g, s' = s <| insts := g |> /\
    forall t, g t = insts s t ++ filter (ofThread V t) (fromDecode inp).
Proof.
  unfold sortInsts. intros Hv Hr. revert s Hv Hr.
  induction (fromDecode inp) as [|p l IH]; intros s Hv Hr; cbn in Hr.
  - injection Hr as <- <-. exists (insts s). split; [by destruct s|]. intros t.
    by rewrite app_nil_r.
  - apply bind_ok in Hr as (u1 & s1 & H1 & Hr).
    apply bind_ok in H1 as (i & s2 & H2 & H1). apply instOf_spec in H2 as [-> Hi].
    injection H1 as <- <-. apply IH in Hr as (g & -> & Hg); [|done].
    exists g. split; [done|]. intros t. cbn in Hg. rewrite Hg. clear Hg.
    apply hasView_lookup in Hi. unfold hasView in Hi. rewrite Hv in Hi.
    rewrite filter_cons.
    destruct (decide (t = threadNumber i)) as [->|Hne].
    + rewrite fn_lookup_insert, decide_True by (unfold ofThread; by rewrite Hi).
      by rewrite <- app_assoc.
    + rewrite fn_lookup_insert_ne, decide_False by (done || (unfold ofThread; rewrite Hi; cbn; congruence)).
      done.
Qed.

End Flow.

(** ** A cycle of the stage *)

(** The state of the stage between cycles. *)
Record restInv (s : Rename) : Prop := {
  ri_thread : forall t p, p ∈ pend t s -> ofThread (viewOf (instMem s)) t p;
  ri_serial : forall t, is_Some (serializeInst s t) -> renameStatus s t = SerializeStall;
  ri_resume : resumeSerialize s = false /\ resumeUnblocking s = false;
  ri_skid : skidOK s
}.

(** The instructions of a thread the stage has to pass on this cycle or later. *)
Definition due (inp : RenameIn) (t : ThreadID) (s : Rename) : list InstPtr :=
  let V := viewOf (instMem s) in
  filter (live V) (pend t s ++ filter (ofThread V t) (fromDecode inp)).

Lemma ofThread_ext V V' t p : V p = V' p -> ofThread V t p <-> ofThread V' t p.
Proof. unfold ofThread. by intros ->. Qed.

(** The stage once it has sorted the instructions from decode into [g]. *)
Definition enter (g : ThreadID -> list InstPtr) (s : Rename) : Rename :=
  s <| wroteToTimeBuffer := false |> <| blockThisCycle := false |> <| toIEWIndex := 0 |>
    <| toIEW := [] |> <| renameBlock := fun _ => false |> <| renameUnblock := fun _ => false |>
    <| activity := [] |> <| insts := g |>.

Definition sorted (inp : RenameIn) (s : Rename) (g : ThreadID -> list InstPtr) : Prop :=
  forall t, g t = insts s t ++ filter (ofThread (viewOf (instMem s)) t) (fromDecode inp).

Lemma pend_enter inp s g t : sorted inp s g ->
  pend t (enter g s) = pend t s ++ filter (ofThread (viewOf (instMem s)) t) (fromDecode inp).
Proof. intros Hg. unfold pend. cbn. by rewrite Hg, <- !app_assoc. Qed.

(** A cycle is the threads' turns, between the sorting of the instructions from
    decode and steps that leave the flow alone. *)
Lemma tick_enter rf flatten cfg inp w s u s' :
  tick rf flatten cfg inp w s = Ok (u, s') ->
  exists g sc s3, sorted inp s g /\
    tickThreads rf flatten cfg inp w (activeThreads cfg) false (enter g s) = Ok (sc, s3) /\ quiet s3 s'.
Proof.
  intros Hr. unfold tick in Hr.
  apply bind_ok in Hr as (u1 & s1 & H1 & Hr). injection H1 as <- <-.
  apply bind_ok in Hr as (u2 & s2 & H2 & Hr).
  apply (sortInsts_spec _ (viewOf (instMem s))) in H2 as (g & -> & Hg); [|done].
  apply bind_ok in Hr as (sc & s3 & H3 & Hr). exists g, sc, s3. split_and!; [exact Hg|exact H3|].
  revert Hr. match goal with |- ?m s3 = _ -> _ =>
    refine ((_ : keeps (quiet s3) m) s3 _ _ (quiet_refl s3)) end.
  keeps_auto; first [apply updateStatus_quiet|apply commitThread_quiet
    |apply updateProgress_quiet|quiet_frame].
Qed.

Lemma enter_stageInv inp w s g :
  restInv s -> 0 <= w -> sorted inp s g ->
  stageInv w (viewOf (instMem s)) (fun t => due inp t s) (enter g s).
Proof.
  intros [Rt Rs Rr Rk] Hw Hg. split; [split; try done|exact Rk|].
  - intros t p. rewrite (pend_enter inp) by done.
    rewrite elem_of_app, list_elem_of_filter. intros [Hp|[Hp _]]; [by apply Rt|done].
  - intros t. cbn. by rewrite (pend_enter inp).
  - unfold widthOK. cbn. lia.
Qed.

Lemma tick_parts rf flatten cfg inp w s u s' :
  restInv s -> 0 <= w -> tick rf flatten cfg inp w s = Ok (u, s') ->
  exists s2 sc s3, stageInv w (viewOf (instMem s)) (fun t => due inp t s) s2 /\
    toIEW s2 = [] /\ freeEntries s2 = freeEntries s /\ instsInProgress s2 = instsInProgress s /\
    tickThreads rf flatten cfg inp w (activeThreads cfg) false s2 = Ok (sc, s3) /\ quiet s3 s'.
Proof.
  intros Hs Hw Hr. apply tick_enter in Hr as (g & sc & s3 & Hg & H3 & Hq).
  exists (enter g s), sc, s3. split; [by apply enter_stageInv|done].
Qed.

Lemma tick_inv rf flatten cfg inp w s u s' :
  restInv s -> 0 <= w ->
  (forall t, t ∈ activeThreads cfg -> commit_squash (fromCommit inp t) = false) ->
  tick rf flatten cfg inp w s = Ok (u, s') ->
  stageInv w (viewOf (instMem s)) (fun t => due inp t s) s'.
Proof.
  intros Hs Hw Hc Hr. apply tick_parts in Hr as (s2 & sc & s3 & H2 & _ & _ & _ & H3 & Hq); [|done..].
  eapply quiet_stageInv; [exact Hq|]. by eapply tickThreads_stageInv.
Qed.

(** *** The width *)

Section Width.
Context (rf : PhysRegFile) (flatten : RegId -> RegId) (cfg : RenameConfig) (inp : RenameIn)
  (w : Z).

Ltac width_auto := keeps_auto; first [assumption | done].

Lemma skidInsert_widthOK tid : keeps (widthOK w) (skidInsert cfg tid).
Proof. unfold skidInsert, popInsts, instOf. width_auto. Qed.

#[local] Hint Resolve skidInsert_widthOK : o3_keeps.

Lemma block_widthOK tid : keeps (widthOK w) (block cfg tid).
Proof. unfold block, setThreadStatus. width_auto. Qed.

Lemma unblock_widthOK tid : keeps (widthOK w) (unblock tid).
Proof. unfold unblock, setRenameUnblock, setThreadStatus. width_auto. Qed.

Lemma squash_widthOK n tid : keeps (widthOK w) (squash rf inp n tid).
Proof. unfold squash, setRenameUnblock, setThreadStatus, instOf. width_auto. Qed.

Lemma sendToIEW_widthOK p s u s' :
  widthOK w s -> toIEWIndex s < w -> sendToIEW p s = Ok (u, s') -> widthOK w s'.
Proof.
  intros [H1 H2] Hw Hr. unfold sendToIEW in Hr. run. case_match eqn:Ek; [|done].
  apply Z.ltb_lt in Ek. unfold widthOK. cbn. rewrite length_app. cbn.
  unfold MaxWidth in Ek. rewrite u32_small by (unfold in_u32; lia). lia.
Qed.

(** Renaming an instruction's registers touches neither the wires nor the
    count. *)
Lemma renameRegs_index p tid a b :
  keeps (fun s => toIEW s = a /\ toIEWIndex s = b) (renameSrcRegs rf flatten p tid) /\
  keeps (fun s => toIEW s = a /\ toIEWIndex s = b) (renameDestRegs rf flatten p tid).
Proof.
  unfold renameSrcRegs, renameDestRegs, instOf, setInst. split; width_auto.
Qed.

Lemma renameOne_widthOK p tid s u s' :
  widthOK w s -> toIEWIndex s < w -> renameOne rf flatten p tid s = Ok (u, s') -> widthOK w s'.
Proof.
  intros Hs Hlt Hr. unfold renameOne in Hr. apply bind_ok in Hr as (i & s0 & H0 & Hr).
  apply instOf_spec in H0 as [-> _].
  apply bind_ok in Hr as (u1 & s1 & H1 & Hr). apply bind_ok in Hr as (u2 & s2 & H2 & Hr).
  apply bind_ok in Hr as (u3 & s3 & H3 & Hr).
  apply (proj1 (renameRegs_index p (threadNumber i) (toIEW s) (toIEWIndex s))) in H1 as [E1 E2];
    [|done].
  apply (proj2 (renameRegs_index p (threadNumber i) (toIEW s) (toIEWIndex s))) in H2 as [E3 E4];
    [|done].
  assert (toIEW s3 = toIEW s2 /\ toIEWIndex s3 = toIEWIndex s2) as [E5 E6].
  { unfold countMemInst in H3. repeat case_match; by run. }
  eapply sendToIEW_widthOK; [| |exact Hr]; [unfold widthOK in *|]; rewrite ?E5, E6, ?E3, E4; done.
Qed.

Lemma renameLoop_widthOK skid tid n k : keeps (widthOK w) (renameLoop rf flatten inp w skid tid n k).
Proof.
  revert k. induction n as [|n IH]; intros k s r s' Hs Hr; cbn in Hr; [by run|].
  apply bind_ok in Hr as (x & s0 & H0 & Hr). injection H0 as <- <-.
  destruct (toIEWIndex s <? w) eqn:Hlt; cbn in Hr; [|by run]. apply Z.ltb_lt in Hlt.
  apply bind_ok in Hr as (x & s0 & H0 & Hr). injection H0 as <- <-.
  case_match; [done|]. apply bind_ok in Hr as (j & s0 & H0 & Hr).
  apply instOf_spec in H0 as [-> _]. case_match; [by run|]. case_match; [by run|].
  apply bind_ok in Hr as (u1 & s1 & Hm & Hr). injection Hm as <- <-.
  assert (Hs1 : forall q, widthOK w (setQueue skid tid q s) /\
                          toIEWIndex (setQueue skid tid q s) = toIEWIndex s)
    by (intros q; by destruct skid).
  case_match; [eapply IH; [by apply Hs1|done]|]. case_match; [|case_match].
  - run. by destruct skid.
  - apply bind_ok in Hr as (u2 & s2 & Hw & Hr). unfold setThreadStatus, setInst in *.
    case_match; run; destruct skid; exact Hs.
  - apply bind_ok in Hr as (u2 & s2 & Hw & Hr). apply bind_ok in Hr as (u3 & s3 & Hone & Hr).
    assert (Hs2 : widthOK w s2 /\ toIEWIndex s2 < w).
    { revert Hw. generalize (Hs1 l). generalize (setQueue skid tid l s). intros s1 [W1 W2] Hw.
      eapply (keeps_when (fun s => widthOK w s /\ toIEWIndex s < w)); [|split; [exact W1|lia]|exact Hw].
      unfold setInst, serializeAfter, setSerializeBefore, instOf, setInst. width_auto. }
    eapply IH; [|exact Hr]. eapply renameOne_widthOK; [apply Hs2|apply Hs2|exact Hone].
Qed.

#[local] Hint Resolve block_widthOK unblock_widthOK squash_widthOK renameLoop_widthOK : o3_keeps.

Lemma renameInsts_widthOK tid : keeps (widthOK w) (renameInsts rf flatten cfg inp w tid).
Proof.
  unfold renameInsts, availableInsts, serializeNext, setRenameUnblock, setSerializeBefore,
    instOf, setInst. width_auto.
Qed.

#[local] Hint Resolve renameInsts_widthOK : o3_keeps.

Lemma tickThreads_widthOK threads sc :
  keeps (widthOK w) (tickThreads rf flatten cfg inp w threads sc).
Proof.
  revert sc. induction threads as [|tid threads IH]; intros sc; [apply keeps_ret|]. cbn.
  unfold checkSignalsAndUpdate, rename, readFreeEntries, readStallSignals, validInsts,
    setRenameUnblock, setThreadStatus, instOf, setInst.
  keeps_auto; first [apply IH | assumption | done].
Qed.

Lemma tick_widthOK s u s' :
  0 <= w -> tick rf flatten cfg inp w s = Ok (u, s') -> widthOK w s'.
Proof.
  intros Hw Hr. unfold tick in Hr. apply bind_ok in Hr as (u1 & s1 & H1 & Hr).
  injection H1 as _ <-.
  match type of Hr with ?m ?x = _ => refine ((_ : keeps (widthOK w) m) x _ _ _ Hr) end.
  - pose proof tickThreads_widthOK. unfold sortInsts, instOf, updateStatus, commitThread,
      updateProgress. keeps_auto; first [assumption | done | auto].
  - unfold widthOK. cbn. lia.
Qed.

End Width.

(** ** The stage's contract *)

(** C21: rename never overruns the back end. In a cycle without a squash, from a
    state between cycles in which no thread resumes a serialising stall that a
    squash interrupted, each thread sends at most as many instructions as the
    reorder buffer and the instruction queue have free entries for it: the
    entries last reported, less the instructions on their way that have not been
    dispatched. *)
Theorem cycle_within_free_entries rf flatten ac as_ cfg inp s u s' :
  restInv s -> 1 <= renameWidth cfg -> NoDup (activeThreads cfg) ->
  (forall t, t ∈ activeThreads cfg -> commit_squash (fromCommit inp t) = false) ->
  cpuTick rf flatten ac as_ cfg inp s = Ok (u, s') ->
  forall t, let n := Z.of_nat (length (sent (viewOf (instMem s)) t s')) in
    n <= Z.max 0 (calcFreeROBEntries inp t (withNewFree inp t s)) /\
    n <= Z.max 0 (calcFreeIQEntries inp t (withNewFree inp t s)).
Proof.
  intros Hs Hw Hnd Hc Hr t.
  assert (Hw' : 0 <= adaptiveRenameWidth ac as_ (renameWidth cfg))
    by (unfold adaptiveRenameWidth; case_ifs; lia).
  apply tick_parts in Hr as (s2 & sc & s3 & H2 & E2 & F2 & G2 & H3 & Hq); [|done..].
  destruct (tickThreads_fits _ _ _ _ _ _ _ _ _ _ _ _ Hnd Hc H2 H3) as (l & El & Hl).
  unfold sent. destruct (q_toIEW _ _ Hq) as [-> _]. rewrite El, E2. cbn.
  destruct (Hl t) as [->|[_ [_ Hf]]]; [cbn; lia|].
  destruct Hf as [->|[Hf1 Hf2]]; [cbn; lia|].
  unfold calcFreeROBEntries, calcFreeIQEntries, withNewFree in *. cbn in *.
  rewrite fn_lookup_insert in *. rewrite F2, G2 in Hf1, Hf2. lia.
Qed.

(** C20: whatever the signals of the cycle are, squashes included, rename sends
    at most as many instructions as the controller allows, which is never more
    than the width of the stage. *)
Theorem cycle_width rf flatten ac as_ cfg inp s u s' :
  1 <= renameWidth cfg ->
  cpuTick rf flatten ac as_ cfg inp s = Ok (u, s') ->
  toIEWIndex s' = Z.of_nat (length (toIEW s')) /\
  toIEWIndex s' <= adaptiveRenameWidth ac as_ (renameWidth cfg) <= renameWidth cfg.
Proof.
  intros Hw Hr.
  assert (Hw' : 0 <= adaptiveRenameWidth ac as_ (renameWidth cfg) <= renameWidth cfg)
    by (unfold adaptiveRenameWidth; case_ifs; lia).
  apply tick_widthOK in Hr as [H1 H2]; [|lia]. lia.
Qed.

(** ** A concrete machine *)

(** Decode delivers an addition, a serialising instruction and a load. *)
Module Sample.
Definition static (dests srcs : list nat) (load serial : bool) : StaticInst :=
  mkStatic (RenameInit.r <$> srcs) (RenameInit.r <$> dests) 1
    (fun f => match f with IsLoad => load | IsSerializeBefore => serial | _ => false end).

Definition mem : InstMem :=
  mkMem (<[1%positive := DynInst_ctor (static [0%nat] [1%nat; 2%nat] false false) 0x400 1 0]>
        (<[2%positive := DynInst_ctor (static [] [] false true) 0x400 2 0]>
        (<[3%positive := DynInst_ctor (static [1%nat] [0%nat] true false) 0x400 3 0]> ∅))) ∅.

Definition stage : Rename :=
  mkRename Active (fun _ => Running) (fun _ => []) (fun _ => []) (fun _ => [])
    (fun _ => renameMaps (env sampleState)) (freeLists (env sampleState))
    (Scoreboard.ctor (totalNumRegs sampleFile)) mem (fun _ => 0) (fun _ => 0) (fun _ => 0) false
    (fun _ => mkFree 8 8 4 4) (fun _ => true) (fun _ => false) (fun _ => None) (fun _ => false)
    0 false false false [] (fun _ => false) (fun _ => false) [].

Definition config : RenameConfig :=
  {| renameWidth := 8; numThreads := 1; skidBufferMax := 16; activeThreads := [0%nat] |}.

Definition input : RenameIn :=
  {| fromDecode := [1%positive; 2%positive; 3%positive];
     fromIEW := fun _ => {| iewBlock := false; iewUnblock := false; dispatched := 0;
       dispatchedToLQ := 0; dispatchedToSQ := 0; usedIQ := false; usedLSQ := false;
       freeIQEntries := 0; freeLQEntries := 0; freeSQEntries := 0 |};
     fromCommit := fun _ => {| commit_squash := false; doneSeqNum := 0; usedROB := false;
       freeROBEntries := 0; commit_emptyROB := false |} |}.

Definition isOk {A} (x : res A) : bool := match x with Ok _ => true | _ => false end.
Definition result {A} (x : res (unit * A)) (d : A) : A := match x with Ok (_, a) => a | _ => d end.

Lemma isOk_result {A} (x : res (unit * A)) d : isOk x = true -> x = Ok (tt, result x d).
Proof. by destruct x as [[[] a]| |]. Qed.

Definition next : Rename :=
  result (cpuTick sampleFile (fun r => r) AdaptiveProps.Witness.c
    (initialState AdaptiveProps.Witness.params) config input stage) stage.

Lemma cycle_ok :
  cpuTick sampleFile (fun r => r) AdaptiveProps.Witness.c
    (initialState AdaptiveProps.Witness.params) config input stage = Ok (tt, next).
Proof. apply isOk_result. vm_compute. reflexivity. Qed.

Lemma stage_rest : restInv stage.
Proof. split; try done; [intros t p Hp; by apply not_elem_of_nil in Hp|by intros t [x Hx]]. Qed.
End Sample.

Lemma cycle_width_witness :
  toIEWIndex Sample.next = Z.of_nat (length (toIEW Sample.next)) /\
  toIEWIndex Sample.next <= adaptiveRenameWidth AdaptiveProps.Witness.c
    (initialState AdaptiveProps.Witness.params) (renameWidth Sample.config)
    <= renameWidth Sample.config.
Proof.
  apply (cycle_width sampleFile (fun r => r) AdaptiveProps.Witness.c
    (initialState AdaptiveProps.Witness.params) Sample.config Sample.input Sample.stage tt
    Sample.next); [vm_compute; congruence|exact Sample.cycle_ok].
Defined.

Lemma cycle_within_free_entries_witness :
  length (toIEW Sample.next) = 1%nat /\
  forall t, let n := Z.of_nat (length (sent (viewOf (instMem Sample.stage)) t Sample.next)) in
    n <= Z.max 0 (calcFreeROBEntries Sample.input t (withNewFree Sample.input t Sample.stage)) /\
    n <= Z.max 0 (calcFreeIQEntries Sample.input t (withNewFree Sample.input t Sample.stage)).
Proof.
  split; [vm_compute; reflexivity|].
  apply (cycle_within_free_entries sampleFile (fun r => r) AdaptiveProps.Witness.c
    (initialState AdaptiveProps.Witness.params) Sample.config Sample.input Sample.stage tt
    Sample.next Sample.stage_rest); [vm_compute; congruence| |reflexivity|exact Sample.cycle_ok].
  apply NoDup_singleton.
Defined.
