(* ===== verification/RenameFlow.v ===== *)
(** * The flow of instructions through the rename stage, squashes included

    [RenameProps] follows the instructions through cycles in which commit
    squashes nothing.  Here squashes are added: what [Rename::squash] drops and
    keeps, how a thread resumes a serialising stall a squash interrupted, and
    the states the stage reaches from its start. *)

From stdpp Require Import base numbers list gmap functions.
From S2P Require Import Prelude Adaptive AdaptiveProps Regs Monad RenameMap RenameHistory RenameInit DynInst Stage Rename RenameProps.

#[local] Open Scope Z_scope.

(** ** Definitions *)

(** The thread's serialising stall was interrupted by a squash that kept the
    serialising instruction. *)
Definition resuming (t : ThreadID) (s : Rename) : Prop :=
  renameStatus s t = Squashing /\ is_Some (serializeInst s t).

(** The stage between cycles: a serialising instruction is held during the stall
    and while the thread resumes it; the skid buffer is used only in a stall. *)
Record stageRest (s : Rename) : Prop := {
  sr_thread : forall t p, p ∈ pend t s -> ofThread (viewOf (instMem s)) t p;
  sr_serial : forall t, is_Some (serializeInst s t) ->
    renameStatus s t = SerializeStall \/ (renameStatus s t = Squashing /\ resumeSerialize s = true);
  sr_flag : resumeSerialize s = true -> exists t, resuming t s;
  sr_unblocking : resumeUnblocking s = false;
  sr_skid : skidOK s
}.

(** Commit squashes the thread in this cycle. *)
Definition squashedNow (cfg : RenameConfig) (inp : RenameIn) (t : ThreadID) : bool :=
  bool_decide (t ∈ activeThreads cfg) && commit_squash (fromCommit inp t).

(** The serialising instruction a squash of the thread keeps: it is not younger
    than the squash, or an earlier squash has already kept it. *)
Definition keptSerial (inp : RenameIn) (t : ThreadID) (s : Rename) : option InstPtr :=
  p ← serializeInst s t;
  i ← heap (instMem s) !! p;
  if bool_decide (renameStatus s t = Squashing) || (seqNum i <=? doneSeqNum (fromCommit inp t))
  then Some p else None.

(** The thread's state once it has read this cycle's signals. *)
Definition withSignals (inp : RenameIn) (t : ThreadID) (s : Rename) : Rename :=
  withNewFree inp t s <| stalls_iew := <[t :=
    if iewUnblock (fromIEW inp t) then false else stalls_iew s t || iewBlock (fromIEW inp t)]>
    (stalls_iew s) |>.

(** What resuming a serialising stall relies on: the thread is the only active
    one, since there is one flag for all threads, and it is not told to stall in
    the cycle it resumes in. *)
Definition resumesAlone (cfg : RenameConfig) (inp : RenameIn) (s : Rename) : Prop :=
  forall t, resuming t s \/ (squashedNow cfg inp t = true /\ is_Some (keptSerial inp t s)) ->
    activeThreads cfg = [t] /\
    (commit_squash (fromCommit inp t) = false -> checkStall inp t (withSignals inp t s) = false).

(** ** What a squash does *)

(** Instructions of the thread may have become squashed. *)
Definition viewStep (tid : ThreadID) (V V' : view) : Prop :=
  forall p, V' p = V p \/ exists b b' n, V p = Some (tid, (b, n)) /\ V' p = Some (tid, (b', n)).

Lemma viewStep_refl tid V : viewStep tid V V.
Proof. intros p. by left. Qed.

Lemma viewStep_trans tid V1 V2 V3 : viewStep tid V1 V2 -> viewStep tid V2 V3 -> viewStep tid V1 V3.
Proof.
  intros H1 H2 p. destruct (H2 p) as [->|(b & b' & n & E & ->)]; [apply H1|]. right.
  destruct (H1 p) as [E1|(c & c' & n' & E1 & E2)].
  - rewrite E1 in E. eauto.
  - rewrite E2 in E. injection E as -> ->. eauto.
Qed.

(** Other threads' instructions keep their view; threads and numbers stay. *)
Lemma viewStep_other tid V V' t p : viewStep tid V V' -> ofThread V t p -> t <> tid -> V' p = V p.
Proof.
  intros H Ht Hne. destruct (H p) as [?|(b & b' & n & E & _)]; [done|]. unfold ofThread in Ht.
  rewrite E in Ht. cbn in Ht. congruence.
Qed.

Lemma viewStep_thread tid V V' t p : viewStep tid V V' -> ofThread V' t p <-> ofThread V t p.
Proof. intros H. unfold ofThread. by destruct (H p) as [->|(b & b' & n & -> & ->)]. Qed.

Lemma setSquashed_view p i m m' :
  heap m !! p = Some i -> setSquashed p m = Ok m' -> viewStep (threadNumber i) (viewOf m) (viewOf m').
Proof.
  intros Hi H.
  assert (exists i', heap m' = <[p := i']> (heap m) /\ threadNumber i' = threadNumber i /\ seqNum i' = seqNum i)
    as (i' & E & Et & Es).
  { unfold setSquashed, updInst, getInst in H. rewrite Hi in H. cbn in H.
    rewrite lookup_insert_eq in H. cbn in H. case_match; inv_ok; [by eexists|].
    unfold setPinnedRegsSquashDone in *. inv_ok. cbn. eexists. split; [by rewrite insert_insert_eq|]. done. }
  intros q. unfold viewOf. rewrite E. destruct (decide (q = p)) as [->|Hq].
  - right. rewrite lookup_insert_eq, Hi. cbn. rewrite Et, Es. eauto.
  - left. by rewrite lookup_insert_ne.
Qed.

(** The marking loop of a squash. *)
Record marked (tid : ThreadID) (s s' : Rename) : Prop := {
  mk_insts : insts s' = insts s;
  mk_skid : skidBuffer s' = skidBuffer s;
  mk_serial : serializeInst s' = serializeInst s;
  mk_status : renameStatus s' = renameStatus s;
  mk_resume : resumeSerialize s' = resumeSerialize s /\ resumeUnblocking s' = resumeUnblocking s;
  mk_toIEW : toIEW s' = toIEW s /\ toIEWIndex s' = toIEWIndex s;
  mk_view : viewStep tid (viewOf (instMem s)) (viewOf (instMem s'))
}.

Lemma marked_refl tid s : marked tid s s.
Proof. split; try done. apply viewStep_refl. Qed.

Lemma marked_trans tid s1 s2 s3 : marked tid s1 s2 -> marked tid s2 s3 -> marked tid s1 s3.
Proof.
  intros [A1 A2 A3 A4 [A5 A6] [A7 A8] A9] [B1 B2 B3 B4 [B5 B6] [B7 B8] B9].
  split; [congruence..|split; congruence|split; congruence|by eapply viewStep_trans].
Qed.

Lemma quiet_marked tid s s' : quiet s s' -> marked tid s s'.
Proof. intros [A1 A2 A3 A4 A5 A6 A7]. split; try done. intros p. left. apply A7. Qed.

Lemma markDecode_marked s0 tid n l :
  keeps (marked tid s0) (forM l (fun p =>
    i ← instOf p;
    when (bool_decide (threadNumber i = tid) && (n <? seqNum i))
      (m ← gets instMem;
       m ← lift (setSquashed p m);
       modify (fun s => s <| instMem := m |> <| wroteToTimeBuffer := true |>)))).
Proof.
  apply keeps_forM. intros p s u s' Hs Hr.
  apply bind_ok in Hr as (i & s1 & Hi & Hr). apply instOf_spec in Hi as [-> Hi].
  destruct (bool_decide (threadNumber i = tid)) eqn:Et; cbn [andb] in Hr; [|by run].
  apply bool_decide_eq_true in Et as <-. unfold when in Hr. case_match; [|by run].
  eapply marked_trans; [exact Hs|]. run. split; try done. by eapply setSquashed_view.
Qed.

(** [squash] itself: the queues go; the serialising instruction goes unless it is
    to be kept. *)
Record squashed (tid : ThreadID) (n : Z) (s s' : Rename) : Prop := {
  sq_insts : insts s' = <[tid := []]> (insts s);
  sq_skid : skidBuffer s' = <[tid := []]> (skidBuffer s);
  sq_status : renameStatus s' = <[tid := Squashing]> (renameStatus s);
  sq_unblocking : resumeUnblocking s' = resumeUnblocking s;
  sq_toIEW : toIEW s' = toIEW s /\ toIEWIndex s' = toIEWIndex s;
  sq_view : viewStep tid (viewOf (instMem s)) (viewOf (instMem s'));
  sq_others : forall t, t <> tid -> serializeInst s' t = serializeInst s t;
  sq_serial :
    match renameStatus s tid with
    | Blocked | Unblocking => serializeInst s' tid = None /\ resumeSerialize s' = false
    | SerializeStall => exists p i, serializeInst s tid = Some p /\ heap (instMem s) !! p = Some i /\
        serializeInst s' tid = (if seqNum i <=? n then Some p else None) /\
        resumeSerialize s' = (seqNum i <=? n)
    | _ => serializeInst s' tid = serializeInst s tid /\ resumeSerialize s' = resumeSerialize s
    end
}.

Lemma squash_spec rf inp n tid s u s' :
  squash rf inp n tid s = Ok (u, s') -> squashed tid n s s'.
Proof.
  intros Hr. unfold squash in Hr. apply bind_ok in Hr as (st & s0 & H0 & Hr). injection H0 as <- <-.
  apply bind_ok in Hr as (u1 & s1 & H1 & Hr). apply bind_ok in Hr as (u2 & s2 & H2 & Hr).
  injection H2 as <- <-. apply bind_ok in Hr as (u3 & s3 & H3 & Hr).
  eapply markDecode_marked in H3; [|apply marked_refl].
  apply bind_ok in Hr as (u4 & s4 & H4 & Hr). injection H4 as <- <-.
  apply bind_ok in Hr as (s5 & s6 & H5 & Hr). injection H5 as <- <-.
  apply bind_ok in Hr as (r & s6 & H6 & Hr). apply lift_ok in H6 as [_ ->]. injection Hr as <- <-.
  destruct H3 as [A1 A2 A3 A4 [A5 A6] [A7 A8] A9]. cbn in *.
  assert (Hs1 : insts s1 = insts s /\ skidBuffer s1 = skidBuffer s /\ renameStatus s1 = renameStatus s /\
    resumeUnblocking s1 = resumeUnblocking s /\ toIEW s1 = toIEW s /\ toIEWIndex s1 = toIEWIndex s /\
    instMem s1 = instMem s /\ (forall t, t <> tid -> serializeInst s1 t = serializeInst s t) /\
    match renameStatus s tid with
    | Blocked | Unblocking => serializeInst s1 tid = None /\ resumeSerialize s1 = false
    | SerializeStall => exists p i, serializeInst s tid = Some p /\ heap (instMem s) !! p = Some i /\
        serializeInst s1 tid = (if seqNum i <=? n then Some p else None) /\
        resumeSerialize s1 = (seqNum i <=? n)
    | _ => serializeInst s1 tid = serializeInst s tid /\ resumeSerialize s1 = resumeSerialize s
    end).
  { unfold setRenameUnblock in H1. destruct (renameStatus s tid) eqn:Est.
    1-4: repeat (rewrite decide_False in H1 by naive_solver); injection H1 as <- <-; done.
    1-2: rewrite decide_True in H1 by auto; run; cbn; split_and!; try done;
      [intros t Ht; by rewrite fn_lookup_insert_ne|by rewrite fn_lookup_insert].
    rewrite decide_False in H1 by naive_solver. rewrite decide_True in H1 by done.
    apply bind_ok in H1 as (o & s7 & H7 & H1). injection H7 as <- <-.
    apply bind_ok in H1 as (p & s7 & H7 & H1). apply lift_ok in H7 as [H7 ->].
    destruct (serializeInst s tid) as [p'|] eqn:Ep; [|done]. injection H7 as ->.
    apply bind_ok in H1 as (i & s7 & H7 & H1). apply instOf_spec in H7 as [-> Hi].
    destruct (seqNum i <=? n) eqn:Esn; run; cbn; split_and!; try done.
    - exists p, i. by rewrite Esn.
    - intros t Ht. by rewrite fn_lookup_insert_ne.
    - exists p, i. by rewrite Esn, fn_lookup_insert. }
  destruct Hs1 as (B1 & B2 & B3 & B4 & B5 & B6 & B7 & B8 & B9).
  split; cbn; rewrite ?A1, ?A2, ?A3, ?A4, ?A5, ?A6, ?A7, ?A8, ?B1, ?B2, ?B3, ?B4, ?B5, ?B6; try done.
  by rewrite <- B7.
Qed.

(** ** Turns of threads *)

Section Turns.
Context (rf : PhysRegFile) (flatten : RegId -> RegId) (cfg : RenameConfig) (inp : RenameIn) (w : Z).

#[local] Abbreviation turnSignals tid := (checkSignalsAndUpdate rf cfg inp tid).
#[local] Abbreviation turnRename sc tid := (rename rf flatten cfg inp w sc tid).

(** A turn leaves the serialising instructions of the other threads alone. *)
Definition serials (tid : ThreadID) (f : ThreadID -> option InstPtr) (s : Rename) : Prop :=
  forall t, t <> tid -> serializeInst s t = f t.

Lemma block_serials tid f : keeps (serials tid f) (block cfg tid).
Proof.
  intros s b s' Hs Hr. apply block_spec in Hr as (_ & E & _). intros t Ht. rewrite E. auto.
Qed.

Lemma unblock_serials tid f : keeps (serials tid f) (unblock tid).
Proof.
  intros s b s' Hs Hr. apply unblock_spec in Hr as (_ & _ & E & _). intros t Ht. rewrite E. auto.
Qed.

Lemma quiet_serials {A} (m : M Rename A) tid f : (forall s0, keeps (quiet s0) m) -> keeps (serials tid f) m.
Proof.
  intros Hm s a s' Hs Hr. eapply (Hm s) in Hr; [|apply quiet_refl]. intros t Ht.
  rewrite (q_serial _ _ Hr). auto.
Qed.

Lemma signals_serials tid f : keeps (serials tid f) (turnSignals tid).
Proof.
  assert (Hq : keeps (serials tid f) (squash rf inp (doneSeqNum (fromCommit inp tid)) tid)).
  { intros s u s' Hs Hr. apply squash_spec in Hr. intros t Ht. rewrite (sq_others _ _ _ _ Hr t Ht). auto. }
  unfold checkSignalsAndUpdate. apply keeps_bind; [apply quiet_serials; intros; apply readFreeEntries_quiet|intros _].
  apply keeps_bind; [apply quiet_serials; intros; apply readStallSignals_quiet|intros _].
  pose proof (block_serials tid f). pose proof (unblock_serials tid f).
  unfold setThreadStatus, instOf, setInst.
  keeps_auto; try assumption; try done.
  match goal with H : serials _ _ _ |- _ => intros t Ht; cbn; rewrite fn_lookup_insert_ne by done; by apply H end.
Qed.

Lemma renameLoop_serials tid f skid n k : keeps (serials tid f) (renameLoop rf flatten inp w skid tid n k).
Proof.
  revert k. induction n as [|n IH]; intros k; cbn [renameLoop]; [apply keeps_ret|].
  unfold renameOne, renameSrcRegs, renameDestRegs, countMemInst, sendToIEW, serializeAfter,
    setSerializeBefore, setThreadStatus, instOf, setInst, setQueue.
  keeps_auto; repeat case_match; try first [apply IH|assumption|done].
  match goal with H : serials _ _ _ |- _ => intros t Ht; cbn; rewrite fn_lookup_insert_ne by done; by apply H end.
Qed.

Lemma rename_serials tid f sc : keeps (serials tid f) (turnRename sc tid).
Proof.
  pose proof (block_serials tid f). pose proof (unblock_serials tid f). pose proof (renameLoop_serials tid f).
  assert (keeps (serials tid f) (skidInsert cfg tid)).
  { intros s b s' Hs Hr. apply skidInsert_spec in Hr as (g & h & -> & _). exact Hs. }
  assert (keeps (serials tid f) (renameInsts rf flatten cfg inp w tid)).
  { unfold renameInsts, availableInsts, serializeNext, setRenameUnblock, setSerializeBefore, instOf, setInst.
    keeps_auto; try first [assumption|done|solve [auto]]. }
  unfold rename, setRenameUnblock, validInsts. keeps_auto; try first [assumption|done|solve [auto]].
Qed.

(** A squashing thread renames nothing. *)
Lemma rename_squashing tid sc s b s' :
  renameStatus s tid = Squashing -> turnRename sc tid s = Ok (b, s') -> s' = s.
Proof.
  intros Hst Hr. unfold rename in Hr. apply bind_ok in Hr as (st & s0 & H0 & Hr). injection H0 as <- <-.
  rewrite Hst in Hr. repeat (rewrite decide_False in Hr by naive_solver).
  apply bind_ok in Hr as (u & s0 & H0 & Hr). injection H0 as <- <-.
  apply bind_ok in Hr as (st & s0 & H0 & Hr). injection H0 as <- <-.
  rewrite Hst in Hr. repeat (rewrite decide_False in Hr by naive_solver). by injection Hr as _ <-.
Qed.

(** A squashing turn: the squash, with quiet steps before it. *)
Lemma turn_squash tid sc s b s1 c s' :
  commit_squash (fromCommit inp tid) = true ->
  turnSignals tid s = Ok (b, s1) -> turnRename sc tid s1 = Ok (c, s') ->
  exists s0, quiet s s0 /\ squashed tid (doneSeqNum (fromCommit inp tid)) s0 s'.
Proof.
  intros Hc H1 H2. unfold checkSignalsAndUpdate in H1. rewrite Hc in H1.
  apply bind_ok in H1 as (u1 & s2 & H3 & H1). eapply (readFreeEntries_quiet inp s) in H3; [|done].
  apply bind_ok in H1 as (u2 & s3 & H4 & H1). eapply (readStallSignals_quiet inp s) in H4; [|done].
  apply bind_ok in H1 as (u3 & s4 & H5 & H1). injection H1 as <- <-. apply squash_spec in H5.
  apply rename_squashing in H2 as ->; [eauto|]. by rewrite (sq_status _ _ _ _ H5), fn_lookup_insert.
Qed.

(** *** Turns in which no serialising stall is interrupted *)

(** A squash would keep no serialising instruction of the thread. *)
Definition drops (V : view) (t : ThreadID) (s : Rename) : Prop :=
  forall p b n, serializeInst s t = Some p -> V p = Some (t, (b, n)) ->
    doneSeqNum (fromCommit inp t) < n.

Lemma sent_ext V V' t s s' :
  toIEW s' = toIEW s -> (forall p, ofThread V' t p <-> ofThread V t p) -> sent V' t s' = sent V t s.
Proof. intros E H. unfold sent. rewrite E. by apply list_filter_iff'. Qed.

(** The thread's instructions go, the others' stay. *)
Lemma squash_stageInv V L tid s s' :
  stageInv w V L s -> sent V tid s = [] -> drops V tid s ->
  squashed tid (doneSeqNum (fromCommit inp tid)) s s' ->
  stageInv w (viewOf (instMem s')) (<[tid := []]> L) s' /\ viewStep tid V (viewOf (instMem s')).
Proof.
  intros [[Fv Ft Fs [Fr Fu] Fl] O W] Hsent Hdrop [Q1 Q2 Q3 Q4 [Q5 Q6] Q7 Q8 Q9].
  set (V' := viewOf (instMem s')) in *.
  assert (HV : viewStep tid V V').
  { intros p. rewrite <- Fv. apply Q7. }
  assert (Hser : serializeInst s' tid = None /\ resumeSerialize s' = false).
  { destruct (renameStatus s tid) eqn:Est; try done;
      try (destruct Q9 as [-> ->]; split; [|done]; destruct (serializeInst s tid) eqn:Ep; [|done];
           specialize (Fs tid); rewrite Ep, Est in Fs; by discriminate Fs).
    destruct Q9 as (p & i & Ep & Hi & -> & ->). apply hasView_lookup in Hi as Hv.
    assert (Hp : ofThread V tid p) by (apply Ft; unfold pend; rewrite Ep; by left).
    unfold hasView in Hv. rewrite Fv in Hv. unfold ofThread in Hp. rewrite Hv in Hp. injection Hp as Et.
    rewrite Et in Hv. specialize (Hdrop _ _ _ Ep Hv).
    destruct (Z.leb_spec (seqNum i) (doneSeqNum (fromCommit inp tid))); [lia|done]. }
  destruct Hser as [Hser Hres].
  assert (Hp1 : pend tid s' = []) by (unfold pend; by rewrite Hser, Q1, Q2, !fn_lookup_insert).
  assert (Hp2 : forall t, t <> tid -> pend t s' = pend t s).
  { intros t Ht. unfold pend. by rewrite Q1, Q2, Q8, !fn_lookup_insert_ne. }
  assert (Hs2 : forall t, sent V' t s' = sent V t s).
  { intros t. apply sent_ext; [done|]. intros p. by eapply viewStep_thread. }
  split; [|done]. split; [split|..].
  - done.
  - intros t p Hp. destruct (decide (t = tid)) as [->|Ht].
    + rewrite Hp1 in Hp. by apply not_elem_of_nil in Hp.
    + rewrite Hp2 in Hp by done. rewrite viewStep_thread by done. auto.
  - intros t [p Hp]. destruct (decide (t = tid)) as [->|Ht]; [congruence|].
    rewrite Q3, fn_lookup_insert_ne by done. apply Fs. rewrite <- Q8 by done. eauto.
  - split; congruence.
  - intros t. rewrite Hs2. destruct (decide (t = tid)) as [->|Ht].
    + by rewrite fn_lookup_insert, Hsent, Hp1.
    + rewrite fn_lookup_insert_ne, Hp2, <- Fl by done. apply list_filter_iff'. intros p Hp.
      unfold live. rewrite (viewStep_other tid V V' t p); [done..| |done].
      rewrite !elem_of_app in Hp. destruct Hp as [Hp|[Hp|Hp]]; [|by apply not_elem_of_nil in Hp|auto].
      by apply list_elem_of_filter in Hp as [? _].
  - intros t. rewrite Q2, Q3. destruct (decide (t = tid)) as [->|Ht].
    + intros _. by rewrite fn_lookup_insert.
    + rewrite !fn_lookup_insert_ne by done. apply O.
  - unfold widthOK in *. by rewrite Q5, Q6.
Qed.

(** What the turns of threads leave of what was due. *)
Definition dueAfter (threads : list ThreadID) (L : ThreadID -> list InstPtr) (t : ThreadID) : list InstPtr :=
  if bool_decide (t ∈ threads) && commit_squash (fromCommit inp t) then [] else L t.

(** One turn. *)
Lemma turn_calm V L tid sc s b s1 c s2 :
  stageInv w V L s -> sent V tid s = [] ->
  (commit_squash (fromCommit inp tid) = true -> drops V tid s) ->
  turnSignals tid s = Ok (b, s1) -> turnRename sc tid s1 = Ok (c, s2) ->
  exists V', stageInv w V' (if commit_squash (fromCommit inp tid) then <[tid := []]> L else L) s2 /\
    viewStep tid V V' /\ (forall t, t <> tid -> sent V' t s2 = sent V t s) /\
    (forall t, t <> tid -> serializeInst s2 t = serializeInst s t).
Proof.
  intros Hinv Hsent Hdrop H1 H2.
  assert (Hser : serials tid (serializeInst s) s2).
  { eapply rename_serials; [|exact H2]. by eapply signals_serials; [|exact H1]. }
  destruct (commit_squash (fromCommit inp tid)) eqn:Hc.
  - destruct (turn_squash _ _ _ _ _ _ _ Hc H1 H2) as (s0 & Hq & Hs).
    apply (squash_stageInv V L) in Hs as Hs'.
    + destruct Hs' as [A1 A2]. eexists. split_and!; [exact A1|exact A2| |done]. intros t _.
      apply sent_ext; [|intros p; by eapply viewStep_thread].
      destruct (sq_toIEW _ _ _ _ Hs) as [-> _]. by destruct (q_toIEW _ _ Hq) as [-> _].
    + by eapply quiet_stageInv.
    + rewrite <- Hsent. apply sent_ext; [|done]. by destruct (q_toIEW _ _ Hq) as [-> _].
    + intros p b' n Hp. rewrite (q_serial _ _ Hq) in Hp. by apply Hdrop.
  - pose proof (checkSignalsAndUpdate_stageInv _ _ _ _ _ _ tid Hc s b s1 Hinv H1) as Hinv1.
    eapply (checkSignals_credits rf cfg inp (toIEW s) (freeEntries s) (instsInProgress s)) in H1
      as (E1 & _ & _); [|done..].
    destruct (rename_spec _ _ _ _ _ _ _ _ tid s1 c s2 Hinv1 H2) as (Hinv2 & l & El & Hf & _).
    exists V. split_and!; [done|apply viewStep_refl| |done]. intros t Ht. unfold sent.
    rewrite El, E1, list_basics.list.filter_app, (filter_none _ l), app_nil_r; [done|].
    intros x Hx Hv. rewrite list_relations.list.Forall_forall in Hf. specialize (Hf x Hx).
    unfold ofThread in *. congruence.
Qed.

Lemma drops_step V V' tid t s s' :
  viewStep tid V V' -> serializeInst s' t = serializeInst s t -> drops V t s -> drops V' t s'.
Proof.
  intros Hv Hs Hd p b n Hp HV. rewrite Hs in Hp. destruct (Hv p) as [E|(b1 & b2 & k & E1 & E2)].
  - rewrite E in HV. by eapply Hd.
  - rewrite E2 in HV. injection HV as -> -> ->. by eapply Hd.
Qed.

Lemma tickThreads_calm threads : forall V L sc s b s',
  NoDup threads -> stageInv w V L s ->
  (forall t, t ∈ threads -> sent V t s = []) ->
  (forall t, t ∈ threads -> commit_squash (fromCommit inp t) = true -> drops V t s) ->
  tickThreads rf flatten cfg inp w threads sc s = Ok (b, s') ->
  exists V' L', stageInv w V' L' s' /\ forall t, L' t = dueAfter threads L t.
Proof.
  induction threads as [|tid threads IH]; intros V L sc s b s' Hnd Hinv Hsent Hdrop Hr; cbn in Hr.
  { run. exists V, L. done. }
  apply list_relations.list.NoDup_cons in Hnd as [Hni Hnd].
  apply bind_ok in Hr as (b1 & s1 & H1 & Hr). apply bind_ok in Hr as (b2 & s2 & H2 & Hr).
  pose proof (turn_calm V L tid _ s b1 s1 b2 s2 Hinv (Hsent tid ltac:(left)) (Hdrop tid ltac:(left)) H1 H2)
    as (V1 & Hinv1 & Hv & Hsent1 & Hser).
  eapply (IH V1) in Hr as (V' & L' & Hinv' & HL); [|done|exact Hinv1|..].
  - exists V', L'. split; [done|]. intros t. rewrite HL. unfold dueAfter.
    destruct (decide (t = tid)) as [->|Ht].
    + rewrite (bool_decide_eq_false_2 (tid ∈ threads)), (bool_decide_eq_true_2 (tid ∈ tid :: threads))
        by (done || left). cbn. case_match; [by rewrite fn_lookup_insert|done].
    + rewrite (bool_decide_ext (t ∈ tid :: threads) (t ∈ threads)) by (rewrite elem_of_cons; naive_solver).
      destruct (bool_decide (t ∈ threads) && commit_squash (fromCommit inp t)); [done|]. destruct (commit_squash (fromCommit inp tid)); [|done].
      by rewrite fn_lookup_insert_ne.
  - intros t Ht. rewrite Hsent1 by (intros ->; done). apply Hsent. by right.
  - intros t Ht Hc. eapply drops_step; [exact Hv|apply Hser; by intros ->|]. apply Hdrop; [by right|done].
Qed.

End Turns.

(** ** A cycle of the stage *)

Lemma keptSerial_serial inp t s p : keptSerial inp t s = Some p -> serializeInst s t = Some p.
Proof.
  unfold keptSerial. destruct (serializeInst s t) as [q|]; [|done]. cbn.
  destruct (heap (instMem s) !! q); [|done]. cbn. by case_match.
Qed.

(** What a thread has in hand after the cycle, [due] unless it was squashed. *)
Definition flowsTo (cfg : RenameConfig) (inp : RenameIn) (s s' : Rename) : Prop :=
  forall t, let V' := viewOf (instMem s') in
  filter (live V') (sent V' t s' ++ pend t s') =
    if squashedNow cfg inp t then filter (live V') (option_list (keptSerial inp t s)) else due inp t s.

Lemma stageInv_view w V L s : stageInv w V L s -> stageInv w (viewOf (instMem s)) L s.
Proof.
  intros [[Fv Ft Fs Fr Fl] O W]. assert (Hx : forall t p, ofThread (viewOf (instMem s)) t p <-> ofThread V t p).
  { intros t p. apply ofThread_ext, Fv. }
  split; [split|done|done]; try done.
  - intros t p Hp. apply Hx. auto.
  - intros t. rewrite <- Fl, (sent_ext V _ t s s) by auto. apply list_filter_iff'. intros p _.
    unfold live. by rewrite Fv.
Qed.

Lemma stageInv_rest w V L s : stageInv w V L s -> stageRest s.
Proof.
  intros H. apply stageInv_view in H as [[Fv Ft Fs [Fr Fu] Fl] O W]. split; try done.
  - intros t Ht. left. auto.
  - congruence.
Qed.

Section Cycle.
Context (rf : PhysRegFile) (flatten : RegId -> RegId) (cfg : RenameConfig) (inp : RenameIn) (w : Z).
Context (s s' : Rename) (u : unit).
Hypothesis (Hrest : stageRest s) (Hw : 0 <= w) (Hnd : NoDup (activeThreads cfg)).
Hypothesis (Hr : tick rf flatten cfg inp w s = Ok (u, s')).

(** No thread resumes and no squash keeps an instruction. *)
Lemma cycle_calm :
  (forall t, ~ resuming t s) ->
  (forall t, squashedNow cfg inp t = true -> keptSerial inp t s = None) ->
  stageRest s' /\ flowsTo cfg inp s s'.
Proof.
  intros Hnone Hkept. destruct Hrest as [Rt Rs Rf Ru Rk].
  assert (Hri : restInv s).
  { split; [done| |split; [|done]|done].
    - intros t Ht. destruct (Rs t Ht) as [?|[Hq _]]; [done|]. destruct (Hnone t). by split.
    - destruct (resumeSerialize s); [|done]. destruct (Rf eq_refl) as [t Ht]. by destruct (Hnone t). }
  apply tick_enter in Hr as (g & sc & s3 & Hg & H3 & Hq).
  eapply tickThreads_calm in H3 as (V' & L' & Hinv & HL); [|done|by apply enter_stageInv|done|].
  - apply (quiet_stageInv _ _ _ _ _ Hq) in Hinv. split; [by eapply stageInv_rest|].
    intros t V1. apply stageInv_view in Hinv as [[_ _ _ _ Fl] _ _]. specialize (Fl t). cbn in Fl.
    unfold V1. rewrite Fl, HL. unfold dueAfter, squashedNow in *. specialize (Hkept t).
    case_match; [|done]. by rewrite Hkept.
  - intros t Ht Hc p b n Hp HV. cbn in Hp.
    assert (Hsq : squashedNow cfg inp t = true)
      by (unfold squashedNow; by rewrite bool_decide_eq_true_2, Hc).
    specialize (Hkept t Hsq). unfold keptSerial in Hkept. rewrite Hp in Hkept. cbn in Hkept.
    unfold viewOf in HV. destruct (heap (instMem s) !! p) as [i|]; [|done]. cbn in HV, Hkept.
    injection HV as _ _ <-. case_match eqn:E; [done|]. apply orb_false_iff in E as [_ E]. lia.
Qed.

(** What a cycle does when the only active thread is squashed and keeps [p]. *)
Record keptCycle (t : ThreadID) (p : InstPtr) (g : ThreadID -> list InstPtr) : Prop := {
  kc_serial : serializeInst s' t = Some p /\ resumeSerialize s' = true;
  kc_status : renameStatus s' t = Squashing /\ skidBuffer s' t = [];
  kc_pend : pend t s' = [p];
  kc_others : forall x, x <> t ->
    pend x s' = pend x (enter g s) /\ serializeInst s' x = serializeInst s x /\
    renameStatus s' x = renameStatus s x /\ skidBuffer s' x = skidBuffer s x;
  kc_unblocking : resumeUnblocking s' = false;
  kc_sent : toIEW s' = [];
  kc_view : viewStep t (viewOf (instMem s)) (viewOf (instMem s'))
}.

Lemma kept_cycle t p :
  activeThreads cfg = [t] -> commit_squash (fromCommit inp t) = true -> keptSerial inp t s = Some p ->
  exists g, sorted inp s g /\ keptCycle t p g.
Proof.
  intros Hact Hc Hkept. apply tick_enter in Hr as (g & sc & s3 & Hg & H3 & Hq). exists g. split; [done|].
  rewrite Hact in H3. cbn in H3.
  apply bind_ok in H3 as (b1 & s1 & H1 & H3). apply bind_ok in H3 as (b2 & s2 & H2 & H3). injection H3 as <- <-.
  destruct (turn_squash _ _ _ _ _ _ _ _ _ _ _ _ Hc H1 H2) as (s0 & Hq0 & [Q1 Q2 Q3 Q4 [Q5 Q6] Q7 Q8 Q9]).
  clear H1 H2. destruct Hq0 as [A1 A2 A3 A4 [A5 A6] [A7 A8] A9].
  destruct Hq as [B1 B2 B3 B4 [B5 B6] [B7 B8] B9]. cbn in A1, A2, A3, A4, A5, A6, A7, A8, A9.
  assert (Hser : serializeInst s' t = Some p /\ resumeSerialize s' = true).
  { rewrite B3, B5. unfold keptSerial in Hkept. rewrite A4 in Q9. rewrite A3 in Q9. cbn in Q9.
    destruct (serializeInst s t) as [p'|] eqn:Ep; [|done]. cbn in Hkept.
    destruct (heap (instMem s) !! p') as [i|] eqn:Hi; [|done]. cbn in Hkept.
    destruct (sr_serial _ Hrest t) as [Est|[Est Er]]; [by rewrite Ep| |].
    - rewrite Est in Q9, Hkept. cbn in Hkept. destruct Q9 as (p1 & i1 & [= <-] & Hi1 & E1 & E2).
      apply hasView_lookup in Hi1, Hi. pose proof (eq_trans (eq_sym Hi1) (eq_trans (A9 p') Hi)) as [= _ _ En].
      rewrite En in E1, E2. destruct (seqNum i <=? _); [|done]. injection Hkept as <-. done.
    - rewrite Est in Q9, Hkept. cbn in Hkept. injection Hkept as <-. destruct Q9 as [-> ->]. by rewrite A5, Er. }
  split; [done|..].
  - by rewrite B4, Q3, B2, Q2, !fn_lookup_insert.
  - unfold pend. by rewrite (proj1 Hser), B1, B2, Q1, Q2, !fn_lookup_insert.
  - intros x Hx. unfold pend. rewrite B1, B2, B3, B4, Q1, Q2, Q3, Q8, A1, A2, A3, A4 by done.
    by rewrite !fn_lookup_insert_ne.
  - by rewrite B6, Q4, A6, (sr_unblocking _ Hrest).
  - by rewrite B7, Q5, A7.
  - intros q. rewrite B9. pose proof (A9 q) as E. cbn in E. rewrite <- E. apply Q7.
Qed.

(** A thread that is alone and whose serialising instruction a squash keeps. *)
Lemma cycle_kept t p :
  activeThreads cfg = [t] -> (forall x, resuming x s -> x = t) ->
  commit_squash (fromCommit inp t) = true -> keptSerial inp t s = Some p ->
  stageRest s' /\ flowsTo cfg inp s s'.
Proof.
  intros Hact Halone Hc Hkept.
  destruct (kept_cycle t p Hact Hc Hkept) as (g & Hg & [[K1 K2] [K3 K4] K5 K6 K7 K8 K9]).
  destruct Hrest as [Rt Rs Rf Ru Rk].
  set (V := viewOf (instMem s)) in *. set (V' := viewOf (instMem s')) in *.
  assert (Hth : forall x q, q ∈ pend x s' -> ofThread V x q).
  { intros x q Hq. destruct (decide (x = t)) as [->|Hx].
    - apply Rt. rewrite K5 in Hq. apply list_elem_of_singleton in Hq as ->. unfold pend.
      rewrite (keptSerial_serial _ _ _ _ Hkept). by left.
    - destruct (K6 x Hx) as [E _]. rewrite E, (pend_enter inp), elem_of_app, list_elem_of_filter in Hq by done.
      destruct Hq as [Hq|[Hq _]]; auto. }
  split; [split|].
  - intros x q Hq. rewrite viewStep_thread by done. auto.
  - intros x Hx. destruct (decide (x = t)) as [->|Hne]; [by right|left].
    destruct (K6 x Hne) as (_ & E1 & -> & _). rewrite E1 in Hx.
    destruct (Rs x Hx) as [?|[Hst _]]; [done|]. destruct Hne. apply Halone. by split.
  - intros _. exists t. split; [done|by rewrite K1].
  - done.
  - intros x. destruct (decide (x = t)) as [->|Hne]; [done|].
    destruct (K6 x Hne) as (_ & _ & -> & ->). apply Rk.
  - intros x V1. unfold V1. fold V'. assert (Hsent : sent V' x s' = []) by (unfold sent; by rewrite K8).
    rewrite Hsent. cbn [app]. unfold squashedNow. rewrite Hact. destruct (decide (x = t)) as [->|Hne].
    + by rewrite K5, bool_decide_eq_true_2, Hc, Hkept by (by left).
    + rewrite bool_decide_eq_false_2 by (by intros ->%list_elem_of_singleton). cbn [andb].
      destruct (K6 x Hne) as [E _]. unfold due. fold V. rewrite E, <- (pend_enter inp s g) by done.
      apply list_filter_iff'. intros q Hq. unfold live.
      rewrite (viewStep_other t V V' x q); [done..| |done]. apply Hth. by rewrite E.
Qed.

(** The state in which a resuming thread is again in its stall. *)
Lemma resume_stageInv t g :
  sorted inp s g -> (forall x, resuming x s -> x = t) -> is_Some (serializeInst s t) ->
  forall s1, quiet (enter g s) s1 ->
  stageInv w (viewOf (instMem s)) (fun x => due inp x s)
    (s1 <| renameStatus := <[t := SerializeStall]> (renameStatus s1) |> <| resumeSerialize := false |>).
Proof.
  intros Hg Halone Hser s1 Hq. destruct Hrest as [Rt Rs Rf Ru Rk].
  assert (Hpend : forall x, pend x s1 = pend x (enter g s)).
  { intros x. unfold pend. by rewrite (q_insts _ _ Hq), (q_skid _ _ Hq), (q_serial _ _ Hq). }
  destruct Hq as [A1 A2 A3 A4 [A5 A6] [A7 A8] A9]. cbn in *.
  split; [split|..]; cbn.
  - exact A9.
  - intros x q Hq. change (q ∈ pend x s1) in Hq. rewrite Hpend, (pend_enter inp) in Hq by done.
    rewrite elem_of_app, list_elem_of_filter in Hq. destruct Hq as [Hq|[Hq _]]; auto.
  - intros x Hx. rewrite A3 in Hx. destruct (decide (x = t)) as [->|Hne]; [by rewrite fn_lookup_insert|].
    rewrite fn_lookup_insert_ne, A4 by done. cbn. destruct (Rs x Hx) as [?|[Hst _]]; [done|].
    destruct Hne. apply Halone. by split.
  - by rewrite A6.
  - intros x. unfold sent. cbn. rewrite A7. cbn. change (pend x _) with (pend x s1).
    by rewrite Hpend, (pend_enter inp).
  - intros x. cbn. destruct (decide (x = t)) as [->|Hne].
    + rewrite fn_lookup_insert. unfold stalled. tauto.
    + rewrite fn_lookup_insert_ne, A2, A4 by done. apply Rk.
  - unfold widthOK. cbn. rewrite A7, A8. cbn. lia.
Qed.

(** What [checkStall] depends on besides what the signals carry. *)
Definition stallPart (a s : Rename) : Prop :=
  threadMaps s = threadMaps a /\ freeList s = freeList a /\ instMem s = instMem a /\
  histories s = histories a /\ instsInProgress s = instsInProgress a /\
  loadsInProgress s = loadsInProgress a /\ storesInProgress s = storesInProgress a /\
  renameStatus s = renameStatus a.

Lemma readFreeEntries_stall a t b :
  keeps (fun s => stallPart a s /\ stalls_iew s = b) (readFreeEntries inp t).
Proof. unfold readFreeEntries. keeps_auto; first [assumption|done]. Qed.

Lemma readStallSignals_stall a t f :
  keeps (fun s => stallPart a s /\ freeEntries s = f) (readStallSignals inp t).
Proof. unfold readStallSignals. keeps_auto; first [assumption|done]. Qed.

Lemma readStallSignals_iew t a v b :
  readStallSignals inp t a = Ok (v, b) ->
  stalls_iew b t = if iewUnblock (fromIEW inp t) then false else stalls_iew a t || iewBlock (fromIEW inp t).
Proof.
  unfold readStallSignals. intros H. run; cbn; rewrite ?fn_lookup_insert, ?orb_true_r, ?orb_false_r; done.
Qed.

(** The stage as it has read its signals stalls as [withSignals] says. *)
Lemma signals_stall t g u1 s1 u2 s2 :
  renameStatus s t = Squashing ->
  readFreeEntries inp t (enter g s) = Ok (u1, s1) -> readStallSignals inp t s1 = Ok (u2, s2) ->
  checkStall inp t s2 = checkStall inp t (withSignals inp t s).
Proof.
  intros Hst H1 H2. apply readStallSignals_iew in H2 as E2.
  apply (readStallSignals_stall s1 t (freeEntries s1)) in H2 as [(A1 & A2 & A3 & A4 & A5 & A6 & A7 & A8) A9]; [|done].
  apply (readFreeEntries_credits inp (toIEW (enter g s)) (freeEntries s) (instsInProgress s)) in H1 as E1; [|done].
  destruct E1 as (_ & E1 & _). specialize (E1 t). rewrite fn_lookup_insert in E1.
  apply (readFreeEntries_stall s t (stalls_iew s)) in H1 as [(B1 & B2 & B3 & B4 & B5 & B6 & B7 & B8) B9]; [|done].
  unfold checkStall, calcFreeROBEntries, calcFreeIQEntries, calcFreeLQEntries, calcFreeSQEntries, regsOf.
  rewrite E2, A1, A2, A3, A5, A6, A7, A8, A9, E1, B1, B2, B3, B5, B6, B7, B8, B9, Hst.
  unfold withSignals, withNewFree. cbn. by rewrite !fn_lookup_insert, Hst.
Qed.

(** A turn that starts in the stall again blocks. *)
Lemma rename_resumed V L sc t s1 b s2 :
  renameStatus s1 t = SerializeStall -> resumeSerialize s1 = true ->
  stageInv w V L (s1 <| resumeSerialize := false |>) ->
  rename rf flatten cfg inp w sc t s1 = Ok (b, s2) -> stageInv w V L s2.
Proof.
  intros Hst Hres Hinv H. unfold rename in H. apply bind_ok in H as (st & s3 & H3 & H). injection H3 as <- <-.
  rewrite decide_True in H by done. apply bind_ok in H as (u1 & s3 & H3 & H).
  apply bind_ok in H3 as (r & s4 & H4 & H3). injection H4 as <- <-. rewrite Hres in H3. cbn [when] in H3.
  apply bind_ok in H3 as (u2 & s5 & H5 & H3). injection H5 as <- <-.
  apply bind_ok in H3 as (b6 & s6 & H6 & H3). pose proof (block_stageInv _ _ V L _ _ _ _ Hinv H6) as Hinv6.
  apply block_spec in H6 as (_ & _ & E & _). cbn in E. rewrite Hst, decide_True in E by done.
  apply (setRenameUnblock_quiet s6) in H3 as Hq; [|apply quiet_refl].
  apply bind_ok in H as (st & s7 & H7 & H). injection H7 as <- <-. rewrite (q_status _ _ Hq), E in H.
  repeat (rewrite decide_False in H by naive_solver). injection H as _ <-. by eapply quiet_stageInv.
Qed.

(** A resuming thread that is alone and not told to stall. *)
Lemma cycle_resumed t :
  activeThreads cfg = [t] -> (forall x, resuming x s -> x = t) -> resuming t s ->
  commit_squash (fromCommit inp t) = false -> checkStall inp t (withSignals inp t s) = false ->
  stageRest s' /\ flowsTo cfg inp s s'.
Proof.
  intros Hact Halone [Hst Hser] Hc Hstall.
  assert (Hres : resumeSerialize s = true) by (destruct (sr_serial _ Hrest t Hser) as [?|[_ ?]]; congruence).
  apply tick_enter in Hr as (g & sc & s3 & Hg & H3 & Hq). rewrite Hact in H3. cbn in H3.
  apply bind_ok in H3 as (b1 & s1 & H1 & H3). apply bind_ok in H3 as (b2 & s2 & H2 & H3). injection H3 as _ <-.
  unfold checkSignalsAndUpdate in H1. rewrite Hc in H1.
  apply bind_ok in H1 as (u1 & s4 & H4 & H1). apply bind_ok in H1 as (u2 & s5 & H5 & H1).
  pose proof (signals_stall t g u1 s4 u2 s5 Hst H4 H5) as E. rewrite Hstall in E.
  eapply (readFreeEntries_quiet inp (enter g s)) in H4; [|apply quiet_refl].
  eapply (readStallSignals_quiet inp (enter g s)) in H5; [|done].
  apply bind_ok in H1 as (st & s6 & H6 & H1). injection H6 as <- <-. rewrite E in H1.
  apply bind_ok in H1 as (st & s6 & H6 & H1). injection H6 as <- <-.
  rewrite (q_status _ _ H5) in H1. cbn in H1. rewrite Hst in H1. cbn in H1.
  apply bind_ok in H1 as (rs & s6 & H6 & H1). injection H6 as <- <-.
  apply bind_ok in H1 as (ru & s6 & H6 & H1). injection H6 as <- <-.
  destruct (q_resume _ _ H5) as [E5 _]. rewrite E5 in H1. cbn in H1. rewrite Hres in H1.
  injection H1 as <- <-.
  eapply rename_resumed in H2; [|cbn; by rewrite fn_lookup_insert|cbn; by rewrite E5
    |by apply (resume_stageInv t g)].
  apply (quiet_stageInv _ _ _ _ _ Hq) in H2. split; [by eapply stageInv_rest|].
  intros x V1. apply stageInv_view in H2 as [[_ _ _ _ Fl] _ _]. specialize (Fl x). cbn in Fl.
  unfold V1. rewrite Fl. unfold squashedNow. rewrite Hact.
  destruct (decide (x = t)) as [->|Hne]; [by rewrite Hc, andb_false_r|].
  by rewrite bool_decide_eq_false_2 by (by intros ->%list_elem_of_singleton).
Qed.

End Cycle.

Lemma not_resuming s t : stageRest s -> resumeSerialize s = false -> ~ resuming t s.
Proof. intros Hs Hf [Hq Hp]. destruct (sr_serial _ Hs t Hp) as [?|[_ ?]]; congruence. Qed.

(** A cycle from a state between cycles. *)
Lemma cycle_flows rf flatten cfg inp w s u s' :
  stageRest s -> 0 <= w -> NoDup (activeThreads cfg) -> resumesAlone cfg inp s ->
  tick rf flatten cfg inp w s = Ok (u, s') -> stageRest s' /\ flowsTo cfg inp s s'.
Proof.
  intros Hrest Hw Hnd Halone Hr.
  assert (Hact : forall t, squashedNow cfg inp t = true -> t ∈ activeThreads cfg).
  { intros t Ht. unfold squashedNow in Ht. apply andb_true_iff in Ht as [Ht _].
    by apply bool_decide_eq_true in Ht. }
  destruct (decide (Exists (fun t => keptSerial inp t s <> None /\ commit_squash (fromCommit inp t) = true)
    (activeThreads cfg))) as [Hk|Hk].
  - apply list_relations.list.Exists_exists in Hk as (t & Ht & Hp & Hc).
    destruct (keptSerial inp t s) as [p|] eqn:Ek; [|done].
    assert (Hsq : squashedNow cfg inp t = true) by (unfold squashedNow; by rewrite bool_decide_eq_true_2, Hc).
    destruct (Halone t) as [Ha _]; [right; by rewrite Ek|].
    eapply cycle_kept; try done. intros x Hx. destruct (Halone x) as [Hb _]; [by left|]. congruence.
  - assert (Hnone : forall t, squashedNow cfg inp t = true -> keptSerial inp t s = None).
    { intros t Ht. destruct (keptSerial inp t s) eqn:Ek; [|done]. destruct Hk.
      apply list_relations.list.Exists_exists. exists t. split; [by apply Hact|]. rewrite Ek. split; [done|].
      unfold squashedNow in Ht. by apply andb_true_iff in Ht as [_ ?]. }
    destruct (resumeSerialize s) eqn:Eres.
    + destruct (sr_flag _ Hrest Eres) as [t Ht]. destruct (Halone t) as [Ha Hst]; [by left|].
      assert (Hc : commit_squash (fromCommit inp t) = false).
      { destruct (commit_squash (fromCommit inp t)) eqn:Hc; [|done].
        assert (Hn : keptSerial inp t s = None).
        { apply Hnone. unfold squashedNow. rewrite Ha, Hc, bool_decide_eq_true_2 by (by left). done. }
        destruct Ht as [Hsq [p Hp]]. unfold keptSerial in Hn. rewrite Hp, Hsq in Hn. cbn in Hn.
        assert (Hth : ofThread (viewOf (instMem s)) t p) by (apply (sr_thread _ Hrest); unfold pend; rewrite Hp; by left).
        unfold ofThread, viewOf in Hth. by destruct (heap (instMem s) !! p). }
      eapply cycle_resumed; try done; [|by apply Hst].
      intros x Hx. destruct (Halone x) as [Hb _]; [by left|]. congruence.
    + eapply cycle_calm; try done. intros t. by apply not_resuming.
Qed.

(** ** The states the stage reaches *)

Section Reach.
Context (rf : PhysRegFile) (flatten : RegId -> RegId) (ac : AdaptiveConfig) (cfg : RenameConfig).

(** What the other stages may do between two cycles: anything but touch the
    stage's queues and status, or the thread of an instruction. *)
Record outside (s s' : Rename) : Prop := {
  ou_insts : insts s' = insts s;
  ou_skid : skidBuffer s' = skidBuffer s;
  ou_serial : serializeInst s' = serializeInst s;
  ou_status : renameStatus s' = renameStatus s;
  ou_resume : resumeSerialize s' = resumeSerialize s /\ resumeUnblocking s' = resumeUnblocking s;
  ou_thread : forall t p, ofThread (viewOf (instMem s)) t p -> ofThread (viewOf (instMem s')) t p
}.

(** The stage starts from [resetStage] with its queues empty. *)
Inductive renameReach : Rename -> Prop :=
| RR_start n free s : (forall t, insts s t = [] /\ skidBuffer s t = []) ->
    (forall t, (n <= t)%nat -> serializeInst s t = None) -> renameReach (resetStage n free s)
| RR_outside s s' : renameReach s -> outside s s' -> renameReach s'
| RR_cycle s as_ inp u s' : renameReach s -> resumesAlone cfg inp s ->
    cpuTick rf flatten ac as_ cfg inp s = Ok (u, s') -> renameReach s'.

Lemma outside_rest s s' : outside s s' -> stageRest s -> stageRest s'.
Proof.
  intros [A1 A2 A3 A4 [A5 A6] A7] [B1 B2 B3 B4 B5]. split; unfold skidOK, resuming, pend in *.
  - intros t p. rewrite A1, A2, A3. auto.
  - by rewrite A3, A4, A5.
  - by rewrite A3, A4, A5.
  - congruence.
  - by rewrite A2, A4.
Qed.

Lemma resetStage_fields n free s :
  let s' := resetStage n free s in
  insts s' = insts s /\ skidBuffer s' = skidBuffer s /\ resumeSerialize s' = false /\
  resumeUnblocking s' = false /\
  forall t, serializeInst s' t = if bool_decide (t < n)%nat then None else serializeInst s t.
Proof.
  unfold resetStage. induction n as [|n IH]; [done|].
  rewrite seq_S, foldl_app. cbn [foldl plus]. unfold clearStates at 1. cbn in *.
  destruct IH as (H1 & H2 & H3 & H4 & H5). split_and!; try done. intros t.
  destruct (decide (t = n)) as [->|Ht].
  - rewrite fn_lookup_insert, bool_decide_eq_true_2 by lia. done.
  - rewrite fn_lookup_insert_ne, H5 by done. erewrite bool_decide_ext; [done|]. lia.
Qed.

Lemma reset_rest n free s :
  (forall t, insts s t = [] /\ skidBuffer s t = []) ->
  (forall t, (n <= t)%nat -> serializeInst s t = None) -> stageRest (resetStage n free s).
Proof.
  intros Hq Hn. destruct (resetStage_fields n free s) as (E1 & E2 & E3 & E4 & E5). cbn in *.
  assert (Hs : forall t, serializeInst (resetStage n free s) t = None).
  { intros t. rewrite E5. case_bool_decide; [done|]. apply Hn. lia. }
  split.
  - intros t p. unfold pend. rewrite E1, E2, Hs. destruct (Hq t) as [-> ->]. by intros ?%not_elem_of_nil.
  - intros t. rewrite Hs. by intros [].
  - congruence.
  - done.
  - intros t _. rewrite E2. by destruct (Hq t).
Qed.

Hypothesis (Hw : 1 <= renameWidth cfg) (Hnd : NoDup (activeThreads cfg)).

Lemma cpuTick_flows as_ inp s u s' :
  stageRest s -> resumesAlone cfg inp s -> cpuTick rf flatten ac as_ cfg inp s = Ok (u, s') ->
  stageRest s' /\ flowsTo cfg inp s s'.
Proof.
  intros Hs Ha Hr. eapply cycle_flows; [done| |done..|exact Hr].
  unfold adaptiveRenameWidth. case_ifs; lia.
Qed.

Lemma reach_rest s : renameReach s -> stageRest s.
Proof.
  induction 1 as [n free s Hq Hn|s s' _ IH Ho|s as_ inp u s' _ IH Ha Hr].
  - by apply reset_rest.
  - by eapply outside_rest.
  - by eapply cpuTick_flows in Hr as [? _].
Qed.

End Reach.

(** C3: rename passes every thread's instructions on in order, losing none and
    sending none twice, also in cycles with squashes.  In any state reachable
    from a reset, what a thread has sent and still holds after a cycle is, but
    for instructions that are squashed, exactly what it held before followed by
    what decode sent.  If commit squashed the thread it is the serialising
    instruction the squash keeps, if any.  A thread that resumes a serialising
    stall after such a squash has to be the only active one, and not told to
    stall in the cycle it resumes in. *)
Theorem cycle_conserves rf flatten ac as_ cfg inp s u s' :
  1 <= renameWidth cfg -> NoDup (activeThreads cfg) ->
  renameReach rf flatten ac cfg s -> resumesAlone cfg inp s ->
  cpuTick rf flatten ac as_ cfg inp s = Ok (u, s') ->
  flowsTo cfg inp s s'.
Proof.
  intros Hw Hnd Hs Ha Hr. eapply cpuTick_flows; [done|done|by eapply reach_rest|done|exact Hr].
Qed.

(** ** Squashed during a serialising stall *)

Module Squashed.
Import RenameProps.Sample.

Definition start : Rename := resetStage 1 (fun _ => mkFree 8 8 4 4) stage.

Definition step (inp : RenameIn) (s : Rename) : Rename :=
  result (cpuTick sampleFile (fun r => r) AdaptiveProps.Witness.c
    (initialState AdaptiveProps.Witness.params) config inp s) s.

(** Decode delivers three instructions, the second serialising. *)
Definition held : Rename := step input start.

(** Commit squashes behind the second, which the stage holds. *)
Definition squashIn : RenameIn :=
  {| fromDecode := []; fromIEW := fromIEW input;
     fromCommit := fun _ => {| commit_squash := true; doneSeqNum := 2; usedROB := false;
       freeROBEntries := 0; commit_emptyROB := false |} |}.

Definition kept : Rename := step squashIn held.

Definition quietIn (block unblock : bool) (l : list InstPtr) : RenameIn :=
  {| fromDecode := l;
     fromIEW := fun _ => {| iewBlock := block; iewUnblock := unblock; dispatched := 0;
       dispatchedToLQ := 0; dispatchedToSQ := 0; usedIQ := false; usedLSQ := false;
       freeIQEntries := 0; freeLQEntries := 0; freeSQEntries := 0 |};
     fromCommit := fromCommit input |}.

(** The fourth instruction is fetched after the squash. *)
Definition fetched (s : Rename) : Rename :=
  s <| instMem := instMem s <| heap := <[4%positive :=
    DynInst_ctor (static [1%nat] [0%nat] true false) 0x408 4 0]> (heap (instMem s)) |> |>.

(** IEW blocks rename in the cycle in which it would resume its stall, and lets
    it go in the next. *)
Definition overtaken : Rename := step (quietIn false true [4%positive]) (fetched (step (quietIn true false []) kept)).

(** The stage then sends the fourth instruction ahead of the serialising one,
    which it still holds, no longer in a stall. *)
Example stall_on_resume_overtakes :
  pend 0%nat kept = [2%positive] /\ resumeSerialize kept = true /\
  toIEW overtaken = [4%positive] /\ pend 0%nat overtaken = [2%positive] /\
  renameStatus overtaken 0%nat = Running.
Proof. vm_compute. done. Qed.

Lemma restart_reach : renameReach sampleFile (fun r => r) AdaptiveProps.Witness.c config start.
Proof. by apply RR_start. Qed.

Lemma start_alone : resumesAlone config input start.
Proof.
  intros t [Ht|[Ht _]].
  - destruct (not_resuming start t); [|done..]. by apply reset_rest.
  - unfold squashedNow in Ht. by rewrite andb_false_r in Ht.
Qed.

Lemma held_reach : renameReach sampleFile (fun r => r) AdaptiveProps.Witness.c config held.
Proof.
  eapply (RR_cycle _ _ _ _ start (initialState AdaptiveProps.Witness.params) input tt);
    [apply restart_reach|apply start_alone|]. apply isOk_result. vm_compute. reflexivity.
Qed.

Lemma held_alone : resumesAlone config squashIn held.
Proof.
  intros t [Ht|[Ht _]].
  - destruct (not_resuming held t); [|vm_compute; reflexivity|done].
    eapply reach_rest; [| |apply held_reach]; [done|apply NoDup_singleton].
  - split; [|done]. unfold squashedNow in Ht. apply andb_true_iff in Ht as [Ht _].
    apply bool_decide_eq_true in Ht. cbn in Ht. by apply list_elem_of_singleton in Ht as ->.
Qed.

End Squashed.

Lemma cycle_conserves_witness :
  (toIEW Squashed.held = [1%positive] /\ pend 0%nat Squashed.held = [2%positive; 3%positive]) /\
  (toIEW Squashed.kept = [] /\ pend 0%nat Squashed.kept = [2%positive]) /\
  flowsTo Sample.config Squashed.squashIn Squashed.held Squashed.kept.
Proof.
  split; [by vm_compute|]. split; [by vm_compute|].
  apply (cycle_conserves sampleFile (fun r => r) AdaptiveProps.Witness.c
    (initialState AdaptiveProps.Witness.params) Sample.config Squashed.squashIn Squashed.held tt).
  - done.
  - apply NoDup_singleton.
  - exact Squashed.held_reach.
  - exact Squashed.held_alone.
  - apply Sample.isOk_result. vm_compute. reflexivity.
Defined.
