(* ===== verification/TimeBuffer.v ===== *)
(** * Time buffers and the activity recorder

    [src/src/cpu/timebuf.hh] and [src/src/cpu/activity.cc].  A time buffer is a
    ring of slots addressed relative to the current cycle: [idx] cycles from
    now, for [-past <= idx <= future].  The stages of the CPU communicate
    through them.  The activity recorder counts the active stages and the
    cycles with communication still in the buffers; when the count is zero the
    CPU is descheduled. *)

From stdpp Require Import base numbers list.
From S2P Require Import Prelude.

#[local] Open Scope Z_scope.

(** ** The time buffer *)

Record TimeBuffer (T : Type) := mkTB {
  past : Z;
  future : Z;
  size : Z;
  slots : list T;          (* [data], through the vector [index] *)
  base : Z
}.
Arguments mkTB {T} _ _ _ _ _.
Arguments past {T} _.
Arguments future {T} _.
Arguments size {T} _.
Arguments slots {T} _.
Arguments base {T} _.

#[export] Instance eta_timebuffer T : Eta (TimeBuffer T) := fun b =>
  mkTB (past b) (future b) (size b) (slots b) (base b).

Section Buffer.
Context {T : Type} (zero : T).     (* the value of zeroed memory *)

Definition TimeBuffer_ctor (p f : Z) : res (TimeBuffer T) :=
  assert! (0 <=? p) && (0 <=? f) ;;
  Ok (mkTB p f (u32 (p + f + 1)) (replicate (Z.to_nat (u32 (p + f + 1))) zero) 0).

(** [valid], with its [assert]. *)
Definition valid (idx : Z) (b : TimeBuffer T) : res unit :=
  assertR ((- past b <=? idx) && (idx <=? future b)).

Definition calculateVectorIndex (idx : Z) (b : TimeBuffer T) : res Z :=
  _ ← valid idx b;
  let vector_index := s32 (idx + base b) in
  if s32 (size b) <=? vector_index then Ok (s32 (vector_index - size b))
  else if vector_index <? 0 then Ok (s32 (vector_index + size b))
  else Ok vector_index.

(** Reading and writing through [access] or [operator[]]. *)
Definition access (idx : Z) (b : TimeBuffer T) : res T :=
  i ← calculateVectorIndex idx b;
  deref (slots b !! Z.to_nat i).

Definition assign (idx : Z) (v : T) (b : TimeBuffer T) : res (TimeBuffer T) :=
  i ← calculateVectorIndex idx b;
  _ ← deref (slots b !! Z.to_nat i);
  Ok (b <| slots := <[Z.to_nat i := v]> (slots b) |>).

Definition advance (b : TimeBuffer T) : TimeBuffer T :=
  let base' := if size b <=? u32 (base b + 1) then 0 else u32 (base b + 1) in
  let ptr := s32 (base' + future b) in
  let ptr := if s32 (size b) <=? ptr then s32 (ptr - size b) else ptr in
  b <| base := base' |> <| slots := <[Z.to_nat ptr := zero]> (slots b) |>.

End Buffer.

(** ** The activity recorder *)

Record ActivityRecorder := mkActivity {
  activityBuffer : TimeBuffer bool;
  longestLatency : Z;
  activityCount : Z;
  stageActive : list bool
}.

#[export] Instance eta_activity : Eta ActivityRecorder := fun a =>
  mkActivity (activityBuffer a) (longestLatency a) (activityCount a) (stageActive a).

Definition ActivityRecorder_ctor (num_stages longest_latency activity : Z) : res ActivityRecorder :=
  b ← TimeBuffer_ctor false longest_latency 0;
  Ok (mkActivity b longest_latency activity (replicate (Z.to_nat num_stages) false)).

Definition recordActivity (a : ActivityRecorder) : res ActivityRecorder :=
  now ← access 0 (activityBuffer a);
  if now : bool then Ok a else
  b ← assign 0 true (activityBuffer a);
  Ok (a <| activityBuffer := b |> <| activityCount := activityCount a + 1 |>).

Definition advanceActivity (a : ActivityRecorder) : res ActivityRecorder :=
  leaving ← access (- longestLatency a) (activityBuffer a);
  let n := if leaving : bool then activityCount a - 1 else activityCount a in
  assert! negb leaving || (0 <=? n) ;;
  Ok (a <| activityCount := n |> <| activityBuffer := advance false (activityBuffer a) |>).

Definition activateStage (idx : nat) (a : ActivityRecorder) : res ActivityRecorder :=
  active ← deref (stageActive a !! idx);
  if active : bool then Ok a
  else Ok (a <| activityCount := activityCount a + 1 |>
             <| stageActive := <[idx := true]> (stageActive a) |>).

Definition deactivateStage (idx : nat) (a : ActivityRecorder) : res ActivityRecorder :=
  active ← deref (stageActive a !! idx);
  let a := if active : bool
           then a <| activityCount := activityCount a - 1 |>
                  <| stageActive := <[idx := false]> (stageActive a) |>
           else a in
  assert! 0 <=? activityCount a ;;
  Ok a.

(** [active]: should the CPU be scheduled? *)
Definition active (a : ActivityRecorder) : bool := negb (activityCount a =? 0).

Definition reset (a : ActivityRecorder) : ActivityRecorder :=
  a <| activityCount := 0 |>
    <| stageActive := replicate (length (stageActive a)) false |>
    <| activityBuffer := Nat.iter (Z.to_nat (longestLatency a + 1)) (advance false)
                           (activityBuffer a) |>.

(** [validate]: the count is recomputed from the buffer, slot by slot, and the
    stages. *)
Fixpoint countSlots (n : nat) (b : TimeBuffer bool) : res Z :=
  match n with
  | O => Ok 0
  | S n =>
      count ← countSlots n b;
      v ← access (- Z.of_nat n) b;
      Ok (if v : bool then count + 1 else count)
  end.

Definition validate (a : ActivityRecorder) : res unit :=
  count ← countSlots (Z.to_nat (longestLatency a + 1)) (activityBuffer a);
  let count := foldl (fun count v => if v : bool then count + 1 else count) count (stageActive a) in
  assertR (count =? activityCount a).

(** The operations of a cycle, in any order. *)
Inductive ActivityOp :=
  | OpActivity | OpAdvance | OpActivate (idx : nat) | OpDeactivate (idx : nat) | OpReset.

Definition runActivityOp (a : ActivityRecorder) (op : ActivityOp) : res ActivityRecorder :=
  match op with
  | OpActivity => recordActivity a
  | OpAdvance => advanceActivity a
  | OpActivate idx => activateStage idx a
  | OpDeactivate idx => deactivateStage idx a
  | OpReset => Ok (reset a)
  end.

(** ** What a time buffer stands for *)

(** A timeline: the current cycle, and the value written for each cycle. *)
Record Timeline (T : Type) := mkTimeline { now : Z; cells : Z -> T }.
Arguments mkTimeline {T} _ _.
Arguments now {T} _.
Arguments cells {T} _ _.

Inductive TBOp (T : Type) := TBWrite (idx : Z) (v : T) | TBAdvance.
Arguments TBWrite {T} _ _.
Arguments TBAdvance {T}.

Definition stepTimeline {T} (tl : Timeline T) (op : TBOp T) : Timeline T :=
  match op with
  | TBWrite idx v => mkTimeline (now tl) (fun t => if t =? now tl + idx then v else cells tl t)
  | TBAdvance => mkTimeline (now tl + 1) (cells tl)
  end.

Definition runTBOp {T} (zero : T) (b : TimeBuffer T) (op : TBOp T) : res (TimeBuffer T) :=
  match op with
  | TBWrite idx v => assign idx v b
  | TBAdvance => Ok (advance zero b)
  end.

Definition inReach {T} (p f : Z) (op : TBOp T) : Prop :=
  match op with TBWrite idx _ => - p <= idx <= f | TBAdvance => True end.

(** ** The ring *)

Section Ring.
Context {T : Type} (zero : T).

Record tb_wf (b : TimeBuffer T) : Prop := {
  tb_past : 0 <= past b;
  tb_future : 0 <= future b;
  tb_size : size b = past b + future b + 1;
  tb_slots : Z.of_nat (length (slots b)) = size b;
  tb_base : 0 <= base b < size b;
  tb_small : size b < 2 ^ 30
}.

(** The slot [k] cycles from now. *)
Definition slotAt (b : TimeBuffer T) (k : Z) : option T :=
  slots b !! Z.to_nat ((base b + k) mod size b).

Lemma mod_range x n : 0 < n -> - n <= x < 2 * n ->
  x mod n = if n <=? x then x - n else if x <? 0 then x + n else x.
Proof.
  intros Hn Hx. destruct (Z.leb_spec n x); [|destruct (Z.ltb_spec x 0)];
    symmetry; [apply (Z.mod_unique_pos _ _ 1)|apply (Z.mod_unique_pos _ _ (-1))
              |apply (Z.mod_unique_pos _ _ 0)]; lia.
Qed.

Lemma mod_shift_ne x j k n : 0 < n -> j < k < j + n -> (x + j) mod n <> (x + k) mod n.
Proof.
  intros Hn Hjk E.
  pose proof (Z.div_mod (x + j) n ltac:(lia)) as H1.
  pose proof (Z.div_mod (x + k) n ltac:(lia)) as H2. rewrite E in H1.
  assert (Hd : k - j = n * ((x + k) / n - (x + j) / n)) by lia.
  clear H1 H2. revert Hd. generalize ((x + k) / n - (x + j) / n). intros d Hd.
  destruct (Z.le_gt_cases d 0); nia.
Qed.

Lemma calculateVectorIndex_ok idx b :
  tb_wf b -> - past b <= idx <= future b ->
  calculateVectorIndex idx b = Ok ((base b + idx) mod size b).
Proof.
  intros [H1 H2 H3 H4 H5 H6] Hidx. unfold calculateVectorIndex, valid.
  rewrite (proj2 (Z.leb_le (- past b) idx)), (proj2 (Z.leb_le idx (future b))) by lia. cbn.
  rewrite (s32_small (idx + base b)), (s32_small (size b)) by lia.
  rewrite mod_range by lia. rewrite (Z.add_comm (base b)).
  case_tests; bool_to_prop; rewrite ?s32_small by lia; done.
Qed.

Lemma slot_inside b k : tb_wf b -> is_Some (slotAt b k).
Proof.
  intros [H1 H2 H3 H4 H5 H6]. apply lookup_lt_is_Some_2.
  pose proof (Z.mod_pos_bound (base b + k) (size b)). lia.
Qed.

Lemma access_ok idx b :
  tb_wf b -> - past b <= idx <= future b ->
  exists v, access idx b = Ok v /\ slotAt b idx = Some v.
Proof.
  intros Hwf Hidx. destruct (slot_inside b idx Hwf) as [v Hv]. exists v. split; [|done].
  unfold access. rewrite calculateVectorIndex_ok by done. cbn. unfold slotAt in Hv. by rewrite Hv.
Qed.

Lemma assign_ok idx v b :
  tb_wf b -> - past b <= idx <= future b ->
  exists b', assign idx v b = Ok b' /\ tb_wf b' /\ past b' = past b /\ future b' = future b /\
    forall k, - past b <= k <= future b -> slotAt b' k = if k =? idx then Some v else slotAt b k.
Proof.
  intros Hwf Hidx. destruct (slot_inside b idx Hwf) as [w Hw]. unfold slotAt in Hw.
  unfold assign. rewrite calculateVectorIndex_ok by done. cbn. rewrite Hw. cbn.
  eexists. split; [done|]. destruct Hwf as [H1 H2 H3 H4 H5 H6].
  split; [split; cbn; rewrite ?length_insert; done|]. split_and!; [done..|].
  intros k Hk. unfold slotAt. cbn. destruct (Z.eqb_spec k idx) as [->|Hne].
  - apply list_lookup_insert_eq. by apply lookup_lt_Some in Hw.
  - apply list_lookup_insert_ne. intros E.
    pose proof (Z.mod_pos_bound (base b + k) (size b)).
    pose proof (Z.mod_pos_bound (base b + idx) (size b)).
    apply Z2Nat.inj in E; [|lia..].
    destruct (Z.lt_total k idx) as [Hlt|[?|Hlt]]; [|done|];
      [symmetry in E|]; (eapply mod_shift_ne; [| |exact E]; lia).
Qed.

Lemma advance_ok b :
  tb_wf b ->
  tb_wf (advance zero b) /\ past (advance zero b) = past b /\
  future (advance zero b) = future b /\
  forall k, - past b <= k <= future b ->
    slotAt (advance zero b) k = if k =? future b then Some zero else slotAt b (k + 1).
Proof.
  intros Hwf. destruct Hwf as [H1 H2 H3 H4 H5 H6].
  set (nb := (base b + 1) mod size b).
  assert (Hnb : 0 <= nb < size b) by (apply Z.mod_pos_bound; lia).
  assert (Ea : advance zero b
    = b <| base := nb |> <| slots := <[Z.to_nat ((nb + future b) mod size b) := zero]> (slots b) |>).
  { unfold advance. rewrite !(u32_small (base b + 1)) by (unfold in_u32; lia).
    assert (Eb : (if size b <=? base b + 1 then 0 else base b + 1) = nb).
    { unfold nb. rewrite mod_range by lia. case_tests; bool_to_prop; lia. }
    rewrite Eb. do 3 f_equal. rewrite !(s32_small (nb + future b)), (s32_small (size b)) by lia.
    rewrite mod_range by lia. case_tests; bool_to_prop; rewrite ?s32_small; lia. }
  rewrite Ea. cbn. split; [split; cbn; rewrite ?length_insert; done|]. split_and!; [done..|].
  intros k Hk. unfold slotAt. cbn. destruct (Z.eqb_spec k (future b)) as [->|Hne].
  - apply list_lookup_insert_eq.
    pose proof (Z.mod_pos_bound (nb + future b) (size b)). lia.
  - rewrite list_lookup_insert_ne.
    + do 2 f_equal. unfold nb. rewrite Zplus_mod_idemp_l. f_equal. lia.
    + intros E. pose proof (Z.mod_pos_bound (nb + k) (size b)).
      pose proof (Z.mod_pos_bound (nb + future b) (size b)).
      apply Z2Nat.inj in E; [|lia..]. symmetry in E.
      eapply mod_shift_ne; [| |exact E]; lia.
Qed.

Lemma TimeBuffer_ctor_ok p f :
  0 <= p -> 0 <= f -> p + f + 1 < 2 ^ 30 ->
  exists b, TimeBuffer_ctor zero p f = Ok b /\ tb_wf b /\ past b = p /\ future b = f /\
    forall k, slotAt b k = Some zero.
Proof.
  intros Hp Hf Hs. unfold TimeBuffer_ctor.
  rewrite (proj2 (Z.leb_le 0 p)), (proj2 (Z.leb_le 0 f)) by lia. cbn.
  rewrite u32_small by (unfold in_u32; lia). eexists. split; [done|].
  split; [split; cbn; rewrite ?length_replicate; lia|]. split_and!; [done..|].
  intros k. unfold slotAt. cbn [slots base size]. apply lookup_replicate_2.
  pose proof (Z.mod_pos_bound (0 + k) (p + f + 1)). lia.
Qed.

(** *** The ring is a window on the timeline *)

Record onTimeline (b : TimeBuffer T) (tl : Timeline T) : Prop := {
  ot_wf : tb_wf b;
  ot_window : forall k, - past b <= k <= future b -> slotAt b k = Some (cells tl (now tl + k));
  ot_fresh : forall t, now tl + future b < t -> cells tl t = zero
}.

Lemma onTimeline_step b tl op :
  onTimeline b tl -> inReach (past b) (future b) op ->
  exists b', runTBOp zero b op = Ok b' /\ onTimeline b' (stepTimeline tl op) /\
    past b' = past b /\ future b' = future b.
Proof.
  intros [Hwf Hw Hf] Hr. destruct op as [idx v|]; cbn in *.
  - destruct (assign_ok idx v b Hwf Hr) as (b' & -> & Hwf' & Ep & Ef & Hs).
    exists b'. split; [done|]. split; [|done]. split; [done| |]; cbn; rewrite ?Ep, ?Ef.
    + intros k Hk. rewrite Hs, Hw by done.
      destruct (Z.eqb_spec k idx), (Z.eqb_spec (now tl + k) (now tl + idx)); done || lia.
    + intros t Ht. destruct (Z.eqb_spec t (now tl + idx)); [lia|auto].
  - destruct (advance_ok b Hwf) as (Hwf' & Ep & Ef & Hs). eexists. split; [done|].
    split; [|done]. split; [done| |]; cbn; rewrite ?Ep, ?Ef.
    + intros k Hk. rewrite Hs by done. destruct (Z.eqb_spec k (future b)) as [->|Hne].
      * f_equal. symmetry. apply Hf. lia.
      * rewrite Hw by lia. do 2 f_equal. lia.
    + intros t Ht. apply Hf. lia.
Qed.

Lemma onTimeline_run ops b tl :
  onTimeline b tl -> Forall (inReach (past b) (future b)) ops ->
  exists b', foldR (runTBOp zero) b ops = Ok b' /\ onTimeline b' (foldl stepTimeline tl ops) /\
    past b' = past b /\ future b' = future b.
Proof.
  revert b tl. induction ops as [|op ops IH]; intros b tl Hb Hr; cbn; [eauto|].
  inversion_clear Hr as [|? ? Hop Hops].
  destruct (onTimeline_step b tl op Hb Hop) as (b1 & -> & Hb1 & Ep & Ef). cbn.
  destruct (IH b1 _ Hb1) as (b2 & ? & ? & ? & ?); [by rewrite Ep, Ef|].
  exists b2. split_and!; congruence || done.
Qed.

End Ring.

(** C35: a time buffer is a delay line.  After any sequence of writes in reach
    and advances no assertion has failed, and reading [k] cycles from now gives
    the value last written for that cycle, from whatever cycle it was written,
    or zero if there was none: values reach the reader exactly the latency
    later, are not overwritten by the wrap-around of the ring, and expire. *)
Theorem timebuffer_delay_line {T} (zero : T) p f ops :
  0 <= p -> 0 <= f -> p + f + 1 < 2 ^ 30 -> Forall (inReach p f) ops ->
  exists b0 b, TimeBuffer_ctor zero p f = Ok b0 /\ foldR (runTBOp zero) b0 ops = Ok b /\
    forall k, - p <= k <= f ->
      let tl := foldl stepTimeline (mkTimeline 0 (fun _ => zero)) ops in
      access k b = Ok (cells tl (now tl + k)).
Proof.
  intros Hp Hf Hs Hops. destruct (TimeBuffer_ctor_ok zero p f Hp Hf Hs) as (b0 & H0 & Hwf & Ep & Ef & Hz).
  destruct (onTimeline_run zero ops b0 (mkTimeline 0 (fun _ => zero))) as (b & Hr & [Hwf' Hw _] & Ep' & Ef').
  { split; [done|intros; apply Hz|done]. }
  { by rewrite Ep, Ef. }
  exists b0, b. split_and!; [done..|]. intros k Hk tl.
  destruct (access_ok k b Hwf') as (v & -> & Hv); [lia|].
  rewrite Hw in Hv by lia. by injection Hv as <-.
Qed.

(** ** Counting activity *)

Definition b2z (b : bool) : Z := if b then 1 else 0.

Fixpoint countTrue (f : nat -> bool) (n : nat) : Z :=
  match n with O => 0 | S n => countTrue f n + b2z (f n) end.

Fixpoint countStages (l : list bool) : Z :=
  match l with [] => 0 | v :: l => b2z v + countStages l end.

(** Is there activity in the slot [i] cycles ago? *)
Definition slotTrue (b : TimeBuffer bool) (i : nat) : bool :=
  default false (slotAt b (- Z.of_nat i)).

Lemma countTrue_ext f g n : (forall i, (i < n)%nat -> f i = g i) -> countTrue f n = countTrue g n.
Proof.
  induction n as [|n IH]; intros H; cbn; [done|]. rewrite IH by (intros; apply H; lia).
  by rewrite H by lia.
Qed.

Lemma countTrue_first f n : countTrue f (S n) = b2z (f O) + countTrue (fun i => f (S i)) n.
Proof.
  induction n as [|n IH]; [cbn; lia|].
  change (countTrue f (S (S n))) with (countTrue f (S n) + b2z (f (S n))). rewrite IH.
  cbn [countTrue]. lia.
Qed.

Lemma countTrue_none f n : (forall i, (i < n)%nat -> f i = false) -> countTrue f n = 0.
Proof.
  intros H. rewrite (countTrue_ext f (fun _ => false)) by done. clear. induction n; cbn; lia.
Qed.

Lemma countTrue_nonneg f n : 0 <= countTrue f n.
Proof. induction n as [|n IH]; cbn; [lia|]. destruct (f n); cbn; lia. Qed.

Lemma countTrue_zero f n : countTrue f n = 0 -> forall i, (i < n)%nat -> f i = false.
Proof.
  induction n as [|n IH]; cbn; intros H i Hi; [lia|].
  pose proof (countTrue_nonneg f n). destruct (f n) eqn:E; cbn in H; [lia|].
  destruct (decide (i = n)) as [->|]; [done|]. apply IH; lia.
Qed.

Lemma countStages_insert l i old v :
  l !! i = Some old -> countStages (<[i := v]> l) = countStages l - b2z old + b2z v.
Proof.
  revert i.
  induction l as [|x l IH]; intros [|i] H; try done; cbn -[b2z] in H |- *.
  - injection H as ->. lia.
  - pose proof (f_equal (Z.add (b2z x)) (IH i H)) as E. etrans; [exact E|lia].
Qed.

Lemma countStages_nonneg l : 0 <= countStages l.
Proof. induction l as [|[] l IH]; cbn; lia. Qed.

Lemma countStages_zero l i : countStages l = 0 -> l !! i <> Some true.
Proof.
  revert i. induction l as [|x l IH]; intros i H Hi; [done|]. cbn in H.
  pose proof (countStages_nonneg l). destruct x; cbn in H; [lia|].
  destruct i as [|i]; [done|]. by eapply IH.
Qed.

Lemma countStages_replicate n : countStages (replicate n false) = 0.
Proof. induction n; cbn; lia. Qed.

Lemma foldl_countStages l n :
  foldl (fun count v => if v : bool then count + 1 else count) n l = n + countStages l.
Proof. revert n. induction l as [|[] l IH]; intros n; cbn; rewrite ?IH; lia. Qed.

Record act_wf (a : ActivityRecorder) : Prop := {
  aw_buffer : tb_wf (activityBuffer a);
  aw_past : past (activityBuffer a) = longestLatency a;
  aw_future : future (activityBuffer a) = 0;
  aw_count : activityCount a
    = countTrue (slotTrue (activityBuffer a)) (Z.to_nat (longestLatency a + 1))
      + countStages (stageActive a)
}.

(** A slot within the latency, as [access] reads it. *)
Lemma access_slotTrue a i :
  act_wf a -> Z.of_nat i <= longestLatency a ->
  access (- Z.of_nat i) (activityBuffer a) = Ok (slotTrue (activityBuffer a) i).
Proof.
  intros Hwf Hi. destruct (access_ok (- Z.of_nat i) (activityBuffer a) (aw_buffer _ Hwf)) as (v & -> & Hv).
  - rewrite (aw_past _ Hwf), (aw_future _ Hwf). lia.
  - unfold slotTrue. by rewrite Hv.
Qed.

Lemma recordActivity_wf a : act_wf a -> exists a', recordActivity a = Ok a' /\ act_wf a' /\
  length (stageActive a') = length (stageActive a) /\ longestLatency a' = longestLatency a.
Proof.
  intros Hwf. pose proof (tb_past _ (aw_buffer _ Hwf)) as Hl. rewrite (aw_past _ Hwf) in Hl.
  unfold recordActivity. pose proof (access_slotTrue a 0 Hwf Hl) as Hr.
  change (- Z.of_nat 0) with 0 in Hr. rewrite Hr. cbn.
  destruct (slotTrue (activityBuffer a) 0) eqn:E0; [eauto|].
  destruct (assign_ok 0 true _ (aw_buffer _ Hwf)) as (b & -> & Hb & Ep & Ef & Hs).
  { rewrite (aw_past _ Hwf), (aw_future _ Hwf). lia. }
  cbn. eexists. split; [done|]. split; [|done]. destruct Hwf as [_ Hp Hf Hc].
  rewrite Hp, Hf in Hs. split; cbn; [done|congruence..|]. rewrite Hc.
  replace (Z.to_nat (longestLatency a + 1)) with (S (Z.to_nat (longestLatency a))) by lia.
  assert (E1 : slotTrue b 0 = true) by (unfold slotTrue; change (- Z.of_nat 0) with 0; by rewrite Hs by lia).
  rewrite !countTrue_first, E0, E1. cbn [b2z].
  rewrite (countTrue_ext (fun i => slotTrue b (S i)) (fun i => slotTrue (activityBuffer a) (S i))).
  - lia.
  - intros i Hi. unfold slotTrue. rewrite Hs by lia.
    destruct (Z.eqb_spec (- Z.of_nat (S i)) 0); [lia|done].
Qed.

Lemma advanceActivity_wf a : act_wf a -> exists a', advanceActivity a = Ok a' /\ act_wf a' /\
  length (stageActive a') = length (stageActive a) /\ longestLatency a' = longestLatency a.
Proof.
  intros Hwf. pose proof (tb_past _ (aw_buffer _ Hwf)) as Hl. rewrite (aw_past _ Hwf) in Hl.
  unfold advanceActivity. set (n := Z.to_nat (longestLatency a)).
  pose proof (access_slotTrue a n Hwf ltac:(lia)) as Hr.
  replace (- Z.of_nat n) with (- longestLatency a) in Hr by lia. rewrite Hr. cbn [mbind res_bind].
  destruct Hwf as [Hb Hp Hf Hc].
  replace (Z.to_nat (longestLatency a + 1)) with (S n) in Hc by lia. cbn [countTrue] in Hc.
  pose proof (countTrue_nonneg (slotTrue (activityBuffer a)) n).
  pose proof (countStages_nonneg (stageActive a)).
  destruct (advance_ok false _ Hb) as (Hb' & Ep & Ef & Hs). rewrite Hp, Hf in Hs.
  assert (Hcount : countTrue (slotTrue (advance false (activityBuffer a))) (S n)
                   = countTrue (slotTrue (activityBuffer a)) n).
  { rewrite countTrue_first. unfold slotTrue at 1. rewrite Hs by lia.
    apply countTrue_ext. intros i Hi. unfold slotTrue. rewrite Hs by lia.
    destruct (Z.eqb_spec (- Z.of_nat (S i)) 0); [lia|]. do 2 f_equal. lia. }
  rewrite (proj2 (Z.leb_le _ _)) by (destruct (slotTrue _ n); cbn in *; lia).
  rewrite orb_true_r. cbn. eexists. split; [done|]. split; [|done].
  split; cbn; [done|congruence..|].
  replace (Z.to_nat (longestLatency a + 1)) with (S n) by lia. rewrite Hcount, Hc.
  destruct (slotTrue _ n); cbn; lia.
Qed.

Lemma stage_wf idx a : act_wf a -> (idx < length (stageActive a))%nat ->
  (exists a', activateStage idx a = Ok a' /\ act_wf a' /\
    length (stageActive a') = length (stageActive a) /\ longestLatency a' = longestLatency a) /\
  (exists a', deactivateStage idx a = Ok a' /\ act_wf a' /\
    length (stageActive a') = length (stageActive a) /\ longestLatency a' = longestLatency a).
Proof.
  intros Hwf Hi. apply lookup_lt_is_Some_2 in Hi as [v Hv].
  unfold activateStage, deactivateStage. rewrite Hv. cbn.
  pose proof (countStages_insert _ _ _ true Hv) as Ht.
  pose proof (countStages_insert _ _ _ false Hv) as Hf.
  pose proof (countStages_nonneg (stageActive a)).
  pose proof (countStages_nonneg (<[idx := false]> (stageActive a))).
  pose proof (countTrue_nonneg (slotTrue (activityBuffer a)) (Z.to_nat (longestLatency a + 1))).
  pose proof (aw_count _ Hwf) as Hc. destruct v; cbn in *; split.
  - eauto.
  - rewrite (proj2 (Z.leb_le _ _)) by lia. cbn. eexists. split; [done|]. cbn.
    rewrite length_insert. split; [|done]. destruct Hwf as [? ? ? _]. split; cbn; [done..|lia].
  - eexists. split; [done|]. cbn. rewrite length_insert. split; [|done].
    destruct Hwf as [? ? ? _]. split; cbn; [done..|lia].
  - rewrite (proj2 (Z.leb_le _ _)) by lia. cbn. eauto.
Qed.

Lemma iter_advance n (b : TimeBuffer bool) : tb_wf b ->
  let b' := Nat.iter n (advance false) b in
  tb_wf b' /\ past b' = past b /\ future b' = future b /\
  forall k, - past b <= k <= future b -> future b - Z.of_nat n < k -> slotAt b' k = Some false.
Proof.
  intros Hwf b'. unfold b'. clear b'. induction n as [|n IH].
  - cbn. split_and!; [done..|]. intros k Hk Hk'. lia.
  - destruct IH as (Hw & Ep & Ef & Hs). change (Nat.iter (S n) (advance false) b)
      with (advance false (Nat.iter n (advance false) b)).
    destruct (advance_ok false _ Hw) as (Hw' & Ep' & Ef' & Hs'). rewrite Ep, Ef in *.
    split_and!; [done..|]. intros k Hk Hk'. rewrite Hs' by lia.
    destruct (Z.eqb_spec k (future b)); [done|]. apply Hs; lia.
Qed.

Lemma reset_wf a : act_wf a -> act_wf (reset a).
Proof.
  intros [Hb Hp Hf Hc]. pose proof (tb_past _ Hb) as Hl. rewrite Hp in Hl.
  destruct (iter_advance (Z.to_nat (longestLatency a + 1)) _ Hb) as (Hb' & Ep & Ef & Hs).
  unfold reset. split; cbn -[Nat.iter]; [done|congruence..|].
  rewrite countStages_replicate, countTrue_none; [done|].
  intros i Hi. unfold slotTrue. rewrite Hs by (rewrite ?Hp, ?Hf; lia). done.
Qed.

Lemma runActivityOp_wf a op :
  act_wf a ->
  match op with OpActivate i | OpDeactivate i => (i < length (stageActive a))%nat | _ => True end ->
  exists a', runActivityOp a op = Ok a' /\ act_wf a' /\
    length (stageActive a') = length (stageActive a) /\ longestLatency a' = longestLatency a.
Proof.
  intros Hwf Hop. destruct op; cbn.
  - by apply recordActivity_wf.
  - by apply advanceActivity_wf.
  - by apply stage_wf.
  - by apply stage_wf.
  - eexists. split; [done|]. split; [by apply reset_wf|]. split; [apply length_replicate|done].
Qed.

Lemma countSlots_ok a n :
  act_wf a -> Z.of_nat n <= longestLatency a + 1 ->
  countSlots n (activityBuffer a) = Ok (countTrue (slotTrue (activityBuffer a)) n).
Proof.
  intros Hwf. induction n as [|n IH]; intros Hn; cbn [countSlots countTrue]; [done|].
  rewrite IH by lia. cbn. rewrite access_slotTrue by (done || lia). cbn.
  destruct (slotTrue _ n); cbn; f_equal; lia.
Qed.

(** the activity count is exact.  Whatever the stages record, in whatever
    order, no assertion of the recorder fails, its [validate] check succeeds,
    and the CPU is told to sleep exactly when no stage is active and nothing
    written to a time buffer in the last [longest_latency] cycles is still on
    its way. *)
Theorem activity_count_exact num_stages longest_latency ops :
  0 <= num_stages -> 0 <= longest_latency -> longest_latency + 1 < 2 ^ 30 ->
  Forall (fun op => match op with
    | OpActivate i | OpDeactivate i => Z.of_nat i < num_stages | _ => True end) ops ->
  exists a0 a, ActivityRecorder_ctor num_stages longest_latency 0 = Ok a0 /\
    foldR runActivityOp a0 ops = Ok a /\ validate a = Ok tt /\
    (active a = false <->
      (forall i, stageActive a !! i <> Some true) /\
      (forall k, - longest_latency <= k <= 0 -> access k (activityBuffer a) = Ok false)).
Proof.
  intros Hn Hl Hs Hops. unfold ActivityRecorder_ctor.
  destruct (TimeBuffer_ctor_ok false longest_latency 0) as (b & -> & Hb & Ep & Ef & Hz); [lia..|].
  cbn. set (a0 := mkActivity _ _ _ _).
  assert (Hwf0 : act_wf a0).
  { split; cbn; [done..|]. rewrite countStages_replicate, countTrue_none; [done|].
    intros i _. unfold slotTrue. by rewrite Hz. }
  assert (Hlen : Z.of_nat (length (stageActive a0)) = num_stages)
    by (cbn; rewrite length_replicate; lia).
  assert (Hrun : exists a, foldR runActivityOp a0 ops = Ok a /\ act_wf a /\
            longestLatency a = longest_latency).
  { assert (Hlat : longestLatency a0 = longest_latency) by done. clearbody a0. clear -Hwf0 Hlen Hops Hlat.
    revert a0 Hwf0 Hlen Hlat. induction ops as [|op ops IH]; intros a Hwf Hlen Hlat; cbn; [eauto|].
    inversion_clear Hops as [|? ? Hop Hops'].
    destruct (runActivityOp_wf a op Hwf) as (a1 & -> & Hwf1 & El & Ela); [destruct op; done || lia|].
    cbn. apply IH; [done|done|congruence..]. }
  destruct Hrun as (a & Ha & Hwf & Hlat). exists a0, a. split_and!; [done|done| |].
  - unfold validate. rewrite countSlots_ok by (done || lia). cbn.
    rewrite foldl_countStages, <- (aw_count _ Hwf). by rewrite Z.eqb_refl.
  - assert (Hacc : forall i, Z.of_nat i <= longest_latency ->
      access (- Z.of_nat i) (activityBuffer a) = Ok (slotTrue (activityBuffer a) i))
      by (intros i Hi; apply access_slotTrue; [done|lia]).
    pose proof (aw_count _ Hwf) as Hc.
    pose proof (countStages_nonneg (stageActive a)).
    pose proof (countTrue_nonneg (slotTrue (activityBuffer a)) (Z.to_nat (longestLatency a + 1))).
    unfold active. rewrite negb_false_iff, Z.eqb_eq. split.
    + intros Hz0. rewrite Hz0 in Hc. split; [intros i; apply countStages_zero; lia|].
      intros k Hk. replace k with (- Z.of_nat (Z.to_nat (- k))) by lia.
      rewrite Hacc by lia. f_equal.
      apply (countTrue_zero _ (Z.to_nat (longestLatency a + 1))); lia.
    + intros [Hst Hsl]. rewrite Hc, countTrue_none.
      * assert (countStages (stageActive a) = 0); [|lia].
        clear -Hst. induction (stageActive a) as [|x l IH]; [done|]. cbn.
        rewrite IH by (intros i; apply (Hst (S i))).
        specialize (Hst O). cbn in Hst. destruct x; [congruence|done].
      * intros i Hi. specialize (Hsl (- Z.of_nat i) ltac:(lia)).
        rewrite Hacc in Hsl by lia. by injection Hsl.
Qed.

(** ** Concrete runs *)

Definition sampleWrites : list (TBOp Z) :=
  [TBWrite 0 5; TBAdvance; TBWrite 1 7; TBAdvance; TBWrite (-1) 9; TBAdvance].

Lemma timebuffer_delay_line_witness :
  exists b0 b, TimeBuffer_ctor 0 3 1 = Ok b0 /\ foldR (runTBOp 0) b0 sampleWrites = Ok b /\
    forall k, -3 <= k <= 1 ->
      let tl := foldl stepTimeline (mkTimeline 0 (fun _ => 0)) sampleWrites in
      access k b = Ok (cells tl (now tl + k)).
Proof.
  apply (timebuffer_delay_line 0 3 1 sampleWrites); [lia..|].
  repeat constructor; cbn; lia.
Defined.

Definition sampleActivity : list ActivityOp :=
  [OpActivate 0; OpActivity; OpAdvance; OpActivity; OpDeactivate 0; OpAdvance; OpAdvance].

Lemma activity_count_exact_witness :
  exists a0 a, ActivityRecorder_ctor 2 1 0 = Ok a0 /\
    foldR runActivityOp a0 sampleActivity = Ok a /\ validate a = Ok tt /\
    (active a = false <->
      (forall i, stageActive a !! i <> Some true) /\
      (forall k, -1 <= k <= 0 -> access k (activityBuffer a) = Ok false)).
Proof.
  apply (activity_count_exact 2 1 sampleActivity); [lia..|].
  repeat constructor; cbn; lia.
Defined.
