(* ===== verification/StoreSet.v ===== *)
(** * The store set predictor

    [src/src/cpu/o3/store_set.cc] and [store_set.hh]: which store a memory
    instruction is predicted to depend on.  The SSIT maps the address of an
    instruction to a store set, the LFST a store set to the sequence number of
    the last store of the set that was dispatched; [storeList] maps the stores
    in flight to their set, youngest first. *)

From stdpp Require Import base numbers list sorting.
From S2P Require Import Prelude.

#[local] Open Scope Z_scope.

(** ** State *)

Record StoreSet := mkStoreSet {
  SSIT : list Z;
  validSSIT : list bool;
  LFST : list Z;
  validLFST : list bool;
  storeList : list (Z * Z);     (* [std::map] under [ltseqnum]: descending keys *)
  clearPeriod : Z;
  SSITSize : Z;
  LFSTSize : Z;
  indexMask : Z;
  offsetBits : Z;
  memOpsPred : Z
}.

#[export] Instance eta_storeset : Eta StoreSet := fun s =>
  mkStoreSet (SSIT s) (validSSIT s) (LFST s) (validLFST s) (storeList s) (clearPeriod s)
    (SSITSize s) (LFSTSize s) (indexMask s) (offsetBits s) (memOpsPred s).

(** ** Operations *)

Definition isPowerOf2 (n : Z) : bool := negb (n =? 0) && (Z.land n (n - 1) =? 0).

Definition StoreSet_ctor (clear_period SSIT_size LFST_size : Z) : res StoreSet :=
  assert! isPowerOf2 SSIT_size ;;
  assert! isPowerOf2 LFST_size ;;
  Ok {| SSIT := replicate (Z.to_nat SSIT_size) 0;
        validSSIT := replicate (Z.to_nat SSIT_size) false;
        LFST := replicate (Z.to_nat LFST_size) 0;
        validLFST := replicate (Z.to_nat LFST_size) false;
        storeList := [];
        clearPeriod := clear_period; SSITSize := SSIT_size; LFSTSize := LFST_size;
        indexMask := SSIT_size - 1; offsetBits := 2; memOpsPred := 0 |}.

(** The default constructor: the tables are empty; the sizes have no value until
    [init] gives them one. *)
Definition StoreSet_default : StoreSet := mkStoreSet [] [] [] [] [] 0 0 0 0 0 0.

(** [init] resizes the tables and invalidates their entries; the store sets in
    the SSIT and the stores in flight are left as they are. *)
Definition init (clear_period SSIT_size LFST_size : Z) (s : StoreSet) : StoreSet :=
  s <| SSITSize := SSIT_size |> <| LFSTSize := LFST_size |> <| clearPeriod := clear_period |>
    <| SSIT := resize (Z.to_nat SSIT_size) 0 (SSIT s) |>
    <| validSSIT := replicate (Z.to_nat SSIT_size) false |>
    <| LFST := replicate (Z.to_nat LFST_size) 0 |>
    <| validLFST := replicate (Z.to_nat LFST_size) false |>
    <| indexMask := SSIT_size - 1 |> <| offsetBits := 2 |> <| memOpsPred := 0 |>.

Definition calcIndex (PC : Z) (s : StoreSet) : Z :=
  s32 (Z.land (Z.shiftr PC (offsetBits s)) (u64 (indexMask s))).

Definition calcSSID (PC : Z) (s : StoreSet) : Z :=
  u32 (Z.lxor PC (Z.shiftr PC 10) mod u64 (LFSTSize s)).

(** Entries of the tables; indices are converted to [size_t]. *)
Definition entry {A} (l : list A) (i : Z) : res A :=
  if i <? 0 then Undef else deref (l !! Z.to_nat i).
Definition put {A} (l : list A) (i : Z) (v : A) : list A := <[Z.to_nat i := v]> l.

Definition setSSID (index ssid : Z) (s : StoreSet) : StoreSet :=
  s <| validSSIT := put (validSSIT s) index true |> <| SSIT := put (SSIT s) index ssid |>.

Definition violation (store_PC load_PC : Z) (s : StoreSet) : res StoreSet :=
  let load_index := calcIndex load_PC s in
  let store_index := calcIndex store_PC s in
  assert! (load_index <? SSITSize s) && (store_index <? SSITSize s) ;;
  valid_load_SSID ← entry (validSSIT s) load_index;
  valid_store_SSID ← entry (validSSIT s) store_index;
  match valid_load_SSID, valid_store_SSID with
  | false, false =>
      let new_set := calcSSID load_PC s in
      let s := setSSID store_index new_set (setSSID load_index new_set s) in
      assert! new_set <? u32 (LFSTSize s) ;;
      Ok s
  | true, false =>
      load_SSID ← entry (SSIT s) load_index;
      let s := setSSID store_index load_SSID s in
      assert! load_SSID <? u32 (LFSTSize s) ;;
      Ok s
  | false, true =>
      store_SSID ← entry (SSIT s) store_index;
      Ok (setSSID load_index store_SSID s)
  | true, true =>
      load_SSID ← entry (SSIT s) load_index;
      store_SSID ← entry (SSIT s) store_index;
      assert! (load_SSID <? u32 (LFSTSize s)) && (store_SSID <? u32 (LFSTSize s)) ;;
      if load_SSID <? store_SSID
      then Ok (s <| SSIT := put (SSIT s) store_index load_SSID |>)
      else Ok (s <| SSIT := put (SSIT s) load_index store_SSID |>)
  end.

Definition clear (s : StoreSet) : StoreSet :=
  s <| validSSIT := replicate (length (validSSIT s)) false |>
    <| validLFST := replicate (length (validLFST s)) false |>
    <| storeList := [] |>.

Definition checkClear (s : StoreSet) : StoreSet :=
  let s := s <| memOpsPred := s32 (memOpsPred s + 1) |> in
  if clearPeriod s <? u64 (memOpsPred s) then clear (s <| memOpsPred := 0 |>) else s.

Definition insertLoad (load_PC load_seq_num : Z) (s : StoreSet) : StoreSet := checkClear s.

(** [storeList[k] = v] and [erase]. *)
Fixpoint mapPut (k v : Z) (l : list (Z * Z)) : list (Z * Z) :=
  match l with
  | [] => [(k, v)]
  | (k', v') :: l' =>
      if k' <? k then (k, v) :: l
      else if k' =? k then (k, v) :: l'
      else (k', v') :: mapPut k v l'
  end.

Definition mapErase (k : Z) (l : list (Z * Z)) : list (Z * Z) := filter (fun e => fst e <> k) l.

Definition insertStore (store_PC store_seq_num : Z) (s : StoreSet) : res StoreSet :=
  let index := calcIndex store_PC s in
  let s := checkClear s in
  assert! index <? SSITSize s ;;
  valid ← entry (validSSIT s) index;
  if negb valid then Ok s else
  store_SSID ← entry (SSIT s) index;
  let store_SSID := s32 store_SSID in
  assert! store_SSID <? LFSTSize s ;;
  _ ← entry (LFST s) store_SSID;
  Ok (s <| LFST := put (LFST s) store_SSID store_seq_num |>
        <| validLFST := put (validLFST s) store_SSID true |>
        <| storeList := mapPut store_seq_num store_SSID (storeList s) |>).

Definition checkInst (PC : Z) (s : StoreSet) : res Z :=
  let index := calcIndex PC s in
  assert! index <? SSITSize s ;;
  valid ← entry (validSSIT s) index;
  if negb valid then Ok 0 else
  inst_SSID ← entry (SSIT s) index;
  let inst_SSID := s32 inst_SSID in
  assert! inst_SSID <? LFSTSize s ;;
  valid ← entry (validLFST s) inst_SSID;
  if negb valid then Ok 0 else entry (LFST s) inst_SSID.

Definition issued (issued_PC issued_seq_num : Z) (is_store : bool) (s : StoreSet) : res StoreSet :=
  if negb is_store then Ok s else
  let index := calcIndex issued_PC s in
  assert! index <? SSITSize s ;;
  let s := s <| storeList := mapErase issued_seq_num (storeList s) |> in
  valid ← entry (validSSIT s) index;
  if negb valid then Ok s else
  store_SSID ← entry (SSIT s) index;
  let store_SSID := s32 store_SSID in
  assert! store_SSID <? LFSTSize s ;;
  valid ← entry (validLFST s) store_SSID;
  last ← entry (LFST s) store_SSID;
  if valid && (last =? issued_seq_num)
  then Ok (s <| validLFST := put (validLFST s) store_SSID false |>)
  else Ok s.

(** [squash]: the loop of the code, [None] when [fuel] rounds are not enough.
    A round in which neither branch applies changes nothing. *)
Fixpoint squash (fuel : nat) (squashed_num : Z) (s : StoreSet) : option (res StoreSet) :=
  match fuel with
  | O => None
  | S fuel =>
      match storeList s with
      | [] => Some (Ok s)
      | (sn, idx) :: rest =>
          if sn <=? squashed_num then Some (Ok s) else
          match entry (LFST s) idx, entry (validLFST s) idx with
          | Ok last, Ok valid =>
              let younger := squashed_num <? last in
              if valid && younger then
                squash fuel squashed_num
                  (s <| validLFST := put (validLFST s) idx false |> <| storeList := rest |>)
              else if negb valid && younger then
                squash fuel squashed_num (s <| storeList := rest |>)
              else squash fuel squashed_num s
          | _, _ => Some Undef
          end
      end
  end.

(** ** Sequences of operations *)

Inductive SSOp :=
  | SSViolation (store_PC load_PC : Z)
  | SSLoad (PC sn : Z)
  | SSStore (PC sn : Z)
  | SSIssued (PC sn : Z) (is_store : bool)
  | SSSquash (sn : Z)
  | SSClear
  | SSCheck (PC : Z).

(** A squash needs no more rounds than there are stores in flight, and one. *)
Definition squashFuel (s : StoreSet) : nat := S (length (storeList s)).

Definition runSS (s : StoreSet) (op : SSOp) : option (res StoreSet) :=
  match op with
  | SSViolation st ld => Some (violation st ld s)
  | SSLoad pc sn => Some (Ok (insertLoad pc sn s))
  | SSStore pc sn => Some (insertStore pc sn s)
  | SSIssued pc sn b => Some (issued pc sn b s)
  | SSSquash sn => squash (squashFuel s) sn s
  | SSClear => Some (Ok (clear s))
  | SSCheck pc => Some (_ ← checkInst pc s; Ok s)
  end.

(** Stores of one thread are inserted in program order: no store in flight is
    younger than the one inserted. *)
Definition inOrder (s : StoreSet) (op : SSOp) : Prop :=
  match op with SSStore _ sn => Forall (fun e => fst e <= sn) (storeList s) | _ => True end.

(** ** Well-formedness *)

Record ss_wf (s : StoreSet) : Prop := {
  sw_ssit : 0 < SSITSize s < 2 ^ 31;
  sw_lfst : 0 < LFSTSize s < 2 ^ 31;
  sw_mask : indexMask s = SSITSize s - 1;
  sw_lenS : Z.of_nat (length (SSIT s)) = SSITSize s;
  sw_lenVS : Z.of_nat (length (validSSIT s)) = SSITSize s;
  sw_lenL : Z.of_nat (length (LFST s)) = LFSTSize s;
  sw_lenVL : Z.of_nat (length (validLFST s)) = LFSTSize s;
  sw_sets : forall i v, SSIT s !! i = Some v -> 0 <= v < LFSTSize s;
  sw_stores : Forall (fun e => 0 <= snd e < LFSTSize s) (storeList s);
  sw_sorted : StronglySorted (fun a b => fst b < fst a) (storeList s)
}.

(** No store in flight is younger than the last store of its set. *)
Definition lastOK (s : StoreSet) : Prop :=
  Forall (fun e => exists last, LFST s !! Z.to_nat (snd e) = Some last /\ fst e <= last) (storeList s).

(** ** Lemmas *)

Lemma land_le m a : 0 <= m -> Z.land m a <= m.
Proof.
  intros Hm. assert (Hd : Z.ldiff (Z.land m a) m = 0).
  { apply Z.bits_inj'. intros n Hn. rewrite Z.ldiff_spec, Z.land_spec, Z.bits_0.
    by destruct (Z.testbit m n), (Z.testbit a n). }
  apply Z.sub_nocarry_ldiff in Hd.
  assert (0 <= Z.ldiff m (Z.land m a)) by (apply Z.ldiff_nonneg; by left). lia.
Qed.

Lemma calcIndex_range PC s : ss_wf s -> 0 <= calcIndex PC s < SSITSize s.
Proof.
  intros H. pose proof (sw_ssit _ H). unfold calcIndex. rewrite (sw_mask _ H).
  rewrite u64_small by (unfold in_u64; lia).
  assert (0 <= Z.land (Z.shiftr PC (offsetBits s)) (SSITSize s - 1) <= SSITSize s - 1).
  { rewrite Z.land_comm. split; [apply Z.land_nonneg; lia|apply land_le; lia]. }
  rewrite s32_small by lia. lia.
Qed.

Lemma calcSSID_range PC s : ss_wf s -> 0 <= calcSSID PC s < LFSTSize s.
Proof.
  intros H. pose proof (sw_lfst _ H). unfold calcSSID.
  rewrite (u64_small (LFSTSize s)) by (unfold in_u64; lia).
  pose proof (Z.mod_pos_bound (Z.lxor PC (Z.shiftr PC 10)) (LFSTSize s)).
  rewrite u32_small by (unfold in_u32; lia). lia.
Qed.

Lemma entry_ok {A} (l : list A) i : 0 <= i < Z.of_nat (length l) ->
  exists v, entry l i = Ok v /\ l !! Z.to_nat i = Some v.
Proof.
  intros Hi. unfold entry. rewrite (proj2 (Z.ltb_ge i 0)) by lia.
  destruct (lookup_lt_is_Some_2 l (Z.to_nat i)) as [v Hv]; [lia|]. exists v. by rewrite Hv.
Qed.

Lemma put_length {A} (l : list A) i v : length (put l i v) = length l.
Proof. apply length_insert. Qed.

Lemma put_sets (P : Z -> Prop) (l : list Z) i v :
  P v -> (forall k x, l !! k = Some x -> P x) -> forall k x, put l i v !! k = Some x -> P x.
Proof.
  intros Hv Hl k x Hk. unfold put in Hk. apply list_lookup_insert_Some in Hk as [(_ & <- & _)|[_ Hk]];
    eauto.
Qed.

Lemma put_eq {A} (l : list A) i v :
  0 <= i < Z.of_nat (length l) -> put l i v !! Z.to_nat i = Some v.
Proof. intros Hi. apply list_lookup_insert_eq. lia. Qed.

Lemma put_ne {A} (l : list A) i j v :
  0 <= i -> 0 <= j -> i <> j -> put l i v !! Z.to_nat j = l !! Z.to_nat j.
Proof. intros Hi Hj Hne. apply list_lookup_insert_ne. lia. Qed.

Lemma setSSID_wf index ssid s :
  ss_wf s -> 0 <= ssid < LFSTSize s -> ss_wf (setSSID index ssid s).
Proof.
  intros [? ? ? ? ? ? ? Hs ? ?] Hid. split; cbn; rewrite ?put_length; try done.
  by apply put_sets.
Qed.

(** [put] where it was put, or where the value already was. *)
Lemma put_at {A} (l : list A) i j v :
  0 <= i < Z.of_nat (length l) -> 0 <= j ->
  i = j \/ l !! Z.to_nat j = Some v -> put l i v !! Z.to_nat j = Some v.
Proof.
  intros Hi Hj Hv. destruct (decide (i = j)) as [<-|Hne]; [by apply put_eq|].
  rewrite put_ne by lia. by destruct Hv.
Qed.

(** Both instructions of a violation end in one set. *)
Definition together (si li ssid : Z) (s s' : StoreSet) : Prop :=
  ss_wf s' /\ 0 <= ssid < LFSTSize s /\
  SSIT s' !! Z.to_nat si = Some ssid /\ SSIT s' !! Z.to_nat li = Some ssid /\
  validSSIT s' !! Z.to_nat si = Some true /\ validSSIT s' !! Z.to_nat li = Some true /\
  s' = s <| SSIT := SSIT s' |> <| validSSIT := validSSIT s' |>.

Lemma merge_together si li s st ld a b :
  ss_wf s -> 0 <= si < SSITSize s -> 0 <= li < SSITSize s ->
  SSIT s !! Z.to_nat si = Some st -> SSIT s !! Z.to_nat li = Some ld ->
  validSSIT s !! Z.to_nat si = Some true -> validSSIT s !! Z.to_nat li = Some true ->
  (a = si /\ b = ld \/ a = li /\ b = st) ->
  together si li b s (s <| SSIT := put (SSIT s) a b |>).
Proof.
  intros Hwf Hsi Hli Hst Hld Hvs Hvl Hab. pose proof (sw_lenS _ Hwf) as LS.
  assert (Rb : 0 <= b < LFSTSize s)
    by (destruct Hab as [[_ ->]|[_ ->]]; by eapply (sw_sets _ Hwf)).
  split_and!; cbn; try done; [| |lia|..].
  - destruct Hwf; split; cbn; rewrite ?put_length; try done. by apply put_sets.
  - lia.
  - apply put_at; [lia..|]. naive_solver.
  - apply put_at; [lia..|]. naive_solver.
Qed.

Lemma setSSID_together si li s a b :
  ss_wf s -> 0 <= si < SSITSize s -> 0 <= li < SSITSize s -> 0 <= b < LFSTSize s ->
  (a = si \/ a = li) ->
  (forall j, j = si \/ j = li -> j = a \/
     SSIT s !! Z.to_nat j = Some b /\ validSSIT s !! Z.to_nat j = Some true) ->
  together si li b s (setSSID a b s).
Proof.
  intros Hwf Hsi Hli Hb Ha Hj. pose proof (sw_lenS _ Hwf) as LS. pose proof (sw_lenVS _ Hwf) as LV.
  assert (H1 : forall j, j = si \/ j = li -> put (SSIT s) a b !! Z.to_nat j = Some b /\
            put (validSSIT s) a true !! Z.to_nat j = Some true).
  { intros j Hx. destruct (Hj j Hx) as [->|[E1 E2]].
    - split; apply put_eq; lia.
    - split; apply put_at; auto; lia. }
  split_and!; cbn; try done; try (by apply H1; auto); try lia. by apply setSSID_wf.
Qed.

Lemma violation_ok store_PC load_PC s :
  ss_wf s -> exists s' ssid, violation store_PC load_PC s = Ok s' /\
    together (calcIndex store_PC s) (calcIndex load_PC s) ssid s s'.
Proof.
  intros Hwf. pose proof (calcIndex_range load_PC s Hwf) as Hl.
  pose proof (calcIndex_range store_PC s Hwf) as Hs.
  pose proof (sw_lfst _ Hwf) as HL. unfold violation.
  set (li := calcIndex load_PC s) in *. set (si := calcIndex store_PC s) in *.
  rewrite (proj2 (Z.ltb_lt li _)), (proj2 (Z.ltb_lt si _)) by lia. cbn [andb assertR mbind res_bind].
  destruct (entry_ok (validSSIT s) li) as (vl & -> & Hvl); [rewrite (sw_lenVS _ Hwf); lia|].
  destruct (entry_ok (validSSIT s) si) as (vs & -> & Hvs); [rewrite (sw_lenVS _ Hwf); lia|].
  destruct (entry_ok (SSIT s) li) as (ld & Eld & Hld); [rewrite (sw_lenS _ Hwf); lia|].
  destruct (entry_ok (SSIT s) si) as (st & Est & Hst); [rewrite (sw_lenS _ Hwf); lia|].
  pose proof (sw_sets _ Hwf _ _ Hld) as Rld. pose proof (sw_sets _ Hwf _ _ Hst) as Rst.
  pose proof (calcSSID_range load_PC s Hwf) as Rnew. cbn [mbind res_bind].
  assert (HU : u32 (LFSTSize s) = LFSTSize s) by (apply u32_small; unfold in_u32; lia).
  destruct vl, vs; rewrite ?Eld, ?Est; cbn [mbind res_bind];
    repeat change (LFSTSize (setSSID ?i ?v ?x)) with (LFSTSize x);
    rewrite ?HU, ?(proj2 (Z.ltb_lt ld (LFSTSize s))), ?(proj2 (Z.ltb_lt st (LFSTSize s))) by lia;
    cbn [andb assertR mbind res_bind].
  - destruct (ld <? st); eexists _, _; (split; [done|]); eapply merge_together; eauto.
  - exists (setSSID si ld s), ld. split; [done|]. apply setSSID_together; auto. intros j [->| ->]; auto.
  - exists (setSSID li st s), st. split; [done|]. apply setSSID_together; auto. intros j [->| ->]; auto.
  - rewrite (proj2 (Z.ltb_lt (calcSSID load_PC s) (LFSTSize s))) by lia. cbn [assertR mbind res_bind].
    exists (setSSID si (calcSSID load_PC s) (setSSID li (calcSSID load_PC s) s)), (calcSSID load_PC s).
    split; [done|].
    assert (Ht : together si li (calcSSID load_PC s) (setSSID li (calcSSID load_PC s) s)
              (setSSID si (calcSSID load_PC s) (setSSID li (calcSSID load_PC s) s))).
    { apply setSSID_together; try done; [by apply setSSID_wf|by left|].
      intros j [->| ->]; [by left|right]. cbn.
      rewrite !put_eq by (rewrite ?(sw_lenS _ Hwf), ?(sw_lenVS _ Hwf); lia). done. }
    destruct Ht as (? & ? & ? & ? & ? & ? & ?). split_and!; done || lia.
Qed.

Lemma clear_wf s : ss_wf s -> ss_wf (clear s).
Proof. intros []. split; cbn; rewrite ?length_replicate; try done; constructor. Qed.

Lemma checkClear_cases s :
  (exists n, checkClear s = s <| memOpsPred := n |>) \/
  checkClear s = clear (s <| memOpsPred := 0 |>).
Proof. unfold checkClear. case_ifs; eauto. Qed.

Lemma checkClear_wf s : ss_wf s -> ss_wf (checkClear s).
Proof.
  intros H. destruct (checkClear_cases s) as [[n ->]| ->].
  - by destruct H.
  - apply clear_wf. by destruct H.
Qed.

Lemma checkClear_frame s :
  SSITSize (checkClear s) = SSITSize s /\ LFSTSize (checkClear s) = LFSTSize s /\
  SSIT (checkClear s) = SSIT s /\ LFST (checkClear s) = LFST s /\
  (storeList (checkClear s) = storeList s \/ storeList (checkClear s) = []) /\
  forall PC, calcIndex PC (checkClear s) = calcIndex PC s.
Proof. destruct (checkClear_cases s) as [[n ->]| ->]; cbn; auto 10. Qed.

Lemma mapPut_Forall (P : Z * Z -> Prop) k v l : P (k, v) -> Forall P l -> Forall P (mapPut k v l).
Proof.
  intros Hk Hl. induction Hl as [|[k' v'] l Hx Hl IH]; cbn; [by constructor|].
  case_ifs; by repeat constructor.
Qed.

Lemma mapPut_sorted k v l :
  StronglySorted (fun a b : Z * Z => fst b < fst a) l ->
  StronglySorted (fun a b : Z * Z => fst b < fst a) (mapPut k v l).
Proof.
  induction 1 as [|[k' v'] l Hl IH Hx]; cbn; [repeat constructor|].
  destruct (Z.ltb_spec k' k); [|destruct (Z.eqb_spec k' k) as [->|]].
  - constructor; [by constructor|]. constructor; [done|].
    eapply Forall_impl; [exact Hx|]. cbn. intros [? ?]; cbn. lia.
  - by constructor.
  - constructor; [done|]. apply mapPut_Forall; [cbn; lia|done].
Qed.

Lemma mapErase_wf k s : ss_wf s -> ss_wf (s <| storeList := mapErase k (storeList s) |>).
Proof.
  intros []. split; cbn; try done.
  - by apply Forall_filter_sub.
  - unfold mapErase. clear -sw_sorted0. induction sw_sorted0 as [|e l Hl IH He]; [constructor|].
    rewrite filter_cons. case_decide; [|done]. constructor; [done|]. by apply Forall_filter_sub.
Qed.

(** What [insertStore] finds. *)
Lemma insertStore_ok PC sn s :
  ss_wf s -> let s1 := checkClear s in
  exists (valid : bool) (ssid : Z), validSSIT s1 !! Z.to_nat (calcIndex PC s) = Some valid /\
    SSIT s1 !! Z.to_nat (calcIndex PC s) = Some ssid /\ 0 <= ssid < LFSTSize s /\
    insertStore PC sn s =
      Ok (if valid then s1 <| LFST := put (LFST s1) ssid sn |>
                           <| validLFST := put (validLFST s1) ssid true |>
                           <| storeList := mapPut sn ssid (storeList s1) |> else s1).
Proof.
  intros Hwf s1. pose proof (checkClear_wf s Hwf) as Hwf1. fold s1 in Hwf1.
  destruct (checkClear_frame s) as (E1 & E2 & _ & _ & _ & E3). fold s1 in E1, E2, E3.
  pose proof (calcIndex_range PC s Hwf) as Hi. unfold insertStore. cbv zeta. fold s1.
  rewrite E1, (proj2 (Z.ltb_lt _ _)) by lia. cbn [assertR mbind res_bind].
  destruct (entry_ok (validSSIT s1) (calcIndex PC s)) as (v & -> & Hv);
    [rewrite (sw_lenVS _ Hwf1); lia|].
  destruct (entry_ok (SSIT s1) (calcIndex PC s)) as (x & Ex & Hx);
    [rewrite (sw_lenS _ Hwf1); lia|].
  pose proof (sw_sets _ Hwf1 _ _ Hx) as Rx. pose proof (sw_lfst _ Hwf1).
  exists v, x. split_and!; try done; [lia..|]. cbn [mbind res_bind].
  destruct v; cbn [negb]; [|done]. rewrite Ex. cbn [mbind res_bind].
  rewrite s32_small by lia. rewrite (proj2 (Z.ltb_lt _ _)) by lia. cbn [assertR mbind res_bind].
  destruct (entry_ok (LFST s1) x) as (y & -> & _); [rewrite (sw_lenL _ Hwf1); lia|]. done.
Qed.

Lemma insertStore_wf PC sn s :
  ss_wf s -> exists s', insertStore PC sn s = Ok s' /\ ss_wf s' /\
    (lastOK s -> inOrder s (SSStore PC sn) -> lastOK s').
Proof.
  intros Hwf. destruct (insertStore_ok PC sn s Hwf) as (v & x & _ & _ & Hx & ->).
  eexists. split; [done|]. pose proof (checkClear_wf s Hwf) as Hwf1.
  destruct (checkClear_frame s) as (E1 & E2 & _ & E4 & E5 & _).
  assert (Hlast : lastOK s -> lastOK (checkClear s))
    by (unfold lastOK; rewrite E4; intros Hl; by destruct E5 as [->| ->]).
  destruct v; [|by auto]. set (s1 := checkClear s) in *.
  split; [destruct Hwf1; split; cbn; rewrite ?put_length; try done|].
  - apply mapPut_Forall; [cbn; lia|done].
  - by apply mapPut_sorted.
  - intros Hl Hord. specialize (Hlast Hl). unfold lastOK in *. cbn in *.
    apply mapPut_Forall.
    + exists sn. cbn. split; [|lia]. apply put_eq. rewrite (sw_lenL _ Hwf1). lia.
    + assert (Hord1 : Forall (fun e => fst e <= sn) (storeList s1))
        by (destruct E5 as [->| ->]; [done|constructor]).
      pose proof (sw_stores _ Hwf1) as Hst. rewrite Forall_forall in Hlast, Hord1, Hst |- *.
      intros e He. destruct (Hlast e He) as (last & Hl1 & Hle). specialize (Hst e He).
      destruct (decide (x = snd e)) as [->|Hne].
      * exists sn. split; [|by apply Hord1]. apply put_eq. rewrite (sw_lenL _ Hwf1). lia.
      * exists last. split; [|done]. rewrite put_ne by lia. done.
Qed.

Lemma issued_wf PC sn b s :
  ss_wf s -> exists s', issued PC sn b s = Ok s' /\ ss_wf s' /\ (lastOK s -> lastOK s').
Proof.
  intros Hwf. unfold issued. destruct b; cbn [negb]; [|eauto].
  pose proof (calcIndex_range PC s Hwf) as Hi. rewrite (proj2 (Z.ltb_lt _ _)) by lia.
  cbn [assertR mbind res_bind]. cbv zeta. pose proof (mapErase_wf sn s Hwf) as Hwf1.
  assert (Hlast : lastOK s -> lastOK (s <| storeList := mapErase sn (storeList s) |>))
    by (intros Hl; unfold lastOK; cbn; by apply Forall_filter_sub).
  set (s1 := s <| storeList := mapErase sn (storeList s) |>) in *.
  assert (SSITSize s1 = SSITSize s /\ LFSTSize s1 = LFSTSize s) as [E1 E2] by done.
  destruct (entry_ok (validSSIT s1) (calcIndex PC s)) as (v & -> & Hv);
    [rewrite (sw_lenVS _ Hwf1); lia|]. cbn [mbind res_bind].
  destruct v; cbn [negb]; [|eauto].
  destruct (entry_ok (SSIT s1) (calcIndex PC s)) as (x & -> & Hx);
    [rewrite (sw_lenS _ Hwf1); lia|]. cbn [mbind res_bind].
  pose proof (sw_sets _ Hwf1 _ _ Hx) as Rx. pose proof (sw_lfst _ Hwf1).
  rewrite s32_small by lia. rewrite (proj2 (Z.ltb_lt _ _)) by lia. cbn [assertR mbind res_bind].
  destruct (entry_ok (validLFST s1) x) as (w & -> & _); [rewrite (sw_lenVL _ Hwf1); lia|].
  destruct (entry_ok (LFST s1) x) as (y & -> & _); [rewrite (sw_lenL _ Hwf1); lia|].
  cbn [mbind res_bind]. case_ifs; [|eauto]. eexists. split; [done|].
  split; [|done]. destruct Hwf1. split; cbn -[s1]; rewrite ?put_length; done.
Qed.

(** The store sets of the stores a squash to [n] removes. *)
Definition squashedSet (n : Z) (l : list (Z * Z)) (i : nat) : Prop :=
  Exists (fun e => n < fst e /\ Z.to_nat (snd e) = i) l.

#[export] Instance squashedSet_dec n l i : Decision (squashedSet n l i).
Proof. unfold squashedSet. apply _. Defined.

Lemma squash_ok fuel n s :
  (length (storeList s) < fuel)%nat -> ss_wf s -> lastOK s ->
  exists V, squash fuel n s =
      Some (Ok (s <| validLFST := V |> <| storeList := filter (fun e => fst e <= n) (storeList s) |>)) /\
    length V = length (validLFST s) /\
    forall i, V !! i = if decide (squashedSet n (storeList s) i) then (fun _ => false) <$> validLFST s !! i
                       else validLFST s !! i.
Proof.
  revert s. induction fuel as [|fuel IH]; intros s Hf Hwf Hl; [lia|]. cbn [squash].
  pose proof (sw_stores _ Hwf) as Hst. pose proof (sw_sorted _ Hwf) as Hso.
  unfold lastOK in Hl. destruct (storeList s) as [|[sn idx] rest] eqn:El.
  - exists (validLFST s). split; [|split; [done|]].
    + do 2 f_equal. destruct s; cbn in *; congruence.
    + intros i. rewrite decide_False; [done|]. unfold squashedSet. by intros ?%Exists_nil.
  - inversion_clear Hst as [|? ? Hidx Hst']. inversion_clear Hso as [|? ? Hso' Hlt].
    inversion_clear Hl as [|? ? (last & Hlast & Hle) Hl']. cbn in Hidx, Hlast, Hle, Hlt.
    rewrite Forall_forall in Hlt. destruct (Z.leb_spec sn n) as [Hn|Hn].
    + exists (validLFST s). split; [|split; [done|]].
      * do 2 f_equal. rewrite filter_all; [destruct s; cbn in *; congruence|].
        intros e [->|He]%elem_of_cons; cbn; [done|]. specialize (Hlt e He). lia.
      * intros i. rewrite decide_False; [done|]. unfold squashedSet. rewrite Exists_exists.
        intros (e & [->|He]%elem_of_cons & Hx & _); cbn in *; [lia|]. specialize (Hlt e He). lia.
    + destruct (entry_ok (LFST s) idx) as (y & -> & Hy); [rewrite (sw_lenL _ Hwf); lia|].
      rewrite Hlast in Hy. injection Hy as <-.
      destruct (entry_ok (validLFST s) idx) as (v & -> & Hv); [rewrite (sw_lenVL _ Hwf); lia|].
      rewrite (proj2 (Z.ltb_lt n last)) by lia. rewrite !andb_true_r.
      set (s1 := s <| validLFST := put (validLFST s) idx false |> <| storeList := rest |>).
      assert (Es : (if v then squash fuel n s1 else if negb v then squash fuel n (s <| storeList := rest |>)
                    else squash fuel n s) = squash fuel n s1).
      { destruct v; [done|]. cbn. f_equal. unfold s1. unfold put. rewrite list_insert_id by done. done. }
      rewrite Es. assert (Hwf1 : ss_wf s1).
      { destruct Hwf. split; cbn; rewrite ?put_length; done. }
      destruct (IH s1) as (V & -> & Hlen & HV); [cbn in Hf |- *; lia|done|exact Hl'|].
      exists V. rewrite filter_cons_False by (cbn; lia). split; [done|].
      split; [rewrite Hlen; apply put_length|]. intros i. rewrite HV.
      change (storeList s1) with rest. change (validLFST s1) with (put (validLFST s) idx false).
      assert (Hc : squashedSet n ((sn, idx) :: rest) i <-> Z.to_nat idx = i \/ squashedSet n rest i).
      { unfold squashedSet. rewrite Exists_cons. cbn. naive_solver. }
      unfold put. destruct (decide (Z.to_nat idx = i)) as [<-|Hne].
      * rewrite list_lookup_insert_eq by (by apply lookup_lt_Some in Hv). rewrite Hv. cbn.
        rewrite (decide_True (P := squashedSet n ((sn, idx) :: rest) _)) by tauto. by case_decide.
      * rewrite list_lookup_insert_ne by done. repeat case_decide; tauto.
Qed.

(** ** Reachable states *)

(** The states the predictor of a machine with one thread can be in. *)
Inductive reachSS (clear_period SSIT_size LFST_size : Z) : StoreSet -> Prop :=
  | reachSS_ctor s :
      StoreSet_ctor clear_period SSIT_size LFST_size = Ok s ->
      reachSS clear_period SSIT_size LFST_size s
  | reachSS_init :
      reachSS clear_period SSIT_size LFST_size
        (init clear_period SSIT_size LFST_size StoreSet_default)
  | reachSS_step s op s' :
      reachSS clear_period SSIT_size LFST_size s -> inOrder s op ->
      runSS s op = Some (Ok s') -> reachSS clear_period SSIT_size LFST_size s'.

Lemma ctor_wf c a b s :
  0 < a < 2 ^ 31 -> 0 < b < 2 ^ 31 -> StoreSet_ctor c a b = Ok s -> ss_wf s /\ lastOK s.
Proof.
  intros Ha Hb H. unfold StoreSet_ctor in H. inv_ok.
  split; [split; cbn; rewrite ?length_replicate; try done; try lia; try constructor|constructor].
  all: intros; match goal with H : replicate _ _ !! _ = Some _ |- _ =>
         apply lookup_replicate_1 in H as [-> _] end; lia.
Qed.

Lemma init_default c a b :
  init c a b StoreSet_default =
    mkStoreSet (replicate (Z.to_nat a) 0) (replicate (Z.to_nat a) false)
      (replicate (Z.to_nat b) 0) (replicate (Z.to_nat b) false) [] c a b (a - 1) 2 0.
Proof. unfold init. cbn. by rewrite resize_nil. Qed.

Lemma init_wf c a b :
  0 < a < 2 ^ 31 -> 0 < b < 2 ^ 31 ->
  ss_wf (init c a b StoreSet_default) /\ lastOK (init c a b StoreSet_default).
Proof.
  intros Ha Hb. rewrite init_default. split; [|constructor].
  split; cbn; rewrite ?length_replicate; try done; try lia; try constructor.
  all: intros; match goal with H : replicate _ _ !! _ = Some _ |- _ =>
         apply lookup_replicate_1 in H as [-> _] end; lia.
Qed.

Lemma checkInst_ok PC s :
  ss_wf s -> exists dep, checkInst PC s = Ok dep /\ (dep = 0 \/ exists k, LFST s !! k = Some dep).
Proof.
  intros Hwf. pose proof (calcIndex_range PC s Hwf). unfold checkInst.
  rewrite (proj2 (Z.ltb_lt _ _)) by lia. cbn [assertR mbind res_bind].
  destruct (entry_ok (validSSIT s) (calcIndex PC s)) as (v & -> & _);
    [rewrite (sw_lenVS _ Hwf); lia|]. cbn [mbind res_bind]. destruct v; cbn [negb]; [|eauto].
  destruct (entry_ok (SSIT s) (calcIndex PC s)) as (x & -> & Hx); [rewrite (sw_lenS _ Hwf); lia|].
  pose proof (sw_sets _ Hwf _ _ Hx). pose proof (sw_lfst _ Hwf). cbn [mbind res_bind].
  rewrite s32_small by lia. rewrite (proj2 (Z.ltb_lt _ _)) by lia. cbn [assertR mbind res_bind].
  destruct (entry_ok (validLFST s) x) as (w & -> & _); [rewrite (sw_lenVL _ Hwf); lia|].
  destruct (entry_ok (LFST s) x) as (y & -> & Hy); [rewrite (sw_lenL _ Hwf); lia|].
  cbn [mbind res_bind]. destruct w; cbn [negb]; eauto.
Qed.

Lemma squash_wf n s : ss_wf s -> lastOK s ->
  exists s', squash (squashFuel s) n s = Some (Ok s') /\ ss_wf s' /\ lastOK s'.
Proof.
  intros Hwf Hl. destruct (squash_ok (squashFuel s) n s) as (V & -> & Hlen & _); [|done..|].
  { unfold squashFuel. lia. }
  eexists. split; [done|]. split.
  - destruct Hwf. split; cbn; rewrite ?Hlen; try done; [by apply Forall_filter_sub|].
    clear -sw_sorted0. induction sw_sorted0 as [|e l Hl IH He]; [constructor|].
    rewrite filter_cons. case_decide; [|done]. constructor; [done|]. by apply Forall_filter_sub.
  - unfold lastOK. cbn. by apply Forall_filter_sub.
Qed.

Lemma runSS_ok s op : ss_wf s -> lastOK s -> inOrder s op ->
  exists s', runSS s op = Some (Ok s') /\ ss_wf s' /\ lastOK s'.
Proof.
  intros Hwf Hl Ho. destruct op as [st ld|pc sn|pc sn|pc sn b|sn| |pc]; cbn [runSS].
  - destruct (violation_ok st ld s Hwf) as (s' & x & -> & Hwf' & _ & _ & _ & _ & _ & E).
    exists s'. split_and!; [done..|]. rewrite E. exact Hl.
  - exists (checkClear s). split; [done|]. split; [by apply checkClear_wf|].
    destruct (checkClear_frame s) as (_ & _ & _ & E4 & E5 & _). unfold lastOK. rewrite E4.
    destruct E5 as [->| ->]; [done|constructor].
  - destruct (insertStore_wf pc sn s Hwf) as (s' & -> & ? & Hl'). eauto.
  - destruct (issued_wf pc sn b s Hwf) as (s' & -> & ? & Hl'). eauto.
  - by apply squash_wf.
  - exists (clear s). split; [done|]. split; [by apply clear_wf|constructor].
  - destruct (checkInst_ok pc s Hwf) as (dep & -> & _). eauto.
Qed.

Lemma reachSS_wf c a b s :
  0 < a < 2 ^ 31 -> 0 < b < 2 ^ 31 -> reachSS c a b s -> ss_wf s /\ lastOK s.
Proof.
  intros Ha Hb. induction 1 as [s H| |s op s' _ [Hwf Hl] Ho H];
    [by apply (ctor_wf c a b)|by apply init_wf|].
  destruct (runSS_ok s op Hwf Hl Ho) as (s1 & H1 & ? & ?). rewrite H in H1. by injection H1 as <-.
Qed.

(** ** What the predictor promises the memory dependence unit

    [ok P s]: the predictor works, and the stores it may name are in [P]. *)
Class DepPredictor (ok : (Z -> Prop) -> StoreSet -> Prop) := {
  dp_mono P Q s : (forall sn, P sn -> Q sn) -> ok P s -> ok Q s;
  dp_init c a b P : 0 < a < 2 ^ 31 -> 0 < b < 2 ^ 31 -> ok P (init c a b StoreSet_default);
  dp_check P s PC : ok P s -> exists dep, checkInst PC s = Ok dep /\ (dep = 0 \/ P dep);
  dp_insert P s PC sn : ok P s -> (forall x, P x -> x <= sn) ->
    exists s', insertStore PC sn s = Ok s' /\ ok (fun x => x = sn \/ P x) s';
  dp_issued P s PC sn b : ok P s -> exists s', issued PC sn b s = Ok s' /\ ok P s';
  dp_violation P s st ld : ok P s -> exists s', violation st ld s = Ok s' /\ ok P s';
  dp_squash P s n : ok P s ->
    exists s', squash (squashFuel s) n s = Some (Ok s') /\ ok P s'
}.

Definition predOK (P : Z -> Prop) (s : StoreSet) : Prop :=
  ss_wf s /\ lastOK s /\ (forall k v, LFST s !! k = Some v -> v = 0 \/ P v) /\
  Forall (fun e => P (fst e)) (storeList s).

Lemma predOK_insert P s PC sn :
  predOK P s -> (forall x, P x -> x <= sn) ->
  exists s', insertStore PC sn s = Ok s' /\ predOK (fun x => x = sn \/ P x) s'.
Proof.
  intros (Hwf & Hl & HL & HS) Hsn. destruct (insertStore_wf PC sn s Hwf) as (s' & E & Hwf' & Hl').
  exists s'. split; [done|]. split; [done|]. split.
  { apply Hl'; [done|]. cbn. eapply Forall_impl; [exact HS|]. cbn. auto. }
  destruct (insertStore_ok PC sn s Hwf) as (v & x & _ & _ & _ & E2). rewrite E in E2.
  injection E2 as ->. destruct (checkClear_frame s) as (_ & _ & _ & E4 & E5 & _).
  assert (HL1 : forall k v, LFST (checkClear s) !! k = Some v -> v = 0 \/ v = sn \/ P v)
    by (intros k y; rewrite E4; intros Hy; destruct (HL k y Hy); auto).
  assert (HS1 : Forall (fun e : Z * Z => fst e = sn \/ P (fst e)) (storeList (checkClear s))).
  { destruct E5 as [->| ->]; [|constructor]. eapply Forall_impl; [exact HS|]. auto. }
  destruct v; [|done]. cbn. split.
  - intros k y Hy. unfold put in Hy.
    apply list_lookup_insert_Some in Hy as [(_ & <- & _)|[_ Hy]]; eauto.
  - apply mapPut_Forall; cbn; auto.
Qed.

#[export] Instance storeSet_predictor : DepPredictor predOK.
Proof.
  split.
  - intros P Q s HPQ (? & ? & HL & HS). split_and!; try done.
    + intros k v Hk. destruct (HL k v Hk); auto.
    + eapply Forall_impl; [exact HS|]. auto.
  - intros c a b P Ha Hb. destruct (init_wf c a b Ha Hb). split_and!; try done.
    rewrite init_default. cbn. intros k v [-> _]%lookup_replicate_1. auto.
  - intros P s PC (Hwf & _ & HL & _). destruct (checkInst_ok PC s Hwf) as (dep & -> & [->|[k Hk]]); eauto.
  - intros. by apply predOK_insert.
  - intros P s PC sn b (Hwf & Hl & HL & HS). destruct (issued_wf PC sn b s Hwf) as (s' & E & Hwf' & Hl').
    exists s'. split; [done|]. split_and!; try done; [by auto|..].
    all: unfold issued in E; destruct b; cbn [negb] in E; inv_ok; auto;
      repeat match goal with H : (if ?x then _ else _) = Ok _ |- _ => destruct x; inv_ok end;
      cbn; auto; unfold mapErase; by apply Forall_filter_sub.
  - intros P s st ld (Hwf & Hl & HL & HS).
    destruct (violation_ok st ld s Hwf) as (s' & x & E & Hwf' & _ & _ & _ & _ & _ & Es).
    pose proof (f_equal LFST Es) as E1. pose proof (f_equal storeList Es) as E2. cbn in E1, E2.
    exists s'. split; [done|]. unfold predOK, lastOK. rewrite E1, E2. done.
  - intros P s n (Hwf & Hl & HL & HS). destruct (squash_wf n s Hwf Hl) as (s' & E & Hwf' & Hl').
    exists s'. split; [done|].
    destruct (squash_ok (squashFuel s) n s) as (V & E2 & _); [unfold squashFuel; lia|done..|].
    rewrite E in E2. injection E2 as ->. split_and!; try done. cbn. by apply Forall_filter_sub.
Qed.

(** ** Claims *)

(** C34: the store set predictor of a machine with one thread never gets stuck.
    Start it with the constructor, or with the default constructor and [init]
    as the memory dependence unit does; then, in every state reached by
    recording violations, dispatching loads and stores, asking for the store an
    instruction depends on, issuing, squashing and clearing, where stores are
    dispatched in program order, each of these operations succeeds: no assertion
    fails, no table is accessed out of range, and the loop of [squash] ends
    after at most one round per store in flight and one.  What a query names is
    0 or the last store of a set. *)
Theorem storeset_never_stuck clear_period SSIT_size LFST_size s :
  0 < SSIT_size < 2 ^ 31 -> 0 < LFST_size < 2 ^ 31 ->
  reachSS clear_period SSIT_size LFST_size s ->
  (forall op, inOrder s op -> exists s', runSS s op = Some (Ok s')) /\
  forall PC, exists dep, checkInst PC s = Ok dep /\ (dep = 0 \/ exists k, LFST s !! k = Some dep).
Proof.
  intros Ha Hb Hs. destruct (reachSS_wf _ _ _ _ Ha Hb Hs) as [Hwf Hl]. split.
  - intros op Ho. destruct (runSS_ok s op Hwf Hl Ho) as (s' & ? & _). eauto.
  - intros PC. by apply checkInst_ok.
Qed.

(** squashing the predictor to [n] forgets exactly the stores younger than
    [n]: the stores in flight are the ones not younger, the last store of
    exactly the sets that lost a store is invalidated, and nothing else
    changes. *)
Theorem storeset_squash_exact clear_period SSIT_size LFST_size s n :
  0 < SSIT_size < 2 ^ 31 -> 0 < LFST_size < 2 ^ 31 ->
  reachSS clear_period SSIT_size LFST_size s ->
  exists V, squash (squashFuel s) n s =
      Some (Ok (s <| validLFST := V |> <| storeList := filter (fun e => fst e <= n) (storeList s) |>)) /\
    forall i, V !! i = if decide (squashedSet n (storeList s) i) then (fun _ => false) <$> validLFST s !! i
                       else validLFST s !! i.
Proof.
  intros Ha Hb Hs. destruct (reachSS_wf _ _ _ _ Ha Hb Hs) as [Hwf Hl].
  destruct (squash_ok (squashFuel s) n s) as (V & ? & _ & ?); [|done..|eauto].
  unfold squashFuel. lia.
Qed.

(** the predictor learns a violation: once a load has been caught reading
    before an older store, the next dynamic instance of the store makes the
    load depend on it, unless the predictor is cleared in between. *)
Theorem violation_predicted s store_PC load_PC sn :
  ss_wf s -> u64 (s32 (memOpsPred s + 1)) <= clearPeriod s ->
  exists s1 s2, violation store_PC load_PC s = Ok s1 /\ insertStore store_PC sn s1 = Ok s2 /\
    checkInst load_PC s2 = Ok sn.
Proof.
  intros Hwf Hclear.
  destruct (violation_ok store_PC load_PC s Hwf) as (s1 & x & Hv & Ht). exists s1.
  destruct Ht as (Hwf1 & Rx & E1 & E2 & E3 & E4 & Es).
  assert (Hidx : forall PC, calcIndex PC s1 = calcIndex PC s) by (intros PC; exact (f_equal (calcIndex PC) Es)).
  pose proof (f_equal LFSTSize Es) as EL. pose proof (f_equal SSITSize Es) as ES. cbn in EL, ES.
  pose proof (f_equal memOpsPred Es) as EM. pose proof (f_equal clearPeriod Es) as EC. cbn in EM, EC.
  assert (Hcc : checkClear s1 = s1 <| memOpsPred := s32 (memOpsPred s1 + 1) |>).
  { unfold checkClear. cbn. rewrite (proj2 (Z.ltb_ge _ _)); [done|]. by rewrite EM, EC. }
  destruct (insertStore_ok store_PC sn s1 Hwf1) as (v & y & H1 & H2 & _ & H3).
  rewrite Hcc, Hidx in *. cbn in H1, H2. rewrite E3 in H1. rewrite E1 in H2.
  injection H1 as <-. injection H2 as <-. eexists. split; [exact Hv|]. split; [exact H3|].
  clear H3. unfold checkInst. set (s2 := _ <| storeList := _ |>).
  assert (Hi2 : calcIndex load_PC s2 = calcIndex load_PC s) by (rewrite <- Hidx; done).
  pose proof (calcIndex_range load_PC s Hwf) as Hr. rewrite Hi2.
  assert (SSITSize s2 = SSITSize s /\ LFSTSize s2 = LFSTSize s) as [-> ->] by done.
  rewrite (proj2 (Z.ltb_lt _ _)) by lia. cbn [assertR mbind res_bind].
  assert (Hent : forall A (l : list A) i a, 0 <= i -> l !! Z.to_nat i = Some a -> entry l i = Ok a).
  { intros A l i a Hi Hl. unfold entry. rewrite (proj2 (Z.ltb_ge i 0)), Hl by lia. done. }
  rewrite (Hent _ _ _ true) by (done || lia). cbn [mbind res_bind negb].
  rewrite (Hent _ (SSIT s2) _ x) by (done || lia). cbn [mbind res_bind].
  pose proof (sw_lfst _ Hwf). rewrite s32_small by lia.
  rewrite (proj2 (Z.ltb_lt _ _)) by lia. cbn [assertR mbind res_bind].
  rewrite (Hent _ (validLFST s2) x true), (Hent _ (LFST s2) x sn); [done|lia| |lia|];
    cbn; apply put_eq; rewrite ?(sw_lenL _ Hwf1), ?(sw_lenVL _ Hwf1); lia.
Qed.

(** ** A concrete predictor *)

(** A violation is recorded, then two stores of the set are dispatched. *)
Module SampleSet.
Definition start : StoreSet :=
  init 100 8 4 StoreSet_default.
Definition after (s : StoreSet) (op : SSOp) : StoreSet :=
  match runSS s op with Some (Ok s') => s' | _ => s end.
Definition learned : StoreSet := after start (SSViolation 0x400 0x410).
Definition one : StoreSet := after learned (SSStore 0x400 7).
Definition two : StoreSet := after one (SSStore 0x400 9).

Lemma two_reachable : reachSS 100 8 4 two.
Proof.
  apply (reachSS_step _ _ _ one (SSStore 0x400 9)); [|vm_compute; repeat constructor; congruence|vm_compute; reflexivity].
  apply (reachSS_step _ _ _ learned (SSStore 0x400 7)); [|vm_compute; constructor|vm_compute; reflexivity].
  apply (reachSS_step _ _ _ start (SSViolation 0x400 0x410)); [|exact I|vm_compute; reflexivity].
  apply reachSS_init.
Qed.
End SampleSet.

Lemma storeset_never_stuck_witness :
  checkInst 0x410 SampleSet.two = Ok 9 /\
  (forall op, inOrder SampleSet.two op -> exists s', runSS SampleSet.two op = Some (Ok s')) /\
  forall PC, exists dep, checkInst PC SampleSet.two = Ok dep /\
    (dep = 0 \/ exists k, LFST SampleSet.two !! k = Some dep).
Proof.
  split; [vm_compute; reflexivity|].
  apply (storeset_never_stuck 100 8 4 SampleSet.two); [lia..|]. apply SampleSet.two_reachable.
Defined.

Lemma storeset_squash_exact_witness :
  storeList SampleSet.two = [(9, 1); (7, 1)] /\
  exists V, squash (squashFuel SampleSet.two) 8 SampleSet.two =
      Some (Ok (SampleSet.two <| validLFST := V |>
        <| storeList := filter (fun e => fst e <= 8) (storeList SampleSet.two) |>)) /\
    forall i, V !! i = if decide (squashedSet 8 (storeList SampleSet.two) i)
      then (fun _ => false) <$> validLFST SampleSet.two !! i else validLFST SampleSet.two !! i.
Proof.
  split; [vm_compute; reflexivity|].
  apply (storeset_squash_exact 100 8 4 SampleSet.two 8); [lia..|apply SampleSet.two_reachable].
Defined.

Lemma violation_predicted_witness :
  exists s1 s2, violation 0x400 0x410 SampleSet.start = Ok s1 /\ insertStore 0x400 12 s1 = Ok s2 /\
    checkInst 0x410 s2 = Ok 12.
Proof.
  apply (violation_predicted SampleSet.start 0x400 0x410 12).
  - apply (init_wf 100 8 4); lia.
  - vm_compute. congruence.
Defined.
