(* ===== verification/FUPool.v ===== *)
(** * The pool of functional units

    [src/src/cpu/o3/fu_pool.cc] and [fu_pool.hh], with the units of
    [src/src/cpu/func_unit.cc].  Each operation class has a ring of the units
    that provide it; a unit is taken from the ring when an instruction issues,
    and freed at the end of the cycle in which it completes.  Operation classes
    are the numbers of the enumeration. *)

From stdpp Require Import base numbers list functions.
From S2P Require Import Prelude.

#[local] Open Scope Z_scope.

Abbreviation OpClass := nat (only parsing).

(** ** Functional units *)

Record OpDesc := mkOpDesc { opClass : OpClass; opLat : Z; op_pipelined : bool }.
Record FUDesc := mkFUDesc { opDescList : list OpDesc; number : nat }.

Record FuncUnit := mkFuncUnit {
  fu_opLatencies : OpClass -> Z;
  fu_pipelined : OpClass -> bool;
  fu_capabilityList : OpClass -> bool
}.

Definition FuncUnit_ctor : FuncUnit :=
  mkFuncUnit (fun _ => 0) (fun _ => false) (fun _ => false).

Definition addCapability (cap : OpClass) (oplat : Z) (pipeline : bool) (fu : FuncUnit) : res FuncUnit :=
  assert! negb (oplat =? 0) ;;
  Ok (mkFuncUnit (<[cap := oplat]> (fu_opLatencies fu)) (<[cap := pipeline]> (fu_pipelined fu))
        (<[cap := true]> (fu_capabilityList fu))).

Definition provides (capability : OpClass) (fu : FuncUnit) : bool := fu_capabilityList fu capability.

(** ** Rings *)

Record FUIdxQueue := mkQueue { qidx : nat; qsize : nat; funcUnitsIdx : list nat }.

Definition FUIdxQueue_ctor : FUIdxQueue := mkQueue 0 0 [].

Definition addFU (fu_idx : nat) (q : FUIdxQueue) : FUIdxQueue :=
  mkQueue (qidx q) (S (qsize q)) (funcUnitsIdx q ++ [fu_idx]).

Definition getFU (q : FUIdxQueue) : res (nat * FUIdxQueue) :=
  retval ← deref (funcUnitsIdx q !! qidx q);
  let idx := S (qidx q) in
  Ok (retval, mkQueue (if decide (idx = qsize q) then O else idx) (qsize q) (funcUnitsIdx q)).

(** ** The pool *)

Record FUPool := mkFUPool {
  maxOpLatencies : OpClass -> Z;
  pipelined : OpClass -> bool;
  capabilityList : OpClass -> bool;
  unitBusy : list bool;
  unitsToBeFreed : list nat;
  fuPerCapList : OpClass -> FUIdxQueue;
  funcUnits : list FuncUnit      (* [numFU] is its length *)
}.

#[export] Instance eta_fupool : Eta FUPool := fun p =>
  mkFUPool (maxOpLatencies p) (pipelined p) (capabilityList p) (unitBusy p) (unitsToBeFreed p)
    (fuPerCapList p) (funcUnits p).

Definition numFU (p : FUPool) : nat := length (funcUnits p).

(** One operation description of a unit description: every copy of the unit is
    added to the ring of the class. *)
Definition addOp (count : nat) (acc : FUPool * FuncUnit) (d : OpDesc) : res (FUPool * FuncUnit) :=
  let '(p, fu) := acc in
  let cls := opClass d in
  let p := p <| capabilityList := <[cls := true]> (capabilityList p) |>
             <| fuPerCapList := <[cls := foldl (fun q k => addFU (numFU p + k) q)
                                           (fuPerCapList p cls) (seq 0 count)]> (fuPerCapList p) |> in
  fu ← addCapability cls (opLat d) (op_pipelined d) fu;
  let p := if maxOpLatencies p cls <? opLat d
           then p <| maxOpLatencies := <[cls := opLat d]> (maxOpLatencies p) |> else p in
  let p := if negb (op_pipelined d)
           then p <| pipelined := <[cls := false]> (pipelined p) |> else p in
  Ok (p, fu).

(** One unit description: [number] copies of the unit. *)
Definition addDesc (p : FUPool) (d : FUDesc) : res FUPool :=
  if decide (number d = O) then Ok p else
  '(p, fu) ← foldR (addOp (number d)) (p, FuncUnit_ctor) (opDescList d);
  Ok (p <| funcUnits := funcUnits p ++ replicate (number d) fu |>).

Definition FUPool_ctor (FUList : list FUDesc) : res FUPool :=
  p ← foldR addDesc
        (mkFUPool (fun _ => 0) (fun _ => true) (fun _ => false) [] [] (fun _ => FUIdxQueue_ctor) [])
        FUList;
  Ok (p <| unitBusy := replicate (numFU p) false |>).

Definition NoCapableFU : Z := -2.
Definition NoFreeFU : Z := -1.

(** The loop of [getUnit]; [None] when [fuel] rounds are not enough. *)
Fixpoint findFree (fuel : nat) (busy : list bool) (start_idx fu_idx : nat) (q : FUIdxQueue)
    : option (res (option nat * FUIdxQueue)) :=
  match fuel with
  | O => None
  | S fuel =>
      match deref (busy !! fu_idx) with
      | Ok false => Some (Ok (Some fu_idx, q))
      | Ok true =>
          match getFU q with
          | Ok (fu_idx, q) =>
              if decide (fu_idx = start_idx) then Some (Ok (None, q))
              else findFree fuel busy start_idx fu_idx q
          | Panic => Some Panic
          | Undef => Some Undef
          end
      | Panic => Some Panic
      | Undef => Some Undef
      end
  end.

Definition getUnit (fuel : nat) (capability : OpClass) (p : FUPool) : option (res (Z * FUPool)) :=
  if negb (capabilityList p capability) then Some (Ok (NoCapableFU, p)) else
  match getFU (fuPerCapList p capability) with
  | Ok (fu_idx, q) =>
      match findFree fuel (unitBusy p) fu_idx fu_idx q with
      | None => None
      | Some r => Some (
          '(o, q) ← r;
          let p := p <| fuPerCapList := <[capability := q]> (fuPerCapList p) |> in
          match o with
          | None => Ok (NoFreeFU, p)
          | Some fu_idx =>
              assert! (fu_idx <? numFU p)%nat ;;
              Ok (Z.of_nat fu_idx, p <| unitBusy := <[fu_idx := true]> (unitBusy p) |>)
          end)
      end
  | Panic => Some Panic
  | Undef => Some Undef
  end.

Definition freeUnitNextCycle (fu_idx : nat) (p : FUPool) : res FUPool :=
  busy ← deref (unitBusy p !! fu_idx);
  assert! busy ;;
  Ok (p <| unitsToBeFreed := unitsToBeFreed p ++ [fu_idx] |>).

(** The body of the loop of [processFreeUnits], which works from the back of
    the list. *)
Definition freeOne (p : FUPool) (fu_idx : nat) : res FUPool :=
  busy ← deref (unitBusy p !! fu_idx);
  assert! busy ;;
  Ok (p <| unitBusy := <[fu_idx := false]> (unitBusy p) |>).

Definition processFreeUnits (p : FUPool) : res FUPool :=
  p ← foldR freeOne p (reverse (unitsToBeFreed p));
  Ok (p <| unitsToBeFreed := [] |>).

Definition isDrained (p : FUPool) : bool := forallb negb (unitBusy p).

(** ** A client of the pool *)

Inductive FUOp := FUGet (c : OpClass) | FUFree (i : nat) | FUProcess.

(** Enough rounds for the loop of [getUnit]: one per unit of the class. *)
Definition getFuel (c : OpClass) (p : FUPool) : nat := length (funcUnitsIdx (fuPerCapList p c)).

(** The pool with the units its client has got and not yet given back. *)
Definition runFU (s : FUPool * list nat) (op : FUOp) : option (res (FUPool * list nat)) :=
  let '(p, held) := s in
  match op with
  | FUGet c =>
      match getUnit (getFuel c p) c p with
      | Some (Ok (r, p)) => Some (Ok (p, if r <? 0 then held else Z.to_nat r :: held))
      | Some Panic => Some Panic
      | Some Undef => Some Undef
      | None => None
      end
  | FUFree i => Some (p ← freeUnitNextCycle i p; Ok (p, filter (fun j => j <> i) held))
  | FUProcess => Some (p ← processFreeUnits p; Ok (p, held))
  end.

(** Only a unit that is held is given back. *)
Definition fuAllowed (s : FUPool * list nat) (op : FUOp) : Prop :=
  match op with FUFree i => i ∈ snd s | _ => True end.

(** ** Well-formedness *)

Record queue_wf (q : FUIdxQueue) : Prop := {
  qw_size : qsize q = length (funcUnitsIdx q);
  qw_idx : (qidx q < Nat.max 1 (qsize q))%nat;
  qw_nodup : NoDup (funcUnitsIdx q)
}.

Record pool_wf (p : FUPool) : Prop := {
  pw_busy : length (unitBusy p) = numFU p;
  pw_queue : forall c, queue_wf (fuPerCapList p c);
  pw_cap : forall c, capabilityList p c = true <-> funcUnitsIdx (fuPerCapList p c) <> [];
  pw_units : forall c i, i ∈ funcUnitsIdx (fuPerCapList p c) <->
    exists fu, funcUnits p !! i = Some fu /\ provides c fu = true
}.

(** ** The ring *)

Lemma getFU_ok q : queue_wf q -> funcUnitsIdx q <> [] ->
  exists v, funcUnitsIdx q !! qidx q = Some v /\
    getFU q = Ok (v, mkQueue (S (qidx q) mod qsize q) (qsize q) (funcUnitsIdx q)).
Proof.
  intros [Hs Hi _] Hne. assert (length (funcUnitsIdx q) <> 0%nat) by (by destruct (funcUnitsIdx q)).
  destruct (lookup_lt_is_Some_2 (funcUnitsIdx q) (qidx q)) as [v Hv]; [lia|].
  exists v. split; [done|]. unfold getFU. rewrite Hv. cbn. do 3 f_equal.
  case_decide as E; [rewrite E, Nat.Div0.mod_same; done|].
  rewrite Nat.mod_small by lia. done.
Qed.

(** The unit [k] places after [i]. *)
Definition ringAt (l : list nat) (i k : nat) : option nat := l !! ((i + k) mod length l)%nat.

Lemma ringAt_some l i k : l <> [] -> is_Some (ringAt l i k).
Proof.
  intros Hne. apply lookup_lt_is_Some_2. apply Nat.mod_upper_bound. by destruct l.
Qed.

Lemma ringAt_inj l i k v :
  NoDup l -> (0 < k < length l)%nat -> ringAt l i 0 = Some v -> ringAt l i k = Some v -> False.
Proof.
  intros Hnd Hk H1 H2. unfold ringAt in *.
  pose proof (NoDup_lookup _ _ _ _ Hnd H1 H2) as E. rewrite Nat.add_0_r in E.
  pose proof (Nat.div_mod_eq i (length l)) as D1.
  pose proof (Nat.div_mod_eq (i + k) (length l)) as D2. rewrite <- E in D2.
  assert (Hd : (k = length l * ((i + k) / length l - i / length l))%nat) by nia.
  destruct ((i + k) / length l - i / length l)%nat; nia.
Qed.

Lemma findFree_ok n busy l i v k fuel idx :
  NoDup l -> length l = n -> ringAt l i 0 = Some v ->
  (forall u, u ∈ l -> is_Some (busy !! u)) ->
  (k < n)%nat -> (n - k <= fuel)%nat -> idx = ((i + S k) mod n)%nat ->
  (forall m u, (m < k)%nat -> ringAt l i m = Some u -> busy !! u = Some true) ->
  forall u, ringAt l i k = Some u ->
  (exists j w, (k <= j < n)%nat /\ ringAt l i j = Some w /\ busy !! w = Some false /\
     findFree fuel busy v u (mkQueue idx n l) = Some (Ok (Some w, mkQueue ((i + S j) mod n)%nat n l))) \/
  ((forall m u, (m < n)%nat -> ringAt l i m = Some u -> busy !! u = Some true) /\
     findFree fuel busy v u (mkQueue idx n l) = Some (Ok (None, mkQueue ((i + S n) mod n)%nat n l))).
Proof.
  intros Hnd Hn Hv Hin. revert k idx. induction fuel as [|fuel IH]; intros k idx Hk Hf -> Hb u Hu; [lia|].
  cbn [findFree]. destruct (Hin u) as [b Eb].
  { unfold ringAt in Hu. by eapply list_elem_of_lookup_2. }
  rewrite Eb. cbn. destruct b; [|left; exists k, u; split_and!; done || lia].
  assert (Hb' : forall m u, (m < S k)%nat -> ringAt l i m = Some u -> busy !! u = Some true).
  { intros m u' Hm Hu'. destruct (decide (m = k)) as [->|]; [|apply (Hb m); [lia|done]].
    rewrite Hu in Hu'. by injection Hu' as <-. }
  assert (Hne : l <> []) by (destruct l; [cbn in Hn; lia|done]).
  destruct (ringAt_some l i (S k) Hne) as [w Hw].
  destruct (getFU_ok (mkQueue ((i + S k) mod n) n l)) as (w' & Hw' & ->).
  { split; cbn; [done| |done]. pose proof (Nat.mod_upper_bound (i + S k) n). lia. }
  { done. }
  cbn in Hw'. unfold ringAt in Hw. rewrite Hn, Hw' in Hw. injection Hw as <-.
  cbn [qidx qsize funcUnitsIdx].
  replace (S ((i + S k) mod n) mod n)%nat with ((i + S (S k)) mod n)%nat.
  2: { replace (i + S (S k))%nat with (1 + (i + S k))%nat by lia.
       rewrite <- Nat.Div0.add_mod_idemp_r. done. }
  destruct (decide (S k = n)) as [Ek|Ek].
  - right. split; [intros m u' Hm; apply Hb'; lia|].
    rewrite decide_True; [by rewrite Ek|].
    unfold ringAt in Hv. rewrite Hn, Nat.add_0_r in Hv.
    rewrite Ek in Hw'. replace ((i + n) mod n)%nat with (i mod n)%nat in Hw'.
    { rewrite Hv in Hw'. by injection Hw'. }
    rewrite <- Nat.Div0.add_mod_idemp_r, Nat.Div0.mod_same, Nat.add_0_r. done.
  - assert (Hr : ringAt l i (S k) = Some w') by (unfold ringAt; by rewrite Hn).
    rewrite decide_False.
    2: { intros ->. eapply (ringAt_inj l i (S k)); [done| |done|done]. lia. }
    destruct (IH (S k) ((i + S (S k)) mod n)%nat ltac:(lia) ltac:(lia) eq_refl Hb' w' Hr)
      as [(j & w & Hj & ?)|?]; [left|by right].
    exists j, w. split; [lia|done].
Qed.

(** ** The operations *)

(** What a call of [getUnit] may answer. *)
Definition getUnitSpec (c : OpClass) (p : FUPool) (r : Z) (p' : FUPool) : Prop :=
  (r = NoCapableFU /\ unitBusy p' = unitBusy p /\
     forall i fu, funcUnits p !! i = Some fu -> provides c fu = false) \/
  (r = NoFreeFU /\ unitBusy p' = unitBusy p /\
     forall i fu, funcUnits p !! i = Some fu -> provides c fu = true -> unitBusy p !! i = Some true) \/
  (exists i fu, r = Z.of_nat i /\ funcUnits p !! i = Some fu /\ provides c fu = true /\
     unitBusy p !! i = Some false /\ unitBusy p' = <[i := true]> (unitBusy p)).

Lemma busy_some p c i : pool_wf p -> i ∈ funcUnitsIdx (fuPerCapList p c) -> is_Some (unitBusy p !! i).
Proof.
  intros Hwf Hi. apply (pw_units _ Hwf) in Hi as (fu & Hfu & _). apply lookup_lt_is_Some_2.
  rewrite (pw_busy _ Hwf). by apply lookup_lt_Some in Hfu.
Qed.

(** The pool after its ring [c] has been turned. *)
Lemma turn_wf p c k B :
  pool_wf p -> (k < getFuel c p)%nat -> length B = length (unitBusy p) ->
  pool_wf (p <| fuPerCapList := <[c := mkQueue k (getFuel c p) (funcUnitsIdx (fuPerCapList p c))]>
                  (fuPerCapList p) |> <| unitBusy := B |>).
Proof.
  intros [H1 H2 H3 H4] Hk HB. unfold getFuel in *. split; cbn.
  - unfold numFU in *. cbn. congruence.
  - intros d. destruct (decide (d = c)) as [->|Hne].
    + rewrite fn_lookup_insert. split; cbn; [done|lia|apply H2].
    + rewrite fn_lookup_insert_ne by done. apply H2.
  - intros d. rewrite H3. destruct (decide (d = c)) as [->|Hne].
    + by rewrite fn_lookup_insert.
    + by rewrite fn_lookup_insert_ne.
  - intros d i. rewrite <- H4. destruct (decide (d = c)) as [->|Hne].
    + by rewrite fn_lookup_insert.
    + by rewrite fn_lookup_insert_ne.
Qed.

Lemma getUnit_ok c p :
  pool_wf p -> exists r p', getUnit (getFuel c p) c p = Some (Ok (r, p')) /\ pool_wf p' /\
    getUnitSpec c p r p' /\ funcUnits p' = funcUnits p /\ unitsToBeFreed p' = unitsToBeFreed p.
Proof.
  intros Hwf. unfold getUnit. destruct (capabilityList p c) eqn:Ec; cbn [negb].
  2: { exists NoCapableFU, p. split_and!; try done. left. split_and!; try done.
       intros i fu Hi. destruct (provides c fu) eqn:Ef; [|done].
       assert (Hne : funcUnitsIdx (fuPerCapList p c) <> []).
       { intros E. assert (Hin : i ∈ funcUnitsIdx (fuPerCapList p c)) by (apply (pw_units _ Hwf); eauto).
         rewrite E in Hin. by apply not_elem_of_nil in Hin. }
       apply (pw_cap _ Hwf) in Hne. congruence. }
  apply (pw_cap _ Hwf) in Ec as Hne. pose proof (pw_queue _ Hwf c) as Hq.
  set (q := fuPerCapList p c) in *. set (l := funcUnitsIdx q) in *.
  pose proof (qw_idx _ Hq) as Hidx. pose proof (qw_size _ Hq) as Hsz. fold l in Hsz.
  assert (length l <> 0%nat) by (by destruct l).
  destruct (getFU_ok q Hq Hne) as (v & Hv & ->). fold l in Hv |- *.
  assert (Hv0 : ringAt l (qidx q) 0 = Some v).
  { unfold ringAt. by rewrite Nat.add_0_r, Nat.mod_small by lia. }
  assert (Hmem : forall m u, ringAt l (qidx q) m = Some u -> u ∈ l)
    by (intros m u Hu; by eapply list_elem_of_lookup_2).
  change (getFuel c p) with (length l). rewrite Hsz.
  destruct (findFree_ok (length l) (unitBusy p) l (qidx q) v 0 (length l) (S (qidx q) mod length l))
    with (u := v) as [(j & w & Hj & Hw & Hb & Hf)|[Hall Hf]];
    try done; try lia; [apply Hq|intros u Hu; by eapply busy_some|f_equal; lia|..];
    rewrite Hf; cbn [mbind res_bind].
  - assert (Hwl : w ∈ l) by eauto. apply (pw_units _ Hwf) in Hwl as (fu & Hfu & Hp).
    unfold numFU. cbn [funcUnits upd_field]. rewrite (proj2 (Nat.ltb_lt _ _)) by (by apply lookup_lt_Some in Hfu).
    cbn [assertR mbind res_bind]. eexists _, _. split; [done|]. split; [|split; [|done]].
    + apply (turn_wf p c); [done| |by rewrite length_insert].
      apply Nat.mod_upper_bound. change (getFuel c p) with (length l). lia.
    + right; right. eauto 10.
  - eexists _, _. split; [done|]. split; [|split; [|done]].
    + apply (turn_wf p c _ (unitBusy p)); [done| |done].
      apply Nat.mod_upper_bound. change (getFuel c p) with (length l). lia.
    + right; left. split_and!; [done..|]. intros i fu Hi Hp.
      assert (Hin : i ∈ l) by (apply (pw_units _ Hwf); eauto).
      apply list_elem_of_lookup_1 in Hin as [a Ha]. pose proof (lookup_lt_Some _ _ _ Ha) as Hal.
      apply (Hall ((a + length l - qidx q) mod length l)%nat); [apply Nat.mod_upper_bound; lia|].
      unfold ringAt. rewrite Nat.Div0.add_mod_idemp_r.
      replace (qidx q + (a + length l - qidx q))%nat with (a + 1 * length l)%nat by lia.
      rewrite Nat.Div0.mod_add, Nat.mod_small by lia. done.
Qed.

(** Busy units are the ones held and the ones about to be freed. *)
Record pool_inv (s : FUPool * list nat) : Prop := {
  pi_wf : pool_wf (fst s);
  pi_nodup : NoDup (snd s ++ unitsToBeFreed (fst s));
  pi_busy : forall i, unitBusy (fst s) !! i = Some true <->
    i ∈ snd s ++ unitsToBeFreed (fst s)
}.

Lemma setBusy_wf p B : pool_wf p -> length B = length (unitBusy p) -> pool_wf (p <| unitBusy := B |>).
Proof. intros [] HB. split; cbn; try done. unfold numFU in *. cbn. congruence. Qed.

Lemma setFreed_wf p l : pool_wf p -> pool_wf (p <| unitsToBeFreed := l |>).
Proof. intros []. by split. Qed.

Lemma get_inv c s : pool_inv s -> exists s', runFU s (FUGet c) = Some (Ok s') /\ pool_inv s'.
Proof.
  destruct s as [p held]. intros [Hwf Hnd Hb]. cbn in *.
  destruct (getUnit_ok c p Hwf) as (r & p' & -> & Hwf' & Hspec & _ & Efr).
  destruct Hspec as [(-> & EB & _)|[(-> & EB & _)|(i & fu & -> & _ & _ & Hf & EB)]].
  - eexists. split; [done|]. split; cbn; rewrite ?Efr, ?EB; done.
  - eexists. split; [done|]. split; cbn; rewrite ?Efr, ?EB; done.
  - rewrite (proj2 (Z.ltb_ge _ _)) by lia. rewrite Nat2Z.id. eexists. split; [done|].
    assert (Hni : i ∉ held ++ unitsToBeFreed p) by (rewrite <- Hb; congruence).
    split; cbn -[app]; rewrite ?Efr, ?EB; [done|by constructor|].
    intros j. cbn. rewrite elem_of_cons. destruct (decide (j = i)) as [->|Hne].
    + rewrite list_lookup_insert_eq by (by apply lookup_lt_Some in Hf). tauto.
    + rewrite list_lookup_insert_ne by done. rewrite Hb. tauto.
Qed.

Lemma free_inv i s : pool_inv s -> i ∈ snd s -> exists s', runFU s (FUFree i) = Some (Ok s') /\ pool_inv s'.
Proof.
  destruct s as [p held]. intros [Hwf Hnd Hb] Hi. cbn in *. unfold freeUnitNextCycle.
  rewrite (proj2 (Hb i)) by (rewrite elem_of_app; auto). cbn. eexists. split; [done|].
  assert (Hperm : filter (fun j => j <> i) held ++ unitsToBeFreed p ++ [i] ≡ₚ held ++ unitsToBeFreed p).
  { apply list_relations.list.NoDup_app in Hnd as (Hh & _ & _). apply list_elem_of_split in Hi as (l1 & l2 & ->).
    rewrite (list_basics.list.filter_app), filter_cons_False by tauto.
    apply list_relations.list.NoDup_app in Hh as (_ & Hd & [Hl2 _]%list_relations.list.NoDup_cons).
    rewrite !filter_all; [rewrite <- !app_assoc; cbn; solve_Permutation| |].
    - intros x Hx ->. done.
    - intros x Hx ->. apply (Hd i Hx). left. }
  split; cbn; [by apply setFreed_wf|by rewrite Hperm|]. intros j. rewrite Hb.
  by rewrite Hperm.
Qed.

Lemma process_inv s : pool_inv s -> exists s', runFU s FUProcess = Some (Ok s') /\ pool_inv s' /\
  (forall i, unitBusy (fst s') !! i = Some true <-> i ∈ snd s') /\ snd s' = snd s.
Proof.
  destruct s as [p held]. intros [Hwf Hnd Hb]. cbn in *. unfold processFreeUnits.
  assert (Hloop : forall l p, pool_wf p -> NoDup (held ++ l) ->
    (forall i, unitBusy p !! i = Some true <-> i ∈ held ++ l) ->
    exists B, foldR freeOne p l = Ok (p <| unitBusy := B |>) /\
      length B = length (unitBusy p) /\ forall i, B !! i = Some true <-> i ∈ held).
  { clear. induction l as [|x l IH]; intros p Hwf Hnd Hb; cbn [foldR].
    - exists (unitBusy p). split; [by destruct p|]. split; [done|]. intros i. rewrite Hb, app_nil_r. done.
    - assert (Hx : unitBusy p !! x = Some true) by (apply Hb; rewrite elem_of_app; right; left).
      assert (H1 : freeOne p x = Ok (p <| unitBusy := <[x := false]> (unitBusy p) |>))
        by (unfold freeOne; by rewrite Hx). rewrite H1. cbn [mbind res_bind].
      rewrite <- (Permutation_middle held l x) in Hnd.
      apply list_relations.list.NoDup_cons in Hnd as [Hxn Hnd].
      destruct (IH (p <| unitBusy := <[x := false]> (unitBusy p) |>)) as (B & HB & HL & Hi);
        [apply setBusy_wf; [done|apply length_insert]|done| |].
      + intros i. cbn. destruct (decide (i = x)) as [->|Hne].
        * rewrite list_lookup_insert_eq by (by apply lookup_lt_Some in Hx). naive_solver.
        * rewrite list_lookup_insert_ne, Hb by done. rewrite !elem_of_app, elem_of_cons. tauto.
      + exists B. rewrite HB. split; [done|]. cbn in HL. by rewrite length_insert in HL. }
  destruct (Hloop (reverse (unitsToBeFreed p)) p) as (B & -> & HL & HB); [done| | |].
  { by rewrite reverse_Permutation. }
  { intros i. by rewrite Hb, reverse_Permutation. }
  cbn. eexists. split; [done|]. cbn. split; [|split; [done|done]].
  split; cbn; [exact (setFreed_wf _ [] (setBusy_wf p B Hwf HL))| |].
  - rewrite app_nil_r. by apply list_relations.list.NoDup_app in Hnd as (? & _).
  - intros i. by rewrite app_nil_r.
Qed.

(** ** Construction *)

(** Descriptions the constructor accepts and whose units are in each ring once. *)
Definition descOK (d : FUDesc) : Prop :=
  NoDup (opClass <$> opDescList d) /\ Forall (fun o => opLat o <> 0) (opDescList d).

(** The pool without the busy bits. *)
Record rings_wf (p : FUPool) : Prop := {
  rw_queue : forall c, queue_wf (fuPerCapList p c);
  rw_cap : forall c, capabilityList p c = true <-> funcUnitsIdx (fuPerCapList p c) <> [];
  rw_units : forall c i, i ∈ funcUnitsIdx (fuPerCapList p c) <->
    exists fu, funcUnits p !! i = Some fu /\ provides c fu = true
}.

Definition addFUs (n count : nat) (q : FUIdxQueue) : FUIdxQueue :=
  mkQueue (qidx q) (qsize q + count) (funcUnitsIdx q ++ seq n count).

Lemma addFUs_ok n count q : foldl (fun q k => addFU (n + k) q) q (seq 0 count) = addFUs n count q.
Proof.
  induction count as [|count IH].
  - unfold addFUs. cbn. rewrite app_nil_r, Nat.add_0_r. by destruct q.
  - rewrite seq_S, foldl_app, IH. unfold addFUs, addFU. cbn.
    rewrite Nat.add_succ_r. f_equal. rewrite <- app_assoc. f_equal. symmetry. apply seq_S.
Qed.

Lemma addOps_ok count l p fu :
  NoDup (opClass <$> l) -> Forall (fun o => opLat o <> 0) l ->
  exists p' fu', foldR (addOp count) (p, fu) l = Ok (p', fu') /\
    funcUnits p' = funcUnits p /\ unitsToBeFreed p' = unitsToBeFreed p /\
    forall c, (if decide (c ∈ opClass <$> l)
      then fuPerCapList p' c = addFUs (numFU p) count (fuPerCapList p c) /\
           capabilityList p' c = true /\ provides c fu' = true
      else fuPerCapList p' c = fuPerCapList p c /\ capabilityList p' c = capabilityList p c /\
           provides c fu' = provides c fu).
Proof.
  revert p fu. induction l as [|o l IH]; intros p fu Hnd Hlat; cbn [foldR fmap list_fmap].
  - exists p, fu. split_and!; done.
  - cbn in Hnd. apply list_relations.list.NoDup_cons in Hnd as [Ho Hnd].
    inversion_clear Hlat as [|? ? Hl Hlat'].
    assert (Hadd : exists p1 fu1, addOp count (p, fu) o = Ok (p1, fu1) /\
      funcUnits p1 = funcUnits p /\ unitsToBeFreed p1 = unitsToBeFreed p /\
      fuPerCapList p1 = <[opClass o := addFUs (numFU p) count (fuPerCapList p (opClass o))]> (fuPerCapList p) /\
      capabilityList p1 = <[opClass o := true]> (capabilityList p) /\
      fu_capabilityList fu1 = <[opClass o := true]> (fu_capabilityList fu)).
    { unfold addOp, addCapability. rewrite (proj2 (Z.eqb_neq _ _)) by done. cbn.
      rewrite addFUs_ok. eexists _, _. split; [done|]. case_ifs; done. }
    destruct Hadd as (p1 & fu1 & -> & E1 & E2 & E3 & E4 & E5). cbn [mbind res_bind].
    destruct (IH p1 fu1 Hnd Hlat') as (p' & fu' & -> & F1 & F2 & Hc).
    exists p', fu'. split; [done|]. split; [congruence|]. split; [congruence|].
    intros c. specialize (Hc c). unfold provides in *. rewrite E3, E4, E5 in Hc.
    unfold numFU in *. rewrite E1 in Hc.
    destruct (decide (c = opClass o)) as [->|Hne].
    + rewrite (decide_False (P := _ ∈ _ <$> _)) in Hc by done. rewrite !fn_lookup_insert in Hc.
      rewrite decide_True by left. done.
    + rewrite !fn_lookup_insert_ne in Hc by done.
      destruct (decide (c ∈ opClass <$> l)) as [Hi|Hi].
      * rewrite decide_True by (by right). done.
      * rewrite decide_False by (rewrite elem_of_cons; tauto). done.
Qed.

Lemma addDesc_ok d p :
  descOK d -> rings_wf p -> unitsToBeFreed p = [] ->
  exists p', addDesc p d = Ok p' /\ rings_wf p' /\ unitsToBeFreed p' = [].
Proof.
  intros [Hnd Hlat] Hwf Hf. unfold addDesc. case_decide as Hn; [eauto|].
  destruct (addOps_ok (number d) (opDescList d) p FuncUnit_ctor Hnd Hlat) as (p1 & fu & -> & E1 & E2 & Hc).
  cbn [mbind res_bind]. eexists. split; [done|]. split; [|cbn; congruence].
  assert (Hlt : forall c i, i ∈ funcUnitsIdx (fuPerCapList p c) -> (i < numFU p)%nat).
  { intros c i Hi. apply (rw_units _ Hwf) in Hi as (x & Hx & _). by apply lookup_lt_Some in Hx. }
  split; cbn [fuPerCapList capabilityList funcUnits upd_field]; intros c; specialize (Hc c).
  - destruct (rw_queue _ Hwf c) as [Hs Hi Hq]. destruct (decide _) as [Hin|Hin].
    + destruct Hc as (-> & _). split; cbn.
      * by rewrite length_app, length_seq, Hs.
      * lia.
      * apply list_relations.list.NoDup_app. split_and!; [done| |apply NoDup_ListNoDup, seq_NoDup].
        intros x Hx. apply Hlt in Hx. rewrite elem_of_seq. lia.
    + destruct Hc as (-> & _). done.
  - destruct (decide _) as [Hin|Hin].
    + destruct Hc as (-> & -> & _). cbn. split; [|done]. intros _ Hx. apply app_nil in Hx as [_ Hx].
      destruct (number d); done.
    + destruct Hc as (-> & -> & _). apply (rw_cap _ Hwf).
  - intros i. rewrite E1. assert (Hu : funcUnits p !! i = None \/ (i < numFU p)%nat).
    { destruct (funcUnits p !! i) eqn:Eu; [right; by apply lookup_lt_Some in Eu|by left]. }
    assert (Hspl : (exists fu', (funcUnits p ++ replicate (number d) fu) !! i = Some fu' /\ provides c fu' = true)
      <-> i ∈ funcUnitsIdx (fuPerCapList p c) \/
          (numFU p <= i < numFU p + number d)%nat /\ provides c fu = true).
    { rewrite (rw_units _ Hwf). split.
      - intros (f & [Hi|[Hl Hi]]%lookup_app_Some & Hp); [left; eauto|right].
        apply lookup_replicate_1 in Hi as [-> Hr]. unfold numFU. split; [lia|done].
      - intros [(f & Hi & Hp)|[Hi Hp]].
        + exists f. split; [by apply lookup_app_l_Some|done].
        + exists fu. split; [|done]. rewrite lookup_app_r by (unfold numFU in Hi; lia).
          apply lookup_replicate_2. unfold numFU in Hi. lia. }
    rewrite Hspl. destruct (decide _) as [Hin|Hin].
    + destruct Hc as (-> & _ & Hp). cbn. rewrite elem_of_app, elem_of_seq. naive_solver.
    + destruct Hc as (-> & _ & Hp). rewrite Hp. naive_solver.
Qed.

Lemma FUPool_ctor_ok l :
  Forall descOK l -> exists p, FUPool_ctor l = Ok p /\ pool_inv (p, []).
Proof.
  intros Hl. unfold FUPool_ctor.
  assert (Hfold : forall l p, Forall descOK l -> rings_wf p -> unitsToBeFreed p = [] ->
    exists p', foldR addDesc p l = Ok p' /\ rings_wf p' /\ unitsToBeFreed p' = []).
  { clear. induction l as [|d l IH]; intros p Hl Hwf Hf; cbn; [eauto|].
    inversion_clear Hl as [|? ? Hd Hl']. destruct (addDesc_ok d p Hd Hwf Hf) as (p1 & -> & ? & ?).
    cbn. eauto. }
  edestruct (Hfold l) as (p & -> & [R1 R2 R3] & Ef); [done| |done|].
  { split; cbn; [split; cbn; [done|lia|apply NoDup_nil_2]| |].
    - done.
    - intros c i. rewrite elem_of_nil. split; [done|]. by intros (? & ? & _). }
  cbn. eexists. split; [done|]. split; cbn.
  - split; cbn; [|done..]. by rewrite length_replicate.
  - rewrite Ef. apply NoDup_nil_2.
  - rewrite Ef. intros i. rewrite elem_of_nil. split; [|done].
    intros Hi. by apply lookup_replicate_1 in Hi as [? _].
Qed.

Lemma runFU_inv s op : pool_inv s -> fuAllowed s op ->
  exists s', runFU s op = Some (Ok s') /\ pool_inv s'.
Proof.
  intros Hs Ha. destruct op as [c|i|].
  - by apply get_inv.
  - by apply free_inv.
  - destruct (process_inv s Hs) as (s' & ? & ? & _). eauto.
Qed.

(** The states a pool built from [l] and its client can be in. *)
Inductive reachFU (l : list FUDesc) : FUPool * list nat -> Prop :=
  | reachFU_ctor p : FUPool_ctor l = Ok p -> reachFU l (p, [])
  | reachFU_step s op s' :
      reachFU l s -> fuAllowed s op -> runFU s op = Some (Ok s') -> reachFU l s'.

Lemma reachFU_inv l s : Forall descOK l -> reachFU l s -> pool_inv s.
Proof.
  intros Hl. induction 1 as [p H|s op s' _ IH Ha H].
  - destruct (FUPool_ctor_ok l Hl) as (p' & H' & Hi). rewrite H in H'. by injection H' as <-.
  - destruct (runFU_inv s op IH Ha) as (s1 & H1 & ?). rewrite H in H1. by injection H1 as <-.
Qed.

(** C30: [getUnit] is exact and ends.  In every state of a pool whose unit
    descriptions list each operation class once, it looks at each unit of the
    class at most once and answers: "not capable" exactly when no unit provides
    the class; "none free" exactly when every unit that provides it is busy;
    otherwise a unit that provides it, which was free and is busy afterwards,
    all other units being as they were. *)
Theorem getUnit_exact l s c :
  Forall descOK l -> reachFU l s ->
  exists r p', getUnit (getFuel c (fst s)) c (fst s) = Some (Ok (r, p')) /\
    getUnitSpec c (fst s) r p'.
Proof.
  intros Hl Hs. destruct (getUnit_ok c (fst s)) as (r & p' & ? & _ & ? & _); [|eauto].
  by eapply pi_wf, reachFU_inv.
Qed.

(** a unit has one owner.  Whatever units are got, given back and freed, no
    assertion of the pool fails, the busy units are exactly the ones the client
    holds and the ones about to be freed, none of them twice; and after
    [processFreeUnits] the pool is drained exactly when nothing is held. *)
Theorem fupool_exclusive l s op :
  Forall descOK l -> reachFU l s -> fuAllowed s op ->
  exists s', runFU s op = Some (Ok s') /\
    NoDup (snd s' ++ unitsToBeFreed (fst s')) /\
    (forall i, unitBusy (fst s') !! i = Some true <-> i ∈ snd s' ++ unitsToBeFreed (fst s')) /\
    (op = FUProcess -> isDrained (fst s') = true <-> snd s' = []).
Proof.
  intros Hl Hs Ha. pose proof (reachFU_inv l s Hl Hs) as Hinv.
  destruct (runFU_inv s op Hinv Ha) as (s' & Hr & Hinv'). exists s'.
  split; [done|]. split; [apply Hinv'|]. split; [apply Hinv'|]. intros ->.
  destruct (process_inv s Hinv) as (s1 & H1 & _ & Hb & _). rewrite Hr in H1. injection H1 as <-.
  unfold isDrained. rewrite forallb_forall. split.
  - intros Hd. destruct (snd s') as [|i held] eqn:E; [done|].
    assert (Hi : unitBusy (fst s') !! i = Some true) by (apply Hb; left).
    apply list_elem_of_lookup_2, list_elem_of_In, Hd in Hi. done.
  - intros E x Hx. rewrite E in Hb. destruct x; [|done].
    apply list_elem_of_In, list_elem_of_lookup_1 in Hx as [i Hi].
    apply Hb in Hi. by apply not_elem_of_nil in Hi.
Qed.

(** ** Concrete pools *)

Module SamplePool.
(** Two adders and a multiplier that can also add. *)
Definition descs : list FUDesc :=
  [mkFUDesc [mkOpDesc 1 1 true] 2; mkFUDesc [mkOpDesc 2 3 true; mkOpDesc 1 2 true] 1].

(** A unit that lists its class twice, and another unit of the class. *)
Definition twice : list FUDesc :=
  [mkFUDesc [mkOpDesc 1 1 true; mkOpDesc 1 1 true] 1; mkFUDesc [mkOpDesc 1 1 true] 1].

Definition start (l : list FUDesc) : FUPool * list nat :=
  match FUPool_ctor l with
  | Ok p => (p, [])
  | _ => (mkFUPool (fun _ => 0) (fun _ => true) (fun _ => false) [] [] (fun _ => FUIdxQueue_ctor) [], [])
  end.
Definition after (s : FUPool * list nat) (op : FUOp) : FUPool * list nat :=
  match runFU s op with Some (Ok s') => s' | _ => s end.

Definition ran (s : FUPool * list nat) (op : FUOp) : bool :=
  match runFU s op with Some (Ok _) => true | _ => false end.

Lemma after_reach l s op : reachFU l s -> fuAllowed s op -> ran s op = true -> reachFU l (after s op).
Proof.
  intros Hs Ha Hr. eapply reachFU_step; [exact Hs|exact Ha|].
  unfold ran, after in *. by destruct (runFU s op) as [[]|].
Qed.

Lemma start_reach l :
  match FUPool_ctor l with Ok _ => true | _ => false end = true -> reachFU l (start l).
Proof.
  unfold start. destruct (FUPool_ctor l) eqn:E; intros; [|done..]. by apply reachFU_ctor.
Qed.

Definition taken : FUPool * list nat := after (after (start descs) (FUGet 1)) (FUGet 1).

Lemma descs_ok : Forall descOK descs.
Proof.
  repeat constructor; cbn; try lia; try (apply (bool_decide_unpack _); vm_compute; exact I).
Qed.

Lemma taken_reach : reachFU descs taken.
Proof.
  apply after_reach; [|exact I|vm_compute; reflexivity].
  apply after_reach; [|exact I|vm_compute; reflexivity].
  apply start_reach. vm_compute. reflexivity.
Qed.

(** Both units are taken, and the second one is freed again. *)
Definition oneFree : FUPool * list nat :=
  after (after (after (after (start twice) (FUGet 1)) (FUGet 1)) (FUFree 1)) FUProcess.

Lemma oneFree_reach : reachFU twice oneFree.
Proof.
  apply after_reach; [|exact I|vm_compute; reflexivity].
  apply after_reach; [|unfold fuAllowed; apply (bool_decide_unpack _); vm_compute; exact I|vm_compute; reflexivity].
  apply after_reach; [|exact I|vm_compute; reflexivity].
  apply after_reach; [|exact I|vm_compute; reflexivity].
  apply start_reach. vm_compute. reflexivity.
Qed.
End SamplePool.

Lemma getUnit_exact_witness :
  unitBusy (fst SamplePool.taken) = [true; true; false] /\
  exists r p', getUnit (getFuel 1 (fst SamplePool.taken)) 1 (fst SamplePool.taken) = Some (Ok (r, p')) /\
    getUnitSpec 1 (fst SamplePool.taken) r p'.
Proof.
  split; [vm_compute; reflexivity|].
  apply (getUnit_exact SamplePool.descs SamplePool.taken 1 SamplePool.descs_ok SamplePool.taken_reach).
Defined.

Lemma fupool_exclusive_witness :
  exists s', runFU SamplePool.taken (FUFree 0) = Some (Ok s') /\
    NoDup (snd s' ++ unitsToBeFreed (fst s')) /\
    (forall i, unitBusy (fst s') !! i = Some true <-> i ∈ snd s' ++ unitsToBeFreed (fst s')) /\
    (FUFree 0 = FUProcess -> isDrained (fst s') = true <-> snd s' = []).
Proof.
  apply (fupool_exclusive SamplePool.descs SamplePool.taken (FUFree 0)
    SamplePool.descs_ok SamplePool.taken_reach).
  unfold fuAllowed. apply (bool_decide_unpack _). vm_compute. exact I.
Defined.

(** with the same operation class listed twice in a unit description, which
    nothing rules out, a free unit can be missed: a state is reached in which a
    unit that provides the class is free, but [getUnit] stops at the second
    entry of the unit it started from and answers that none is free. *)
Theorem getUnit_duplicate_misses :
  exists s i fu p', reachFU SamplePool.twice s /\
    funcUnits (fst s) !! i = Some fu /\ provides 1 fu = true /\
    unitBusy (fst s) !! i = Some false /\
    getUnit (getFuel 1 (fst s)) 1 (fst s) = Some (Ok (NoFreeFU, p')).
Proof.
  exists SamplePool.oneFree, 1%nat. eexists _, _.
  split; [apply SamplePool.oneFree_reach|]. split_and!; vm_compute; reflexivity.
Qed.
