(* ===== verification/MemDep.v ===== *)
(** * The memory dependence unit

    [src/src/cpu/o3/mem_dep_unit.cc] and [mem_dep_unit.hh]: which memory
    instructions have to wait for which.  An instruction waits for the barriers
    in flight, or else for the store the predictor ([StoreSet]) names; its entry
    counts what it waits for, and the entry of what it waits for lists it.

    A [MemDepEntryPtr] is a position of [entries]: entries are shared between
    the hash and the lists of dependents, and one that is squashed stays visible
    through the latter.  The calls of [iqPtr->addReadyMemInst] are recorded in
    order in [readied]; they neither read nor change anything of the unit, and
    the instruction queue carries them out. *)

From stdpp Require Import base numbers list gmap functions sorting.
From S2P Require Import Prelude DynInst StoreSet.

#[local] Open Scope Z_scope.

(** ** State *)

Record MemDepEntry := mkEntry {
  e_inst : InstPtr;
  dependInsts : list nat;
  e_regsReady : bool;
  memDeps : Z;
  e_completed : bool;
  e_squashed : bool
}.

#[export] Instance eta_entry : Eta MemDepEntry := fun e =>
  mkEntry (e_inst e) (dependInsts e) (e_regsReady e) (memDeps e) (e_completed e) (e_squashed e).

Definition MemDepEntry_ctor (new_inst : InstPtr) : MemDepEntry :=
  mkEntry new_inst [] false 0 false false.

Record MemDepUnit := mkUnit {
  memDepHash : gmap Z nat;
  entries : list MemDepEntry;
  mdInstList : ThreadID -> list InstPtr;
  instsToReplay : list InstPtr;
  depPred : StoreSet;
  loadBarrierSNs : gset Z;
  storeBarrierSNs : gset Z
}.

#[export] Instance eta_unit : Eta MemDepUnit := fun u =>
  mkUnit (memDepHash u) (entries u) (mdInstList u) (instsToReplay u) (depPred u)
    (loadBarrierSNs u) (storeBarrierSNs u).

(** The unit, the instructions, and the instructions handed to the queue. *)
Record MDS := mkMDS { mdu : MemDepUnit; mdmem : InstMem; readied : list InstPtr }.

#[export] Instance eta_mds : Eta MDS := fun s => mkMDS (mdu s) (mdmem s) (readied s).

(** ** Operations *)

(** The default constructor, which the instruction queue uses, and the one with
    parameters. *)
Definition MemDepUnit_ctor : MemDepUnit := mkUnit ∅ [] (fun _ => []) [] StoreSet_default ∅ ∅.

Definition MemDepUnit_ctorParams (store_set_clear_period SSITSize LFSTSize : Z) : res MemDepUnit :=
  dp ← StoreSet_ctor store_set_clear_period SSITSize LFSTSize;
  Ok (mkUnit ∅ [] (fun _ => []) [] dp ∅ ∅).

Definition init (store_set_clear_period SSITSize LFSTSize : Z) (u : MemDepUnit) : MemDepUnit :=
  u <| depPred := StoreSet.init store_set_clear_period SSITSize LFSTSize (depPred u) |>.

Definition isDrained (u : MemDepUnit) : bool :=
  bool_decide (instsToReplay u = []) && bool_decide (memDepHash u = ∅) &&
  bool_decide (instsToReplay u = []) &&
  forallb (fun i => bool_decide (mdInstList u i = [])) (seq 0 MaxThreads).

Definition drainSanityCheck (u : MemDepUnit) : res unit :=
  assert! bool_decide (instsToReplay u = []) ;;
  assert! bool_decide (memDepHash u = ∅) ;;
  _ ← foldR (fun _ i => assertR (bool_decide (mdInstList u i = []))) tt (seq 0 MaxThreads);
  assert! bool_decide (instsToReplay u = []) ;;
  assertR (bool_decide (memDepHash u = ∅)).

Definition takeOverFrom (u : MemDepUnit) : MemDepUnit :=
  u <| loadBarrierSNs := ∅ |> <| storeBarrierSNs := ∅ |> <| depPred := clear (depPred u) |>.

Definition hasLoadBarrier (u : MemDepUnit) : bool := negb (bool_decide (loadBarrierSNs u = ∅)).
Definition hasStoreBarrier (u : MemDepUnit) : bool := negb (bool_decide (storeBarrierSNs u = ∅)).

Definition insertBarrierSN (i : DynInst) (u : MemDepUnit) : MemDepUnit :=
  let barr_sn := seqNum i in
  let u := if isReadBarrier i || isHtmCmd i
           then u <| loadBarrierSNs := {[barr_sn]} ∪ loadBarrierSNs u |> else u in
  if isWriteBarrier i || isHtmCmd i
  then u <| storeBarrierSNs := {[barr_sn]} ∪ storeBarrierSNs u |> else u.

(** A new entry, in the hash and in the list of its thread.  Inserting into the
    hash leaves an entry with the same key in place. *)
Definition newEntry (p : InstPtr) (i : DynInst) (u : MemDepUnit) : MemDepUnit * nat :=
  let e := length (entries u) in
  let tid := threadNumber i in
  (u <| entries := entries u ++ [MemDepEntry_ctor p] |>
     <| memDepHash := match memDepHash u !! seqNum i with
                      | Some _ => memDepHash u
                      | None => <[seqNum i := e]> (memDepHash u)
                      end |>
     <| mdInstList := <[tid := mdInstList u tid ++ [p]]> (mdInstList u) |>, e).

Definition updEntry (e : nat) (f : MemDepEntry -> MemDepEntry) (u : MemDepUnit) : res MemDepUnit :=
  en ← deref (entries u !! e);
  Ok (u <| entries := <[e := f en]> (entries u) |>).

Definition moveToReady (e : nat) (s : MDS) : res MDS :=
  en ← deref (entries (mdu s) !! e);
  assert! negb (e_squashed en) ;;
  Ok (s <| readied := readied s ++ [e_inst en] |>).

Definition findInHash (p : InstPtr) (s : MDS) : res nat :=
  i ← getInst p (mdmem s);
  match memDepHash (mdu s) !! seqNum i with Some e => Ok e | None => Panic end.

(** The sequence numbers an instruction has to wait for.  The order in which
    an [unordered_set] is traversed does not matter: each of them has its own
    entry to which the instruction is added. *)
Definition producingStores (i : DynInst) (u : MemDepUnit) : res (list Z) :=
  if (isLoad i || isAtomic i) && hasLoadBarrier u then Ok (elements (loadBarrierSNs u))
  else if (isStore i || isAtomic i) && hasStoreBarrier u then Ok (elements (storeBarrierSNs u))
  else
    dep ← checkInst (pc i) (depPred u);
    Ok (if negb (dep =? 0) then [dep] else []).

(** The last part of both insertions. *)
Definition predictorInsert (i : DynInst) (s : MDS) : res MDS :=
  if isStore i || isAtomic i then
    dp ← insertStore (pc i) (seqNum i) (depPred (mdu s));
    Ok (s <| mdu := mdu s <| depPred := dp |> |>)
  else if isLoad i then Ok s
  else Panic.

(** The new entry is ready, or is added to the dependents of what it waits for. *)
Definition attach (p : InstPtr) (i : DynInst) (inst_entry : nat) (store_entries : list nat)
    (s : MDS) : res MDS :=
  match store_entries with
  | [] =>
      en ← deref (entries (mdu s) !! inst_entry);
      assert! memDeps en =? 0 ;;
      if readyToIssue i then
        u ← updEntry inst_entry (fun en => en <| e_regsReady := true |>) (mdu s);
        moveToReady inst_entry (s <| mdu := u |>)
      else Ok s
  | _ =>
      u ← (if readyToIssue i
           then updEntry inst_entry (fun en => en <| e_regsReady := true |>) (mdu s)
           else Ok (mdu s));
      m ← updInst p (setStatus CanIssue false) (mdmem s);
      u ← foldR (fun u store_entry =>
                   updEntry store_entry
                     (fun en => en <| dependInsts := dependInsts en ++ [inst_entry] |>) u)
                u store_entries;
      u ← updEntry inst_entry (fun en => en <| memDeps := Z.of_nat (length store_entries) |>) u;
      Ok (s <| mdu := u |> <| mdmem := m |>)
  end.

Definition insert (p : InstPtr) (s : MDS) : res MDS :=
  i ← getInst p (mdmem s);
  let '(u, inst_entry) := newEntry p i (mdu s) in
  producing_stores ← producingStores i u;
  let store_entries := omap (fun sn => memDepHash u !! sn) producing_stores in
  s ← attach p i inst_entry store_entries (s <| mdu := u |>);
  predictorInsert i (s <| mdu := insertBarrierSN i (mdu s) |>).

Definition insertBarrier (p : InstPtr) (s : MDS) : res MDS :=
  i ← getInst p (mdmem s);
  let '(u, _) := newEntry p i (mdu s) in
  Ok (s <| mdu := insertBarrierSN i u |>).

Definition insertNonSpec (p : InstPtr) (s : MDS) : res MDS :=
  s ← insertBarrier p s;
  i ← getInst p (mdmem s);
  predictorInsert i s.

Definition regsReady (p : InstPtr) (s : MDS) : res MDS :=
  inst_entry ← findInHash p s;
  u ← updEntry inst_entry (fun en => en <| e_regsReady := true |>) (mdu s);
  en ← deref (entries u !! inst_entry);
  let s := s <| mdu := u |> in
  if memDeps en =? 0 then moveToReady inst_entry s else Ok s.

Definition nonSpecInstReady (p : InstPtr) (s : MDS) : res MDS :=
  inst_entry ← findInHash p s;
  moveToReady inst_entry s.

Definition reschedule (p : InstPtr) (s : MDS) : MDS :=
  s <| mdu := mdu s <| instsToReplay := instsToReplay (mdu s) ++ [p] |> |>.

Definition replayOne (s : MDS) (temp_inst : InstPtr) : res MDS :=
  inst_entry ← findInHash temp_inst s;
  s ← moveToReady inst_entry s;
  Ok (s <| mdu := mdu s <| instsToReplay := tail (instsToReplay (mdu s)) |> |>).

Definition replay (s : MDS) : res MDS := foldR replayOne s (instsToReplay (mdu s)).

(** [erase] through the iterator of the instruction's own list node. *)
Fixpoint eraseNode (p : InstPtr) (l : list InstPtr) : res (list InstPtr) :=
  match l with
  | [] => Undef
  | q :: l => if decide (q = p) then Ok l else l' ← eraseNode p l; Ok (q :: l')
  end.

Definition completed (p : InstPtr) (s : MDS) : res MDS :=
  i ← getInst p (mdmem s);
  let u := mdu s in
  let tid := threadNumber i in
  match memDepHash u !! seqNum i with
  | None => Panic
  | Some e =>
      en ← deref (entries u !! e);
      l ← eraseNode (e_inst en) (mdInstList u tid);
      Ok (s <| mdu := u <| mdInstList := <[tid := l]> (mdInstList u) |>
                        <| memDepHash := delete (seqNum i) (memDepHash u) |> |>)
  end.

(** One dependent of a completed instruction.  The pointer to the instruction
    of an entry is never null, so no dependent is passed over. *)
Definition wakeOne (s : MDS) (woken_inst : nat) : res MDS :=
  en ← deref (entries (mdu s) !! woken_inst);
  assert! 0 <? memDeps en ;;
  let en := en <| memDeps := memDeps en - 1 |> in
  u ← updEntry woken_inst (fun _ => en) (mdu s);
  let s := s <| mdu := u |> in
  if (memDeps en =? 0) && e_regsReady en && negb (e_squashed en) then moveToReady woken_inst s
  else Ok s.

Definition wakeDependents (p : InstPtr) (s : MDS) : res MDS :=
  i ← getInst p (mdmem s);
  if negb (isStore i) && negb (isAtomic i) && negb (isReadBarrier i) && negb (isWriteBarrier i)
     && negb (isHtmCmd i) then Ok s else
  inst_entry ← findInHash p s;
  en ← deref (entries (mdu s) !! inst_entry);
  s ← foldR wakeOne s (dependInsts en);
  u ← updEntry inst_entry (fun en => en <| dependInsts := [] |>) (mdu s);
  Ok (s <| mdu := u |>).

Definition completeInst (p : InstPtr) (s : MDS) : res MDS :=
  s ← wakeDependents p s;
  s ← completed p s;
  i ← getInst p (mdmem s);
  let barr_sn := seqNum i in
  let u := mdu s in
  u ← (if isWriteBarrier i || isHtmCmd i then
         assert! hasStoreBarrier u ;;
         Ok (u <| storeBarrierSNs := storeBarrierSNs u ∖ {[barr_sn]} |>)
       else Ok u);
  u ← (if isReadBarrier i || isHtmCmd i then
         assert! hasLoadBarrier u ;;
         Ok (u <| loadBarrierSNs := loadBarrierSNs u ∖ {[barr_sn]} |>)
       else Ok u);
  Ok (s <| mdu := u |>).

(** The instructions that stay on the list of replays. *)
Fixpoint dropReplays (squashed_num : Z) (tid : ThreadID) (m : InstMem) (l : list InstPtr)
    : res (list InstPtr) :=
  match l with
  | [] => Ok []
  | p :: l =>
      i ← getInst p m;
      l ← dropReplays squashed_num tid m l;
      Ok (if bool_decide (threadNumber i = tid) && (squashed_num <? seqNum i) then l else p :: l)
  end.

(** The loop of [squash], over the list of the thread from its tail; it gives
    the instructions that are left, in the same order. *)
Fixpoint squashInsts (squashed_num : Z) (m : InstMem) (l : list InstPtr) (u : MemDepUnit)
    : res (list InstPtr * MemDepUnit) :=
  match l with
  | [] => Ok ([], u)
  | p :: l' =>
      i ← getInst p m;
      if negb (squashed_num <? seqNum i) then Ok (l, u) else
      let u := u <| loadBarrierSNs := loadBarrierSNs u ∖ {[seqNum i]} |>
                 <| storeBarrierSNs := storeBarrierSNs u ∖ {[seqNum i]} |> in
      match memDepHash u !! seqNum i with
      | None => Panic
      | Some e =>
          u ← updEntry e (fun en => en <| e_squashed := true |>) u;
          squashInsts squashed_num m l' (u <| memDepHash := delete (seqNum i) (memDepHash u) |>)
      end
  end.

(** [None] when the predictor's squash does not end. *)
Definition squash (squashed_num : Z) (tid : ThreadID) (s : MDS) : option (res MDS) :=
  let u := mdu s in
  match
    (l ← dropReplays squashed_num tid (mdmem s) (instsToReplay u);
     '(kept, u) ← squashInsts squashed_num (mdmem s) (reverse (mdInstList u tid))
                    (u <| instsToReplay := l |>);
     Ok (u <| mdInstList := <[tid := reverse kept]> (mdInstList u) |>))
  with
  | Ok u =>
      match StoreSet.squash (squashFuel (depPred u)) squashed_num (depPred u) with
      | None => None
      | Some r => Some (dp ← r; Ok (s <| mdu := u <| depPred := dp |> |>))
      end
  | Panic => Some Panic
  | Undef => Some Undef
  end.

Definition violation (store_inst violating_load : InstPtr) (s : MDS) : res MDS :=
  st ← getInst store_inst (mdmem s);
  ld ← getInst violating_load (mdmem s);
  dp ← StoreSet.violation (pc st) (pc ld) (depPred (mdu s));
  Ok (s <| mdu := mdu s <| depPred := dp |> |>).

Definition issue (p : InstPtr) (s : MDS) : res MDS :=
  i ← getInst p (mdmem s);
  dp ← issued (pc i) (seqNum i) (isStore i) (depPred (mdu s));
  Ok (s <| mdu := mdu s <| depPred := dp |> |>).
