(* ===== verification/MemDepSpec.v ===== *)
(** * Specification and invariant of the memory dependence unit

    The unit keeps, for every instruction, a counter and lists of dependents.
    Its specification is a map from the sequence numbers in flight to what each
    instruction waits for. This file has the specification, the runs of the unit
    that are considered, the abstraction function and the invariant. *)

From stdpp Require Import base numbers list gmap functions sorting.
From S2P Require Import Prelude DynInst StoreSet MemDep.

#[local] Open Scope Z_scope.

(** ** Specification *)

(** An instruction of the unit: whether its registers are ready, the sequence
    numbers it waits for, and whether loads or stores have to wait for it. *)
Record Waiter := mkWaiter {
  w_inst : InstPtr;
  w_regs : bool;
  w_on : gset Z;
  w_lb : bool;
  w_sb : bool
}.

#[export] Instance eta_waiter : Eta Waiter := fun w =>
  mkWaiter (w_inst w) (w_regs w) (w_on w) (w_lb w) (w_sb w).

Record Spec := mkSpec { waiting : gmap Z Waiter; replays : list InstPtr }.

Definition loadBar (i : DynInst) : bool := isReadBarrier i || isHtmCmd i.
Definition storeBar (i : DynInst) : bool := isWriteBarrier i || isHtmCmd i.

Definition barriers (b : Waiter -> bool) (W : gmap Z Waiter) : gset Z :=
  dom (filter (fun kw => b (snd kw) = true) W).

(** What a new instruction waits for: all barriers that hold it back, or else
    the store in flight that the predictor names. *)
Definition waitsFor (dp : StoreSet) (i : DynInst) (W : gmap Z Waiter) : gset Z :=
  if (isLoad i || isAtomic i) && negb (bool_decide (barriers w_lb W = ∅)) then barriers w_lb W
  else if (isStore i || isAtomic i) && negb (bool_decide (barriers w_sb W = ∅)) then barriers w_sb W
  else match checkInst (pc i) dp with Ok dep => {[dep]} ∩ dom W | _ => ∅ end.

(** An instruction has completed: nobody waits for it any longer. *)
Definition release (sn : Z) (w : Waiter) : Waiter := w <| w_on := w_on w ∖ {[sn]} |>.

Inductive MDOp :=
  | OInsert (p : InstPtr)
  | OInsertNonSpec (p : InstPtr)
  | OInsertBarrier (p : InstPtr)
  | ORegsReady (p : InstPtr)
  | ONonSpecReady (p : InstPtr)
  | OReschedule (p : InstPtr)
  | OReplay
  | OComplete (p : InstPtr)
  | OSquash (n : Z)
  | OViolation (st ld : InstPtr)
  | OIssue (p : InstPtr).

Definition olderThan (n : Z) (m : InstMem) (p : InstPtr) : bool :=
  match heap m !! p with Some i => seqNum i <=? n | None => false end.

(** A step of the specification, and the instructions it hands to the queue. *)
Definition specStep (m : InstMem) (dp : StoreSet) (op : MDOp) (S : Spec) (out : list InstPtr)
    (S' : Spec) : Prop :=
  let W := waiting S in
  match op with
  | OInsert p =>
      exists i, heap m !! p = Some i /\
        let on := waitsFor dp i W in
        S' = mkSpec (<[seqNum i := mkWaiter p (readyToIssue i) on (loadBar i) (storeBar i)]> W)
               (replays S) /\
        out = if readyToIssue i && bool_decide (on = ∅) then [p] else []
  | OInsertNonSpec p | OInsertBarrier p =>
      exists i, heap m !! p = Some i /\
        S' = mkSpec (<[seqNum i := mkWaiter p false ∅ (loadBar i) (storeBar i)]> W) (replays S) /\
        out = []
  | ORegsReady p =>
      exists i w, heap m !! p = Some i /\ W !! seqNum i = Some w /\
        S' = mkSpec (<[seqNum i := w <| w_regs := true |>]> W) (replays S) /\
        out = if bool_decide (w_on w = ∅) then [p] else []
  | ONonSpecReady p => S' = S /\ out = [p]
  | OReschedule p => S' = mkSpec W (replays S ++ [p]) /\ out = []
  | OReplay => S' = mkSpec W [] /\ out = replays S
  | OComplete p =>
      exists i, heap m !! p = Some i /\
        S' = mkSpec (delete (seqNum i) (release (seqNum i) <$> W)) (replays S) /\ NoDup out /\
        forall q, q ∈ out <-> exists sn w, W !! sn = Some w /\ w_inst w = q /\ w_regs w = true /\
                                w_on w = {[seqNum i]}
  | OSquash n =>
      S' = mkSpec (filter (fun kw => fst kw <= n) W)
             (filter (fun p => olderThan n m p = true) (replays S)) /\
      out = []
  | OViolation _ _ | OIssue _ => S' = S /\ out = []
  end.

(** ** Runs of the unit *)

Definition runMD (T : ThreadID) (s : MDS) (op : MDOp) : option (res MDS) :=
  match op with
  | OInsert p => Some (insert p s)
  | OInsertNonSpec p => Some (insertNonSpec p s)
  | OInsertBarrier p => Some (insertBarrier p s)
  | ORegsReady p => Some (regsReady p s)
  | ONonSpecReady p => Some (nonSpecInstReady p s)
  | OReschedule p => Some (Ok (reschedule p s))
  | OReplay => Some (replay s)
  | OComplete p => Some (completeInst p s)
  | OSquash n => squash n T s
  | OViolation st ld => Some (violation st ld s)
  | OIssue p => Some (issue p s)
  end.

(** Entry [e] of the unit and its instruction. *)
Definition entryInst (s : MDS) (e : nat) (en : MemDepEntry) (i : DynInst) : Prop :=
  entries (mdu s) !! e = Some en /\ heap (mdmem s) !! e_inst en = Some i.

(** Instruction [p] is in the unit, with the entry [en]. *)
Definition inUnit (s : MDS) (p : InstPtr) (e : nat) (en : MemDepEntry) (i : DynInst) : Prop :=
  heap (mdmem s) !! p = Some i /\ memDepHash (mdu s) !! seqNum i = Some e /\
  entries (mdu s) !! e = Some en /\ e_inst en = p.

(** A new instruction of the thread, younger than all before it. *)
Definition fresh (T : ThreadID) (s : MDS) (i : DynInst) : Prop :=
  threadNumber i = T /\ 0 < seqNum i /\
  forall e en i', entryInst s e en i' -> seqNum i' < seqNum i.

(** The memory instructions that the dispatch of IEW inserts with [insert]. *)
Definition speculative (i : DynInst) : bool :=
  isMemRef i && negb (isAtomic i) && negb (isStoreConditional i) && negb (isNonSpeculative i).

(** What the instruction queue and IEW respect: instructions are inserted in
    program order; only instructions of the unit are reported, and memory
    instructions are rescheduled or completed only after they were handed to the
    queue, and not completed while they wait to be replayed. *)
Definition allowedMD (T : ThreadID) (s : MDS) (op : MDOp) : Prop :=
  match op with
  | OInsert p => exists i, heap (mdmem s) !! p = Some i /\ fresh T s i /\ speculative i = true
  | OInsertNonSpec p =>
      exists i, heap (mdmem s) !! p = Some i /\ fresh T s i /\ isMemRef i = true /\
        speculative i = false
  | OInsertBarrier p =>
      exists i, heap (mdmem s) !! p = Some i /\ fresh T s i /\ isMemRef i = false
  | ORegsReady p => exists e en i, inUnit s p e en i
  | ONonSpecReady p => exists e en i, inUnit s p e en i /\ speculative i = false
  | OReschedule p => (exists e en i, inUnit s p e en i) /\ p ∈ readied s
  | OReplay => True
  | OComplete p =>
      (exists e en i, inUnit s p e en i /\ (isMemRef i = true -> p ∈ readied s)) /\
      p ∉ instsToReplay (mdu s)
  | OSquash n => True
  | OViolation st ld => is_Some (heap (mdmem s) !! st) /\ is_Some (heap (mdmem s) !! ld)
  | OIssue p => is_Some (heap (mdmem s) !! p)
  end.

(** The same with the condition on what was handed over replaced by what it
    amounts to: the instruction waits for nothing. *)
Definition enabledMD (T : ThreadID) (s : MDS) (op : MDOp) : Prop :=
  match op with
  | OReschedule p => exists e en i, inUnit s p e en i /\ memDeps en = 0
  | OComplete p =>
      (exists e en i, inUnit s p e en i /\ (isMemRef i = true -> memDeps en = 0)) /\
      p ∉ instsToReplay (mdu s)
  | _ => allowedMD T s op
  end.

(** The states of the unit of thread [T], from its construction on. *)
Inductive reachMD (clear_period SSIT_size LFST_size : Z) (T : ThreadID) : MDS -> Prop :=
  | reachMD_init m :
      reachMD clear_period SSIT_size LFST_size T
        (mkMDS (init clear_period SSIT_size LFST_size MemDepUnit_ctor) m [])
  | reachMD_env s m' :
      reachMD clear_period SSIT_size LFST_size T s -> extends (mdmem s) m' ->
      reachMD clear_period SSIT_size LFST_size T (s <| mdmem := m' |>)
  | reachMD_step s op s' :
      reachMD clear_period SSIT_size LFST_size T s -> allowedMD T s op ->
      runMD T s op = Some (Ok s') -> reachMD clear_period SSIT_size LFST_size T s'.

(** ** Abstraction *)

Definition deps (u : MemDepUnit) (e : nat) : list nat :=
  match entries u !! e with Some en => dependInsts en | None => [] end.

(** The instructions in flight that entry [d] waits for. *)
Definition prods (u : MemDepUnit) (d : nat) : gset Z :=
  dom (filter (fun kv => d ∈ deps u (snd kv)) (memDepHash u)).

Definition waiterOf (s : MDS) (e : nat) : option Waiter :=
  en ← entries (mdu s) !! e;
  i ← heap (mdmem s) !! e_inst en;
  Some (mkWaiter (e_inst en) (e_regsReady en) (prods (mdu s) e) (loadBar i) (storeBar i)).

Definition absMD (s : MDS) : Spec :=
  mkSpec (omap (waiterOf s) (memDepHash (mdu s))) (instsToReplay (mdu s)).

(** ** The invariant *)

Definition hasDependents (i : DynInst) : bool :=
  isStore i || isAtomic i || isReadBarrier i || isWriteBarrier i || isHtmCmd i.

(** The stores the predictor may name. *)
Definition insertedStore (s : MDS) (sn : Z) : Prop :=
  exists e en i, entryInst s e en i /\ seqNum i = sn /\ isStore i || isAtomic i = true.

(** An entry in flight whose instruction satisfies [P]. *)
Definition liveWith (P : DynInst -> bool) (s : MDS) (sn : Z) (e : nat) : Prop :=
  memDepHash (mdu s) !! sn = Some e /\ exists en i, entryInst s e en i /\ P i = true.

(** Entries are in program order; the hash and the list of the thread have the
    same instructions; dependents are younger than what they wait for. *)
Record MDShape (T : ThreadID) (s : MDS) : Prop := {
  mi_inst : forall e en, entries (mdu s) !! e = Some en ->
    exists i, heap (mdmem s) !! e_inst en = Some i /\ threadNumber i = T /\ 0 < seqNum i;
  mi_order : forall e e' en en' i i', entryInst s e en i -> entryInst s e' en' i' ->
    (e < e')%nat -> seqNum i < seqNum i';
  mi_hash : forall sn e, memDepHash (mdu s) !! sn = Some e ->
    exists en i, entryInst s e en i /\ seqNum i = sn /\ e_squashed en = false;
  mi_list : exists L, StronglySorted lt L /\
    (forall e, e ∈ L <-> exists sn, memDepHash (mdu s) !! sn = Some e) /\
    Forall2 (fun p e => exists en, entries (mdu s) !! e = Some en /\ e_inst en = p)
      (mdInstList (mdu s) T) L;
  mi_deps : forall e d, d ∈ deps (mdu s) e -> (e < d < length (entries (mdu s)))%nat;
  mi_nodup : forall e, NoDup (deps (mdu s) e);
  mi_kind : forall e en i, entryInst s e en i -> dependInsts en <> [] -> hasDependents i = true
}.

(** The counters are exact, and what was handed over waits for nothing. *)
Record MDCounts (s : MDS) : Prop := {
  mi_count : forall d en, entries (mdu s) !! d = Some en ->
    Z.of_nat (size (prods (mdu s) d)) <= memDeps en /\
    (e_squashed en = false -> memDeps en = Z.of_nat (size (prods (mdu s) d)));
  mi_done : forall d en, entries (mdu s) !! d = Some en -> e_squashed en = false ->
    (forall sn, memDepHash (mdu s) !! sn <> Some d) -> memDeps en = 0;
  mi_bar : forall e en i, entryInst s e en i -> speculative i = false -> memDeps en = 0;
  mi_ready : forall p, p ∈ readied s ->
    exists e en, entries (mdu s) !! e = Some en /\ e_inst en = p /\ memDeps en = 0
}.

(** The sets of barriers are exact, and what barriers hold back waits for them. *)
Record MDBarriers (s : MDS) : Prop := {
  mi_lb : forall sn, sn ∈ loadBarrierSNs (mdu s) <-> exists e, liveWith loadBar s sn e;
  mi_sb : forall sn, sn ∈ storeBarrierSNs (mdu s) <-> exists e, liveWith storeBar s sn e;
  mi_loads : forall b eb x ex, liveWith loadBar s b eb ->
    liveWith (fun i => speculative i && isLoad i) s x ex -> b < x -> ex ∈ deps (mdu s) eb;
  mi_stores : forall b eb x ex, liveWith storeBar s b eb ->
    liveWith (fun i => speculative i && negb (isLoad i) && isStore i) s x ex -> b < x ->
    ex ∈ deps (mdu s) eb
}.

Record MDInv (ok : (Z -> Prop) -> StoreSet -> Prop) (T : ThreadID) (s : MDS) : Prop := {
  mi_shape :> MDShape T s;
  mi_counts :> MDCounts s;
  mi_barriers :> MDBarriers s;
  mi_replay : forall p, p ∈ instsToReplay (mdu s) ->
    exists e en i, inUnit s p e en i /\ memDeps en = 0;
  mi_pred : ok (insertedStore s) (depPred (mdu s))
}.
