(* ===== verification/MemDepProps.v ===== *)
(** * The memory dependence unit is correct

    Every operation keeps the invariant of MemDepSpec.v and refines a step of the
    specification; barriers order what they should, and the waiting cannot deadlock.
    The proofs are against the interface [DepPredictor] of the predictor. *)

From stdpp Require Import base numbers list gmap functions sorting.
From S2P Require Import Prelude DynInst StoreSet MemDep MemDepSpec.

#[local] Open Scope Z_scope.

(** ** Lemmas *)

Lemma elem_prods u d p :
  p ∈ prods u d <-> exists e, memDepHash u !! p = Some e /\ d ∈ deps u e.
Proof.
  unfold prods. rewrite elem_of_dom. unfold is_Some. setoid_rewrite map_lookup_filter_Some. done.
Qed.

Lemma sameInst_flags i i' : sameInst i i' ->
  loadBar i' = loadBar i /\ storeBar i' = storeBar i /\ hasDependents i' = hasDependents i /\
  isMemRef i' = isMemRef i /\ isStore i' = isStore i /\ isAtomic i' = isAtomic i /\
  isLoad i' = isLoad i /\ speculative i' = speculative i.
Proof.
  intros (_ & _ & E & _). unfold loadBar, storeBar, hasDependents, speculative, isMemRef, isStore,
    isAtomic, isLoad, isReadBarrier, isWriteBarrier, isHtmCmd, isStoreConditional, isNonSpeculative.
  rewrite E. done.
Qed.

Section Invariant.
Context {ok : (Z -> Prop) -> StoreSet -> Prop} `{DP : !DepPredictor ok} (T : ThreadID).

Implicit Types (s : MDS) (e d : nat) (p : InstPtr).

Lemma entry_unique s e e' en en' :
  MDInv ok T s -> entries (mdu s) !! e = Some en -> entries (mdu s) !! e' = Some en' ->
  e_inst en = e_inst en' -> e = e'.
Proof.
  intros HI He He' E. destruct (mi_inst _ _ HI _ _ He) as (i & Hi & _).
  assert (H1 : entryInst s e en i) by done.
  assert (H2 : entryInst s e' en' i) by (split; [done|]; by rewrite <- E).
  destruct (Nat.lt_trichotomy e e') as [Hl|[->|Hl]]; [|done|].
  - pose proof (mi_order _ _ HI _ _ _ _ _ _ H1 H2 Hl). lia.
  - pose proof (mi_order _ _ HI _ _ _ _ _ _ H2 H1 Hl). lia.
Qed.

Lemma hash_inst s sn e : MDInv ok T s -> memDepHash (mdu s) !! sn = Some e ->
  exists en i, entryInst s e en i /\ seqNum i = sn /\ threadNumber i = T /\ 0 < sn /\
    e_squashed en = false.
Proof.
  intros HI Hh. destruct (mi_hash _ _ HI _ _ Hh) as (en & i & Hei & <- & Hsq).
  destruct (mi_inst _ _ HI _ _ (proj1 Hei)) as (i' & Hi' & ? & ?).
  assert (i' = i) as -> by (destruct Hei; congruence). eauto 10.
Qed.

Lemma hash_inj s sn sn' e : MDInv ok T s -> memDepHash (mdu s) !! sn = Some e ->
  memDepHash (mdu s) !! sn' = Some e -> sn = sn'.
Proof.
  intros HI H1 H2. destruct (hash_inst _ _ _ HI H1) as (en & i & [E1 E2] & <- & _).
  destruct (hash_inst _ _ _ HI H2) as (en' & i' & [E3 E4] & <- & _). congruence.
Qed.

Lemma hash_inUnit s sn e en i : MDInv ok T s -> memDepHash (mdu s) !! sn = Some e ->
  entryInst s e en i -> seqNum i = sn /\ inUnit s (e_inst en) e en i.
Proof.
  intros HI Hh [E1 E2]. destruct (hash_inst _ _ _ HI Hh) as (en' & i' & [E3 E4] & <- & _).
  assert (en' = en) as -> by congruence. assert (i' = i) as -> by congruence.
  split; [done|]. by split_and!.
Qed.

(** The instructions as they are changes from one operation to the next. *)
Lemma env_inv s m' : MDInv ok T s -> extends (mdmem s) m' ->
  MDInv ok T (s <| mdmem := m' |>) /\ absMD (s <| mdmem := m' |>) = absMD s.
Proof.
  intros HI Hm. set (s' := s <| mdmem := m' |>).
  assert (Hin : forall e en i', entryInst s' e en i' -> exists i, entryInst s e en i /\ sameInst i i').
  { intros e en i' [He Hi']. cbn in He, Hi'. destruct (mi_inst _ _ HI _ _ He) as (i & Hi & _).
    destruct (Hm _ _ Hi) as (i1 & Hi1 & Hs). exists i. split; [done|]. congruence. }
  assert (Hout : forall e en i, entryInst s e en i -> exists i', entryInst s' e en i' /\ sameInst i i').
  { intros e en i [He Hi]. destruct (Hm _ _ Hi) as (i' & Hi' & Hs). exists i'. done. }
  assert (Hlive : forall (P : DynInst -> bool) sn e, (forall i i', sameInst i i' -> P i' = P i) ->
            liveWith P s' sn e <-> liveWith P s sn e).
  { intros P sn e HP. split; intros [Hh (en & i & Hei & Hp)]; (split; [exact Hh|]).
    - destruct (Hin _ _ _ Hei) as (i0 & ? & Hs). exists en, i0. split; [done|]. by rewrite <- (HP _ _ Hs).
    - destruct (Hout _ _ _ Hei) as (i0 & ? & Hs). exists en, i0. split; [done|]. by rewrite (HP _ _ Hs). }
  assert (Hlb : forall i i', sameInst i i' -> loadBar i' = loadBar i)
    by (intros ? ? Hs; by apply sameInst_flags in Hs as (? & ? & _)).
  assert (Hsb : forall i i', sameInst i i' -> storeBar i' = storeBar i)
    by (intros ? ? Hs; by apply sameInst_flags in Hs as (? & ? & _)).
  split; [split; [split|split|split|..]; cbn [mdu mdmem readied s' upd_field] in *; try (apply HI)|].
  - intros e en He. destruct (mi_inst _ _ HI _ _ He) as (i & Hi & Ht & Hp).
    destruct (Hm _ _ Hi) as (i' & Hi' & (E1 & E2 & _)). exists i'. rewrite E1, E2. done.
  - intros e e' en en' i i' (i0 & H0 & Hs0 & _)%Hin (i1 & H1 & Hs1 & _)%Hin Hlt. rewrite Hs0, Hs1.
    by eapply (mi_order _ _ HI e e').
  - intros sn e Hh. destruct (mi_hash _ _ HI _ _ Hh) as (en & i & Hei & Hsn & Hsq).
    destruct (Hout _ _ _ Hei) as (i' & ? & Hs & _). exists en, i'. split_and!; [done| |done]. congruence.
  - intros e en i (i0 & H0 & Hs)%Hin Hd. apply sameInst_flags in Hs as (_ & _ & -> & _).
    by eapply (mi_kind _ _ HI).
  - intros e en i (i0 & H0 & Hs)%Hin. apply sameInst_flags in Hs as (_ & _ & _ & _ & _ & _ & _ & ->).
    by eapply (mi_bar _ HI).
  - intros sn. rewrite (mi_lb _ HI). by setoid_rewrite (Hlive loadBar sn _ Hlb).
  - intros sn. rewrite (mi_sb _ HI). by setoid_rewrite (Hlive storeBar sn _ Hsb).
  - intros b eb x ex Hb Hx. rewrite (Hlive loadBar) in Hb by done. rewrite Hlive in Hx.
    + by eapply (mi_loads _ HI).
    + intros ? ? Hs. apply sameInst_flags in Hs as (_ & _ & _ & _ & _ & _ & -> & ->). done.
  - intros b eb x ex Hb Hx. rewrite (Hlive storeBar) in Hb by done. rewrite Hlive in Hx.
    + by eapply (mi_stores _ HI).
    + intros ? ? Hs. apply sameInst_flags in Hs as (_ & _ & _ & _ & -> & _ & -> & ->). done.
  - intros p Hp. destruct (mi_replay _ _ _ HI p Hp) as (e & en & i & (Hi & Hh & He & Hpe) & Hm0).
    destruct (Hm _ _ Hi) as (i' & Hi' & Hs). exists e, en, i'. split; [|done]. split_and!; try done.
    cbn. by rewrite (proj1 Hs).
  - eapply dp_mono; [|apply HI]. intros sn (e & en & i & Hei & <- & Hst).
    destruct (Hout _ _ _ Hei) as (i' & ? & Hs). exists e, en, i'. pose proof Hs as Hs'.
    apply sameInst_flags in Hs' as (_ & _ & _ & _ & -> & -> & _). split_and!; try done. apply Hs.
  - unfold absMD. cbn [mdu s']. f_equal. apply map_eq. intros sn. rewrite !lookup_omap. cbn.
    destruct (memDepHash (mdu s) !! sn) as [e|] eqn:Hh; [|done]. cbn.
    destruct (hash_inst _ _ _ HI Hh) as (en & i & [He Hi] & _). unfold waiterOf. cbn.
    rewrite He. cbn. rewrite Hi. cbn. destruct (Hm _ _ Hi) as (i' & -> & Hs). cbn.
    apply sameInst_flags in Hs as (-> & -> & _). done.
Qed.

(** ** A new entry *)

Definition pushDep (n : nat) (SE : list nat) (j : nat) (en : MemDepEntry) : MemDepEntry :=
  if decide (j ∈ SE) then en <| dependInsts := dependInsts en ++ [n] |> else en.

(** The unit after an instruction was inserted that waits for the entries [SE]. *)
Definition grown (p : InstPtr) (i : DynInst) (rdy : bool) (SE : list nat) (E : list MemDepEntry)
    (dp : StoreSet) (u : MemDepUnit) : MemDepUnit :=
  let n := length (entries u) in
  insertBarrierSN i
    (u <| entries := E ++ [mkEntry p [] rdy (Z.of_nat (length SE)) false false] |>
       <| memDepHash := <[seqNum i := n]> (memDepHash u) |>
       <| mdInstList := <[threadNumber i := mdInstList u (threadNumber i) ++ [p]]> (mdInstList u) |>
       <| depPred := dp |>).

Lemma grown_fields p i rdy SE E dp u : let u' := grown p i rdy SE E dp u in
  entries u' = E ++ [mkEntry p [] rdy (Z.of_nat (length SE)) false false] /\
  memDepHash u' = <[seqNum i := length (entries u)]> (memDepHash u) /\
  mdInstList u' = <[threadNumber i := mdInstList u (threadNumber i) ++ [p]]> (mdInstList u) /\
  depPred u' = dp /\ instsToReplay u' = instsToReplay u /\
  loadBarrierSNs u' = (if loadBar i then {[seqNum i]} else ∅) ∪ loadBarrierSNs u /\
  storeBarrierSNs u' = (if storeBar i then {[seqNum i]} else ∅) ∪ storeBarrierSNs u.
Proof.
  cbv zeta. unfold grown, insertBarrierSN, loadBar, storeBar.
  destruct (isReadBarrier i || isHtmCmd i), (isWriteBarrier i || isHtmCmd i); cbn; split_and!; try done;
    set_solver.
Qed.

Section Grow.
Variables (s : MDS) (p : InstPtr) (i : DynInst) (rdy : bool) (SE : list nat)
  (E : list MemDepEntry) (dp : StoreSet) (out : list InstPtr).
Let n := length (entries (mdu s)).
Let u' := grown p i rdy SE E dp (mdu s).
Let s' := mkMDS u' (mdmem s) (readied s ++ out).

Hypothesis HI : MDInv ok T s.
Hypothesis Hp : heap (mdmem s) !! p = Some i.
Hypothesis Hfresh : fresh T s i.
Hypothesis HE : forall j, E !! j = pushDep n SE j <$> entries (mdu s) !! j.
Hypothesis Hnd : NoDup SE.
Hypothesis HSE : forall e, e ∈ SE -> exists sn, memDepHash (mdu s) !! sn = Some e /\
  forall en i', entryInst s e en i' -> hasDependents i' = true.
Hypothesis Hmem : speculative i = false -> SE = [].
Hypothesis Hdp : ok (fun x => (x = seqNum i /\ isStore i || isAtomic i = true) \/ insertedStore s x) dp.
Hypothesis Hloads : speculative i && isLoad i = true -> forall b eb, liveWith loadBar s b eb -> eb ∈ SE.
Hypothesis Hstores : speculative i && negb (isLoad i) && isStore i = true ->
  forall b eb, liveWith storeBar s b eb -> eb ∈ SE.
Hypothesis Hout : out = [] \/ (out = [p] /\ SE = []).

Local Lemma grow_len : length E = n.
Proof.
  apply Nat.le_antisymm.
  - destruct (E !! n) eqn:Hn; [|by apply lookup_ge_None in Hn]. rewrite HE in Hn.
    rewrite (lookup_ge_None_2 (entries (mdu s)) n) in Hn by (unfold n; lia). done.
  - destruct (decide (n <= length E)%nat); [done|exfalso].
    destruct (lookup_lt_is_Some_2 (entries (mdu s)) (length E)) as [en Hen]; [unfold n in *; lia|].
    pose proof (HE (length E)) as HE'. rewrite Hen, lookup_ge_None_2 in HE' by lia. done.
Qed.

Local Lemma grow_lookup j en' : entries u' !! j = Some en' <->
  (exists en, entries (mdu s) !! j = Some en /\ en' = pushDep n SE j en) \/
  (j = n /\ en' = mkEntry p [] rdy (Z.of_nat (length SE)) false false).
Proof.
  destruct (grown_fields p i rdy SE E dp (mdu s)) as (Ee & _). unfold u'. rewrite Ee.
  destruct (Nat.lt_trichotomy j n) as [Hj|[->|Hj]].
  - rewrite lookup_app_l by (rewrite grow_len; done). rewrite HE.
    destruct (entries (mdu s) !! j) as [en|] eqn:Hen; cbn.
    { split; [intros [= <-]; eauto|]. intros [(? & [= <-] & ->)|[-> _]]; [done|lia]. }
    apply lookup_ge_None in Hen. unfold n in Hj. lia.
  - rewrite lookup_app_r, grow_len, Nat.sub_diag by (rewrite grow_len; done). cbn.
    rewrite (lookup_ge_None_2 (entries (mdu s)) n) by (unfold n; done).
    split; [intros [= <-]; auto|]. by intros [(? & [=] & _)|[_ ->]].
  - rewrite (lookup_ge_None_2 (E ++ _)) by (rewrite length_app, grow_len; cbn; lia).
    rewrite (lookup_ge_None_2 (entries (mdu s)) j) by (unfold n in Hj; lia).
    split; [done|]. intros [(? & [=] & _)|[-> _]]. lia.
Qed.

Local Lemma pushDep_fields j en :
  e_inst (pushDep n SE j en) = e_inst en /\ e_regsReady (pushDep n SE j en) = e_regsReady en /\
  memDeps (pushDep n SE j en) = memDeps en /\ e_squashed (pushDep n SE j en) = e_squashed en.
Proof. unfold pushDep. by case_decide. Qed.

Local Lemma grow_entryInst j en' i' : entryInst s' j en' i' <->
  (exists en, entryInst s j en i' /\ en' = pushDep n SE j en) \/
  (j = n /\ en' = mkEntry p [] rdy (Z.of_nat (length SE)) false false /\ i' = i).
Proof.
  unfold entryInst. cbn [s' mdu mdmem]. rewrite grow_lookup. split.
  - intros [[(en & Hen & ->)|[-> ->]] Hi'].
    + left. exists en. rewrite (proj1 (pushDep_fields j en)) in Hi'. done.
    + right. cbn in Hi'. split_and!; try done. congruence.
  - intros [(en & [Hen Hi'] & ->)|(-> & -> & ->)].
    + rewrite (proj1 (pushDep_fields j en)). eauto.
    + split; [by right|done].
Qed.

Local Lemma grow_deps e d : d ∈ deps u' e <-> d ∈ deps (mdu s) e \/ (e ∈ SE /\ d = n).
Proof.
  unfold deps. destruct (entries u' !! e) as [en'|] eqn:He'.
  - apply grow_lookup in He' as [(en & -> & ->)|[-> ->]].
    + unfold pushDep. case_decide; cbn; rewrite ?elem_of_app, ?list_elem_of_singleton; tauto.
    + rewrite (lookup_ge_None_2 (entries (mdu s)) n) by (unfold n; done). cbn.
      rewrite elem_of_nil. split; [done|]. intros [[]|[Hin _]].
      destruct (HSE n Hin) as (sn & Hsn & _). destruct (hash_inst _ _ _ HI Hsn) as (en & ? & [Hen _] & _).
      apply lookup_lt_Some in Hen. unfold n in Hen. lia.
  - destruct (entries (mdu s) !! e) as [en|] eqn:He.
    + exfalso. assert (entries u' !! e = Some (pushDep n SE e en)) by (apply grow_lookup; eauto).
      congruence.
    + rewrite elem_of_nil. split; [done|]. intros [[]|[Hin _]].
      destruct (HSE e Hin) as (sn & Hsn & _). destruct (hash_inst _ _ _ HI Hsn) as (en & ? & [Hen _] & _).
      congruence.
Qed.

Local Lemma grow_hash sn e : memDepHash u' !! sn = Some e <->
  (sn = seqNum i /\ e = n) \/ memDepHash (mdu s) !! sn = Some e.
Proof.
  destruct (grown_fields p i rdy SE E dp (mdu s)) as (_ & Eh & _). unfold u'. rewrite Eh.
  rewrite lookup_insert_Some. fold n. split; [intros [[<- <-]|[_ Hh]]; auto|].
  intros [[-> ->]|Hh]; [by left|].
  right. split; [|done]. intros <-. destruct (hash_inst _ _ _ HI Hh) as (en & i' & Hei & Hsn & _).
  destruct Hfresh as (_ & _ & Hf). specialize (Hf _ _ _ Hei). lia.
Qed.

Local Lemma grow_prods_old d : (d < n)%nat -> prods u' d = prods (mdu s) d.
Proof.
  intros Hd. apply set_eq. intros x. rewrite !elem_prods. setoid_rewrite grow_hash.
  setoid_rewrite grow_deps. split; [|intros (e & Hh & Hin); eauto].
  intros (e & [[-> ->]|Hh] & [Hin|[_ ->]]); try (eauto; lia).
  apply (mi_deps _ _ HI) in Hin. lia.
Qed.

Local Lemma grow_prods_new x : x ∈ prods u' n <-> exists e, memDepHash (mdu s) !! x = Some e /\ e ∈ SE.
Proof.
  rewrite elem_prods. setoid_rewrite grow_hash. setoid_rewrite grow_deps. split.
  - intros (e & Hh & [Hin|[Hin _]]).
    + apply (mi_deps _ _ HI) in Hin. unfold n in Hin. lia.
    + destruct Hh as [[-> ->]|Hh]; [|eauto]. destruct (HSE n Hin) as (sn & Hsn & _).
      destruct (hash_inst _ _ _ HI Hsn) as (en & ? & [Hen _] & _).
      apply lookup_lt_Some in Hen. unfold n in Hen. lia.
  - intros (e & Hh & Hin). exists e. eauto.
Qed.

Local Lemma grow_prods_size : size (prods u' n) = length SE.
Proof.
  enough (Hg : forall l (X : gset Z), (forall e, e ∈ l -> exists sn, memDepHash (mdu s) !! sn = Some e) ->
            NoDup l -> (forall x, x ∈ X <-> exists e, memDepHash (mdu s) !! x = Some e /\ e ∈ l) ->
            size X = length l).
  { apply (Hg SE); [|done|apply grow_prods_new].
    intros e He. destruct (HSE e He) as (sn & ? & _). eauto. }
  clear -HI. induction l as [|e l IH]; intros X Hl Hl' HX.
  - replace X with (∅ : gset Z); [done|]. apply set_eq. intros x. rewrite HX, elem_of_empty.
    setoid_rewrite elem_of_nil. naive_solver.
  - apply list_relations.list.NoDup_cons in Hl' as [Hne Hl'].
    destruct (Hl e) as [sn Hsn]; [by left|].
    assert (EX : X = {[sn]} ∪ (X ∖ {[sn]})).
    { apply set_eq. intros x. rewrite elem_of_union, elem_of_difference, elem_of_singleton.
      destruct (decide (x = sn)) as [->|]; [|naive_solver]. rewrite HX. split; [by left|].
      intros _. exists e. split; [done|]. by left. }
    rewrite EX, size_union by set_solver. rewrite size_singleton. cbn. f_equal.
    apply IH; [|done|].
    + intros e' He'. apply Hl. by right.
    + intros x. rewrite elem_of_difference, elem_of_singleton, HX. setoid_rewrite elem_of_cons. split.
      * intros [(e' & Hh & [->|Hin]) Hx]; [|eauto]. destruct Hx. by apply (hash_inj _ _ _ _ HI Hh).
      * intros (e' & Hh & Hin). split; [eauto|]. intros ->. simplify_eq. done.
Qed.

Local Lemma grow_live P sn e : liveWith P s' sn e <->
  liveWith P s sn e \/ (sn = seqNum i /\ e = n /\ P i = true).
Proof.
  unfold liveWith. setoid_rewrite grow_entryInst. cbn [s' mdu]. rewrite grow_hash. split.
  - intros [Hh (en & i' & [(en0 & Hei & ->)|(-> & -> & ->)] & HP)].
    + destruct Hh as [[-> ->]|Hh]; [|eauto 10]. destruct Hei as [Hen _].
      apply lookup_lt_Some in Hen. unfold n in Hen. lia.
    + right. destruct Hh as [[-> _]|Hh]; [done|]. destruct (hash_inst _ _ _ HI Hh) as (? & ? & [Hen _] & _).
      apply lookup_lt_Some in Hen. unfold n in Hen. lia.
  - intros [[Hh (en & i' & Hei & HP)]|(-> & -> & HP)].
    + split; [by right|]. eexists _, i'. split; [|done]. left. eauto.
    + split; [by left|]. eexists _, i. split; [|done]. right. eauto.
Qed.

Local Lemma grow_list : exists L, StronglySorted lt L /\
  (forall e, e ∈ L <-> exists sn, memDepHash u' !! sn = Some e) /\
  Forall2 (fun q e => exists en, entries u' !! e = Some en /\ e_inst en = q) (mdInstList u' T) L.
Proof.
  destruct (mi_list _ _ HI) as (L & Hs & HL & HF). exists (L ++ [n]).
  assert (Hlt : forall e, e ∈ L -> (e < n)%nat).
  { intros e [sn Hsn]%HL. destruct (hash_inst _ _ _ HI Hsn) as (? & ? & [Hen _] & _).
    by apply lookup_lt_Some in Hen. }
  split_and!.
  - apply StronglySorted_app_2; [|done|repeat constructor].
    intros e e' He ->%list_elem_of_singleton. auto.
  - intros e. rewrite elem_of_app, list_elem_of_singleton, HL. setoid_rewrite grow_hash. split.
    + intros [[sn Hsn]| ->]; eauto.
    + intros (sn & [[-> ->]|Hh]); eauto.
  - destruct (grown_fields p i rdy SE E dp (mdu s)) as (_ & _ & El & _). unfold u' at 2. rewrite El.
    destruct Hfresh as (Ht & _). rewrite Ht, fn_lookup_insert. apply Forall2_app.
    + eapply Forall2_impl; [exact HF|]. cbn. intros q e (en & Hen & <-). eexists.
      split; [apply grow_lookup; left; eauto|]. apply pushDep_fields.
    + constructor; [|constructor]. eexists. split; [apply grow_lookup; by right|done].
Qed.

Local Lemma grow_count d en' : entries u' !! d = Some en' ->
  Z.of_nat (size (prods u' d)) <= memDeps en' /\
  (e_squashed en' = false -> memDeps en' = Z.of_nat (size (prods u' d))).
Proof.
  intros [(en & Hen & ->)|[-> ->]]%grow_lookup.
  - destruct (pushDep_fields d en) as (_ & _ & -> & ->).
    rewrite grow_prods_old by (by apply lookup_lt_Some in Hen). by apply (mi_count _ HI).
  - rewrite grow_prods_size. cbn. lia.
Qed.

Lemma grow_shape : MDShape T s'.
Proof.
  destruct Hfresh as (Ht & Hpos & Hyoung). split; cbn [mdu mdmem readied s'].
  - intros e en [(en0 & Hen & ->)|[-> ->]]%grow_lookup; [|cbn; eauto].
    rewrite (proj1 (pushDep_fields e en0)). by apply (mi_inst _ _ HI e).
  - intros e e' en en' j j' H1 H2 Hlt. apply grow_entryInst in H1 as [(? & H1 & ->)|(-> & -> & ->)],
      H2 as [(? & H2 & ->)|(-> & -> & ->)]; [|by eapply Hyoung| |lia].
    + by eapply (mi_order _ _ HI e e').
    + destruct H2 as [H2 _]. apply lookup_lt_Some in H2. unfold n in Hlt. lia.
  - intros sn e [[-> ->]|Hh]%grow_hash.
    + eexists _, i. split; [apply grow_entryInst; right; eauto|done].
    + destruct (mi_hash _ _ HI _ _ Hh) as (en & j & Hei & Hsn & Hsq). exists (pushDep n SE e en), j.
      destruct (pushDep_fields e en) as (_ & _ & _ & ->). split; [apply grow_entryInst; left; eauto|done].
  - apply grow_list.
  - intros e d. destruct (grown_fields p i rdy SE E dp (mdu s)) as (Ee & _).
    unfold u' at 2. rewrite Ee, length_app, grow_len. cbn. intros [Hd|[He ->]]%grow_deps.
    + apply (mi_deps _ _ HI) in Hd. fold n in Hd. lia.
    + destruct (HSE e He) as (sn & Hsn & _). destruct (hash_inst _ _ _ HI Hsn) as (? & ? & [Hen _] & _).
      apply lookup_lt_Some in Hen. unfold n in *. lia.
  - intros e. unfold deps. destruct (entries u' !! e) as [en'|] eqn:He; [|constructor].
    apply grow_lookup in He as [(en & Hen & ->)|[-> ->]]; [|constructor].
    pose proof (mi_nodup _ _ HI e) as Hn. pose proof (mi_deps _ _ HI e n) as Hb. unfold deps in Hn, Hb.
    rewrite Hen in Hn, Hb. unfold pushDep. case_decide; [|done]. cbn.
    apply list_relations.list.NoDup_app. split_and!; [done| |apply NoDup_singleton].
    intros d Hd ->%list_elem_of_singleton. apply Hb in Hd. unfold n in Hd. lia.
  - intros e en' j [(en & Hei & ->)|(-> & -> & ->)]%grow_entryInst Hd; [|done]. unfold pushDep in Hd.
    case_decide as Hin; [|by eapply (mi_kind _ _ HI)]. destruct (HSE e Hin) as (sn & _ & Hk). eauto.
Qed.

Lemma grow_counts : MDCounts s'.
Proof.
  split; cbn [mdu mdmem readied s'].
  - apply grow_count.
  - intros d en' [(en & Hen & ->)|[-> ->]]%grow_lookup Hsq Hno.
    + destruct (pushDep_fields d en) as (_ & _ & Em & Es). rewrite Em. rewrite Es in Hsq.
      apply (mi_done _ HI d); [done..|]. intros sn Hsn. apply (Hno sn). apply grow_hash. by right.
    + destruct (Hno (seqNum i)). apply grow_hash. by left.
  - intros e en' j [(en & Hei & ->)|(-> & -> & ->)]%grow_entryInst Hj.
    + destruct (pushDep_fields e en) as (_ & _ & -> & _). by eapply (mi_bar _ HI).
    + by rewrite (Hmem Hj).
  - intros q [Hq|Hq]%elem_of_app.
    + destruct (mi_ready _ HI q Hq) as (e & en & Hen & Hqe & Hm0). exists e, (pushDep n SE e en).
      destruct (pushDep_fields e en) as (-> & _ & -> & _). split; [apply grow_lookup; eauto|done].
    + pose proof Hout as [Ho|[Ho Hnil]]; rewrite Ho in Hq; [by apply elem_of_nil in Hq|].
      apply list_elem_of_singleton in Hq as ->. eexists _, _.
      split; [apply grow_lookup; right; eauto|]. cbn. by rewrite Hnil.
Qed.

(** Nothing in flight is younger than the new instruction. *)
Local Lemma grow_younger P x e : liveWith P s x e -> x < seqNum i.
Proof.
  intros [Hh _]. destruct (hash_inst _ _ _ HI Hh) as (en & j & Hei & <- & _).
  destruct Hfresh as (_ & _ & Hyoung). eauto.
Qed.

Lemma grow_barriers : MDBarriers s'.
Proof.
  destruct (grown_fields p i rdy SE E dp (mdu s)) as (_ & _ & _ & _ & _ & Elb & Esb).
  split; cbn [mdu mdmem readied s'].
  - intros sn. unfold u'. rewrite Elb, elem_of_union, (mi_lb _ HI). setoid_rewrite grow_live.
    destruct (loadBar i); set_solver.
  - intros sn. unfold u'. rewrite Esb, elem_of_union, (mi_sb _ HI). setoid_rewrite grow_live.
    destruct (storeBar i); set_solver.
  - intros b eb x ex Hb Hx Hlt. apply grow_deps.
    apply grow_live in Hb as [Hb|(-> & -> & Hb)], Hx as [Hx|(-> & -> & Hx)]; [|right; split; eauto| |lia].
    + left. by eapply (mi_loads _ HI).
    + apply grow_younger in Hx. lia.
  - intros b eb x ex Hb Hx Hlt. apply grow_deps.
    apply grow_live in Hb as [Hb|(-> & -> & Hb)], Hx as [Hx|(-> & -> & Hx)]; [|right; split; eauto| |lia].
    + left. by eapply (mi_stores _ HI).
    + apply grow_younger in Hx. lia.
Qed.

Lemma grow_inv : MDInv ok T s'.
Proof.
  destruct (grown_fields p i rdy SE E dp (mdu s)) as (_ & _ & _ & Edp & Er & _).
  split; [apply grow_shape|apply grow_counts|apply grow_barriers|..]; cbn [mdu mdmem readied s'].
  - intros q Hq. unfold u' in Hq. rewrite Er in Hq.
    destruct (mi_replay _ _ _ HI q Hq) as (e & en & j & (Hj & Hh & He & Hpe) & Hm0).
    exists e, (pushDep n SE e en), j. destruct (pushDep_fields e en) as (Ei & _ & -> & _). split; [|done].
    split_and!; [done|apply grow_hash; by right|apply grow_lookup; eauto|by rewrite Ei].
  - unfold u'. rewrite Edp. eapply dp_mono; [|exact Hdp]. intros x [[-> Hst]|(e & en & j & Hei & Hx & Hst)].
    + eexists n, _, i. split; [apply grow_entryInst; right; eauto|done].
    + eexists e, _, j. split; [apply grow_entryInst; left; eauto|done].
Qed.

Lemma grow_abs (on : gset Z) :
  (forall x, x ∈ on <-> exists e, memDepHash (mdu s) !! x = Some e /\ e ∈ SE) ->
  absMD s' = mkSpec (<[seqNum i := mkWaiter p rdy on (loadBar i) (storeBar i)]> (waiting (absMD s)))
               (replays (absMD s)).
Proof.
  intros Hon. destruct (grown_fields p i rdy SE E dp (mdu s)) as (_ & Eh & _ & _ & Er & _).
  fold u' in Eh, Er. unfold absMD. cbn [s' mdu waiting replays]. rewrite Er. f_equal. apply map_eq.
  intros sn. rewrite lookup_omap, Eh. destruct (decide (sn = seqNum i)) as [->|Hne].
  - rewrite !lookup_insert_eq. cbn [mbind option_bind]. unfold waiterOf. cbn [s' mdu mdmem]. fold n.
    rewrite (proj2 (grow_lookup n _)) by (right; eauto). cbn. rewrite Hp. cbn. do 2 f_equal.
    apply set_eq. intros x. rewrite grow_prods_new. symmetry. apply Hon.
  - rewrite !lookup_insert_ne by done. rewrite lookup_omap.
    destruct (memDepHash (mdu s) !! sn) as [e|] eqn:Hh; [|done]. cbn [mbind option_bind].
    destruct (hash_inst _ _ _ HI Hh) as (en & j & [He Hj] & _). unfold waiterOf. cbn [s' mdu mdmem].
    rewrite (proj2 (grow_lookup e (pushDep n SE e en))) by eauto. rewrite He.
    destruct (pushDep_fields e en) as (E1 & E2 & _). cbn. rewrite E1, E2, Hj. cbn.
    rewrite grow_prods_old; [done|]. by apply lookup_lt_Some in He.
Qed.

End Grow.

(** ** Insertion *)

Lemma updEntry_last A x f u :
  updEntry (length A) f (u <| entries := A ++ [x] |>) = Ok (u <| entries := A ++ [f x] |>).
Proof.
  unfold updEntry. cbn. rewrite lookup_app_r, Nat.sub_diag by done. cbn.
  by rewrite insert_app_r_alt, Nat.sub_diag by done.
Qed.

Lemma pushAll_ok n SE A x u :
  (forall e, e ∈ SE -> (e < length A)%nat) -> NoDup SE ->
  exists E, foldR (fun u e => updEntry e (fun en => en <| dependInsts := dependInsts en ++ [n] |>) u)
      (u <| entries := A ++ [x] |>) SE = Ok (u <| entries := E ++ [x] |>) /\
    length E = length A /\ forall j, E !! j = pushDep n SE j <$> A !! j.
Proof.
  revert A. induction SE as [|e SE IH]; intros A Hl Hnd; cbn [foldR].
  - exists A. split_and!; try done. intros j. unfold pushDep. cbn. by destruct (A !! j).
  - apply list_relations.list.NoDup_cons in Hnd as [Hne Hnd].
    destruct (lookup_lt_is_Some_2 A e) as [en Hen]; [apply Hl; by left|].
    unfold updEntry at 2. change (entries (u <| entries := A ++ [x] |>)) with (A ++ [x]).
    rewrite lookup_app_l, Hen by (apply Hl; by left).
    cbn [deref mbind res_bind]. rewrite insert_app_l by (apply Hl; by left).
    set (f := fun en : MemDepEntry => en <| dependInsts := dependInsts en ++ [n] |>).
    destruct (IH (<[e := f en]> A)) as (E & HE & Hlen & HEj); [|done|].
    { intros e' He'. rewrite length_insert. apply Hl. by right. }
    exists E. split; [exact HE|]. split; [by rewrite Hlen, length_insert|]. intros j. rewrite HEj.
    unfold pushDep. destruct (decide (j = e)) as [->|Hj].
    + rewrite list_lookup_insert_eq by (apply Hl; by left). rewrite Hen. cbn.
      rewrite decide_False by done. rewrite decide_True by (by left). done.
    + rewrite list_lookup_insert_ne by done. destruct (A !! j) as [x'|]; [|done]. cbn.
      destruct (decide (j ∈ SE)); [rewrite decide_True by (by right); done|].
      rewrite decide_False; [done|]. by intros [->|]%elem_of_cons.
Qed.

Lemma seq_unique s e e' en en' i i' :
  MDInv ok T s -> entryInst s e en i -> entryInst s e' en' i' -> seqNum i = seqNum i' -> e = e'.
Proof.
  intros HI H1 H2 E. destruct (Nat.lt_trichotomy e e') as [Hl|[->|Hl]]; [|done|].
  - pose proof (mi_order _ _ HI _ _ _ _ _ _ H1 H2 Hl). lia.
  - pose proof (mi_order _ _ HI _ _ _ _ _ _ H2 H1 Hl). lia.
Qed.

Lemma abs_some s sn : MDInv ok T s -> is_Some (waiting (absMD s) !! sn) <->
  is_Some (memDepHash (mdu s) !! sn).
Proof.
  intros HI. unfold absMD. cbn. rewrite lookup_omap.
  destruct (memDepHash (mdu s) !! sn) as [e|] eqn:Hh; [|split; intros [? [=]]]. cbn.
  destruct (hash_inst _ _ _ HI Hh) as (en & i & [He Hi] & _). unfold waiterOf. rewrite He. cbn.
  rewrite Hi. cbn. split; eauto.
Qed.

Lemma abs_lookup s sn w : MDInv ok T s -> waiting (absMD s) !! sn = Some w <->
  exists e en i, memDepHash (mdu s) !! sn = Some e /\ entryInst s e en i /\
    w = mkWaiter (e_inst en) (e_regsReady en) (prods (mdu s) e) (loadBar i) (storeBar i).
Proof.
  intros HI. unfold absMD. cbn. rewrite lookup_omap. split.
  - destruct (memDepHash (mdu s) !! sn) as [e|] eqn:Hh; [|done]. cbn. unfold waiterOf.
    destruct (entries (mdu s) !! e) as [en|] eqn:He; [|done]. cbn.
    destruct (heap (mdmem s) !! e_inst en) as [i|] eqn:Hi; [|done]. cbn. intros [= <-].
    exists e, en, i. done.
  - intros (e & en & i & -> & [He Hi] & ->). cbn. unfold waiterOf. rewrite He. cbn. by rewrite Hi.
Qed.

Lemma abs_barriers s : MDInv ok T s ->
  barriers w_lb (waiting (absMD s)) = loadBarrierSNs (mdu s) /\
  barriers w_sb (waiting (absMD s)) = storeBarrierSNs (mdu s).
Proof.
  intros HI. split; apply set_eq; intros sn; unfold barriers; rewrite elem_of_dom; unfold is_Some;
    setoid_rewrite map_lookup_filter_Some; setoid_rewrite (abs_lookup s sn _ HI);
    rewrite ?(mi_lb _ HI), ?(mi_sb _ HI); unfold liveWith; cbn.
  all: split; [intros (w & (e & en & i & Hh & Hei & ->) & Hb); cbn in Hb; eauto 10|].
  all: intros (e & Hh & en & i & Hei & Hb); eexists; split; [exists e, en, i; done|done].
Qed.

Lemma loadBar_deps i : loadBar i = true -> hasDependents i = true.
Proof.
  unfold loadBar, hasDependents. destruct (isReadBarrier i), (isHtmCmd i); try done; intros _;
    by rewrite ?orb_true_r.
Qed.

Lemma storeBar_deps i : storeBar i = true -> hasDependents i = true.
Proof.
  unfold storeBar, hasDependents. destruct (isWriteBarrier i), (isHtmCmd i); try done; intros _;
    by rewrite ?orb_true_r.
Qed.

(** What the sequence numbers found have to be. *)
Definition producersOK (s : MDS) (i : DynInst) (on : gset Z) (PS : list Z) : Prop :=
  NoDup PS /\
  (forall x, x ∈ on <-> x ∈ PS /\ is_Some (memDepHash (mdu s) !! x)) /\
  (forall x, x ∈ PS -> x <> seqNum i /\ forall e en j, memDepHash (mdu s) !! x = Some e ->
     entryInst s e en j -> hasDependents j = true).

Lemma producersOK_barrier s i (P : DynInst -> bool) (S : gset Z) :
  MDInv ok T s -> fresh T s i -> (forall j, P j = true -> hasDependents j = true) ->
  (forall x, x ∈ S <-> exists e, liveWith P s x e) -> producersOK s i S (elements S).
Proof.
  intros HI Hf HP HS. split_and!; [apply NoDup_elements|..].
  - intros x. rewrite elem_of_elements. split; [|tauto]. intros Hx. split; [done|].
    apply HS in Hx as (e & Hh & _). eauto.
  - intros x Hx%elem_of_elements. apply HS in Hx as (e & Hh & en & j & Hej & HPj).
    destruct (hash_inUnit _ _ _ _ _ HI Hh Hej) as [Hx _]. split.
    + destruct Hf as (_ & _ & Hy). specialize (Hy _ _ _ Hej). lia.
    + intros e' en' j' Hh' [? ?]. assert (e' = e) as -> by congruence. destruct Hej.
      apply HP. congruence.
Qed.

Lemma producersOK_store s i dep :
  MDInv ok T s -> fresh T s i -> insertedStore s dep ->
  producersOK s i ({[dep]} ∩ dom (waiting (absMD s))) [dep].
Proof.
  intros HI Hf (e & en & j & Hej & Hj & Hst). split_and!; [apply NoDup_singleton|..].
  - intros x. rewrite elem_of_intersection, elem_of_singleton, list_elem_of_singleton, elem_of_dom,
      (abs_some s _ HI). done.
  - intros x ->%list_elem_of_singleton. split.
    + destruct Hf as (_ & _ & Hy). specialize (Hy _ _ _ Hej). lia.
    + intros e' en' j' Hh' Hej'. destruct (hash_inUnit _ _ _ _ _ HI Hh' Hej') as [Hs' _].
      assert (e' = e) as -> by (eapply seq_unique; eauto; congruence).
      assert (j' = j) as -> by (destruct Hej, Hej'; congruence).
      unfold hasDependents. destruct (isStore j); [done|]. cbn in *. by rewrite Hst.
Qed.

(** What the code finds is what the specification says. *)
Lemma producing_ok s i : MDInv ok T s -> fresh T s i ->
  exists PS, producingStores i (mdu s) = Ok PS /\
    producersOK s i (waitsFor (depPred (mdu s)) i (waiting (absMD s))) PS.
Proof.
  intros HI Hf. destruct (abs_barriers s HI) as [EL ES]. unfold producingStores, waitsFor.
  rewrite EL, ES. unfold hasLoadBarrier, hasStoreBarrier.
  destruct ((isLoad i || isAtomic i) && _); [|destruct ((isStore i || isAtomic i) && _)].
  - eexists. split; [done|]. apply (producersOK_barrier _ _ loadBar); auto using loadBar_deps. apply (mi_lb _ HI).
  - eexists. split; [done|]. apply (producersOK_barrier _ _ storeBar); auto using storeBar_deps. apply (mi_sb _ HI).
  - destruct (dp_check _ (depPred (mdu s)) (pc i) (mi_pred _ _ _ HI)) as (dep & -> & Hdep).
    cbn [mbind res_bind]. destruct (Z.eqb_spec dep 0) as [->|Hd0]; cbn [negb].
    + exists []. split_and!; [done|]. split_and!; [constructor| |by intros x ?%elem_of_nil].
      intros x. rewrite elem_of_intersection, elem_of_singleton, elem_of_nil, elem_of_dom, (abs_some s _ HI).
      split; [|tauto]. intros [-> [e Hh]].
      destruct (hash_inst _ _ _ HI Hh) as (? & ? & _ & _ & _ & ? & _). lia.
    + destruct Hdep as [|Hst]; [done|]. exists [dep]. split; [done|]. by apply producersOK_store.
Qed.

(** Success of an operation, as the specification has it. *)
Definition stepOK (s : MDS) (op : MDOp) : Prop :=
  exists s' out, runMD T s op = Some (Ok s') /\ readied s' = readied s ++ out /\ MDInv ok T s' /\
    specStep (mdmem s) (depPred (mdu s)) op (absMD s) out (absMD s').

Lemma fresh_hash s i : MDInv ok T s -> fresh T s i -> memDepHash (mdu s) !! seqNum i = None.
Proof.
  intros HI (_ & _ & Hy). destruct (memDepHash (mdu s) !! seqNum i) as [e|] eqn:Hh; [|done].
  destruct (hash_inst _ _ _ HI Hh) as (en & j & Hej & Hj & _). specialize (Hy _ _ _ Hej). lia.
Qed.

Lemma newEntry_fresh s p i : MDInv ok T s -> fresh T s i ->
  newEntry p i (mdu s) =
    (mdu s <| entries := entries (mdu s) ++ [MemDepEntry_ctor p] |>
       <| memDepHash := <[seqNum i := length (entries (mdu s))]> (memDepHash (mdu s)) |>
       <| mdInstList := <[threadNumber i := mdInstList (mdu s) (threadNumber i) ++ [p]]>
                          (mdInstList (mdu s)) |>, length (entries (mdu s))).
Proof. intros HI Hf. unfold newEntry. by rewrite (fresh_hash s i HI Hf). Qed.

Lemma insertBarrierSN_pred i dp u :
  insertBarrierSN i u <| depPred := dp |> = insertBarrierSN i (u <| depPred := dp |>).
Proof. unfold insertBarrierSN. by repeat case_match. Qed.

Lemma predictorInsert_ok s i : MDInv ok T s -> fresh T s i -> isMemRef i = true ->
  exists dp, ok (fun x => (x = seqNum i /\ isStore i || isAtomic i = true) \/ insertedStore s x) dp /\
    forall s1, depPred (mdu s1) = depPred (mdu s) ->
      predictorInsert i s1 = Ok (s1 <| mdu := mdu s1 <| depPred := dp |> |>).
Proof.
  intros HI (_ & _ & Hy) Hm. unfold predictorInsert.
  destruct (isStore i || isAtomic i) eqn:Est.
  - destruct (dp_insert _ (depPred (mdu s)) (pc i) (seqNum i) (mi_pred _ _ _ HI)) as (dp & E & Hdp).
    { intros x (e & en & j & Hej & <- & _). specialize (Hy _ _ _ Hej). lia. }
    exists dp. split; [eapply dp_mono; [|exact Hdp]; naive_solver|].
    intros s1 ->. by rewrite E.
  - exists (depPred (mdu s)). split; [eapply dp_mono; [|apply HI]; auto|]. intros s1 E1.
    unfold isMemRef, si_isMemRef in Hm. unfold isStore, isAtomic in Est.
    apply orb_false_elim in Est as [Es Ea]. rewrite Es, Ea, !orb_false_r in Hm. unfold isLoad.
    rewrite Hm, <- E1. by destruct s1 as [[]].
Qed.

(** The entries an instruction is added to. *)
Lemma store_entries_ok s i on PS : MDInv ok T s -> producersOK s i on PS ->
  let SE := omap (fun x => <[seqNum i := length (entries (mdu s))]> (memDepHash (mdu s)) !! x) PS in
  NoDup SE /\ (forall e, e ∈ SE -> exists sn, memDepHash (mdu s) !! sn = Some e /\
    forall en i', entryInst s e en i' -> hasDependents i' = true) /\
  (forall x, x ∈ on <-> exists e, memDepHash (mdu s) !! x = Some e /\ e ∈ SE).
Proof.
  intros HI (Hnd & Hon & HPS) SE.
  assert (Hin : forall e, e ∈ SE <-> exists x, x ∈ PS /\ memDepHash (mdu s) !! x = Some e).
  { intros e. unfold SE. rewrite list_elem_of_omap. split; intros (x & Hx & Hh); exists x;
      (split; [done|]); rewrite lookup_insert_ne in *; try done; intros <-; by apply HPS in Hx as []. }
  split_and!.
  - unfold SE in *. clear Hin Hon. induction PS as [|x PS IH]; [constructor|]. cbn.
    apply list_relations.list.NoDup_cons in Hnd as [Hx Hnd].
    assert (IH' := IH Hnd (fun y Hy => HPS y (list_elem_of_further _ _ _ Hy))).
    assert (Hxn : x <> seqNum i) by (apply HPS; by left).
    rewrite lookup_insert_ne by done.
    destruct (memDepHash (mdu s) !! x) as [e|] eqn:Hh; [|done].
    apply list_relations.list.NoDup_cons. split; [|done]. rewrite list_elem_of_omap.
    intros (y & Hy & Hh'). rewrite lookup_insert_ne in Hh' by
      (intros <-; apply (HPS (seqNum i)); [by right|done]).
    by assert (x = y) as -> by (eapply hash_inj; eauto).
  - intros e (x & Hx & Hh)%Hin. exists x. split; [done|]. intros en j Hej.
    by apply (proj2 (HPS x Hx) e en j).
  - intros x. rewrite Hon. split.
    + intros [Hx [e He]]. exists e. split; [done|]. apply Hin. eauto.
    + intros (e & He & (y & Hy & Hh)%Hin). assert (x = y) as -> by (eapply hash_inj; eauto). eauto.
Qed.

Lemma waits_loads s i b eb : MDInv ok T s -> speculative i && isLoad i = true ->
  liveWith loadBar s b eb -> b ∈ waitsFor (depPred (mdu s)) i (waiting (absMD s)).
Proof.
  intros HI [_ Hl]%andb_prop Hb. destruct (abs_barriers s HI) as [EL _].
  assert (Hin : b ∈ loadBarrierSNs (mdu s)) by (apply (mi_lb _ HI); eauto).
  assert (Hne : loadBarrierSNs (mdu s) <> ∅)
    by (intros E; rewrite E in Hin; by apply elem_of_empty in Hin).
  unfold waitsFor. rewrite EL, Hl, bool_decide_eq_false_2 by done. done.
Qed.

Lemma waits_stores s i b eb : MDInv ok T s -> speculative i && negb (isLoad i) && isStore i = true ->
  liveWith storeBar s b eb -> b ∈ waitsFor (depPred (mdu s)) i (waiting (absMD s)).
Proof.
  intros HI [[Hsp Hl%negb_true_iff]%andb_prop Hst]%andb_prop Hb. destruct (abs_barriers s HI) as [_ ES].
  assert (Hin : b ∈ storeBarrierSNs (mdu s)) by (apply (mi_sb _ HI); eauto).
  unfold speculative in Hsp. assert (Ha : isAtomic i = false) by (bool_to_prop; done).
  assert (Hne : storeBarrierSNs (mdu s) <> ∅)
    by (intros E; rewrite E in Hin; by apply elem_of_empty in Hin).
  unfold waitsFor. rewrite ES, Hl, Hst, Ha, (bool_decide_eq_false_2 (storeBarrierSNs _ = ∅)) by done. done.
Qed.

Lemma attach_ok p i u0 A m r SE :
  heap m !! p = Some i -> NoDup SE -> (forall e, e ∈ SE -> (e < length A)%nat) ->
  exists E m' out,
    attach p i (length A) SE (mkMDS (u0 <| entries := A ++ [MemDepEntry_ctor p] |>) m r) =
      Ok (mkMDS (u0 <| entries :=
                   E ++ [mkEntry p [] (readyToIssue i) (Z.of_nat (length SE)) false false] |>)
            m' (r ++ out)) /\
    (forall j, E !! j = pushDep (length A) SE j <$> A !! j) /\ extends m m' /\
    out = if readyToIssue i && bool_decide (SE = []) then [p] else [].
Proof.
  intros Hp Hnd Hl. unfold attach.
  assert (Hlast : forall x, (A ++ [x]) !! length A = Some x)
    by (intros x; by rewrite lookup_app_r, Nat.sub_diag by done).
  destruct SE as [|e SE'] eqn:ESE; [|rewrite <- ESE in Hnd, Hl |- *].
  - exists A, m, (if readyToIssue i then [p] else []). change (entries (mdu _)) with (A ++ [MemDepEntry_ctor p]).
    rewrite Hlast. cbn [deref mbind res_bind memDeps MemDepEntry_ctor Z.eqb assertR].
    split_and!; [| |apply extends_refl|by rewrite andb_true_r].
    + destruct (readyToIssue i); [|by rewrite app_nil_r]. cbn [mdu]. rewrite updEntry_last.
      cbn [mbind res_bind]. unfold moveToReady. cbn. by rewrite Hlast.
    + intros j. unfold pushDep. by destruct (A !! j).
  - set (x := MemDepEntry_ctor p <| e_regsReady := readyToIssue i |>).
    assert (Eu : (if readyToIssue i then updEntry (length A) (fun en => en <| e_regsReady := true |>)
                    (u0 <| entries := A ++ [MemDepEntry_ctor p] |>)
                  else Ok (u0 <| entries := A ++ [MemDepEntry_ctor p] |>))
                 = Ok (u0 <| entries := A ++ [x] |>)).
    { unfold x. destruct (readyToIssue i); [by rewrite updEntry_last|done]. }
    destruct (pushAll_ok (length A) SE A x u0 Hl Hnd) as (E & EE & Hlen & HE).
    destruct (updInst p (setStatus CanIssue false) m) as [m'| |] eqn:Em;
      [|unfold updInst, getInst in Em; by rewrite Hp in Em..].
    exists E, m', []. rewrite bool_decide_eq_false_2, andb_false_r by (by rewrite ESE).
    split_and!; [|done|eapply updInst_extends; [|done]; apply setStatus_sameInst|done].
    rewrite ESE at 1. cbn [mdu mdmem]. rewrite Eu. cbn [mbind res_bind]. rewrite Em. cbn [mbind res_bind].
    rewrite EE. cbn [mbind res_bind]. rewrite <- Hlen, updEntry_last, app_nil_r. by rewrite ESE.
Qed.

Lemma mdInsert_ok s p : MDInv ok T s -> allowedMD T s (OInsert p) -> stepOK s (OInsert p).
Proof.
  intros HI (i & Hp & Hf & Hsp).
  assert (Hm : isMemRef i = true) by (unfold speculative in Hsp; by bool_to_prop).
  destruct (producing_ok s i HI Hf) as (PS & EPS & HPS).
  destruct (store_entries_ok s i _ PS HI HPS) as (Hnd & HSE & Hon).
  destruct (predictorInsert_ok s i HI Hf Hm) as (dp & Hdp & Epred).
  set (on := waitsFor _ _ _) in *. set (SE := omap _ PS) in *.
  assert (Hbar : forall P b eb, b ∈ on -> liveWith P s b eb -> eb ∈ SE)
    by (intros P b eb (e & He & Hin)%Hon [Hb _]; congruence).
  assert (Hempty : on = ∅ <-> SE = []).
  { split; intros E0.
    - destruct SE as [|e SE'] eqn:Ese; [done|]. destruct (HSE e) as (x & Hx & _); [by left|].
      assert (Hx' : x ∈ on) by (apply Hon; exists e; split; [done|by left]).
      rewrite E0 in Hx'. by apply elem_of_empty in Hx'.
    - apply set_eq. intros x. rewrite Hon, E0, elem_of_empty. setoid_rewrite elem_of_nil. naive_solver. }
  set (u0 := mdu s <| memDepHash := <[seqNum i := length (entries (mdu s))]> (memDepHash (mdu s)) |>
               <| mdInstList := <[threadNumber i := mdInstList (mdu s) (threadNumber i) ++ [p]]>
                          (mdInstList (mdu s)) |>).
  destruct (attach_ok p i u0 (entries (mdu s)) (mdmem s) (readied s) SE Hp Hnd) as (E & m' & out & EA & HE & Hext & Hout).
  { intros e (sn & Hh & _)%HSE. destruct (hash_inst _ _ _ HI Hh) as (? & ? & [? _] & _). by eapply lookup_lt_Some. }
  assert (Hout' : out = [] \/ out = [p] /\ SE = [])
    by (rewrite Hout; destruct (readyToIssue i), (bool_decide_reflect (SE = [])); auto).
  assert (Hgrow : let s1 := mkMDS (grown p i (readyToIssue i) SE E dp (mdu s)) (mdmem s) (readied s ++ out) in
            MDInv ok T s1 /\ absMD s1 = mkSpec (<[seqNum i := mkWaiter p (readyToIssue i) on (loadBar i)
              (storeBar i)]> (waiting (absMD s))) (replays (absMD s))).
  { split; [apply grow_inv|apply grow_abs]; try done.
    - by rewrite Hsp.
    - intros Hl b eb Hb. eapply Hbar; [|done]. by eapply waits_loads.
    - intros Hl b eb Hb. eapply Hbar; [|done]. by eapply waits_stores.
  }
  destruct Hgrow as [HI1 Habs]. destruct (env_inv _ m' HI1 Hext) as [HI2 Habs2].
  eexists _, out. split; [|split; [|split; [exact HI2|]]].
  - cbn [runMD]. unfold insert, getInst. rewrite Hp. cbn [deref mbind res_bind].
    rewrite (newEntry_fresh s p i HI Hf). set (u1 := _ <| mdInstList := _ |>).
    assert (EPS1 : producingStores i u1 = Ok PS) by exact EPS. rewrite EPS1. cbn [mbind res_bind].
    assert (EA1 : attach p i (length (entries (mdu s))) (omap (fun sn => memDepHash u1 !! sn) PS)
              (s <| mdu := u1 |>) = _) by exact EA.
    rewrite EA1. cbn [mbind res_bind]. rewrite Epred by (unfold insertBarrierSN; by repeat case_match).
    unfold grown. rewrite <- insertBarrierSN_pred. reflexivity.
  - done.
  - exists i. split; [done|]. rewrite Habs2, Habs. fold on. split; [done|]. rewrite Hout.
    by rewrite (bool_decide_ext _ _ Hempty).
Qed.

(** An instruction that waits for nothing. *)
Lemma grow_nil s p i dp : MDInv ok T s -> heap (mdmem s) !! p = Some i -> fresh T s i ->
  speculative i = false ->
  ok (fun x => (x = seqNum i /\ isStore i || isAtomic i = true) \/ insertedStore s x) dp ->
  let s1 := mkMDS (grown p i false [] (entries (mdu s)) dp (mdu s)) (mdmem s) (readied s) in
  MDInv ok T s1 /\ absMD s1 = mkSpec (<[seqNum i := mkWaiter p false ∅ (loadBar i) (storeBar i)]>
    (waiting (absMD s))) (replays (absMD s)).
Proof.
  intros HI Hp Hf Hsp Hdp s1. pose proof (app_nil_r (readied s)) as Er. unfold s1. rewrite <- Er.
  assert (HE : forall j, entries (mdu s) !! j =
            pushDep (length (entries (mdu s))) [] j <$> entries (mdu s) !! j).
  { intros j. unfold pushDep. by destruct (entries (mdu s) !! j). }
  assert (HSE : forall e, e ∈ [] -> exists sn, memDepHash (mdu s) !! sn = Some e /\
            forall en i', entryInst s e en i' -> hasDependents i' = true)
    by (intros e He; by apply elem_of_nil in He).
  assert (Hnd : NoDup ([] : list nat)) by constructor.
  split; [apply grow_inv|apply grow_abs]; rewrite ?Hsp; auto; try done.
  - intros x. split; [intros Hx; by apply elem_of_empty in Hx|].
    intros (e & _ & He). by apply elem_of_nil in He.
Qed.

Lemma insertBarrier_eq s p i : MDInv ok T s -> heap (mdmem s) !! p = Some i -> fresh T s i ->
  insertBarrier p s =
    Ok (mkMDS (grown p i false [] (entries (mdu s)) (depPred (mdu s)) (mdu s)) (mdmem s) (readied s)).
Proof.
  intros HI Hp Hf. unfold insertBarrier, getInst. rewrite Hp. cbn [deref mbind res_bind].
  rewrite (newEntry_fresh s p i HI Hf). unfold grown. by destruct s as [[] ? ?].
Qed.

Lemma insertBarrier_ok s p :
  MDInv ok T s -> allowedMD T s (OInsertBarrier p) -> stepOK s (OInsertBarrier p).
Proof.
  intros HI (i & Hp & Hf & Hm). destruct (grow_nil s p i (depPred (mdu s))) as [HI1 Habs]; try done.
  { unfold speculative. by rewrite Hm. }
  { eapply dp_mono; [|apply HI]. auto. }
  eexists _, []. split; [cbn [runMD]; by rewrite (insertBarrier_eq s p i HI Hp Hf)|].
  split; [by rewrite app_nil_r|]. split; [done|]. exists i. done.
Qed.

Lemma insertNonSpec_ok s p :
  MDInv ok T s -> allowedMD T s (OInsertNonSpec p) -> stepOK s (OInsertNonSpec p).
Proof.
  intros HI (i & Hp & Hf & Hm & Hsp).
  destruct (predictorInsert_ok s i HI Hf Hm) as (dp & Hdp & Epred).
  destruct (grow_nil s p i dp) as [HI1 Habs]; try done.
  eexists _, []. split; [|split; [|split; [exact HI1|]]].
  - cbn [runMD]. unfold insertNonSpec. rewrite (insertBarrier_eq s p i HI Hp Hf). cbn [mbind res_bind].
    unfold getInst. cbn [mdmem]. rewrite Hp. cbn [deref mbind res_bind].
    rewrite Epred by (cbn [mdu]; unfold grown, insertBarrierSN; by repeat case_match).
    unfold grown. rewrite <- !insertBarrierSN_pred. reflexivity.
  - by rewrite app_nil_r.
  - exists i. done.
Qed.

(** ** Fewer instructions *)

(** The unit after some instructions left it and entries changed, without new
    dependences. *)
Section Shrink.
Variables (s : MDS) (f : nat -> MemDepEntry -> MemDepEntry) (H' : gmap Z nat)
  (L' : ThreadID -> list InstPtr) (R' : list InstPtr) (dp' : StoreSet) (LB' SB' : gset Z)
  (out : list InstPtr).
Let u' := mkUnit H' (imap f (entries (mdu s))) L' R' dp' LB' SB'.
Let s' := mkMDS u' (mdmem s) (readied s ++ out).

Hypothesis HI : MDInv ok T s.
Hypothesis Hinst : forall j en, e_inst (f j en) = e_inst en.
Hypothesis Hdeps : forall j en, dependInsts (f j en) = dependInsts en \/ dependInsts (f j en) = [].
Hypothesis Hsub : forall sn e, H' !! sn = Some e -> memDepHash (mdu s) !! sn = Some e.
Hypothesis Hlive : forall sn e en, H' !! sn = Some e -> entries (mdu s) !! e = Some en ->
  dependInsts (f e en) = dependInsts en /\ e_squashed (f e en) = e_squashed en.

Local Lemma sh_lookup j en' : entries u' !! j = Some en' <->
  exists en, entries (mdu s) !! j = Some en /\ en' = f j en.
Proof.
  cbn. rewrite list_lookup_imap. destruct (entries (mdu s) !! j) as [en|]; cbn.
  - split; [intros [= <-]; eauto|]. by intros (? & [= <-] & ->).
  - split; [done|]. by intros (? & ? & _).
Qed.

Local Lemma sh_entryInst j en' i : entryInst s' j en' i <->
  exists en, entryInst s j en i /\ en' = f j en.
Proof.
  unfold entryInst. cbn [s' mdu mdmem]. rewrite sh_lookup. split.
  - intros [(en & Hen & ->) Hi]. rewrite Hinst in Hi. eauto.
  - intros (en & [Hen Hi] & ->). rewrite Hinst. eauto.
Qed.

Local Lemma sh_deps_sub e d : d ∈ deps u' e -> d ∈ deps (mdu s) e.
Proof.
  unfold deps. destruct (entries u' !! e) as [en'|] eqn:E1; [|intros Hd; by apply elem_of_nil in Hd].
  apply sh_lookup in E1 as (en & -> & ->). destruct (Hdeps e en) as [->| ->]; [done|].
  intros Hd. by apply elem_of_nil in Hd.
Qed.

Local Lemma sh_deps_live sn e : H' !! sn = Some e -> deps u' e = deps (mdu s) e.
Proof.
  intros Hh. destruct (hash_inst _ _ _ HI (Hsub _ _ Hh)) as (en & i & [He _] & _).
  unfold deps. rewrite (proj2 (sh_lookup e (f e en))) by eauto. rewrite He.
  apply (Hlive _ _ _ Hh He).
Qed.

Local Lemma sh_prods d : prods u' d = prods (mdu s) d ∩ dom H'.
Proof.
  apply set_eq. intros x. rewrite elem_of_intersection, elem_of_dom, !elem_prods. cbn [u' memDepHash]. split.
  - intros (e & Hh & Hd). rewrite (sh_deps_live _ _ Hh) in Hd. eauto 10.
  - intros [(e & Hh & Hd) [e' Hh']]. pose proof (Hsub _ _ Hh'). assert (e' = e) as -> by congruence.
    exists e. split; [done|]. by rewrite (sh_deps_live _ _ Hh').
Qed.

Local Lemma sh_live P sn e : liveWith P s' sn e <-> liveWith P s sn e /\ is_Some (H' !! sn).
Proof.
  unfold liveWith. setoid_rewrite sh_entryInst. cbn [s' mdu u' memDepHash]. split.
  - intros [Hh (en' & i & (en & Hei & ->) & HP)]. eauto 10.
  - intros [[Hh (en & i & Hei & HP)] [e' Hh']]. pose proof (Hsub _ _ Hh').
    assert (e' = e) as -> by congruence. eauto 10.
Qed.

Hypothesis Hlist : exists L, StronglySorted lt L /\
  (forall e, e ∈ L <-> exists sn, H' !! sn = Some e) /\
  Forall2 (fun p e => exists en, entries (mdu s) !! e = Some en /\ e_inst en = p) (L' T) L.

Lemma shrink_shape : MDShape T s'.
Proof.
  split; cbn [mdu mdmem s'].
  - intros e en' (en & Hen & ->)%sh_lookup. rewrite Hinst. by apply (mi_inst _ _ HI e).
  - intros e e' en en' i i' (? & H1 & ->)%sh_entryInst (? & H2 & ->)%sh_entryInst.
    by eapply (mi_order _ _ HI).
  - intros sn e Hh. destruct (mi_hash _ _ HI _ _ (Hsub _ _ Hh)) as (en & i & Hei & Hsn & Hsq).
    exists (f e en), i. split; [apply sh_entryInst; eauto|]. split; [done|].
    rewrite <- Hsq. apply (Hlive _ _ _ Hh (proj1 Hei)).
  - destruct Hlist as (L & H1 & H2 & H3). exists L. split_and!; try done.
    eapply Forall2_impl; [exact H3|]. cbn. intros q e (en & Hen & <-).
    exists (f e en). split; [apply sh_lookup; eauto|done].
  - intros e d Hd%sh_deps_sub. apply (mi_deps _ _ HI) in Hd. cbn. by rewrite length_imap.
  - intros e. unfold deps. destruct (entries u' !! e) as [en'|] eqn:E1; [|constructor].
    apply sh_lookup in E1 as (en & Hen & ->). pose proof (mi_nodup _ _ HI e) as Hn. unfold deps in Hn.
    rewrite Hen in Hn. destruct (Hdeps e en) as [->| ->]; [done|constructor].
  - intros e en' i (en & Hei & ->)%sh_entryInst Hd. apply (mi_kind _ _ HI e en i Hei).
    destruct (Hdeps e en) as [<-|E0]; done.
Qed.

Hypothesis HLB : forall x, x ∈ LB' <-> x ∈ loadBarrierSNs (mdu s) /\ is_Some (H' !! x).
Hypothesis HSB : forall x, x ∈ SB' <-> x ∈ storeBarrierSNs (mdu s) /\ is_Some (H' !! x).

Lemma shrink_barriers : MDBarriers s'.
Proof.
  split; cbn [mdu s' u' loadBarrierSNs storeBarrierSNs].
  - intros x. rewrite HLB, (mi_lb _ HI). setoid_rewrite sh_live. naive_solver.
  - intros x. rewrite HSB, (mi_sb _ HI). setoid_rewrite sh_live. naive_solver.
  - intros b eb x ex [Hb [e He]]%sh_live [Hx _]%sh_live Hlt.
    assert (e = eb) as -> by (pose proof (Hsub _ _ He); destruct Hb; congruence).
    fold u'. rewrite (sh_deps_live _ _ He). by eapply (mi_loads _ HI).
  - intros b eb x ex [Hb [e He]]%sh_live [Hx _]%sh_live Hlt.
    assert (e = eb) as -> by (pose proof (Hsub _ _ He); destruct Hb; congruence).
    fold u'. rewrite (sh_deps_live _ _ He). by eapply (mi_stores _ HI).
Qed.

Hypothesis HR : forall p, p ∈ R' -> exists e en i, inUnit s p e en i /\ memDeps en = 0 /\
  is_Some (H' !! seqNum i).
Hypothesis Hdp : ok (insertedStore s) dp'.
Hypothesis Hmem : forall e en, entries (mdu s) !! e = Some en -> memDeps en = 0 -> memDeps (f e en) = 0.
Hypothesis Hcount : forall d en, entries (mdu s) !! d = Some en ->
  Z.of_nat (size (prods (mdu s) d ∩ dom H')) <= memDeps (f d en) /\
  (e_squashed (f d en) = false -> memDeps (f d en) = Z.of_nat (size (prods (mdu s) d ∩ dom H'))).
Hypothesis Hdone : forall sn d en, memDepHash (mdu s) !! sn = Some d -> H' !! sn = None ->
  entries (mdu s) !! d = Some en -> e_squashed (f d en) = true \/ memDeps en = 0.
Hypothesis Hsq : forall d en, entries (mdu s) !! d = Some en -> e_squashed (f d en) = false ->
  e_squashed en = false.
Hypothesis Hout : forall q, q ∈ out -> exists e en, entries (mdu s) !! e = Some en /\
  e_inst en = q /\ memDeps (f e en) = 0.

Lemma shrink_counts : MDCounts s'.
Proof.
  split; cbn [mdu mdmem readied s'].
  - intros d en' (en & Hen & ->)%sh_lookup. rewrite sh_prods. by apply Hcount.
  - intros d en' (en & Hen & ->)%sh_lookup Hs Hno. apply Hmem; [done|].
    destruct (mi_inst _ _ HI _ _ Hen) as (i & Hi & _).
    destruct (decide (memDepHash (mdu s) !! seqNum i = Some d)) as [Hd|Hd].
    + destruct (H' !! seqNum i) as [d'|] eqn:Hd'.
      * destruct (Hno (seqNum i)). cbn. rewrite Hd'. rewrite <- Hd. symmetry. by apply Hsub.
      * destruct (Hdone _ _ _ Hd Hd' Hen); [congruence|done].
    + apply (mi_done _ HI d); [done|by eapply Hsq|]. intros sn Hsn. apply Hd.
      destruct (hash_inUnit _ _ _ en i HI Hsn) as [<- _]; done.
  - intros e en' i (en & Hei & ->)%sh_entryInst Hi. apply Hmem; [apply Hei|]. by eapply (mi_bar _ HI).
  - intros q [Hq|Hq]%elem_of_app.
    + destruct (mi_ready _ HI q Hq) as (e & en & Hen & <- & Hm0). exists e, (f e en).
      split; [apply sh_lookup; eauto|]. split; [apply Hinst|by apply Hmem].
    + destruct (Hout q Hq) as (e & en & Hen & <- & Hm0). exists e, (f e en).
      split; [apply sh_lookup; eauto|]. split; [apply Hinst|done].
Qed.

Lemma shrink_inv : MDInv ok T s'.
Proof.
  split; [apply shrink_shape|apply shrink_counts|apply shrink_barriers|..]; cbn [mdu mdmem s' u'].
  - intros p (e & en & i & (Hi & Hh & He & Hpe) & Hm0 & [e' He'])%HR. assert (e' = e) as -> by (pose proof (Hsub _ _ He'); congruence).
    exists e, (f e en), i. split; [|by apply Hmem]. split_and!; try done.
    + apply sh_lookup. eauto.
    + by rewrite Hinst.
  - eapply dp_mono; [|exact Hdp]. intros x (e & en & i & Hei & Hx & Hst).
    exists e, (f e en), i. split; [apply sh_entryInst; eauto|done].
Qed.

Lemma shrink_abs sn : waiting (absMD s') !! sn =
  match H' !! sn with
  | Some e => en ← entries (mdu s) !! e; i ← heap (mdmem s) !! e_inst en;
      Some (mkWaiter (e_inst en) (e_regsReady (f e en)) (prods (mdu s) e ∩ dom H') (loadBar i) (storeBar i))
  | None => None
  end.
Proof.
  unfold absMD. cbn [waiting s' mdu u' memDepHash]. rewrite lookup_omap.
  destruct (H' !! sn) as [e|] eqn:Hh; [|done]. cbn [mbind option_bind].
  destruct (hash_inst _ _ _ HI (Hsub _ _ Hh)) as (en & i & [He Hi] & _). unfold waiterOf. fold s'.
  cbn [s' mdu mdmem]. rewrite (proj2 (sh_lookup e (f e en))) by eauto. rewrite He. cbn [mbind option_bind].
  rewrite Hinst, Hi. cbn [mbind option_bind]. do 2 f_equal. apply sh_prods.
Qed.

End Shrink.

(** ** Readiness *)

(** A change of the flags of entries, and the handing over of instructions that
    wait for nothing. *)
Definition onlyFlag (f : nat -> MemDepEntry -> MemDepEntry) : Prop :=
  forall j en, f j en = en <| e_regsReady := e_regsReady (f j en) |>.

Lemma flag_inv s f R dp out :
  MDInv ok T s -> onlyFlag f ->
  (forall p, p ∈ R -> exists e en i, inUnit s p e en i /\ memDeps en = 0) ->
  ok (insertedStore s) dp ->
  (forall q, q ∈ out -> exists e en, entries (mdu s) !! e = Some en /\ e_inst en = q /\ memDeps en = 0) ->
  let s' := mkMDS (mdu s <| entries := imap f (entries (mdu s)) |> <| instsToReplay := R |>
                     <| depPred := dp |>) (mdmem s) (readied s ++ out) in
  MDInv ok T s' /\
  forall sn, waiting (absMD s') !! sn =
    match memDepHash (mdu s) !! sn with
    | Some e => en ← entries (mdu s) !! e; i ← heap (mdmem s) !! e_inst en;
        Some (mkWaiter (e_inst en) (e_regsReady (f e en)) (prods (mdu s) e) (loadBar i) (storeBar i))
    | None => None
    end.
Proof.
  intros HI Hf0 HR Hdp Hout s'.
  assert (Hf : forall j en, e_inst (f j en) = e_inst en /\ dependInsts (f j en) = dependInsts en /\
            memDeps (f j en) = memDeps en /\ e_squashed (f j en) = e_squashed en)
    by (intros j en; rewrite (Hf0 j en); done).
  assert (Hdom : forall d, prods (mdu s) d ∩ dom (memDepHash (mdu s)) = prods (mdu s) d).
  { intros d. apply set_eq. intros x. rewrite elem_of_intersection, elem_of_dom, elem_prods. naive_solver. }
  assert (Hlv : forall sn e en, memDepHash (mdu s) !! sn = Some e -> entries (mdu s) !! e = Some en ->
            dependInsts (f e en) = dependInsts en /\ e_squashed (f e en) = e_squashed en).
  { intros sn e en _ _. destruct (Hf e en) as (_ & ? & _ & ?). done. }
  split.
  - apply (shrink_inv s f (memDepHash (mdu s)) (mdInstList (mdu s)) R dp
             (loadBarrierSNs (mdu s)) (storeBarrierSNs (mdu s)) out); try done.
    + intros j en. apply Hf.
    + intros j en. left. apply Hf.
    + apply HI.
    + intros x. split; [|tauto]. intros Hx. split; [done|]. by apply (mi_lb _ HI) in Hx as (e' & [-> _]).
    + intros x. split; [|tauto]. intros Hx. split; [done|]. by apply (mi_sb _ HI) in Hx as (e' & [-> _]).
    + intros p (e & en & i & Hu & Hm0)%HR. exists e, en, i. destruct Hu as (? & Hh & ? & ?).
      by split_and!.
    + intros e' en _. by destruct (Hf e' en) as (_ & _ & -> & _).
    + intros d en Hen. rewrite Hdom. destruct (Hf d en) as (_ & _ & -> & ->). by apply (mi_count _ HI).
    + intros sn d en Hd1 Hd2. congruence.
    + intros d en _. by destruct (Hf d en) as (_ & _ & _ & ->).
    + intros q Hq. destruct (Hout q Hq) as (e' & en & ? & ? & ?). exists e', en.
      destruct (Hf e' en) as (_ & _ & -> & _). done.
  - intros sn. unfold s'. etransitivity.
    + apply (shrink_abs s f (memDepHash (mdu s)) (mdInstList (mdu s)) R dp
               (loadBarrierSNs (mdu s)) (storeBarrierSNs (mdu s)) out); try done.
      intros j en. apply Hf.
    + destruct (memDepHash (mdu s) !! sn); [|done]. by rewrite Hdom.
Qed.

(** Nothing about the entries changes. *)
Lemma quiet_inv s R dp out :
  MDInv ok T s -> (forall p, p ∈ R -> exists e en i, inUnit s p e en i /\ memDeps en = 0) ->
  ok (insertedStore s) dp ->
  (forall q, q ∈ out -> exists e en, entries (mdu s) !! e = Some en /\ e_inst en = q /\ memDeps en = 0) ->
  let s' := mkMDS (mdu s <| instsToReplay := R |> <| depPred := dp |>) (mdmem s) (readied s ++ out) in
  MDInv ok T s' /\ waiting (absMD s') = waiting (absMD s).
Proof.
  intros HI HR Hdp Hout. destruct (flag_inv s (fun _ en => en) R dp out HI) as [H1 H2]; try done.
  { intros j en. by destruct en. }
  rewrite imap_id in H1, H2.
  split; [exact H1|]. apply map_eq. intros sn. etransitivity; [apply H2|].
  unfold absMD. cbn [waiting]. by rewrite lookup_omap.
Qed.

Lemma findInHash_ok s p e en i : inUnit s p e en i -> findInHash p s = Ok e.
Proof. intros (Hp & Hh & _). unfold findInHash, getInst. rewrite Hp. cbn. by rewrite Hh. Qed.

Lemma moveToReady_ok s e en : entries (mdu s) !! e = Some en -> e_squashed en = false ->
  moveToReady e s = Ok (s <| readied := readied s ++ [e_inst en] |>).
Proof. intros He Hsq. unfold moveToReady. rewrite He. cbn. by rewrite Hsq. Qed.

Lemma inUnit_alive s p e en i : MDInv ok T s -> inUnit s p e en i ->
  e_squashed en = false /\ memDeps en = Z.of_nat (size (prods (mdu s) e)) /\
  waiting (absMD s) !! seqNum i =
    Some (mkWaiter p (e_regsReady en) (prods (mdu s) e) (loadBar i) (storeBar i)).
Proof.
  intros HI (Hp & Hh & He & Hpe). destruct (hash_inst _ _ _ HI Hh) as (en' & i' & [He' _] & _ & _ & _ & Hsq).
  assert (en' = en) as -> by congruence. split; [done|]. split; [by apply (mi_count _ HI)|].
  apply (abs_lookup s _ _ HI). exists e, en, i. split_and!; try done.
  - by split; [|rewrite Hpe].
  - by rewrite Hpe.
Qed.

Lemma updEntry_imap e g u en : entries u !! e = Some en ->
  updEntry e g u = Ok (u <| entries := imap (fun j x => if decide (j = e) then g x else x) (entries u) |>).
Proof. intros He. unfold updEntry. rewrite He. cbn. by rewrite (imap_insert_one _ _ _ g He). Qed.

Lemma regsReady_ok s p : MDInv ok T s -> allowedMD T s (ORegsReady p) -> stepOK s (ORegsReady p).
Proof.
  intros HI (e & en & i & Hu). destruct (inUnit_alive s p e en i HI Hu) as (Hsq & Hcnt & Habs).
  pose proof Hu as (Hp & Hh & He & Hpe).
  set (g := fun en : MemDepEntry => en <| e_regsReady := true |>).
  set (f := fun j en => if decide (j = e) then g en else en).
  set (out := if bool_decide (prods (mdu s) e = ∅) then [p] else []).
  destruct (flag_inv s f (instsToReplay (mdu s)) (depPred (mdu s)) out HI) as [H1 H2]; try done; try apply HI.
  { intros j en'. unfold f. case_decide; by destruct en'. }
  { intros q Hq. unfold out in Hq. destruct (bool_decide_reflect (prods (mdu s) e = ∅)) as [E0|]; cbn in Hq.
    - apply list_elem_of_singleton in Hq as ->. exists e, en. rewrite Hcnt, E0. done.
    - by apply elem_of_nil in Hq. }
  eexists _, out. split; [|split; [|split; [exact H1|]]].
  - cbn [runMD]. unfold regsReady. rewrite (findInHash_ok s p e en i Hu). cbn [mbind res_bind].
    set (u1 := mdu s <| entries := imap f (entries (mdu s)) |>).
    assert (E1 : updEntry e (fun en => en <| e_regsReady := true |>) (mdu s) = Ok u1)
      by exact (updEntry_imap e g _ _ He). rewrite E1. cbn [mbind res_bind].
    assert (He1 : entries u1 !! e = Some (g en)).
    { cbn. rewrite list_lookup_imap, He. cbn. unfold f. by rewrite decide_True. }
    rewrite He1. cbn [deref mbind res_bind]. change (memDeps (g en)) with (memDeps en). rewrite Hcnt. unfold out.
    destruct (bool_decide_reflect (prods (mdu s) e = ∅)) as [E0|E0].
    + rewrite E0, size_empty. cbn [Z.of_nat Z.eqb]. rewrite (moveToReady_ok _ e (g en)) by done.
      cbn [g e_inst upd_field]. rewrite Hpe. by destruct s as [[] ? ?].
    + rewrite (proj2 (Z.eqb_neq _ _)); [rewrite app_nil_r; by destruct s as [[] ? ?]|].
      intros E2. apply E0. apply leibniz_equiv, size_empty_iff. lia.
  - done.
  - exists i, (mkWaiter p (e_regsReady en) (prods (mdu s) e) (loadBar i) (storeBar i)).
    split_and!; try done. unfold absMD at 1. f_equal. apply map_eq. intros sn. etransitivity; [apply H2|].
    destruct (decide (sn = seqNum i)) as [->|Hne].
    + rewrite lookup_insert_eq, Hh, He. cbn [mbind option_bind]. rewrite Hpe, Hp. cbn [mbind option_bind].
      unfold f. by rewrite decide_True.
    + rewrite lookup_insert_ne by done. unfold absMD. cbn [waiting]. rewrite lookup_omap.
      destruct (memDepHash (mdu s) !! sn) as [e'|] eqn:Hh'; [|done]. cbn [mbind option_bind].
      assert (Hf : forall en', f e' en' = en').
      { intros en'. unfold f. rewrite decide_False; [done|]. intros ->. destruct Hne. by eapply hash_inj. }
      unfold waiterOf. destruct (entries (mdu s) !! e'); [|done]. cbn. by rewrite Hf.
Qed.

Lemma moveOut_inv s p e en i : MDInv ok T s -> inUnit s p e en i -> memDeps en = 0 ->
  let s' := s <| readied := readied s ++ [p] |> in
  (e' ← findInHash p s; moveToReady e' s) = Ok s' /\ MDInv ok T s' /\ absMD s' = absMD s.
Proof.
  intros HI Hu Hm0 s'. destruct (inUnit_alive s p e en i HI Hu) as (Hsq & _ & _).
  pose proof Hu as (_ & _ & He & Hpe). split.
  - rewrite (findInHash_ok s p e en i Hu). cbn [mbind res_bind].
    rewrite (moveToReady_ok s e en He Hsq), Hpe. done.
  - destruct (quiet_inv s (instsToReplay (mdu s)) (depPred (mdu s)) [p] HI) as [H1 H2]; try apply HI.
    { intros q ->%list_elem_of_singleton. eauto. }
    replace (mkMDS _ _ _) with s' in H1, H2 by (by destruct s as [[] ? ?]).
    split; [done|]. unfold absMD in *. cbn [waiting] in H2. by rewrite H2.
Qed.

Lemma nonSpecReady_ok s p :
  MDInv ok T s -> allowedMD T s (ONonSpecReady p) -> stepOK s (ONonSpecReady p).
Proof.
  intros HI (e & en & i & Hu & Hsp). assert (Hm0 : memDeps en = 0).
  { destruct Hu as (Hp & _ & He & Hpe). apply (mi_bar _ HI e en i); [|done]. split; [done|by rewrite Hpe]. }
  destruct (moveOut_inv s p e en i HI Hu Hm0) as (E & H1 & H2).
  eexists _, [p]. split; [cbn [runMD]; f_equal; exact E|]. done.
Qed.

Lemma reschedule_ok s p : MDInv ok T s -> enabledMD T s (OReschedule p) -> stepOK s (OReschedule p).
Proof.
  intros HI (e & en & i & Hu & Hm0). eexists _, []. split; [done|]. split; [by rewrite app_nil_r|].
  destruct (quiet_inv s (instsToReplay (mdu s) ++ [p]) (depPred (mdu s)) [] HI) as [H1 H2].
  - intros q [Hq| ->%list_elem_of_singleton]%elem_of_app; [by apply (mi_replay _ _ _ HI)|].
    by exists e, en, i.
  - apply HI.
  - intros q Hq. by apply elem_of_nil in Hq.
  - rewrite app_nil_r in H1, H2. replace (mkMDS _ _ _) with (reschedule p s) in H1, H2
      by (by destruct s as [[] ? ?]). split; [done|]. split; [|done]. unfold absMD in H2 |- *.
    cbn [waiting] in H2. by rewrite H2.
Qed.

Lemma replay_ok s : MDInv ok T s -> stepOK s OReplay.
Proof.
  intros HI. enough (Hg : forall R, instsToReplay (mdu s) = R ->
    exists s', foldR replayOne s R = Ok s' /\ readied s' = readied s ++ R /\ MDInv ok T s' /\
      absMD s' = mkSpec (waiting (absMD s)) []).
  { destruct (Hg _ eq_refl) as (s' & E & Hr & HI' & Habs). exists s', (instsToReplay (mdu s)).
    split; [cbn [runMD]; f_equal; exact E|]. done. }
  intros R. revert s HI. induction R as [|p R IH]; intros s HI HR.
  - exists s. split_and!; try done; [by rewrite app_nil_r|]. unfold absMD. by rewrite HR.
  - destruct (mi_replay _ _ _ HI p) as (e & en & i & Hu & Hm0); [rewrite HR; by left|].
    destruct (moveOut_inv s p e en i HI Hu Hm0) as (E & H1 & H2). set (s1 := s <| readied := _ |>) in *.
    destruct (quiet_inv s1 R (depPred (mdu s)) [] H1) as [H3 H4]; [|apply H1| |].
    { intros q Hq. apply (mi_replay _ _ _ HI). rewrite HR. by right. }
    { intros q Hq. by apply elem_of_nil in Hq. }
    set (s2 := mkMDS _ _ _) in *. destruct (IH s2 H3 eq_refl) as (s' & E' & Hr' & HI' & Habs').
    exists s'. split_and!; [|..|done|].
    + cbn [foldR]. assert (E1 : replayOne s p = Ok s2); [|by rewrite E1].
      unfold replayOne. destruct (findInHash p s) as [e'| |]; cbn [mbind res_bind] in E |- *; try done.
      rewrite E. cbn [mbind res_bind]. unfold s2, s1. cbn. rewrite HR, app_nil_r. by destruct s as [[] ? ?].
    + rewrite Hr'. unfold s2. cbn. by rewrite app_nil_r, <- app_assoc.
    + rewrite Habs', H4, H2. done.
Qed.

Lemma pred_ok s op dp : MDInv ok T s -> ok (insertedStore s) dp ->
  runMD T s op = Some (Ok (s <| mdu := mdu s <| depPred := dp |> |>)) ->
  (forall S', specStep (mdmem s) (depPred (mdu s)) op S' [] S') -> stepOK s op.
Proof.
  intros HI Hdp Hr Hs. destruct (quiet_inv s (instsToReplay (mdu s)) dp [] HI) as [H1 H2]; try done; try apply HI.
  { intros q Hq. by apply elem_of_nil in Hq. }
  eexists _, []. split; [exact Hr|]. split; [by rewrite app_nil_r|].
  replace (s <| mdu := _ |>) with (mkMDS (mdu s <| instsToReplay := instsToReplay (mdu s) |>
    <| depPred := dp |>) (mdmem s) (readied s ++ [])) by (rewrite app_nil_r; by destruct s as [[] ? ?]).
  split; [done|]. match goal with |- specStep _ _ _ _ _ (absMD ?x) => replace (absMD x) with (absMD s) end.
  - apply Hs.
  - unfold absMD in *. cbn [waiting] in H2. by rewrite H2.
Qed.

Lemma mdViolation_ok s st ld : MDInv ok T s -> allowedMD T s (OViolation st ld) -> stepOK s (OViolation st ld).
Proof.
  intros HI ([i Hi] & [j Hj]).
  destruct (dp_violation _ _ (pc i) (pc j) (mi_pred _ _ _ HI)) as (dp & E & Hdp).
  apply (pred_ok s _ dp); try done. cbn [runMD]. unfold violation, getInst. rewrite Hi, Hj.
  cbn [deref mbind res_bind]. by rewrite E.
Qed.

Lemma mdIssue_ok s p : MDInv ok T s -> allowedMD T s (OIssue p) -> stepOK s (OIssue p).
Proof.
  intros HI [i Hi].
  destruct (dp_issued _ _ (pc i) (seqNum i) (isStore i) (mi_pred _ _ _ HI)) as (dp & E & Hdp).
  apply (pred_ok s _ dp); try done. cbn [runMD]. unfold issue, getInst. rewrite Hi.
  cbn [deref mbind res_bind]. by rewrite E.
Qed.

(** ** Completion *)

Definition decDeps (en : MemDepEntry) : MemDepEntry := en <| memDeps := memDeps en - 1 |>.

(** The dependents of a completed instruction that are handed over. *)
Definition wokenBy (u : MemDepUnit) (d : nat) : option InstPtr :=
  en ← entries u !! d;
  if (memDeps en =? 1) && e_regsReady en && negb (e_squashed en) then Some (e_inst en) else None.

Lemma wakeOne_ok s d en : entries (mdu s) !! d = Some en -> 0 < memDeps en ->
  wakeOne s d = Ok (mkMDS (mdu s <| entries := imap (fun j x => if decide (j = d) then decDeps x else x)
                                      (entries (mdu s)) |>) (mdmem s)
                      (readied s ++ match wokenBy (mdu s) d with Some q => [q] | None => [] end)).
Proof.
  intros He Hm. unfold wakeOne, wokenBy. rewrite He. cbn [deref mbind res_bind option_bind].
  rewrite (proj2 (Z.ltb_lt 0 _)) by done. cbn [assertR mbind res_bind]. unfold updEntry. rewrite He.
  cbn [deref mbind res_bind]. fold (decDeps en). rewrite (imap_insert_one _ _ _ decDeps He).
  change (memDeps (decDeps en)) with (memDeps en - 1). change (e_regsReady (decDeps en)) with (e_regsReady en).
  change (e_squashed (decDeps en)) with (e_squashed en).
  replace (memDeps en - 1 =? 0) with (memDeps en =? 1)
    by (destruct (Z.eqb_spec (memDeps en) 1), (Z.eqb_spec (memDeps en - 1) 0); lia || done).
  destruct ((memDeps en =? 1) && e_regsReady en && negb (e_squashed en)) eqn:Ew.
  - rewrite (moveToReady_ok _ d (decDeps en)); [done| |].
    + cbn. rewrite list_lookup_imap, He. cbn. by rewrite decide_True.
    + cbn. by bool_to_prop.
  - rewrite app_nil_r. by destruct s as [[] ? ?].
Qed.

Lemma wakeAll_ok l s : NoDup l ->
  (forall d, d ∈ l -> exists en, entries (mdu s) !! d = Some en /\ 0 < memDeps en) ->
  foldR wakeOne s l =
    Ok (mkMDS (mdu s <| entries := imap (fun j x => if decide (j ∈ l) then decDeps x else x)
                         (entries (mdu s)) |>) (mdmem s) (readied s ++ omap (wokenBy (mdu s)) l)).
Proof.
  revert s. induction l as [|d l IH]; intros s Hnd Hl; cbn [foldR].
  - rewrite app_nil_r, imap_id. by destruct s as [[] ? ?].
  - apply list_relations.list.NoDup_cons in Hnd as [Hd Hnd].
    destruct (Hl d) as (en & He & Hm); [by left|]. rewrite (wakeOne_ok s d en He Hm). cbn [mbind res_bind].
    set (u1 := mdu s <| entries := _ |>).
    assert (Hu1 : forall j, entries u1 !! j =
              (fun x => if decide (j = d) then decDeps x else x) <$> entries (mdu s) !! j)
      by (intros j; cbn; by rewrite list_lookup_imap).
    rewrite IH; [|done|].
    + cbn [mdu mdmem readied]. f_equal. f_equal.
      * unfold u1. cbn. f_equal. apply list_eq. intros j. rewrite !list_lookup_imap.
        destruct (entries (mdu s) !! j) as [x|]; [|done]. cbn. f_equal.
        destruct (decide (j = d)) as [->|Hj].
        -- rewrite decide_False by done. by rewrite decide_True by (by left).
        -- destruct (decide (j ∈ l)); [by rewrite decide_True by (by right)|].
           rewrite decide_False; [done|]. by intros [->|]%elem_of_cons.
      * rewrite <- app_assoc. f_equal. cbn. destruct (wokenBy (mdu s) d); cbn; [f_equal|].
        all: apply omap_ext_in; intros d' Hd'; unfold wokenBy; rewrite Hu1.
        all: destruct (entries (mdu s) !! d'); [|done]; cbn; rewrite decide_False; [done|]; by intros ->.
    + cbn [mdu]. intros d' Hd'. destruct (Hl d') as (en' & He' & Hm'); [by right|]. exists en'.
      rewrite Hu1, He'. cbn. rewrite decide_False; [done|]. by intros ->.
Qed.

(** The entry of a completed instruction [e] and its dependents [l]. *)
Definition wakeEntry (e : nat) (l : list nat) (j : nat) (en : MemDepEntry) : MemDepEntry :=
  let en := if decide (j ∈ l) then decDeps en else en in
  if decide (j = e) then en <| dependInsts := [] |> else en.

Lemma dependents_wait s p e en i d : MDInv ok T s -> inUnit s p e en i -> d ∈ dependInsts en ->
  d <> e /\ seqNum i ∈ prods (mdu s) d /\
  exists end_, entries (mdu s) !! d = Some end_ /\ 0 < memDeps end_.
Proof.
  intros HI (Hp & Hh & He & Hpe) Hd. assert (Hd' : d ∈ deps (mdu s) e) by (unfold deps; by rewrite He).
  destruct (mi_deps _ _ HI e d Hd') as [Hne Hlt]. split; [lia|].
  assert (Hin : seqNum i ∈ prods (mdu s) d) by (apply elem_prods; eauto). split; [done|].
  destruct (lookup_lt_is_Some_2 _ _ Hlt) as [end_ Hen].
  exists end_. split; [done|]. destruct (mi_count _ HI d end_ Hen) as [Hc _].
  assert (size (prods (mdu s) d) <> 0%nat); [|lia]. intros E0. apply size_empty_inv in E0.
  apply (E0 (seqNum i)) in Hin. by apply elem_of_empty in Hin.
Qed.

Lemma wakeDependents_ok s p e en i : MDInv ok T s -> inUnit s p e en i ->
  wakeDependents p s =
    Ok (mkMDS (mdu s <| entries := imap (wakeEntry e (dependInsts en)) (entries (mdu s)) |>) (mdmem s)
          (readied s ++ omap (wokenBy (mdu s)) (dependInsts en))).
Proof.
  intros HI Hu. pose proof Hu as (Hp & Hh & He & Hpe). unfold wakeDependents, getInst. rewrite Hp.
  cbn [deref mbind res_bind].
  assert (Hd : forall d, d ∈ dependInsts en -> exists end_, entries (mdu s) !! d = Some end_ /\ 0 < memDeps end_)
    by (intros d Hd; by destruct (dependents_wait s p e en i d HI Hu Hd) as (_ & _ & ?)).
  pose proof (mi_nodup _ _ HI e) as Hnd. unfold deps in Hnd. rewrite He in Hnd.
  assert (Hne : e ∉ dependInsts en)
    by (intros Hin; by destruct (dependents_wait s p e en i e HI Hu Hin)).
  destruct (hasDependents i) eqn:Ek.
  - replace (_ && _ && _ && _ && _) with false
      by (unfold hasDependents in Ek; destruct (isStore i), (isAtomic i), (isReadBarrier i),
            (isWriteBarrier i), (isHtmCmd i); done).
    rewrite (findInHash_ok s p e en i Hu). cbn [mbind res_bind]. rewrite He. cbn [deref mbind res_bind].
    rewrite (wakeAll_ok _ s Hnd Hd). cbn [mbind res_bind mdu]. set (u1 := mdu s <| entries := _ |>).
    assert (He1 : entries u1 !! e = Some en).
    { cbn. rewrite list_lookup_imap, He. cbn. by rewrite decide_False. }
    rewrite (updEntry_imap _ _ _ _ He1). cbn [mbind res_bind]. f_equal. unfold u1. cbn.
    f_equal. f_equal. apply list_eq. intros j. rewrite !list_lookup_imap.
    destruct (entries (mdu s) !! j); [|done]. done.
  - assert (E0 : dependInsts en = []).
    { destruct (dependInsts en) eqn:Ed; [done|]. assert (hasDependents i = true); [|congruence].
      apply (mi_kind _ _ HI e en i); [split; [done|by rewrite Hpe]|by rewrite Ed]. }
    replace (_ && _ && _ && _ && _) with true
      by (unfold hasDependents in Ek; destruct (isStore i), (isAtomic i), (isReadBarrier i),
            (isWriteBarrier i), (isHtmCmd i); done).
    rewrite E0, app_nil_r. cbn. f_equal. destruct s as [u m r]. cbn in *. f_equal.
    destruct u as [? E ? ? ? ? ?]. cbn in *. f_equal. symmetry. etransitivity; [|apply imap_id].
    apply list_eq. intros j. rewrite !list_lookup_imap. destruct (E !! j) as [x|] eqn:Ej; [|done]. cbn.
    unfold wakeEntry. cbn. case_decide as Hj; [|done]. subst j. rewrite Ej in He. injection He as ->.
    destruct en; cbn in E0 |- *; by subst.
Qed.

Lemma eraseNode_ok s e en (L : list nat) (l : list InstPtr) :
  MDInv ok T s -> entries (mdu s) !! e = Some en -> e ∈ L -> NoDup L ->
  Forall2 (fun p e => exists en, entries (mdu s) !! e = Some en /\ e_inst en = p) l L ->
  exists l', eraseNode (e_inst en) l = Ok l' /\
    Forall2 (fun p e => exists en, entries (mdu s) !! e = Some en /\ e_inst en = p) l'
      (filter (fun x => x <> e) L).
Proof.
  intros HI He Hin Hnd HF. induction HF as [|q x l L (enx & Hx & Hq) HF IH]; [by apply elem_of_nil in Hin|].
  apply list_relations.list.NoDup_cons in Hnd as [Hx' Hnd]. cbn [eraseNode].
  destruct (decide (q = e_inst en)) as [->|Hne].
  - assert (x = e) as -> by (eapply entry_unique; eauto). exists l. split; [done|].
    rewrite filter_cons_False by auto. rewrite filter_all; [done|]. intros y Hy ->. done.
  - assert (Hxe : x <> e) by (intros ->; congruence).
    apply elem_of_cons in Hin as [->|Hin]; [done|]. destruct (IH Hin Hnd) as (l' & -> & HF').
    exists (q :: l'). split; [done|]. rewrite filter_cons_True by done. constructor; eauto.
Qed.

Lemma completed_ok s p e en i : MDInv ok T s -> inUnit s p e en i ->
  exists l, (forall s1, mdmem s1 = mdmem s -> memDepHash (mdu s1) = memDepHash (mdu s) ->
      mdInstList (mdu s1) = mdInstList (mdu s) -> e_inst <$> entries (mdu s1) !! e = Some p ->
      completed p s1 = Ok (s1 <| mdu := mdu s1 <| mdInstList := <[T := l]> (mdInstList (mdu s)) |>
                                        <| memDepHash := delete (seqNum i) (memDepHash (mdu s)) |> |>)) /\
    exists L, StronglySorted lt L /\
      (forall e', e' ∈ L <-> exists sn, delete (seqNum i) (memDepHash (mdu s)) !! sn = Some e') /\
      Forall2 (fun p e => exists en, entries (mdu s) !! e = Some en /\ e_inst en = p) l L.
Proof.
  intros HI Hu. pose proof Hu as (Hp & Hh & He & Hpe). destruct (mi_list _ _ HI) as (L & Hs & HL & HF).
  assert (Hnd : NoDup L).
  { clear -Hs. induction Hs as [|x L Hs IH Hx]; [constructor|]. constructor; [|done].
    intros Hin. rewrite Forall_forall in Hx. specialize (Hx _ Hin). lia. }
  destruct (eraseNode_ok s e en L (mdInstList (mdu s) T) HI He) as (l & El & HFl); try done.
  { apply HL. eauto. }
  exists l. split.
  - intros s1 Em Eh Ei Ee. unfold completed, getInst. rewrite Em, Hp. cbn [deref mbind res_bind].
    rewrite Eh, Hh. destruct (entries (mdu s1) !! e) as [en1|]; [|done]. injection Ee as Ee.
    cbn [deref mbind res_bind]. destruct (hash_inst _ _ _ HI Hh) as (en2 & i2 & [E2 E3] & _ & Ht & _).
    assert (i2 = i) as -> by congruence. rewrite Ei, Ht, Ee, <- Hpe, El. done.
  - exists (filter (fun x => x <> e) L). split_and!; [| |done].
    + clear -Hs. induction Hs as [|x L Hs IH Hx]; [constructor|]. rewrite filter_cons.
      case_decide; [|done]. constructor; [done|]. by apply Forall_filter_sub.
    + intros e'. rewrite list_elem_of_filter, HL. setoid_rewrite lookup_delete_Some. split.
      * intros [Hne [sn Hsn]]. exists sn. split; [|done]. intros <-. congruence.
      * intros (sn & Hne & Hsn). split; [|eauto]. intros ->. apply Hne. by eapply hash_inj.
Qed.

Section Complete.
Variables (s : MDS) (p : InstPtr) (e : nat) (en : MemDepEntry) (i : DynInst).
Hypothesis HI : MDInv ok T s.
Hypothesis Hu : inUnit s p e en i.
Hypothesis Hrdy : isMemRef i = true -> memDeps en = 0.
Hypothesis Hrep : p ∉ instsToReplay (mdu s).
Let f := wakeEntry e (dependInsts en).
Let H' := delete (seqNum i) (memDepHash (mdu s)).
Let out := omap (wokenBy (mdu s)) (dependInsts en).

(** A completed instruction waits for nothing. *)
Local Lemma co_zero : memDeps en = 0.
Proof.
  destruct Hu as (Hp & Hh & He & Hpe). destruct (isMemRef i) eqn:Em; [by apply Hrdy|].
  apply (mi_bar _ HI e en i); [split; [done|by rewrite Hpe]|]. unfold speculative. by rewrite Em.
Qed.

Local Lemma co_entry j en' : e_inst (f j en') = e_inst en' /\ e_squashed (f j en') = e_squashed en' /\
  e_regsReady (f j en') = e_regsReady en' /\
  memDeps (f j en') = (if decide (j ∈ dependInsts en) then memDeps en' - 1 else memDeps en') /\
  (dependInsts (f j en') = if decide (j = e) then [] else dependInsts en').
Proof. unfold f, wakeEntry. do 2 case_decide; done. Qed.

Local Lemma co_sub sn e' : H' !! sn = Some e' <->
  memDepHash (mdu s) !! sn = Some e' /\ e' <> e.
Proof.
  unfold H'. rewrite lookup_delete_Some. destruct Hu as (_ & Hh & _). split.
  - intros [Hne Hsn]. split; [done|]. intros ->. apply Hne. by eapply hash_inj.
  - intros [Hsn Hne]. split; [|done]. intros <-. congruence.
Qed.

Local Lemma co_member d : seqNum i ∈ prods (mdu s) d <-> d ∈ dependInsts en.
Proof.
  destruct Hu as (_ & Hh & He & _). rewrite elem_prods. unfold deps. split.
  - intros (e' & Hh' & Hd). assert (e' = e) as -> by congruence. by rewrite He in Hd.
  - intros Hd. exists e. by rewrite He.
Qed.

Local Lemma co_prods d : prods (mdu s) d ∩ dom H' = prods (mdu s) d ∖ {[seqNum i]}.
Proof.
  apply set_eq. intros x. rewrite elem_of_intersection, elem_of_difference, elem_of_singleton, elem_of_dom.
  unfold H'. split.
  - intros [Hx [e' He']]. split; [done|]. by apply lookup_delete_Some in He' as [? _].
  - intros [Hx Hne]. split; [done|]. rewrite lookup_delete_ne by done.
    apply elem_prods in Hx as (e' & -> & _). eauto.
Qed.

Local Lemma co_size d : Z.of_nat (size (prods (mdu s) d ∩ dom H')) =
  Z.of_nat (size (prods (mdu s) d)) - (if decide (d ∈ dependInsts en) then 1 else 0).
Proof.
  rewrite co_prods. case_decide as Hd; apply (co_member d) in Hd || rewrite <- co_member in Hd.
  - rewrite size_difference by set_solver. rewrite size_singleton.
    assert (size (prods (mdu s) d) <> 0%nat); [|lia]. intros E0%size_empty_inv.
    apply (E0 (seqNum i)) in Hd. by apply elem_of_empty in Hd.
  - replace (prods (mdu s) d ∖ {[seqNum i]}) with (prods (mdu s) d) by set_solver. lia.
Qed.

(** Who is handed over. *)
Local Lemma co_out q : q ∈ out <-> exists d end_, entries (mdu s) !! d = Some end_ /\ e_inst end_ = q /\
  d ∈ dependInsts en /\ memDeps end_ = 1 /\ e_regsReady end_ = true /\ e_squashed end_ = false.
Proof.
  unfold out. rewrite list_elem_of_omap. unfold wokenBy. split.
  - intros (d & Hd & Hq). destruct (entries (mdu s) !! d) as [end_|] eqn:Hen; [|done]. cbn in Hq.
    destruct (_ && _) eqn:Eb in Hq; [|done]. injection Hq as <-. bool_to_prop. exists d, end_. done.
  - intros (d & end_ & Hen & <- & Hd & Hm & Hr & Hsq). exists d. split; [done|]. rewrite Hen. cbn.
    by rewrite Hm, Hr, Hsq.
Qed.

Lemma complete_inv L' LB' SB' :
  (exists L, StronglySorted lt L /\ (forall e', e' ∈ L <-> exists sn, H' !! sn = Some e') /\
    Forall2 (fun p e => exists en, entries (mdu s) !! e = Some en /\ e_inst en = p) (L' T) L) ->
  (forall x, x ∈ LB' <-> x ∈ loadBarrierSNs (mdu s) /\ is_Some (H' !! x)) ->
  (forall x, x ∈ SB' <-> x ∈ storeBarrierSNs (mdu s) /\ is_Some (H' !! x)) ->
  MDInv ok T (mkMDS (mkUnit H' (imap f (entries (mdu s))) L' (instsToReplay (mdu s)) (depPred (mdu s)) LB' SB')
                (mdmem s) (readied s ++ out)).
Proof.
  intros HL HLB HSB. pose proof co_zero as Hzero. pose proof Hu as (Hp & Hh & He & Hpe).
  assert (Hpos : forall d end_, d ∈ dependInsts en -> entries (mdu s) !! d = Some end_ -> 0 < memDeps end_).
  { intros d end_ Hd Hen. destruct (dependents_wait s p e en i d HI Hu Hd) as (_ & _ & end' & ? & ?). congruence. }
  apply shrink_inv; try done.
  - intros j en'. apply co_entry.
  - intros j en'. destruct (co_entry j en') as (_ & _ & _ & _ & ->). case_decide; auto.
  - intros sn e' He'. by apply co_sub in He' as [? _].
  - intros sn e' en' [_ Hne]%co_sub _. destruct (co_entry e' en') as (_ & Es & _ & _ & Ed).
    rewrite decide_False in Ed by done. done.
  - intros q Hq. destruct (mi_replay _ _ _ HI q Hq) as (e' & en' & i' & (Hi' & Hh' & He' & Hqe) & Hm0).
    exists e', en', i'. split_and!; try done. exists e'. apply co_sub. split; [done|]. intros ->.
    congruence.
  - apply HI.
  - intros e' en' He' Hm0. destruct (co_entry e' en') as (_ & _ & _ & -> & _). case_decide as Hd; [|done].
    specialize (Hpos _ _ Hd He'). lia.
  - intros d end_ Hen. destruct (co_entry d end_) as (_ & -> & _ & -> & _). rewrite co_size.
    destruct (mi_count _ HI d end_ Hen) as [H1 H2]. case_decide; split; intros; try (rewrite H2 by done); lia.
  - intros sn d end_ Hd HN Hen. right. destruct (decide (d = e)) as [->|Hne].
    + congruence.
    + assert (H' !! sn = Some d) by (by apply co_sub). congruence.
  - intros d end_ Hen. by destruct (co_entry d end_) as (_ & -> & _).
  - intros q (d & end_ & Hen & Hq & Hd & Hm & _)%co_out. exists d, end_. split_and!; try done.
    destruct (co_entry d end_) as (_ & _ & _ & -> & _). rewrite decide_True by done. lia.
Qed.

(** An entry that still waits is in flight. *)
Local Lemma co_alive d end_ : entries (mdu s) !! d = Some end_ -> memDeps end_ <> 0 ->
  e_squashed end_ = false -> exists sn, memDepHash (mdu s) !! sn = Some d.
Proof.
  intros Hen Hm Hsq. destruct (mi_inst _ _ HI _ _ Hen) as (j & Hj & _).
  destruct (decide (memDepHash (mdu s) !! seqNum j = Some d)) as [|Hn]; [eauto|].
  destruct Hm. apply (mi_done _ HI d); [done..|]. intros sn Hsn. apply Hn.
  by destruct (hash_inUnit _ _ _ end_ j HI Hsn) as [<- _].
Qed.

Local Lemma co_out_spec q : q ∈ out <-> exists sn w, waiting (absMD s) !! sn = Some w /\ w_inst w = q /\
  w_regs w = true /\ w_on w = {[seqNum i]}.
Proof.
  rewrite co_out. split.
  - intros (d & end_ & Hen & <- & Hd & Hm & Hr & Hsq).
    destruct (co_alive d end_) as [sn Hsn]; [done|lia|done|].
    destruct (mi_inst _ _ HI _ _ Hen) as (j & Hj & _).
    exists sn, (mkWaiter (e_inst end_) (e_regsReady end_) (prods (mdu s) d) (loadBar j) (storeBar j)).
    split; [apply (abs_lookup s sn _ HI); exists d, end_, j; done|]. split_and!; try done. cbn.
    destruct (mi_count _ HI d end_ Hen) as [_ Hc]. specialize (Hc Hsq).
    destruct (size_1_elem_of (prods (mdu s) d)) as [x Hx]; [lia|]. apply leibniz_equiv in Hx.
    apply co_member in Hd. rewrite Hx in Hd |- *. apply elem_of_singleton in Hd. by subst x.
  - intros (sn & w & (d & end_ & j & Hsn & [Hen Hj] & ->)%(abs_lookup s _ _ HI) & <- & Hr & Hon).
    cbn in Hr, Hon |- *. destruct (hash_inst _ _ _ HI Hsn) as (en' & ? & [Hen' _] & _ & _ & _ & Hsq).
    assert (en' = end_) as -> by congruence. destruct (mi_count _ HI d end_ Hen) as [_ Hc].
    specialize (Hc Hsq). rewrite Hon, size_singleton in Hc. exists d, end_. split_and!; try done.
    apply co_member. rewrite Hon. by apply elem_of_singleton.
Qed.

Lemma complete_spec L' LB' SB' :
  specStep (mdmem s) (depPred (mdu s)) (OComplete p) (absMD s) out
    (absMD (mkMDS (mkUnit H' (imap f (entries (mdu s))) L' (instsToReplay (mdu s)) (depPred (mdu s)) LB' SB')
              (mdmem s) (readied s ++ out))).
Proof.
  pose proof Hu as (Hp & Hh & He & Hpe). exists i. split; [done|]. split_and!.
  - unfold absMD at 1. cbn [mdu instsToReplay]. f_equal. apply map_eq. intros sn. etransitivity.
    + apply (shrink_abs s f H' L' (instsToReplay (mdu s)) (depPred (mdu s)) LB' SB' out); [done|..].
      * intros j en'. apply co_entry.
      * intros sn' e' He'. by apply co_sub in He' as [? _].
      * intros sn' e' en' [_ Hne]%co_sub _. destruct (co_entry e' en') as (_ & Es & _ & _ & Ed).
        rewrite decide_False in Ed by done. done.
    + unfold H' at 1. destruct (decide (sn = seqNum i)) as [->|Hne]; [by rewrite !lookup_delete_eq|].
      rewrite !lookup_delete_ne by done. rewrite lookup_fmap. unfold absMD. cbn [waiting].
      rewrite lookup_omap. destruct (memDepHash (mdu s) !! sn) as [e'|]; [|done]. cbn [mbind option_bind].
      unfold waiterOf. destruct (entries (mdu s) !! e') as [en'|]; [|done]. cbn [mbind option_bind].
      destruct (heap (mdmem s) !! e_inst en') as [i'|]; [|done]. cbn [mbind option_bind fmap option_fmap option_map].
      destruct (co_entry e' en') as (_ & _ & -> & _). rewrite co_prods. done.
  - unfold out. apply NoDup_omap_inj.
    + intros d d' q _ _ Hd Hd'. unfold wokenBy in *.
      destruct (entries (mdu s) !! d) as [en1|] eqn:E1, (entries (mdu s) !! d') as [en2|] eqn:E2; try done.
      cbn in Hd, Hd'. repeat case_match; try done. eapply entry_unique; eauto. congruence.
    + pose proof (mi_nodup _ _ HI e) as Hnd. unfold deps in Hnd. by rewrite He in Hnd.
  - apply co_out_spec.
Qed.

End Complete.

(** Taking the sequence number out of a set of barriers. *)
Lemma barrier_delete s p e en i (P : DynInst -> bool) (S : gset Z) :
  MDInv ok T s -> inUnit s p e en i -> (forall x, x ∈ S <-> exists e, liveWith P s x e) ->
  (P i = true -> S <> ∅) /\
  forall x, x ∈ (if P i then S ∖ {[seqNum i]} else S) <->
    x ∈ S /\ is_Some (delete (seqNum i) (memDepHash (mdu s)) !! x).
Proof.
  intros HI (Hp & Hh & He & Hpe) HS. split.
  - intros HP E. assert (Hin : seqNum i ∈ S); [|by rewrite E in Hin; apply elem_of_empty in Hin].
    apply HS. exists e. split; [done|]. exists en, i. split; [|done]. split; [done|by rewrite Hpe].
  - intros x. destruct (decide (x = seqNum i)) as [->|Hne].
    + rewrite lookup_delete_eq. split; [|intros [_ [? [=]]]]. intros Hin. exfalso.
      destruct (P i) eqn:HP; [set_solver|]. apply HS in Hin as (e' & Hh' & en' & i' & [He' Hi'] & HP').
      assert (e' = e) as -> by congruence. assert (en' = en) as -> by congruence. congruence.
    + rewrite lookup_delete_ne by done. split.
      * intros Hx. assert (Hx' : x ∈ S) by (destruct (P i); set_solver). split; [done|].
        apply HS in Hx' as (e' & Hh' & _). eauto.
      * intros [Hx _]. destruct (P i); [|done]. set_solver.
Qed.

Lemma complete_ok s p : MDInv ok T s -> enabledMD T s (OComplete p) -> stepOK s (OComplete p).
Proof.
  intros HI ((e & en & i & Hu & Hrdy) & Hrep). pose proof Hu as (Hp & Hh & He & Hpe).
  destruct (completed_ok s p e en i HI Hu) as (l & El & HL).
  destruct (barrier_delete s p e en i loadBar _ HI Hu (mi_lb _ HI)) as [HL1 HL2].
  destruct (barrier_delete s p e en i storeBar _ HI Hu (mi_sb _ HI)) as [HS1 HS2].
  eexists _, _. split; [|split; [|split;
    [apply (complete_inv s p e en i HI Hu Hrdy Hrep (<[T := l]> (mdInstList (mdu s))))|
     apply (complete_spec s p e en i HI Hu)]]]; [|done|by rewrite fn_lookup_insert|exact HL2|exact HS2].
  cbn [runMD]. unfold completeInst. rewrite (wakeDependents_ok s p e en i HI Hu). cbn [mbind res_bind].
  rewrite El; [|done..|].
  2: { cbn. rewrite list_lookup_imap, He. cbn. f_equal. rewrite <- Hpe. unfold wakeEntry. by repeat case_decide. }
  cbn [mbind res_bind]. unfold getInst. cbn [mdmem upd_field]. rewrite Hp. cbn [deref mbind res_bind].
  unfold loadBar, storeBar, hasStoreBarrier, hasLoadBarrier in *.
  destruct (isWriteBarrier i || isHtmCmd i), (isReadBarrier i || isHtmCmd i).
  all: cbn; rewrite ?(bool_decide_eq_false_2 (storeBarrierSNs (mdu s) = ∅)) by auto.
  all: cbn; rewrite ?(bool_decide_eq_false_2 (loadBarrierSNs (mdu s) = ∅)) by auto; done.
Qed.

(** ** Squashing *)

Definition squashEntry (l : list nat) (j : nat) (en : MemDepEntry) : MemDepEntry :=
  if decide (j ∈ l) then en <| e_squashed := true |> else en.

(** The instructions of the thread with their keys, oldest first. *)
Lemma thread_keys s : MDInv ok T s ->
  exists K : list (Z * nat),
    Forall2 (fun p k => exists i, heap (mdmem s) !! p = Some i /\ seqNum i = fst k)
      (mdInstList (mdu s) T) K /\
    StronglySorted (fun a b => fst a < fst b /\ (snd a < snd b)%nat) K /\
    (forall sn e, (sn, e) ∈ K <-> memDepHash (mdu s) !! sn = Some e) /\
    Forall2 (fun p k => exists en, entries (mdu s) !! snd k = Some en /\ e_inst en = p)
      (mdInstList (mdu s) T) K.
Proof.
  intros HI. destruct (mi_list _ _ HI) as (L & Hs & HL & HF).
  assert (Hkey : forall e, e ∈ L -> exists sn en i, memDepHash (mdu s) !! sn = Some e /\
            entryInst s e en i /\ seqNum i = sn).
  { intros e [sn Hsn]%HL. destruct (hash_inst _ _ _ HI Hsn) as (en & i & Hei & Hi & _). eauto 10. }
  assert (HLsub : forall e, e ∈ L -> exists sn, memDepHash (mdu s) !! sn = Some e) by (intros e; apply HL).
  assert (Hg : exists K : list (Z * nat), snd <$> K = L /\
            (forall k, k ∈ K -> memDepHash (mdu s) !! fst k = Some (snd k)) /\
            StronglySorted (fun a b => fst a < fst b /\ (snd a < snd b)%nat) K).
  { clear HF HL. induction Hs as [|e L Hs IH Hlt]; [exists []; split_and!; [done| |constructor]|].
    { intros k Hk. by apply elem_of_nil in Hk. }
    destruct IH as (K & EK & HK & HsK); [intros e' He'; apply Hkey; by right|
      intros e' He'; apply HLsub; by right|].
    destruct (Hkey e) as (sn & en & i & Hh & Hei & Hi); [by left|]. exists ((sn, e) :: K).
    split; [cbn; by rewrite EK|]. split.
    - intros k [->|Hk]%elem_of_cons; [done|by apply HK].
    - constructor; [done|]. apply Forall_forall. intros [sn' e'] Hk. cbn.
      rewrite Forall_forall in Hlt. assert (Hlt' : (e < e')%nat).
      { apply Hlt. rewrite <- EK. apply list_elem_of_fmap. by exists (sn', e'). }
      split; [|done]. pose proof (HK _ Hk) as Hh'. cbn in Hh'.
      destruct (hash_inst _ _ _ HI Hh') as (en' & i' & Hei' & Hi' & _).
      pose proof (mi_order _ _ HI _ _ _ _ _ _ Hei Hei' Hlt'). lia. }
  destruct Hg as (K & EK & HK & HsK). exists K. rewrite <- EK in HF. apply Forall2_fmap_r in HF.
  split_and!; [|done| |exact HF].
  - clear -HI HK HF. induction HF as [|p [sn e] l K (en & Hen & Hp) HF IH]; constructor.
    + assert (Hh := HK _ (list_elem_of_here _ _)). cbn in Hh, Hen |- *.
      destruct (hash_inst _ _ _ HI Hh) as (en' & i & [He' Hi] & Hsn & _).
      assert (en' = en) as -> by congruence. rewrite <- Hp. eauto.
    + apply IH. intros k Hk. apply HK. by right.
  - intros sn e. split; [intros Hk; apply (HK _ Hk)|]. intros Hh.
    assert (Hin : e ∈ snd <$> K) by (rewrite EK; apply HL; eauto).
    apply list_elem_of_fmap in Hin as ([sn' e'] & -> & Hk). cbn in Hh |- *.
    pose proof (HK _ Hk) as Hh'. cbn in Hh'. by rewrite (hash_inj _ _ _ _ HI Hh Hh').
Qed.

Lemma squashInsts_ok n m l (k : list (Z * nat)) u :
  Forall2 (fun p k => exists i, heap m !! p = Some i /\ seqNum i = fst k) l k ->
  StronglySorted (fun a b => fst b < fst a) k ->
  (forall x, x ∈ k -> memDepHash u !! fst x = Some (snd x) /\ is_Some (entries u !! snd x)) ->
  exists a b H LB SB, k = a ++ b /\ (forall x, x ∈ a -> n < fst x) /\ (forall x, x ∈ b -> fst x <= n) /\
    squashInsts n m l u = Ok (drop (length a) l,
      u <| entries := imap (squashEntry (snd <$> a)) (entries u) |> <| memDepHash := H |>
        <| loadBarrierSNs := LB |> <| storeBarrierSNs := SB |>) /\
    (forall x, H !! x = if decide (x ∈ fst <$> a) then None else memDepHash u !! x) /\
    (forall x, x ∈ LB <-> x ∈ loadBarrierSNs u /\ x ∉ fst <$> a) /\
    (forall x, x ∈ SB <-> x ∈ storeBarrierSNs u /\ x ∉ fst <$> a).
Proof.
  assert (Hstop : forall l (k : list (Z * nat)) u, (forall x, x ∈ k -> fst x <= n) ->
            squashInsts n m l u = Ok (l, u) ->
    exists a b H LB SB, k = a ++ b /\ (forall x, x ∈ a -> n < fst x) /\ (forall x, x ∈ b -> fst x <= n) /\
    squashInsts n m l u = Ok (drop (length a) l,
      u <| entries := imap (squashEntry (snd <$> a)) (entries u) |> <| memDepHash := H |>
        <| loadBarrierSNs := LB |> <| storeBarrierSNs := SB |>) /\
    (forall x, H !! x = if decide (x ∈ fst <$> a) then None else memDepHash u !! x) /\
    (forall x, x ∈ LB <-> x ∈ loadBarrierSNs u /\ x ∉ fst <$> a) /\
    (forall x, x ∈ SB <-> x ∈ storeBarrierSNs u /\ x ∉ fst <$> a)).
  { intros l' k' u' Hk E. exists [], k', (memDepHash u'), (loadBarrierSNs u'), (storeBarrierSNs u').
    split_and!; try done; try (intros x; cbn; set_solver).
    rewrite E. do 2 f_equal. cbn. replace (imap _ _) with (entries u'); [by destruct u'|].
    symmetry. apply imap_id. }
  intros HF. revert u. induction HF as [|p [sn e] l k (i & Hi & Hsn) HF IH]; intros u Hs He.
  { apply Hstop; [|done]. by intros x Hx%elem_of_nil. }
  cbn in Hsn. inversion_clear Hs as [|? ? Hs' Hlt]. rewrite Forall_forall in Hlt.
  cbn [squashInsts]. unfold getInst. rewrite Hi. cbn [deref mbind res_bind]. rewrite Hsn.
  destruct (Z.ltb_spec n sn) as [Hn|Hn]; cbn [negb].
  2: { destruct (Hstop (p :: l) ((sn, e) :: k) u) as (a & b & H & LB & SB & HH).
       - intros x [->|Hx]%elem_of_cons; [done|]. specialize (Hlt x Hx). cbn in Hlt. lia.
       - cbn [squashInsts]. unfold getInst. rewrite Hi. cbn. by rewrite Hsn, (proj2 (Z.ltb_ge n sn)).
       - cbn [squashInsts] in HH. unfold getInst in HH. rewrite Hi in HH. cbn [deref mbind res_bind] in HH.
         rewrite Hsn, (proj2 (Z.ltb_ge n sn)) in HH by done. cbn [negb] in HH. eauto 10. }
  destruct (He (sn, e)) as [Hh [en Hen]]; [by left|]. cbn in Hh, Hen. cbn [memDepHash upd_field].
  rewrite Hh. rewrite (updEntry_imap _ _ _ en) by done. cbn [mbind res_bind].
  match goal with |- context [squashInsts n m l ?x] => set (u1 := x) end.
  destruct (IH u1) as (a & b & H & LB & SB & -> & Ha & Hb & E & HH & HLB & HSB); [done| |].
  { intros x Hx. specialize (Hlt x Hx). cbn in Hlt. destruct (He x) as [Hhx [enx Hex]]; [by right|].
    split; [cbn; rewrite lookup_delete_ne by lia; done|]. cbn. rewrite list_lookup_imap, Hex. eauto. }
  exists ((sn, e) :: a), b, H, LB, SB. split_and!; try done.
  - intros x [->|Hx]%elem_of_cons; [done|auto].
  - rewrite E. cbn [length drop]. do 2 f_equal. unfold u1. cbn. f_equal.
    apply list_eq. intros j. rewrite !list_lookup_imap. destruct (entries u !! j) as [x|]; [|done]. cbn. f_equal.
    unfold squashEntry. destruct (decide (j = e)) as [->|Hj].
    + rewrite (decide_True (P := e ∈ e :: _)) by (by left). by case_decide.
    + destruct (decide (j ∈ snd <$> a)); [by rewrite decide_True by (by right)|].
      rewrite decide_False; [done|]. by intros [->|]%elem_of_cons.
  - intros x. rewrite HH. cbn. destruct (decide (x = sn)) as [->|Hx].
    + rewrite lookup_delete_eq, (decide_True (P := sn ∈ sn :: _)) by (by left). by case_decide.
    + rewrite lookup_delete_ne by done. destruct (decide (x ∈ fst <$> a)); [by rewrite decide_True by (by right)|].
      rewrite decide_False; [done|]. by intros [->|]%elem_of_cons.
  - intros x. rewrite HLB. cbn. set_solver.
  - intros x. rewrite HSB. cbn. set_solver.
Qed.

Lemma StronglySorted_reverse {A} (R : A -> A -> Prop) l :
  StronglySorted R l -> StronglySorted (fun a b => R b a) (reverse l).
Proof.
  induction 1 as [|x l Hs IH Hx]; [constructor|]. rewrite reverse_cons. apply StronglySorted_app_2; [|done|].
  - intros y z Hy ->%list_elem_of_singleton. rewrite elem_of_reverse in Hy. rewrite Forall_forall in Hx. by apply Hx.
  - by repeat constructor.
Qed.

Lemma dropReplays_ok s n l : MDInv ok T s -> (forall p, p ∈ l -> p ∈ instsToReplay (mdu s)) ->
  dropReplays n T (mdmem s) l = Ok (filter (fun p => olderThan n (mdmem s) p = true) l).
Proof.
  intros HI. induction l as [|p l IH]; intros Hl; [done|]. cbn [dropReplays].
  destruct (mi_replay _ _ _ HI p) as (e & en & i & (Hi & Hh & He & Hp) & _); [apply Hl; by left|].
  destruct (mi_inst _ _ HI _ _ He) as (i' & Hi' & Ht & _). rewrite Hp, Hi in Hi'. injection Hi' as <-.
  unfold getInst. rewrite Hi. cbn [deref mbind res_bind]. rewrite IH by (intros; apply Hl; by right).
  cbn [mbind res_bind]. rewrite bool_decide_eq_true_2 by done. rewrite filter_cons.
  assert (Eo : olderThan n (mdmem s) p = (seqNum i <=? n)) by (unfold olderThan; by rewrite Hi).
  rewrite Eo. cbn [andb].
  destruct (Z.ltb_spec n (seqNum i)), (Z.leb_spec (seqNum i) n); try lia; done.
Qed.

(** Squashing everything younger than [n]: [H'] keeps the older instructions and
    [f] marks the entries of the others. *)
Section Squash.
Variables (s : MDS) (n : Z) (f : nat -> MemDepEntry -> MemDepEntry) (H' : gmap Z nat) (sq : nat -> bool).
Hypothesis HI : MDInv ok T s.
Hypothesis HH : forall sn e, H' !! sn = Some e <-> memDepHash (mdu s) !! sn = Some e /\ sn <= n.
Hypothesis Hf : forall j en, f j en = if sq j then en <| e_squashed := true |> else en.
Hypothesis Hsq : forall j, sq j = true <-> exists sn, memDepHash (mdu s) !! sn = Some j /\ n < sn.

Local Lemma sq_fields j en : e_inst (f j en) = e_inst en /\ dependInsts (f j en) = dependInsts en /\
  memDeps (f j en) = memDeps en /\ e_regsReady (f j en) = e_regsReady en /\
  e_squashed (f j en) = sq j || e_squashed en.
Proof. rewrite Hf. by destruct (sq j). Qed.

Local Lemma sq_live sn e : memDepHash (mdu s) !! sn = Some e -> sq e = false <-> sn <= n.
Proof.
  intros Hh. rewrite <- not_true_iff_false, Hsq. split.
  - intros Hn. destruct (Z.le_gt_cases sn n); [done|]. destruct Hn. eauto.
  - intros Hn (sn' & Hh' & ?). assert (sn' = sn) by (by eapply hash_inj). lia.
Qed.

(** The producers of an instruction that stays are older, and stay. *)
Local Lemma sq_prods sn e : memDepHash (mdu s) !! sn = Some e -> sn <= n ->
  prods (mdu s) e ∩ dom H' = prods (mdu s) e.
Proof.
  intros Hh Hn. apply set_eq. intros x. rewrite elem_of_intersection, elem_of_dom. split; [by intros [? _]|].
  intros Hx. split; [done|]. apply elem_prods in Hx as (e' & Hh' & Hd).
  destruct (mi_deps _ _ HI _ _ Hd) as [Hlt _].
  destruct (hash_inst _ _ _ HI Hh) as (en & i & Hei & Hi & _).
  destruct (hash_inst _ _ _ HI Hh') as (en' & i' & Hei' & Hi' & _).
  pose proof (mi_order _ _ HI _ _ _ _ _ _ Hei' Hei Hlt). exists e'. apply HH. split; [done|lia].
Qed.

Lemma squash_inv L' R' dp' LB' SB' :
  (exists L, StronglySorted lt L /\ (forall e', e' ∈ L <-> exists sn, H' !! sn = Some e') /\
    Forall2 (fun p e => exists en, entries (mdu s) !! e = Some en /\ e_inst en = p) (L' T) L) ->
  (forall x, x ∈ LB' <-> x ∈ loadBarrierSNs (mdu s) /\ is_Some (H' !! x)) ->
  (forall x, x ∈ SB' <-> x ∈ storeBarrierSNs (mdu s) /\ is_Some (H' !! x)) ->
  (forall p, p ∈ R' -> p ∈ instsToReplay (mdu s) /\ olderThan n (mdmem s) p = true) ->
  ok (insertedStore s) dp' ->
  MDInv ok T (mkMDS (mkUnit H' (imap f (entries (mdu s))) L' R' dp' LB' SB') (mdmem s) (readied s ++ [])).
Proof.
  intros HL HLB HSB HR Hdp. apply shrink_inv; try done.
  - intros j en. apply sq_fields.
  - intros j en. left. apply sq_fields.
  - intros sn e He. by apply HH in He as [? _].
  - intros sn e en [Hh Hn]%HH He. destruct (sq_fields e en) as (_ & Ed & _ & _ & Es). split; [done|].
    rewrite Es. by rewrite (proj2 (sq_live _ _ Hh)).
  - intros p [Hp Ho]%HR. destruct (mi_replay _ _ _ HI p Hp) as (e & en & i & Hu & Hm0).
    exists e, en, i. split_and!; try done. exists e. apply HH. pose proof Hu as (Hi & Hh & _). split; [done|].
    unfold olderThan in Ho. rewrite Hi in Ho. by bool_to_prop.
  - intros e en _ Hm0. by destruct (sq_fields e en) as (_ & _ & -> & _).
  - intros d en Hen. destruct (sq_fields d en) as (_ & _ & -> & _ & ->).
    destruct (mi_count _ HI d en Hen) as [H1 H2].
    assert (Hsub : (size (prods (mdu s) d ∩ dom H') <= size (prods (mdu s) d))%nat)
      by (apply subseteq_size; set_solver).
    split; [lia|]. intros [Es1 Es2]%orb_false_iff. specialize (H2 Es2).
    destruct (mi_inst _ _ HI _ _ Hen) as (i & Hi & _).
    destruct (decide (memDepHash (mdu s) !! seqNum i = Some d)) as [Hd|Hd].
    + rewrite (sq_prods _ _ Hd); [done|]. by apply (sq_live _ _ Hd).
    + assert (memDeps en = 0); [|lia]. apply (mi_done _ HI d); [done..|]. intros sn Hsn. apply Hd.
      by destruct (hash_inUnit _ _ _ en i HI Hsn) as [<- _].
  - intros sn d en Hh HN Hen. left. destruct (sq_fields d en) as (_ & _ & _ & _ & ->).
    destruct (sq d) eqn:E; [done|]. apply (sq_live _ _ Hh) in E.
    assert (H' !! sn = Some d) by (by apply HH). congruence.
  - intros d en _. destruct (sq_fields d en) as (_ & _ & _ & _ & ->). by intros [_ ?]%orb_false_iff.
  - intros q Hq. by apply elem_of_nil in Hq.
Qed.

Lemma squash_abs L' R' dp' LB' SB' :
  waiting (absMD (mkMDS (mkUnit H' (imap f (entries (mdu s))) L' R' dp' LB' SB') (mdmem s) (readied s ++ [])))
  = filter (fun kw => fst kw <= n) (waiting (absMD s)).
Proof.
  apply map_eq. intros sn. etransitivity.
  - apply (shrink_abs s f H' L' R' dp' LB' SB' []); [done|..].
    + intros j en. apply sq_fields.
    + intros sn' e He. by apply HH in He as [? _].
    + intros sn' e en [Hh Hn]%HH He. destruct (sq_fields e en) as (_ & Ed & _ & _ & Es). split; [done|].
      rewrite Es. by rewrite (proj2 (sq_live _ _ Hh)).
  - rewrite map_lookup_filter. unfold absMD. cbn [waiting]. rewrite lookup_omap.
    destruct (memDepHash (mdu s) !! sn) as [e|] eqn:Hh.
    2: { destruct (H' !! sn) as [e|] eqn:E; [|done]. apply HH in E as [? _]. congruence. }
    cbn [mbind option_bind]. destruct (hash_inst _ _ _ HI Hh) as (en & i & [He Hi] & _).
    unfold waiterOf. rewrite He. cbn [mbind option_bind]. rewrite Hi. cbn [mbind option_bind].
    destruct (decide (sn <= n)) as [Hn|Hn].
    + rewrite (proj2 (HH sn e)) by done. rewrite He. cbn [mbind option_bind]. rewrite Hi.
      cbn [mbind option_bind]. rewrite (sq_prods _ _ Hh Hn).
      destruct (sq_fields e en) as (_ & _ & _ & -> & _). by case_guard.
    + destruct (H' !! sn) as [e'|] eqn:E; [apply HH in E as [_ ?]; lia|]. by case_guard.
Qed.

End Squash.

Lemma mdSquash_ok s n : MDInv ok T s -> stepOK s (OSquash n).
Proof.
  intros HI. destruct (thread_keys s HI) as (K & HF & Hs & HK & HF2).
  destruct (dp_squash _ _ n (mi_pred _ _ _ HI)) as (dp & Edp & Hdp).
  set (R := filter (fun p => olderThan n (mdmem s) p = true) (instsToReplay (mdu s))).
  destruct (squashInsts_ok n (mdmem s) (reverse (mdInstList (mdu s) T)) (reverse K)
              (mdu s <| instsToReplay := R |>)) as (a & b & H & LB & SB & EK & Ha & Hb & E & HH & HLB & HSB).
  { by apply Forall2_reverse. }
  { apply StronglySorted_reverse. rewrite <- (list_fmap_id K). eapply StronglySorted_fmap; [|exact Hs].
    by intros x y [? _]. }
  { intros [sn e] Hk. rewrite elem_of_reverse in Hk. apply HK in Hk. split; [done|].
    destruct (hash_inst _ _ _ HI Hk) as (en & i & [He _] & _). cbn. eauto. }
  assert (Hab : forall sn e, memDepHash (mdu s) !! sn = Some e <-> (sn, e) ∈ a \/ (sn, e) ∈ b).
  { intros sn e. rewrite <- HK, <- elem_of_app, <- EK. by rewrite elem_of_reverse. }
  assert (HH' : forall sn e, H !! sn = Some e <-> memDepHash (mdu s) !! sn = Some e /\ sn <= n).
  { intros sn e. rewrite HH. cbn. case_decide as Hd.
    - apply list_elem_of_fmap in Hd as ([sn' e'] & -> & Hk). specialize (Ha _ Hk). cbn in *. split; [done|lia].
    - split; [|by intros [? _]]. intros Hh. split; [done|]. apply Hab in Hh as [Hk|Hk]; [|by apply (Hb _ Hk)].
      destruct Hd. apply list_elem_of_fmap. by exists (sn, e). }
  assert (Hsq : forall j, bool_decide (j ∈ snd <$> a) = true <-> exists sn, memDepHash (mdu s) !! sn = Some j /\ n < sn).
  { intros j. rewrite bool_decide_eq_true, list_elem_of_fmap. split.
    - intros ([sn e] & -> & Hk). exists sn. split; [apply Hab; by left|by apply (Ha _ Hk)].
    - intros (sn & [Hk|Hk]%Hab & Hn); [by exists (sn, j)|]. specialize (Hb _ Hk). cbn in Hb. lia. }
  assert (Hf : forall j en, squashEntry (snd <$> a) j en =
            if bool_decide (j ∈ snd <$> a) then en <| e_squashed := true |> else en).
  { intros. unfold squashEntry. repeat case_decide || case_bool_decide; done. }
  assert (Hbar : forall (S S' : gset Z), (forall x, x ∈ S -> is_Some (memDepHash (mdu s) !! x)) ->
            (forall x, x ∈ S' <-> x ∈ S /\ x ∉ fst <$> a) ->
            forall x, x ∈ S' <-> x ∈ S /\ is_Some (H !! x)).
  { intros S S' HS HS' x. rewrite HS', HH. cbn. case_decide; split; try done.
    - by intros [_ Hx].
    - by intros [_ [? ?]].
    - intros [Hx _]. split; [done|by apply HS].
    - by intros [Hx _]. }
  exists (mkMDS (mkUnit H (imap (squashEntry (snd <$> a)) (entries (mdu s)))
            (<[T := reverse (drop (length a) (reverse (mdInstList (mdu s) T)))]> (mdInstList (mdu s)))
            R dp LB SB) (mdmem s) (readied s ++ [])), [].
  split; [|split; [done|split; [|split; [|done]]]].
  - cbn [runMD]. unfold squash. rewrite (dropReplays_ok s n) by done. fold R. cbn [mbind res_bind].
    rewrite E. cbn [mbind res_bind depPred upd_field]. cbn [upd_field depPred eta_unit]. rewrite Edp.
    cbn. by rewrite app_nil_r.
  - apply (squash_inv s n _ _ (fun j => bool_decide (j ∈ snd <$> a))); try done.
    + exists (snd <$> reverse b).
      assert (EK' : K = reverse b ++ reverse a) by (by rewrite <- (reverse_involutive K), EK, reverse_app).
      split_and!.
      * eapply (StronglySorted_fmap _ (fun a b => fst a < fst b /\ (snd a < snd b)%nat)); [by intros x y [_ ?]|].
        rewrite EK' in Hs. by apply StronglySorted_app_1_l in Hs.
      * intros e. rewrite list_elem_of_fmap. setoid_rewrite elem_of_reverse. setoid_rewrite HH'. split.
        -- intros ([sn e'] & -> & Hk). exists sn. split; [apply Hab; by right|by apply (Hb _ Hk)].
        -- intros (sn & [Hk|Hk]%Hab & Hn); [specialize (Ha _ Hk); cbn in Ha; lia|]. by exists (sn, e).
      * cbn [mdInstList]. rewrite fn_lookup_insert. apply Forall2_fmap_r, Forall2_reverse.
        apply Forall2_reverse in HF2. rewrite EK in HF2. apply (Forall2_drop _ _ _ (length a)) in HF2.
        by rewrite drop_app_length in HF2.
    + apply Hbar; [|exact HLB]. intros x (e & Hh & _)%(mi_lb _ HI). eauto.
    + apply Hbar; [|exact HSB]. intros x (e & Hh & _)%(mi_sb _ HI). eauto.
    + intros p Hp%list_elem_of_filter. naive_solver.
  - unfold absMD at 1. cbn [mdu instsToReplay]. f_equal.
    apply (squash_abs s n _ _ (fun j => bool_decide (j ∈ snd <$> a))); done.
Qed.

(** What was handed over waits for nothing. *)
Lemma handed_free s p e en i : MDInv ok T s -> inUnit s p e en i -> p ∈ readied s -> memDeps en = 0.
Proof.
  intros HI (Hp & _ & He & Hpe) Hr. destruct (mi_ready _ HI p Hr) as (e' & en' & He' & Hp' & Hm0).
  assert (e' = e) as -> by (eapply entry_unique; eauto; congruence). congruence.
Qed.

Lemma allowed_enabled s op : MDInv ok T s -> allowedMD T s op -> enabledMD T s op.
Proof.
  intros HI. destruct op; try done; cbn.
  - intros ((e & en & i & Hu) & Hr). exists e, en, i. split; [done|by eapply handed_free].
  - intros ((e & en & i & Hu & Hr) & Hn). split; [|done]. exists e, en, i. split; [done|].
    intros Hm. eapply handed_free; eauto.
Qed.

Lemma runMD_ok s op : MDInv ok T s -> enabledMD T s op -> stepOK s op.
Proof.
  intros HI. destruct op.
  - by apply mdInsert_ok.
  - by apply insertNonSpec_ok.
  - by apply insertBarrier_ok.
  - by apply regsReady_ok.
  - by apply nonSpecReady_ok.
  - by apply reschedule_ok.
  - intros _. by apply replay_ok.
  - by apply complete_ok.
  - intros _. by apply mdSquash_ok.
  - by apply mdViolation_ok.
  - by apply mdIssue_ok.
Qed.

End Invariant.

(** ** Reachable states *)

Lemma init_inv c a b T m : 0 < a < 2 ^ 31 -> 0 < b < 2 ^ 31 ->
  MDInv predOK T (mkMDS (init c a b MemDepUnit_ctor) m []).
Proof.
  intros Ha Hb. assert (Hno : forall sn e P, ~ liveWith P (mkMDS (init c a b MemDepUnit_ctor) m []) sn e).
  { intros sn e P [Hh _]. change (memDepHash _) with (∅ : gmap Z nat) in Hh. by rewrite lookup_empty in Hh. }
  split; [split|split|split|..]; try (intros; done).
  - intros e e' en en' i i' [He _]. done.
  - exists []. split_and!; [constructor| |constructor]. intros e. split; [by intros ?%elem_of_nil|].
    intros [sn Hsn]. change (memDepHash _) with (∅ : gmap Z nat) in Hsn. by rewrite lookup_empty in Hsn.
  - intros e d Hd. by apply elem_of_nil in Hd.
  - intros e. constructor.
  - intros e en i [He _]. done.
  - intros e en i [He _]. done.
  - intros p Hp. by apply elem_of_nil in Hp.
  - intros sn. split; [by intros ?%elem_of_empty|]. intros [e He]. by apply Hno in He.
  - intros sn. split; [by intros ?%elem_of_empty|]. intros [e He]. by apply Hno in He.
  - intros b0 eb x ex Hl. by apply Hno in Hl.
  - intros b0 eb x ex Hl. by apply Hno in Hl.
  - intros p Hp. by apply elem_of_nil in Hp.
  - by apply dp_init.
Qed.

Lemma reachMD_inv c a b T s : 0 < a < 2 ^ 31 -> 0 < b < 2 ^ 31 -> reachMD c a b T s -> MDInv predOK T s.
Proof.
  intros Ha Hb. induction 1 as [m|s m' _ IH Hm|s op s' _ IH Ho Hr]; [by apply init_inv|by apply env_inv|].
  destruct (runMD_ok T s op IH (allowed_enabled _ _ _ IH Ho)) as (s2 & out & E & _ & HI & _). by simplify_eq.
Qed.

(** C31: In every reachable state every operation that the queue may call succeeds
    (no assertion fails and no loop runs on), and it does on the counters, lists of
    dependents and sets of barriers what the specification does on the sets of
    producers: exactly the instructions that wait for nothing any longer and whose
    registers are ready are handed to the queue. *)
Theorem memdep_refines c a b T s op :
  0 < a < 2 ^ 31 -> 0 < b < 2 ^ 31 -> reachMD c a b T s -> allowedMD T s op ->
  exists s' out, runMD T s op = Some (Ok s') /\ readied s' = readied s ++ out /\
    specStep (mdmem s) (depPred (mdu s)) op (absMD s) out (absMD s').
Proof.
  intros Ha Hb Hr Ho. apply (reachMD_inv _ _ _ _ _ Ha Hb) in Hr.
  destruct (runMD_ok T s op Hr (allowed_enabled _ _ _ Hr Ho)) as (s' & out & ? & ? & _ & ?). eauto.
Qed.

(** C32: Barriers order memory instructions: once a load that may be reordered has
    been handed over to the queue, no older load barrier is in flight, and no older
    store barrier once a store has been. *)
Theorem memdep_barriers c a b T s p e en i sn eb :
  0 < a < 2 ^ 31 -> 0 < b < 2 ^ 31 -> reachMD c a b T s -> inUnit s p e en i -> p ∈ readied s ->
  speculative i = true ->
  (isLoad i = true -> liveWith loadBar s sn eb -> seqNum i <= sn) /\
  (isLoad i = false -> isStore i = true -> liveWith storeBar s sn eb -> seqNum i <= sn).
Proof.
  intros Ha Hb Hr Hu Hp Hsp. apply (reachMD_inv _ _ _ _ _ Ha Hb) in Hr.
  destruct (inUnit_alive _ _ _ _ _ _ Hr Hu) as (_ & Hc & _). pose proof Hu as (Hi & Hh & He & Hpe).
  destruct (mi_ready _ Hr p Hp) as (e' & en' & He' & Hpe' & Hm0).
  assert (e' = e) as -> by (eapply entry_unique; eauto; congruence). assert (en' = en) as -> by congruence.
  rewrite Hm0 in Hc.
  assert (Hno : forall P b, liveWith P s sn b -> e ∉ deps (mdu s) b).
  { intros P b' [Hb' _] Hd. assert (Hin : sn ∈ prods (mdu s) e) by (apply elem_prods; eauto).
    assert (size (prods (mdu s) e) = 0%nat) as E0%size_empty_inv by lia. apply (E0 sn) in Hin.
    by apply elem_of_empty in Hin. }
  assert (Hlive : forall P : DynInst -> bool, P i = true -> liveWith P s (seqNum i) e).
  { intros P HP. split; [done|]. exists en, i. split; [|done]. split; [done|by rewrite Hpe]. }
  split.
  - intros Hld Hl. destruct (Z.le_gt_cases (seqNum i) sn) as [|Hlt]; [done|]. destruct (Hno _ _ Hl).
    eapply (mi_loads _ Hr); [done| |done]. apply Hlive. by rewrite Hsp, Hld.
  - intros Hld Hst Hl. destruct (Z.le_gt_cases (seqNum i) sn) as [|Hlt]; [done|]. destruct (Hno _ _ Hl).
    eapply (mi_stores _ Hr); [done| |done]. apply Hlive. by rewrite Hsp, Hld, Hst.
Qed.

(** ** Draining *)

(** A sequence of operations, each of them allowed where it is called. *)
Inductive runsMD (T : ThreadID) : MDS -> list MDOp -> MDS -> Prop :=
  | runsMD_nil s : runsMD T s [] s
  | runsMD_cons s op s1 ops s2 :
      allowedMD T s op -> runMD T s op = Some (Ok s1) -> runsMD T s1 ops s2 ->
      runsMD T s (op :: ops) s2.

Section Drain.
Context {ok : (Z -> Prop) -> StoreSet -> Prop} `{DP : !DepPredictor ok} (T : ThreadID).

(** The oldest instruction in flight waits for nothing. *)
Lemma oldest_free s : MDInv ok T s -> waiting (absMD s) <> ∅ ->
  exists p e en i, inUnit s p e en i /\ memDeps en = 0 /\ prods (mdu s) e = ∅.
Proof.
  intros HI Hne. apply map_choose in Hne as (sn & w & Hw).
  destruct (mi_list _ _ HI) as (L & Hs & HL & _).
  apply (abs_lookup T s _ _ HI) in Hw as (e0 & en0 & i0 & Hh0 & _).
  destruct L as [|e L]; [exfalso; by apply (elem_of_nil e0), HL; eauto|].
  destruct (proj1 (HL e)) as [sn' Hh]; [by left|].
  destruct (hash_inst T s _ _ HI Hh) as (en & i & Hei & Hi & _).
  destruct (hash_inUnit T s _ _ en i HI Hh Hei) as [_ Hu].
  assert (Hp : prods (mdu s) e = ∅).
  { apply leibniz_equiv, set_equiv. intros x. split; [|by intros ?%elem_of_empty]. intros (e' & Hh' & Hd)%elem_prods.
    destruct (mi_deps _ _ HI _ _ Hd) as [Hlt _].
    apply StronglySorted_inv in Hs as [_ Hs]. rewrite list_relations.list.Forall_forall in Hs.
    pose proof (proj2 (HL e') (ex_intro _ _ Hh')) as [|]%elem_of_cons; [lia|].
    assert (e < e')%nat by auto. lia. }
  exists (e_inst en), e, en, i. split_and!; try done.
  destruct (inUnit_alive T s _ _ _ _ HI Hu) as (_ & -> & _). by rewrite Hp.
Qed.

(** It can be handed over and completed. *)
Lemma complete_oldest s p e en i : MDInv ok T s -> instsToReplay (mdu s) = [] ->
  inUnit s p e en i -> memDeps en = 0 -> prods (mdu s) e = ∅ ->
  exists s', runsMD T s [ORegsReady p; OComplete p] s' /\ MDInv ok T s' /\ instsToReplay (mdu s') = [] /\
    size (waiting (absMD s)) = S (size (waiting (absMD s'))).
Proof.
  intros HI HR Hu Hm Hpr. destruct (inUnit_alive T s _ _ _ _ HI Hu) as (_ & _ & Ew).
  assert (Ho : allowedMD T s (ORegsReady p)) by (by exists e, en, i).
  destruct (runMD_ok T s _ HI (allowed_enabled _ _ _ HI Ho)) as (s1 & out1 & E1 & Er1 & HI1 & (j & w & Hj & Hw & HS1 & Hout1)).
  pose proof Hu as (Hi & _). assert (j = i) as -> by congruence. rewrite Ew in Hw. injection Hw as <-.
  cbn in Hout1. rewrite Hpr, bool_decide_eq_true_2 in Hout1 by done. subst out1.
  assert (HR1 : instsToReplay (mdu s1) = []) by (by rewrite <- HR; apply (f_equal replays) in HS1).
  assert (Hw1 : exists w, waiting (absMD s1) !! seqNum i = Some w /\ w_inst w = p).
  { rewrite HS1. cbn. rewrite lookup_insert_eq. eauto. }
  destruct Hw1 as (w1 & Hw1 & Hp1). apply (abs_lookup T s1 _ _ HI1) in Hw1 as (e1 & en1 & i1 & Hh1 & Hei1 & Ew1).
  destruct (hash_inUnit T s1 _ _ en1 i1 HI1 Hh1 Hei1) as [Hsn Hu1].
  assert (Hpe : e_inst en1 = p) by (by rewrite <- Hp1, Ew1). rewrite Hpe in Hu1.
  assert (Ho1 : allowedMD T s1 (OComplete p)).
  { split; [|by rewrite HR1; apply not_elem_of_nil]. exists e1, en1, i1. split; [done|]. intros _.
    rewrite Er1. apply elem_of_app. right. by apply list_elem_of_singleton. }
  destruct (runMD_ok T s1 _ HI1 (allowed_enabled _ _ _ HI1 Ho1)) as (s2 & out2 & E2 & Er2 & HI2 & (j & Hj2 & HS2 & _)).
  assert (j = i1) as -> by (destruct Hu1; congruence).
  exists s2. split_and!; [|done| |].
  - econstructor; [done|exact E1|]. econstructor; [done|exact E2|]. constructor.
  - rewrite <- HR1. by apply (f_equal replays) in HS2.
  - rewrite HS2, HS1. cbn [waiting]. rewrite Hsn. set (W := waiting (absMD s)) in *.
    rewrite map_size_delete, lookup_fmap, lookup_insert_eq. cbn [fmap option_fmap option_map].
    rewrite map_size_fmap, map_size_insert_Some by eauto.
    assert (size W <> 0)%nat; [|lia]. intros E0%map_size_empty_inv. by rewrite E0, lookup_empty in Ew.
Qed.

Lemma runsMD_app s1 ops1 s2 ops2 s3 :
  runsMD T s1 ops1 s2 -> runsMD T s2 ops2 s3 -> runsMD T s1 (ops1 ++ ops2) s3.
Proof. induction 1; intros; [done|]. cbn. econstructor; eauto. Qed.

Lemma drain_loop n s : MDInv ok T s -> instsToReplay (mdu s) = [] -> size (waiting (absMD s)) = n ->
  exists ps s', runsMD T s (ps ≫= fun p => [ORegsReady p; OComplete p]) s' /\ length ps = n /\
    MDInv ok T s' /\ instsToReplay (mdu s') = [] /\ waiting (absMD s') = ∅.
Proof.
  revert s. induction n as [|n IH]; intros s HI HR Hn.
  - apply map_size_empty_inv in Hn. exists [], s. split_and!; try done. constructor.
  - destruct (oldest_free s HI) as (p & e & en & i & Hu & Hm & Hp).
    { intros E. by rewrite E, map_size_empty in Hn. }
    destruct (complete_oldest s p e en i HI HR Hu Hm Hp) as (s1 & Hr & HI1 & HR1 & Hs1).
    destruct (IH s1 HI1 HR1) as (ps & s2 & Hr2 & Hl & HI2 & HR2 & Hs2); [lia|].
    exists (p :: ps), s2. split_and!; try done; [|by cbn; rewrite Hl].
    change (runsMD T s ([ORegsReady p; OComplete p] ++ (ps ≫= fun p => [ORegsReady p; OComplete p])) s2).
    by eapply runsMD_app.
Qed.

Lemma waiting_empty s : MDInv ok T s -> waiting (absMD s) = ∅ ->
  memDepHash (mdu s) = ∅ /\ mdInstList (mdu s) T = [].
Proof.
  intros HI HW. assert (Hh : memDepHash (mdu s) = ∅).
  { apply map_empty. intros sn. destruct (memDepHash (mdu s) !! sn) as [e|] eqn:E; [|done].
    destruct (proj2 (abs_some T s sn HI)) as [w Hw]; [by eauto|]. by rewrite HW, lookup_empty in Hw. }
  split; [done|]. destruct (mi_list _ _ HI) as (L & _ & HL & HF). destruct L as [|e L].
  - by apply Forall2_nil_inv_r in HF.
  - destruct (proj1 (HL e)) as [sn Hsn]; [by left|]. by rewrite Hh, lookup_empty in Hsn.
Qed.

End Drain.

(** C33: Waiting cannot deadlock: from every reachable state the unit drains when the
    replays are made and then the instructions become ready and complete, oldest first;
    every one of them is handed to the queue before it has to complete. *)
Theorem memdep_drains c a b T s :
  0 < a < 2 ^ 31 -> 0 < b < 2 ^ 31 -> reachMD c a b T s ->
  exists ps s', runsMD T s (OReplay :: (ps ≫= fun p => [ORegsReady p; OComplete p])) s' /\
    length ps = size (memDepHash (mdu s)) /\
    memDepHash (mdu s') = ∅ /\ mdInstList (mdu s') T = [] /\ instsToReplay (mdu s') = [].
Proof.
  intros Ha Hb Hr. apply (reachMD_inv _ _ _ _ _ Ha Hb) in Hr.
  destruct (runMD_ok T s OReplay Hr I) as (s1 & out & E & Er & HI1 & HS & _).
  destruct (drain_loop T (size (waiting (absMD s1))) s1 HI1) as (ps & s2 & Hr2 & Hl & HI2 & HR2 & HW); [|done|].
  { by apply (f_equal replays) in HS. }
  destruct (waiting_empty T s2 HI2 HW). exists ps, s2. split_and!; try done.
  - by econstructor.
  - rewrite Hl, HS. cbn [waiting]. rewrite <- !size_dom. f_equal. apply set_eq. intros sn.
    rewrite !elem_of_dom. apply (abs_some T s sn Hr).
Qed.

(** ** A run of the unit

    A barrier, a load behind it, and a younger barrier. *)
Definition sampleMDMem : InstMem :=
  let bar f := match f with IsReadBarrier | IsWriteBarrier => true | _ => false end in
  let ld f := match f with IsLoad => true | _ => false end in
  mkMem (<[1%positive := DynInst_ctor (mkStatic [] [] 0 bar) 64 1 0]>
        (<[2%positive := DynInst_ctor (mkStatic [] [] 0 ld) 68 2 0]>
        (<[3%positive := DynInst_ctor (mkStatic [] [] 0 bar) 72 3 0]> ∅))) ∅.

Definition nextMD (s : MDS) (op : MDOp) : MDS :=
  match runMD 0 s op with Some (Ok s') => s' | _ => s end.

Definition sampleMD0 : MDS := mkMDS (init 1000 16 16 MemDepUnit_ctor) sampleMDMem [].
Definition sampleMD1 : MDS := nextMD sampleMD0 (OInsertBarrier 1).
Definition sampleMD2 : MDS := nextMD sampleMD1 (OInsert 2).
Definition sampleMD3 : MDS := nextMD sampleMD2 (ORegsReady 2).
Definition sampleMD4 : MDS := nextMD sampleMD3 (OComplete 1).
Definition sampleMD5 : MDS := nextMD sampleMD4 (OInsertBarrier 3).

Lemma reach_next c a b s op s' : reachMD c a b 0 s -> allowedMD 0 s op ->
  (if runMD 0 s op is Some (Ok _) then True else False) -> s' = nextMD s op -> reachMD c a b 0 s'.
Proof.
  intros Hr Ho Hok ->. unfold nextMD. destruct (runMD 0 s op) as [[s'| |]|] eqn:E; try done.
  by eapply reachMD_step.
Qed.

Lemma fresh_by T s i : threadNumber i = T -> 0 < seqNum i ->
  forallb (fun en => match heap (mdmem s) !! e_inst en with
                     | Some i' => seqNum i' <? seqNum i | None => true end) (entries (mdu s)) = true ->
  fresh T s i.
Proof.
  intros Ht Hi Hall. split_and!; [done..|]. intros e en i' [He Hi'].
  assert (Hin : In en (entries (mdu s))) by (by eapply list_elem_of_In, list_elem_of_lookup_2).
  apply (proj1 (forallb_forall _ _) Hall) in Hin. rewrite Hi' in Hin. by bool_to_prop.
Qed.

Lemma sample_reach : reachMD 1000 16 16 0 sampleMD3 /\ reachMD 1000 16 16 0 sampleMD5.
Proof.
  assert (H0 : reachMD 1000 16 16 0 sampleMD0) by constructor.
  assert (H1 : reachMD 1000 16 16 0 sampleMD1).
  { apply (reach_next _ _ _ _ (OInsertBarrier 1) _ H0); [|vm_compute; exact I|reflexivity]. eexists. split; [vm_compute; reflexivity|].
    split; [apply fresh_by|]; vm_compute; done. }
  assert (H2 : reachMD 1000 16 16 0 sampleMD2).
  { apply (reach_next _ _ _ _ (OInsert 2) _ H1); [|vm_compute; exact I|reflexivity]. eexists. split; [vm_compute; reflexivity|].
    split; [apply fresh_by|]; vm_compute; done. }
  assert (H3 : reachMD 1000 16 16 0 sampleMD3).
  { apply (reach_next _ _ _ _ (ORegsReady 2) _ H2); [|vm_compute; exact I|reflexivity].
    exists 1%nat. do 2 eexists. split_and!; vm_compute; reflexivity. }
  split; [done|].
  assert (H4 : reachMD 1000 16 16 0 sampleMD4).
  { apply (reach_next _ _ _ _ (OComplete 1) _ H3); [|vm_compute; exact I|reflexivity]. split; [|vm_compute; inversion 1].
    exists 0%nat. do 2 eexists. split; [split_and!; vm_compute; reflexivity|vm_compute; done]. }
  apply (reach_next _ _ _ _ (OInsertBarrier 3) _ H4); [|vm_compute; exact I|reflexivity]. eexists. split; [vm_compute; reflexivity|].
  split; [apply fresh_by|]; vm_compute; done.
Qed.

Lemma memdep_refines_witness :
  readied sampleMD3 = [] /\ exists s' out, runMD 0 sampleMD3 (OComplete 1) = Some (Ok s') /\
    readied s' = readied sampleMD3 ++ out /\
    specStep (mdmem sampleMD3) (depPred (mdu sampleMD3)) (OComplete 1) (absMD sampleMD3) out (absMD s').
Proof.
  split; [vm_compute; reflexivity|]. apply (memdep_refines 1000 16 16); [lia..|apply sample_reach|].
  split; [|vm_compute; inversion 1].
  exists 0%nat. do 2 eexists. split; [split_and!; vm_compute; reflexivity|vm_compute; done].
Defined.

Lemma memdep_barriers_witness :
  readied sampleMD5 = [2%positive] /\ exists en i, inUnit sampleMD5 2 1 en i /\ seqNum i <= 3.
Proof.
  split; [vm_compute; reflexivity|]. do 2 eexists. split; [split_and!; vm_compute; reflexivity|].
  refine (proj1 (memdep_barriers 1000 16 16 0 sampleMD5 2 1 _ _ 3 2 _ _ (proj2 sample_reach) _ _ _) _ _).
  1-2: lia.
  - split_and!; vm_compute; reflexivity.
  - vm_compute. by left.
  - vm_compute. done.
  - vm_compute. done.
  - split; [vm_compute; reflexivity|]. do 2 eexists. split; [split; vm_compute; reflexivity|vm_compute; reflexivity].
Defined.

Lemma memdep_drains_witness :
  size (memDepHash (mdu sampleMD5)) = 2%nat /\
  exists ps s', runsMD 0 sampleMD5 (OReplay :: (ps ≫= fun p => [ORegsReady p; OComplete p])) s' /\
    length ps = 2%nat /\
    memDepHash (mdu s') = ∅ /\ mdInstList (mdu s') 0%nat = [] /\ instsToReplay (mdu s') = [].
Proof.
  split; [vm_compute; reflexivity|]. apply (memdep_drains 1000 16 16); [lia..|apply sample_reach].
Defined.
