(* ===== verification/InstQueueUnit.v ===== *)
(** * The memory dependence units as the instruction queue sees them

    What a call of a unit gives the queue: it succeeds, the unit stays correct and
    does what its specification does, what it hands over waits for nothing, and
    what waited for nothing before still does. *)

From stdpp Require Import base numbers list gmap functions sorting.
From S2P Require Import Prelude Regs DynInst StoreSet MemDep MemDepSpec MemDepProps.

#[local] Open Scope Z_scope.

(** ** What was handed over before does not matter to a call *)

Definition addLog (L : list InstPtr) (s : MDS) : MDS := s <| readied := L ++ readied s |>.

Definition logged (L : list InstPtr) (f : MDS -> res MDS) : Prop :=
  forall s, f (addLog L s) = (s' ← f s; Ok (addLog L s')).

Lemma moveToReady_log L e : logged L (moveToReady e).
Proof.
  intros s. unfold moveToReady. cbn. destruct (entries _ !! e) as [en|]; [|done]. cbn.
  destruct (e_squashed en); [done|]. cbn. unfold addLog. cbn. by rewrite app_assoc.
Qed.

Lemma foldR_log {A} L (f : MDS -> A -> res MDS) l : (forall x, logged L (fun s => f s x)) ->
  logged L (fun s => foldR f s l).
Proof.
  intros Hf. induction l as [|x l IH]; intros s; cbn [foldR]; [done|]. rewrite (Hf x s).
  destruct (f s x) as [s1| |]; cbn [mbind res_bind]; [|done..]. apply IH.
Qed.

Lemma attach_log L p i e l : logged L (attach p i e l).
Proof.
  intros s. unfold attach. destruct l as [|x l].
  - cbn. destruct (entries _ !! e) as [en|]; [|done]. cbn. destruct (memDeps en =? 0); [|done]. cbn.
    destruct (readyToIssue i); [|done]. destruct (updEntry e _ _) as [u| |]; [|done..]. cbn [mbind res_bind].
    exact (moveToReady_log L e (mkMDS u (mdmem s) (readied s))).
  - cbn. destruct (readyToIssue i); [destruct (updEntry e _ _) as [u| |]; [|done..]|]; cbn;
      (destruct (updInst _ _ _) as [m| |]; [|done..]); cbn;
      (destruct (updEntry x _ _) as [u1| |]; [|done..]); cbn;
      (destruct (foldR _ _ l) as [u2| |]; [|done..]); cbn; (destruct (updEntry e _ _) as [u3| |]; [|done..]); done.
Qed.

Lemma predictorInsert_log L i : logged L (predictorInsert i).
Proof. intros s. unfold predictorInsert. cbn. repeat (case_match; try done). all: cbn; by destruct (insertStore _ _ _). Qed.

Lemma findInHash_log L p s : findInHash p (addLog L s) = findInHash p s.
Proof. done. Qed.

Lemma insert_log L p : logged L (insert p).
Proof.
  intros s. unfold insert. change (mdmem (addLog L s)) with (mdmem s). change (mdu (addLog L s)) with (mdu s).
  destruct (getInst p (mdmem s)) as [i| |]; [|done..]. cbn [mbind res_bind].
  destruct (newEntry p i (mdu s)) as [u e]. destruct (producingStores i u) as [ps| |]; [|done..]. cbn [mbind res_bind].
  change (addLog L s <| mdu := u |>) with (addLog L (s <| mdu := u |>)). rewrite attach_log.
  destruct (attach p i e _ _) as [s1| |]; [|done..]. cbn [mbind res_bind].
  exact (predictorInsert_log L i (mkMDS (insertBarrierSN i (mdu s1)) (mdmem s1) (readied s1))).
Qed.

Lemma insertBarrier_log L p : logged L (insertBarrier p).
Proof. intros s. unfold insertBarrier. cbn. by destruct (getInst _ _) as [i| |]. Qed.

Lemma insertNonSpec_log L p : logged L (insertNonSpec p).
Proof.
  intros s. unfold insertNonSpec. rewrite insertBarrier_log. destruct (insertBarrier p s) as [s1| |]; [|done..].
  cbn [mbind res_bind]. change (mdmem (addLog L s1)) with (mdmem s1). destruct (getInst _ _) as [i| |]; [|done..].
  apply predictorInsert_log.
Qed.

Lemma regsReady_log L p : logged L (regsReady p).
Proof.
  intros s. unfold regsReady. rewrite findInHash_log. destruct (findInHash p s) as [e| |]; [|done..]. cbn.
  destruct (updEntry e _ _) as [u| |]; [|done..]. cbn. destruct (entries u !! e) as [en|]; [|done]. cbn.
  destruct (memDeps en =? 0); [|done]. exact (moveToReady_log L e (mkMDS u (mdmem s) (readied s))).
Qed.

Lemma nonSpecInstReady_log L p : logged L (nonSpecInstReady p).
Proof.
  intros s. unfold nonSpecInstReady. rewrite findInHash_log. destruct (findInHash p s) as [e| |]; [|done..].
  apply moveToReady_log.
Qed.

Lemma replay_log L : logged L replay.
Proof.
  intros s. unfold replay. change (mdu (addLog L s)) with (mdu s). apply (foldR_log L replayOne). clear s.
  intros p s. unfold replayOne. rewrite findInHash_log. destruct (findInHash p s) as [e| |]; [|done..].
  cbn [mbind res_bind]. rewrite moveToReady_log. by destruct (moveToReady e s) as [s1| |].
Qed.

Lemma wakeOne_log L e : logged L (fun s => wakeOne s e).
Proof.
  intros s. unfold wakeOne. change (mdu (addLog L s)) with (mdu s). destruct (entries (mdu s) !! e) as [en|]; [|done].
  cbn [deref mbind res_bind]. destruct (0 <? memDeps en); [|done]. cbn [assertR mbind res_bind].
  destruct (updEntry e _ _) as [u| |]; [|done..]. cbn [mbind res_bind].
  destruct (_ && negb (e_squashed _)); [|done]. exact (moveToReady_log L e (mkMDS u (mdmem s) (readied s))).
Qed.

Lemma completeInst_log L p : logged L (completeInst p).
Proof.
  intros s. unfold completeInst.
  assert (E : MemDep.wakeDependents p (addLog L s) = (s' ← MemDep.wakeDependents p s; Ok (addLog L s'))).
  { unfold MemDep.wakeDependents. rewrite findInHash_log. change (mdmem (addLog L s)) with (mdmem s).
    change (mdu (addLog L s)) with (mdu s). destruct (getInst _ _) as [i| |]; [|done..]. cbn [mbind res_bind].
    case_match; [done|]. destruct (findInHash p s) as [e| |]; [|done..]. cbn [mbind res_bind].
    destruct (entries (mdu s) !! e) as [en|]; [|done]. cbn [deref mbind res_bind].
    rewrite (foldR_log L wakeOne _ (wakeOne_log L)). destruct (foldR wakeOne s _) as [s1| |]; [|done..].
    cbn [mbind res_bind]. change (mdu (addLog L s1)) with (mdu s1). by destruct (updEntry e _ _). }
  rewrite E. clear E. destruct (MemDep.wakeDependents p s) as [s1| |]; [|done..]. cbn [mbind res_bind].
  assert (E : completed p (addLog L s1) = (s' ← completed p s1; Ok (addLog L s'))).
  { unfold completed. cbn. destruct (getInst _ _) as [i| |]; [|done..]. cbn. destruct (memDepHash _ !! _) as [e|]; [|done].
    destruct (entries _ !! e) as [en|]; [|done]. cbn. by destruct (eraseNode _ _). }
  rewrite E. clear E. destruct (completed p s1) as [s2| |]; [|done..]. cbn [mbind res_bind].
  change (mdmem (addLog L s2)) with (mdmem s2). change (mdu (addLog L s2)) with (mdu s2).
  destruct (getInst _ _) as [i| |]; [|done..]. cbn [mbind res_bind].
  match goal with |- context [@mbind res _ _ _ _ ?x] => by destruct x as [u| |]; [cbn [mbind res_bind]; match goal with |- context [@mbind res _ _ _ _ ?y] => destruct y end|..] end.
Qed.

Lemma squash_log L n T s : squash n T (addLog L s) =
  (r ← squash n T s; Some (s' ← r; Ok (addLog L s'))).
Proof.
  unfold squash. change (mdmem (addLog L s)) with (mdmem s). change (mdu (addLog L s)) with (mdu s).
  match goal with |- context [match ?x with Ok _ => _ | Panic => _ | Undef => _ end] => destruct x as [u| |] end; [|done..].
  destruct (StoreSet.squash _ _ _) as [r|]; [|done]. cbn. by destruct r.
Qed.

(** The log of a run is what it had before and what it is without that. *)
Lemma runMD_log T L s op : runMD T (addLog L s) op = (r ← runMD T s op; Some (s' ← r; Ok (addLog L s'))).
Proof.
  destruct op; cbn [runMD mbind option_bind].
  - f_equal. apply insert_log.
  - f_equal. apply insertNonSpec_log.
  - f_equal. apply insertBarrier_log.
  - f_equal. apply regsReady_log.
  - f_equal. apply nonSpecInstReady_log.
  - done.
  - f_equal. apply replay_log.
  - f_equal. apply completeInst_log.
  - apply squash_log.
  - f_equal. unfold violation. cbn. destruct (getInst st _); [|done..]. cbn. destruct (getInst ld _); [|done..]. cbn.
    by destruct (StoreSet.violation _ _ _).
  - f_equal. unfold issue. cbn. destruct (getInst p _); [|done..]. cbn. by destruct (issued _ _ _ _).
Qed.

(** ** A call *)

(** [p] has an entry that waits for nothing. *)
Definition free (u : MemDepUnit) (p : InstPtr) : Prop :=
  exists e en, entries u !! e = Some en /\ e_inst en = p /\ memDeps en = 0.

Lemma MDInv_log T s L : MDInv predOK T s -> (forall p, p ∈ L -> free (mdu s) p) ->
  MDInv predOK T (mkMDS (mdu s) (mdmem s) L).
Proof.
  intros HI HL. split; [split|split|split|..]; try (apply HI).
  exact HL.
Qed.

(** Only [insert] changes an instruction, and only whether it can issue. *)
Definition memStep (op : MDOp) (m m' : InstMem) : Prop :=
  m' = m \/ exists p i, op = OInsert p /\ heap m !! p = Some i /\
    m' = m <| heap := <[p := setStatus CanIssue false i]> (heap m) |>.

Lemma attach_mem p i e l s s' : attach p i e l s = Ok s' -> mdmem s' = mdmem s \/
  exists i, heap (mdmem s) !! p = Some i /\
    mdmem s' = mdmem s <| heap := <[p := setStatus CanIssue false i]> (heap (mdmem s)) |>.
Proof.
  unfold attach. destruct l as [|x l]; intros H.
  - left. unfold moveToReady in H. inv_ok. case_tests; inv_ok; done.
  - right. unfold updInst, getInst in H. inv_ok. simplify_eq. by eexists.
Qed.

Lemma foldR_mem {A} (f : MDS -> A -> res MDS) l :
  (forall s x s', f s x = Ok s' -> mdmem s' = mdmem s) ->
  forall s s', foldR f s l = Ok s' -> mdmem s' = mdmem s.
Proof.
  intros Hf. induction l as [|x l IH]; intros s s' H; cbn [foldR] in H; [by simplify_eq|].
  destruct (f s x) as [s1| |] eqn:E; cbn [mbind res_bind] in H; [|done..]. rewrite (IH _ _ H). by apply (Hf _ x).
Qed.

Lemma moveToReady_mem e s s' : moveToReady e s = Ok s' -> mdmem s' = mdmem s.
Proof. unfold moveToReady. intros H. inv_ok. done. Qed.

Lemma wakeOne_mem s e s' : wakeOne s e = Ok s' -> mdmem s' = mdmem s.
Proof. unfold wakeOne. intros H. inv_ok. case_tests; inv_ok; [|done]. by apply moveToReady_mem in H. Qed.

Lemma completeInst_mem p s s' : completeInst p s = Ok s' -> mdmem s' = mdmem s.
Proof.
  unfold completeInst. intros H. inv_ok. cbn. transitivity (mdmem a).
  - unfold completed in Heqr0. inv_ok. destruct (memDepHash _ !! _); inv_ok. done.
  - revert Heqr. clear. intros Heqr. unfold MemDep.wakeDependents in Heqr. inv_ok. case_tests; inv_ok; [done|]. cbn.
    by eapply (foldR_mem wakeOne); [apply wakeOne_mem|].
Qed.

Lemma predictorInsert_mem i s s' : predictorInsert i s = Ok s' -> mdmem s' = mdmem s.
Proof. unfold predictorInsert. intros H. case_tests; inv_ok; done. Qed.

Lemma insert_mem p s s' : insert p s = Ok s' -> memStep (OInsert p) (mdmem s) (mdmem s').
Proof.
  unfold insert. intros H. inv_ok. destruct (newEntry p a (mdu s)) as [u e]. inv_ok.
  assert (mdmem s' = mdmem a1) as -> by exact (predictorInsert_mem _ _ _ H).
  apply attach_mem in Heqr1 as [->|(i & Hi & ->)]; [by left|]. right. by exists p, i.
Qed.

Lemma runMD_mem T s op s' : runMD T s op = Some (Ok s') -> memStep op (mdmem s) (mdmem s').
Proof.
  destruct op; cbn [runMD]; intros H; try (injection H as H).
  - by apply insert_mem.
  - left. unfold insertNonSpec, insertBarrier in H. inv_ok. destruct (newEntry _ _ _). inv_ok.
    exact (predictorInsert_mem _ _ _ H).
  - left. unfold insertBarrier in H. inv_ok. destruct (newEntry _ _ _). inv_ok. done.
  - left. unfold regsReady in H. inv_ok. case_tests; inv_ok; [|done]. by apply moveToReady_mem in H.
  - left. unfold nonSpecInstReady in H. inv_ok. by apply moveToReady_mem in H.
  - left. by subst s'.
  - left. revert H. apply (foldR_mem replayOne). intros s1 p s2 H. unfold replayOne in H. inv_ok.
    by apply moveToReady_mem in Heqr0.
  - left. by apply completeInst_mem in H.
  - left. unfold squash in H. repeat case_match; simplify_eq. inv_ok. done.
  - left. unfold violation in H. inv_ok. done.
  - left. unfold issue in H. inv_ok. done.
Qed.

Lemma memStep_extends op m m' : memStep op m m' -> extends m m'.
Proof.
  intros [->|(p & i & _ & Hp & ->)]; [apply extends_refl|]. intros q j Hq. cbn.
  destruct (decide (q = p)) as [->|Hne].
  - rewrite lookup_insert_eq. simplify_eq. eexists. split; [done|apply setStatus_sameInst].
  - rewrite lookup_insert_ne by done. eauto using sameInst_refl.
Qed.

(** What a call does, for the unit of thread [T] and with no call before it. *)
Lemma unit_step T u m op :
  MDInv predOK T (mkMDS u m []) -> enabledMD T (mkMDS u m []) op ->
  exists u' m' out, runMD T (mkMDS u m []) op = Some (Ok (mkMDS u' m' out)) /\
    MDInv predOK T (mkMDS u' m' []) /\ memStep op m m' /\
    (forall p, p ∈ out \/ free u p -> free u' p) /\
    specStep m (depPred u) op (absMD (mkMDS u m [])) out (absMD (mkMDS u' m' [])).
Proof.
  intros HI Ho. destruct (runMD_ok T _ op HI Ho) as ([u' m' l] & out & E & El & HI' & HS). cbn in El. subst l.
  exists u', m', out. split; [done|]. split; [apply (MDInv_log T _ [] HI'); by intros p ?%elem_of_nil|].
  split; [apply (runMD_mem _ _ _ _ E)|]. split; [|done].
  intros p [Hp|Hp]; [apply (mi_ready _ HI' p Hp)|].
  assert (HL : MDInv predOK T (mkMDS u m [p])).
  { apply (MDInv_log T _ [p] HI). by intros q ->%list_elem_of_singleton. }
  assert (Ho' : enabledMD T (mkMDS u m [p]) op).
  { destruct op; try exact Ho. }
  destruct (runMD_ok T _ op HL Ho') as (s2 & out2 & E2 & El2 & HI2 & _).
  pose proof (runMD_log T [p] (mkMDS u m []) op) as EL. rewrite E in EL. cbn [mbind option_bind res_bind] in EL.
  assert (Es : s2 = mkMDS u' m' (p :: out)).
  { change (addLog [p] (mkMDS u m [])) with (mkMDS u m [p]) in EL. rewrite E2 in EL. by injection EL as ->. }
  subst s2. apply (mi_ready _ HI2 p). by left.
Qed.
