(* ===== verification/DepGraph.v ===== *)
(** * The register dependency graph of the instruction queue

    [src/src/cpu/o3/dep_graph.hh].  One linked list per physical register: the
    head node holds the instruction that produces the register, the nodes behind
    it the instructions that wait for it, the newest first.  An index outside
    the array is undefined.  The counters [nodesTraversed] and [nodesRemoved],
    which are only printed, are left out. *)

From stdpp Require Import base numbers list.
From S2P Require Import Prelude DynInst.

#[local] Open Scope Z_scope.

(** The head node, with the instructions of the nodes behind it. *)
Record DepEntry := mkDep { producer : option InstPtr; consumers : list InstPtr }.

#[export] Instance eta_dep : Eta DepEntry := fun d => mkDep (producer d) (consumers d).

Record DependencyGraph := mkGraph {
  graph : list DepEntry;
  graphEntries : nat;            (* [numEntries] *)
  memAllocCounter : Z            (* unsigned *)
}.

#[export] Instance eta_graph : Eta DependencyGraph := fun g =>
  mkGraph (graph g) (graphEntries g) (memAllocCounter g).

Definition DependencyGraph_ctor : DependencyGraph := mkGraph [] 0 0.

Definition resize (num_entries : nat) (g : DependencyGraph) : DependencyGraph :=
  g <| graphEntries := num_entries |> <| graph := list.resize num_entries (mkDep None []) (graph g) |>.

(** The array element at [idx], and a change of it. *)
Definition depAt (idx : Z) (g : DependencyGraph) : res DepEntry := deref (graph g !! Z.to_nat idx).

Definition updDep (idx : Z) (f : DepEntry -> DepEntry) (g : DependencyGraph) : res DependencyGraph :=
  d ← depAt idx g;
  Ok (g <| graph := <[Z.to_nat idx := f d]> (graph g) |>).

(** The body of the loop of [reset]: the list behind head [i] is deleted. *)
Definition resetDep (g : DependencyGraph) (i : nat) : res DependencyGraph :=
  d ← depAt (Z.of_nat i) g;
  let g := g <| memAllocCounter := u32 (memAllocCounter g - Z.of_nat (length (consumers d))) |> in
  updDep (Z.of_nat i) (fun _ => mkDep None []) g.

Definition reset (g : DependencyGraph) : res DependencyGraph :=
  foldR resetDep g (seq 0 (graphEntries g)).

Definition insert (idx : Z) (new_inst : InstPtr) (g : DependencyGraph) : res DependencyGraph :=
  g ← updDep idx (fun d => d <| consumers := new_inst :: consumers d |>) g;
  Ok (g <| memAllocCounter := u32 (memAllocCounter g + 1) |>).

Definition setInst (idx : Z) (new_inst : InstPtr) : DependencyGraph -> res DependencyGraph :=
  updDep idx (fun d => d <| producer := Some new_inst |>).

Definition clearInst (idx : Z) : DependencyGraph -> res DependencyGraph :=
  updDep idx (fun d => d <| producer := None |>).

(** The search of [remove]: the first node with the instruction is unlinked; at
    the end of the list the assertion fails. *)
Fixpoint unlink (inst_to_remove : InstPtr) (l : list InstPtr) : res (list InstPtr) :=
  match l with
  | [] => Panic
  | p :: l =>
      if decide (p = inst_to_remove) then Ok l
      else l ← unlink inst_to_remove l; Ok (p :: l)
  end.

Definition remove (idx : Z) (inst_to_remove : InstPtr) (g : DependencyGraph) : res DependencyGraph :=
  d ← depAt idx g;
  if decide (consumers d = []) then Ok g else
  l ← unlink inst_to_remove (consumers d);
  g ← updDep idx (fun d => d <| consumers := l |>) g;
  Ok (g <| memAllocCounter := u32 (memAllocCounter g - 1) |>).

Definition pop (idx : Z) (g : DependencyGraph) : res (option InstPtr * DependencyGraph) :=
  d ← depAt idx g;
  match consumers d with
  | [] => Ok (None, g)
  | p :: l =>
      g ← updDep idx (fun d => d <| consumers := l |>) g;
      Ok (Some p, g <| memAllocCounter := u32 (memAllocCounter g - 1) |>)
  end.

(** [empty(idx)] and [empty()]. *)
Definition emptyAt (idx : Z) (g : DependencyGraph) : res bool :=
  d ← depAt idx g; Ok (bool_decide (consumers d = [])).

Fixpoint emptyFrom (i n : nat) (g : DependencyGraph) : res bool :=
  match n with
  | O => Ok true
  | S n => b ← emptyAt (Z.of_nat i) g; if negb b then Ok false else emptyFrom (S i) n g
  end.

Definition empty (g : DependencyGraph) : res bool := emptyFrom 0 (graphEntries g) g.
