(* ===== verification/ReadyList.v ===== *)
(** * The ready queues of the instruction queue and their age order

    The part of [src/src/cpu/o3/inst_queue.cc] that keeps the ready instructions:
    one priority queue per operation class, and the list of the classes ordered
    by the age of their oldest ready instruction.

    A priority queue is the list of its elements in the order in which they are
    popped.  The elements of a [std::list] are nodes with an identity of their
    own; an iterator is the identity of its node, [None] is [end()], and using
    one whose node has left the list is undefined. *)

From stdpp Require Import base numbers list gmap functions sorting.
From S2P Require Import Prelude DynInst FUPool.

#[local] Open Scope Z_scope.

(** [Num_OpClasses] and [No_OpClass] of the enumeration in [FuncUnit.py]. *)
Definition Num_OpClasses : nat := 77.
Definition No_OpClass : OpClass := 0%nat.

(** [DynInst::opClass]. *)
Definition instOpClass (i : DynInst) : OpClass := si_opClass (staticInst i).

Record ListOrderEntry := mkOrder { queueType : OpClass; oldestInst : Z }.

Record ReadyLists := mkReady {
  readyInsts : OpClass -> list InstPtr;
  listOrder : list (nat * ListOrderEntry);       (* node, entry *)
  queueOnList : OpClass -> bool;
  readyIt : OpClass -> option nat;
  nextNode : nat                                 (* the next new node *)
}.

#[export] Instance eta_ready : Eta ReadyLists := fun r =>
  mkReady (readyInsts r) (listOrder r) (queueOnList r) (readyIt r) (nextNode r).

(** The sequence number by which [PqCompare] orders. *)
Definition seqOf (m : InstMem) (p : InstPtr) : Z :=
  match heap m !! p with Some i => seqNum i | None => 0 end.

(** [PqCompare]: the older instruction has the higher priority. *)
Definition PqCompare (m : InstMem) (lhs rhs : InstPtr) : bool := seqOf m rhs <? seqOf m lhs.

Fixpoint pqPush (m : InstMem) (p : InstPtr) (l : list InstPtr) : list InstPtr :=
  match l with
  | [] => [p]
  | q :: l' => if PqCompare m q p then p :: l else q :: pqPush m p l'
  end.

(** ** The age order *)

(** The position that the loop of [addToOrderList] finds. *)
Fixpoint orderInsert (e : nat * ListOrderEntry) (l : list (nat * ListOrderEntry))
    : list (nat * ListOrderEntry) :=
  match l with
  | [] => [e]
  | f :: l' => if oldestInst (snd e) <? oldestInst (snd f) then e :: l else f :: orderInsert e l'
  end.

Definition addToOrderList (m : InstMem) (op_class : OpClass) (r : ReadyLists) : res ReadyLists :=
  match readyInsts r op_class with
  | [] => Panic
  | top :: _ =>
      i ← getInst top m;
      let queue_entry := mkOrder op_class (seqNum i) in
      Ok (r <| listOrder := orderInsert (nextNode r, queue_entry) (listOrder r) |>
            <| readyIt := <[op_class := Some (nextNode r)]> (readyIt r) |>
            <| queueOnList := <[op_class := true]> (queueOnList r) |>
            <| nextNode := S (nextNode r) |>)
  end.

(** The same for the loop of [moveToYoungerInst], over what is behind the
    iterator. *)
Fixpoint orderInsertYounger (e : nat * ListOrderEntry) (l : list (nat * ListOrderEntry))
    : list (nat * ListOrderEntry) :=
  match l with
  | [] => [e]
  | f :: l' => if oldestInst (snd f) <? oldestInst (snd e) then f :: orderInsertYounger e l' else e :: l
  end.

(** The iterator is the split of the list: [before] it, its entry, [behind] it. *)
Definition moveToYoungerInst (m : InstMem) (before : list (nat * ListOrderEntry))
    (it : nat * ListOrderEntry) (behind : list (nat * ListOrderEntry)) (r : ReadyLists)
    : res (list (nat * ListOrderEntry) * ReadyLists) :=
  let op_class := queueType (snd it) in
  top ← deref (head (readyInsts r op_class));
  i ← getInst top m;
  let behind := orderInsertYounger (nextNode r, mkOrder op_class (seqNum i)) behind in
  Ok (behind, r <| listOrder := before ++ it :: behind |>
                <| readyIt := <[op_class := Some (nextNode r)]> (readyIt r) |>
                <| nextNode := S (nextNode r) |>).

(** [listOrder.erase(it)] and reading through an iterator. *)
Fixpoint eraseOrder (it : nat) (l : list (nat * ListOrderEntry)) : res (list (nat * ListOrderEntry)) :=
  match l with
  | [] => Undef
  | e :: l => if decide (fst e = it) then Ok l else l ← eraseOrder it l; Ok (e :: l)
  end.

Fixpoint orderAt (it : nat) (l : list (nat * ListOrderEntry)) : res ListOrderEntry :=
  match l with
  | [] => Undef
  | e :: l => if decide (fst e = it) then Ok (snd e) else orderAt it l
  end.

(** ** Ready instructions *)

(** [addReadyMemInst], which is also the end of [addIfReady]. *)
Definition pushReady (m : InstMem) (ready_inst : InstPtr) (r : ReadyLists) : res ReadyLists :=
  i ← getInst ready_inst m;
  let op_class := instOpClass i in
  let r := r <| readyInsts := <[op_class := pqPush m ready_inst (readyInsts r op_class)]> (readyInsts r) |> in
  if negb (queueOnList r op_class) then addToOrderList m op_class r
  else
    top ← deref (head (readyInsts r op_class));
    t ← getInst top m;
    it ← deref (readyIt r op_class);
    e ← orderAt it (listOrder r);
    if seqNum t <? oldestInst e then
      l ← eraseOrder it (listOrder r);
      addToOrderList m op_class (r <| listOrder := l |>)
    else Ok r.

(** The oldest instruction of the class of entry [it] has left its queue: the
    class moves to the place of its next instruction, or off the list.  The
    result is what is behind [it] before [it] is erased. *)
Definition popReady (m : InstMem) (before : list (nat * ListOrderEntry)) (it : nat * ListOrderEntry)
    (behind : list (nat * ListOrderEntry)) (r : ReadyLists)
    : res (list (nat * ListOrderEntry) * ReadyLists) :=
  let op_class := queueType (snd it) in
  let r := r <| readyInsts := <[op_class := tail (readyInsts r op_class)]> (readyInsts r) |> in
  if negb (bool_decide (readyInsts r op_class = [])) then moveToYoungerInst m before it behind r
  else Ok (behind, r <| readyIt := <[op_class := None]> (readyIt r) |>
                     <| queueOnList := <[op_class := false]> (queueOnList r) |>).

(** [hasReadyInsts]. *)
Definition hasReadyInsts (r : ReadyLists) : bool :=
  negb (bool_decide (listOrder r = [])) ||
  existsb (fun i => negb (bool_decide (readyInsts r i = []))) (seq 0 Num_OpClasses).

(** The part of [resetState] that is about the ready queues. *)
Definition resetReady (r : ReadyLists) : ReadyLists :=
  mkReady (fun _ => []) [] (fun _ => false) (fun _ => None) (nextNode r).

Definition ReadyLists_ctor : ReadyLists := resetReady (mkReady (fun _ => []) [] (fun _ => false) (fun _ => None) 0).

(** ** The invariant *)

Abbreviation older := (fun a b : nat * ListOrderEntry => oldestInst (snd a) <= oldestInst (snd b)).

(** Each class with ready instructions has one entry on the age list, with the
    sequence number of its oldest one, and the entries are ordered by age. *)
Record RLInv (m : InstMem) (r : ReadyLists) : Prop := {
  rl_heap : forall c p, p ∈ readyInsts r c -> exists i, heap m !! p = Some i /\ instOpClass i = c;
  rl_queue : forall c, StronglySorted (fun p q => seqOf m p <= seqOf m q) (readyInsts r c);
  rl_order : StronglySorted older (listOrder r);
  rl_nodes : NoDup (fst <$> listOrder r);
  rl_next : forall n e, (n, e) ∈ listOrder r -> (n < nextNode r)%nat;
  rl_top : forall n e, (n, e) ∈ listOrder r ->
    exists p l, readyInsts r (queueType e) = p :: l /\ oldestInst e = seqOf m p;
  rl_it : forall c n, readyIt r c = Some n <-> exists e, (n, e) ∈ listOrder r /\ queueType e = c;
  rl_on : forall c, queueOnList r c = negb (bool_decide (readyInsts r c = []));
  rl_all : forall c, readyInsts r c <> [] -> is_Some (readyIt r c)
}.

Lemma resetReady_inv m r : RLInv m (resetReady r).
Proof.
  split; cbn.
  - intros c p Hp. by apply elem_of_nil in Hp.
  - constructor.
  - constructor.
  - constructor.
  - intros n e Hn. by apply elem_of_nil in Hn.
  - intros n e Hn. by apply elem_of_nil in Hn.
  - intros c n. split; [done|]. intros (e & He & _). by apply elem_of_nil in He.
  - done.
  - done.
Qed.

(** Instructions may change, as long as they keep their identity. *)
Lemma seqOf_extends m m' p i : extends m m' -> heap m !! p = Some i -> seqOf m' p = seqOf m p.
Proof.
  intros Hm Hp. destruct (Hm _ _ Hp) as (i' & Hp' & Hs & _). unfold seqOf. by rewrite Hp, Hp'.
Qed.

Lemma RLInv_extends m m' r : extends m m' -> RLInv m r -> RLInv m' r.
Proof.
  intros Hm HI. assert (Hsq : forall c p, p ∈ readyInsts r c -> seqOf m' p = seqOf m p).
  { intros c p (i & Hi & _)%(rl_heap _ _ HI). by eapply seqOf_extends. }
  split; try apply HI.
  - intros c p (i & Hi & Hc)%(rl_heap _ _ HI). destruct (Hm _ _ Hi) as (i' & Hi' & _ & _ & Hs & _).
    exists i'. split; [done|]. unfold instOpClass in *. by rewrite Hs.
  - intros c. pose proof (rl_queue _ _ HI c) as Hq. specialize (Hsq c). induction Hq as [|p l Hq IH Hp]; constructor.
    + apply IH. intros q Hqin. apply Hsq. by right.
    + rewrite Forall_forall in Hp |- *. intros q Hqin. rewrite !Hsq by (by left || by right). by apply Hp.
  - intros n e Hn. destruct (rl_top _ _ HI n e Hn) as (p & l & Hp & Ho). exists p, l. split; [done|].
    rewrite Ho. symmetry. apply (Hsq (queueType e)). rewrite Hp. by left.
Qed.

(** ** Priority queues *)

Lemma pqPush_perm m p l : pqPush m p l ≡ₚ p :: l.
Proof.
  induction l as [|q l IH]; cbn; [done|]. destruct (PqCompare m q p); [done|]. rewrite IH. constructor.
Qed.

Lemma pqPush_sorted m p l : StronglySorted (fun p q => seqOf m p <= seqOf m q) l ->
  StronglySorted (fun p q => seqOf m p <= seqOf m q) (pqPush m p l).
Proof.
  induction 1 as [|q l Hl IH Hq]; cbn; [by repeat constructor|].
  destruct (PqCompare m q p) eqn:E; unfold PqCompare in E; bool_to_prop; constructor.
  - by constructor.
  - constructor; [lia|]. eapply Forall_impl; [exact Hq|]. intros x Hx. cbn in Hx. lia.
  - done.
  - rewrite pqPush_perm. by constructor.
Qed.

(** The top after a push. *)
Lemma pqPush_head m p l : exists q l', pqPush m p l = q :: l' /\
  ((q = p /\ l' = l /\ Forall (fun x => seqOf m p < seqOf m x) (take 1 l)) \/
   (exists l0, l = q :: l0 /\ seqOf m q <= seqOf m p)).
Proof.
  destruct l as [|q l]; cbn; [eauto 10|]. destruct (PqCompare m q p) eqn:E; unfold PqCompare in E; bool_to_prop.
  - do 2 eexists. split; [done|]. left. split_and!; try done. by repeat constructor.
  - do 2 eexists. split; [done|]. right. eauto.
Qed.

(** ** Age lists *)

Lemma orderInsert_perm e l : orderInsert e l ≡ₚ e :: l.
Proof.
  induction l as [|f l IH]; cbn; [done|]. destruct (_ <? _); [done|]. rewrite IH. constructor.
Qed.

Lemma orderInsert_sorted e l : StronglySorted older l -> StronglySorted older (orderInsert e l).
Proof.
  induction 1 as [|f l Hl IH Hf]; cbn; [by repeat constructor|]. case_tests; bool_to_prop; constructor.
  - by constructor.
  - constructor; [lia|]. eapply Forall_impl; [exact Hf|]. intros x Hx. cbn in Hx. lia.
  - done.
  - rewrite orderInsert_perm. by constructor.
Qed.

Lemma orderInsertYounger_perm e l : orderInsertYounger e l ≡ₚ e :: l.
Proof.
  induction l as [|f l IH]; cbn; [done|]. destruct (_ <? _); [|done]. rewrite IH. constructor.
Qed.

Lemma orderInsertYounger_sorted e l : StronglySorted older l -> StronglySorted older (orderInsertYounger e l).
Proof.
  induction 1 as [|f l Hl IH Hf]; cbn; [by repeat constructor|]. case_tests; bool_to_prop; constructor.
  - done.
  - rewrite orderInsertYounger_perm. constructor; [lia|done].
  - by constructor.
  - constructor; [lia|]. eapply Forall_impl; [exact Hf|]. intros x Hx. cbn in Hx. lia.
Qed.

Lemma orderAt_ok n e l : NoDup (fst <$> l) -> (n, e) ∈ l -> orderAt n l = Ok e.
Proof.
  induction l as [|[n' e'] l IH]; cbn; [by intros _ ?%elem_of_nil|].
  intros [Hn Hd]%list_relations.list.NoDup_cons [[= -> ->]|Hin]%elem_of_cons; [by rewrite decide_True|].
  rewrite decide_False; [auto|]. intros ->. apply Hn. apply list_elem_of_fmap. by exists (n, e).
Qed.

Lemma eraseOrder_ok n e l : NoDup (fst <$> l) -> (n, e) ∈ l ->
  exists l', eraseOrder n l = Ok l' /\ l ≡ₚ (n, e) :: l' /\ l' `sublist_of` l.
Proof.
  induction l as [|[n' e'] l IH]; cbn; [by intros _ ?%elem_of_nil|].
  intros [Hn Hd]%list_relations.list.NoDup_cons [[= -> ->]|Hin]%elem_of_cons.
  - rewrite decide_True by done. exists l. split_and!; [done..|by constructor].
  - rewrite decide_False by (intros ->; apply Hn, list_elem_of_fmap; by exists (n, e)).
    destruct IH as (l' & -> & Hp & Hs); [done..|]. cbn. eexists. split; [done|]. split.
    + rewrite Hp. constructor.
    + by constructor.
Qed.

Lemma StronglySorted_sublist {A} (R : A -> A -> Prop) (l k : list A) :
  l `sublist_of` k -> StronglySorted R k -> StronglySorted R l.
Proof.
  induction 1 as [|x l k Hs IH|x l k Hs IH]; [done|..]; inversion_clear 1; [constructor|]; auto.
  rewrite list_relations.list.Forall_forall in *. intros y Hy. apply H1. eapply elem_of_submseteq; [done|].
  by apply sublist_submseteq.
Qed.

(** ** Keeping the invariant *)

(** The invariant while class [c] is off the age list. *)
Record RLOff (m : InstMem) (c : OpClass) (r : ReadyLists) : Prop := {
  ro_heap : forall c p, p ∈ readyInsts r c -> exists i, heap m !! p = Some i /\ instOpClass i = c;
  ro_queue : forall c, StronglySorted (fun p q => seqOf m p <= seqOf m q) (readyInsts r c);
  ro_order : StronglySorted older (listOrder r);
  ro_nodes : NoDup (fst <$> listOrder r);
  ro_next : forall n e, (n, e) ∈ listOrder r -> (n < nextNode r)%nat;
  ro_top : forall n e, (n, e) ∈ listOrder r -> queueType e <> c /\
    exists p l, readyInsts r (queueType e) = p :: l /\ oldestInst e = seqOf m p;
  ro_it : forall c' n, c' <> c -> readyIt r c' = Some n <-> exists e, (n, e) ∈ listOrder r /\ queueType e = c';
  ro_on : forall c', c' <> c -> queueOnList r c' = negb (bool_decide (readyInsts r c' = []));
  ro_all : forall c', c' <> c -> readyInsts r c' <> [] -> is_Some (readyIt r c')
}.

(** Putting the class back. *)
Lemma rl_put m c r p l L on it :
  RLOff m c r -> readyInsts r c = p :: l ->
  L ≡ₚ (nextNode r, mkOrder c (seqOf m p)) :: listOrder r -> StronglySorted older L ->
  on c = true -> (forall c', c' <> c -> on c' = queueOnList r c') ->
  it c = Some (nextNode r) -> (forall c', c' <> c -> it c' = readyIt r c') ->
  RLInv m (mkReady (readyInsts r) L on it (S (nextNode r))).
Proof.
  intros HO Hc HL Hs Hon Hon' Hit Hit'. split; cbn [readyInsts listOrder queueOnList readyIt nextNode].
  - apply HO.
  - apply HO.
  - done.
  - rewrite HL. cbn. constructor; [|apply HO]. intros Hin%list_elem_of_fmap.
    destruct Hin as ([n e] & Hn & Hin). apply (ro_next _ _ _ HO) in Hin. cbn in Hn. lia.
  - intros n e. rewrite HL. intros [[= -> ->]|Hin]%elem_of_cons; [lia|].
    apply (ro_next _ _ _ HO) in Hin. lia.
  - intros n e. rewrite HL. intros [[= -> ->]|Hin]%elem_of_cons; [cbn; eauto|].
    by apply (ro_top _ _ _ HO) in Hin as [_ ?].
  - intros c' n. setoid_rewrite HL. setoid_rewrite elem_of_cons. destruct (decide (c' = c)) as [->|Hne].
    + rewrite Hit. split.
      * intros [= <-]. eexists. split; [by left|done].
      * intros (e & [[= -> ->]|Hin] & Hq); [done|]. by apply (ro_top _ _ _ HO) in Hin as [? _].
    + rewrite Hit', (ro_it _ _ _ HO) by done. split; [intros (e & ? & ?); eauto|].
      intros (e & [[= -> ->]|Hin] & Hq); [done|eauto].
  - intros c'. destruct (decide (c' = c)) as [->|Hne]; [by rewrite Hon, Hc|].
    rewrite Hon' by done. by apply (ro_on _ _ _ HO).
  - intros c' Hc'. destruct (decide (c' = c)) as [->|Hne]; [rewrite Hit; eauto|].
    rewrite Hit' by done. by apply (ro_all _ _ _ HO).
Qed.

(** The class has no instructions left. *)
Lemma rl_gone m c r : RLOff m c r -> readyInsts r c = [] -> readyIt r c = None ->
  queueOnList r c = false -> RLInv m r.
Proof.
  intros HO Hc Hit Hon. split; [apply HO..| | | |].
  - intros n e Hin. by apply (ro_top _ _ _ HO) in Hin as [_ ?].
  - intros c' n. destruct (decide (c' = c)) as [->|Hne]; [|by apply (ro_it _ _ _ HO)].
    rewrite Hit. split; [done|]. intros (e & Hin & Hq). by apply (ro_top _ _ _ HO) in Hin as [? _].
  - intros c'. destruct (decide (c' = c)) as [->|Hne]; [by rewrite Hon, Hc|by apply (ro_on _ _ _ HO)].
  - intros c' Hc'. destruct (decide (c' = c)) as [->|Hne]; [done|by apply (ro_all _ _ _ HO)].
Qed.

(** The entry of a class is unique. *)
Lemma rl_unique m r n n' e e' : RLInv m r -> (n, e) ∈ listOrder r -> (n', e') ∈ listOrder r ->
  queueType e = queueType e' -> n = n' /\ e = e'.
Proof.
  intros HI H1 H2 Hq.
  assert (E1 : readyIt r (queueType e) = Some n) by (apply (rl_it _ _ HI); eauto).
  assert (E2 : readyIt r (queueType e) = Some n') by (apply (rl_it _ _ HI); eauto).
  assert (n = n') as <- by congruence. split; [done|].
  pose proof (orderAt_ok _ _ _ (rl_nodes _ _ HI) H1). pose proof (orderAt_ok _ _ _ (rl_nodes _ _ HI) H2). congruence.
Qed.

(** Taking the entry [(n, e)] off the list, while the queue of its class changes. *)
Lemma rl_take m r n e L f on it :
  RLInv m r -> listOrder r ≡ₚ (n, e) :: L -> L `sublist_of` listOrder r ->
  (forall c', c' <> queueType e -> f c' = readyInsts r c' /\ on c' = queueOnList r c' /\ it c' = readyIt r c') ->
  (forall p, p ∈ f (queueType e) -> exists i, heap m !! p = Some i /\ instOpClass i = queueType e) ->
  StronglySorted (fun p q => seqOf m p <= seqOf m q) (f (queueType e)) ->
  RLOff m (queueType e) (mkReady f L on it (nextNode r)).
Proof.
  intros HI HL Hsub Hoth Hheap Hsort. set (c := queueType e) in *.
  assert (Hin : forall x, x ∈ L -> x ∈ listOrder r) by (intros x Hx; rewrite HL; by right).
  assert (Hne : forall n' e', (n', e') ∈ L -> queueType e' <> c).
  { intros n' e' Hx Hq. pose proof (rl_nodes _ _ HI) as Hnd. rewrite HL in Hnd. cbn in Hnd.
    apply list_relations.list.NoDup_cons in Hnd as [Hn _].
    destruct (rl_unique m r n n' e e' HI) as [-> ->]; [rewrite HL; by left|by apply Hin|done|].
    apply Hn, list_elem_of_fmap. by exists (n', e'). }
  split; cbn [readyInsts listOrder queueOnList readyIt nextNode].
  - intros c' p. destruct (decide (c' = c)) as [->|Hc]; [apply Hheap|].
    destruct (Hoth c' Hc) as [-> _]. apply (rl_heap _ _ HI).
  - intros c'. destruct (decide (c' = c)) as [->|Hc]; [done|].
    destruct (Hoth c' Hc) as [-> _]. apply (rl_queue _ _ HI).
  - eapply StronglySorted_sublist; [done|apply HI].
  - pose proof (rl_nodes _ _ HI) as Hnd. rewrite HL in Hnd. cbn in Hnd. by apply list_relations.list.NoDup_cons in Hnd as [_ ?].
  - intros n' e' Hx. by eapply (rl_next _ _ HI), Hin.
  - intros n' e' Hx. pose proof (Hne _ _ Hx) as Hq. split; [done|]. destruct (Hoth _ Hq) as [-> _].
    by eapply (rl_top _ _ HI), Hin.
  - intros c' n' Hc. destruct (Hoth c' Hc) as (_ & _ & ->). rewrite (rl_it _ _ HI). split.
    + intros (e' & Hx & Hq). exists e'. split; [|done]. rewrite HL in Hx. apply elem_of_cons in Hx as [[= -> ->]|?]; [done|done].
    + intros (e' & Hx & Hq). eauto.
  - intros c' Hc. destruct (Hoth c' Hc) as (-> & -> & _). apply (rl_on _ _ HI).
  - intros c' Hc. destruct (Hoth c' Hc) as (-> & _ & ->). apply (rl_all _ _ HI).
Qed.

Lemma rl_off_empty m r c f : RLInv m r -> readyInsts r c = [] ->
  (forall c', c' <> c -> f c' = readyInsts r c') ->
  (forall p, p ∈ f c -> exists i, heap m !! p = Some i /\ instOpClass i = c) ->
  StronglySorted (fun p q => seqOf m p <= seqOf m q) (f c) ->
  RLOff m c (r <| readyInsts := f |>).
Proof.
  intros HI Hc Hf Hheap Hsort. split; cbn.
  - intros c' p. destruct (decide (c' = c)) as [->|Hne]; [apply Hheap|]. rewrite Hf by done. apply (rl_heap _ _ HI).
  - intros c'. destruct (decide (c' = c)) as [->|Hne]; [done|]. rewrite Hf by done. apply (rl_queue _ _ HI).
  - apply HI.
  - apply HI.
  - apply HI.
  - intros n e Hx. destruct (rl_top _ _ HI _ _ Hx) as (p & l & Hp & Ho).
    assert (queueType e <> c) by congruence. split; [done|]. rewrite Hf by done. eauto.
  - intros c' n Hne. apply (rl_it _ _ HI).
  - intros c' Hne. rewrite Hf by done. apply (rl_on _ _ HI).
  - intros c' Hne. rewrite Hf by done. apply (rl_all _ _ HI).
Qed.

Lemma rl_same_top m r c p l l' f : RLInv m r -> readyInsts r c = p :: l -> f c = p :: l' ->
  (forall c', c' <> c -> f c' = readyInsts r c') ->
  (forall q, q ∈ f c -> exists i, heap m !! q = Some i /\ instOpClass i = c) ->
  StronglySorted (fun p q => seqOf m p <= seqOf m q) (f c) ->
  RLInv m (r <| readyInsts := f |>).
Proof.
  intros HI Hc Hfc Hf Hheap Hsort. split; cbn.
  - intros c' q. destruct (decide (c' = c)) as [->|Hne]; [apply Hheap|]. rewrite Hf by done. apply (rl_heap _ _ HI).
  - intros c'. destruct (decide (c' = c)) as [->|Hne]; [done|]. rewrite Hf by done. apply (rl_queue _ _ HI).
  - apply HI.
  - apply HI.
  - apply HI.
  - intros n e Hx. destruct (rl_top _ _ HI _ _ Hx) as (q & k & Hq & Ho).
    destruct (decide (queueType e = c)) as [Ec|Hne]; [|rewrite Hf by done; eauto].
    rewrite Ec in *. exists p, l'. split; [done|]. congruence.
  - intros c' n. apply (rl_it _ _ HI).
  - intros c'. rewrite (rl_on _ _ HI). destruct (decide (c' = c)) as [->|Hne]; [by rewrite Hc, Hfc|by rewrite Hf].
  - intros c' Hx. apply (rl_all _ _ HI). destruct (decide (c' = c)) as [->|Hne]; [by rewrite Hc|by rewrite <- Hf].
Qed.

Lemma addToOrderList_ok m c r p l i :
  RLOff m c r -> readyInsts r c = p :: l -> heap m !! p = Some i ->
  exists r', addToOrderList m c r = Ok r' /\ RLInv m r' /\ readyInsts r' = readyInsts r.
Proof.
  intros HO Hc Hp. unfold addToOrderList. rewrite Hc. unfold getInst. rewrite Hp. cbn [deref mbind res_bind].
  eexists. split; [done|]. split; [|done].
  assert (E : seqNum i = seqOf m p) by (unfold seqOf; by rewrite Hp). rewrite E.
  apply (rl_put m c r p l); [done..| | | | | |]; cbn.
  - apply orderInsert_perm.
  - apply orderInsert_sorted, HO.
  - by rewrite fn_lookup_insert.
  - intros c' Hne. by rewrite fn_lookup_insert_ne.
  - by rewrite fn_lookup_insert.
  - intros c' Hne. by rewrite fn_lookup_insert_ne.
Qed.

(** An instruction that becomes ready joins the queue of its class. *)
Lemma pushReady_ok m r p i : RLInv m r -> heap m !! p = Some i ->
  exists r', pushReady m p r = Ok r' /\ RLInv m r' /\
    readyInsts r' = <[instOpClass i := pqPush m p (readyInsts r (instOpClass i))]> (readyInsts r).
Proof.
  intros HI Hp. unfold pushReady, getInst. rewrite Hp. cbn [deref mbind res_bind]. set (c := instOpClass i).
  set (f := <[c := pqPush m p (readyInsts r c)]> (readyInsts r)).
  assert (Hfc : f c = pqPush m p (readyInsts r c)) by apply fn_lookup_insert.
  assert (Hf : forall c', c' <> c -> f c' = readyInsts r c') by (intros; by apply fn_lookup_insert_ne).
  assert (Hheap : forall q, q ∈ f c -> exists j, heap m !! q = Some j /\ instOpClass j = c).
  { intros q. rewrite Hfc, pqPush_perm. intros [->|Hq]%elem_of_cons; [eauto|by apply (rl_heap _ _ HI)]. }
  assert (Hsort : StronglySorted (fun p q => seqOf m p <= seqOf m q) (f c)).
  { rewrite Hfc. apply pqPush_sorted, HI. }
  destruct (pqPush_head m p (readyInsts r c)) as (top & l & Etop & Hcase). rewrite <- Hfc in Etop.
  destruct (Hheap top) as (t & Ht & _); [rewrite Etop; by left|].
  cbn [readyInsts queueOnList readyIt listOrder upd_field eta_ready]. rewrite (rl_on _ _ HI c).
  case_bool_decide as Hc; cbn [negb].
  - destruct (addToOrderList_ok m c (r <| readyInsts := f |>) top l t) as (r' & E & HI' & Er); [|done..|].
    { by apply rl_off_empty. }
    exists r'. done.
  - rewrite Etop. cbn [head deref mbind res_bind]. rewrite Ht. cbn [deref mbind res_bind].
    destruct (rl_all _ _ HI c Hc) as [n Hn]. rewrite Hn. cbn [deref mbind res_bind].
    apply (rl_it _ _ HI) in Hn as (e & Hin & Hq). rewrite (orderAt_ok _ _ _ (rl_nodes _ _ HI) Hin). cbn [mbind res_bind].
    destruct (rl_top _ _ HI _ _ Hin) as (q & l0 & Eq & Ho). rewrite Hq in Eq.
    assert (Est : seqNum t = seqOf m top) by (unfold seqOf; by rewrite Ht).
    destruct (Z.ltb_spec (seqNum t) (oldestInst e)) as [Hlt|Hge].
    + destruct (eraseOrder_ok n e _ (rl_nodes _ _ HI) Hin) as (L & -> & HL & Hsub). cbn [mbind res_bind].
      destruct (addToOrderList_ok m c (r <| readyInsts := f |> <| listOrder := L |>) top l t) as (r' & E & HI' & Er); [|done..|].
      { rewrite <- Hq. apply (rl_take m r n e); rewrite ?Hq; try done. intros c' Hne. by rewrite Hf. }
      exists r'. done.
    + eexists. split; [done|]. split; [|done]. eapply (rl_same_top m r c q l0); try done.
      destruct Hcase as [(-> & -> & Hall)|(l1 & El & _)].
      * rewrite Eq in Hall. cbn in Hall. apply Forall_cons_1 in Hall as [Hall _]. lia.
      * assert (top = q) as -> by congruence. exact Etop.
Qed.

(** The oldest instruction of a class leaves its queue. *)
Lemma popReady_ok m r before n e behind : RLInv m r -> listOrder r = before ++ (n, e) :: behind ->
  exists behind' r', popReady m before (n, e) behind r = Ok (behind', r') /\
    RLInv m (r' <| listOrder := before ++ behind' |>) /\
    readyInsts r' = <[queueType e := tail (readyInsts r (queueType e))]> (readyInsts r) /\
    (forall c, c <> queueType e -> forall x, queueType (snd x) = c -> x ∈ behind' <-> x ∈ behind) /\
    StronglySorted older ((n, e) :: behind').
Proof.
  intros HI HL. assert (Hin : (n, e) ∈ listOrder r) by (rewrite HL; set_solver).
  destruct (rl_top _ _ HI _ _ Hin) as (p & l & Hp & Ho). unfold popReady. cbn [snd].
  set (c := queueType e) in *. rewrite Hp. cbn [tail].
  set (f := <[c := l]> (readyInsts r)).
  assert (Hfc : f c = l) by apply fn_lookup_insert.
  assert (Hf : forall c', c' <> c -> f c' = readyInsts r c') by (intros; by apply fn_lookup_insert_ne).
  pose proof (rl_queue _ _ HI c) as Hsort. rewrite Hp in Hsort. apply StronglySorted_inv in Hsort as [Hsort Hple].
  assert (Hheap : forall q, q ∈ f c -> exists j, heap m !! q = Some j /\ instOpClass j = c).
  { intros q. rewrite Hfc. intros Hq. apply (rl_heap _ _ HI). rewrite Hp. by right. }
  assert (HLp : listOrder r ≡ₚ (n, e) :: (before ++ behind)) by (by rewrite HL, Permutation_middle).
  assert (HLs : before ++ behind `sublist_of` listOrder r).
  { rewrite HL. apply sublist_app; [done|by constructor]. }
  pose proof (rl_order _ _ HI) as Hord. rewrite HL in Hord.
  pose proof (StronglySorted_app_1_r _ _ _ Hord) as Hbeh. apply StronglySorted_inv in Hbeh as [Hbeh Hele].
  pose proof (StronglySorted_app_1_l _ _ _ Hord) as Hbef.
  cbn [readyInsts upd_field eta_ready]. fold f. rewrite Hfc. case_bool_decide as Hl; cbn [negb].
  - eexists _, _. split; [done|]. split_and!; [|done|done|by constructor].
    eapply (rl_gone m c); cbn; [|by rewrite Hfc|by rewrite fn_lookup_insert..].
    apply (rl_take m r n e); try done.
    + intros c' Hne. rewrite Hf, !fn_lookup_insert_ne by done. done.
    + fold c. by rewrite Hfc.
  - destruct l as [|q l]; [done|]. destruct (Hheap q) as (j & Hj & _); [rewrite Hfc; by left|].
    unfold moveToYoungerInst. cbn [snd readyInsts upd_field eta_ready]. fold c f. rewrite Hfc. cbn [head deref mbind res_bind].
    unfold getInst. rewrite Hj. cbn [deref mbind res_bind]. eexists _, _. split; [done|].
    assert (Ej : seqNum j = seqOf m q) by (unfold seqOf; by rewrite Hj). rewrite Ej. cbn [nextNode upd_field eta_ready].
    set (x := (nextNode r, mkOrder c (seqOf m q))). apply Forall_cons_1 in Hple as [Hpq _].
    assert (Hs' : StronglySorted older (orderInsertYounger x behind)) by (by apply orderInsertYounger_sorted).
    split_and!; [|done| |].
    + cbn. eapply (rl_put m c (mkReady f (before ++ behind) (queueOnList r) (readyIt r) (nextNode r))); cbn; try done.
      * apply (rl_take m r n e); try done; [|fold c; by rewrite Hfc]. intros c' Hne. by rewrite Hf.
      * by rewrite orderInsertYounger_perm, Permutation_middle.
      * apply StronglySorted_app_2; [|done|done]. intros a b Ha. rewrite orderInsertYounger_perm.
        intros [->|Hb]%elem_of_cons.
        -- pose proof (StronglySorted_app_1_elem_of _ _ _ a (n, e) Hord Ha (list_elem_of_here _ _)) as Hae. cbn in *. lia.
        -- by apply (StronglySorted_app_1_elem_of _ _ _ a b Hord Ha), list_elem_of_further.
      * by rewrite (rl_on _ _ HI), Hp.
      * by rewrite fn_lookup_insert.
      * intros c' Hne. by rewrite fn_lookup_insert_ne.
    + intros c' Hne y Hy. rewrite orderInsertYounger_perm, elem_of_cons. split; [|by right].
      intros [->|?]; [by destruct Hne|done].
    + constructor; [done|]. rewrite orderInsertYounger_perm. constructor; [cbn; cbn in Hpq; lia|done].
Qed.
