(* ===== verification/InstQueue.v ===== *)
(** * The instruction queue

    [src/src/cpu/o3/inst_queue.cc] and [inst_queue.hh].  Instructions wait here for
    their registers (the dependency graph), memory instructions also for the
    memory dependence unit of their thread; the ready ones are issued, the oldest
    first, to the functional units.

    A memory dependence unit hands an instruction over by calling
    [addReadyMemInst].  In the model it returns the list of them, and the queue
    adds them when the call returns: [addReadyMemInst] reads and changes nothing
    that the unit does.  Events are handed to the simulation kernel; the model
    keeps those not yet processed.  A loop that runs out of fuel is [Undef].
    Statistics and tracing are left out. *)

From stdpp Require Import base numbers list gmap functions.
From S2P Require Import Prelude Double Regs DynInst ROB TimeBuffer StoreSet FUPool MemDep DepGraph ReadyList.

#[local] Open Scope Z_scope.

(** ** State *)

(** [FUCompletion], with the cycles until it is processed. *)
Record FUCompletion := mkCompletion { fc_inst : InstPtr; fuIdx : Z; freeFU : bool; fc_delay : Z }.

Record InstructionQueue := mkIQ {
  memDepUnit : ThreadID -> MemDepUnit;
  issueToExecute : TimeBuffer Z;         (* the [size] of each [IssueStruct] *)
  fuPool : FUPool;
  iqInsts : ThreadID -> list InstPtr;    (* [instList] *)
  instsToExecute : list InstPtr;
  deferredMemInsts : list InstPtr;
  blockedMemInsts : list InstPtr;
  retryMemInsts : list InstPtr;
  ready : ReadyLists;
  nonSpecInsts : gmap Z InstPtr;
  dependGraph : DependencyGraph;
  iqPolicy : SMTQueuePolicy;
  iqThreads : nat;                       (* [numThreads] *)
  iqActive : list ThreadID;              (* [*activeThreads] *)
  count : ThreadID -> Z;
  iqMaxEntries : ThreadID -> Z;
  freeEntries : Z;
  iqEntries : Z;                         (* [numEntries] *)
  totalWidth : Z;
  iqPhysRegs : nat;                      (* [numPhysRegs] *)
  wbOutstanding : Z;
  iqSquashedSeqNum : ThreadID -> Z;
  regScoreboard : list bool
}.

#[export] Instance eta_iq : Eta InstructionQueue := fun q =>
  mkIQ (memDepUnit q) (issueToExecute q) (fuPool q) (iqInsts q) (instsToExecute q) (deferredMemInsts q)
    (blockedMemInsts q) (retryMemInsts q) (ready q) (nonSpecInsts q) (dependGraph q) (iqPolicy q)
    (iqThreads q) (iqActive q) (count q) (iqMaxEntries q) (freeEntries q) (iqEntries q) (totalWidth q)
    (iqPhysRegs q) (wbOutstanding q) (iqSquashedSeqNum q) (regScoreboard q).

(** The queue with the instructions, the events it has scheduled, and whether it
    told the CPU that it was active ([activityThisCycle], [wakeCPU]). *)
Record IQS := mkIQS { iq : InstructionQueue; iqmem : InstMem; events : list FUCompletion; activity : bool }.

#[export] Instance eta_iqs : Eta IQS := fun s => mkIQS (iq s) (iqmem s) (events s) (activity s).

Definition updIQ (f : InstructionQueue -> InstructionQueue) (s : IQS) : IQS := s <| iq := f (iq s) |>.

Definition terminates {A} (o : option (res A)) : res A := match o with Some r => r | None => Undef end.

(** ** Construction *)

Definition resetState (q : InstructionQueue) : InstructionQueue :=
  q <| count := fun _ => 0 |>
    <| iqInsts := fun _ => [] |>
    <| freeEntries := iqEntries q |>
    <| regScoreboard := replicate (iqPhysRegs q) false |>
    <| iqSquashedSeqNum := fun _ => 0 |>
    <| ready := resetReady (ready q) |>
    <| nonSpecInsts := ∅ |>
    <| deferredMemInsts := [] |> <| blockedMemInsts := [] |> <| retryMemInsts := [] |>
    <| wbOutstanding := 0 |>.

(** The entries of a thread under the sharing policy. *)
Definition iqPolicyEntries (policy : SMTQueuePolicy) (numThreads : nat) (entries smtIQThreshold : Z)
    (tid : ThreadID) : Z :=
  if decide (numThreads <= tid)%nat then 0 else
  match policy with
  | Dynamic => entries
  | Partitioned => u32 (s32 (entries / Z.of_nat numThreads))
  | Threshold =>
      let threshold := ddiv (double_of_Z smtIQThreshold) (double_of_Z 100) in
      u32 (s32 (dtrunc (dmul threshold (double_of_Z entries))))
  end.

Definition InstructionQueue_ctor (pool : FUPool) (i2e : TimeBuffer Z) (policy : SMTQueuePolicy)
    (numThreads : nat) (active : list ThreadID) (entries width smtIQThreshold : Z)
    (nInt nFloat nVec nVecPred nMat nCC : Z) (numRegs : RegClassType -> Z)
    (clear_period SSIT_size LFST_size : Z) : InstructionQueue :=
  let numPhysRegs := Z.to_nat (u32 (nInt + nFloat + nVec +
        nVec * (numRegs VecElemClass / numRegs VecRegClass) + nVecPred + nMat + nCC)) in
  let q := mkIQ (fun _ => MemDep.init clear_period SSIT_size LFST_size MemDepUnit_ctor) i2e pool
    (fun _ => []) [] [] [] [] ReadyLists_ctor ∅ (resize numPhysRegs DependencyGraph_ctor) policy
    numThreads active (fun _ => 0) (fun _ => 0) 0 entries width numPhysRegs 0 (fun _ => 0)
    (replicate numPhysRegs false) in
  resetState q <| iqMaxEntries := iqPolicyEntries policy numThreads entries smtIQThreshold |>.

Definition takeOverFrom (q : InstructionQueue) : InstructionQueue := resetState q.

(** ** Reading *)

Definition isDrained (q : InstructionQueue) : res bool :=
  b ← DepGraph.empty (dependGraph q);
  Ok (b && bool_decide (instsToExecute q = []) && (wbOutstanding q =? 0) &&
      forallb (fun tid => MemDep.isDrained (memDepUnit q tid)) (seq 0 (iqThreads q))).

Definition drainSanityCheck (q : InstructionQueue) : res unit :=
  b ← DepGraph.empty (dependGraph q);
  assert! b ;;
  assert! bool_decide (instsToExecute q = []) ;;
  foldR (fun _ tid => MemDep.drainSanityCheck (memDepUnit q tid)) tt (seq 0 (iqThreads q)).

Definition entryAmount (num_threads : Z) (q : InstructionQueue) : res Z :=
  if decide (iqPolicy q = Partitioned) then
    if num_threads =? 0 then Undef else Ok (s32 (iqEntries q / num_threads))
  else Ok 0.

(** One thread of the loop of [resetEntries]. *)
Definition resetEntry (active_threads : Z) (q : InstructionQueue) (tid : ThreadID) : InstructionQueue :=
  if decide (iqPolicy q = Partitioned) then
    q <| iqMaxEntries := <[tid := iqEntries q / active_threads]> (iqMaxEntries q) |>
  else if bool_decide (iqPolicy q = Threshold) && (active_threads =? 1) then
    q <| iqMaxEntries := <[tid := iqEntries q]> (iqMaxEntries q) |>
  else q.

Definition resetEntries (q : InstructionQueue) : InstructionQueue :=
  if negb (bool_decide (iqPolicy q = Dynamic)) || (1 <? iqThreads q)%nat then
    foldl (resetEntry (Z.of_nat (length (iqActive q)))) q (iqActive q)
  else q.

Definition numFreeEntries (q : InstructionQueue) : Z := freeEntries q.
Definition numFreeEntriesOf (tid : ThreadID) (q : InstructionQueue) : Z :=
  u32 (iqMaxEntries q tid - count q tid).
Definition isFull (q : InstructionQueue) : bool := freeEntries q =? 0.
Definition isFullOf (tid : ThreadID) (q : InstructionQueue) : bool := numFreeEntriesOf tid q =? 0.
Definition getCount (tid : ThreadID) (q : InstructionQueue) : Z := count q tid.
Definition countInsts (q : InstructionQueue) : Z := s32 (iqEntries q - freeEntries q).

(** [assert(freeEntries == (numEntries - countInsts()))]. *)
Definition checkCount (s : IQS) : res IQS :=
  assert! freeEntries (iq s) =? u32 (iqEntries (iq s) - countInsts (iq s)) ;;
  Ok s.

(** ** Calls to the other components *)

Definition onInst (p : InstPtr) (f : DynInst -> DynInst) (s : IQS) : res IQS :=
  m ← updInst p f (iqmem s);
  Ok (s <| iqmem := m |>).

Definition onGraph (f : DependencyGraph -> res DependencyGraph) (s : IQS) : res IQS :=
  g ← f (dependGraph (iq s));
  Ok (updIQ (fun q => q <| dependGraph := g |>) s).

Definition onPool (f : FUPool -> res FUPool) (s : IQS) : res IQS :=
  p ← f (fuPool (iq s));
  Ok (updIQ (fun q => q <| fuPool := p |>) s).

Definition addReadyMemInst (ready_inst : InstPtr) (s : IQS) : res IQS :=
  r ← pushReady (iqmem s) ready_inst (ready (iq s));
  Ok (updIQ (fun q => q <| ready := r |>) s).

(** A call of the memory dependence unit of a thread: the instructions it hands
    over are added to the ready queues. *)
Definition onUnit (tid : ThreadID) (f : MDS -> res MDS) (s : IQS) : res IQS :=
  d ← f (mkMDS (memDepUnit (iq s) tid) (iqmem s) []);
  let s := updIQ (fun q => q <| memDepUnit := <[tid := mdu d]> (memDepUnit q) |>) s in
  foldR (fun s p => addReadyMemInst p s) (s <| iqmem := mdmem d |>) (readied d).

(** A flag of the queue's own scoreboard. *)
Definition regReady (r : PhysRegId) (q : InstructionQueue) : res bool :=
  deref (regScoreboard q !! Z.to_nat (flatIndex r)).

Definition setRegReady (b : bool) (r : PhysRegId) (s : IQS) : res IQS :=
  _ ← regReady r (iq s);
  Ok (updIQ (fun q => q <| regScoreboard := <[Z.to_nat (flatIndex r) := b]> (regScoreboard q) |>) s).

(** The number of registers of an instruction as an [int8_t]. *)
Definition int8 (n : nat) : Z := wrap 8 (Z.of_nat n + 2 ^ 7) - 2 ^ 7.

(** ** Registers *)

(** One source of [addToDependents]. *)
Definition addSrc (p : InstPtr) (s : IQS) (src_reg_idx : nat) : res IQS :=
  i ← getInst p (iqmem s);
  is_ready ← deref (readySrcIdx i !! src_reg_idx);
  if is_ready : bool then Ok s else
  o ← deref (srcIdx i !! src_reg_idx);
  src_reg ← deref o;
  if isFixedMapping src_reg then Ok s else
  b ← regReady src_reg (iq s);
  if negb b then onGraph (DepGraph.insert (flatIndex src_reg) p) s
  else
    i ← markSrcRegReadyIdx src_reg_idx i;
    onInst p (fun _ => i) s.

(** Its result, whether the instruction has to wait, is not used. *)
Definition addToDependents (new_inst : InstPtr) (s : IQS) : res IQS :=
  i ← getInst new_inst (iqmem s);
  foldR (addSrc new_inst) s (seq 0 (Z.to_nat (int8 (numSrcRegs i)))).

(** One destination of [addToProducers]. *)
Definition addDest (p : InstPtr) (s : IQS) (o : option PhysRegId) : res IQS :=
  dest_reg ← deref o;
  if isFixedMapping dest_reg then Ok s else
  b ← emptyAt (flatIndex dest_reg) (dependGraph (iq s));
  if negb b then Panic else
  s ← onGraph (setInst (flatIndex dest_reg) p) s;
  setRegReady false dest_reg s.

Definition addToProducers (new_inst : InstPtr) (s : IQS) : res IQS :=
  i ← getInst new_inst (iqmem s);
  foldR (addDest new_inst) s (take (Z.to_nat (int8 (numDestRegs i))) (destIdx i)).

Definition recordProducer (p : InstPtr) (s : IQS) : res IQS := addToProducers p s.

Definition addIfReady (p : InstPtr) (s : IQS) : res IQS :=
  i ← getInst p (iqmem s);
  if readyToIssue i then
    if isMemRef i then onUnit (threadNumber i) (regsReady p) s
    else addReadyMemInst p s
  else Ok s.

(** ** Insertion *)

(** An entry is taken by an instruction of thread [tid]. *)
Definition takeEntry (tid : ThreadID) (p : InstPtr) (s : IQS) : IQS :=
  updIQ (fun q => q <| iqInsts := <[tid := iqInsts q tid ++ [p]]> (iqInsts q) |>
                    <| freeEntries := u32 (freeEntries q - 1) |>) s.

Definition insert (new_inst : InstPtr) (s : IQS) : res IQS :=
  i ← getInst new_inst (iqmem s);
  let tid := threadNumber i in
  assert! negb (freeEntries (iq s) =? 0) ;;
  let s := takeEntry tid new_inst s in
  s ← onInst new_inst (setStatus IqEntry true) s;
  s ← addToDependents new_inst s;
  s ← addToProducers new_inst s;
  s ← (if isMemRef i then onUnit tid (MemDep.insert new_inst) s else addIfReady new_inst s);
  checkCount (updIQ (fun q => q <| count := <[tid := u32 (count q tid + 1)]> (count q) |>) s).

Definition insertNonSpec (new_inst : InstPtr) (s : IQS) : res IQS :=
  i ← getInst new_inst (iqmem s);
  let tid := threadNumber i in
  let s := updIQ (fun q => q <| nonSpecInsts := <[seqNum i := new_inst]> (nonSpecInsts q) |>) s in
  assert! negb (freeEntries (iq s) =? 0) ;;
  let s := takeEntry tid new_inst s in
  s ← onInst new_inst (setStatus IqEntry true) s;
  s ← addToProducers new_inst s;
  s ← (if isMemRef i then onUnit tid (MemDep.insertNonSpec new_inst) s else Ok s);
  checkCount (updIQ (fun q => q <| count := <[tid := u32 (count q tid + 1)]> (count q) |>) s).

Definition insertBarrier (barr_inst : InstPtr) (s : IQS) : res IQS :=
  i ← getInst barr_inst (iqmem s);
  s ← onUnit (threadNumber i) (MemDep.insertBarrier barr_inst) s;
  insertNonSpec barr_inst s.

(** ** Execution *)

Definition getInstToExecute (s : IQS) : res (InstPtr * IQS) :=
  match instsToExecute (iq s) with
  | [] => Panic
  | p :: l => Ok (p, updIQ (fun q => q <| instsToExecute := l |>) s)
  end.

(** [issueToExecuteQueue->access(idx)->size++] and the instruction joins
    [instsToExecute]. *)
Definition toExecute (idx : Z) (p : InstPtr) (s : IQS) : res IQS :=
  n ← access idx (issueToExecute (iq s));
  b ← assign idx (s32 (n + 1)) (issueToExecute (iq s));
  Ok (updIQ (fun q => q <| issueToExecute := b |> <| instsToExecute := instsToExecute q ++ [p] |>) s).

Definition processFUCompletion (switchedOut : bool) (p : InstPtr) (fu_idx : Z) (s : IQS) : res IQS :=
  assert! negb switchedOut ;;
  let s := updIQ (fun q => q <| wbOutstanding := s32 (wbOutstanding q - 1) |>) s <| activity := true |> in
  s ← (if -1 <? fu_idx then onPool (freeUnitNextCycle (Z.to_nat fu_idx)) s else Ok s);
  toExecute (-1) p s.

(** [FUCompletion::process]. *)
Definition processCompletion (switchedOut : bool) (e : FUCompletion) (s : IQS) : res IQS :=
  processFUCompletion switchedOut (fc_inst e) (if freeFU e then fuIdx e else -1) s.

(** The first deferred instruction whose translation has completed, or that is
    squashed. *)
Fixpoint takeDeferred (m : InstMem) (l : list InstPtr) : res (option InstPtr * list InstPtr) :=
  match l with
  | [] => Ok (None, [])
  | p :: l =>
      i ← getInst p m;
      if translationCompleted i || isSquashed i then Ok (Some p, l)
      else '(o, l) ← takeDeferred m l; Ok (o, p :: l)
  end.

Definition getDeferredMemInstToExecute (s : IQS) : res (option InstPtr * IQS) :=
  '(o, l) ← takeDeferred (iqmem s) (deferredMemInsts (iq s));
  Ok (o, updIQ (fun q => q <| deferredMemInsts := l |>) s).

Definition getBlockedMemInstToExecute (s : IQS) : option InstPtr * IQS :=
  match retryMemInsts (iq s) with
  | [] => (None, s)
  | p :: l => (Some p, updIQ (fun q => q <| retryMemInsts := l |>) s)
  end.

Fixpoint addDeferred (fuel : nat) (s : IQS) : res IQS :=
  '(o, s) ← getDeferredMemInstToExecute s;
  match o, fuel with
  | None, _ => Ok s
  | Some p, S fuel => s ← addReadyMemInst p s; addDeferred fuel s
  | Some _, O => Undef
  end.

Fixpoint addBlocked (fuel : nat) (s : IQS) : res IQS :=
  let '(o, s) := getBlockedMemInstToExecute s in
  match o, fuel with
  | None, _ => Ok s
  | Some p, S fuel => s ← addReadyMemInst p s; addBlocked fuel s
  | Some _, O => Undef
  end.

(** The unit an instruction needs: [None] for a class that needs none. *)
Definition findUnit (op_class : OpClass) (s : IQS) : res (Z * IQS) :=
  if decide (op_class = No_OpClass) then Ok (NoCapableFU, s) else
  '(idx, pool) ← terminates (getUnit (getFuel op_class (fuPool (iq s))) op_class (fuPool (iq s)));
  Ok (idx, updIQ (fun q => q <| fuPool := pool |>) s).

Definition opLatency (op_class : OpClass) (idx : Z) (s : IQS) : Z :=
  if NoFreeFU <? idx then maxOpLatencies (fuPool (iq s)) op_class else 1.

(** The execution of an issued instruction starts on unit [idx]. *)
Definition startExecution (p : InstPtr) (op_class : OpClass) (idx : Z) (s : IQS) : res IQS :=
  let op_latency := opLatency op_class idx s in
  if op_latency =? 1 then
    s ← toExecute 0 p s;
    if 0 <=? idx then onPool (freeUnitNextCycle (Z.to_nat idx)) s else Ok s
  else
    let s := updIQ (fun q => q <| wbOutstanding := s32 (wbOutstanding q + 1) |>) s in
    let is_pipelined := pipelined (fuPool (iq s)) op_class in
    let s := s <| events := events s ++ [mkCompletion p idx (negb is_pipelined) (u64 (op_latency - 1))] |> in
    if is_pipelined then onPool (freeUnitNextCycle (Z.to_nat idx)) s else Ok s.

(** What issuing changes in the instruction and the entries of the queue. *)
Definition leaveQueue (p : InstPtr) (i : DynInst) (s : IQS) : res IQS :=
  s ← onInst p (setStatus Issued true) s;
  let tid := threadNumber i in
  if negb (isMemRef i) then
    onInst p (setStatus IqEntry false)
      (updIQ (fun q => q <| freeEntries := u32 (freeEntries q + 1) |>
                         <| count := <[tid := u32 (count q tid - 1)]> (count q) |>) s)
  else onUnit tid (issue p) s.

Definition setReady (r : ReadyLists) : IQS -> IQS := updIQ (fun q => q <| ready := r |>).

(** [listOrder.erase(order_it++)]. *)
Definition eraseHere (before behind : list (nat * ListOrderEntry)) (s : IQS) : IQS :=
  setReady (ready (iq s) <| listOrder := before ++ behind |>) s.

(** The loop of [scheduleReadyInsts]; [order_it] is at the head of [behind]. *)
Fixpoint issueLoop (fuel : nat) (total_issued : Z) (before behind : list (nat * ListOrderEntry))
    (s : IQS) : res (Z * IQS) :=
  if negb (total_issued <? totalWidth (iq s)) then Ok (total_issued, s) else
  match behind, fuel with
  | [], _ => Ok (total_issued, s)
  | _, O => Undef
  | order_it :: behind, S fuel =>
      let op_class := queueType (snd order_it) in
      match readyInsts (ready (iq s)) op_class with
      | [] => Panic
      | issuing_inst :: _ =>
          i ← getInst issuing_inst (iqmem s);
          assert! seqNum i =? oldestInst (snd order_it) ;;
          if isSquashed i then
            '(behind, r) ← popReady (iqmem s) before order_it behind (ready (iq s));
            issueLoop fuel total_issued before behind (eraseHere before behind (setReady r s))
          else
          '(idx, s) ← findUnit op_class s;
          if negb (idx =? NoFreeFU) then
            s ← startExecution issuing_inst op_class idx s;
            '(behind, r) ← popReady (iqmem s) before order_it behind (ready (iq s));
            s ← leaveQueue issuing_inst i (setReady r s);
            issueLoop fuel (total_issued + 1) before behind (eraseHere before behind s)
          else issueLoop fuel total_issued (before ++ [order_it]) behind s
      end
  end.

(** Every round of the loop takes an instruction off a ready queue or moves on. *)
Definition issueFuel (r : ReadyLists) (behind : list (nat * ListOrderEntry)) : nat :=
  sum_list_with (fun x => S (length (readyInsts r (queueType (snd x))))) behind.

Definition scheduleReadyInsts (s : IQS) : res IQS :=
  s ← addDeferred (length (deferredMemInsts (iq s))) s;
  s ← addBlocked (length (retryMemInsts (iq s))) s;
  '(total_issued, s) ← issueLoop (issueFuel (ready (iq s)) (listOrder (ready (iq s)))) 0 [] (listOrder (ready (iq s))) s;
  Ok (if negb (total_issued =? 0) || negb (bool_decide (retryMemInsts (iq s) = [])) ||
         negb (bool_decide (deferredMemInsts (iq s) = []))
      then s <| activity := true |> else s).

Definition scheduleNonSpec (inst : Z) (s : IQS) : res IQS :=
  match nonSpecInsts (iq s) !! inst with
  | None => Panic
  | Some p =>
      i ← getInst p (iqmem s);
      s ← onInst p (fun i => setStatus CanIssue true (setStatus AtCommit true i)) s;
      s ← (if negb (isMemRef i) then addIfReady p s
           else onUnit (threadNumber i) (nonSpecInstReady p) s);
      Ok (updIQ (fun q => q <| nonSpecInsts := delete inst (nonSpecInsts q) |>) s)
  end.

(** ** Commit and wake-up *)

(** What is left of the list of a thread when everything up to [inst] commits. *)
Fixpoint commitLoop (m : InstMem) (inst : Z) (l : list InstPtr) : res (list InstPtr) :=
  match l with
  | [] => Ok []
  | p :: l' => i ← getInst p m; if seqNum i <=? inst then commitLoop m inst l' else Ok l
  end.

Definition commit (inst : Z) (tid : ThreadID) (s : IQS) : res IQS :=
  l ← commitLoop (iqmem s) inst (iqInsts (iq s) tid);
  checkCount (updIQ (fun q => q <| iqInsts := <[tid := l]> (iqInsts q) |>) s).

(** The loop over the dependents of a register; [chain], the length of its list,
    bounds the rounds. *)
Fixpoint wakeChain (chain : list InstPtr) (idx : Z) (s : IQS) : res (Z * IQS) :=
  '(o, g) ← pop idx (dependGraph (iq s));
  let s := updIQ (fun q => q <| dependGraph := g |>) s in
  match o, chain with
  | None, _ => Ok (0, s)
  | Some dep_inst, _ :: chain =>
      s ← onInst dep_inst markSrcRegReady s;
      s ← addIfReady dep_inst s;
      '(n, s) ← wakeChain chain idx s;
      Ok (n + 1, s)
  | Some _, [] => Undef
  end.

(** One destination of [wakeDependents]. *)
Definition wakeReg (p : InstPtr) (acc : Z * IQS) (o : option PhysRegId) : res (Z * IQS) :=
  let '(dependents, s) := acc in
  dest_reg ← deref o;
  if isFixedMapping dest_reg then Ok acc else
  let ps := updPin dest_reg decrNumPinnedWritesToComplete (mpins (iqmem s)) in
  let s := s <| iqmem := iqmem s <| mpins := ps |> |> in
  i ← getInst p (iqmem s);
  i ← (if pinned (pinOf ps dest_reg) then setPinnedRegsWritten i else Ok i);
  s ← onInst p (fun _ => i) s;
  if negb (pinWritesToComplete (pinOf ps dest_reg) =? 0) then Ok (dependents, s) else
  d ← depAt (flatIndex dest_reg) (dependGraph (iq s));
  '(n, s) ← wakeChain (consumers d) (flatIndex dest_reg) s;
  b ← emptyAt (flatIndex dest_reg) (dependGraph (iq s));
  assert! b ;;
  s ← onGraph (clearInst (flatIndex dest_reg)) s;
  s ← setRegReady true dest_reg s;
  Ok (dependents + n, s).

Definition wakeDependents (completed_inst : InstPtr) (s : IQS) : res (Z * IQS) :=
  i ← getInst completed_inst (iqmem s);
  assert! negb (isSquashed i) ;;
  let tid := threadNumber i in
  s ← (if isMemRef i then
         s ← onUnit tid (completeInst completed_inst) s;
         s ← onInst completed_inst (setFlag MemOpDone true) s;
         Ok (updIQ (fun q => q <| freeEntries := u32 (freeEntries q + 1) |>
                               <| count := <[tid := u32 (count q tid - 1)]> (count q) |>) s)
       else if isReadBarrier i || isWriteBarrier i then onUnit tid (completeInst completed_inst) s
       else Ok s);
  foldR (wakeReg completed_inst) (0, s) (destIdx i).

(** ** Memory instructions that have to wait *)

Definition rescheduleMemInst (resched_inst : InstPtr) (s : IQS) : res IQS :=
  i ← getInst resched_inst (iqmem s);
  s ← onInst resched_inst (fun i => setStatus CanIssue false
        (setFlag TranslationCompleted false (setFlag TranslationStarted false i))) s;
  onUnit (threadNumber i) (fun d => Ok (reschedule resched_inst d)) s.

Definition replayMemInst (replay_inst : InstPtr) (s : IQS) : res IQS :=
  i ← getInst replay_inst (iqmem s);
  onUnit (threadNumber i) replay s.

Definition deferMemInst (deferred_inst : InstPtr) : IQS -> IQS :=
  updIQ (fun q => q <| deferredMemInsts := deferredMemInsts q ++ [deferred_inst] |>).

Definition blockMemInst (blocked_inst : InstPtr) (s : IQS) : res IQS :=
  s ← onInst blocked_inst (fun i => setStatus CanIssue false (setStatus Issued false i)) s;
  Ok (updIQ (fun q => q <| blockedMemInsts := blockedMemInsts q ++ [blocked_inst] |>) s).

Definition cacheUnblocked (s : IQS) : IQS :=
  updIQ (fun q => q <| retryMemInsts := retryMemInsts q ++ blockedMemInsts q |>
                    <| blockedMemInsts := [] |>) s <| activity := true |>.

Definition violation (store faulting_load : InstPtr) (s : IQS) : res IQS :=
  i ← getInst store (iqmem s);
  onUnit (threadNumber i) (MemDep.violation store faulting_load) s.

(** ** Squashing *)

(** The instructions that [doSquash] takes out of the dependency graph; the others
    are looked up in the map of non-speculative ones. *)
Definition tracked (i : DynInst) : bool :=
  let is_acq_rel := isFullMemBarrier i && (isLoad i || isStore i && negb (isStoreConditional i)) in
  is_acq_rel || (negb (isNonSpeculative i) && negb (isStoreConditional i) && negb (isAtomic i) &&
                 negb (isReadBarrier i) && negb (isWriteBarrier i)).

(** One source of a squashed instruction. *)
Definition removeSrc (p : InstPtr) (i : DynInst) (s : IQS) (src_reg_idx : nat) : res IQS :=
  o ← deref (srcIdx i !! src_reg_idx);
  src_reg ← deref o;
  is_ready ← deref (readySrcIdx i !! src_reg_idx);
  if negb is_ready && negb (isFixedMapping src_reg)
  then onGraph (remove (flatIndex src_reg) p) s else Ok s.

(** An instruction that still holds its entry. *)
Definition squashWaiting (p : InstPtr) (i : DynInst) (s : IQS) : res IQS :=
  s ← (if tracked i then foldR (removeSrc p i) s (seq 0 (numSrcRegs i))
       else if negb (isStoreConditional i) || negb (isCompleted i) then
         match nonSpecInsts (iq s) !! seqNum i with
         | None => assert! negb (bool_decide (fault i = NoFault)) || isMemRef i ;; Ok s
         | Some _ => Ok (updIQ (fun q => q <| nonSpecInsts := delete (seqNum i) (nonSpecInsts q) |>) s)
         end
       else Ok s);
  s ← onInst p (fun i => setStatus IqEntry false (setStatus CanCommit true
                           (setStatus Issued true (setSquashedInIQ i)))) s;
  let tid := threadNumber i in
  Ok (updIQ (fun q => q <| count := <[tid := u32 (count q tid - 1)]> (count q) |>
                        <| freeEntries := u32 (freeEntries q + 1) |>) s).

(** One destination of a squashed instruction. *)
Definition clearDest (s : IQS) (o : option PhysRegId) : res IQS :=
  dest_reg ← deref o;
  if isFixedMapping dest_reg then Ok s else
  b ← emptyAt (flatIndex dest_reg) (dependGraph (iq s));
  assert! b ;;
  onGraph (clearInst (flatIndex dest_reg)) s.

(** The loop of [doSquash], from the tail of the list: [l] is what is before the
    iterator, backwards, and [kept] what stays behind it.  The source decrements
    [end()] of an empty list and [begin()] and compares the result with [end()];
    the standard leaves that undefined, and the model does what the circular
    lists of libstdc++ do: both give [end()], where the loop ends. *)
Fixpoint doSquashLoop (tid : ThreadID) (n : Z) (l kept : list InstPtr) (s : IQS)
    : res (list InstPtr * IQS) :=
  match l with
  | [] => Ok (kept, s)
  | p :: l' =>
      i ← getInst p (iqmem s);
      if negb (n <? seqNum i) then Ok (reverse l ++ kept, s) else
      if negb (bool_decide (threadNumber i = tid)) || isSquashedInIQ i
      then doSquashLoop tid n l' (p :: kept) s
      else
        s ← (if negb (isIssued i) || (isMemRef i && negb (memOpDone i)) then squashWaiting p i s else Ok s);
        s ← foldR clearDest s (destIdx i);
        doSquashLoop tid n l' kept s
  end.

Definition doSquash (tid : ThreadID) (s : IQS) : res IQS :=
  '(l, s) ← doSquashLoop tid (iqSquashedSeqNum (iq s) tid) (reverse (iqInsts (iq s) tid)) [] s;
  Ok (updIQ (fun q => q <| iqInsts := <[tid := l]> (iqInsts q) |>) s).

(** [doneSeqNum] is read from commit's wire. *)
Definition squash (doneSeqNum : Z) (tid : ThreadID) (s : IQS) : res IQS :=
  let s := updIQ (fun q => q <| iqSquashedSeqNum := <[tid := doneSeqNum]> (iqSquashedSeqNum q) |>) s in
  s ← doSquash tid s;
  onUnit tid (fun d => terminates (MemDep.squash (iqSquashedSeqNum (iq s) tid) tid d)) s.
