(* ===== verification/InstQueueSpec.v ===== *)
(** * What the instruction queue relies on and keeps

    The invariant of the queue, in parts that each look at some of its fields, and
    the sequences of calls the theorems are about. *)

From stdpp Require Import base numbers list gmap functions sorting.
From S2P Require Import Prelude Regs DynInst ROB TimeBuffer StoreSet FUPool MemDep MemDepSpec DepGraph ReadyList InstQueue InstQueueUnit.

#[local] Open Scope Z_scope.

(** ** Registers an instruction waits for *)

(** The flat index of a source that was not ready when it was renamed. *)
Definition srcWait (x : option PhysRegId * bool) : option Z :=
  match x with
  | (Some r, false) => if isFixedMapping r then None else Some (flatIndex r)
  | _ => None
  end.

Definition unreadySrcs (i : DynInst) : list Z := omap srcWait (zip (srcIdx i) (readySrcIdx i)).

Definition destFlat (o : option PhysRegId) : option Z :=
  match o with
  | Some r => if isFixedMapping r then None else Some (flatIndex r)
  | None => None
  end.

Definition destFlats (i : DynInst) : list Z := omap destFlat (destIdx i).

(** Those that have not been produced since. *)
Definition pend (sb : list bool) (i : DynInst) : list Z :=
  filter (fun f => sb !! Z.to_nat f = Some false) (unreadySrcs i).

Definition chainAt (g : DependencyGraph) (f : Z) : list InstPtr :=
  match graph g !! Z.to_nat f with Some d => consumers d | None => [] end.

Definition occ {A} `{EqDecision A} (x : A) (l : list A) : nat := length (filter (fun y => y = x) l).
#[global] Arguments occ : simpl never.

(** The operands of a renamed instruction, with [n] registers in the machine. *)
Record regsOK (n : nat) (i : DynInst) : Prop := {
  rg_srcs : Forall is_Some (srcIdx i);
  rg_dests : Forall is_Some (destIdx i);
  rg_bits : length (readySrcIdx i) = length (srcIdx i);
  rg_nsrcs : (numSrcRegs i < 128)%nat;
  rg_ndests : (numDestRegs i < 128)%nat;
  rg_range : forall f, f ∈ unreadySrcs i \/ f ∈ destFlats i -> 0 <= f < Z.of_nat n
}.

(** ** The invariant *)

Section Invariant.
Context (insts : ThreadID -> list InstPtr) (m : InstMem).

(** The lists of the threads are in program order; a register that has been
    produced has no waiting instructions; an instruction of the graph is on the
    list of each register it waits for, as often as it reads it, and counts them;
    consumers are younger than producers. *)
Record WakeInv (g : DependencyGraph) (sb : list bool) : Prop := {
  wk_len : length (graph g) = length sb /\ graphEntries g = length sb;
  wk_inst : forall tid p, p ∈ insts tid -> exists i, heap m !! p = Some i /\ threadNumber i = tid /\
    isSquashedInIQ i = false /\ regsOK (length sb) i;
  wk_order : forall tid, StronglySorted (fun p q => seqOf m p < seqOf m q) (insts tid);
  wk_sb : forall f, 0 <= f -> sb !! Z.to_nat f = Some true -> chainAt g f = [];
  wk_chain : forall f p, 0 <= f -> p ∈ chainAt g f ->
    exists i, heap m !! p = Some i /\ p ∈ insts (threadNumber i) /\ tracked i = true;
  wk_count : forall p i f, p ∈ insts (threadNumber i) -> heap m !! p = Some i -> tracked i = true ->
    0 <= f -> sb !! Z.to_nat f = Some false -> occ p (chainAt g f) = occ f (unreadySrcs i);
  wk_prod : forall p i f c, p ∈ insts (threadNumber i) -> heap m !! p = Some i -> f ∈ destFlats i ->
    c ∈ chainAt g f -> c ∈ insts (threadNumber i) /\ seqNum i < seqOf m c;
  wk_ready : forall p i, p ∈ insts (threadNumber i) -> heap m !! p = Some i -> tracked i = true ->
    readyRegs i + Z.of_nat (length (pend sb i)) = Z.of_nat (numSrcRegs i);
  wk_issue : forall p i, p ∈ insts (threadNumber i) -> heap m !! p = Some i -> tracked i = true ->
    (readyToIssue i = true \/ isIssued i = true -> pend sb i = []) /\
    (isMemRef i = false -> pend sb i = [] -> readyToIssue i = true)
}.

(** An instruction that holds an entry of the queue. *)
Definition holds (i : DynInst) : bool := if isMemRef i then negb (memOpDone i) else negb (isIssued i).

Definition holdsAt (p : InstPtr) : bool :=
  match heap m !! p with Some i => holds i | None => false end.

Definition used (tid : ThreadID) : Z := Z.of_nat (length (filter (fun p => holdsAt p = true) (insts tid))).

Record CountInv (count : ThreadID -> Z) (free entries : Z) : Prop := {
  ct_count : forall tid, count tid = used tid;
  ct_threads : forall tid, (MaxThreads <= tid)%nat -> insts tid = [];
  ct_free : free + foldr (fun tid n => used tid + n) 0 (seq 0 MaxThreads) = entries;
  ct_range : 0 <= free /\ 0 <= entries < 2 ^ 32;
  ct_done : forall p i, p ∈ insts (threadNumber i) -> heap m !! p = Some i -> isMemRef i = true ->
    memOpDone i = true -> isIssued i = true
}.

(** Instruction [i], other than a memory instruction, that is [live] in the queue,
    is [n c] times in the ready queue of class [c], and [waits] for commit or not. *)
Record rdOK (live : Prop) (n : OpClass -> nat) (waits : bool) (i : DynInst) : Prop := {
  ro_in : forall c, (0 < n c)%nat -> live /\ isIssued i = false /\ readyToIssue i = true /\ waits = false;
  ro_once : forall c, (n c <= 1)%nat;
  ro_wait : live -> isIssued i = false ->
    (if tracked i then readyToIssue i = true else waits = false) -> (0 < n (instOpClass i))%nat
}.

(** The ready queues have the instructions that can issue, other than memory
    instructions exactly once; a non-speculative instruction waits in [ns]. *)
Record ReadyInv (r : ReadyLists) (ns : gmap Z InstPtr) : Prop := {
  rd_lists : RLInv m r;
  rd_each : forall p i, heap m !! p = Some i -> isMemRef i = false -> isSquashed i = false ->
    rdOK (p ∈ insts (threadNumber i)) (fun c => occ p (readyInsts r c)) (bool_decide (is_Some (ns !! seqNum i))) i;
  rd_ns : forall sn p, ns !! sn = Some p -> exists i, heap m !! p = Some i /\ seqNum i = sn /\
    p ∈ insts (threadNumber i) /\ tracked i = false /\ isIssued i = false /\ memOpDone i = false /\
    (isMemRef i = true -> speculative i = false)
}.

Definition unitOf (units : ThreadID -> MemDepUnit) (tid : ThreadID) : MDS := mkMDS (units tid) m [].

(** The memory dependence units have the memory instructions that hold an entry,
    and know whether their registers are ready; what waits to be issued, in
    [pool], waits for nothing else.  [missing] is the number of registers that an
    instruction waits for, or 1 if it waits for commit. *)
Record UnitInv (units : ThreadID -> MemDepUnit) (missing : InstPtr -> DynInst -> nat)
    (pool : InstPtr -> Prop) : Prop := {
  un_inv : forall tid, MDInv predOK tid (unitOf units tid);
  un_in : forall p i, p ∈ insts (threadNumber i) -> heap m !! p = Some i -> isMemRef i = true ->
    memOpDone i = false ->
    exists w, waiting (absMD (unitOf units (threadNumber i))) !! seqNum i = Some w /\ w_inst w = p /\
      (tracked i = true -> w_regs w = bool_decide (missing p i = 0%nat)) /\
      (w_regs w = true -> missing p i = 0%nat);
  un_replay : forall tid p i, p ∈ instsToReplay (units tid) -> heap m !! p = Some i -> isMemRef i = true;
  un_pool : forall p, pool p -> exists i, heap m !! p = Some i /\ (isMemRef i = true ->
    free (units (threadNumber i)) p /\
    (p ∈ insts (threadNumber i) -> memOpDone i = false -> missing p i = 0%nat))
}.

End Invariant.

(** What an instruction waits for: its registers, or, outside the graph, commit. *)
Definition misses (sb : list bool) (ns : gmap Z InstPtr) (p : InstPtr) (i : DynInst) : nat :=
  if tracked i then length (pend sb i) else if decide (ns !! seqNum i = Some p) then 1%nat else 0%nat.

(** Where instructions are that memory dependence units have handed over. *)
Definition handedBy (r : ReadyLists) (l : list InstPtr) (units : ThreadID -> MemDepUnit)
    (insts : ThreadID -> list InstPtr) (m : InstMem) (p : InstPtr) : Prop :=
  (exists c, p ∈ readyInsts r c) \/ p ∈ l \/ (exists tid, p ∈ instsToReplay (units tid)) \/
  (exists i, heap m !! p = Some i /\ p ∈ insts (threadNumber i) /\ isIssued i = true).

Abbreviation memLists q := (deferredMemInsts q ++ blockedMemInsts q ++ retryMemInsts q).

Abbreviation handed q m := (handedBy (ready q) (memLists q) (memDepUnit q) (iqInsts q) m).

(** The units that instructions in execution give back when they complete. *)
Definition heldUnits (ev : list FUCompletion) : list nat :=
  (fun e => Z.to_nat (fuIdx e)) <$> filter (fun e => freeFU e = true) ev.

Record ExecInv (pool : FUPool) (ev : list FUCompletion) (buf : TimeBuffer Z) : Prop := {
  ex_pool : pool_inv (pool, heldUnits ev);
  ex_units : forall e, e ∈ ev -> freeFU e = true -> 0 <= fuIdx e;
  ex_buf : tb_wf buf /\ 1 <= past buf
}.

(** Sequence numbers are not given out twice. *)
Definition seqUniq (insts : ThreadID -> list InstPtr) (m : InstMem) : Prop :=
  forall t t' p q, p ∈ insts t -> q ∈ insts t' -> seqOf m p = seqOf m q -> p = q.

(** The lists of memory instructions that wait outside the ready queues. *)
Definition memOnly (l : list InstPtr) (m : InstMem) : Prop :=
  forall p, p ∈ l -> exists i, heap m !! p = Some i /\ isMemRef i = true.

Record IQInv (s : IQS) : Prop := {
  iv_wake : WakeInv (iqInsts (iq s)) (iqmem s) (dependGraph (iq s)) (regScoreboard (iq s));
  iv_count : CountInv (iqInsts (iq s)) (iqmem s) (count (iq s)) (freeEntries (iq s)) (iqEntries (iq s));
  iv_ready : ReadyInv (iqInsts (iq s)) (iqmem s) (ready (iq s)) (nonSpecInsts (iq s));
  iv_unit : UnitInv (iqInsts (iq s)) (iqmem s) (memDepUnit (iq s))
    (misses (regScoreboard (iq s)) (nonSpecInsts (iq s))) (handed (iq s) (iqmem s));
  iv_exec : ExecInv (fuPool (iq s)) (events s) (issueToExecute (iq s));
  iv_uniq : seqUniq (iqInsts (iq s)) (iqmem s);
  iv_lists : memOnly (memLists (iq s)) (iqmem s)
}.
