(* ===== verification/InstQueueWake.v ===== *)
(** * Waiting for registers in the instruction queue

    The operations of the queue that work on the dependency graph and its
    scoreboard keep [WakeInv]. *)

From stdpp Require Import base numbers list gmap functions sorting.
From S2P Require Import Prelude Regs DynInst ROB TimeBuffer StoreSet FUPool MemDep MemDepSpec DepGraph ReadyList InstQueue InstQueueSpec.

#[local] Open Scope Z_scope.

(** ** Counting *)

Section Occ.
Context {A : Type} `{EqDecision A}.
Implicit Types (x y : A) (l k : list A).

Lemma occ_nil x : occ x [] = 0%nat.
Proof. done. Qed.

Lemma occ_cons x y l : occ x (y :: l) = ((if decide (y = x) then 1 else 0) + occ x l)%nat.
Proof. unfold occ. rewrite filter_cons. by case_decide. Qed.

Lemma occ_app x l k : occ x (l ++ k) = (occ x l + occ x k)%nat.
Proof. unfold occ. by rewrite list_basics.list.filter_app, length_app. Qed.

Lemma occ_perm x l k : l ≡ₚ k -> occ x l = occ x k.
Proof. intros H. unfold occ. by rewrite H. Qed.

Lemma occ_pos x l : (0 < occ x l)%nat <-> x ∈ l.
Proof.
  induction l as [|y l IH]; [rewrite occ_nil, elem_of_nil; lia|].
  rewrite occ_cons, elem_of_cons, <- IH. case_decide as Hd; split; intros H; try lia.
  - left. done.
  - destruct H as [->|H]; [done|lia].
Qed.

Lemma occ_zero x l : occ x l = 0%nat <-> x ∉ l.
Proof. rewrite <- occ_pos. lia. Qed.

Lemma occ_replicate x y n : occ x (replicate n y) = if decide (y = x) then n else 0%nat.
Proof. induction n as [|n IH]; [by case_decide|]. rewrite replicate_S, occ_cons, IH. by repeat case_decide. Qed.

Lemma occ_filter (P : A -> Prop) `{forall x, Decision (P x)} x l :
  occ x (filter P l) = if decide (P x) then occ x l else 0%nat.
Proof.
  induction l as [|y l IH]; [by rewrite filter_nil, occ_nil; case_decide|].
  rewrite filter_cons. destruct (decide (P y)) as [Hy|Hy]; rewrite ?occ_cons, IH; repeat case_decide; subst; done.
Qed.
End Occ.

(** ** The graph *)

Definition inGraph (g : DependencyGraph) (f : Z) : Prop := 0 <= f < Z.of_nat (length (graph g)).

Lemma depAt_ok g f : inGraph g f -> exists d, depAt f g = Ok d /\ graph g !! Z.to_nat f = Some d /\
  consumers d = chainAt g f.
Proof.
  intros Hf. destruct (lookup_lt_is_Some_2 (graph g) (Z.to_nat f)) as [d Hd]; [unfold inGraph in Hf; lia|].
  exists d. unfold depAt, chainAt. by rewrite Hd.
Qed.

(** [g'] is [g] with the list of [f] replaced. *)
Definition chainUpd (f : Z) (l : list InstPtr) (g g' : DependencyGraph) : Prop :=
  length (graph g') = length (graph g) /\ graphEntries g' = graphEntries g /\
  forall f', 0 <= f' -> chainAt g' f' = if decide (f' = f) then l else chainAt g f'.

Lemma updDep_ok g f h : inGraph g f ->
  exists d g', graph g !! Z.to_nat f = Some d /\ updDep f h g = Ok g' /\ chainUpd f (consumers (h d)) g g' /\
    graph g' = <[Z.to_nat f := h d]> (graph g) /\ memAllocCounter g' = memAllocCounter g.
Proof.
  intros Hf. destruct (depAt_ok g f Hf) as (d & Ed & Hd & _). unfold updDep. rewrite Ed. cbn [mbind res_bind].
  eexists d, _. split_and!; [done|done| |done|done]. unfold chainUpd. cbn. split_and!; [by rewrite length_insert|done|].
  intros f' Hf'. unfold chainAt. cbn. destruct (decide (f' = f)) as [->|Hne].
  - by rewrite list_lookup_insert_eq by (by apply lookup_lt_Some in Hd).
  - rewrite list_lookup_insert_ne; [done|]. unfold inGraph in Hf. lia.
Qed.

Lemma chainUpd_counter f l g g' k : chainUpd f l g g' -> chainUpd f l g (g' <| memAllocCounter := k |>).
Proof. done. Qed.

Lemma graphInsert_ok g f p : inGraph g f ->
  exists g', DepGraph.insert f p g = Ok g' /\ chainUpd f (p :: chainAt g f) g g'.
Proof.
  intros Hf. unfold DepGraph.insert. destruct (depAt_ok g f Hf) as (d & _ & Hd & <-).
  destruct (updDep_ok g f (fun d => d <| consumers := p :: consumers d |>) Hf) as (d' & g' & Hd' & -> & Hu & _).
  assert (d' = d) as -> by congruence. cbn [mbind res_bind]. eexists. split; [done|]. by apply chainUpd_counter.
Qed.

(** Operations on the head node leave the lists as they are. *)
Definition chainsKept (g g' : DependencyGraph) : Prop :=
  length (graph g') = length (graph g) /\ graphEntries g' = graphEntries g /\
  forall f', 0 <= f' -> chainAt g' f' = chainAt g f'.

Lemma headUpd_ok g f h : inGraph g f -> (forall d, consumers (h d) = consumers d) ->
  exists g', updDep f h g = Ok g' /\ chainsKept g g'.
Proof.
  intros Hf Hh. destruct (depAt_ok g f Hf) as (d & _ & Hd & Hc).
  destruct (updDep_ok g f h Hf) as (d' & g' & Hd' & E & (H1 & H2 & H3) & _). exists g'.
  assert (d' = d) as -> by congruence. split; [done|]. split_and!; [done..|]. intros f' Hf'. rewrite (H3 f' Hf').
  case_decide; [|done]. subst. by rewrite Hh.
Qed.

Lemma emptyAt_ok g f : inGraph g f -> emptyAt f g = Ok (bool_decide (chainAt g f = [])).
Proof. intros Hf. unfold emptyAt. destruct (depAt_ok g f Hf) as (d & -> & _ & <-). done. Qed.

Lemma pop_ok g f : inGraph g f ->
  match chainAt g f with
  | [] => pop f g = Ok (None, g)
  | p :: l => exists g', pop f g = Ok (Some p, g') /\ chainUpd f l g g'
  end.
Proof.
  intros Hf. destruct (depAt_ok g f Hf) as (d & Ed & Hd & Hc). unfold pop. rewrite Ed. cbn [mbind res_bind].
  rewrite <- Hc. destruct (consumers d) as [|p l]; [done|].
  destruct (updDep_ok g f (fun d => d <| consumers := l |>) Hf) as (d' & g' & Hd' & -> & Hu & _).
  cbn [mbind res_bind]. eexists. split; [done|]. by apply chainUpd_counter.
Qed.

Lemma unlink_ok p l : p ∈ l -> exists l', unlink p l = Ok l' /\ l ≡ₚ p :: l'.
Proof.
  induction l as [|q l IH]; [by intros ?%elem_of_nil|]. cbn. intros Hp. destruct (decide (q = p)) as [->|Hne]; [eauto|].
  apply elem_of_cons in Hp as [->|Hp]; [done|]. destruct (IH Hp) as (l' & -> & HP). cbn. eexists. split; [done|].
  rewrite HP. constructor.
Qed.

(** Removing an instruction that is on the list of [f], or from an empty list. *)
Lemma remove_ok g f p : inGraph g f -> (chainAt g f = [] \/ p ∈ chainAt g f) ->
  exists g' l, remove f p g = Ok g' /\ chainUpd f l g g' /\
    ((chainAt g f = [] /\ l = []) \/ chainAt g f ≡ₚ p :: l).
Proof.
  intros Hf Hp. destruct (depAt_ok g f Hf) as (d & Ed & Hd & Hc). unfold remove. rewrite Ed. cbn [mbind res_bind].
  rewrite Hc. case_decide as Hn.
  - exists g, []. split; [done|]. split; [|by left]. split_and!; [done..|]. intros f' Hf'. case_decide; by subst.
  - destruct Hp as [?|Hp]; [done|]. destruct (unlink_ok p _ Hp) as (l & -> & HP). cbn [mbind res_bind].
    destruct (updDep_ok g f (fun d => d <| consumers := l |>) Hf) as (d' & g' & Hd' & -> & Hu & _).
    cbn [mbind res_bind]. eexists _, l. split; [done|]. split; [by apply chainUpd_counter|by right].
Qed.

(** ** Inserting a consumer *)

(** [i'] is [i] with other ready bits. *)
Definition regsOnly (i i' : DynInst) : Prop :=
  sameInst i i' /\ srcIdx i' = srcIdx i /\ destIdx i' = destIdx i /\ instFlags i' = instFlags i /\
  fault i' = fault i /\ length (readySrcIdx i') = length (readySrcIdx i) /\
  forall b, b <> CanIssue -> status i' b = status i b.

Lemma regsOnly_refl i : regsOnly i i.
Proof. by repeat split. Qed.

Lemma regsOnly_trans i j k : regsOnly i j -> regsOnly j k -> regsOnly i k.
Proof.
  intros (H1 & H2 & H3 & H4 & H5 & H6 & H7) (K1 & K2 & K3 & K4 & K5 & K6 & K7). split_and!; try congruence.
  - by eapply sameInst_trans.
  - intros b Hb. by rewrite K7, H7.
Qed.

(** An instruction can issue when all its sources are counted ready. *)
Definition canOK (i : DynInst) : Prop :=
  readyToIssue i = bool_decide (readyRegs i = Z.of_nat (numSrcRegs i)).

Lemma markSrcRegReady_ok i : 0 <= readyRegs i < Z.of_nat (numSrcRegs i) -> (numSrcRegs i < 128)%nat -> canOK i ->
  regsOnly i (markSrcRegReady i) /\ readySrcIdx (markSrcRegReady i) = readySrcIdx i /\
  readyRegs (markSrcRegReady i) = readyRegs i + 1 /\ canOK (markSrcRegReady i).
Proof.
  intros Hr Hn Hc. unfold markSrcRegReady.
  assert (Hw : wrap 8 (readyRegs i + 1) = readyRegs i + 1) by (apply wrap_small; lia).
  cbn [readyRegs upd_field eta_inst]. rewrite Hw. unfold canOK, numSrcRegs in *. cbn [srcIdx upd_field eta_inst].
  destruct (Z.eqb_spec (readyRegs i + 1) (Z.of_nat (length (srcIdx i)))) as [He|He].
  - split_and!; try done.
    + split_and!; try done. intros b Hb. cbn. by rewrite fn_lookup_insert_ne.
    + unfold readyToIssue. cbn. rewrite fn_lookup_insert. by rewrite bool_decide_eq_true_2.
  - split_and!; try done. unfold readyToIssue in *. cbn. rewrite Hc. rewrite !bool_decide_eq_false_2; [done|lia..].
Qed.

Abbreviation notYet sb := (fun f : Z => sb !! Z.to_nat f = Some false).

Definition putInst (p : InstPtr) (i : DynInst) (g : DependencyGraph) (s : IQS) : IQS :=
  s <| iq := iq s <| dependGraph := g |> |> <| iqmem := iqmem s <| heap := <[p := i]> (heap (iqmem s)) |> |>.

Lemma putInst_id p i s : heap (iqmem s) !! p = Some i -> putInst p i (dependGraph (iq s)) s = s.
Proof.
  intros Hp. unfold putInst. destruct s as [q [h ps] ev ac]. cbn in *. rewrite insert_id by done. by destruct q.
Qed.

Lemma putInst_twice p i g i' g' s : putInst p i' g' (putInst p i g s) = putInst p i' g' s.
Proof. unfold putInst. cbn. by rewrite insert_insert_eq. Qed.

Lemma zip_drop_S {A B} (l : list A) (k : list B) n a b :
  l !! n = Some a -> k !! n = Some b -> drop n (zip l k) = (a, b) :: drop (S n) (zip l k).
Proof. intros Ha Hb. apply drop_S. apply lookup_zip_Some. done. Qed.

Lemma zip_insert_r {A B} (l : list A) (k : list B) n a b :
  l !! n = Some a -> (n < length k)%nat ->
  zip l (<[n := b]> k) = <[n := (a, b)]> (zip l k).
Proof.
  revert k n. induction l as [|x l IH]; intros [|y k] [|n] Ha Hn; cbn in *; try lia; try done.
  - by injection Ha as ->.
  - f_equal. apply IH; [done|lia].
Qed.

(** One source: [x] is its register and its ready bit. *)
Lemma addSrc_ok p sb k s i r b :
  heap (iqmem s) !! p = Some i -> sb = regScoreboard (iq s) -> length (graph (dependGraph (iq s))) = length sb ->
  srcIdx i !! k = Some (Some r) -> readySrcIdx i !! k = Some b -> canOK i -> (numSrcRegs i < 128)%nat ->
  let U := omap srcWait [(Some r, b)] in
  let g := dependGraph (iq s) in
  (forall f, f ∈ U -> 0 <= f < Z.of_nat (length sb)) ->
  0 <= readyRegs i -> readyRegs i + Z.of_nat (length U) <= Z.of_nat (numSrcRegs i) ->
  exists i' g' b', addSrc p s k = Ok (putInst p i' g' s) /\ regsOnly i i' /\ canOK i' /\
    readySrcIdx i' = <[k := b']> (readySrcIdx i) /\ omap srcWait [(Some r, b')] = filter (notYet sb) U /\
    readyRegs i' + Z.of_nat (length (filter (notYet sb) U)) = readyRegs i + Z.of_nat (length U) /\
    length (graph g') = length (graph g) /\ graphEntries g' = graphEntries g /\
    forall f, 0 <= f -> chainAt g' f = replicate (occ f (filter (notYet sb) U)) p ++ chainAt g f.
Proof.
  intros Hp Hsb Hg Ho Hb Hcan Hn U g Hrange Hrr Hle. unfold addSrc, getInst. rewrite Hp. cbn [deref mbind res_bind].
  rewrite Hb. cbn [deref mbind res_bind].
  assert (Hstay : U = [] -> exists i' g' b', Ok s = Ok (putInst p i' g' s) /\ regsOnly i i' /\ canOK i' /\
    readySrcIdx i' = <[k := b']> (readySrcIdx i) /\ omap srcWait [(Some r, b')] = filter (notYet sb) U /\
    readyRegs i' + Z.of_nat (length (filter (notYet sb) U)) = readyRegs i + Z.of_nat (length U) /\
    length (graph g') = length (graph g) /\ graphEntries g' = graphEntries g /\
    forall f, 0 <= f -> chainAt g' f = replicate (occ f (filter (notYet sb) U)) p ++ chainAt g f).
  { intros EU. exists i, (dependGraph (iq s)), b. rewrite putInst_id by done. fold U. rewrite EU. split_and!; try done.
    by rewrite list_insert_id. }
  destruct b; [by apply Hstay|]. rewrite Ho. cbn [deref mbind res_bind].
  destruct (isFixedMapping r) eqn:Efix; [apply Hstay; unfold U; cbn; by rewrite Efix|]. clear Hstay.
  assert (EU : U = [flatIndex r]) by (unfold U; cbn; by rewrite Efix). rewrite EU in Hle, Hrange |- *.
  pose proof (Hrange (flatIndex r) (list_elem_of_here _ _)) as Hf.
  destruct (lookup_lt_is_Some_2 sb (Z.to_nat (flatIndex r))) as [v Hv]; [lia|].
  unfold regReady. rewrite <- Hsb, Hv. cbn [deref mbind res_bind]. destruct v; cbn [negb].
  - unfold markSrcRegReadyIdx. rewrite Hb. cbn [deref mbind res_bind].
    set (i1 := i <| readySrcIdx := <[k := true]> (readySrcIdx i) |>). cbn [length] in Hle.
    destruct (markSrcRegReady_ok i1) as (M1 & M2 & M3 & M4); [unfold numSrcRegs in *; cbn in *; lia|done|done|].
    unfold onInst, updInst, getInst. rewrite Hp. cbn [deref mbind res_bind].
    exists (markSrcRegReady i1), g, true. rewrite filter_cons_False by (rewrite Hv; congruence).
    split_and!; try done; [by destruct s as [[] ? ? ?]| |].
    + eapply regsOnly_trans; [|exact M1]. split_and!; try done. cbn. by rewrite length_insert.
    + rewrite M3. change (readyRegs i1) with (readyRegs i). cbn. lia.
  - destruct (graphInsert_ok g (flatIndex r) p) as (g1 & Eg & (L1 & L2 & L3)); [unfold inGraph, g; lia|].
    unfold onGraph. fold g. rewrite Eg. cbn [mbind res_bind]. exists i, g1, false.
    rewrite filter_cons_True, filter_nil by done. split_and!; try done.
    + unfold putInst, updIQ. destruct s as [q [h ps] ev ac]. cbn in *. by rewrite insert_id.
    + by rewrite list_insert_id.
    + intros f' Hf'. rewrite (L3 f' Hf'), occ_cons, occ_nil. repeat case_decide; subst; done.
Qed.

Lemma addSrcs_ok p sb j : forall k s i,
  (k + j)%nat = numSrcRegs i -> heap (iqmem s) !! p = Some i -> sb = regScoreboard (iq s) ->
  length (graph (dependGraph (iq s))) = length sb ->
  Forall is_Some (srcIdx i) -> length (readySrcIdx i) = length (srcIdx i) ->
  let U := omap srcWait (drop k (zip (srcIdx i) (readySrcIdx i))) in
  let g := dependGraph (iq s) in
  (forall f, f ∈ U -> 0 <= f < Z.of_nat (length sb)) ->
  canOK i -> 0 <= readyRegs i -> (numSrcRegs i < 128)%nat ->
  readyRegs i + Z.of_nat (length U) <= Z.of_nat (numSrcRegs i) ->
  exists i' g', foldR (addSrc p) s (seq k j) = Ok (putInst p i' g' s) /\ regsOnly i i' /\ canOK i' /\
    unreadySrcs i' = omap srcWait (take k (zip (srcIdx i) (readySrcIdx i))) ++ filter (notYet sb) U /\
    readyRegs i' + Z.of_nat (length (filter (notYet sb) U)) = readyRegs i + Z.of_nat (length U) /\
    length (graph g') = length (graph g) /\ graphEntries g' = graphEntries g /\
    forall f, 0 <= f -> chainAt g' f = replicate (occ f (filter (notYet sb) U)) p ++ chainAt g f.
Proof.
  induction j as [|j IH]; intros k s i Hkj Hp Hsb Hg Hsrc Hbits U g Hrange Hcan Hrr Hn Hle; cbn [seq foldR];
    unfold numSrcRegs in Hkj.
  { assert (EU : U = []) by (unfold U; by rewrite drop_ge by (rewrite length_zip_with; lia)).
    exists i, (dependGraph (iq s)). rewrite putInst_id, EU, filter_nil, app_nil_r by done. split_and!; try done.
    unfold unreadySrcs. by rewrite firstn_all2 by (rewrite length_zip_with; lia). }
  destruct (lookup_lt_is_Some_2 (srcIdx i) k) as [o Ho]; [lia|].
  destruct (lookup_lt_is_Some_2 (readySrcIdx i) k) as [b Hb]; [lia|].
  destruct (Forall_lookup_1 _ _ _ _ Hsrc Ho) as [r ->].
  set (zs := zip (srcIdx i) (readySrcIdx i)) in *.
  assert (EU : U = omap srcWait [(Some r, b)] ++ omap srcWait (drop (S k) zs)).
  { unfold U. rewrite <- omap_app. f_equal. apply (zip_drop_S _ _ _ _ _ Ho Hb). }
  rewrite EU in Hrange, Hle |- *. rewrite length_app, Nat2Z.inj_add in Hle.
  destruct (addSrc_ok p sb k s i r b) as (i1 & g1 & b' & -> & (R1 & R2 & R3 & R4 & R5 & R6 & R7) & C1 & B1 & W1 & E1 & L1 & L2 & L3); try done; [|lia|].
  { intros f Hf. apply Hrange, elem_of_app. by left. }
  pose proof (length_filter (notYet sb) (omap srcWait [(Some r, b)])) as Hfl.
  cbn [mbind res_bind]. assert (Hzl : (k < length zs)%nat) by (unfold zs; rewrite length_zip_with; lia).
  assert (Ez : zip (srcIdx i1) (readySrcIdx i1) = <[k := (Some r, b')]> zs).
  { rewrite R2, B1. apply zip_insert_r; [done|lia]. }
  assert (Ed : drop (S k) (zip (srcIdx i1) (readySrcIdx i1)) = drop (S k) zs) by (rewrite Ez; apply drop_insert_lt; lia).
  destruct (IH (S k) (putInst p i1 g1 s) i1) as (i' & g' & E & H1 & H2 & H3 & H4 & H5 & H6 & H7);
    rewrite ?Ed; unfold numSrcRegs; rewrite ?R2; try done;
    [cbn; lia|cbn; by rewrite lookup_insert_eq|cbn; congruence|congruence| |lia| |].
  { intros f Hf. apply Hrange, elem_of_app. by right. }
  { unfold numSrcRegs in Hle. lia. }
  rewrite Ed in H3, H4, H7. exists i', g'. rewrite list_basics.list.filter_app, <- W1, !length_app, W1. split_and!; try done.
  - by rewrite E, putInst_twice.
  - eapply regsOnly_trans; [|exact H1]. by split_and!.
  - rewrite H3, Ez, take_S_r with (x := (Some r, b')) by (by apply list_lookup_insert_eq).
    rewrite omap_app, take_insert_ge by lia. rewrite <- app_assoc. f_equal. by rewrite W1.
  - lia.
  - rewrite H5. exact L1.
  - rewrite H6. exact L2.
  - intros f Hf. rewrite (H7 f Hf). change (dependGraph (iq (putInst p i1 g1 s))) with g1.
    by rewrite (L3 f Hf), occ_app, Nat.add_comm, replicate_add, <- app_assoc.
Qed.

Lemma int8_small n : (n < 128)%nat -> Z.to_nat (int8 n) = n.
Proof. intros Hn. unfold int8. rewrite wrap_small by lia. lia. Qed.

(** The instruction waits for what the scoreboard does not have. *)
Lemma addToDependents_ok p s i :
  heap (iqmem s) !! p = Some i -> length (graph (dependGraph (iq s))) = length (regScoreboard (iq s)) ->
  regsOK (length (regScoreboard (iq s))) i -> canOK i -> 0 <= readyRegs i ->
  readyRegs i + Z.of_nat (length (unreadySrcs i)) = Z.of_nat (numSrcRegs i) ->
  let sb := regScoreboard (iq s) in let g := dependGraph (iq s) in
  exists i' g', addToDependents p s = Ok (putInst p i' g' s) /\ regsOnly i i' /\ canOK i' /\
    unreadySrcs i' = pend sb i /\ readyRegs i' + Z.of_nat (length (pend sb i)) = Z.of_nat (numSrcRegs i) /\
    length (graph g') = length (graph g) /\ graphEntries g' = graphEntries g /\
    forall f, 0 <= f -> chainAt g' f = replicate (occ f (pend sb i)) p ++ chainAt g f.
Proof.
  intros Hp Hg Hok Hcan Hrr Hle sb g. unfold addToDependents, getInst. rewrite Hp. cbn [deref mbind res_bind].
  rewrite int8_small by apply Hok. change (unreadySrcs i) with (omap srcWait (drop 0 (zip (srcIdx i) (readySrcIdx i)))) in Hle.
  destruct (addSrcs_ok p sb (numSrcRegs i) 0 s i) as (i' & g' & E & H1 & H2 & H3 & H4 & H5 & H6 & H7);
    try done; try apply Hok; [|lia|].
  { intros f Hf. apply (rg_range _ _ Hok). by left. }
  exists i', g'. split_and!; try done. rewrite <- Hle. exact H4.
Qed.

(** ** Inserting a producer *)

Definition putGraph (g : DependencyGraph) (sb : list bool) (s : IQS) : IQS :=
  s <| iq := iq s <| dependGraph := g |> <| regScoreboard := sb |> |>.

(** The scoreboard with the registers [l] marked [b]. *)
Definition marked (b : bool) (l : list Z) (sb sb' : list bool) : Prop :=
  length sb' = length sb /\
  forall f, 0 <= f -> sb' !! Z.to_nat f = if decide (f ∈ l) then (fun _ => b) <$> sb !! Z.to_nat f else sb !! Z.to_nat f.

Lemma setRegReady_ok b r s : 0 <= flatIndex r < Z.of_nat (length (regScoreboard (iq s))) ->
  exists sb', setRegReady b r s = Ok (putGraph (dependGraph (iq s)) sb' s) /\
    marked b [flatIndex r] (regScoreboard (iq s)) sb'.
Proof.
  intros Hr. destruct (lookup_lt_is_Some_2 (regScoreboard (iq s)) (Z.to_nat (flatIndex r))) as [v Hv]; [lia|].
  unfold setRegReady, regReady. rewrite Hv. cbn [deref mbind res_bind]. eexists. split; [by destruct s as [[] ? ? ?]|].
  split; [by rewrite length_insert|]. intros f Hf. rewrite list_lookup_insert. case_decide as Hd.
  - destruct Hd as [Hd _]. assert (f = flatIndex r) as -> by lia. rewrite decide_True by (by left). by rewrite Hv.
  - rewrite decide_False; [done|]. intros ->%list_elem_of_singleton. apply Hd. split; [done|]. by apply lookup_lt_Some in Hv.
Qed.

Lemma marked_nil b sb : marked b [] sb sb.
Proof. split; [done|]. intros f Hf. by rewrite decide_False by apply not_elem_of_nil. Qed.

Lemma marked_app b l k sb sb1 sb2 : marked b l sb sb1 -> marked b k sb1 sb2 -> marked b (l ++ k) sb sb2.
Proof.
  intros [L1 H1] [L2 H2]. split; [congruence|]. intros f Hf. rewrite (H2 f Hf), (H1 f Hf).
  repeat case_decide; try done; try (by destruct (sb !! Z.to_nat f)); set_solver.
Qed.

Lemma addDests_ok p l : forall s,
  Forall is_Some l -> length (graph (dependGraph (iq s))) = length (regScoreboard (iq s)) ->
  (forall f, f ∈ omap destFlat l -> 0 <= f < Z.of_nat (length (regScoreboard (iq s))) /\ chainAt (dependGraph (iq s)) f = []) ->
  exists g' sb', foldR (addDest p) s l = Ok (putGraph g' sb' s) /\ chainsKept (dependGraph (iq s)) g' /\
    marked false (omap destFlat l) (regScoreboard (iq s)) sb'.
Proof.
  induction l as [|o l IH]; intros s Hl Hg Hf; cbn [foldR].
  { exists (dependGraph (iq s)), (regScoreboard (iq s)). split_and!; [by destruct s as [[] ? ? ?]|done|apply marked_nil]. }
  apply Forall_cons_1 in Hl as [[r ->] Hl]. unfold addDest at 2. cbn [deref mbind res_bind]. cbn [omap list_omap destFlat] in Hf |- *.
  destruct (isFixedMapping r); cbn [mbind res_bind].
  { by apply IH. }
  destruct (Hf (flatIndex r)) as [Hr Hc]; [by left|].
  rewrite emptyAt_ok by (unfold inGraph; lia). rewrite Hc. cbn [mbind res_bind negb bool_decide].
  rewrite bool_decide_eq_true_2 by done. cbn [negb]. unfold setInst, onGraph.
  destruct (headUpd_ok (dependGraph (iq s)) (flatIndex r) (fun d => d <| producer := Some p |>)) as (g1 & -> & K1 & K2 & K3);
    [unfold inGraph; lia|done|]. cbn [mbind res_bind].
  set (s1 := updIQ (fun q => q <| dependGraph := g1 |>) s).
  destruct (setRegReady_ok false r s1) as (sb1 & -> & M1); [done|]. cbn [mbind res_bind].
  destruct (IH (putGraph (dependGraph (iq s1)) sb1 s1)) as (g' & sb' & E & (C1 & C2 & C3) & M2); [done| | |].
  { cbn. destruct M1 as [M1 _]. cbn in M1. congruence. }
  { intros f Hin. cbn. destruct M1 as [M1 _]. cbn in M1. rewrite M1. destruct (Hf f) as [? Hcf]; [by right|].
    split; [done|]. rewrite K3 by lia. done. }
  exists g', sb'. split_and!.
  - exact E.
  - cbn in C1, C2. split_and!; [congruence..|]. intros f' Hf'. rewrite (C3 f' Hf'). by apply K3.
  - by apply (marked_app false [flatIndex r] _ _ sb1).
Qed.

Lemma addToProducers_ok p s i :
  heap (iqmem s) !! p = Some i -> length (graph (dependGraph (iq s))) = length (regScoreboard (iq s)) ->
  regsOK (length (regScoreboard (iq s))) i ->
  (forall f, f ∈ destFlats i -> chainAt (dependGraph (iq s)) f = []) ->
  exists g' sb', addToProducers p s = Ok (putGraph g' sb' s) /\ chainsKept (dependGraph (iq s)) g' /\
    marked false (destFlats i) (regScoreboard (iq s)) sb'.
Proof.
  intros Hp Hg Hok Hc. unfold addToProducers, getInst. rewrite Hp. cbn [deref mbind res_bind].
  rewrite int8_small by apply Hok. unfold numDestRegs. rewrite firstn_all. apply addDests_ok; [apply Hok|done|].
  intros f Hf. split; [|by apply Hc]. apply (rg_range _ _ Hok). by right.
Qed.

(** ** The invariant *)

(** What [WakeInv] looks at in an instruction, other than the bits of issuing. *)
Definition sameRegs (i i' : DynInst) : Prop :=
  sameInst i i' /\ srcIdx i' = srcIdx i /\ destIdx i' = destIdx i /\ readySrcIdx i' = readySrcIdx i /\
  readyRegs i' = readyRegs i /\ isSquashedInIQ i' = isSquashedInIQ i.

Lemma sameRegs_flats i i' : sameRegs i i' -> unreadySrcs i' = unreadySrcs i /\ destFlats i' = destFlats i /\
  numSrcRegs i' = numSrcRegs i /\ numDestRegs i' = numDestRegs i /\ (forall sb, pend sb i' = pend sb i).
Proof.
  intros (_ & E1 & E2 & E3 & _). assert (EU : unreadySrcs i' = unreadySrcs i) by (unfold unreadySrcs; congruence).
  unfold destFlats, numSrcRegs, numDestRegs, pend. rewrite EU, E1, E2. done.
Qed.

Lemma sameInst_tracked i i' : sameInst i i' -> tracked i' = tracked i /\ isMemRef i' = isMemRef i /\
  speculative i' = speculative i /\ instOpClass i' = instOpClass i.
Proof.
  intros (_ & _ & E & _). unfold tracked, speculative, isMemRef, instOpClass, isFullMemBarrier, isLoad, isStore,
    isStoreConditional, isNonSpeculative, isAtomic, isReadBarrier, isWriteBarrier. by rewrite E.
Qed.

Lemma regsOK_same n i i' : sameRegs i i' -> regsOK n i -> regsOK n i'.
Proof.
  intros Hs Hok. pose proof (sameRegs_flats _ _ Hs) as (E1 & E2 & E3 & E4 & _).
  destruct Hs as (_ & S1 & S2 & S3 & _). split; rewrite ?E1, ?E2, ?E3, ?E4, ?S1, ?S2, ?S3; apply Hok.
Qed.

(** The bits of issuing agree with the registers still missing. *)
Definition issueOK (sb : list bool) (i : DynInst) : Prop :=
  tracked i = true ->
  (readyToIssue i = true \/ isIssued i = true -> pend sb i = []) /\
  (isMemRef i = false -> pend sb i = [] -> readyToIssue i = true).

Lemma wk_lookup insts m g sb tid p i : WakeInv insts m g sb -> p ∈ insts tid -> heap m !! p = Some i ->
  p ∈ insts (threadNumber i) /\ tid = threadNumber i.
Proof.
  intros HW Hp Hi. destruct (wk_inst _ _ _ _ HW _ _ Hp) as (i' & Hi' & <- & _).
  assert (i' = i) as -> by congruence. done.
Qed.

(** Instructions change, but not what their registers are. *)
Lemma WakeInv_mem insts m m' g sb :
  WakeInv insts m g sb ->
  (forall p i, p ∈ insts (threadNumber i) -> heap m !! p = Some i ->
    exists i', heap m' !! p = Some i' /\ sameRegs i i' /\ issueOK sb i') ->
  WakeInv insts m' g sb.
Proof.
  intros HW Hm.
  assert (Hback : forall p i', p ∈ insts (threadNumber i') -> heap m' !! p = Some i' ->
            exists i, heap m !! p = Some i /\ p ∈ insts (threadNumber i) /\ sameRegs i i' /\ issueOK sb i').
  { intros p i' Hp Hi'. destruct (wk_inst _ _ _ _ HW _ _ Hp) as (i & Hi & Et & _).
    rewrite <- Et in Hp. destruct (Hm p i Hp Hi) as (i2 & Hi2 & Hs & Hok).
    assert (i2 = i') as -> by congruence. eauto. }
  assert (Hseq : forall tid p, p ∈ insts tid -> seqOf m' p = seqOf m p).
  { intros tid p Hp. destruct (wk_inst _ _ _ _ HW _ _ Hp) as (i & Hi & Et & _). subst tid.
    destruct (Hm p i Hp Hi) as (i' & Hi' & ((Es & _) & _) & _). unfold seqOf. by rewrite Hi, Hi'. }
  split.
  - apply HW.
  - intros tid p Hp. destruct (wk_inst _ _ _ _ HW _ _ Hp) as (i & Hi & Et & Hsq & Hok). subst tid.
    destruct (Hm p i Hp Hi) as (i' & Hi' & Hs & _). exists i'. pose proof Hs as ((_ & Et & _) & _ & _ & _ & _ & Eq).
    split_and!; [done|done|congruence|by eapply regsOK_same].
  - intros tid. pose proof (wk_order _ _ _ _ HW tid) as Ho. specialize (Hseq tid).
    induction Ho as [|p l Ho IH Hp]; constructor.
    + apply IH. intros q Hq. apply Hseq. by right.
    + rewrite list_relations.list.Forall_forall in Hp |- *. intros q Hq. rewrite !Hseq by (by left || by right). by apply Hp.
  - apply HW.
  - intros f p Hf Hp. destruct (wk_chain _ _ _ _ HW f p Hf Hp) as (i & Hi & Hin & Ht).
    destruct (Hm p i Hin Hi) as (i' & Hi' & (Hs & _) & _). exists i'.
    destruct (sameInst_tracked _ _ Hs) as (-> & _). destruct Hs as (_ & -> & _). done.
  - intros p i' f Hp Hi' Ht Hf Hb. destruct (Hback p i' Hp Hi') as (i & Hi & Hin & Hs & _).
    destruct (sameRegs_flats _ _ Hs) as (-> & _). destruct Hs as [Hs _]. destruct (sameInst_tracked _ _ Hs) as (E & _).
    apply (wk_count _ _ _ _ HW); congruence.
  - intros p i' f c Hp Hi' Hf Hc. destruct (Hback p i' Hp Hi') as (i & Hi & Hin & Hs & _).
    destruct (sameRegs_flats _ _ Hs) as (_ & E & _). rewrite E in Hf. destruct Hs as [(Es & Et & _) _].
    destruct (wk_prod _ _ _ _ HW p i f c Hin Hi Hf Hc) as [H1 H2]. rewrite Et, Es. split; [done|]. by rewrite (Hseq _ _ H1).
  - intros p i' Hp Hi' Ht. destruct (Hback p i' Hp Hi') as (i & Hi & Hin & Hs & _).
    destruct (sameRegs_flats _ _ Hs) as (_ & _ & -> & _ & ->). destruct Hs as (Hs & _ & _ & _ & -> & _).
    destruct (sameInst_tracked _ _ Hs) as (E & _). apply (wk_ready _ _ _ _ HW p); congruence.
  - intros p i' Hp Hi' Ht. destruct (Hback p i' Hp Hi') as (_ & _ & _ & _ & Hok). by apply Hok.
Qed.

Lemma pend_sub sb i f : f ∈ pend sb i <-> f ∈ unreadySrcs i /\ sb !! Z.to_nat f = Some false.
Proof. unfold pend. rewrite list_elem_of_filter. naive_solver. Qed.

Lemma pend_ext sb sb' i : (forall f, f ∈ unreadySrcs i -> sb' !! Z.to_nat f = sb !! Z.to_nat f) ->
  pend sb' i = pend sb i.
Proof.
  unfold pend. induction (unreadySrcs i) as [|f l IH]; intros H; [done|]. rewrite !filter_cons.
  rewrite (H f) by (by left). rewrite IH; [done|]. intros f' Hf'. apply H. by right.
Qed.

(** Marking registers that no instruction of the queue waits for. *)
Lemma pend_marked b l sb sb' n i : marked b l sb sb' -> regsOK n i -> (forall f, f ∈ l -> f ∉ unreadySrcs i) ->
  pend sb' i = pend sb i.
Proof.
  intros [_ HM] Hok Hl. apply pend_ext. intros f Hf. rewrite HM by (apply (rg_range _ _ Hok); by left).
  rewrite decide_False; [done|]. intros Hin. by apply (Hl f).
Qed.

(** ** Insertion *)

(** The registers of a new instruction: what it writes nobody of the queue waits
    for, nor does it itself; what it waits for is written, if at all, by
    instructions of its own thread. *)
Record newRegs (insts : ThreadID -> list InstPtr) (m : InstMem) (i : DynInst) : Prop := {
  nr_dests : forall q j f, q ∈ insts (threadNumber j) -> heap m !! q = Some j -> f ∈ destFlats i ->
    f ∉ unreadySrcs j;
  nr_own : forall f, f ∈ destFlats i -> f ∉ unreadySrcs i;
  nr_srcs : forall q j f, q ∈ insts (threadNumber j) -> heap m !! q = Some j -> f ∈ unreadySrcs i ->
    f ∈ destFlats j -> threadNumber j = threadNumber i
}.

Lemma unready_empty insts m g sb i f : WakeInv insts m g sb -> newRegs insts m i -> f ∈ destFlats i ->
  0 <= f < Z.of_nat (length sb) -> chainAt g f = [].
Proof.
  intros HW HN Hf Hr. destruct (lookup_lt_is_Some_2 sb (Z.to_nat f)) as [v Hv]; [lia|].
  destruct v; [apply (wk_sb _ _ _ _ HW); [lia|done]|].
  destruct (chainAt g f) as [|p l] eqn:E; [done|]. exfalso.
  destruct (wk_chain _ _ _ _ HW f p) as (j & Hj & Hin & Ht); [lia|rewrite E; by left|].
  assert (Hpos : (0 < occ p (chainAt g f))%nat) by (apply occ_pos; rewrite E; by left).
  rewrite (wk_count _ _ _ _ HW p j f) in Hpos by (done || lia). apply occ_pos in Hpos.
  by eapply (nr_dests _ _ _ HN).
Qed.

Section Insert.
Context (insts : ThreadID -> list InstPtr) (m m' : InstMem) (g g' : DependencyGraph) (sb sb' : list bool).
Context (p : InstPtr) (i : DynInst).
Hypothesis HW : WakeInv insts m g sb.
Hypothesis Hp : heap m' !! p = Some i.
Hypothesis Hm : forall q, q <> p -> heap m' !! q = heap m !! q.
Hypothesis Hnew : forall tid, p ∉ insts tid.
Hypothesis Hyoung : forall q, q ∈ insts (threadNumber i) -> seqOf m q < seqNum i.
Hypothesis Hok : regsOK (length sb) i.
Hypothesis Hsq : isSquashedInIQ i = false.
Hypothesis HN : newRegs insts m i.
Hypothesis Hmark : marked false (destFlats i) sb sb'.
Hypothesis Hlen : length (graph g') = length (graph g) /\ graphEntries g' = graphEntries g.
Hypothesis Hchain : forall f, 0 <= f ->
  chainAt g' f = replicate (if tracked i then occ f (unreadySrcs i) else 0%nat) p ++ chainAt g f.
Hypothesis Hpend : tracked i = true -> forall f, f ∈ unreadySrcs i -> sb !! Z.to_nat f = Some false.
Hypothesis Hready : tracked i = true ->
  readyRegs i + Z.of_nat (length (unreadySrcs i)) = Z.of_nat (numSrcRegs i).
Hypothesis Hissue : tracked i = true ->
  (readyToIssue i = true \/ isIssued i = true -> unreadySrcs i = []) /\
  (isMemRef i = false -> unreadySrcs i = [] -> readyToIssue i = true).

Let insts' := <[threadNumber i := insts (threadNumber i) ++ [p]]> insts.

Local Lemma in_elem q tid : q ∈ insts' tid <-> q ∈ insts tid \/ (q = p /\ tid = threadNumber i).
Proof.
  unfold insts'. destruct (decide (tid = threadNumber i)) as [->|Hne].
  - rewrite fn_lookup_insert, elem_of_app, list_elem_of_singleton. naive_solver.
  - rewrite fn_lookup_insert_ne by done. naive_solver.
Qed.

Local Lemma in_cases q j : q ∈ insts' (threadNumber j) -> heap m' !! q = Some j ->
  (q = p /\ j = i) \/ (q <> p /\ q ∈ insts (threadNumber j) /\ heap m !! q = Some j).
Proof.
  intros [Hq|[-> Ht]]%in_elem Hj.
  - assert (q <> p) by (intros ->; by eapply Hnew). right. rewrite Hm in Hj by done. done.
  - left. split; [done|congruence].
Qed.

Local Lemma in_seqOf q : q <> p -> seqOf m' q = seqOf m q.
Proof. intros Hq. unfold seqOf. by rewrite Hm. Qed.

Local Lemma in_pend q j : q ∈ insts (threadNumber j) -> heap m !! q = Some j -> pend sb' j = pend sb j.
Proof.
  intros Hq Hj. destruct (wk_inst _ _ _ _ HW _ _ Hq) as (j' & Hj' & _ & _ & Hokj).
  assert (j' = j) as -> by congruence. eapply pend_marked; [done..|]. intros f Hf. by eapply (nr_dests _ _ _ HN).
Qed.

Local Lemma in_pend_new : tracked i = true -> pend sb' i = unreadySrcs i.
Proof.
  intros Ht. rewrite (pend_marked false (destFlats i) sb sb' (length sb)); [|done..|by apply HN].
  unfold pend. apply filter_all. by apply Hpend.
Qed.

Local Lemma in_chain f q : 0 <= f -> q ∈ chainAt g' f ->
  (q = p /\ tracked i = true /\ f ∈ unreadySrcs i) \/ q ∈ chainAt g f.
Proof.
  intros Hf. rewrite Hchain by done. rewrite elem_of_app. intros [Hq|Hq]; [|by right]. left.
  destruct (tracked i); [|by apply elem_of_nil in Hq].
  pose proof (elem_of_replicate_inv _ _ _ Hq) as ->. split_and!; [done|done|]. apply occ_pos.
  destruct (occ f (unreadySrcs i)); [by apply elem_of_nil in Hq|lia].
Qed.

Local Lemma in_not_chain f q : 0 <= f -> q ∈ chainAt g f -> q <> p.
Proof.
  intros Hf Hq ->. destruct (wk_chain _ _ _ _ HW f p Hf Hq) as (j & _ & Hin & _). by apply (Hnew _ Hin).
Qed.

Local Lemma in_dest_empty f : f ∈ destFlats i -> chainAt g' f = [].
Proof.
  intros Hf. assert (Hr : 0 <= f < Z.of_nat (length sb)) by (apply (rg_range _ _ Hok); by right).
  rewrite Hchain by lia. rewrite (unready_empty _ _ _ _ _ _ HW HN Hf Hr), app_nil_r.
  assert (E : occ f (unreadySrcs i) = 0%nat) by (apply occ_zero; by apply HN). rewrite E. by destruct (tracked i).
Qed.

Lemma WakeInv_insert : WakeInv insts' m' g' sb'.
Proof.
  destruct Hmark as [HL HM]. split.
  - rewrite HL. destruct (wk_len _ _ _ _ HW), Hlen. split; congruence.
  - rewrite HL. intros tid q [Hq|[-> ->]]%in_elem; [|by exists i].
    destruct (wk_inst _ _ _ _ HW _ _ Hq) as (j & Hj & ? & ? & ?). exists j. split_and!; try done.
    rewrite Hm; [done|]. intros ->. by apply (Hnew tid).
  - intros tid. assert (Hold : StronglySorted (fun p q => seqOf m' p < seqOf m' q) (insts tid)).
    { pose proof (wk_order _ _ _ _ HW tid) as Ho. assert (Hs : forall q, q ∈ insts tid -> seqOf m' q = seqOf m q).
      { intros q Hq. apply in_seqOf. intros ->. by apply (Hnew tid). }
      induction Ho as [|q l Ho IH Hq]; constructor; [apply IH; intros; apply Hs; by right|].
      rewrite list_relations.list.Forall_forall in Hq |- *. intros x Hx. rewrite !Hs by (by left || by right). by apply Hq. }
    unfold insts'. destruct (decide (tid = threadNumber i)) as [->|Hne]; [|by rewrite fn_lookup_insert_ne].
    rewrite fn_lookup_insert. apply StronglySorted_app_2; [|done|by repeat constructor].
    intros q x Hq ->%list_elem_of_singleton. rewrite in_seqOf by (intros ->; by eapply Hnew).
    unfold seqOf at 2. rewrite Hp. by apply Hyoung.
  - intros f Hf Hb. rewrite HM in Hb by done. case_decide as Hd; [by apply in_dest_empty|].
    rewrite Hchain, (wk_sb _ _ _ _ HW), app_nil_r by done. destruct (tracked i) eqn:Ht; [|done].
    assert (E : occ f (unreadySrcs i) = 0%nat); [|by rewrite E]. apply occ_zero. intros Hu.
    pose proof (Hpend eq_refl f Hu). congruence.
  - intros f q Hf [(-> & Ht & _)|Hq]%in_chain; [| |done].
    + exists i. split_and!; try done. apply in_elem. by right.
    + destruct (wk_chain _ _ _ _ HW f q Hf Hq) as (j & Hj & Hin & Ht). exists j.
      rewrite Hm by (by eapply in_not_chain). split_and!; try done. apply in_elem. by left.
  - intros q j f Hq Hj Ht Hf Hb. rewrite Hchain, occ_app, occ_replicate by done.
    destruct (in_cases q j Hq Hj) as [[-> ->]|(Hne & Hq' & Hj')].
    + rewrite Ht, decide_True by done. assert (E : occ p (chainAt g f) = 0%nat); [|lia].
      apply occ_zero. intros Hc. by eapply in_not_chain.
    + rewrite decide_False by done. cbn. rewrite HM in Hb by done. case_decide as Hd.
      * assert (Hr : 0 <= f < Z.of_nat (length sb)) by (apply (rg_range _ _ Hok); by right).
        rewrite (unready_empty _ _ _ _ _ _ HW HN Hd Hr), occ_nil. symmetry. apply occ_zero. by eapply (nr_dests _ _ _ HN).
      * by apply (wk_count _ _ _ _ HW).
  - intros q j f c Hq Hj Hf Hc. destruct (in_cases q j Hq Hj) as [[-> ->]|(Hne & Hq' & Hj')].
    { rewrite in_dest_empty in Hc by done. by apply elem_of_nil in Hc. }
    assert (Hf0 : 0 <= f).
    { destruct (wk_inst _ _ _ _ HW _ _ Hq') as (j' & Hj2 & _ & _ & Hokj). assert (j' = j) as -> by congruence.
      apply (rg_range _ _ Hokj). by right. }
    apply in_chain in Hc as [(-> & Ht & Hu)|Hc]; [| |done].
    + pose proof (nr_srcs _ _ _ HN q j f Hq' Hj' Hu Hf) as Et. rewrite Et. split; [apply in_elem; by right|].
      unfold seqOf. rewrite Hp. rewrite Et in Hq'. specialize (Hyoung _ Hq'). unfold seqOf in Hyoung. by rewrite Hj' in Hyoung.
    + destruct (wk_prod _ _ _ _ HW q j f c Hq' Hj' Hf Hc) as [H1 H2]. split; [apply in_elem; by left|].
      by rewrite in_seqOf by (intros ->; by eapply Hnew).
  - intros q j Hq Hj Ht. destruct (in_cases q j Hq Hj) as [[-> ->]|(Hne & Hq' & Hj')].
    + rewrite in_pend_new by done. by apply Hready.
    + rewrite (in_pend q j) by done. by apply (wk_ready _ _ _ _ HW q).
  - intros q j Hq Hj Ht. destruct (in_cases q j Hq Hj) as [[-> ->]|(Hne & Hq' & Hj')].
    + rewrite in_pend_new by done. by apply Hissue.
    + rewrite (in_pend q j) by done. by apply (wk_issue _ _ _ _ HW q).
Qed.
End Insert.

(** An instruction that only writes registers, such as a nop. *)
Lemma WakeInv_record insts m g g' sb sb' i : WakeInv insts m g sb -> newRegs insts m i -> regsOK (length sb) i ->
  chainsKept g g' -> marked false (destFlats i) sb sb' -> WakeInv insts m g' sb'.
Proof.
  intros HW HN Hok (L1 & L2 & L3) HM.
  assert (Hpend : forall q j, q ∈ insts (threadNumber j) -> heap m !! q = Some j -> pend sb' j = pend sb j).
  { intros q j Hq Hj. destruct (wk_inst _ _ _ _ HW _ _ Hq) as (j' & Hj' & _ & _ & Hokj).
    assert (j' = j) as -> by congruence. eapply pend_marked; [done..|]. intros f Hf. by eapply (nr_dests _ _ _ HN). }
  destruct HM as [HL HM]. split.
  - rewrite HL, L1, L2. apply HW.
  - rewrite HL. apply HW.
  - apply HW.
  - intros f Hf Hb. rewrite L3 by done. rewrite HM in Hb by done. case_decide as Hd.
    + eapply unready_empty; [done..|]. apply (rg_range _ _ Hok). by right.
    + by apply (wk_sb _ _ _ _ HW).
  - intros f p Hf Hp. rewrite L3 in Hp by done. by apply (wk_chain _ _ _ _ HW f).
  - intros p j f Hp Hj Ht Hf Hb. rewrite L3 by done. rewrite HM in Hb by done. case_decide as Hd.
    + assert (Hr : 0 <= f < Z.of_nat (length sb)) by (apply (rg_range _ _ Hok); by right).
      rewrite (unready_empty _ _ _ _ _ _ HW HN Hd Hr), occ_nil. symmetry. apply occ_zero. by eapply (nr_dests _ _ _ HN).
    + by apply (wk_count _ _ _ _ HW).
  - intros p j f c Hp Hj Hf Hc. assert (Hf0 : 0 <= f).
    { destruct (wk_inst _ _ _ _ HW _ _ Hp) as (j' & Hj2 & _ & _ & Hokj). assert (j' = j) as -> by congruence.
      apply (rg_range _ _ Hokj). by right. }
    rewrite L3 in Hc by done. by eapply (wk_prod _ _ _ _ HW).
  - intros p j Hp Hj Ht. rewrite (Hpend p j) by done. by apply (wk_ready _ _ _ _ HW p).
  - intros p j Hp Hj Ht. rewrite (Hpend p j) by done. by apply (wk_issue _ _ _ _ HW p).
Qed.

(** ** Wake-up *)

Lemma length_omap_le {A B} (h : A -> option B) l : (length (omap h l) <= length l)%nat.
Proof. induction l as [|x l IH]; cbn; [done|]. destruct (h x); cbn; lia. Qed.

Lemma unready_length n i : regsOK n i -> (length (unreadySrcs i) <= numSrcRegs i)%nat.
Proof.
  intros Hok. unfold unreadySrcs, numSrcRegs. etrans; [apply length_omap_le|]. rewrite length_zip_with. lia.
Qed.

(** Marking one register produced takes it off what an instruction waits for. *)
Lemma pend_produced f sb sb' n i : marked true [f] sb sb' -> regsOK n i -> sb !! Z.to_nat f = Some false ->
  length (pend sb i) = (length (pend sb' i) + occ f (unreadySrcs i))%nat.
Proof.
  intros [_ HM] Hok Hf. unfold pend, occ.
  assert (Hr : forall x, x ∈ unreadySrcs i -> 0 <= x) by (intros x Hx; apply (rg_range _ _ Hok); by left).
  induction (unreadySrcs i) as [|x l IH]; [done|]. rewrite !filter_cons.
  rewrite (HM x) by (apply Hr; by left). assert (Hl : forall y, y ∈ l -> 0 <= y) by (intros; apply Hr; by right).
  specialize (IH Hl). destruct (decide (x = f)) as [->|Hne].
  - rewrite (decide_True (P := f ∈ [f])) by (by left). rewrite Hf. cbn [fmap option_fmap option_map]. rewrite decide_True, decide_False by done. cbn. lia.
  - rewrite (decide_False (P := x ∈ [f])) by (by intros ?%list_elem_of_singleton). case_decide; cbn; lia.
Qed.

Lemma pend_produced_id f sb sb' n i : marked true [f] sb sb' -> regsOK n i -> sb !! Z.to_nat f = Some true ->
  pend sb' i = pend sb i.
Proof.
  intros [_ HM] Hok Hf. apply pend_ext. intros x Hx. rewrite HM by (apply (rg_range _ _ Hok); by left).
  case_decide as Hd; [|done]. apply list_elem_of_singleton in Hd as ->. by rewrite Hf.
Qed.

(** The invariant while the consumers of register [f] are woken: [sb] has [f]
    already, and the instructions on its list still miss it. *)
Record WakeMid (insts : ThreadID -> list InstPtr) (m : InstMem) (f : Z) (g : DependencyGraph) (sb : list bool) : Prop := {
  wm_len : length (graph g) = length sb /\ graphEntries g = length sb;
  wm_inst : forall tid p, p ∈ insts tid -> exists i, heap m !! p = Some i /\ threadNumber i = tid /\
    isSquashedInIQ i = false /\ regsOK (length sb) i;
  wm_order : forall tid, StronglySorted (fun p q => seqOf m p < seqOf m q) (insts tid);
  wm_reg : 0 <= f < Z.of_nat (length sb) /\ sb !! Z.to_nat f = Some true;
  wm_sb : forall f', 0 <= f' -> f' <> f -> sb !! Z.to_nat f' = Some true -> chainAt g f' = [];
  wm_chain : forall f p, 0 <= f -> p ∈ chainAt g f ->
    exists i, heap m !! p = Some i /\ p ∈ insts (threadNumber i) /\ tracked i = true;
  wm_count : forall p i f, p ∈ insts (threadNumber i) -> heap m !! p = Some i -> tracked i = true ->
    0 <= f -> sb !! Z.to_nat f = Some false -> occ p (chainAt g f) = occ f (unreadySrcs i);
  wm_prod : forall p i f c, p ∈ insts (threadNumber i) -> heap m !! p = Some i -> f ∈ destFlats i ->
    c ∈ chainAt g f -> c ∈ insts (threadNumber i) /\ seqNum i < seqOf m c;
  wm_ready : forall p i, p ∈ insts (threadNumber i) -> heap m !! p = Some i -> tracked i = true ->
    readyRegs i + Z.of_nat (length (pend sb i) + occ p (chainAt g f)) = Z.of_nat (numSrcRegs i) /\ 0 <= readyRegs i;
  wm_issue : forall p i, p ∈ insts (threadNumber i) -> heap m !! p = Some i -> tracked i = true ->
    (readyToIssue i = true \/ isIssued i = true -> length (pend sb i) + occ p (chainAt g f) = 0)%nat /\
    (isMemRef i = false -> length (pend sb i) + occ p (chainAt g f) = 0 -> readyToIssue i = true)%nat
}.

Lemma nil_length_0 {A} (l : list A) : l = [] <-> length l = 0%nat.
Proof. split; [by intros ->|apply nil_length_inv]. Qed.

Lemma WakeMid_start insts m f g sb sb' : WakeInv insts m g sb -> 0 <= f < Z.of_nat (length sb) ->
  marked true [f] sb sb' -> WakeMid insts m f g sb'.
Proof.
  intros HW Hf HM. pose proof HM as [HL HM'].
  destruct (lookup_lt_is_Some_2 sb (Z.to_nat f)) as [v Hv]; [lia|].
  assert (Hmiss : forall p i, p ∈ insts (threadNumber i) -> heap m !! p = Some i -> tracked i = true ->
            length (pend sb i) = (length (pend sb' i) + occ p (chainAt g f))%nat).
  { intros p i Hp Hi Ht. destruct (wk_inst _ _ _ _ HW _ _ Hp) as (i' & Hi' & _ & _ & Hok).
    assert (i' = i) as -> by congruence. destruct v.
    - rewrite (pend_produced_id f sb sb' _ i HM Hok Hv), (wk_sb _ _ _ _ HW), occ_nil by (done || lia). lia.
    - rewrite (pend_produced f sb sb' _ i HM Hok Hv), (wk_count _ _ _ _ HW p i f) by (done || lia). lia. }
  assert (Hsb : forall f', 0 <= f' -> f' <> f -> sb' !! Z.to_nat f' = sb !! Z.to_nat f').
  { intros f' Hf' Hne. rewrite HM' by done. by rewrite decide_False by (by intros ?%list_elem_of_singleton). }
  assert (Hsbf : sb' !! Z.to_nat f = Some true).
  { rewrite HM' by lia. rewrite decide_True by (by left). by rewrite Hv. }
  split.
  - rewrite HL. apply HW.
  - rewrite HL. apply HW.
  - apply HW.
  - by rewrite HL.
  - intros f' Hf' Hne Hb. rewrite Hsb in Hb by done. by apply (wk_sb _ _ _ _ HW).
  - apply HW.
  - intros p i f' Hp Hi Ht Hf' Hb. destruct (decide (f' = f)) as [->|Hne]; [congruence|].
    rewrite Hsb in Hb by done. by apply (wk_count _ _ _ _ HW).
  - apply HW.
  - intros p i Hp Hi Ht. rewrite <- Hmiss by done. split; [by apply (wk_ready _ _ _ _ HW p)|].
    destruct (wk_inst _ _ _ _ HW _ _ Hp) as (i' & Hi' & _ & _ & Hok). assert (i' = i) as -> by congruence.
    pose proof (wk_ready _ _ _ _ HW p i Hp Hi Ht). pose proof (unready_length _ _ Hok).
    pose proof (length_filter (notYet sb) (unreadySrcs i)). fold (pend sb i) in *. lia.
  - intros p i Hp Hi Ht. rewrite <- Hmiss by done. rewrite <- nil_length_0. by apply (wk_issue _ _ _ _ HW p).
Qed.

Lemma WakeMid_end insts m f g sb : WakeMid insts m f g sb -> chainAt g f = [] -> WakeInv insts m g sb.
Proof.
  intros HW Hc. split; try apply HW.
  - intros f' Hf' Hb. destruct (decide (f' = f)) as [->|Hne]; [done|]. by apply (wm_sb _ _ _ _ _ HW).
  - intros p i Hp Hi Ht. destruct (wm_ready _ _ _ _ _ HW p i Hp Hi Ht) as [H _]. rewrite Hc, occ_nil in H. rewrite <- H. lia.
  - intros p i Hp Hi Ht. pose proof (wm_issue _ _ _ _ _ HW p i Hp Hi Ht) as H. rewrite Hc, occ_nil, Nat.add_0_r in H.
    by rewrite nil_length_0.
Qed.

Definition setHeap (p : InstPtr) (i : DynInst) (m : InstMem) : InstMem := m <| heap := <[p := i]> (heap m) |>.

Lemma setHeap_eq p i m : heap (setHeap p i m) !! p = Some i.
Proof. apply lookup_insert_eq. Qed.

Lemma setHeap_ne p q i m : q <> p -> heap (setHeap p i m) !! q = heap m !! q.
Proof. intros Hq. by apply lookup_insert_ne. Qed.

Lemma setHeap_seqOf p i i' m q : heap m !! p = Some i -> seqNum i' = seqNum i -> seqOf (setHeap p i' m) q = seqOf m q.
Proof.
  intros Hp Hs. unfold seqOf. destruct (decide (q = p)) as [->|Hne]; [|by rewrite setHeap_ne].
  by rewrite setHeap_eq, Hp.
Qed.

Lemma setHeap_extends p i i' m : heap m !! p = Some i -> sameInst i i' -> extends m (setHeap p i' m).
Proof.
  intros Hp Hs q j Hq. destruct (decide (q = p)) as [->|Hne].
  - exists i'. rewrite setHeap_eq. split; [done|]. congruence.
  - exists j. rewrite setHeap_ne by done. split; [done|apply sameInst_refl].
Qed.

Lemma regsOnly_sameRegs i i' : regsOnly i i' -> readySrcIdx i' = readySrcIdx i ->
  unreadySrcs i' = unreadySrcs i /\ destFlats i' = destFlats i /\ numSrcRegs i' = numSrcRegs i /\
  (forall sb, pend sb i' = pend sb i) /\ (forall n, regsOK n i -> regsOK n i') /\
  isSquashedInIQ i' = isSquashedInIQ i /\ tracked i' = tracked i /\ isMemRef i' = isMemRef i /\ isIssued i' = isIssued i.
Proof.
  intros (Hs & E1 & E2 & _ & _ & _ & Hb) E3. destruct (sameInst_tracked _ _ Hs) as (T1 & T2 & _).
  assert (EU : unreadySrcs i' = unreadySrcs i) by (unfold unreadySrcs; congruence).
  assert (ED : destFlats i' = destFlats i) by (unfold destFlats; congruence).
  assert (EN : numSrcRegs i' = numSrcRegs i) by (unfold numSrcRegs; congruence).
  assert (EM : numDestRegs i' = numDestRegs i) by (unfold numDestRegs; congruence).
  unfold pend, isSquashedInIQ, isIssued. rewrite EU, !Hb by done. split_and!; try done.
  intros n Hok. split; rewrite ?E1, ?E2, ?E3, ?EU, ?ED, ?EN, ?EM; apply Hok.
Qed.

(** The first instruction of the list of [f] is woken. *)
Lemma WakeMid_pop insts m f g sb p l g1 i :
  WakeMid insts m f g sb -> chainAt g f = p :: l -> chainUpd f l g g1 -> heap m !! p = Some i ->
  let i1 := markSrcRegReady i in
  WakeMid insts (setHeap p i1 m) f g1 sb /\ regsOnly i i1 /\ readySrcIdx i1 = readySrcIdx i /\
  p ∈ insts (threadNumber i) /\ tracked i = true /\
  readyToIssue i1 = bool_decide (length (pend sb i) + occ p l = 0)%nat.
Proof.
  intros HW Hc (L1 & L2 & L3) Hp i1. pose proof (wm_reg _ _ _ _ _ HW) as [Hf Hsbf].
  destruct (wm_chain _ _ _ _ _ HW f p) as (i' & Hi' & Hin & Ht); [lia|rewrite Hc; by left|].
  assert (i' = i) as -> by congruence.
  destruct (wm_inst _ _ _ _ _ HW _ _ Hin) as (i' & Hi2 & _ & _ & Hok). assert (i' = i) as -> by congruence.
  destruct (wm_ready _ _ _ _ _ HW p i Hin Hp Ht) as [Hr Hr0]. destruct (wm_issue _ _ _ _ _ HW p i Hin Hp Ht) as [Hi1 _].
  rewrite Hc, occ_cons, decide_True in Hr, Hi1 by done.
  assert (Hcan : canOK i).
  { unfold canOK. rewrite bool_decide_eq_false_2 by lia. destruct (readyToIssue i); [|done].
    exfalso. assert (Hz : true = true \/ isIssued i = true) by (by left). apply Hi1 in Hz. lia. }
  destruct (markSrcRegReady_ok i) as (M1 & M2 & M3 & M4); [lia|apply Hok|done|]. fold i1 in M1, M2, M3, M4.
  destruct (regsOnly_sameRegs _ _ M1 M2) as (E1 & E2 & E3 & E4 & E5 & E6 & E7 & E8 & E9).
  pose proof M1 as ((S1 & S2 & S3 & S4) & _).
  assert (Hrdy : readyToIssue i1 = bool_decide (length (pend sb i) + occ p l = 0)%nat).
  { unfold canOK in M4. rewrite M4, M3, E3. apply bool_decide_ext. lia. }
  split; [|done]. set (m1 := setHeap p i1 m).
  assert (Hseq : forall q, seqOf m1 q = seqOf m q) by (intros q; by apply (setHeap_seqOf p i)).
  assert (Hback : forall q j, heap m1 !! q = Some j -> (q = p /\ j = i1) \/ (q <> p /\ heap m !! q = Some j)).
  { intros q j Hj. destruct (decide (q = p)) as [->|Hne]; [left; split; [done|]; unfold m1 in Hj; rewrite setHeap_eq in Hj; congruence|].
    right. unfold m1 in Hj. by rewrite setHeap_ne in Hj. }
  assert (Hch : forall f' q, 0 <= f' -> q ∈ chainAt g1 f' -> q ∈ chainAt g f').
  { intros f' q Hf' Hq. rewrite L3 in Hq by done. case_decide as Hd; [|done]. subst f'. rewrite Hc. by right. }
  assert (Hocc : forall q, q <> p -> occ q (chainAt g1 f) = occ q (chainAt g f)).
  { intros q Hq. rewrite L3, decide_True, Hc, occ_cons, decide_False by (done || lia). done. }
  assert (Hocc1 : occ p (chainAt g1 f) = occ p l) by (by rewrite L3, decide_True by (done || lia)).
  split.
  - rewrite L1, L2. apply HW.
  - intros tid q Hq. destruct (wm_inst _ _ _ _ _ HW _ _ Hq) as (j & Hj & J1 & J2 & J3).
    destruct (decide (q = p)) as [->|Hne].
    + assert (j = i) as -> by congruence. exists i1. unfold m1. rewrite setHeap_eq. split_and!; [done|congruence|congruence|auto].
    + exists j. unfold m1. by rewrite setHeap_ne.
  - intros tid. pose proof (wm_order _ _ _ _ _ HW tid) as Ho. induction Ho as [|q k Ho IH Hq]; constructor; [done|].
    eapply Forall_impl; [exact Hq|]. intros x Hx. by rewrite !Hseq.
  - done.
  - intros f' Hf' Hne Hb. rewrite L3, decide_False by done. by apply (wm_sb _ _ _ _ _ HW).
  - intros f' q Hf' Hq. destruct (wm_chain _ _ _ _ _ HW f' q Hf') as (j & Hj & Hjin & Hjt); [by apply Hch|].
    destruct (decide (q = p)) as [->|Hne].
    + exists i1. unfold m1. rewrite setHeap_eq, S2, E7. assert (j = i) as -> by congruence. done.
    + exists j. unfold m1. by rewrite setHeap_ne.
  - intros q j f' Hq Hj Hjt Hf' Hb. assert (Hne : f' <> f) by congruence. rewrite L3, decide_False by done.
    apply Hback in Hj as [[-> ->]|[_ Hj]].
    + rewrite E1. rewrite S2 in Hq. apply (wm_count _ _ _ _ _ HW p i); congruence.
    + by apply (wm_count _ _ _ _ _ HW).
  - intros q j f' c Hq Hj Hfd Hcc. rewrite Hseq.
    assert (Hf0 : 0 <= f').
    { apply Hback in Hj as [[-> ->]|[_ Hj]]; [apply (rg_range _ _ Hok); rewrite E2 in Hfd; by right|].
      destruct (wm_inst _ _ _ _ _ HW _ _ Hq) as (j' & Hj' & _ & _ & Hokj). assert (j' = j) as -> by congruence.
      apply (rg_range _ _ Hokj). by right. }
    apply Hch in Hcc; [|done]. apply Hback in Hj as [[-> ->]|[_ Hj]].
    + rewrite S1, S2. rewrite E2 in Hfd. rewrite S2 in Hq. by apply (wm_prod _ _ _ _ _ HW p i f').
    + by apply (wm_prod _ _ _ _ _ HW q j f').
  - intros q j Hq Hj Hjt. apply Hback in Hj as [[-> ->]|[Hne Hj]].
    + rewrite E4, E3, M3, Hocc1. lia.
    + rewrite Hocc by done. by apply (wm_ready _ _ _ _ _ HW q j).
  - intros q j Hq Hj Hjt. apply Hback in Hj as [[-> ->]|[Hne Hj]].
    + rewrite E4, E8, E9, Hocc1, Hrdy, bool_decide_eq_true. split; [|done]. intros [Hz|Hz]; [done|].
      assert (Hz' : readyToIssue i = true \/ isIssued i = true) by (by right). apply Hi1 in Hz'. lia.
    + rewrite Hocc by done. by apply (wm_issue _ _ _ _ _ HW q j).
Qed.

(** ** Leaving the queue *)

(** Instructions leave the lists of the threads, and with them the graph. *)
Lemma WakeInv_drop insts insts' m m' g g' sb :
  WakeInv insts m g sb ->
  (forall tid, insts' tid `sublist_of` insts tid) ->
  (forall tid p, p ∈ insts' tid -> heap m' !! p = heap m !! p) ->
  length (graph g') = length (graph g) /\ graphEntries g' = graphEntries g ->
  (forall f q, 0 <= f -> q ∈ chainAt g' f -> q ∈ chainAt g f /\ exists tid, q ∈ insts' tid) ->
  (forall f tid q, 0 <= f -> q ∈ insts' tid -> occ q (chainAt g' f) = occ q (chainAt g f)) ->
  WakeInv insts' m' g' sb.
Proof.
  intros HW Hsub Hm [L1 L2] Hch Hocc.
  assert (Hin : forall tid p, p ∈ insts' tid -> p ∈ insts tid).
  { intros tid p Hp. eapply elem_of_submseteq; [done|]. by apply sublist_submseteq. }
  assert (Hback : forall tid p i, p ∈ insts' tid -> heap m' !! p = Some i -> heap m !! p = Some i).
  { intros tid p i Hp Hi. by rewrite <- (Hm tid p Hp). }
  split.
  - rewrite L1, L2. apply HW.
  - intros tid p Hp. rewrite (Hm tid p Hp). by apply (wk_inst _ _ _ _ HW), Hin.
  - intros tid. pose proof (StronglySorted_sublist _ _ _ (Hsub tid) (wk_order _ _ _ _ HW tid)) as Ho.
    assert (Hs : forall p, p ∈ insts' tid -> seqOf m' p = seqOf m p) by (intros p Hp; unfold seqOf; by rewrite (Hm tid p Hp)).
    induction Ho as [|p l Ho IH Hp]; constructor; [apply IH; intros; apply Hs; by right|].
    rewrite list_relations.list.Forall_forall in Hp |- *. intros q Hq. rewrite !Hs by (by left || by right). by apply Hp.
  - intros f Hf Hb. destruct (chainAt g' f) as [|q l] eqn:E; [done|]. destruct (Hch f q Hf) as [Hq _]; [rewrite E; by left|].
    rewrite (wk_sb _ _ _ _ HW) in Hq by done. by apply elem_of_nil in Hq.
  - intros f q Hf Hq. destruct (Hch f q Hf Hq) as [Hq' [tid Htid]].
    destruct (wk_chain _ _ _ _ HW f q Hf Hq') as (i & Hi & Hq2 & Ht). exists i. rewrite (Hm _ _ Htid).
    destruct (wk_lookup _ _ _ _ _ _ _ HW (Hin _ _ Htid) Hi) as [_ ->]. done.
  - intros p i f Hp Hi Ht Hf Hb. rewrite (Hocc f _ p Hf Hp). apply (wk_count _ _ _ _ HW); eauto.
  - intros p i f c Hp Hi Hf Hc. assert (Hi' : heap m !! p = Some i) by eauto.
    assert (Hf0 : 0 <= f).
    { destruct (wk_inst _ _ _ _ HW _ _ (Hin _ _ Hp)) as (j & Hj & _ & _ & Hok). assert (j = i) as -> by congruence.
      apply (rg_range _ _ Hok). by right. }
    destruct (Hch f c Hf0 Hc) as [Hc' [tid Htid]]. destruct (wk_prod _ _ _ _ HW p i f c) as [H1 H2]; [by apply Hin|done..|].
    assert (tid = threadNumber i) as ->.
    { destruct (wk_inst _ _ _ _ HW _ _ H1) as (j & Hj & <- & _). by apply (wk_lookup _ _ _ _ _ _ _ HW (Hin _ _ Htid) Hj). }
    split; [done|]. unfold seqOf in *. by rewrite (Hm _ _ Htid).
  - intros p i Hp Hi Ht. apply (wk_ready _ _ _ _ HW p); eauto.
  - intros p i Hp Hi Ht. apply (wk_issue _ _ _ _ HW p); eauto.
Qed.

(** An instruction that misses no register is on no list. *)
Lemma wk_absent insts m g sb p i f : WakeInv insts m g sb -> p ∈ insts (threadNumber i) -> heap m !! p = Some i ->
  (tracked i = true -> pend sb i = []) -> 0 <= f -> p ∉ chainAt g f.
Proof.
  intros HW Hp Hi Hpend Hf Hc. destruct (wk_chain _ _ _ _ HW f p Hf Hc) as (j & Hj & _ & Ht).
  assert (j = i) as -> by congruence. specialize (Hpend Ht).
  assert (Hr : (Z.to_nat f < length sb)%nat).
  { destruct (wk_len _ _ _ _ HW) as [<- _]. unfold chainAt in Hc. destruct (graph g !! Z.to_nat f) eqn:E; [|by apply elem_of_nil in Hc].
    by apply lookup_lt_Some in E. }
  destruct (lookup_lt_is_Some_2 sb _ Hr) as [v Hv]. destruct v.
  - rewrite (wk_sb _ _ _ _ HW) in Hc by done. by apply elem_of_nil in Hc.
  - apply occ_pos in Hc. rewrite (wk_count _ _ _ _ HW p i f) in Hc by done. apply occ_pos in Hc.
    assert (Hin : f ∈ pend sb i) by (by apply pend_sub). rewrite Hpend in Hin. by apply elem_of_nil in Hin.
Qed.

(** Nobody waits for the registers of the youngest instruction of a thread. *)
Lemma wk_youngest insts m g sb p i l f : WakeInv insts m g sb -> heap m !! p = Some i ->
  insts (threadNumber i) = l ++ [p] -> f ∈ destFlats i -> chainAt g f = [].
Proof.
  intros HW Hi Hl Hf. destruct (chainAt g f) as [|c k] eqn:E; [done|]. exfalso.
  assert (Hp : p ∈ insts (threadNumber i)) by (rewrite Hl; set_solver).
  destruct (wk_prod _ _ _ _ HW p i f c) as [Hc Hs]; [done..|rewrite E; by left|].
  pose proof (wk_order _ _ _ _ HW (threadNumber i)) as Ho. rewrite Hl in Ho, Hc.
  assert (Es : seqNum i = seqOf m p) by (unfold seqOf; by rewrite Hi).
  apply elem_of_app in Hc as [Hc| ->%list_elem_of_singleton]; [|lia].
  pose proof (StronglySorted_app_1_elem_of _ _ _ c p Ho Hc (list_elem_of_here _ _)) as Hlt. cbn in Hlt. lia.
Qed.

Lemma removeSrcs_ok p i sb j : forall k s,
  (k + j)%nat = numSrcRegs i -> sb = regScoreboard (iq s) -> length (graph (dependGraph (iq s))) = length sb ->
  regsOK (length sb) i ->
  (forall f, 0 <= f -> sb !! Z.to_nat f = Some true -> chainAt (dependGraph (iq s)) f = []) ->
  (forall f, 0 <= f -> sb !! Z.to_nat f = Some false ->
    occ p (chainAt (dependGraph (iq s)) f) = occ f (omap srcWait (drop k (zip (srcIdx i) (readySrcIdx i))))) ->
  exists g', foldR (removeSrc p i) s (seq k j) = Ok (putGraph g' sb s) /\
    length (graph g') = length (graph (dependGraph (iq s))) /\ graphEntries g' = graphEntries (dependGraph (iq s)) /\
    forall f, 0 <= f < Z.of_nat (length sb) -> (p ∉ chainAt g' f) /\
      exists n, chainAt (dependGraph (iq s)) f ≡ₚ replicate n p ++ chainAt g' f.
Proof.
  induction j as [|j IH]; intros k s Hkj Hsb Hg Hok Htrue Hfalse; cbn [seq foldR]; unfold numSrcRegs in Hkj;
    pose proof (rg_bits _ _ Hok) as Hbits.
  { rewrite drop_ge in Hfalse by (rewrite length_zip_with; lia).
    exists (dependGraph (iq s)). split_and!; [rewrite Hsb; by destruct s as [[] ? ? ?]|done|done|].
    intros f Hf. split; [|by exists 0%nat]. destruct (lookup_lt_is_Some_2 sb (Z.to_nat f)) as [v Hv]; [lia|]. destruct v.
    - rewrite Htrue by (done || lia). apply not_elem_of_nil.
    - apply occ_zero. by rewrite (Hfalse f) by (done || lia). }
  destruct (lookup_lt_is_Some_2 (srcIdx i) k) as [o Ho]; [lia|].
  destruct (lookup_lt_is_Some_2 (readySrcIdx i) k) as [b Hb]; [lia|].
  destruct (Forall_lookup_1 _ _ _ _ (rg_srcs _ _ Hok) Ho) as [r ->].
  set (zs := zip (srcIdx i) (readySrcIdx i)) in *.
  assert (EU : omap srcWait (drop k zs) = omap srcWait [(Some r, b)] ++ omap srcWait (drop (S k) zs)).
  { rewrite <- omap_app. f_equal. apply (zip_drop_S _ _ _ _ _ Ho Hb). }
  rewrite EU in Hfalse. unfold removeSrc at 2. rewrite Ho. cbn [deref mbind res_bind]. rewrite Hb. cbn [deref mbind res_bind].
  destruct (negb b && negb (isFixedMapping r)) eqn:Ew.
  2: { cbn [mbind res_bind]. apply IH; try done; [unfold numSrcRegs; lia|].
       destruct b; [done|]. cbn in Ew. apply negb_false_iff in Ew. cbn in Hfalse. by rewrite Ew in Hfalse. }
  apply andb_prop in Ew as [->%negb_true_iff Efix%negb_true_iff]. cbn in Hfalse. rewrite Efix in Hfalse. cbn in Hfalse.
  assert (Hf : 0 <= flatIndex r < Z.of_nat (length sb)).
  { apply (rg_range _ _ Hok). left. apply list_elem_of_omap. exists (Some r, false). split; [|cbn; by rewrite Efix].
    apply (list_elem_of_lookup_2 _ k). by apply lookup_zip_Some. }
  destruct (remove_ok (dependGraph (iq s)) (flatIndex r) p) as (g1 & l & Eg & (L1 & L2 & L3) & Hl); [unfold inGraph; lia| |].
  { destruct (lookup_lt_is_Some_2 sb (Z.to_nat (flatIndex r))) as [v Hv]; [lia|]. destruct v; [left; apply Htrue; [lia|done]|].
    right. apply occ_pos. rewrite Hfalse by (done || lia). rewrite occ_cons, decide_True by done. lia. }
  unfold onGraph. rewrite Eg. cbn [mbind res_bind].
  destruct (IH (S k) (updIQ (fun q => q <| dependGraph := g1 |>) s)) as (g' & E & K1 & K2 & K3); try done.
  { unfold numSrcRegs. lia. }
  { cbn. congruence. }
  { intros f Hf0 Hv. cbn. rewrite L3 by done. case_decide as Hd; [|by apply Htrue]. subst f.
    rewrite Htrue in Hl by done. destruct Hl as [[_ ->]|Hl]; [done|]. by apply Permutation_nil_cons in Hl. }
  { intros f Hf0 Hv. cbn. rewrite L3 by done. pose proof (Hfalse f Hf0 Hv) as Hc. rewrite occ_cons in Hc.
    destruct (decide (f = flatIndex r)) as [->|Hd]; [|repeat case_decide; try congruence; exact Hc]. rewrite (decide_True (P := flatIndex r = flatIndex r)) in Hc by done.
    destruct Hl as [[Hl ->]|Hl]; [rewrite Hl in Hc; rewrite occ_nil in Hc; lia|].
    rewrite (occ_perm _ _ _ Hl), occ_cons, decide_True in Hc by done. fold zs. lia. }
  exists g'. split_and!; [exact E|cbn in K1; congruence|cbn in K2; congruence|].
  intros f Hfr. destruct (K3 f Hfr) as [Kn [n Kp]]. split; [done|]. cbn in Kp. rewrite L3 in Kp by lia.
  case_decide as Hd; [|by exists n]. subst f. destruct Hl as [[Hl ->]|Hl].
  - exists n. by rewrite Hl.
  - exists (S n). rewrite Hl, Kp. done.
Qed.
