(* ===== verification/InstQueueInv.v ===== *)
(** * What the parts of the instruction queue's operations keep

    Frame and step lemmas for each part of the invariant: changes of instructions
    that do not concern it, entries taken and given back, the ready queues, the
    memory dependence units and the functional units. *)

From stdpp Require Import base numbers list gmap functions sorting.
From S2P Require Import Prelude Regs DynInst ROB TimeBuffer StoreSet FUPool MemDep MemDepSpec MemDepProps InstQueueUnit DepGraph ReadyList InstQueue InstQueueSpec InstQueueWake.

#[local] Open Scope Z_scope.

(** ** Frame lemmas *)

Lemma ReadyInv_frame insts insts' m m' r ns :
  ReadyInv insts m r ns -> extends m m' ->
  (forall p i i', heap m !! p = Some i -> heap m' !! p = Some i' -> isMemRef i' = false -> isSquashed i' = false ->
    isSquashed i = false /\ isIssued i' = isIssued i /\ readyToIssue i' = readyToIssue i /\
    (p ∈ insts' (threadNumber i) <-> p ∈ insts (threadNumber i))) ->
  (forall p i', heap m !! p = None -> heap m' !! p = Some i' -> p ∉ insts' (threadNumber i')) ->
  (forall sn p i i', ns !! sn = Some p -> heap m !! p = Some i -> heap m' !! p = Some i' ->
    p ∈ insts' (threadNumber i) /\ isIssued i' = isIssued i /\ memOpDone i' = memOpDone i) ->
  ReadyInv insts' m' r ns.
Proof.
  intros [H1 H2 H3] He Hf Hnew Hns. split.
  - by eapply RLInv_extends.
  - intros p i' Hp Hm Hsq. destruct (heap m !! p) as [i|] eqn:Ei.
    + destruct (He _ _ Ei) as (i1 & Hi1 & Hs). simplify_eq.
      destruct (Hf _ _ _ Ei Hp Hm Hsq) as (K1 & K2 & K3 & K4).
      destruct (sameInst_tracked _ _ Hs) as (T1 & T2 & _ & T4). destruct Hs as (S1 & S2 & S3 & _).
      destruct (H2 p i Ei) as [R1 R2 R3]; [congruence|done|].
      rewrite S1, S2. split; rewrite ?T1, ?T4, ?K2, ?K3; [intros c Hc|done|]; rewrite K4; eauto.
    + specialize (Hnew p i' Ei Hp).
      assert (Hno : forall c, occ p (readyInsts r c) = 0%nat).
      { intros c. apply occ_zero. intros Hin. destruct (rl_heap _ _ H1 _ _ Hin) as (j & Hj & _). congruence. }
      split.
      * intros c. rewrite Hno. lia.
      * intros c. rewrite Hno. lia.
      * done.
  - intros sn p Hn. destruct (H3 _ _ Hn) as (i & Hi & E1 & E2 & E3 & E4 & E5 & E6).
    destruct (He _ _ Hi) as (i' & Hi' & Hs). destruct (Hns _ _ _ _ Hn Hi Hi') as (K1 & K2 & K3).
    destruct (sameInst_tracked _ _ Hs) as (T1 & T2 & T3 & _). destruct Hs as (S1 & S2 & _).
    exists i'. rewrite S1, S2, T1, T2, T3, K2, K3. done.
Qed.

(** ** Entries *)

Lemma used_cons p l m : used (fun _ => p :: l) m 0 = (if holdsAt m p then 1 else 0) + used (fun _ => l) m 0.
Proof. unfold used. rewrite filter_cons. destruct (holdsAt m p); case_decide; cbn; (done || lia). Qed.

Lemma used_app l k m : used (fun _ => l ++ k) m 0 = used (fun _ => l) m 0 + used (fun _ => k) m 0.
Proof. unfold used. rewrite list_basics.list.filter_app, length_app. lia. Qed.

Lemma used_at insts m tid : used insts m tid = used (fun _ => insts tid) m 0.
Proof. done. Qed.

Lemma used_mem l m m' : (forall p, p ∈ l -> holdsAt m' p = holdsAt m p) ->
  used (fun _ => l) m' 0 = used (fun _ => l) m 0.
Proof.
  induction l as [|p l IH]; intros H; [done|]. rewrite !used_cons, H, IH by (set_solver). done.
Qed.

Lemma used_ext insts m insts' m' tid : insts' tid = insts tid ->
  (forall p, p ∈ insts tid -> holdsAt m' p = holdsAt m p) -> used insts' m' tid = used insts m tid.
Proof. intros Hi Hh. rewrite (used_at insts'), (used_at insts), Hi. by apply used_mem. Qed.

(** Instruction [p] gives its entry back. *)
Lemma used_flip l m m' p : NoDup l -> p ∈ l -> holdsAt m p = true -> holdsAt m' p = false ->
  (forall q, q <> p -> holdsAt m' q = holdsAt m q) -> used (fun _ => l) m' 0 = used (fun _ => l) m 0 - 1.
Proof.
  intros Hnd Hp Ht Hf Hq. apply list_elem_of_split in Hp as (l1 & l2 & ->).
  apply list_relations.list.NoDup_app in Hnd as (_ & Hd & [Hl2 _]%list_relations.list.NoDup_cons).
  rewrite !used_app, !used_cons, Ht, Hf.
  rewrite (used_mem l1 m m'), (used_mem l2 m m'); [lia|intros q Hin; apply Hq; intros ->..].
  - done.
  - apply (Hd p Hin). by left.
Qed.

Lemma used_nonneg insts m tid : 0 <= used insts m tid.
Proof. unfold used. lia. Qed.

(** The entries of all threads. *)
Definition total (u : ThreadID -> Z) : Z := foldr (fun tid n => u tid + n) 0 (seq 0 MaxThreads).

Lemma foldr_sum_ext (u v : ThreadID -> Z) l : (forall t, t ∈ l -> u t = v t) ->
  foldr (fun tid n => u tid + n) 0 l = foldr (fun tid n => v tid + n) 0 l.
Proof. induction l as [|t l IH]; intros H; [done|]. cbn. rewrite H, IH by set_solver. done. Qed.

Lemma foldr_sum_upd (u v : ThreadID -> Z) l tid d : NoDup l -> tid ∈ l -> v tid = u tid + d ->
  (forall t, t <> tid -> v t = u t) ->
  foldr (fun tid n => v tid + n) 0 l = foldr (fun tid n => u tid + n) 0 l + d.
Proof.
  intros Hnd Hin Hd Hv. induction l as [|t l IH]; [by apply elem_of_nil in Hin|].
  apply list_relations.list.NoDup_cons in Hnd as [Ht Hnd]. cbn. apply elem_of_cons in Hin as [->|Hin].
  - rewrite Hd, (foldr_sum_ext v u); [lia|]. intros t' Ht'. apply Hv. by intros ->.
  - rewrite IH by done. rewrite Hv; [lia|]. by intros ->.
Qed.

Lemma total_upd (u v : ThreadID -> Z) tid d : (tid < MaxThreads)%nat -> v tid = u tid + d ->
  (forall t, t <> tid -> v t = u t) -> total v = total u + d.
Proof. intros Ht. apply foldr_sum_upd; [apply NoDup_seq|]. apply elem_of_seq. lia. Qed.

Lemma total_ext (u v : ThreadID -> Z) : (forall t, u t = v t) -> total u = total v.
Proof. intros H. by apply foldr_sum_ext. Qed.

Lemma total_bound u t : (forall t, 0 <= u t) -> (t < MaxThreads)%nat -> 0 <= u t <= total u.
Proof.
  intros Hu Ht. split; [done|]. unfold total. assert (Hin : t ∈ seq 0 MaxThreads) by (apply elem_of_seq; lia).
  revert Hin. induction (seq 0 MaxThreads) as [|t' l IH]; [by intros ?%elem_of_nil|]. cbn.
  assert (0 <= foldr (fun tid n => u tid + n) 0 l).
  { clear -Hu. induction l as [|x l IH]; cbn; [lia|]. specialize (Hu x). lia. }
  intros [->|Hin]%elem_of_cons; [lia|]. specialize (IH Hin). specialize (Hu t'). lia.
Qed.

Section Counts.
Context (insts insts' : ThreadID -> list InstPtr) (m m' : InstMem).
Context (count : ThreadID -> Z) (free entries : Z).
Hypothesis HC : CountInv insts m count free entries.

Lemma ct_bound tid : 0 <= used insts m tid <= entries - free.
Proof.
  destruct (decide (tid < MaxThreads)%nat) as [Ht|Ht].
  - pose proof (ct_free _ _ _ _ _ HC). pose proof (total_bound (used insts m) tid (used_nonneg insts m) Ht).
    unfold total in *. lia.
  - unfold used. rewrite (ct_threads _ _ _ _ _ HC) by lia. cbn.
    pose proof (ct_free _ _ _ _ _ HC).
    pose proof (total_bound (used insts m) 0%nat (used_nonneg insts m) ltac:(unfold MaxThreads; lia)). unfold total in *. lia.
Qed.

(** The entries of thread [tid] change by [d]. *)
Lemma CountInv_upd tid d :
  (tid < MaxThreads)%nat -> used insts' m' tid = used insts m tid + d ->
  (forall t, t <> tid -> used insts' m' t = used insts m t) ->
  (forall t, (MaxThreads <= t)%nat -> insts' t = []) ->
  0 <= free - d ->
  (forall p i, p ∈ insts' (threadNumber i) -> heap m' !! p = Some i -> isMemRef i = true ->
    memOpDone i = true -> isIssued i = true) ->
  CountInv insts' m' (<[tid := u32 (count tid + d)]> count) (u32 (free - d)) entries.
Proof.
  intros Ht Hu Hother Hthr Hd Hdone. destruct HC as [C1 C2 C3 C4 C5].
  pose proof (ct_bound tid) as Hb. pose proof (used_nonneg insts' m' tid) as H0.
  assert (Ec : u32 (count tid + d) = used insts' m' tid).
  { rewrite C1, Hu. apply u32_small. unfold in_u32. rewrite Hu in H0.
    pose proof (total_upd (used insts m) (used insts' m') tid d Ht Hu Hother) as HT.
    pose proof (total_bound (used insts' m') tid (used_nonneg insts' m') Ht). unfold total in *. lia. }
  pose proof (total_upd (used insts m) (used insts' m') tid d Ht Hu Hother) as HT.
  assert (Ef : u32 (free - d) = free - d).
  { apply u32_small. unfold in_u32. pose proof (total_bound (used insts' m') tid (used_nonneg insts' m') Ht). unfold total in *. lia. }
  split.
  - intros t. destruct (decide (t = tid)) as [->|Hne]; [by rewrite fn_lookup_insert|].
    rewrite fn_lookup_insert_ne, C1, Hother by done. done.
  - done.
  - rewrite Ef. unfold total in HT. lia.
  - rewrite Ef. lia.
  - done.
Qed.

Lemma CountInv_same :
  (forall t, used insts' m' t = used insts m t) ->
  (forall t, (MaxThreads <= t)%nat -> insts' t = []) ->
  (forall p i, p ∈ insts' (threadNumber i) -> heap m' !! p = Some i -> isMemRef i = true ->
    memOpDone i = true -> isIssued i = true) ->
  CountInv insts' m' count free entries.
Proof.
  intros Hu Hthr Hdone. destruct HC as [C1 C2 C3 C4 C5]. split; [|done| |done|done].
  - intros t. by rewrite Hu.
  - rewrite <- C3. f_equal. apply foldr_sum_ext. intros t _. apply Hu.
Qed.

End Counts.

Lemma checkCount_ok insts m s : CountInv insts m (count (iq s)) (freeEntries (iq s)) (iqEntries (iq s)) ->
  checkCount s = Ok s.
Proof.
  intros HC. unfold checkCount, countInsts.
  destruct (ct_range _ _ _ _ _ HC) as [H1 H2]. pose proof (ct_bound _ _ _ _ _ HC 0%nat).
  assert (E : (freeEntries (iq s) =? u32 (iqEntries (iq s) - s32 (iqEntries (iq s) - freeEntries (iq s)))) = true).
  { apply Z.eqb_eq. unfold s32, wrap. set (a := iqEntries (iq s)) in *. set (b := freeEntries (iq s)) in *.
    rewrite (Z.mod_eq (a - b + 2 ^ 31)) by done. set (k := (a - b + 2 ^ 31) / 2 ^ 32).
    replace (a - _) with (b + k * 2 ^ 32) by lia. rewrite Z_mod_plus_full, Z.mod_small; lia. }
  by rewrite E.
Qed.

(** ** Memory dependence units *)

Lemma un_env insts m units missing pool m' tid :
  UnitInv insts m units missing pool -> extends m m' ->
  MDInv predOK tid (unitOf m' units tid) /\ absMD (unitOf m' units tid) = absMD (unitOf m units tid).
Proof. intros HU He. apply (env_inv tid (unitOf m units tid) m' (un_inv _ _ _ _ _ HU tid) He). Qed.

(** What an instruction waits for when something changes: outside the graph it may
    have stopped waiting. *)
Definition missKept (tr : bool) (n n' : nat) : Prop := (n = 0%nat -> n' = 0%nat) /\ (tr = true -> n' = 0%nat -> n = 0%nat).

Lemma missKept_eq tr n n' : n' = n -> missKept tr n n'.
Proof. by intros ->. Qed.

#[local] Hint Resolve missKept_eq : core.

Lemma UnitInv_frame insts insts' m m' units missing missing' (pool pool' : InstPtr -> Prop) :
  UnitInv insts m units missing pool -> extends m m' ->
  (forall p i', p ∈ insts' (threadNumber i') -> heap m' !! p = Some i' -> isMemRef i' = true -> memOpDone i' = false ->
    exists i, heap m !! p = Some i /\ p ∈ insts (threadNumber i) /\ memOpDone i = false /\
      missKept (tracked i) (missing p i) (missing' p i')) ->
  (forall p, pool' p -> pool p \/ exists i', heap m' !! p = Some i' /\ isMemRef i' = false) ->
  UnitInv insts' m' units missing' pool'.
Proof.
  intros HU He Hlive Hpool. split.
  - intros tid. by destruct (un_env _ _ _ _ _ _ tid HU He).
  - intros p i' Hp Hi' Hm Hd. destruct (Hlive _ _ Hp Hi' Hm Hd) as (i & Hi & Hl & Hdi & Hmiss).
    destruct (He _ _ Hi) as (j & Hj & Hs). simplify_eq. destruct (sameInst_tracked _ _ Hs) as (T1 & T2 & _).
    destruct (un_env _ _ _ _ _ _ (threadNumber i) HU He) as [_ Ea].
    destruct (un_in _ _ _ _ _ HU p i Hl Hi) as (w & Hw & Ew & Hr & Hr'); [congruence|done|]. destruct Hmiss as [M1 M2].
    destruct Hs as (S1 & S2 & _). exists w. rewrite S1, S2, Ea. split_and!; [done..| |auto].
    rewrite T1. intros Ht. rewrite (Hr Ht). apply bool_decide_ext. split; auto.
  - intros tid p i' Hp Hi'. destruct (mi_replay _ _ _ (un_inv _ _ _ _ _ HU tid) p Hp) as (e & en & i & (Hi & _) & _).
    cbn in Hi. destruct (He _ _ Hi) as (j & Hj & Hs). simplify_eq. destruct (sameInst_tracked _ _ Hs) as (_ & -> & _).
    by eapply (un_replay _ _ _ _ _ HU).
  - intros p Hp. destruct (Hpool p Hp) as [Hp'|(i' & Hi' & Hn)]; [|exists i'; split; [done|congruence]].
    destruct (un_pool _ _ _ _ _ HU p Hp') as (i & Hi & Hmem).
    destruct (He _ _ Hi) as (i' & Hi' & Hs). destruct (sameInst_tracked _ _ Hs) as (T1 & T2 & _).
    pose proof Hs as (S1 & S2 & _). exists i'. split; [done|]. rewrite T2. intros Hm. destruct (Hmem Hm) as [Hf Hz].
    rewrite S2. split; [done|]. intros Hl Hd.
    destruct (Hlive p i') as (j & Hj & Hlj & Hdj & Hmj); [by rewrite S2|done|congruence|done|]. simplify_eq.
    apply Hmj. by apply Hz.
Qed.

Lemma free_thread T u m p : MDInv predOK T (mkMDS u m []) -> free u p ->
  exists i, heap m !! p = Some i /\ threadNumber i = T.
Proof. intros HI (e & en & He & <- & _). destruct (mi_inst _ _ HI e en He) as (i & Hi & Ht & _). eauto. Qed.

(** A memory instruction that has not completed is in the unit of its thread. *)
Lemma un_inUnit insts m units missing pool p i : UnitInv insts m units missing pool -> heap m !! p = Some i ->
  p ∈ insts (threadNumber i) -> isMemRef i = true -> memOpDone i = false ->
  exists e en, inUnit (unitOf m units (threadNumber i)) p e en i.
Proof.
  intros HU Hi Hp Hm Hd. destruct (un_in _ _ _ _ _ HU p i Hp Hi Hm Hd) as (w & Hw & Ew & _).
  pose proof (un_inv _ _ _ _ _ HU (threadNumber i)) as HM.
  apply (abs_lookup _ _ _ _ HM) in Hw as (e & en & j & Hh & Hei & ->). cbn in Ew. subst p. exists e, en.
  destruct Hei as [He Hj]. by split_and!.
Qed.

(** A call of the unit of thread [T]. *)
Lemma UnitInv_op insts insts' m m' units T u' missing missing' (pool pool' : InstPtr -> Prop) (out : list InstPtr) :
  UnitInv insts m units missing pool -> extends m m' ->
  MDInv predOK T (mkMDS u' m' []) ->
  (forall p, p ∈ out \/ free (units T) p -> free u' p) ->
  (forall p i', p ∈ insts' (threadNumber i') -> heap m' !! p = Some i' -> isMemRef i' = true -> memOpDone i' = false ->
    threadNumber i' <> T -> exists i, heap m !! p = Some i /\ p ∈ insts (threadNumber i) /\ memOpDone i = false /\
      missing' p i' = missing p i) ->
  (forall p i', p ∈ insts' (threadNumber i') -> heap m' !! p = Some i' -> isMemRef i' = true -> memOpDone i' = false ->
    threadNumber i' = T -> exists w, waiting (absMD (mkMDS u' m' [])) !! seqNum i' = Some w /\ w_inst w = p /\
      (tracked i' = true -> w_regs w = bool_decide (missing' p i' = 0%nat)) /\
      (w_regs w = true -> missing' p i' = 0%nat) /\ (pool' p -> missing' p i' = 0%nat)) ->
  (forall p i', p ∈ instsToReplay u' -> heap m' !! p = Some i' -> isMemRef i' = true) ->
  (forall p, pool' p -> p ∈ out \/ pool p) ->
  UnitInv insts' m' (<[T := u']> units) missing' pool'.
Proof.
  intros HU He HI Hfree Hother Hown Hrep Hpool.
  assert (Hlook : forall i (R : MemDepUnit -> Prop), (threadNumber i = T -> R u') -> (threadNumber i <> T -> R (units (threadNumber i))) ->
            R ((<[T := u']> units) (threadNumber i))).
  { intros i R H1 H2. destruct (decide (threadNumber i = T)) as [E|E].
    - rewrite E, fn_lookup_insert. by apply H1.
    - rewrite fn_lookup_insert_ne by done. by apply H2. }
  split.
  - intros tid. unfold unitOf. destruct (decide (tid = T)) as [->|Hne]; [by rewrite fn_lookup_insert|].
    rewrite fn_lookup_insert_ne by done. by destruct (un_env _ _ _ _ _ _ tid HU He).
  - intros p i' Hp Hi' Hm Hd. unfold unitOf. apply Hlook.
    + intros Ht. destruct (Hown _ _ Hp Hi' Hm Hd Ht) as (w & ? & ? & ? & ? & _). eauto 10.
    + intros Ht. destruct (Hother _ _ Hp Hi' Hm Hd Ht) as (i & Hi & Hl & Hdi & Hmiss).
      destruct (He _ _ Hi) as (j & Hj & Hs). simplify_eq. destruct (sameInst_tracked _ _ Hs) as (T1 & T2 & _).
      destruct (un_env _ _ _ _ _ _ (threadNumber i) HU He) as [_ Ea].
      destruct (un_in _ _ _ _ _ HU p i Hl Hi) as (w & Hw & Ew & Hr & Hr'); [congruence|done|].
      destruct Hs as (S1 & S2 & _). exists w. fold (unitOf m' units (threadNumber i')). rewrite S1, S2, Ea, T1, Hmiss. by split_and!.
  - intros tid p i' Hp Hi'. destruct (decide (tid = T)) as [->|Hne].
    + rewrite fn_lookup_insert in Hp. by apply Hrep with p.
    + rewrite fn_lookup_insert_ne in Hp by done.
      destruct (mi_replay _ _ _ (un_inv _ _ _ _ _ HU tid) p Hp) as (e & en & i & (Hi & _) & _).
      cbn in Hi. destruct (He _ _ Hi) as (j & Hj & Hs). simplify_eq. destruct (sameInst_tracked _ _ Hs) as (_ & -> & _).
      by eapply (un_replay _ _ _ _ _ HU).
  - intros p Hp.
    assert (Hx : exists i', heap m' !! p = Some i' /\ (isMemRef i' = true -> free ((<[T := u']> units) (threadNumber i')) p) /\
      (p ∈ out \/ threadNumber i' <> T -> isMemRef i' = true -> threadNumber i' <> T -> pool p)).
    { destruct (Hpool p Hp) as [Ho|Hold].
      - destruct (free_thread T u' m' p HI) as (i' & Hi' & Ht); [by apply Hfree; left|]. exists i'. split; [done|].
        split; [|tauto]. intros _. rewrite Ht, fn_lookup_insert. apply Hfree. by left.
      - destruct (un_pool _ _ _ _ _ HU p Hold) as (i & Hi & Hmem). destruct (He _ _ Hi) as (i' & Hi' & Hs).
        exists i'. split; [done|]. split; [|done]. destruct (sameInst_tracked _ _ Hs) as (_ & -> & _). intros Hm.
        destruct (Hmem Hm) as [Hf _]. destruct Hs as (_ & S2 & _). apply Hlook; rewrite S2; intros Ht; [|done].
        apply Hfree. right. by rewrite <- Ht. }
    destruct Hx as (i' & Hi' & Hf & Hold). exists i'. split; [done|]. intros Hm. split; [by apply Hf|]. intros Hl Hd.
    destruct (decide (threadNumber i' = T)) as [Ht|Ht].
    + destruct (Hown _ _ Hl Hi' Hm Hd Ht) as (w & _ & _ & _ & _ & Hz). by apply Hz.
    + destruct (Hother _ _ Hl Hi' Hm Hd Ht) as (i & Hi & Hli & Hdi & Hmiss).
      destruct (un_pool _ _ _ _ _ HU p) as (j & Hj & Hmem); [by apply Hold; [right|..]|]. simplify_eq.
      destruct (He _ _ Hi) as (i1 & Hi1 & Hs). simplify_eq. destruct (sameInst_tracked _ _ Hs) as (T1 & T2 & _).
      rewrite Hmiss. apply Hmem; congruence.
Qed.

(** ** The ready queues *)

Definition classIs (m : InstMem) (c : OpClass) (p : InstPtr) : Prop :=
  match heap m !! p with Some i => instOpClass i = c | None => False end.

#[export] Instance classIs_dec m c p : Decision (classIs m c p).
Proof. unfold classIs. destruct (heap m !! p); apply _. Defined.

(** [r'] is [r] with the instructions [out] added. *)
Definition pushed (m : InstMem) (out : list InstPtr) (r r' : ReadyLists) : Prop :=
  RLInv m r' /\ forall c, readyInsts r' c ≡ₚ filter (classIs m c) out ++ readyInsts r c.

Lemma pushReady_pushed m r p i : RLInv m r -> heap m !! p = Some i ->
  exists r', pushReady m p r = Ok r' /\ pushed m [p] r r'.
Proof.
  intros HR Hp. destruct (pushReady_ok m r p i HR Hp) as (r' & E & HR' & Er). exists r'. split; [done|]. split; [done|].
  intros c. rewrite Er. destruct (decide (c = instOpClass i)) as [->|Hne].
  - rewrite fn_lookup_insert, pqPush_perm, filter_cons_True; [done|]. unfold classIs. by rewrite Hp.
  - rewrite fn_lookup_insert_ne, filter_cons_False; [done| |done]. unfold classIs. rewrite Hp. congruence.
Qed.

Lemma pushed_trans m o1 o2 r1 r2 r3 : pushed m o1 r1 r2 -> pushed m o2 r2 r3 -> pushed m (o1 ++ o2) r1 r3.
Proof.
  intros [_ H1] [HR H2]. split; [done|]. intros c. rewrite H2, H1, list_basics.list.filter_app.
  rewrite !app_assoc. apply Permutation_app_tail, Permutation_app_comm.
Qed.

Definition putReady (r : ReadyLists) (s : IQS) : IQS := updIQ (fun q => q <| ready := r |>) s.

Lemma addReadyMemInst_ok p i s : RLInv (iqmem s) (ready (iq s)) -> heap (iqmem s) !! p = Some i ->
  exists r', addReadyMemInst p s = Ok (putReady r' s) /\ pushed (iqmem s) [p] (ready (iq s)) r'.
Proof.
  intros HR Hp. destruct (pushReady_pushed _ _ _ _ HR Hp) as (r' & E & HP). exists r'. split; [|done].
  unfold addReadyMemInst. by rewrite E.
Qed.

Lemma addReadyAll_ok out : forall s, RLInv (iqmem s) (ready (iq s)) ->
  (forall p, p ∈ out -> is_Some (heap (iqmem s) !! p)) ->
  exists r', foldR (fun s p => addReadyMemInst p s) s out = Ok (putReady r' s) /\ pushed (iqmem s) out (ready (iq s)) r'.
Proof.
  induction out as [|p out IH]; intros s HR Hin.
  - exists (ready (iq s)). split; [by destruct s as [[] ? ? ?]|]. by split.
  - destruct (Hin p) as [i Hi]; [by left|]. destruct (addReadyMemInst_ok p i s HR Hi) as (r1 & E1 & P1).
    destruct (IH (putReady r1 s)) as (r' & E2 & P2); [apply P1|intros q Hq; apply Hin; by right|].
    exists r'. cbn [foldR]. rewrite E1. cbn [mbind res_bind]. split; [exact E2|].
    exact (pushed_trans _ [p] out _ _ _ P1 P2).
Qed.

Lemma pushed_occ m out r r' p c : pushed m out r r' ->
  occ p (readyInsts r' c) = ((if decide (classIs m c p) then occ p out else 0) + occ p (readyInsts r c))%nat.
Proof. intros [_ HP]. by rewrite (occ_perm _ _ _ (HP c)), occ_app, occ_filter. Qed.

Lemma pushed_in m out r r' p c : pushed m out r r' -> p ∈ readyInsts r' c -> p ∈ out \/ p ∈ readyInsts r c.
Proof. intros [_ HP]. rewrite HP, elem_of_app, list_elem_of_filter. tauto. Qed.

(** Memory instructions join the ready queues. *)
Lemma ReadyInv_pushMem insts m r r' ns out : ReadyInv insts m r ns -> pushed m out r r' ->
  (forall p i, p ∈ out -> heap m !! p = Some i -> isMemRef i = true) -> ReadyInv insts m r' ns.
Proof.
  intros [H1 H2 H3] HP Hmem. split; [apply HP| |done]. intros p i Hp Hm Hsq.
  assert (Hocc : forall c, occ p (readyInsts r' c) = occ p (readyInsts r c)).
  { intros c. rewrite (pushed_occ _ _ _ _ _ _ HP). assert (occ p out = 0%nat) as ->; [|by case_decide].
    apply occ_zero. intros Hin. specialize (Hmem _ _ Hin Hp). congruence. }
  destruct (H2 p i Hp Hm Hsq) as [R1 R2 R3]. split.
  - intros c. rewrite Hocc. apply R1.
  - intros c. rewrite Hocc. apply R2.
  - rewrite Hocc. apply R3.
Qed.

(** ** A call of a memory dependence unit *)

Definition putUnit (T : ThreadID) (u : MemDepUnit) (r : ReadyLists) (m : InstMem) (s : IQS) : IQS :=
  s <| iq := iq s <| memDepUnit := <[T := u]> (memDepUnit (iq s)) |> <| ready := r |> |> <| iqmem := m |>.

Lemma onUnit_ok T op (f : MDS -> res MDS) s :
  (forall d, terminates (runMD T d op) = f d) ->
  RLInv (iqmem s) (ready (iq s)) ->
  MDInv predOK T (mkMDS (memDepUnit (iq s) T) (iqmem s) []) ->
  enabledMD T (mkMDS (memDepUnit (iq s) T) (iqmem s) []) op ->
  exists u' m' out r', onUnit T f s = Ok (putUnit T u' r' m' s) /\
    MDInv predOK T (mkMDS u' m' []) /\ memStep op (iqmem s) m' /\
    (forall p, p ∈ out \/ free (memDepUnit (iq s) T) p -> free u' p) /\
    specStep (iqmem s) (depPred (memDepUnit (iq s) T)) op
      (absMD (mkMDS (memDepUnit (iq s) T) (iqmem s) [])) out (absMD (mkMDS u' m' [])) /\
    pushed m' out (ready (iq s)) r'.
Proof.
  intros Hf HR HI Ho. destruct (unit_step T _ _ op HI Ho) as (u' & m' & out & E & HI' & Hm & Hfree & HS).
  destruct (addReadyAll_ok out (putUnit T u' (ready (iq s)) m' s)) as (r' & E' & HP).
  { cbn. eapply RLInv_extends; [exact (memStep_extends _ _ _ Hm)|exact HR]. }
  { intros p Hp. destruct (free_thread T u' m' p HI') as (i & Hi & _); [by apply Hfree; left|]. by exists i. }
  exists u', m', out, r'. split; [|done]. unfold onUnit. rewrite <- Hf, E. exact E'.
Qed.

(** ** Changes of instructions that the queue does not depend on *)

(** A memory instruction may be kept from issuing, and be issued again later. *)
Definition calmInst (i i' : DynInst) : Prop :=
  sameRegs i i' /\ memOpDone i' = memOpDone i /\ (isSquashed i = true -> isSquashed i' = true) /\
  if isMemRef i then
    (tracked i = true -> readyToIssue i' = true -> readyToIssue i = true) /\ (isIssued i' = true -> isIssued i = true) /\
    (memOpDone i = true -> isIssued i' = isIssued i)
  else readyToIssue i' = readyToIssue i /\ isIssued i' = isIssued i.

Definition calm (m m' : InstMem) : Prop :=
  forall p i, heap m !! p = Some i -> exists i', heap m' !! p = Some i' /\ calmInst i i'.

Lemma sameRegs_refl i : sameRegs i i.
Proof. done. Qed.

Lemma calmInst_refl i : calmInst i i.
Proof. split; [apply sameRegs_refl|]. split_and!; try done. by destruct (isMemRef i). Qed.

Lemma calm_refl m : calm m m.
Proof. intros p i Hp. eauto using calmInst_refl. Qed.

Lemma calm_extends m m' : calm m m' -> extends m m'.
Proof. intros H p i Hp. destruct (H p i Hp) as (i' & Hi' & (Hs & _) & _). eauto. Qed.

Lemma calm_set p i i' m : heap m !! p = Some i -> calmInst i i' -> calm m (setHeap p i' m).
Proof.
  intros Hp Hc q j Hq. destruct (decide (q = p)) as [->|Hne].
  - rewrite setHeap_eq. simplify_eq. eauto.
  - rewrite setHeap_ne by done. eauto using calmInst_refl.
Qed.

Lemma calm_holds i i' : calmInst i i' -> holds i' = holds i.
Proof.
  intros (Hs & Hd & _ & Hm). destruct Hs as [Hs _]. destruct (sameInst_tracked _ _ Hs) as (_ & T2 & _).
  unfold holds. rewrite T2, Hd. destruct (isMemRef i); [done|]. destruct Hm as [_ ->]. done.
Qed.

Lemma WakeInv_calm insts m m' g sb : WakeInv insts m g sb -> calm m m' -> WakeInv insts m' g sb.
Proof.
  intros HW Hc. apply (WakeInv_mem insts m); [done|]. intros p i Hp Hi. destruct (Hc p i Hi) as (i' & Hi' & Hci).
  exists i'. split; [done|]. destruct Hci as (Hs & _ & _ & Hm). split; [done|].
  destruct (sameRegs_flats _ _ Hs) as (_ & _ & _ & _ & Hpe). pose proof Hs as [Hs' _].
  destruct (sameInst_tracked _ _ Hs') as (T1 & T2 & _). unfold issueOK. rewrite T1, T2, Hpe. intros Ht.
  destruct (wk_issue _ _ _ _ HW p i Hp Hi Ht) as [K1 K2]. destruct (isMemRef i).
  - destruct Hm as (M1 & M2 & _). split; [|done]. intros [H|H]; apply K1; auto.
  - destruct Hm as [-> ->]. done.
Qed.

Lemma CountInv_calm insts m m' count free entries g sb : WakeInv insts m g sb ->
  CountInv insts m count free entries -> calm m m' -> CountInv insts m' count free entries.
Proof.
  intros HW HC Hc. apply (CountInv_same insts _ m); [done|..].
  - intros t. apply used_ext; [done|]. intros p Hp. destruct (wk_inst _ _ _ _ HW t p Hp) as (i & Hi & _).
    destruct (Hc p i Hi) as (i' & Hi' & Hci). unfold holdsAt. rewrite Hi, Hi'. by apply calm_holds.
  - apply HC.
  - intros p i' Hp Hi' Hm Hd. destruct (wk_inst _ _ _ _ HW _ p Hp) as (i & Hi & Ht & _).
    destruct (Hc p i Hi) as (j & Hj & Hs & Hdn & _ & HM). simplify_eq.
    destruct Hs as [Hs _]. destruct (sameInst_tracked _ _ Hs) as (_ & T2 & _). destruct Hs as (_ & S2 & _).
    rewrite T2 in Hm. rewrite Hm in HM. destruct HM as (_ & _ & HM). rewrite Hdn in Hd. rewrite HM by done.
    apply (ct_done _ _ _ _ _ HC p); [by rewrite Ht|done..].
Qed.

Lemma ReadyInv_calm insts m m' r ns g sb : WakeInv insts m g sb -> ReadyInv insts m r ns -> calm m m' ->
  ReadyInv insts m' r ns.
Proof.
  intros HW HR Hc. apply (ReadyInv_frame insts _ m); [done|by apply calm_extends|..].
  - intros p i i' Hi Hi' Hm Hsq. destruct (Hc p i Hi) as (j & Hj & Hs & _ & Hsq' & HM). simplify_eq.
    destruct Hs as [Hs _]. destruct (sameInst_tracked _ _ Hs) as (_ & T2 & _). rewrite T2 in Hm. rewrite Hm in HM.
    destruct HM as [-> ->]. split_and!; try done. destruct (isSquashed i); [|done]. rewrite Hsq' in Hsq by done. done.
  - intros p i' Hn Hi' Hp. destruct (wk_inst _ _ _ _ HW _ p Hp) as (i & Hi & _). congruence.
  - intros sn p i i' Hn Hi Hi'. destruct (rd_ns _ _ _ _ HR sn p Hn) as (j & Hj & _ & Hl & _ & Hiss & _). simplify_eq.
    destruct (Hc p i Hi) as (j & Hj & Hs & Hd & _ & HM). simplify_eq. split_and!; [done| |done].
    destruct (isMemRef i); [|by destruct HM]. destruct HM as (_ & H2 & _). rewrite Hiss.
    destruct (isIssued i'); [|done]. rewrite H2 in Hiss by done. done.
Qed.

(** Two instructions, or states, in which it waits for the same. *)
Lemma misses_eq sb sb' ns ns' p i i' : sameInst i i' -> pend sb' i' = pend sb i ->
  (ns' !! seqNum i = Some p <-> ns !! seqNum i = Some p) -> misses sb' ns' p i' = misses sb ns p i.
Proof.
  intros Hs Hp Hn. unfold misses. destruct (sameInst_tracked _ _ Hs) as (-> & _). destruct Hs as (-> & _). rewrite Hp.
  destruct (tracked i); [done|]. repeat case_decide; tauto.
Qed.

Lemma misses_same sb ns p i i' : sameRegs i i' -> misses sb ns p i' = misses sb ns p i.
Proof.
  intros Hs. apply misses_eq; [apply Hs| |done]. by destruct (sameRegs_flats _ _ Hs) as (_ & _ & _ & _ & ->).
Qed.

Lemma misses_tracked sb ns p i : tracked i = true -> misses sb ns p i = length (pend sb i).
Proof. unfold misses. by intros ->. Qed.

Lemma misses_delete sb ns sn p i : missKept (tracked i) (misses sb ns p i) (misses sb (delete sn ns) p i).
Proof.
  unfold misses. destruct (tracked i); [done|]. split; [|done]. case_decide as H1; [done|]. intros _.
  case_decide as H2; [|done]. by apply lookup_delete_Some in H2 as [_ H2].
Qed.

Lemma UnitInv_calm insts m m' units sb ns (pool pool' : InstPtr -> Prop) g :
  WakeInv insts m g sb -> UnitInv insts m units (misses sb ns) pool -> calm m m' ->
  (forall p, pool' p -> pool p) -> UnitInv insts m' units (misses sb ns) pool'.
Proof.
  intros HW HU Hc Hpool. apply (UnitInv_frame insts _ m _ _ (misses sb ns) _ pool); [done|by apply calm_extends| |by left; auto].
  intros p i' Hp Hi' Hm Hd. destruct (wk_inst _ _ _ _ HW _ p Hp) as (i & Hi & Ht & _).
  destruct (Hc p i Hi) as (j & Hj & Hs & Hdn & _ & HM). simplify_eq. exists i.
  split_and!; [done|by rewrite Ht|congruence|]. by apply missKept_eq, misses_same.
Qed.

Lemma handed_calm q m m' p g sb : WakeInv (iqInsts q) m g sb -> calm m m' -> handed q m' p -> handed q m p.
Proof.
  intros HW Hc [H|[H|[H|(i' & Hi' & Hp & Hiss)]]]; [by left|by right; left|by right; right; left|].
  do 3 right. destruct (wk_inst _ _ _ _ HW _ p Hp) as (i & Hi & Ht & _).
  destruct (Hc p i Hi) as (j & Hj & Hs & Hdn & _ & HM). simplify_eq. exists i. split_and!; [done|by rewrite Ht|].
  destruct (isMemRef i); [by apply HM|]. by destruct HM as [_ <-].
Qed.

(** Instructions keep their sequence numbers. *)
Lemma wk_seqOf insts m m' g sb t p : WakeInv insts m g sb -> extends m m' -> p ∈ insts t -> seqOf m' p = seqOf m p.
Proof.
  intros HW He Hp. destruct (wk_inst _ _ _ _ HW t p Hp) as (i & Hi & _). destruct (He p i Hi) as (i' & Hi' & Hs & _).
  unfold seqOf. by rewrite Hi, Hi'.
Qed.

Lemma seqUniq_frame insts insts' m m' g sb : WakeInv insts m g sb -> seqUniq insts m -> extends m m' ->
  (forall t p, p ∈ insts' t -> p ∈ insts t) -> seqUniq insts' m'.
Proof.
  intros HW HQ He Hin t t' p q Hp%Hin Hq%Hin. rewrite (wk_seqOf _ _ _ _ _ _ _ HW He Hp), (wk_seqOf _ _ _ _ _ _ _ HW He Hq).
  by apply (HQ t t').
Qed.

Lemma memOnly_extends l m m' : extends m m' -> memOnly l m -> memOnly l m'.
Proof.
  intros He Hl p Hp. destruct (Hl p Hp) as (i & Hi & Hm). destruct (He _ _ Hi) as (i' & Hi' & Hs).
  destruct (sameInst_tracked _ _ Hs) as (_ & T2 & _). exists i'. split; [done|congruence].
Qed.

Lemma IQInv_calm s m' : IQInv s -> calm (iqmem s) m' -> IQInv (s <| iqmem := m' |>).
Proof.
  intros [H1 H2 H3 H4 H5 H6 H7] Hc. split; cbn.
  - by eapply WakeInv_calm.
  - by eapply CountInv_calm.
  - by eapply ReadyInv_calm.
  - eapply UnitInv_calm; [done..|]. intros p. by eapply handed_calm.
  - done.
  - eapply seqUniq_frame; [done..|by apply calm_extends|done].
  - eapply memOnly_extends; [by apply calm_extends|done].
Qed.

(** ** One instruction changes *)

Lemma ReadyInv_at insts insts' m p i' r r' ns ns' :
  ReadyInv insts m r ns ->
  (exists i, heap m !! p = Some i /\ sameInst i i') ->
  RLInv (setHeap p i' m) r' ->
  (forall q j, q <> p -> heap m !! q = Some j -> (q ∈ insts' (threadNumber j) <-> q ∈ insts (threadNumber j))) ->
  (forall q j c, q <> p -> heap m !! q = Some j -> isMemRef j = false -> isSquashed j = false ->
    occ q (readyInsts r' c) = occ q (readyInsts r c)) ->
  (forall q j, q <> p -> heap m !! q = Some j -> isMemRef j = false -> q ∈ insts (threadNumber j) ->
    (is_Some (ns' !! seqNum j) <-> is_Some (ns !! seqNum j))) ->
  (isMemRef i' = false -> isSquashed i' = false ->
    rdOK (p ∈ insts' (threadNumber i')) (fun c => occ p (readyInsts r' c)) (bool_decide (is_Some (ns' !! seqNum i'))) i') ->
  (forall sn q, ns' !! sn = Some q -> q <> p -> ns !! sn = Some q) ->
  (forall sn, ns' !! sn = Some p -> seqNum i' = sn /\ p ∈ insts' (threadNumber i') /\ tracked i' = false /\
    isIssued i' = false /\ memOpDone i' = false /\ (isMemRef i' = true -> speculative i' = false)) ->
  ReadyInv insts' (setHeap p i' m) r' ns'.
Proof.
  intros [H1 H2 H3] (i & Hi & Hs) HR Hl Hocc Hns Hp Hold Hnew. split; [done|..].
  - intros q j Hq Hm Hsq. destruct (decide (q = p)) as [->|Hne].
    { rewrite setHeap_eq in Hq. simplify_eq. by apply Hp. }
    rewrite setHeap_ne in Hq by done. destruct (H2 q j Hq Hm Hsq) as [R1 R2 R3]. split.
    + intros c. rewrite (Hocc q j c Hne Hq Hm Hsq). intros Hc. destruct (R1 c Hc) as (L & K1 & K2 & K3).
      rewrite (Hl q j Hne Hq). split_and!; [done..|]. apply bool_decide_eq_false in K3. apply bool_decide_eq_false.
      by rewrite (Hns q j Hne Hq Hm L).
    + intros c. rewrite (Hocc q j c Hne Hq Hm Hsq). apply R2.
    + rewrite (Hocc q j _ Hne Hq Hm Hsq), (Hl q j Hne Hq). intros L Hiss Hcond. apply R3; [done..|].
      destruct (tracked j); [done|]. apply bool_decide_eq_false in Hcond. apply bool_decide_eq_false.
      by rewrite <- (Hns q j Hne Hq Hm L).
  - intros sn q Hn. destruct (decide (q = p)) as [->|Hne].
    { exists i'. rewrite setHeap_eq. split; [done|]. by apply Hnew. }
    destruct (H3 sn q (Hold sn q Hn Hne)) as (j & Hj & E1 & E2 & E3). exists j. rewrite setHeap_ne by done.
    rewrite (Hl q j Hne Hj). done.
Qed.

Lemma WakeInv_setHeap insts m g sb p i i' : WakeInv insts m g sb -> heap m !! p = Some i -> sameRegs i i' ->
  issueOK sb i' -> WakeInv insts (setHeap p i' m) g sb.
Proof.
  intros HW Hi Hs Hok. apply (WakeInv_mem _ m); [done|]. intros q j Hq Hj. destruct (decide (q = p)) as [->|Hne].
  - exists i'. rewrite setHeap_eq. simplify_eq. done.
  - exists j. rewrite setHeap_ne by done. split_and!; [done..|]. intros Ht. by apply (wk_issue _ _ _ _ HW q).
Qed.

Lemma CountInv_setHeap insts m count free entries p i i' : CountInv insts m count free entries ->
  heap m !! p = Some i -> holds i' = holds i -> (isMemRef i' = true -> memOpDone i' = true -> isIssued i' = true) ->
  CountInv insts (setHeap p i' m) count free entries.
Proof.
  intros HC Hi Hh Hd. apply (CountInv_same insts _ m); [done|..].
  - intros t. apply used_ext; [done|]. intros q _. unfold holdsAt. destruct (decide (q = p)) as [->|Hne].
    + by rewrite setHeap_eq, Hi.
    + by rewrite setHeap_ne.
  - apply HC.
  - intros q j Hq Hj. destruct (decide (q = p)) as [->|Hne].
    + rewrite setHeap_eq in Hj. by simplify_eq.
    + rewrite setHeap_ne in Hj by done. by apply (ct_done _ _ _ _ _ HC q).
Qed.

(** An instruction that is not a memory instruction changes, and the ready queues. *)
Lemma handed_nonMem q m p i i' r t : heap m !! p = Some i -> sameInst i i' -> isMemRef i = false ->
  (forall c x, x ∈ readyInsts r c -> x = p \/ x ∈ readyInsts (ready q) c) ->
  handedBy r (memLists q) (memDepUnit q) (iqInsts q) (setHeap p i' m) t ->
  handed q m t \/ exists j, heap (setHeap p i' m) !! t = Some j /\ isMemRef j = false.
Proof.
  intros Hi Hs Hm Hr Ht. destruct (decide (t = p)) as [->|Hne].
  { right. exists i'. rewrite setHeap_eq. split; [done|]. by destruct (sameInst_tracked _ _ Hs) as (_ & -> & _). }
  left. destruct Ht as [[c Hc]|[Ht|[Ht|(j & Hj & Hl & Hiss)]]].
  - destruct (Hr c t Hc) as [->|Hc']; [done|]. left. by exists c.
  - by right; left.
  - by right; right; left.
  - do 3 right. exists j. rewrite setHeap_ne in Hj by done. done.
Qed.

Lemma UnitInv_nonMem insts m units sb ns ns' pool pool' p i i' : (ns' = ns \/ exists sn, ns' = delete sn ns) ->
  UnitInv insts m units (misses sb ns) pool -> heap m !! p = Some i -> sameInst i i' -> isMemRef i = false ->
  (forall t, pool' t -> pool t \/ exists j, heap (setHeap p i' m) !! t = Some j /\ isMemRef j = false) ->
  UnitInv insts (setHeap p i' m) units (misses sb ns') pool'.
Proof.
  intros Hns HU Hi Hs Hm Hpool.
  apply (UnitInv_frame insts _ m _ _ (misses sb ns) _ pool); [done|by eapply setHeap_extends| |done].
  intros q j Hq Hj Hmj Hd. destruct (decide (q = p)) as [->|Hne].
  - rewrite setHeap_eq in Hj. simplify_eq. destruct (sameInst_tracked _ _ Hs) as (_ & T2 & _). congruence.
  - rewrite setHeap_ne in Hj by done. exists j. split_and!; [done..|]. destruct Hns as [->|[sn ->]]; [done|]. apply misses_delete.
Qed.
