(* ===== verification/InstQueueOps.v ===== *)
(** * The operations of the instruction queue keep its invariant

    Insertion, wake-up and the calls for memory instructions.  Each lemma says that
    the operation succeeds from a state of the invariant and ends in one. *)

From stdpp Require Import base numbers list gmap functions sorting.
From S2P Require Import Prelude Regs DynInst ROB TimeBuffer StoreSet FUPool MemDep MemDepSpec MemDepProps InstQueueUnit DepGraph ReadyList InstQueue InstQueueSpec InstQueueWake InstQueueInv.

#[local] Open Scope Z_scope.

(** ** Calls of a memory dependence unit that leave its instructions as they are *)

Abbreviation iqMisses s := (misses (regScoreboard (iq s)) (nonSpecInsts (iq s))).

Lemma un_look s p i : IQInv s -> heap (iqmem s) !! p = Some i -> p ∈ iqInsts (iq s) (threadNumber i) ->
  isMemRef i = true -> memOpDone i = false ->
  exists w, waiting (absMD (mkMDS (memDepUnit (iq s) (threadNumber i)) (iqmem s) [])) !! seqNum i = Some w /\
    w_inst w = p /\ (tracked i = true -> w_regs w = bool_decide (iqMisses s p i = 0%nat)) /\ (w_regs w = true -> iqMisses s p i = 0%nat).
Proof. intros HI Hi Hp Hm Hd. by apply (un_in _ _ _ _ _ (iv_unit _ HI)). Qed.

(** Neither registers nor commit are in the way of a memory instruction. *)
Definition regsIn (s : IQS) (p : InstPtr) : Prop :=
  exists i, heap (iqmem s) !! p = Some i /\ isMemRef i = true /\
    (p ∈ iqInsts (iq s) (threadNumber i) -> memOpDone i = false -> iqMisses s p i = 0%nat).

Lemma handed_regsIn s p i : IQInv s -> handed (iq s) (iqmem s) p -> heap (iqmem s) !! p = Some i -> isMemRef i = true ->
  regsIn s p.
Proof.
  intros HI Hh Hi Hm. exists i. split_and!; [done..|]. intros Hl Hd.
  destruct (un_pool _ _ _ _ _ (iv_unit _ HI) p Hh) as (j & Hj & Hz). simplify_eq. by apply Hz.
Qed.

Lemma quietUnit_ok T op f s :
  (forall d, terminates (runMD T d op) = f d) -> IQInv s ->
  enabledMD T (mkMDS (memDepUnit (iq s) T) (iqmem s) []) op -> (forall p, op <> OInsert p) ->
  (forall S out S', specStep (iqmem s) (depPred (memDepUnit (iq s) T)) op S out S' ->
    waiting S' = waiting S /\
    (forall p, p ∈ replays S' -> p ∈ replays S \/ handed (iq s) (iqmem s) p /\ regsIn s p) /\
    (forall p, p ∈ out -> p ∈ replays S \/ regsIn s p)) ->
  exists u' r', onUnit T f s = Ok (putUnit T u' r' (iqmem s) s) /\ IQInv (putUnit T u' r' (iqmem s) s).
Proof.
  intros Hf HI Ho Hni Hspec. pose proof HI as [HW HC HR HU HE HQ HB].
  destruct (onUnit_ok T op f s Hf (rd_lists _ _ _ _ HR) (un_inv _ _ _ _ _ HU T) Ho)
    as (u' & m' & out & r' & E & HM & Hms & Hfree & HS & HP).
  destruct Hms as [->|(p & i & -> & _)]; [|by destruct (Hni p)].
  destruct (Hspec _ _ _ HS) as (EW & Hrep & Hout). cbn [absMD waiting replays mdu] in Hrep, Hout.
  exists u', r'. split; [done|].
  assert (Hregs : forall p, p ∈ instsToReplay (memDepUnit (iq s) T) -> regsIn s p).
  { intros p Hp. destruct (mi_replay _ _ _ (un_inv _ _ _ _ _ HU T) p Hp) as (e & en & i & (Hi & _) & _).
    eapply handed_regsIn; [done| |done|by eapply (un_replay _ _ _ _ _ HU)]. right; right; left. by exists T. }
  assert (Hregs' : forall p, p ∈ out -> regsIn s p) by (intros p [?|?]%Hout; auto).
  split; cbn; [done..| | |done|done|done].
  - apply (ReadyInv_pushMem _ _ (ready (iq s)) _ _ out); [done..|]. intros p i Hp Hi.
    destruct (Hregs' p Hp) as (j & Hj & Hm & _). congruence.
  - apply (UnitInv_op (iqInsts (iq s)) _ (iqmem s) _ _ T u' (iqMisses s) _
             (handed (iq s) (iqmem s)) _ out); [done|apply extends_refl|done|done|..].
    + intros p i Hp Hi Hm Hd _. exists i. done.
    + intros p i Hp Hi Hm Hd Ht. destruct (un_look s p i HI Hi Hp Hm Hd) as (w & Hw & Ew & Er & Er'). rewrite Ht in Hw.
      exists w. rewrite EW. split_and!; [done..|].
      intros Hh.
      assert (regsIn s p) as (j & Hj & _ & Hpe); [|simplify_eq; by apply Hpe].
      destruct Hh as [[c Hc]|[Hl|[[t Hr]|Hiss]]].
      * apply (pushed_in _ _ _ _ _ _ HP) in Hc as [Hc|Hc]; [by apply Hregs'|].
        eapply handed_regsIn; [done| |done|done]. left. by exists c.
      * eapply handed_regsIn; [done| |done|done]. by right; left.
      * cbn in Hr. destruct (decide (t = T)) as [->|Hne].
        -- rewrite fn_lookup_insert in Hr. destruct (Hrep p Hr) as [?|[_ ?]]; auto.
        -- rewrite fn_lookup_insert_ne in Hr by done. eapply handed_regsIn; [done| |done|done]. right; right; left. by exists t.
      * eapply handed_regsIn; [done| |done|done]. by do 3 right.
    + intros p i Hp Hi. destruct (Hrep p Hp) as [Hp'|[_ (j & Hj & Hm & _)]]; [|congruence].
      by eapply (un_replay _ _ _ _ _ HU).
    + intros p [[c Hc]|[Hl|[[t Hr]|Hiss]]].
      * apply (pushed_in _ _ _ _ _ _ HP) in Hc as [Hc|Hc]; [by left|]. right. left. by exists c.
      * right. by right; left.
      * right. cbn in Hr. destruct (decide (t = T)) as [->|Hne].
        -- rewrite fn_lookup_insert in Hr. destruct (Hrep p Hr) as [?|[? _]]; [|done]. right; right; left. by exists T.
        -- rewrite fn_lookup_insert_ne in Hr by done. right; right; left. by exists t.
      * right. by do 3 right.
Qed.

(** ** Memory instructions that have to wait *)

Lemma putInst_mem p f s i : heap (iqmem s) !! p = Some i ->
  onInst p f s = Ok (s <| iqmem := setHeap p (f i) (iqmem s) |>).
Proof. intros Hi. unfold onInst, updInst, getInst. by rewrite Hi. Qed.

(** A memory instruction in execution. *)
Definition executing (s : IQS) (p : InstPtr) : Prop :=
  exists i, heap (iqmem s) !! p = Some i /\ p ∈ iqInsts (iq s) (threadNumber i) /\ isMemRef i = true /\
    isIssued i = true /\ memOpDone i = false.

Lemma live_inUnit s p i : IQInv s -> heap (iqmem s) !! p = Some i -> p ∈ iqInsts (iq s) (threadNumber i) ->
  isMemRef i = true -> memOpDone i = false ->
  exists e en, inUnit (mkMDS (memDepUnit (iq s) (threadNumber i)) (iqmem s) []) p e en i.
Proof.
  intros HI Hi Hp Hm Hd. exact (un_inUnit _ _ _ _ _ _ _ (iv_unit _ HI) Hi Hp Hm Hd).
Qed.

Lemma handed_inUnit s p i : IQInv s -> heap (iqmem s) !! p = Some i -> p ∈ iqInsts (iq s) (threadNumber i) ->
  isMemRef i = true -> memOpDone i = false -> handed (iq s) (iqmem s) p ->
  exists e en, inUnit (mkMDS (memDepUnit (iq s) (threadNumber i)) (iqmem s) []) p e en i /\ memDeps en = 0.
Proof.
  intros HI Hi Hp Hm Hd Hh. destruct (live_inUnit s p i HI Hi Hp Hm Hd) as (e & en & Hu).
  exists e, en. split; [done|]. destruct (un_pool _ _ _ _ _ (iv_unit _ HI) p Hh) as (j & Hj & Hz). simplify_eq.
  destruct (Hz Hm) as [(e' & en' & He' & Hp' & Hz') _]. destruct Hu as (_ & _ & He & Hpe).
  assert (e' = e) as -> by (eapply (entry_unique _ _ _ _ _ _ (un_inv _ _ _ _ _ (iv_unit _ HI) (threadNumber i))); eauto; congruence).
  cbn in He. congruence.
Qed.

Lemma executing_handed s p : executing s p -> handed (iq s) (iqmem s) p.
Proof. intros (i & Hi & Hp & _ & Hiss & _). do 3 right. by exists i. Qed.

Lemma replayMemInst_ok p s : IQInv s -> is_Some (heap (iqmem s) !! p) ->
  exists s', replayMemInst p s = Ok s' /\ IQInv s'.
Proof.
  intros HI [i Hi]. unfold replayMemInst, getInst. rewrite Hi. cbn [deref mbind res_bind].
  destruct (quietUnit_ok (threadNumber i) OReplay replay s) as (u' & r' & E & HI'); try done; [|eauto].
  intros S out S' (-> & ->). split_and!; [done|by intros q ?%elem_of_nil|by left].
Qed.

Lemma rescheduleMemInst_ok p s : IQInv s -> executing s p -> exists s', rescheduleMemInst p s = Ok s' /\ IQInv s'.
Proof.
  intros HI (i & Hi & Hp & Hm & Hiss & Hd). unfold rescheduleMemInst, getInst. rewrite Hi. cbn [deref mbind res_bind].
  rewrite (putInst_mem p _ s i Hi). cbn [mbind res_bind].
  match goal with |- context [setHeap p ?x _] => set (i' := x) end. set (s1 := s <| iqmem := _ |>).
  assert (Hc : calmInst i i').
  { split; [done|]. split_and!; [done..|]. rewrite Hm. done. }
  assert (HI1 : IQInv s1) by (apply IQInv_calm; [done|by eapply calm_set]).
  assert (Hi1 : heap (iqmem s1) !! p = Some i') by apply setHeap_eq.
  assert (Hh : handed (iq s1) (iqmem s1) p) by (do 3 right; by exists i').
  destruct (quietUnit_ok (threadNumber i) (OReschedule p) (fun d => Ok (reschedule p d)) s1) as (u' & r' & E & HI'); try done.
  - destruct (handed_inUnit s1 p i' HI1 Hi1) as (e & en & Hu & Hz); try done. by exists e, en, i'.
  - intros S out S' (-> & ->). split_and!; [done| |by intros q ?%elem_of_nil]. intros q [Hq| ->%list_elem_of_singleton]%elem_of_app; [by left|].
    right. split; [done|]. by eapply (handed_regsIn s1 p i').
  - eauto.
Qed.

Lemma handed_lists s d b r m p : (forall q, q ∈ d ++ b ++ r -> handed (iq s) m q) ->
  handedBy (ready (iq s)) (d ++ b ++ r) (memDepUnit (iq s)) (iqInsts (iq s)) m p -> handed (iq s) m p.
Proof.
  intros Hq [H|[H|[H|H]]]; [by left|by apply Hq|by right; right; left|by do 3 right].
Qed.

(** The lists of memory instructions change among themselves. *)
Definition heldMem (s : IQS) (q : InstPtr) : Prop :=
  handed (iq s) (iqmem s) q /\ exists i, heap (iqmem s) !! q = Some i /\ isMemRef i = true.

Lemma lists_heldMem s q : IQInv s -> q ∈ memLists (iq s) -> heldMem s q.
Proof. intros HI Hq. split; [by right; left|]. by apply (iv_lists _ HI). Qed.

Lemma executing_heldMem s p : executing s p -> heldMem s p.
Proof. intros Hp. split; [by apply executing_handed|]. destruct Hp as (i & Hi & _ & Hm & _). eauto. Qed.

Lemma IQInv_lists s d b r a : IQInv s -> (forall q, q ∈ d ++ b ++ r -> heldMem s q) ->
  IQInv (s <| iq := iq s <| deferredMemInsts := d |> <| blockedMemInsts := b |> <| retryMemInsts := r |> |> <| activity := a |>).
Proof.
  intros [H1 H2 H3 H4 H5 H6 H7] Hq. split; cbn; [done..| |done|done|intros q Hin; by apply Hq].
  apply (UnitInv_frame (iqInsts (iq s)) _ (iqmem s) _ _ (iqMisses s) _ (handed (iq s) (iqmem s)));
    [done|apply extends_refl|intros p i' Hp Hi' _ Hd; by exists i'|].
  intros p Hp. left. revert Hp. apply handed_lists. intros q Hin. by apply Hq.
Qed.

Lemma deferMemInst_ok p s : IQInv s -> executing s p -> IQInv (deferMemInst p s).
Proof.
  intros HI Hp%executing_heldMem. change (deferMemInst p s) with
    (s <| iq := iq s <| deferredMemInsts := deferredMemInsts (iq s) ++ [p] |> <| blockedMemInsts := blockedMemInsts (iq s) |>
        <| retryMemInsts := retryMemInsts (iq s) |> |> <| activity := activity s |>).
  apply IQInv_lists; [done|]. intros q Hq. rewrite !elem_of_app, list_elem_of_singleton in Hq.
  destruct Hq as [[Hq| ->]|Hq]; [|done|]; (apply lists_heldMem; [done|]); rewrite !elem_of_app; tauto.
Qed.

Lemma blockMemInst_ok p s : IQInv s -> executing s p -> exists s', blockMemInst p s = Ok s' /\ IQInv s'.
Proof.
  intros HI Hex. pose proof (executing_heldMem _ _ Hex) as Hh. destruct Hex as (i & Hi & Hp & Hm & Hiss & Hd).
  set (s0 := s <| iq := iq s <| deferredMemInsts := deferredMemInsts (iq s) |> <| blockedMemInsts := blockedMemInsts (iq s) ++ [p] |>
        <| retryMemInsts := retryMemInsts (iq s) |> |> <| activity := activity s |>).
  assert (HI0 : IQInv s0).
  { apply IQInv_lists; [done|]. intros q Hq. rewrite !elem_of_app, list_elem_of_singleton in Hq.
    destruct Hq as [Hq|[[Hq| ->]|Hq]]; [| |done|]; (apply lists_heldMem; [done|]); rewrite !elem_of_app; tauto. }
  unfold blockMemInst. rewrite (putInst_mem p _ s i Hi). eexists. split; [done|].
  apply (IQInv_calm s0); [done|]. eapply calm_set; [done|]. split; [done|]. split_and!; [done..|]. rewrite Hm.
  split_and!; [done|done|congruence].
Qed.

Lemma cacheUnblocked_ok s : IQInv s -> IQInv (cacheUnblocked s).
Proof.
  intros HI. change (cacheUnblocked s) with
    (s <| iq := iq s <| deferredMemInsts := deferredMemInsts (iq s) |> <| blockedMemInsts := [] |>
        <| retryMemInsts := retryMemInsts (iq s) ++ blockedMemInsts (iq s) |> |> <| activity := true |>).
  apply IQInv_lists; [done|]. intros q Hq. apply lists_heldMem; [done|]. rewrite !elem_of_app in *. set_solver.
Qed.

Lemma iqViolation_ok st ld s : IQInv s -> is_Some (heap (iqmem s) !! st) -> is_Some (heap (iqmem s) !! ld) ->
  exists s', violation st ld s = Ok s' /\ IQInv s'.
Proof.
  intros HI [i Hi] Hld. unfold violation, getInst. rewrite Hi. cbn [deref mbind res_bind].
  destruct (quietUnit_ok (threadNumber i) (OViolation st ld) (MemDep.violation st ld) s) as (u' & r' & E & HI'); try done.
  - intros S out S' (-> & ->). split_and!; [done|by left|by intros q ?%elem_of_nil].
  - eauto.
Qed.

(** ** Instructions that wait for commit *)

Lemma ns_unique s sn p i q j : IQInv s -> nonSpecInsts (iq s) !! sn = Some p -> heap (iqmem s) !! p = Some i ->
  heap (iqmem s) !! q = Some j -> q ∈ iqInsts (iq s) (threadNumber j) -> seqNum j = sn -> q = p.
Proof.
  intros HI Hn Hi Hj Hq Hsn. destruct (rd_ns _ _ _ _ (iv_ready _ HI) sn p Hn) as (i' & Hi' & Hs & Hp & _). simplify_eq.
  apply (iv_uniq _ HI _ _ q p Hq Hp). unfold seqOf. by rewrite Hi, Hj.
Qed.

(** An instruction that was in no ready queue joins that of its class. *)
Lemma rdOK_pushed m r r' p i live w : pushed m [p] r r' -> heap m !! p = Some i ->
  (forall c, occ p (readyInsts r c) = 0%nat) ->
  live -> isIssued i = false -> readyToIssue i = true -> w = false ->
  rdOK live (fun c => occ p (readyInsts r' c)) w i.
Proof.
  intros HP Hi Hno L H1 H2 H3.
  assert (Ho : forall c, occ p (readyInsts r' c) = if decide (classIs m c p) then 1%nat else 0%nat).
  { intros c. rewrite (pushed_occ _ _ _ _ _ _ HP), occ_cons, occ_nil, Hno. rewrite (decide_True (P := p = p)) by done. by case_decide. }
  split; [done|intros c; rewrite Ho; case_decide; lia|].
  intros _ _ _. rewrite Ho, decide_True; [lia|]. unfold classIs. by rewrite Hi.
Qed.

Lemma pushed_other m r r' p q c : pushed m [p] r r' -> q <> p -> occ q (readyInsts r' c) = occ q (readyInsts r c).
Proof.
  intros HP Hne. rewrite (pushed_occ _ _ _ _ _ _ HP), occ_cons, occ_nil. rewrite (decide_False (P := p = q)) by congruence. by case_decide.
Qed.

(** A unit does not look at the instructions that wait for commit. *)
Definition nsDel (sn : Z) : IQS -> IQS := updIQ (fun q => q <| nonSpecInsts := delete sn (nonSpecInsts q) |>).

Lemma onUnit_nsDel T f sn s : onUnit T f (nsDel sn s) = (s' ← onUnit T f s; Ok (nsDel sn s')).
Proof.
  unfold onUnit. change (memDepUnit (iq (nsDel sn s))) with (memDepUnit (iq s)). change (iqmem (nsDel sn s)) with (iqmem s).
  destruct (f _) as [d| |]; [|done|done]. cbn [mbind res_bind].
  match goal with |- _ = (s' ← foldR _ ?x _; _) => change (foldR (fun s p => addReadyMemInst p s) (nsDel sn x) (readied d) =
    (s' ← foldR (fun s p => addReadyMemInst p s) x (readied d); Ok (nsDel sn s'))); generalize x end.
  induction (readied d) as [|p l IH]; intros x; cbn [foldR]; [done|]. unfold addReadyMemInst at 2 4.
  change (iqmem (nsDel sn x)) with (iqmem x). change (ready (iq (nsDel sn x))) with (ready (iq x)).
  destruct (pushReady _ _ _) as [r| |]; [|done|done]. cbn [mbind res_bind]. rewrite <- IH. done.
Qed.

(** A memory instruction no longer waits for commit. *)
Lemma IQInv_nsDelete s sn p i : IQInv s -> nonSpecInsts (iq s) !! sn = Some p -> heap (iqmem s) !! p = Some i ->
  isMemRef i = true -> IQInv (nsDel sn s).
Proof.
  intros HI Hn Hi Hm. pose proof HI as [H1 H2 H3 H4 H5 H6 H7]. split; cbn; try done.
  2: { eapply UnitInv_frame; [exact H4|apply extends_refl| |by left]. intros q j Hq Hj _ Hd. exists j.
       split_and!; [done..|]. apply misses_delete. }
  destruct H3 as [R1 R2 R3]. split; [done| |].
  - intros q j Hq Hmq Hsq. destruct (R2 q j Hq Hmq Hsq) as [O1 O2 O3].
    assert (Hw : q ∈ iqInsts (iq s) (threadNumber j) ->
      bool_decide (is_Some (delete sn (nonSpecInsts (iq s)) !! seqNum j)) = bool_decide (is_Some (nonSpecInsts (iq s) !! seqNum j))).
    { intros Hl. destruct (decide (seqNum j = sn)) as [E|E]; [|by rewrite lookup_delete_ne].
      rewrite (ns_unique s sn p i q j HI Hn Hi Hq Hl E) in Hq. congruence. }
    split; [|done|].
    + intros c Hc. destruct (O1 c Hc) as (L & K1 & K2 & K3). by rewrite (Hw L).
    + intros L Hiss. rewrite (Hw L). by apply O3.
  - intros sn' q [_ Hq]%lookup_delete_Some. by apply R3.
Qed.

Lemma scheduleNonSpec_ok sn s : IQInv s -> is_Some (nonSpecInsts (iq s) !! sn) ->
  exists s', scheduleNonSpec sn s = Ok s' /\ IQInv s'.
Proof.
  intros HI [p Hn]. pose proof HI as [HW HC HR HU HE HQ HB].
  destruct (rd_ns _ _ _ _ HR sn p Hn) as (i & Hi & Hsn & Hp & Htr & Hiss & Hd & Hspec).
  unfold scheduleNonSpec, getInst. rewrite Hn, Hi. cbn [deref mbind res_bind].
  rewrite (putInst_mem p _ s i Hi). cbn [mbind res_bind]. set (i' := setStatus CanIssue true _).
  set (s1 := s <| iqmem := setHeap p i' (iqmem s) |>).
  assert (Hi1 : heap (iqmem s1) !! p = Some i') by apply setHeap_eq.
  destruct (isMemRef i) eqn:Hm; cbn [negb].
  - assert (HI1 : IQInv s1).
    { apply IQInv_calm; [done|]. eapply calm_set; [done|]. split; [done|]. split_and!; [done..|]. rewrite Hm. by rewrite Htr. }
    pose proof (IQInv_nsDelete s1 sn p i' HI1 Hn Hi1 Hm) as HI2.
    destruct (quietUnit_ok (threadNumber i) (ONonSpecReady p) (nonSpecInstReady p) (nsDel sn s1)) as (u' & r' & E & HI'); try done.
    + destruct (live_inUnit s1 p i' HI1 Hi1) as (e & en & Hu); try done. exists e, en, i'. split; [done|].
      by apply Hspec.
    + intros S out S' (-> & ->). split_and!; [done|by left|]. intros q ->%list_elem_of_singleton. right.
      exists i'. split_and!; [done..|]. intros _ _. unfold misses. change (tracked i') with (tracked i). rewrite Htr.
      rewrite decide_False; [done|]. cbn. change (seqNum i') with (seqNum i). rewrite Hsn, lookup_delete_eq. done.
    + rewrite onUnit_nsDel in E. eexists. split; [exact E|done].
  - unfold addIfReady, getInst. rewrite Hi1. cbn [deref mbind res_bind].
    change (readyToIssue i') with true. change (isMemRef i') with (isMemRef i). rewrite Hm.
    assert (HX : extends (iqmem s) (iqmem s1)) by (by eapply setHeap_extends).
    destruct (addReadyMemInst_ok p i' s1) as (r' & E & HP); [eapply RLInv_extends; [done|apply HR]|done|].
    rewrite E. cbn [mbind res_bind]. eexists. split; [done|].
    assert (Hnoc : forall c, isSquashed i = false -> occ p (readyInsts (ready (iq s)) c) = 0%nat).
    { intros c Hsq. destruct (rd_each _ _ _ _ HR p i Hi Hm Hsq) as [O1 _ _].
      destruct (occ p (readyInsts (ready (iq s)) c)) eqn:Ec; [done|]. destruct (O1 c) as (_ & _ & _ & O); [lia|].
      apply bool_decide_eq_false in O. rewrite Hsn, Hn in O. by destruct O. }
    split; cbn.
    + by eapply WakeInv_setHeap; [..|intros Ht; change (tracked i' = true) with (tracked i = true) in Ht; congruence].
    + eapply CountInv_setHeap; [done..|]. change (isMemRef i') with (isMemRef i). congruence.
    + apply (ReadyInv_at (iqInsts (iq s)) _ _ p i' (ready (iq s)) _ (nonSpecInsts (iq s))); try done.
      * by exists i.
      * apply HP.
      * intros q j c Hne Hj _ _. by apply (pushed_other _ _ _ _ _ _ HP).
      * intros q j Hne Hj Hmj Hl. destruct (decide (seqNum j = sn)) as [E1|E1]; [|by rewrite lookup_delete_ne].
        by destruct (Hne (ns_unique s sn p i q j HI Hn Hi Hj Hl E1)).
      * intros _ Hsq. apply (rdOK_pushed _ _ _ _ _ _ _ HP Hi1); [by intros c; apply Hnoc|done|done|done|].
        apply bool_decide_eq_false. change (seqNum i') with (seqNum i). rewrite Hsn, lookup_delete_eq. by intros [? ?].
      * intros sn' q [_ Hq]%lookup_delete_Some _. done.
      * intros sn' [Hne Hq]%lookup_delete_Some. destruct (rd_ns _ _ _ _ HR sn' p Hq) as (j & Hj & Hs & _). congruence.
    + eapply UnitInv_nonMem; [right; by exists sn|done..|]. intros t. apply (handed_nonMem _ _ _ i); [done..|].
      intros c x Hx. apply (pushed_in _ _ _ _ _ _ HP) in Hx as [->%list_elem_of_singleton|Hx]; [by left|by right].
    + done.
    + by eapply seqUniq_frame.
    + by eapply memOnly_extends.
Qed.
