(* ===== verification/InstQueueInsert.v ===== *)
(** * Insertion into the instruction queue *)

From stdpp Require Import base numbers list gmap functions sorting.
From S2P Require Import Prelude Regs DynInst ROB TimeBuffer StoreSet FUPool MemDep MemDepSpec MemDepProps InstQueueUnit DepGraph ReadyList InstQueue InstQueueSpec InstQueueWake InstQueueInv InstQueueOps.

#[local] Open Scope Z_scope.

(** A renamed instruction that dispatch inserts: the youngest of its thread, with
    destination registers that nobody uses any longer. *)
Record newInst (s : IQS) (p : InstPtr) (i : DynInst) : Prop := {
  ni_heap : heap (iqmem s) !! p = Some i;
  ni_out : forall t, p ∉ iqInsts (iq s) t;
  ni_seq : forall t q, q ∈ iqInsts (iq s) t -> seqOf (iqmem s) q <> seqNum i;
  ni_young : forall q, q ∈ iqInsts (iq s) (threadNumber i) -> seqOf (iqmem s) q < seqNum i;
  ni_thread : (threadNumber i < MaxThreads)%nat;
  ni_issued : isIssued i = false;
  ni_squashed : isSquashedInIQ i = false;
  ni_done : memOpDone i = false;
  ni_regs : regsOK (length (regScoreboard (iq s))) i;
  ni_new : newRegs (iqInsts (iq s)) (iqmem s) i;
  ni_room : freeEntries (iq s) <> 0;
  ni_unit : isMemRef i = true ->
    fresh (threadNumber i) (mkMDS (memDepUnit (iq s) (threadNumber i)) (iqmem s) []) i
}.

Definition withInst (insts : ThreadID -> list InstPtr) (tid : ThreadID) (p : InstPtr) : ThreadID -> list InstPtr :=
  <[tid := insts tid ++ [p]]> insts.

Lemma elem_withInst insts tid p t q : q ∈ withInst insts tid p t <-> q ∈ insts t \/ (t = tid /\ q = p).
Proof.
  unfold withInst. destruct (decide (t = tid)) as [->|Hne].
  - rewrite fn_lookup_insert, elem_of_app, list_elem_of_singleton. tauto.
  - rewrite fn_lookup_insert_ne by done. tauto.
Qed.

Lemma setHeap_twice p i j m : setHeap p j (setHeap p i m) = setHeap p j m.
Proof. unfold setHeap. cbn. by rewrite insert_insert_eq. Qed.

Section Inserted.
Context (s : IQS) (p : InstPtr) (i i' : DynInst).
Hypothesis HI : IQInv s.
Hypothesis HN : newInst s p i.
Hypothesis Hsame : sameInst i i'.
Hypothesis Hiss : isIssued i' = false.
Hypothesis Hdone : memOpDone i' = false.

Abbreviation T := (threadNumber i).
Abbreviation insts := (iqInsts (iq s)).
Abbreviation insts' := (withInst (iqInsts (iq s)) (threadNumber i) p).
Abbreviation m' := (setHeap p i' (iqmem s)).

Lemma inserted_ext : extends (iqmem s) m'.
Proof. eapply setHeap_extends; [apply HN|done]. Qed.

(** Apart from [p] the instructions are the same. *)
Lemma inserted_cases q j : q ∈ insts' (threadNumber j) -> heap m' !! q = Some j ->
  (q = p /\ j = i') \/ (q <> p /\ heap (iqmem s) !! q = Some j /\ q ∈ insts (threadNumber j)).
Proof.
  intros Hq Hj. destruct (decide (q = p)) as [->|Hne].
  - rewrite setHeap_eq in Hj. left. split; congruence.
  - rewrite setHeap_ne in Hj by done. apply elem_withInst in Hq as [Hq|[_ ?]]; [|done]. by right.
Qed.

Lemma inserted_count : CountInv insts' m' (<[T := u32 (count (iq s) T + 1)]> (count (iq s)))
  (u32 (freeEntries (iq s) - 1)) (iqEntries (iq s)).
Proof.
  pose proof (iv_count _ HI) as HC.
  assert (Hmem : forall q, q <> p -> holdsAt m' q = holdsAt (iqmem s) q).
  { intros q Hne. unfold holdsAt. by rewrite setHeap_ne. }
  assert (Hu : forall t, used (fun _ => insts t) m' 0 = used (fun _ => insts t) (iqmem s) 0).
  { intros t. apply used_mem. intros q Hq. apply Hmem. intros ->. by apply (ni_out _ _ _ HN t). }
  apply (CountInv_upd insts _ (iqmem s)); [done|apply HN|..].
  - rewrite used_at. unfold withInst. rewrite fn_lookup_insert, used_app, used_cons, Hu. rewrite <- used_at.
    unfold holdsAt. rewrite setHeap_eq. unfold holds. rewrite Hdone, Hiss. destruct (isMemRef i'); done.
  - intros t Hne. rewrite used_at. unfold withInst. rewrite fn_lookup_insert_ne by done. by rewrite Hu.
  - intros t Ht. pose proof (ni_thread _ _ _ HN). unfold withInst. rewrite fn_lookup_insert_ne by lia. by apply HC.
  - pose proof (ni_room _ _ _ HN). pose proof (ct_range _ _ _ _ _ HC). lia.
  - intros q j Hq Hj Hm Hd. destruct (inserted_cases q j Hq Hj) as [[-> ->]|(_ & Hj' & Hq')]; [congruence|].
    by apply (ct_done _ _ _ _ _ HC q).
Qed.

Lemma inserted_lists : memOnly (memLists (iq s)) m'.
Proof. eapply memOnly_extends; [apply inserted_ext|apply HI]. Qed.

Lemma inserted_uniq : seqUniq insts' m'.
Proof.
  assert (Hs : forall t q, q ∈ insts t -> seqOf m' q = seqOf (iqmem s) q /\ q <> p).
  { intros t q Hq. split; [by eapply (wk_seqOf _ _ _ _ _ _ _ (iv_wake _ HI) inserted_ext)|].
    intros ->. by apply (ni_out _ _ _ HN t). }
  assert (Hp : seqOf m' p = seqNum i) by (unfold seqOf; rewrite setHeap_eq; apply Hsame).
  intros t t' q q' Hq Hq'. apply elem_withInst in Hq, Hq'. destruct Hq as [Hq|[_ ->]], Hq' as [Hq'|[_ ->]]; [..|done].
  - rewrite (proj1 (Hs _ _ Hq)), (proj1 (Hs _ _ Hq')). by apply (iv_uniq _ HI t t').
  - rewrite (proj1 (Hs _ _ Hq)), Hp. intros E. by destruct (ni_seq _ _ _ HN _ _ Hq).
  - rewrite (proj1 (Hs _ _ Hq')), Hp. intros E. by destruct (ni_seq _ _ _ HN _ _ Hq').
Qed.

Lemma inserted_ready r' ns' : RLInv m' r' ->
  (forall q j c, q <> p -> heap (iqmem s) !! q = Some j -> isMemRef j = false -> isSquashed j = false ->
    occ q (readyInsts r' c) = occ q (readyInsts (ready (iq s)) c)) ->
  (ns' = nonSpecInsts (iq s) \/ ns' = <[seqNum i := p]> (nonSpecInsts (iq s)) /\ tracked i = false /\
    (isMemRef i = true -> speculative i = false)) ->
  (isMemRef i' = false -> isSquashed i' = false ->
    rdOK (p ∈ insts' (threadNumber i')) (fun c => occ p (readyInsts r' c)) (bool_decide (is_Some (ns' !! seqNum i'))) i') ->
  ReadyInv insts' m' r' ns'.
Proof.
  intros HR Hocc Hns Hp. pose proof (iv_ready _ HI) as HR0. pose proof Hsame as (S1 & S2 & _).
  destruct (sameInst_tracked _ _ Hsame) as (T1 & T2 & T3 & _).
  assert (Hl : p ∈ insts' (threadNumber i')) by (apply elem_withInst; right; by rewrite S2).
  apply (ReadyInv_at insts _ _ p i' (ready (iq s)) _ (nonSpecInsts (iq s))); try done.
  - exists i. split; [apply HN|done].
  - intros q j Hne _. rewrite elem_withInst. naive_solver.
  - intros q j Hne Hj _ Hq. destruct Hns as [->|[-> _]]; [done|]. rewrite lookup_insert_ne; [done|].
    intros E. apply (ni_seq _ _ _ HN _ _ Hq). unfold seqOf. by rewrite Hj.
  - intros sn q Hq Hne. destruct Hns as [->|[-> _]]; [done|]. apply lookup_insert_Some in Hq as [[_ E]|[_ Hq]]; [congruence|done].
  - intros sn Hq. assert (Hno : nonSpecInsts (iq s) !! sn <> Some p).
    { intros Hx. destruct (rd_ns _ _ _ _ HR0 sn p Hx) as (j & _ & _ & Hin & _). by apply (ni_out _ _ _ HN (threadNumber j)). }
    destruct Hns as [->|(-> & Ht & Hsp)]; [done|]. apply lookup_insert_Some in Hq as [[<- _]|[_ Hq]]; [|done].
    rewrite S1, T1, T2, T3. done.
Qed.

(** A new instruction was not handed over before, if it is a memory instruction. *)
Lemma inserted_free q : handed (iq s) (iqmem s) q -> isMemRef i = true -> q <> p.
Proof.
  intros Hh Hm ->. destruct (un_pool _ _ _ _ _ (iv_unit _ HI) p Hh) as (j & Hj & Hz). pose proof (ni_heap _ _ _ HN) as Hi.
  assert (j = i) as -> by congruence. destruct (Hz Hm) as [(e & en & He & Hp & _) _]. destruct (ni_unit _ _ _ HN Hm) as (_ & _ & Hf).
  specialize (Hf e en i). unfold entryInst in Hf. cbn in Hf. rewrite Hp in Hf. specialize (Hf (conj He Hi)). lia.
Qed.

(** An instruction that is not a memory instruction was in no ready queue. *)
Lemma inserted_notReady c : isMemRef i = false -> isSquashed i = false -> occ p (readyInsts (ready (iq s)) c) = 0%nat.
Proof.
  intros Hm Hsq. destruct (rd_each _ _ _ _ (iv_ready _ HI) p i (ni_heap _ _ _ HN) Hm Hsq) as [O1 _ _].
  destruct (occ p _) eqn:E; [done|]. destruct (O1 c) as [L _]; [lia|]. by apply (ni_out _ _ _ HN) in L.
Qed.

(** Registers of the other instructions are not those it writes. *)
Lemma inserted_pend sb' q j : marked false (destFlats i) (regScoreboard (iq s)) sb' -> heap (iqmem s) !! q = Some j ->
  q ∈ insts (threadNumber j) -> pend sb' j = pend (regScoreboard (iq s)) j.
Proof.
  intros Hmk Hj Hq. destruct (wk_inst _ _ _ _ (iv_wake _ HI) _ _ Hq) as (j' & Hj' & _ & _ & Hok). simplify_eq.
  eapply pend_marked; [done..|]. intros f Hf. by apply (nr_dests _ _ _ (ni_new _ _ _ HN) q j f).
Qed.

Lemma inserted_misses sb' ns' q j : marked false (destFlats i) (regScoreboard (iq s)) sb' ->
  (ns' = nonSpecInsts (iq s) \/ ns' = <[seqNum i := p]> (nonSpecInsts (iq s))) ->
  heap (iqmem s) !! q = Some j -> q ∈ insts (threadNumber j) -> misses sb' ns' q j = iqMisses s q j.
Proof.
  intros Hmk Hns Hj Hq. apply misses_eq; [apply sameInst_refl|by apply (inserted_pend _ q)|].
  destruct Hns as [->| ->]; [done|]. rewrite lookup_insert_ne; [done|]. intros E. apply (ni_seq _ _ _ HN _ _ Hq). unfold seqOf. by rewrite Hj.
Qed.

Lemma inserted_unit sb' ns' (pool' : InstPtr -> Prop) : isMemRef i = false ->
  (ns' = nonSpecInsts (iq s) \/ ns' = <[seqNum i := p]> (nonSpecInsts (iq s))) ->
  marked false (destFlats i) (regScoreboard (iq s)) sb' ->
  (forall t, pool' t -> handed (iq s) (iqmem s) t \/ t = p) ->
  UnitInv insts' m' (memDepUnit (iq s)) (misses sb' ns') pool'.
Proof.
  intros Hm Hns Hmk Hpool. destruct (sameInst_tracked _ _ Hsame) as (_ & T2 & _).
  apply (UnitInv_frame insts _ (iqmem s) _ _ (iqMisses s) _ (handed (iq s) (iqmem s)));
    [apply HI|apply inserted_ext|..].
  - intros q j Hq Hj Hmj Hd. destruct (inserted_cases q j Hq Hj) as [[-> ->]|(_ & Hj' & Hq')]; [congruence|].
    exists j. split_and!; [done..|]. by apply missKept_eq, inserted_misses.
  - intros t [Ht| ->]%Hpool; [by left|]. right. exists i'. rewrite setHeap_eq. split; [done|congruence].
Qed.

End Inserted.

(** ** Registers *)

(** The state with [p] as the last instruction of its thread. *)
Definition inserted (tid : ThreadID) (p : InstPtr) (g : DependencyGraph) (sb : list bool) (m : InstMem)
    (ns : gmap Z InstPtr) (s : IQS) : IQS :=
  s <| iq := iq s <| iqInsts := withInst (iqInsts (iq s)) tid p |> <| freeEntries := u32 (freeEntries (iq s) - 1) |>
                  <| dependGraph := g |> <| regScoreboard := sb |> <| nonSpecInsts := ns |> |> <| iqmem := m |>.

Lemma newRegs_sub insts m i i' : newRegs insts m i -> sameInst i i' -> destFlats i' = destFlats i ->
  (forall f, f ∈ unreadySrcs i' -> f ∈ unreadySrcs i) -> newRegs insts m i'.
Proof.
  intros [H1 H2 H3] (_ & S2 & _) Hd Hu. split; rewrite ?Hd, ?S2; [done| |].
  - intros f Hf Hx. by apply (H2 f Hf), Hu.
  - intros q j f Hq Hj Hf. by apply (H3 q j f Hq Hj), Hu.
Qed.

Lemma regsOK_sub n i i' : regsOK n i -> regsOnly i i' -> (forall f, f ∈ unreadySrcs i' -> f ∈ unreadySrcs i) -> regsOK n i'.
Proof.
  intros [H1 H2 H3 H4 H5 H6] (_ & E1 & E2 & _ & _ & E5 & _) Hu.
  split; unfold numSrcRegs, numDestRegs, destFlats in *; rewrite ?E1, ?E2; try done; [congruence|].
  intros f [Hf|Hf]; apply H6; auto.
Qed.

Lemma insertRegs_ok s p i : IQInv s -> newInst s p i -> tracked i = true -> canOK i -> 0 <= readyRegs i ->
  readyRegs i + Z.of_nat (length (unreadySrcs i)) = Z.of_nat (numSrcRegs i) ->
  let i0 := setStatus IqEntry true i in
  let s0 := takeEntry (threadNumber i) p s <| iqmem := setHeap p i0 (iqmem s) |> in
  exists i1 g' sb',
    (s1 ← addToDependents p s0; addToProducers p s1) = 
      Ok (inserted (threadNumber i) p g' sb' (setHeap p i1 (iqmem s)) (nonSpecInsts (iq s)) s) /\
    regsOnly i0 i1 /\ marked false (destFlats i) (regScoreboard (iq s)) sb' /\
    WakeInv (withInst (iqInsts (iq s)) (threadNumber i) p) (setHeap p i1 (iqmem s)) g' sb' /\
    readyToIssue i1 = bool_decide (length (pend sb' i1) = 0%nat).
Proof.
  intros HI HN Ht Hcan Hr0 Hr i0 s0. pose proof (iv_wake _ HI) as HW. pose proof (ni_regs _ _ _ HN) as Hok.
  assert (Hp0 : heap (iqmem s0) !! p = Some i0) by apply setHeap_eq.
  set (sb := regScoreboard (iq s)) in *. set (g := dependGraph (iq s)) in *.
  destruct (wk_len _ _ _ _ HW) as [HL1 HL2]. fold sb g in HL1, HL2.
  destruct (addToDependents_ok p s0 i0) as (i1 & g1 & E1 & Honly & Hcan1 & Hu1 & Hrr & G1 & G2 & G3); try done.
  { by apply (regsOK_same _ i). }
  change (regScoreboard (iq s0)) with sb in *. change (dependGraph (iq s0)) with g in *.
  change (pend sb i0) with (pend sb i) in *.
  assert (Hsub : forall f, f ∈ unreadySrcs i1 -> f ∈ unreadySrcs i) by (intros f; rewrite Hu1, pend_sub; tauto).
  pose proof Honly as (Hsame & Es & Ed & _ & _ & _ & Hst).
  assert (Hdf : destFlats i1 = destFlats i) by (unfold destFlats; by rewrite Ed).
  assert (Hok1 : regsOK (length sb) i1) by (eapply (regsOK_sub _ i0); [by apply (regsOK_same _ i)|done|exact Hsub]).
  assert (HN1 : newRegs (iqInsts (iq s)) (iqmem s) i1) by (by eapply newRegs_sub; [apply HN|..]).
  assert (Hnil : forall f, f ∈ destFlats i1 -> chainAt g1 f = []).
  { intros f Hf. assert (Hfr : 0 <= f < Z.of_nat (length sb)) by (apply (rg_range _ _ Hok1); by right).
    rewrite G3 by lia. rewrite (unready_empty _ _ _ _ i f HW (ni_new _ _ _ HN)) by (done || by rewrite <- Hdf).
    assert (occ f (pend sb i) = 0%nat) as ->; [|done]. apply occ_zero. rewrite <- Hu1. by apply (nr_own _ _ _ HN1). }
  destruct (addToProducers_ok p (putInst p i1 g1 s0) i1) as (g2 & sb2 & E2 & (K1 & K2 & K3) & Hmk).
  { apply lookup_insert_eq. }
  { change (length (graph g1) = length sb). congruence. }
  { done. }
  { done. }
  cbn in Hmk, K1, K2, K3. fold sb in Hmk. exists i1, g2, sb2.
  assert (Em : setHeap p i1 (iqmem s0) = setHeap p i1 (iqmem s)) by apply setHeap_twice.
  split.
  { rewrite E1. cbn [mbind res_bind]. rewrite E2. f_equal. unfold putGraph, putInst. fold (setHeap p i1 (iqmem s0)).
    rewrite Em. done. }
  assert (Hpe : pend sb2 i1 = unreadySrcs i1).
  { rewrite (pend_marked _ _ _ _ _ i1 Hmk Hok1) by apply (nr_own _ _ _ HN1). rewrite Hu1. unfold pend.
    rewrite Hu1. unfold pend. rewrite list_filter_filter_r; [done|]. auto. }
  assert (Hiff : readyToIssue i1 = true <-> unreadySrcs i1 = []).
  { rewrite Hcan1. rewrite bool_decide_eq_true. unfold numSrcRegs. rewrite Es, nil_length_0, Hu1.
    change (srcIdx i0) with (srcIdx i). change (numSrcRegs i0) with (length (srcIdx i)) in Hrr. lia. }
  split_and!; [done|by rewrite <- Hdf| |].
  - assert (S2 : threadNumber i1 = threadNumber i) by apply Hsame. rewrite <- S2.
    apply (WakeInv_insert (iqInsts (iq s)) (iqmem s) _ g g2 sb sb2 p i1); try done.
    + by rewrite setHeap_eq.
    + intros q Hq. by apply setHeap_ne.
    + apply HN.
    + assert (S1 : seqNum i1 = seqNum i) by apply Hsame. rewrite S1, S2. apply HN.
    + rewrite <- (ni_squashed _ _ _ HN). by apply Hst.
    + split; congruence.
    + intros f Hf. rewrite K3, G3, Hu1 by done. assert (tracked i1 = tracked i) as -> by apply (sameInst_tracked _ _ Hsame). by rewrite Ht.
    + intros _ f. rewrite Hu1, pend_sub. tauto.
    + intros _. unfold numSrcRegs. rewrite Es, Hu1. done.
    + intros _. split; [|tauto]. intros [H|H]; [tauto|].
      assert (Hx : isIssued i1 = isIssued i) by (by apply (Hst Issued)). rewrite Hx, (ni_issued _ _ _ HN) in H. done.
  - rewrite Hpe. destruct (readyToIssue i1); symmetry; [apply bool_decide_eq_true|apply bool_decide_eq_false];
      rewrite <- nil_length_0; naive_solver.
Qed.

(** ** [insert] *)

Definition addCount (tid : ThreadID) (s : IQS) : IQS :=
  updIQ (fun q => q <| count := <[tid := u32 (count q tid + 1)]> (count q) |>) s.

(** The first steps of the insertions. *)
Lemma takeEntry_ok s p i (k : IQS -> res IQS) : heap (iqmem s) !! p = Some i -> freeEntries (iq s) <> 0 ->
  (assert! negb (freeEntries (iq s) =? 0) ;;
   s1 ← onInst p (setStatus IqEntry true) (takeEntry (threadNumber i) p s); k s1) =
  k (takeEntry (threadNumber i) p s <| iqmem := setHeap p (setStatus IqEntry true i) (iqmem s) |>).
Proof.
  intros Hi Hf. rewrite (proj2 (Z.eqb_neq _ _) Hf). cbn [negb assertR mbind res_bind].
  by rewrite (putInst_mem p _ (takeEntry (threadNumber i) p s) i Hi).
Qed.

Lemma checkCount_inv s : IQInv s -> checkCount s = Ok s.
Proof. intros HI. by eapply checkCount_ok, iv_count. Qed.

Section InsertEnd.
Context (s : IQS) (p : InstPtr) (i i1 : DynInst) (g' : DependencyGraph) (sb' : list bool) (ns : gmap Z InstPtr).
Hypothesis HI : IQInv s.
Hypothesis HN : newInst s p i.
Hypothesis Honly : regsOnly (setStatus IqEntry true i) i1.
Hypothesis Hmk : marked false (destFlats i) (regScoreboard (iq s)) sb'.
Hypothesis HW : WakeInv (withInst (iqInsts (iq s)) (threadNumber i) p) (setHeap p i1 (iqmem s)) g' sb'.

Abbreviation T := (threadNumber i).
Abbreviation insts' := (withInst (iqInsts (iq s)) (threadNumber i) p).
Abbreviation m' := (setHeap p i1 (iqmem s)).
Abbreviation s2 := (inserted (threadNumber i) p g' sb' (setHeap p i1 (iqmem s)) ns s).

Lemma ins_same : sameInst i i1.
Proof. destruct Honly as (Hs & _). eapply sameInst_trans; [|exact Hs]. apply setStatus_sameInst. Qed.

Lemma ins_flags : isIssued i1 = false /\ memOpDone i1 = false /\ isSquashed i1 = isSquashed i /\ isMemRef i1 = isMemRef i.
Proof.
  pose proof Honly as (_ & _ & _ & Ef & _ & _ & Hst). split_and!.
  - rewrite <- (ni_issued _ _ _ HN). by apply (Hst Issued).
  - unfold memOpDone. rewrite Ef. apply HN.
  - by apply (Hst Squashed).
  - apply (sameInst_tracked _ _ ins_same).
Qed.

Lemma ins_notMem : ns = nonSpecInsts (iq s) -> isMemRef i = false -> readyToIssue i1 = bool_decide (length (pend sb' i1) = 0%nat) -> tracked i = true ->
  exists s3, addIfReady p s2 = Ok s3 /\ IQInv (addCount T s3).
Proof.
  intros En Hm Hrt Htr. destruct ins_flags as (F1 & F2 & F3 & F4). pose proof ins_same as Hs.
  assert (Hp : heap (iqmem s2) !! p = Some i1) by apply setHeap_eq.
  assert (HR : RLInv m' (ready (iq s))).
  { eapply RLInv_extends; [by eapply (inserted_ext s p i i1)|apply HI]. }
  unfold addIfReady, getInst. rewrite Hp. cbn [deref mbind res_bind]. rewrite F4, Hm.
  assert (Hns : nonSpecInsts (iq s) !! seqNum i1 = None).
  { destruct (nonSpecInsts (iq s) !! seqNum i1) as [q|] eqn:E; [|done].
    destruct (rd_ns _ _ _ _ (iv_ready _ HI) _ _ E) as (j & Hj & Es & Hq & _). destruct (ni_seq _ _ _ HN _ _ Hq).
    unfold seqOf. rewrite Hj, Es. apply Hs. }
  assert (Hl : p ∈ insts' (threadNumber i1)) by (apply elem_withInst; right; split; [apply Hs|done]).
  destruct (readyToIssue i1) eqn:Er.
  - destruct (addReadyMemInst_ok p i1 s2 HR Hp) as (r' & E & HP). rewrite E. eexists. split; [done|].
    split; cbn; [exact HW|exact (inserted_count s p i i1 HI HN F1 F2)| | |apply HI|exact (inserted_uniq s p i i1 HI HN Hs)|exact (inserted_lists s p i i1 HI HN Hs)].
    + apply (inserted_ready s p i i1 HI HN Hs F1 F2); [apply HP| |by left|].
      * intros q j c Hne _ _ _. by apply (pushed_other _ _ _ _ _ _ HP).
      * intros _ Hsq. apply (rdOK_pushed _ _ _ _ _ _ _ HP Hp); try done.
        -- intros c. apply (inserted_notReady s p i HI HN c Hm). congruence.
        -- by rewrite En, Hns.
    + apply (inserted_unit s p i i1 HI HN Hs); [done|by left|done|]. intros t [[c Hc]|[Ht|[Ht|(j & Hj & Hq & Hi)]]].
      * apply (pushed_in _ _ _ _ _ _ HP) in Hc as [->%list_elem_of_singleton|Hc]; [by right|]. left. left. by exists c.
      * left. by right; left.
      * left. by right; right; left.
      * destruct (inserted_cases s p i i1 t j Hq Hj) as [[-> _]|(Hne & Hj' & Hq')]; [by right|]. left. do 3 right. by exists j.
  - eexists. split; [done|].
    split; cbn; [exact HW|exact (inserted_count s p i i1 HI HN F1 F2)| | |apply HI|exact (inserted_uniq s p i i1 HI HN Hs)|exact (inserted_lists s p i i1 HI HN Hs)].
    + apply (inserted_ready s p i i1 HI HN Hs F1 F2); [done|done|by left|]. intros _ Hsq.
      assert (Hno : forall c, occ p (readyInsts (ready (iq s)) c) = 0%nat).
      { intros c. apply (inserted_notReady s p i HI HN c Hm). congruence. }
      split.
      * intros c. rewrite Hno. lia.
      * intros c. rewrite Hno. lia.
      * assert (tracked i1 = tracked i) as -> by apply (sameInst_tracked _ _ Hs). rewrite Htr, Er. done.
    + apply (inserted_unit s p i i1 HI HN Hs); [done|by left|done|]. intros t [Ht|[Ht|[Ht|(j & Hj & Hq & Hi)]]].
      * left. by left.
      * left. by right; left.
      * left. by right; right; left.
      * destruct (inserted_cases s p i i1 t j Hq Hj) as [[-> _]|(Hne & Hj' & Hq')]; [by right|]. left. do 3 right. by exists j.
Qed.


Lemma ins_fresh : isMemRef i = true -> fresh T (mkMDS (memDepUnit (iq s) T) m' []) i1.
Proof.
  intros Hm. destruct (ni_unit _ _ _ HN Hm) as (_ & Hpos & Hlt). pose proof ins_same as (S1 & S2 & _).
  split_and!; [done|by rewrite S1|]. intros e en j [He Hj]. cbn [mdmem] in Hj. rewrite S1.
  destruct (decide (e_inst en = p)) as [E|Hne].
  - exfalso. pose proof (Hlt e en i) as Hx. unfold entryInst in Hx. cbn in Hx. rewrite E in Hx.
    specialize (Hx (conj He (ni_heap _ _ _ HN))). lia.
  - rewrite setHeap_ne in Hj by done. apply (Hlt e en j). done.
Qed.

(** What is handed over once the unit has the instruction. *)
Lemma ins_handed u' r' i2 (out : list InstPtr) t : instsToReplay u' = instsToReplay (memDepUnit (iq s) T) ->
  (forall c x, x ∈ readyInsts r' c -> x ∈ out \/ x ∈ readyInsts (ready (iq s)) c) -> isIssued i2 = false ->
  handedBy r' (memLists (iq s)) (<[T := u']> (memDepUnit (iq s))) insts' (setHeap p i2 (iqmem s)) t ->
  t ∈ out \/ handed (iq s) (iqmem s) t.
Proof.
  intros Eu Hr Hi [[c Hc]|[Ht|[[t' Ht]|(j & Hj & Hq & Hij)]]].
  - destruct (Hr c t Hc) as [?|?]; [by left|]. right. left. by exists c.
  - right. by right; left.
  - right. right; right; left. cbn in Ht. destruct (decide (t' = T)) as [->|Hne].
    + rewrite fn_lookup_insert, Eu in Ht. by exists T.
    + rewrite fn_lookup_insert_ne in Ht by done. by exists t'.
  - right. do 3 right. destruct (inserted_cases s p i i2 t j Hq Hj) as [[-> ->]|(Hne & Hj' & Hq')]; [congruence|]. by exists j.
Qed.

(** The unit of the thread has the new instruction. *)
Lemma ins_unit u' r' i2 (out : list InstPtr) w : isMemRef i = true -> sameInst i i2 -> isIssued i2 = false ->
  MDInv predOK T (mkMDS u' (setHeap p i2 (iqmem s)) []) ->
  (forall q, q ∈ out \/ free (memDepUnit (iq s) T) q -> free u' q) ->
  absMD (mkMDS u' (setHeap p i2 (iqmem s)) []) =
    mkSpec (<[seqNum i := w]> (waiting (absMD (unitOf (iqmem s) (memDepUnit (iq s)) T)))) (instsToReplay (memDepUnit (iq s) T)) ->
  (ns = nonSpecInsts (iq s) \/ ns = <[seqNum i := p]> (nonSpecInsts (iq s))) ->
  w_inst w = p -> (tracked i = true -> w_regs w = bool_decide (misses sb' ns p i2 = 0%nat)) ->
  (w_regs w = true -> misses sb' ns p i2 = 0%nat) ->
  (forall q, q ∈ out -> q = p /\ misses sb' ns p i2 = 0%nat) ->
  (forall c x, x ∈ readyInsts r' c -> x ∈ out \/ x ∈ readyInsts (ready (iq s)) c) ->
  UnitInv insts' (setHeap p i2 (iqmem s)) (<[T := u']> (memDepUnit (iq s))) (misses sb' ns)
    (handedBy r' (memLists (iq s)) (<[T := u']> (memDepUnit (iq s))) insts' (setHeap p i2 (iqmem s))).
Proof.
  intros Hm Hs2 G1 HM3 Hfree ES Hns Ewi Ewr Ewr' Hout Hready. pose proof (iv_unit _ HI) as HU.
  destruct (sameInst_tracked _ _ Hs2) as (T1 & T2 & _). pose proof Hs2 as (S1 & S2 & _).
  assert (Erep : instsToReplay u' = instsToReplay (memDepUnit (iq s) T)) by (injection ES as _ ES; done).
  apply (UnitInv_op (iqInsts (iq s)) _ (iqmem s) _ _ T u' (iqMisses s) _
             (handed (iq s) (iqmem s)) _ out); [done|by eapply setHeap_extends; [apply HN|]|done|done|..].
  - intros q j Hq Hj Hmj Hd Ht. destruct (inserted_cases s p i i2 q j Hq Hj) as [[-> ->]|(Hne & Hj' & Hq')]; [done|].
    exists j. split_and!; [done..|]. by apply (inserted_misses s p i HI HN).
  - intros q j Hq Hj Hmj Hd Ht. rewrite ES. cbn [waiting].
    destruct (inserted_cases s p i i2 q j Hq Hj) as [[-> ->]|(Hne & Hj' & Hq')].
    + rewrite S1, lookup_insert_eq, T1. exists w. split_and!; [done..|].
      intros [Ho|Ho]%(ins_handed u' r' i2 out p Erep Hready G1); [by apply (Hout p)|].
      by apply (inserted_free s p i HI HN p) in Ho.
    + destruct (un_look s q j HI Hj' Hq' Hmj Hd) as (w' & Hw & Ew' & Er & Er'). rewrite Ht in Hw. exists w'.
      rewrite lookup_insert_ne.
      2: { intros Ex. apply (ni_seq _ _ _ HN _ _ Hq'). unfold seqOf. by rewrite Hj'. }
      rewrite (inserted_misses s p i HI HN _ _ q j Hmk Hns) by done. split_and!; [done..|].
      intros [Ho|Ho]%(ins_handed u' r' i2 out q Erep Hready G1); [by apply Hout in Ho as [? _]|].
      destruct (un_pool _ _ _ _ _ HU q Ho) as (j' & Hj2 & Hz). simplify_eq. by apply Hz.
  - intros q j Hq Hj. rewrite Erep in Hq. destruct (decide (q = p)) as [->|Hne].
    + rewrite setHeap_eq in Hj. simplify_eq. congruence.
    + rewrite setHeap_ne in Hj by done. by eapply (un_replay _ _ _ _ _ HU).
  - intros t. by apply ins_handed.
Qed.

Lemma ins_mem : ns = nonSpecInsts (iq s) -> isMemRef i = true -> speculative i = true ->
  readyToIssue i1 = bool_decide (length (pend sb' i1) = 0%nat) ->
  exists s3, onUnit T (MemDep.insert p) s2 = Ok s3 /\ IQInv (addCount T s3).
Proof.
  intros En Hm Hsp Hrt. destruct ins_flags as (F1 & F2 & F3 & F4). pose proof ins_same as Hs. pose proof Hs as (S1 & S2 & _).
  pose proof (iv_unit _ HI) as HU. assert (Hext : extends (iqmem s) m') by (by eapply (inserted_ext s p i i1)).
  assert (Hp : heap (iqmem s2) !! p = Some i1) by apply setHeap_eq.
  destruct (un_env _ _ _ _ _ m' T HU Hext) as [HM Ea].
  destruct (onUnit_ok T (OInsert p) (MemDep.insert p) s2) as (u' & m3 & out & r' & E & HM3 & Hms & Hfree & HS & HP); [done| |done| |].
  { eapply RLInv_extends; [exact Hext|apply HI]. }
  { exists i1. split_and!; [done|by apply ins_fresh|]. rewrite <- Hsp. apply (sameInst_tracked _ _ Hs). }
  destruct HS as (j & Hj & ES & Eout). change (heap m' !! p = Some j) in Hj. rewrite setHeap_eq in Hj. injection Hj as <-.
  change (mkMDS (memDepUnit (iq s2) T) (iqmem s2) []) with (unitOf m' (memDepUnit (iq s)) T) in ES, Eout.
  rewrite Ea in ES.
  assert (Hi2 : exists i2, m3 = setHeap p i2 (iqmem s) /\ (i2 = i1 \/ i2 = setStatus CanIssue false i1)).
  { destruct Hms as [->|(p' & j & [= <-] & Hj & ->)]; [by exists i1; auto|]. cbn in Hj. rewrite lookup_insert_eq in Hj.
    injection Hj as <-. exists (setStatus CanIssue false i1). split; [|by right]. apply setHeap_twice. }
  destruct Hi2 as (i2 & -> & Hi2).
  assert (Hc : sameRegs i1 i2 /\ isIssued i2 = false /\ memOpDone i2 = false /\ (readyToIssue i2 = true -> readyToIssue i1 = true))
    by (by destruct Hi2 as [->| ->]).
  destruct Hc as (Hreg & G1 & G2 & G3). pose proof Hreg as [Hs12 _].
  destruct (sameRegs_flats _ _ Hreg) as (_ & _ & _ & _ & Hpe).
  assert (Hs2 : sameInst i i2) by (by eapply sameInst_trans).
  assert (HW2 : WakeInv insts' (setHeap p i2 (iqmem s)) g' sb').
  { rewrite <- (setHeap_twice p i1 i2). eapply WakeInv_setHeap; [exact HW|apply setHeap_eq|done|].
    intros _. rewrite Hpe. destruct (sameInst_tracked _ _ Hs12) as (_ & -> & _). rewrite F4, Hm. split; [|done].
    intros [H|H]; [|congruence]. apply G3 in H. rewrite Hrt in H. apply bool_decide_eq_true in H. by apply nil_length_0. }
  exists (putUnit T u' r' (setHeap p i2 (iqmem s)) s2). split; [done|].
  assert (Hout : forall q, q ∈ out -> q = p /\ readyToIssue i1 = true).
  { intros q. rewrite Eout. destruct (readyToIssue i1); cbn [andb]; [|by intros ?%elem_of_nil].
    match goal with |- _ ∈ (if ?b then _ else _) -> _ => destruct b end;
      [by intros ->%list_elem_of_singleton|by intros ?%elem_of_nil]. }
  assert (Hready : forall c x, x ∈ readyInsts r' c -> x ∈ out \/ x ∈ readyInsts (ready (iq s)) c).
  { intros c x. apply (pushed_in _ _ _ _ _ _ HP). }
  split; cbn; [exact HW2|exact (inserted_count s p i i2 HI HN G1 G2)| | |apply HI|exact (inserted_uniq s p i i2 HI HN Hs2)|exact (inserted_lists s p i i2 HI HN Hs2)].
  - apply (inserted_ready s p i i2 HI HN Hs2 G1 G2); [apply HP| |by left|].
    + intros q j c Hne _ _ _. rewrite (pushed_occ _ _ _ _ _ _ HP). assert (occ q out = 0%nat) as ->; [|by destruct (decide (classIs _ _ _))].
      apply occ_zero. intros [-> _]%Hout. done.
    + destruct (sameInst_tracked _ _ Hs2) as (_ & -> & _). congruence.
  - assert (Hz : readyToIssue i1 = true -> misses sb' ns p i2 = 0%nat).
    { intros Hq. unfold misses. rewrite Hpe. rewrite Hrt in Hq. apply bool_decide_eq_true in Hq. rewrite Hq.
      destruct (tracked i2); [done|]. rewrite decide_False; [done|]. rewrite En. intros Hx.
      destruct (rd_ns _ _ _ _ (iv_ready _ HI) _ _ Hx) as (j & _ & _ & Hin & _). by apply (ni_out _ _ _ HN) in Hin. }
    rewrite S1 in ES. apply (ins_unit u' r' i2 out _ Hm Hs2 G1 HM3 Hfree ES); [by left|done| |done| |done].
    + intros Ht. cbn [w_regs]. rewrite Hrt. unfold misses. destruct (sameInst_tracked _ _ Hs2) as (-> & _). by rewrite Ht, Hpe.
    + intros q [-> Hq]%Hout. split; [done|]. by apply Hz.
Qed.

(** [insertNonSpec] for a memory instruction. *)
Lemma ins_memNS : ns = <[seqNum i := p]> (nonSpecInsts (iq s)) -> isMemRef i = true -> speculative i = false -> tracked i = false ->
  exists s3, onUnit T (MemDep.insertNonSpec p) s2 = Ok s3 /\ IQInv (addCount T s3).
Proof.
  intros En Hm Hsp Htr. destruct ins_flags as (F1 & F2 & F3 & F4). pose proof ins_same as Hs. pose proof Hs as (S1 & S2 & _).
  pose proof (iv_unit _ HI) as HU. assert (Hext : extends (iqmem s) m') by (by eapply (inserted_ext s p i i1)).
  assert (Hp : heap (iqmem s2) !! p = Some i1) by apply setHeap_eq.
  destruct (un_env _ _ _ _ _ m' T HU Hext) as [HM Ea]. destruct (sameInst_tracked _ _ Hs) as (_ & T2 & T3 & _).
  destruct (onUnit_ok T (OInsertNonSpec p) (MemDep.insertNonSpec p) s2) as (u' & m3 & out & r' & E & HM3 & Hms & Hfree & HS & HP); [done| |done| |].
  { eapply RLInv_extends; [exact Hext|apply HI]. }
  { exists i1. split_and!; [done|by apply ins_fresh|congruence|congruence]. }
  destruct Hms as [->|(p' & j & [=] & _)]. destruct HS as (j & Hj & ES & ->). change (heap m' !! p = Some j) in Hj.
  rewrite setHeap_eq in Hj. injection Hj as <-.
  change (mkMDS (memDepUnit (iq s2) T) (iqmem s2) []) with (unitOf m' (memDepUnit (iq s)) T) in ES.
  rewrite Ea, S1 in ES. exists (putUnit T u' r' m' s2). split; [done|].
  assert (Hready : forall c x, x ∈ readyInsts r' c -> x ∈ [] \/ x ∈ readyInsts (ready (iq s)) c).
  { intros c x. apply (pushed_in _ _ _ _ _ _ HP). }
  split; cbn; [exact HW|exact (inserted_count s p i i1 HI HN F1 F2)| | |apply HI|exact (inserted_uniq s p i i1 HI HN Hs)|exact (inserted_lists s p i i1 HI HN Hs)].
  - apply (inserted_ready s p i i1 HI HN Hs F1 F2); [apply HP| |by right|congruence].
    intros q j c Hne _ _ _. rewrite (pushed_occ _ _ _ _ _ _ HP). by destruct (decide (classIs _ _ _)).
  - apply (ins_unit u' r' i1 [] _ Hm Hs F1 HM3 Hfree ES); [by right|done|congruence|done|by intros q ?%elem_of_nil|done].
Qed.

Lemma ins_notMemNS : ns = <[seqNum i := p]> (nonSpecInsts (iq s)) -> isMemRef i = false -> tracked i = false ->
  IQInv (addCount T s2).
Proof.
  intros En Hm Htr. destruct ins_flags as (F1 & F2 & F3 & F4). pose proof ins_same as Hs.
  assert (HR : RLInv m' (ready (iq s))).
  { eapply RLInv_extends; [by eapply (inserted_ext s p i i1)|apply HI]. }
  split; cbn; [exact HW|exact (inserted_count s p i i1 HI HN F1 F2)| | |apply HI|exact (inserted_uniq s p i i1 HI HN Hs)|exact (inserted_lists s p i i1 HI HN Hs)].
  - apply (inserted_ready s p i i1 HI HN Hs F1 F2); [done|done|right; split_and!; [done..|congruence]|]. intros _ Hsq.
    assert (Hno : forall c, occ p (readyInsts (ready (iq s)) c) = 0%nat).
    { intros c. apply (inserted_notReady s p i HI HN c Hm). congruence. }
    split.
    + intros c. rewrite Hno. lia.
    + intros c. rewrite Hno. lia.
    + assert (tracked i1 = tracked i) as -> by apply (sameInst_tracked _ _ Hs). rewrite Htr.
      assert (seqNum i1 = seqNum i) as -> by apply Hs. rewrite En, lookup_insert_eq. done.
  - apply (inserted_unit s p i i1 HI HN Hs); [done|by right|done|]. intros t [Ht|[Ht|[Ht|(j & Hj & Hq & Hi)]]].
    + left. by left.
    + left. by right; left.
    + left. by right; right; left.
    + destruct (inserted_cases s p i i1 t j Hq Hj) as [[-> _]|(Hne & Hj' & Hq')]; [by right|]. left. do 3 right. by exists j.
Qed.

End InsertEnd.

(** What [insert] needs of an instruction: it is taken out of the graph again by a
    squash, and it counts the registers that it does not wait for. *)
Record insertable (i : DynInst) : Prop := {
  ib_tracked : tracked i = true;
  ib_mem : isMemRef i = true -> speculative i = true;
  ib_can : canOK i;
  ib_ready : 0 <= readyRegs i /\ readyRegs i + Z.of_nat (length (unreadySrcs i)) = Z.of_nat (numSrcRegs i)
}.

Lemma insert_ok p i s : IQInv s -> newInst s p i -> insertable i ->
  exists s', InstQueue.insert p s = Ok s' /\ IQInv s'.
Proof.
  intros HI HN [Ht Hsp Hcan [Hr0 Hr]]. unfold InstQueue.insert, getInst. rewrite (ni_heap _ _ _ HN). cbn [deref mbind res_bind].
  match goal with |- context [assertR _ ≫= fun _ => onInst p _ _ ≫= ?k] => rewrite (takeEntry_ok s p i k (ni_heap _ _ _ HN) (ni_room _ _ _ HN)) end.
  destruct (insertRegs_ok s p i HI HN Ht Hcan Hr0 Hr) as (i1 & g' & sb' & E & Honly & Hmk & HW & Hrt).
  match type of E with (?x ≫= _) = _ => destruct x as [s1| |]; try done end. cbn [mbind res_bind] in E |- *.
  rewrite E. cbn [mbind res_bind].
  assert (Hx : exists s3, (if isMemRef i then onUnit (threadNumber i) (MemDep.insert p)
             (inserted (threadNumber i) p g' sb' (setHeap p i1 (iqmem s)) (nonSpecInsts (iq s)) s)
           else addIfReady p (inserted (threadNumber i) p g' sb' (setHeap p i1 (iqmem s)) (nonSpecInsts (iq s)) s)) = Ok s3 /\
         IQInv (addCount (threadNumber i) s3)).
  { destruct (isMemRef i) eqn:Hm; [apply (ins_mem s p i i1 g' sb' _ HI HN Honly Hmk HW eq_refl Hm (Hsp eq_refl) Hrt)|].
    apply (ins_notMem s p i i1 g' sb' _ HI HN Honly Hmk HW eq_refl Hm Hrt Ht). }
  destruct Hx as (s3 & -> & HI3). cbn [mbind res_bind]. eexists. split; [exact (checkCount_inv _ HI3)|done].
Qed.

(** ** [insertNonSpec] and [insertBarrier] *)

Lemma insertNSRegs_ok s p i ns : IQInv s -> newInst s p i -> tracked i = false ->
  let i0 := setStatus IqEntry true i in
  let s0 := takeEntry (threadNumber i) p (updIQ (fun q => q <| nonSpecInsts := ns |>) s)
              <| iqmem := setHeap p i0 (iqmem s) |> in
  exists g' sb',
    addToProducers p s0 = Ok (inserted (threadNumber i) p g' sb' (setHeap p i0 (iqmem s)) ns s) /\
    marked false (destFlats i) (regScoreboard (iq s)) sb' /\
    WakeInv (withInst (iqInsts (iq s)) (threadNumber i) p) (setHeap p i0 (iqmem s)) g' sb'.
Proof.
  intros HI HN Ht i0 s0. pose proof (iv_wake _ HI) as HW. pose proof (ni_regs _ _ _ HN) as Hok.
  destruct (wk_len _ _ _ _ HW) as [HL1 HL2].
  assert (Hok0 : regsOK (length (regScoreboard (iq s))) i0) by (by apply (regsOK_same _ i)).
  destruct (addToProducers_ok p s0 i0) as (g' & sb' & E & (K1 & K2 & K3) & Hmk); [apply setHeap_eq|done|done|..].
  { intros f Hf. eapply (unready_empty _ _ _ _ i f HW (ni_new _ _ _ HN)); [done|]. apply (rg_range _ _ Hok0). by right. }
  exists g', sb'. split; [rewrite E; done|]. split; [done|].
  change (threadNumber i) with (threadNumber i0).
  assert (Ht0 : tracked i0 <> true) by (change (tracked i0) with (tracked i); congruence).
  apply (WakeInv_insert (iqInsts (iq s)) (iqmem s) _ (dependGraph (iq s)) g' (regScoreboard (iq s)) sb' p i0); try done.
  - apply setHeap_eq.
  - intros q Hq. by apply setHeap_ne.
  - apply HN.
  - apply HN.
  - apply HN.
  - eapply newRegs_sub; [apply HN|done..].
  - intros f Hf. rewrite K3 by done. by destruct (tracked i0).
Qed.

Lemma insertNonSpec_inv p i s : IQInv s -> newInst s p i -> tracked i = false ->
  (isMemRef i = true -> speculative i = false) -> exists s', InstQueue.insertNonSpec p s = Ok s' /\ IQInv s'.
Proof.
  intros HI HN Ht Hsp. unfold InstQueue.insertNonSpec, getInst. rewrite (ni_heap _ _ _ HN). cbn [deref mbind res_bind].
  set (ns := <[seqNum i := p]> (nonSpecInsts (iq s))).
  match goal with |- exists s', ?e = Ok s' /\ IQInv s' => set (run := e) end.
  set (sn := updIQ (fun q => q <| nonSpecInsts := ns |>) s).
  assert (Er : run = (s1 ← addToProducers p (takeEntry (threadNumber i) p sn <| iqmem := setHeap p (setStatus IqEntry true i) (iqmem s) |>);
    s2 ← (if isMemRef i then onUnit (threadNumber i) (MemDep.insertNonSpec p) s1 else Ok s1);
    checkCount (addCount (threadNumber i) s2))) by exact (takeEntry_ok sn p i _ (ni_heap _ _ _ HN) (ni_room _ _ _ HN)).
  rewrite Er. clear run Er.
  destruct (insertNSRegs_ok s p i ns HI HN Ht) as (g' & sb' & E & Hmk & HW). fold sn in E. rewrite E. cbn [mbind res_bind].
  assert (Honly : regsOnly (setStatus IqEntry true i) (setStatus IqEntry true i)) by apply regsOnly_refl.
  assert (Hx : exists s3, (if isMemRef i then onUnit (threadNumber i) (MemDep.insertNonSpec p)
             (inserted (threadNumber i) p g' sb' (setHeap p (setStatus IqEntry true i) (iqmem s)) ns s)
           else Ok (inserted (threadNumber i) p g' sb' (setHeap p (setStatus IqEntry true i) (iqmem s)) ns s)) = Ok s3 /\
         IQInv (addCount (threadNumber i) s3)).
  { destruct (isMemRef i) eqn:Hm.
    - exact (ins_memNS s p i _ g' sb' ns HI HN Honly Hmk HW eq_refl Hm (Hsp eq_refl) Ht).
    - eexists. split; [done|]. exact (ins_notMemNS s p i _ g' sb' ns HI HN Honly Hmk HW eq_refl Hm Ht). }
  destruct Hx as (s3 & -> & HI3). cbn [mbind res_bind]. eexists. split; [exact (checkCount_inv _ HI3)|done].
Qed.

(** The memory dependence unit gets the barrier first. *)
Lemma barrierUnit_ok p i s : IQInv s -> newInst s p i -> isMemRef i = false ->
  fresh (threadNumber i) (mkMDS (memDepUnit (iq s) (threadNumber i)) (iqmem s) []) i ->
  exists u' r', let s' := putUnit (threadNumber i) u' r' (iqmem s) s in
    onUnit (threadNumber i) (MemDep.insertBarrier p) s = Ok s' /\ IQInv s'.
Proof.
  intros HI HN Hm Hfr. pose proof HI as [HW HC HR HU HE HQ HB]. set (T := threadNumber i) in *.
  destruct (onUnit_ok T (OInsertBarrier p) (MemDep.insertBarrier p) s) as (u' & m' & out & r' & E & HM & Hms & Hfree & HS & HP);
    [done|apply HR|apply HU|..].
  { exists i. split_and!; [apply HN|done|done]. }
  destruct Hms as [->|(p' & j & [=] & _)]. destruct HS as (j & Hj & ES & ->). rewrite (ni_heap _ _ _ HN) in Hj. injection Hj as <-.
  assert (Erep : instsToReplay u' = instsToReplay (memDepUnit (iq s) T)) by (injection ES as _ ES; done).
  assert (Hh : forall t, handedBy r' (memLists (iq s)) (<[T := u']> (memDepUnit (iq s))) (iqInsts (iq s)) (iqmem s) t ->
            handed (iq s) (iqmem s) t).
  { intros t [[c Hc]|[Ht|[[t' Ht]|Ht]]]; [|by right; left| |by do 3 right].
    - apply (pushed_in _ _ _ _ _ _ HP) in Hc as [Hc%elem_of_nil|Hc]; [done|]. left. by exists c.
    - right; right; left. destruct (decide (t' = T)) as [->|Hne].
      + rewrite fn_lookup_insert, Erep in Ht. by exists T.
      + rewrite fn_lookup_insert_ne in Ht by done. by exists t'. }
  exists u', r'. split; [done|]. split; cbn; [done..| | |done|done|done].
  - apply (ReadyInv_pushMem _ _ (ready (iq s)) _ _ []); [done..|]. by intros q j ?%elem_of_nil.
  - apply (UnitInv_op (iqInsts (iq s)) _ (iqmem s) _ _ T u' (iqMisses s) _
             (handed (iq s) (iqmem s)) _ []); [done|apply extends_refl|done|done|..].
    + intros q j Hq Hj _ Hd _. by exists j.
    + intros q j Hq Hj Hmj Hd Ht. destruct (un_look s q j HI Hj Hq Hmj Hd) as (w & Hw & Ew & Er & Er'). rewrite Ht in Hw.
      exists w. rewrite ES. cbn [waiting]. rewrite lookup_insert_ne.
      2: { intros Ex. apply (ni_seq _ _ _ HN _ _ Hq). unfold seqOf. by rewrite Hj. }
      split_and!; [done..|]. intros Ho%Hh. destruct (un_pool _ _ _ _ _ HU q Ho) as (j' & Hj2 & Hz). simplify_eq. by apply Hz.
    + intros q j Hq Hj. rewrite Erep in Hq. by eapply (un_replay _ _ _ _ _ HU).
    + intros t Ht. right. by apply Hh.
Qed.

Lemma insertBarrier_inv p i s : IQInv s -> newInst s p i -> tracked i = false -> isMemRef i = false ->
  fresh (threadNumber i) (mkMDS (memDepUnit (iq s) (threadNumber i)) (iqmem s) []) i ->
  exists s', InstQueue.insertBarrier p s = Ok s' /\ IQInv s'.
Proof.
  intros HI HN Ht Hm Hfr. unfold InstQueue.insertBarrier, getInst. rewrite (ni_heap _ _ _ HN). cbn [deref mbind res_bind].
  destruct (barrierUnit_ok p i s HI HN Hm Hfr) as (u' & r' & E & HI1). rewrite E. cbn [mbind res_bind].
  apply (insertNonSpec_inv p i); [done| |done|congruence]. destruct HN. split; cbn; try done. congruence.
Qed.

(** ** [recordProducer] *)

Lemma recordProducer_ok p i s : IQInv s -> heap (iqmem s) !! p = Some i -> regsOK (length (regScoreboard (iq s))) i ->
  newRegs (iqInsts (iq s)) (iqmem s) i -> exists s', recordProducer p s = Ok s' /\ IQInv s'.
Proof.
  intros HI Hi Hok HN. pose proof HI as [HW HC HR HU HE HQ HB]. destruct (wk_len _ _ _ _ HW) as [HL1 HL2].
  destruct (addToProducers_ok p s i Hi HL1 Hok) as (g' & sb' & E & HK & Hmk).
  { intros f Hf. eapply (unready_empty _ _ _ _ i f HW HN Hf). apply (rg_range _ _ Hok). by right. }
  unfold recordProducer. rewrite E. eexists. split; [done|]. split; cbn; [|done|done| |done|done|done].
  - by eapply WakeInv_record.
  - apply (UnitInv_frame (iqInsts (iq s)) _ (iqmem s) _ _ (iqMisses s) _ (handed (iq s) (iqmem s)));
      [done|apply extends_refl| |by left].
    intros q j Hq Hj _ Hd. exists j. split_and!; [done..|].
    destruct (wk_inst _ _ _ _ HW _ _ Hq) as (j' & Hj' & _ & _ & Hokj). simplify_eq.
    apply missKept_eq, misses_eq; [apply sameInst_refl| |done].
    rewrite (pend_marked _ _ _ _ _ j Hmk Hokj); [done|]. intros f Hf. by apply (nr_dests _ _ _ HN q j f).
Qed.
