(* ===== verification/InstQueueWakeup.v ===== *)
(** * Wake-up in the instruction queue *)

From stdpp Require Import base numbers list gmap functions sorting.
From S2P Require Import Prelude Regs DynInst ROB TimeBuffer StoreSet FUPool MemDep MemDepSpec MemDepProps InstQueueUnit DepGraph ReadyList InstQueue InstQueueSpec InstQueueWake InstQueueInv InstQueueOps InstQueueInsert.

#[local] Open Scope Z_scope.

(** ** While the dependents of a register are woken *)

(** What an instruction misses while register [f], which counts as produced in
    [sb], still has dependents. *)
Definition missMid (sb : list bool) (ns : gmap Z InstPtr) (g : DependencyGraph) (f : Z) (p : InstPtr) (i : DynInst) : nat :=
  (misses sb ns p i + occ p (chainAt g f))%nat.

Record MidInv (f : Z) (sb : list bool) (s : IQS) : Prop := {
  md_wake : WakeMid (iqInsts (iq s)) (iqmem s) f (dependGraph (iq s)) sb;
  md_count : CountInv (iqInsts (iq s)) (iqmem s) (count (iq s)) (freeEntries (iq s)) (iqEntries (iq s));
  md_ready : ReadyInv (iqInsts (iq s)) (iqmem s) (ready (iq s)) (nonSpecInsts (iq s));
  md_unit : UnitInv (iqInsts (iq s)) (iqmem s) (memDepUnit (iq s)) (missMid sb (nonSpecInsts (iq s)) (dependGraph (iq s)) f) (handed (iq s) (iqmem s));
  md_exec : ExecInv (fuPool (iq s)) (events s) (issueToExecute (iq s));
  md_uniq : seqUniq (iqInsts (iq s)) (iqmem s);
  md_lists : memOnly (memLists (iq s)) (iqmem s)
}.

Lemma MidInv_start f sb' s : IQInv s -> 0 <= f < Z.of_nat (length (regScoreboard (iq s))) ->
  marked true [f] (regScoreboard (iq s)) sb' -> MidInv f sb' s.
Proof.
  intros [HW HC HR HU HE HQ HB] Hf Hmk. split; try done; [by eapply WakeMid_start|].
  eapply UnitInv_frame; [exact HU|apply extends_refl| |by left].
  intros p i Hp Hi _ Hd. exists i. split_and!; [done..|]. unfold missMid. apply missKept_eq.
  destruct (wk_inst _ _ _ _ HW _ _ Hp) as (j & Hj & _ & _ & Hok). simplify_eq. destruct (tracked i) eqn:Ht.
  2: { rewrite (proj2 (occ_zero _ _)); [|eapply wk_absent; [done..|congruence|lia]]. unfold misses. rewrite Ht. lia. }
  rewrite !misses_tracked by done.
  destruct (lookup_lt_is_Some_2 (regScoreboard (iq s)) (Z.to_nat f)) as [v Hv]; [lia|]. destruct v.
  - rewrite (pend_produced_id _ _ _ _ _ Hmk Hok Hv), (wk_sb _ _ _ _ HW f) by (done || lia). rewrite occ_nil. lia.
  - rewrite (pend_produced _ _ _ _ _ Hmk Hok Hv), (wk_count _ _ _ _ HW p i f) by (done || lia). lia.
Qed.

Lemma MidInv_end f sb' s : MidInv f sb' s -> chainAt (dependGraph (iq s)) f = [] ->
  IQInv (s <| iq := iq s <| regScoreboard := sb' |> |>).
Proof.
  intros [HW HC HR HU HE HQ HB] Hnil. split; cbn; try done; [by eapply WakeMid_end|].
  eapply UnitInv_frame; [exact HU|apply extends_refl| |by left].
  intros p i Hp Hi _ Hd. exists i. split_and!; [done..|]. unfold missMid. rewrite Hnil, occ_nil. apply missKept_eq. lia.
Qed.

(** ** One dependent *)

Section Pop.
Context (f : Z) (sb : list bool) (s : IQS) (p : InstPtr) (l : list InstPtr) (g1 : DependencyGraph) (i : DynInst).
Hypothesis HM : MidInv f sb s.
Hypothesis Hch : chainAt (dependGraph (iq s)) f = p :: l.
Hypothesis Hupd : chainUpd f l (dependGraph (iq s)) g1.
Hypothesis Hi : heap (iqmem s) !! p = Some i.

Abbreviation i1 := (markSrcRegReady i).
Abbreviation m1 := (setHeap p (markSrcRegReady i) (iqmem s)).

Lemma pop_facts : WakeMid (iqInsts (iq s)) m1 f g1 sb /\ regsOnly i i1 /\ readySrcIdx i1 = readySrcIdx i /\
  p ∈ iqInsts (iq s) (threadNumber i) /\ tracked i = true /\
  readyToIssue i1 = bool_decide (missMid sb (nonSpecInsts (iq s)) g1 f p i1 = 0%nat) /\ isIssued i = false /\ readyToIssue i = false /\
  chainAt g1 f = l.
Proof.
  destruct (WakeMid_pop _ _ _ _ _ _ _ _ _ (md_wake _ _ _ HM) Hch Hupd Hi) as (H1 & H2 & H3 & H4 & H5 & H6).
  destruct (regsOnly_sameRegs _ _ H2 H3) as (_ & _ & _ & Hpe & _). destruct (wm_reg _ _ _ _ _ H1) as [Hf _].
  assert (Hl : chainAt g1 f = l).
  { destruct Hupd as (_ & _ & Hc). rewrite Hc by lia. by rewrite decide_True. }
  destruct (wm_issue _ _ _ _ _ (md_wake _ _ _ HM) p i H4 Hi H5) as [K _]. rewrite Hch, occ_cons, decide_True in K by done.
  split_and!; try done.
  - rewrite H6. unfold missMid. rewrite misses_tracked, Hpe, Hl; [done|]. by rewrite (proj1 (sameInst_tracked _ _ (proj1 H2))).
  - destruct (isIssued i); [|done]. specialize (K (or_intror eq_refl)). lia.
  - destruct (readyToIssue i); [|done]. specialize (K (or_introl eq_refl)). lia.
Qed.

Lemma pop_same : sameInst i i1.
Proof. by destruct pop_facts as (_ & [? _] & _). Qed.

Lemma pop_flags : isIssued i1 = false /\ memOpDone i1 = memOpDone i /\ isSquashed i1 = isSquashed i /\
  isMemRef i1 = isMemRef i /\ tracked i1 = true /\ seqNum i1 = seqNum i /\ threadNumber i1 = threadNumber i /\
  (isMemRef i = true -> memOpDone i = false).
Proof.
  destruct pop_facts as (_ & (Hs & _ & _ & Ef & _ & _ & Hst) & _ & Hp & Ht & _ & Hiss & _).
  destruct (sameInst_tracked _ _ Hs) as (T1 & T2 & _). destruct Hs as (S1 & S2 & _). split_and!; try done.
  - rewrite <- Hiss. by apply (Hst Issued).
  - unfold memOpDone. by rewrite Ef.
  - by apply (Hst Squashed).
  - congruence.
  - intros Hm. destruct (memOpDone i) eqn:Hd; [|done].
    rewrite (ct_done _ _ _ _ _ (md_count _ _ _ HM) p i Hp Hi Hm Hd) in Hiss. done.
Qed.

Lemma pop_count : CountInv (iqInsts (iq s)) m1 (count (iq s)) (freeEntries (iq s)) (iqEntries (iq s)).
Proof.
  destruct pop_flags as (F1 & F2 & F3 & F4 & F5 & F6 & F7 & F8). destruct pop_facts as (_ & _ & _ & Hp & _ & _ & Hiss & _).
  eapply CountInv_setHeap; [apply HM|done| |].
  - unfold holds. rewrite F4, F2, F1, Hiss. done.
  - rewrite F4, F2. intros Hm. rewrite F8 by done. done.
Qed.

Lemma pop_ext : extends (iqmem s) m1.
Proof. eapply setHeap_extends; [done|apply pop_same]. Qed.

Lemma pop_lists : memOnly (memLists (iq s)) m1.
Proof. eapply memOnly_extends; [apply pop_ext|apply HM]. Qed.

Lemma pop_uniq : seqUniq (iqInsts (iq s)) m1.
Proof.
  intros t t' q q' Hq Hq'. assert (E : forall x, seqOf m1 x = seqOf (iqmem s) x).
  { intros x. eapply setHeap_seqOf; [done|apply pop_same]. }
  rewrite !E. by apply (md_uniq _ _ _ HM t t').
Qed.

(** The other instructions miss as many registers as before. *)
Lemma pop_others q j : q <> p -> missMid sb (nonSpecInsts (iq s)) g1 f q j = missMid sb (nonSpecInsts (iq s)) (dependGraph (iq s)) f q j.
Proof.
  intros Hne. destruct pop_facts as (_ & _ & _ & _ & _ & _ & _ & _ & Hl). unfold missMid.
  rewrite Hl, Hch, occ_cons, decide_False by congruence. lia.
Qed.

Lemma pop_before : missMid sb (nonSpecInsts (iq s)) (dependGraph (iq s)) f p i = S (missMid sb (nonSpecInsts (iq s)) g1 f p i1).
Proof.
  destruct pop_facts as (_ & H2 & H3 & _ & Ht & _ & _ & _ & Hl). destruct (regsOnly_sameRegs _ _ H2 H3) as (_ & _ & _ & Hpe & _).
  unfold missMid. rewrite !misses_tracked by (done || by rewrite (proj1 (sameInst_tracked _ _ (proj1 H2)))). rewrite Hpe, Hl, Hch, occ_cons, decide_True by done. lia.
Qed.

Lemma pop_notReady : readyToIssue i1 = false ->
  MidInv f sb (s <| iq := iq s <| dependGraph := g1 |> |> <| iqmem := m1 |>).
Proof.
  intros Hr. pose proof pop_before as HB. pose proof pop_others as HO. destruct pop_flags as (F1 & F2 & F3 & F4 & F5 & F6 & F7 & F8).
  destruct pop_facts as (HW & _ & _ & Hp & Ht & Hrt & Hiss & Hri & Hl).
  assert (Hns : forall sn, nonSpecInsts (iq s) !! sn <> Some p).
  { intros sn Hn. destruct (rd_ns _ _ _ _ (md_ready _ _ _ HM) sn p Hn) as (j & Hj & _ & _ & Htj & _). congruence. }
  split; cbn; [done|apply pop_count| | |apply HM|apply pop_uniq|apply pop_lists].
  - apply (ReadyInv_frame (iqInsts (iq s)) _ (iqmem s)); [apply HM|apply pop_ext|..].
    + intros q j j' Hj Hj' _ Hsq. destruct (decide (q = p)) as [->|Hne].
      * rewrite setHeap_eq in Hj'. simplify_eq. split_and!; congruence || done.
      * rewrite setHeap_ne in Hj' by done. by simplify_eq.
    + intros q j' Hn Hj'. destruct (decide (q = p)) as [->|Hne]; [congruence|]. rewrite setHeap_ne in Hj' by done. congruence.
    + intros sn q j j' Hn Hj Hj'. destruct (decide (q = p)) as [->|Hne]; [by apply Hns in Hn|].
      rewrite setHeap_ne in Hj' by done. simplify_eq. destruct (rd_ns _ _ _ _ (md_ready _ _ _ HM) sn q Hn) as (k & Hj2 & _ & ? & _).
      by simplify_eq.
  - eapply UnitInv_frame; [apply HM|apply pop_ext|..].
    + intros q j Hq Hj Hm Hd. destruct (decide (q = p)) as [->|Hne].
      * rewrite setHeap_eq in Hj. simplify_eq. exists i. split_and!; [done|done|congruence|].
        rewrite HB. rewrite Hr in Hrt. symmetry in Hrt. apply bool_decide_eq_false in Hrt. split; [done|]. intros _ Hz. by apply Hrt in Hz.
      * rewrite setHeap_ne in Hj by done. exists j. split_and!; [done..|]. by rewrite HO.
    + intros t [Ht'|[Ht'|[Ht'|(j & Hj & Hq & Hij)]]]; left; [by left|by right; left|by right; right; left|].
      do 3 right. destruct (decide (t = p)) as [->|Hne].
      * rewrite setHeap_eq in Hj. simplify_eq. congruence.
      * rewrite setHeap_ne in Hj by done. by exists j.
Qed.

Abbreviation s1 := (s <| iq := iq s <| dependGraph := g1 |> |> <| iqmem := m1 |>).

Lemma pop_nsNone sn : nonSpecInsts (iq s) !! sn <> Some p.
Proof.
  intros Hn. destruct pop_facts as (_ & _ & _ & _ & Ht & _).
  destruct (rd_ns _ _ _ _ (md_ready _ _ _ HM) sn p Hn) as (j & Hj & _ & _ & Htj & _). congruence.
Qed.

(** An instruction other than a memory instruction was in no ready queue. *)
Lemma pop_noOcc c : isMemRef i = false -> isSquashed i = false -> occ p (readyInsts (ready (iq s)) c) = 0%nat.
Proof.
  intros Hm Hsq. destruct pop_facts as (_ & _ & _ & _ & _ & _ & _ & Hri & _).
  destruct (rd_each _ _ _ _ (md_ready _ _ _ HM) p i Hi Hm Hsq) as [O1 _ _].
  destruct (occ p (readyInsts (ready (iq s)) c)) eqn:E; [done|]. destruct (O1 c) as (_ & _ & K & _); [lia|]. congruence.
Qed.

Lemma pop_nonMem : isMemRef i = false -> readyToIssue i1 = true ->
  exists r', addReadyMemInst p s1 = Ok (putReady r' s1) /\ MidInv f sb (putReady r' s1).
Proof.
  intros Hm Hr. pose proof pop_others as HO. pose proof pop_noOcc as Hno. pose proof pop_nsNone as Hns. pose proof pop_uniq as HQ. pose proof pop_lists as HB.
  pose proof pop_count as HC. pose proof pop_ext as Hext. pose proof pop_same as Hs.
  destruct pop_flags as (F1 & F2 & F3 & F4 & F5 & F6 & F7 & F8). destruct pop_facts as (HW & _ & _ & Hp & Ht & Hrt & Hiss & Hri & Hl).
  assert (Hp1 : heap (iqmem s1) !! p = Some i1) by apply setHeap_eq.
  destruct (addReadyMemInst_ok p i1 s1) as (r' & E & HP); [eapply RLInv_extends; [exact Hext|apply HM]|done|].
  exists r'. split; [done|]. split; cbn; [done|done| | |apply HM|done|done].
  - apply (ReadyInv_at (iqInsts (iq s)) _ _ p i1 (ready (iq s)) _ (nonSpecInsts (iq s))); [apply HM|by exists i|apply HP|done|..].
    + intros q j c Hne Hj _ _. by apply (pushed_other _ _ _ _ _ _ HP).
    + done.
    + intros _ Hsq. apply (rdOK_pushed _ _ _ _ _ _ _ HP Hp1); try done.
      * intros c. apply Hno; congruence.
      * by rewrite F7.
      * apply bool_decide_eq_false. rewrite F6. intros [q Hq].
        destruct (rd_ns _ _ _ _ (md_ready _ _ _ HM) _ q Hq) as (j & Hj & Ej & Hl2 & _).
        assert (q = p) as -> by (apply (md_uniq _ _ _ HM _ _ q p Hl2 Hp); unfold seqOf; by rewrite Hi, Hj).
        by apply Hns in Hq.
    + intros sn q Hq Hne. done.
    + intros sn Hq. by apply Hns in Hq.
  - eapply UnitInv_frame; [apply HM|exact Hext|..].
    + intros q j Hq Hj Hmj Hd. destruct (decide (q = p)) as [->|Hne].
      * rewrite setHeap_eq in Hj. injection Hj as <-. congruence.
      * rewrite setHeap_ne in Hj by done. exists j. split_and!; [done..|]. by rewrite HO.
    + intros t. apply (handed_nonMem _ _ _ i); [done..|].
      intros c x Hx. apply (pushed_in _ _ _ _ _ _ HP) in Hx as [->%list_elem_of_singleton|Hx]; [by left|by right].
Qed.

Lemma pop_mem : isMemRef i = true -> readyToIssue i1 = true ->
  exists u' r', onUnit (threadNumber i1) (regsReady p) s1 = Ok (putUnit (threadNumber i1) u' r' m1 s1) /\
    MidInv f sb (putUnit (threadNumber i1) u' r' m1 s1).
Proof.
  intros Hm Hr. pose proof pop_others as HO. pose proof pop_nsNone as Hns. pose proof pop_uniq as HQ. pose proof pop_lists as HB.
  pose proof pop_count as HC. pose proof pop_ext as Hext. pose proof pop_same as Hs. pose proof (md_unit _ _ _ HM) as HU.
  destruct pop_flags as (F1 & F2 & F3 & F4 & F5 & F6 & F7 & F8). destruct pop_facts as (HW & _ & _ & Hp & Ht & Hrt & Hiss & Hri & Hl).
  assert (Hp1 : heap (iqmem s1) !! p = Some i1) by apply setHeap_eq. set (T := threadNumber i1).
  destruct (un_env _ _ _ _ _ m1 T HU Hext) as [HM1 Ea].
  destruct (onUnit_ok T (ORegsReady p) (regsReady p) s1) as (u' & m' & out & r' & E & HM2 & Hms & Hfree & HS & HP); [done| |done| |].
  { eapply RLInv_extends; [exact Hext|apply HM]. }
  { destruct (un_inUnit _ _ _ _ _ _ _ HU Hi Hp Hm (F8 Hm)) as (e & en & K1 & K2 & K3 & K4). exists e, en, i1.
    unfold T. rewrite F7. split_and!; [done| |done|done]. cbn. by rewrite F6. }
  destruct Hms as [->|(p' & j & [=] & _)]. change (iqmem s1) with m1 in *.
  destruct HS as (j & w & Hj & Hw & ES & Eout). rewrite Hp1 in Hj. injection Hj as <-.
  change (mkMDS (memDepUnit (iq s1) T) m1 []) with (unitOf m1 (memDepUnit (iq s)) T) in Hw, ES. rewrite Ea in Hw, ES.
  exists u', r'. split; [done|].
  assert (Hout : forall q, q ∈ out -> q = p).
  { intros q. rewrite Eout. match goal with |- _ ∈ (if ?b then _ else _) -> _ => destruct b end;
      [by intros ->%list_elem_of_singleton|by intros ?%elem_of_nil]. }
  assert (Erep : instsToReplay u' = instsToReplay (memDepUnit (iq s) T)) by (injection ES as _ ES; done).
  assert (Hh : forall t, handedBy r' (memLists (iq s)) (<[T := u']> (memDepUnit (iq s))) (iqInsts (iq s)) m1 t ->
            t ∈ out \/ handed (iq s) (iqmem s) t).
  { intros t [[c Hc]|[Ht'|[[t' Ht']|(j & Hj & Hq & Hij)]]].
    - apply (pushed_in _ _ _ _ _ _ HP) in Hc as [Hc|Hc]; [by left|]. right. left. by exists c.
    - right. by right; left.
    - right. right; right; left. destruct (decide (t' = T)) as [->|Hne].
      + rewrite fn_lookup_insert, Erep in Ht'. by exists T.
      + rewrite fn_lookup_insert_ne in Ht' by done. by exists t'.
    - right. do 3 right. destruct (decide (t = p)) as [->|Hne].
      + rewrite setHeap_eq in Hj. injection Hj as <-. congruence.
      + rewrite setHeap_ne in Hj by done. by exists j. }
  split; cbn; [done|done| | |apply HM|done|done].
  - apply (ReadyInv_at (iqInsts (iq s)) _ _ p i1 (ready (iq s)) _ (nonSpecInsts (iq s))); [apply HM|by exists i|apply HP|done|..].
    + intros q j c Hne Hj _ _. rewrite (pushed_occ _ _ _ _ _ _ HP). assert (occ q out = 0%nat) as ->; [|by destruct (decide (classIs _ _ _))].
      apply occ_zero. by intros ->%Hout.
    + done.
    + congruence.
    + intros sn q Hq Hne. done.
    + intros sn Hq. by apply Hns in Hq.
  - apply (UnitInv_op (iqInsts (iq s)) _ (iqmem s) _ _ T u' (missMid sb (nonSpecInsts (iq s)) (dependGraph (iq s)) f) _ (handed (iq s) (iqmem s)) _ out);
      [done|done|done|done|..].
    + intros q j Hq Hj Hmj Hd Htq. destruct (decide (q = p)) as [->|Hne].
      * rewrite setHeap_eq in Hj. injection Hj as <-. done.
      * rewrite setHeap_ne in Hj by done. exists j. split_and!; [done..|]. by rewrite HO.
    + intros q j Hq Hj Hmj Hd Htq. rewrite ES. cbn [waiting]. destruct (decide (q = p)) as [->|Hne].
      * rewrite setHeap_eq in Hj. injection Hj as <-. rewrite lookup_insert_eq. eexists. split; [done|].
        rewrite Hr in Hrt. symmetry in Hrt. apply bool_decide_eq_true in Hrt. cbn [w_inst w_regs upd_field].
        split_and!; [|intros _; cbn; by rewrite bool_decide_eq_true_2|done|done].
        destruct (un_in _ _ _ _ _ HU p i Hp Hi Hm (F8 Hm)) as (w' & Hw' & Ew & _). rewrite F6 in Hw. unfold T in Hw. rewrite F7 in Hw. cbn. congruence.
      * rewrite setHeap_ne in Hj by done.
        destruct (un_in _ _ _ _ _ HU q j Hq Hj Hmj Hd) as (w' & Hw' & Ew & Er & Er'). rewrite Htq in Hw'. exists w'.
        rewrite lookup_insert_ne.
        2: { rewrite F6. intros Ex. apply Hne. apply (md_uniq _ _ _ HM _ _ q p Hq Hp). unfold seqOf. by rewrite Hi, Hj. }
        rewrite HO by done. split_and!; [done..|]. intros [->%Hout|Ho]%Hh; [done|].
        destruct (un_pool _ _ _ _ _ HU q Ho) as (j' & Hj2 & Hz). assert (j' = j) as -> by congruence. rewrite <- Htq in *. by apply Hz.
    + intros q j Hq Hj. rewrite Erep in Hq. destruct (decide (q = p)) as [->|Hne].
      * rewrite setHeap_eq in Hj. injection Hj as <-. congruence.
      * rewrite setHeap_ne in Hj by done. by eapply (un_replay _ _ _ _ _ HU).
    + intros t. apply Hh.
Qed.

End Pop.

(** ** All dependents of a register *)

(** Waking instructions changes what they know of their registers. *)
Definition wakeFrame (s s' : IQS) : Prop :=
  iqInsts (iq s') = iqInsts (iq s) /\ regScoreboard (iq s') = regScoreboard (iq s) /\
  mpins (iqmem s') = mpins (iqmem s) /\
  forall q j, heap (iqmem s) !! q = Some j -> exists j', heap (iqmem s') !! q = Some j' /\ regsOnly j j'.

Lemma wakeFrame_refl s : wakeFrame s s.
Proof. split_and!; try done. intros q j Hq. eauto using regsOnly_refl. Qed.

Lemma wakeFrame_trans s1 s2 s3 : wakeFrame s1 s2 -> wakeFrame s2 s3 -> wakeFrame s1 s3.
Proof.
  intros (A1 & A2 & A3 & A4) (B1 & B2 & B3 & B4). split_and!; try congruence.
  intros q j Hq. destruct (A4 q j Hq) as (j' & Hj' & R1). destruct (B4 q j' Hj') as (j'' & Hj'' & R2).
  eauto using regsOnly_trans.
Qed.

(** The body of the loop. *)
Lemma wakeStep_ok f sb s p l g1 : MidInv f sb s -> chainAt (dependGraph (iq s)) f = p :: l ->
  chainUpd f l (dependGraph (iq s)) g1 ->
  exists s', (s1 ← onInst p markSrcRegReady (updIQ (fun q => q <| dependGraph := g1 |>) s); addIfReady p s1) = Ok s' /\
    MidInv f sb s' /\ dependGraph (iq s') = g1 /\ wakeFrame s s'.
Proof.
  intros HM Hch Hupd. pose proof (md_wake _ _ _ HM) as HW. destruct (wm_reg _ _ _ _ _ HW) as [Hf _].
  destruct (wm_chain _ _ _ _ _ HW f p) as (i & Hi & _ & _); [lia|rewrite Hch; by left|].
  rewrite (putInst_mem p _ (updIQ _ s) i Hi). cbn [mbind res_bind].
  destruct (pop_facts f sb s p l g1 i HM Hch Hupd Hi) as (_ & Honly & _).
  pose proof (pop_flags f sb s p l g1 i HM Hch Hupd Hi) as (_ & _ & _ & F4 & _).
  assert (HF : wakeFrame s (s <| iq := iq s <| dependGraph := g1 |> |> <| iqmem := setHeap p (markSrcRegReady i) (iqmem s) |>)).
  { split_and!; try done. intros q j Hq. change (iqmem (_ <| iqmem := ?x |>)) with x. destruct (decide (q = p)) as [->|Hne].
    - rewrite setHeap_eq. simplify_eq. eauto.
    - rewrite setHeap_ne by done. eauto using regsOnly_refl. }
  unfold addIfReady, getInst.
  change (iqmem (_ <| iqmem := ?x |>)) with x. rewrite setHeap_eq. cbn [deref mbind res_bind]. rewrite F4.
  destruct (readyToIssue (markSrcRegReady i)) eqn:Er.
  - destruct (isMemRef i) eqn:Em.
    + destruct (pop_mem f sb s p l g1 i HM Hch Hupd Hi Em Er) as (u' & r' & E & HM'). eexists. split; [exact E|].
      split; [exact HM'|]. split; [done|]. exact HF.
    + destruct (pop_nonMem f sb s p l g1 i HM Hch Hupd Hi Em Er) as (r' & E & HM'). eexists. split; [exact E|].
      split; [exact HM'|]. split; [done|]. exact HF.
  - eexists. split; [done|]. split; [exact (pop_notReady f sb s p l g1 i HM Hch Hupd Hi Er)|]. done.
Qed.

Lemma wakeChain_ok f sb l : forall chain s, MidInv f sb s -> chainAt (dependGraph (iq s)) f = l -> length chain = length l ->
  exists s', wakeChain chain f s = Ok (Z.of_nat (length l), s') /\ MidInv f sb s' /\
    chainAt (dependGraph (iq s')) f = [] /\ wakeFrame s s'.
Proof.
  induction l as [|p l IH]; intros chain s HM Hch Hlen.
  - pose proof (md_wake _ _ _ HM) as HW. destruct (wm_reg _ _ _ _ _ HW) as [Hf _]. destruct (wm_len _ _ _ _ _ HW) as [HL _].
    pose proof (pop_ok (dependGraph (iq s)) f ltac:(unfold inGraph; lia)) as HP. rewrite Hch in HP.
    exists s. destruct chain; [|done]. cbn [wakeChain]. rewrite HP. cbn [mbind res_bind].
    split; [by destruct s as [[] ? ? ?]|]. split_and!; [done..|]. apply wakeFrame_refl.
  - pose proof (md_wake _ _ _ HM) as HW. destruct (wm_reg _ _ _ _ _ HW) as [Hf _]. destruct (wm_len _ _ _ _ _ HW) as [HL _].
    pose proof (pop_ok (dependGraph (iq s)) f ltac:(unfold inGraph; lia)) as HP. rewrite Hch in HP. destruct HP as (g1 & HP & Hupd).
    destruct chain as [|x chain]; [done|]. cbn [wakeChain]. rewrite HP. cbn [mbind res_bind].
    destruct (wakeStep_ok f sb s p l g1 HM Hch Hupd) as (s1 & E & HM1 & Eg & HF).
    destruct (onInst p markSrcRegReady _) as [s0| |]; try done. cbn [mbind res_bind] in E |- *. rewrite E. cbn [mbind res_bind].
    assert (Hl : chainAt (dependGraph (iq s1)) f = l).
    { rewrite Eg. destruct Hupd as (_ & _ & Hc). rewrite Hc by lia. by rewrite decide_True. }
    destruct (IH chain s1 HM1 Hl) as (s' & E' & HM' & Hnil & HF'); [cbn in Hlen; lia|]. rewrite E'. cbn [mbind res_bind].
    exists s'. split; [f_equal; f_equal; cbn [length]; lia|]. split_and!; [done..|]. by eapply wakeFrame_trans.
Qed.

(** ** The destinations of a completed instruction *)

Lemma setRegReady_eq b r s : 0 <= flatIndex r < Z.of_nat (length (regScoreboard (iq s))) ->
  setRegReady b r s = Ok (s <| iq := iq s <| regScoreboard := <[Z.to_nat (flatIndex r) := b]> (regScoreboard (iq s)) |> |>).
Proof.
  intros Hr. unfold setRegReady, regReady. destruct (lookup_lt_is_Some_2 (regScoreboard (iq s)) (Z.to_nat (flatIndex r))) as [v Hv]; [lia|].
  by rewrite Hv.
Qed.

Lemma marked_insert b f sb : 0 <= f < Z.of_nat (length sb) -> marked b [f] sb (<[Z.to_nat f := b]> sb).
Proof.
  intros Hf. split; [apply length_insert|]. intros f' Hf'. case_decide as Hd.
  - apply list_elem_of_singleton in Hd as ->. rewrite list_lookup_insert_eq by lia.
    destruct (lookup_lt_is_Some_2 sb (Z.to_nat f)) as [v Hv]; [lia|]. by rewrite Hv.
  - rewrite list_lookup_insert_ne; [done|]. intros E. apply Hd, list_elem_of_singleton. lia.
Qed.

(** The pinned destinations of [i] were renamed, and not given back. *)
Definition pinsOK (ps : Pins) (i : DynInst) : Prop :=
  forall r, Some r ∈ destIdx i -> pinned (pinOf ps r) = true ->
    status i PinnedRegsRenamed = true /\ status i PinnedRegsSquashDone = false.

Lemma pinned_decr r r' ps : pinned (pinOf (updPin r decrNumPinnedWritesToComplete ps) r') = pinned (pinOf ps r').
Proof.
  unfold updPin, pinOf at 1. destruct (decide (r' = r)) as [->|Hne].
  - by rewrite lookup_insert_eq.
  - by rewrite lookup_insert_ne.
Qed.

(** A completed instruction whose destinations are woken. *)
Definition waking (s : IQS) (p : InstPtr) (ds : list (option PhysRegId)) : Prop :=
  exists j, heap (iqmem s) !! p = Some j /\ p ∈ iqInsts (iq s) (threadNumber j) /\ destIdx j = ds /\
    pinsOK (mpins (iqmem s)) j.

Lemma mpins_calm m ps : calm m (m <| mpins := ps |>).
Proof. intros p i Hp. exists i. split; [exact Hp|apply calmInst_refl]. Qed.

Lemma calm_written j : calmInst j (setStatus PinnedRegsWritten true j).
Proof. split; [done|]. split_and!; [done..|]. by destruct (isMemRef j). Qed.

(** The bookkeeping of a pinned register. *)
Lemma wakePin_ok s p ds r : IQInv s -> waking s p ds -> Some r ∈ ds ->
  let ps := updPin r decrNumPinnedWritesToComplete (mpins (iqmem s)) in
  let s1 := s <| iqmem := iqmem s <| mpins := ps |> |> in
  exists s', (i ← getInst p (iqmem s1);
              i ← (if pinned (pinOf ps r) then setPinnedRegsWritten i else Ok i);
              onInst p (fun _ => i) s1) = Ok s' /\
    IQInv s' /\ waking s' p ds /\ regScoreboard (iq s') = regScoreboard (iq s) /\
    dependGraph (iq s') = dependGraph (iq s).
Proof.
  intros HI (j & Hj & Hp & Hd & Hpin) Hr ps s1.
  assert (HI1 : IQInv s1) by (apply IQInv_calm; [done|apply mpins_calm]).
  assert (Hj1 : heap (iqmem s1) !! p = Some j) by done.
  unfold getInst. rewrite Hj1. cbn [deref mbind res_bind].
  assert (Hx : exists j', (if pinned (pinOf ps r) then setPinnedRegsWritten j else Ok j) = Ok j' /\
            (j' = j \/ j' = setStatus PinnedRegsWritten true j)).
  { unfold ps. rewrite pinned_decr. destruct (pinned _) eqn:E; [|by exists j; auto].
    destruct (Hpin r) as [K1 K2]; [by rewrite Hd|done|]. exists (setStatus PinnedRegsWritten true j).
    unfold setPinnedRegsWritten. rewrite K2, K1. cbn. auto. }
  destruct Hx as (j' & E & Hj'). rewrite E. cbn [mbind res_bind]. rewrite (putInst_mem p _ s1 j Hj1).
  eexists. split; [done|]. assert (Hc : calmInst j j') by (destruct Hj' as [->| ->]; [apply calmInst_refl|apply calm_written]).
  split; [apply IQInv_calm; [done|by eapply calm_set]|]. split; [|done].
  exists j'. split; [apply setHeap_eq|].
  assert (K : threadNumber j' = threadNumber j /\ destIdx j' = destIdx j /\
    status j' PinnedRegsRenamed = status j PinnedRegsRenamed /\ status j' PinnedRegsSquashDone = status j PinnedRegsSquashDone)
    by (by destruct Hj' as [->| ->]).
  destruct K as (K1 & K2 & K3 & K4). rewrite K1, K2. split_and!; [done..|].
  intros r' Hr'. cbn. unfold ps. rewrite pinned_decr, K3, K4. apply Hpin. by rewrite <- K2.
Qed.

(** The heads of the lists do not matter. *)
Lemma WakeInv_kept insts m g g' sb : WakeInv insts m g sb -> chainsKept g g' -> WakeInv insts m g' sb.
Proof.
  intros HW (K1 & K2 & K3). apply (WakeInv_drop insts insts m m g); try done.
  - intros f q Hf. rewrite K3 by done. intros Hq. split; [done|].
    destruct (wk_chain _ _ _ _ HW f q Hf Hq) as (i & _ & Hin & _). eauto.
  - intros f t q Hf _. by rewrite K3.
Qed.

Lemma clearInst_ok f s : length (graph (dependGraph (iq s))) = length (regScoreboard (iq s)) ->
  0 <= f < Z.of_nat (length (regScoreboard (iq s))) ->
  exists g', onGraph (clearInst f) s = Ok (s <| iq := iq s <| dependGraph := g' |> |>) /\ chainsKept (dependGraph (iq s)) g'.
Proof.
  intros HL Hf.
  destruct (headUpd_ok (dependGraph (iq s)) f (fun d => d <| producer := None |>)) as (g' & E & HK);
    [unfold inGraph; lia|done|].
  exists g'. split; [|done]. unfold onGraph, clearInst. by rewrite E.
Qed.

(** One destination. *)
Lemma wakeReg_ok n s p ds o : IQInv s -> waking s p ds -> o ∈ ds ->
  exists n' s', wakeReg p (n, s) o = Ok (n', s') /\ IQInv s' /\ waking s' p ds.
Proof.
  intros HI Hw Ho. pose proof Hw as (j & Hj & Hp & Hd & _). pose proof (iv_wake _ HI) as HW.
  destruct (wk_inst _ _ _ _ HW _ _ Hp) as (j' & Hj' & _ & _ & Hok). simplify_eq.
  destruct (proj1 (list_relations.list.Forall_forall _ _) (rg_dests _ _ Hok) o Ho) as [r ->].
  unfold wakeReg. cbn [deref mbind res_bind]. destruct (isFixedMapping r) eqn:Efix; [eauto|].
  assert (Hf : 0 <= flatIndex r < Z.of_nat (length (regScoreboard (iq s)))).
  { apply (rg_range _ _ Hok). right. apply list_elem_of_omap. exists (Some r). split; [done|]. cbn. by rewrite Efix. }
  destruct (wakePin_ok s p _ r HI Hw Ho) as (s1 & E1 & HI1 & Hw1 & Esb & Eg).
  set (ps := updPin r decrNumPinnedWritesToComplete (mpins (iqmem s))) in *.
  destruct (getInst p _) as [i0| |]; try done. cbn [mbind res_bind] in E1 |- *.
  match type of E1 with (?x ≫= _) = _ => destruct x as [i1| |]; try done end. cbn [mbind res_bind] in E1 |- *.
  rewrite E1. cbn [mbind res_bind].
  destruct (negb (pinWritesToComplete (pinOf ps r) =? 0)); [eauto|].
  set (f := flatIndex r) in *. set (sb' := <[Z.to_nat f := true]> (regScoreboard (iq s1))).
  assert (Hf1 : 0 <= f < Z.of_nat (length (regScoreboard (iq s1)))) by (by rewrite Esb).
  assert (HM : MidInv f sb' s1) by (apply MidInv_start; [done..|by apply marked_insert]).
  destruct (wk_len _ _ _ _ (iv_wake _ HI1)) as [HL1 _].
  destruct (depAt_ok (dependGraph (iq s1)) f) as (d & Ed & _ & Ec); [unfold inGraph; lia|].
  rewrite Ed. cbn [mbind res_bind]. rewrite Ec.
  destruct (wakeChain_ok f sb' _ (chainAt (dependGraph (iq s1)) f) s1 HM eq_refl eq_refl) as (s2 & E2 & HM2 & Hnil & HF).
  rewrite E2. cbn [mbind res_bind]. destruct (wm_len _ _ _ _ _ (md_wake _ _ _ HM2)) as [HL2 _].
  assert (Hlen : length sb' = length (regScoreboard (iq s1))) by apply length_insert.
  rewrite (emptyAt_ok (dependGraph (iq s2)) f) by (unfold inGraph; lia). rewrite Hnil. cbn [bool_decide mbind res_bind].
  rewrite bool_decide_eq_true_2 by done. cbn [assertR mbind res_bind].
  pose proof HF as (F1 & F2 & F3 & F4).
  destruct (clearInst_ok f s2) as (g' & E3 & HK); [by rewrite F2, HL2|by rewrite F2|]. rewrite E3. cbn [mbind res_bind].
  rewrite setRegReady_eq by (cbn; by rewrite F2). cbn [mbind res_bind]. do 2 eexists. split; [done|].
  pose proof (MidInv_end _ _ _ HM2 Hnil) as [G1 G2 G3 G4 G5 G6]. cbn. fold f. rewrite F2. fold sb'.
  split; [split; cbn in *; try done; by eapply WakeInv_kept|].
  destruct Hw1 as (k & Hk & Hpk & Hdk & Hpin). destruct (F4 p k Hk) as (k' & Hk' & Hs & Es & Edk & _ & _ & _ & Hst).
  exists k'. cbn. rewrite F1, F3. destruct Hs as (_ & -> & _). split_and!; [done|done|congruence|].
  intros r' Hr'. rewrite !Hst by done. apply Hpin. by rewrite <- Edk.
Qed.

Lemma wakeRegs_ok p ds l : forall n s, IQInv s -> waking s p ds -> (forall o, o ∈ l -> o ∈ ds) ->
  exists n' s', foldR (wakeReg p) (n, s) l = Ok (n', s') /\ IQInv s'.
Proof.
  induction l as [|o l IH]; intros n s HI Hw Hin; [by eexists _, _|].
  destruct (wakeReg_ok n s p ds o HI Hw) as (n1 & s1 & E & HI1 & Hw1); [apply Hin; by left|].
  destruct (IH n1 s1 HI1 Hw1) as (n' & s' & E' & HI'); [intros o' Ho'; apply Hin; by right|].
  exists n', s'. cbn [foldR]. rewrite E. done.
Qed.

(** ** Completion in the memory dependence unit *)

(** An instruction that is about to be completed there. *)
Record completing (s : IQS) (p : InstPtr) (i : DynInst) : Prop := {
  cp_heap : heap (iqmem s) !! p = Some i;
  cp_live : p ∈ iqInsts (iq s) (threadNumber i);
  cp_mem : isMemRef i = true -> isIssued i = true /\ memOpDone i = false;
  cp_barrier : isMemRef i = false ->
    exists e en, inUnit (mkMDS (memDepUnit (iq s) (threadNumber i)) (iqmem s) []) p e en i;
  cp_replay : p ∉ instsToReplay (memDepUnit (iq s) (threadNumber i))
}.

(** What waits for one instruction in the unit is a memory instruction, and the
    unit knows about its registers. *)
Lemma woken_regsIn s T q sn w k : IQInv s ->
  waiting (absMD (mkMDS (memDepUnit (iq s) T) (iqmem s) [])) !! sn = Some w -> w_inst w = q -> w_regs w = true ->
  w_on w = {[k]} -> regsIn s q.
Proof.
  intros HI Hw Eq Er Eon. pose proof (iv_unit _ HI) as HU. pose proof (un_inv _ _ _ _ _ HU T) as HM.
  pose proof Hw as Hw0. apply (abs_lookup _ _ _ _ HM) in Hw as (e & en & j & Hh & Hei & ->). cbn in Eq, Er, Eon. subst q.
  destruct (hash_inUnit _ _ _ _ _ _ HM Hh Hei) as [Hsn Hu]. destruct (inUnit_alive _ _ _ _ _ _ HM Hu) as (Hsq & Hmd & _).
  assert (Hsp : speculative j = true).
  { destruct (speculative j) eqn:E; [done|]. rewrite (mi_bar _ HM _ _ _ Hei E) in Hmd.
    cbn in Hmd. rewrite Eon, size_singleton in Hmd. lia. }
  assert (Hm : isMemRef j = true) by (unfold speculative in Hsp; bool_to_prop; done).
  destruct (mi_inst _ _ HM _ _ (proj1 Hei)) as (j' & Hj' & Ht & _). destruct Hei as [He Hj].
  assert (j' = j) as -> by congruence. subst T sn.
  exists j. split_and!; [done..|]. intros Hl Hd.
  destruct (un_look s _ j HI Hj Hl Hm Hd) as (w' & Hw' & Ew & _ & Er'). rewrite Hw0 in Hw'. injection Hw' as <-. by apply Er'.
Qed.

Lemma completeUnit_ok s p i : IQInv s -> completing s p i ->
  let T := threadNumber i in let m := iqmem s in
  exists u' out r', onUnit T (completeInst p) s = Ok (putUnit T u' r' m s) /\
    MDInv predOK T (mkMDS u' m []) /\
    (forall q, q ∈ out \/ free (memDepUnit (iq s) T) q -> free u' q) /\
    waiting (absMD (mkMDS u' m [])) =
      delete (seqNum i) (release (seqNum i) <$> waiting (absMD (mkMDS (memDepUnit (iq s) T) m []))) /\
    instsToReplay u' = instsToReplay (memDepUnit (iq s) T) /\
    (forall q, q ∈ out -> regsIn s q) /\ pushed m out (ready (iq s)) r'.
Proof.
  intros HI [Hi Hp Hmem Hbar Hrep] T m. pose proof HI as [HW HC HR HU HE HQ HB].
  destruct (onUnit_ok T (OComplete p) (completeInst p) s) as (u' & m' & out & r' & E & HM & Hms & Hfree & HS & HP);
    [done|apply HR|apply HU|..].
  { split; [|done]. destruct (isMemRef i) eqn:Em.
    - destruct (Hmem eq_refl) as [Hiss Hd].
      destruct (handed_inUnit s p i HI Hi Hp Em Hd) as (e & en & Hu & Hz); [by do 3 right; exists i|].
      exists e, en, i. auto.
    - destruct (Hbar eq_refl) as (e & en & Hu). exists e, en, i. split; [done|congruence]. }
  destruct Hms as [->|(p' & j & [=] & _)]. destruct HS as (j & Hj & ES & _ & Hout). rewrite Hi in Hj. injection Hj as <-.
  exists u', out, r'. split; [done|]. split; [done|]. split; [done|]. split; [unfold m; by rewrite ES|].
  split; [by injection ES as _ ES|]. split; [|done].
  intros q (sn & w & Hw & Eq & Er & Eon)%Hout. by eapply (woken_regsIn s T).
Qed.

(** Its effect on what the queue knows of the units: [i'] is the instruction after
    the call, which no longer is a memory instruction that has to complete. *)
Lemma completed_unit s p i i' u' out r' : IQInv s -> completing s p i -> sameInst i i' ->
  (isMemRef i = true -> memOpDone i' = true) ->
  isIssued i' = isIssued i ->
  let T := threadNumber i in let m := iqmem s in let m' := setHeap p i' m in
  MDInv predOK T (mkMDS u' m []) ->
  (forall q, q ∈ out \/ free (memDepUnit (iq s) T) q -> free u' q) ->
  waiting (absMD (mkMDS u' m [])) =
    delete (seqNum i) (release (seqNum i) <$> waiting (absMD (mkMDS (memDepUnit (iq s) T) m []))) ->
  instsToReplay u' = instsToReplay (memDepUnit (iq s) T) ->
  (forall q, q ∈ out -> regsIn s q) -> pushed m out (ready (iq s)) r' ->
  UnitInv (iqInsts (iq s)) m' (<[T := u']> (memDepUnit (iq s))) (iqMisses s)
    (handedBy r' (memLists (iq s)) (<[T := u']> (memDepUnit (iq s))) (iqInsts (iq s)) m').
Proof.
  intros HI [Hi Hp Hmem Hbar Hrep] Hs Hdone Hiss T m m' HM Hfree EW Erep Hout HP. subst m'. subst m.
  pose proof HI as [HW HC HR HU HE HQ HB]. assert (Hext : extends (iqmem s) (setHeap p i' (iqmem s))) by (by eapply setHeap_extends).
  destruct (env_inv T (mkMDS u' (iqmem s) []) (setHeap p i' (iqmem s)) HM Hext) as [HM' Ea]. cbn in HM', Ea.
  destruct (sameInst_tracked _ _ Hs) as (T1 & T2 & _). pose proof Hs as (S1 & S2 & _).
  assert (Hh : forall t, handedBy r' (memLists (iq s)) (<[T := u']> (memDepUnit (iq s))) (iqInsts (iq s)) (setHeap p i' (iqmem s)) t ->
            t ∈ out \/ handed (iq s) (iqmem s) t).
  { intros t [[c Hc]|[Ht|[[t' Ht]|(j & Hj & Hq & Hij)]]].
    - apply (pushed_in _ _ _ _ _ _ HP) in Hc as [Hc|Hc]; [by left|]. right. left. by exists c.
    - right. by right; left.
    - right. right; right; left. destruct (decide (t' = T)) as [->|Hne].
      + rewrite fn_lookup_insert, Erep in Ht. by exists T.
      + rewrite fn_lookup_insert_ne in Ht by done. by exists t'.
    - right. do 3 right. destruct (decide (t = p)) as [->|Hne].
      + rewrite setHeap_eq in Hj. injection Hj as <-. exists i. split_and!; [done|done|congruence].
      + rewrite setHeap_ne in Hj by done. by exists j. }
  apply (UnitInv_op (iqInsts (iq s)) _ (iqmem s) _ _ T u' (iqMisses s) _ (handed (iq s) (iqmem s)) _ out);
    [done|done|done|done|..].
  - intros q j Hq Hj Hm Hd Ht. destruct (decide (q = p)) as [->|Hne].
    + rewrite setHeap_eq in Hj. injection Hj as <-. done.
    + rewrite setHeap_ne in Hj by done. by exists j.
  - intros q j Hq Hj Hm Hd Ht. destruct (decide (q = p)) as [->|Hne].
    + rewrite setHeap_eq in Hj. injection Hj as <-. rewrite Hdone in Hd by congruence. done.
    + rewrite setHeap_ne in Hj by done.
      destruct (un_look s q j HI Hj Hq Hm Hd) as (w & Hw & Ew & Er & Er'). rewrite Ht in Hw.
      exists (release (seqNum i) w). cbn in Ea. rewrite Ea, EW.
      rewrite lookup_delete_ne.
      2: { intros Ex. apply Hne. apply (HQ _ _ q p Hq Hp). unfold seqOf. by rewrite Hi, Hj. }
      rewrite lookup_fmap. rewrite Hw. split_and!; [done..|].
      intros [Ho|Ho]%Hh.
      * destruct (Hout q Ho) as (j' & Hj2 & _ & Hz). assert (j' = j) as -> by congruence. by apply Hz.
      * destruct (un_pool _ _ _ _ _ HU q Ho) as (j' & Hj2 & Hz). assert (j' = j) as -> by congruence. by apply Hz.
  - intros q j Hq Hj. rewrite Erep in Hq. destruct (decide (q = p)) as [->|Hne]; [done|].
    rewrite setHeap_ne in Hj by done. by eapply (un_replay _ _ _ _ _ HU).
  - intros t. apply Hh.
Qed.

Lemma ReadyInv_memFlag insts m r ns p i i' : ReadyInv insts m r ns -> heap m !! p = Some i -> sameInst i i' ->
  isMemRef i = true -> (forall sn, ns !! sn <> Some p) -> ReadyInv insts (setHeap p i' m) r ns.
Proof.
  intros HR Hi Hs Hm Hns. destruct (sameInst_tracked _ _ Hs) as (_ & T2 & _).
  apply (ReadyInv_at insts _ _ p i' r _ ns); try done.
  - by exists i.
  - eapply RLInv_extends; [by eapply setHeap_extends|apply HR].
  - congruence.
  - intros sn Hn. by apply Hns in Hn.
Qed.

Lemma iq_NoDup insts m g sb t : WakeInv insts m g sb -> NoDup (insts t).
Proof.
  intros HW. pose proof (wk_order _ _ _ _ HW t) as Ho. induction Ho as [|p l Ho IH Hp]; constructor; [|done].
  intros Hin. rewrite list_relations.list.Forall_forall in Hp. specialize (Hp _ Hin). lia.
Qed.

(** One instruction gives its entry back. *)
Lemma CountInv_release s p i i' : IQInv s -> heap (iqmem s) !! p = Some i -> p ∈ iqInsts (iq s) (threadNumber i) ->
  holds i = true -> holds i' = false -> (isMemRef i' = true -> memOpDone i' = true -> isIssued i' = true) ->
  CountInv (iqInsts (iq s)) (setHeap p i' (iqmem s))
    (<[threadNumber i := u32 (count (iq s) (threadNumber i) - 1)]> (count (iq s)))
    (u32 (freeEntries (iq s) + 1)) (iqEntries (iq s)).
Proof.
  intros HI Hi Hp Hh Hh' Hd. pose proof HI as [HW HC HR HU HE HQ HB].
  apply (CountInv_upd (iqInsts (iq s)) _ (iqmem s) _ _ _ _ HC (threadNumber i) (-1)).
  - destruct (decide (threadNumber i < MaxThreads)%nat); [done|].
    rewrite (ct_threads _ _ _ _ _ HC) in Hp by lia. by apply elem_of_nil in Hp.
  - rewrite !(used_at _ _ (threadNumber i)). rewrite (used_flip _ (iqmem s) _ p).
    + lia.
    + by eapply iq_NoDup.
    + done.
    + unfold holdsAt. by rewrite Hi.
    + unfold holdsAt. by rewrite setHeap_eq.
    + intros q Hne. unfold holdsAt. by rewrite setHeap_ne.
  - intros t Ht. apply used_ext; [done|]. intros q Hq. unfold holdsAt. rewrite setHeap_ne; [done|]. intros ->.
    destruct (wk_lookup _ _ _ _ _ _ _ HW Hq Hi) as [_ ?]. done.
  - apply HC.
  - pose proof (ct_range _ _ _ _ _ HC). lia.
  - intros q j Hq Hj. destruct (decide (q = p)) as [->|Hne].
    + rewrite setHeap_eq in Hj. by simplify_eq.
    + rewrite setHeap_ne in Hj by done. by apply (ct_done _ _ _ _ _ HC q).
Qed.

Lemma completeMem_ok s p i : IQInv s -> completing s p i -> isMemRef i = true ->
  exists s1, (s0 ← onUnit (threadNumber i) (completeInst p) s; onInst p (setFlag MemOpDone true) s0) = Ok s1 /\
    let s' := updIQ (fun q => q <| freeEntries := u32 (freeEntries q + 1) |>
                 <| count := <[threadNumber i := u32 (count q (threadNumber i) - 1)]> (count q) |>) s1 in
    IQInv s' /\ iqmem s' = setHeap p (setFlag MemOpDone true i) (iqmem s) /\ iqInsts (iq s') = iqInsts (iq s).
Proof.
  intros HI Hcp Hm. pose proof HI as [HW HC HR HU HE HQ HB]. pose proof Hcp as [Hi Hp Hmem _ _]. destruct (Hmem Hm) as [Hiss Hd].
  destruct (completeUnit_ok s p i HI Hcp) as (u' & out & r' & E & HM & Hfree & EW & Erep & Hout & HP).
  rewrite E. cbn [mbind res_bind]. rewrite (putInst_mem p _ (putUnit _ _ _ _ _) i Hi). eexists. split; [done|].
  set (i' := setFlag MemOpDone true i). assert (Hs : sameInst i i') by done.
  split; [|done]. split; cbn.
  - eapply WakeInv_setHeap; [done..|]. intros Ht. by apply (wk_issue _ _ _ _ HW p i).
  - eapply CountInv_release; try done.
    + unfold holds. by rewrite Hm, Hd.
    + unfold holds. change (isMemRef i') with (isMemRef i). by rewrite Hm.
  - eapply (ReadyInv_memFlag _ _ _ _ _ i); [|done..|].
    + apply (ReadyInv_pushMem _ _ (ready (iq s)) _ _ out); [done..|]. intros q j Hq Hj.
      destruct (Hout q Hq) as (j' & Hj' & Hmj & _). congruence.
    + intros sn Hn. destruct (rd_ns _ _ _ _ HR sn p Hn) as (j & Hj & _ & _ & _ & ? & _). congruence.
  - by apply (completed_unit s p i i' u' out r').
  - done.
  - eapply seqUniq_frame; [done..|by eapply setHeap_extends|done].
  - eapply memOnly_extends; [by eapply setHeap_extends|done].
Qed.

Lemma completeBarrier_ok s p i : IQInv s -> completing s p i -> isMemRef i = false ->
  exists u' r', onUnit (threadNumber i) (completeInst p) s = Ok (putUnit (threadNumber i) u' r' (iqmem s) s) /\
    IQInv (putUnit (threadNumber i) u' r' (iqmem s) s).
Proof.
  intros HI Hcp Hm. pose proof HI as [HW HC HR HU HE HQ HB]. pose proof Hcp as [Hi Hp _ _ _].
  destruct (completeUnit_ok s p i HI Hcp) as (u' & out & r' & E & HM & Hfree & EW & Erep & Hout & HP).
  exists u', r'. split; [done|]. split; cbn; [done|done| | |done|done|done].
  - apply (ReadyInv_pushMem _ _ (ready (iq s)) _ _ out); [done..|]. intros q j Hq Hj.
    destruct (Hout q Hq) as (j' & Hj' & Hmj & _). congruence.
  - pose proof (completed_unit s p i i u' out r' HI Hcp (sameInst_refl i)) as H.
    assert (Em : setHeap p i (iqmem s) = iqmem s).
    { unfold setHeap. rewrite insert_id by done. by destruct (iqmem s). }
    cbv zeta in H. rewrite Em in H. by apply H; [congruence|..].
Qed.

(** ** [wakeDependents] *)

(** An executed instruction that writes back. *)
Record writingBack (s : IQS) (p : InstPtr) (i : DynInst) : Prop := {
  wb_heap : heap (iqmem s) !! p = Some i;
  wb_live : p ∈ iqInsts (iq s) (threadNumber i);
  wb_squashed : isSquashed i = false;
  wb_unit : isMemRef i || isReadBarrier i || isWriteBarrier i = true -> completing s p i;
  wb_pins : pinsOK (mpins (iqmem s)) i
}.

Lemma wakeDependents_inv p i s : IQInv s -> writingBack s p i ->
  exists n s', InstQueue.wakeDependents p s = Ok (n, s') /\ IQInv s'.
Proof.
  intros HI [Hi Hp Hsq Hu Hpin]. unfold InstQueue.wakeDependents, getInst. rewrite Hi. cbn [deref mbind res_bind].
  rewrite Hsq. cbn [negb assertR mbind res_bind]. destruct (isMemRef i) eqn:Em.
  - destruct (completeMem_ok s p i HI (Hu eq_refl) Em) as (s1 & E & HI1 & Emem & Eins).
    destruct (onUnit _ _ s) as [s0| |]; try done. cbn [mbind res_bind] in E |- *. rewrite E. cbn [mbind res_bind].
    eapply (wakeRegs_ok p (destIdx i)); [exact HI1| |done]. exists (setFlag MemOpDone true i). rewrite Emem, Eins.
    split_and!; [apply setHeap_eq|done|done|done].
  - assert (Hw : waking s p (destIdx i)) by (by exists i).
    destruct (isReadBarrier i || isWriteBarrier i) eqn:Eb.
    + destruct (completeBarrier_ok s p i HI (Hu Eb) Em) as (u' & r' & E & HI1). rewrite E. cbn [mbind res_bind].
      by eapply (wakeRegs_ok p (destIdx i)).
    + by eapply (wakeRegs_ok p (destIdx i)).
Qed.
