(* ===== verification/InstQueueSquash.v ===== *)
(** * Commit and squash in the instruction queue *)

From stdpp Require Import base numbers list gmap functions sorting.
From S2P Require Import Prelude Regs DynInst ROB TimeBuffer StoreSet FUPool MemDep MemDepSpec MemDepProps InstQueueUnit DepGraph ReadyList InstQueue InstQueueSpec InstQueueWake InstQueueInv InstQueueOps InstQueueInsert InstQueueWakeup.

#[local] Open Scope Z_scope.

(** The invariant with other lists of instructions than those of the state, as it
    is while a list is cut. *)
Record IQInvOn (insts : ThreadID -> list InstPtr) (s : IQS) : Prop := {
  on_wake : WakeInv insts (iqmem s) (dependGraph (iq s)) (regScoreboard (iq s));
  on_count : CountInv insts (iqmem s) (count (iq s)) (freeEntries (iq s)) (iqEntries (iq s));
  on_ready : ReadyInv insts (iqmem s) (ready (iq s)) (nonSpecInsts (iq s));
  on_unit : UnitInv insts (iqmem s) (memDepUnit (iq s)) (iqMisses s)
    (handedBy (ready (iq s)) (memLists (iq s)) (memDepUnit (iq s)) insts (iqmem s));
  on_exec : ExecInv (fuPool (iq s)) (events s) (issueToExecute (iq s));
  on_uniq : seqUniq insts (iqmem s);
  on_lists : memOnly (memLists (iq s)) (iqmem s)
}.

Lemma IQInvOn_self s : IQInv s <-> IQInvOn (iqInsts (iq s)) s.
Proof. split; intros []; by split. Qed.

(** ** Instructions that hold no entry leave *)

Lemma ReadyInv_drop insts insts' m r ns : ReadyInv insts m r ns ->
  (forall t p, p ∈ insts' t -> p ∈ insts t) ->
  (forall p i, heap m !! p = Some i -> p ∈ insts (threadNumber i) -> p ∉ insts' (threadNumber i) -> isIssued i = true) ->
  ReadyInv insts' m r ns.
Proof.
  intros [H1 H2 H3] Hsub Hiss. split; [done|..].
  - intros p i Hi Hm Hsq. destruct (H2 p i Hi Hm Hsq) as [R1 R2 R3]. split; [|done|].
    + intros c Hc. destruct (R1 c Hc) as (L & K1 & K2). split; [|done].
      destruct (decide (p ∈ insts' (threadNumber i))); [done|]. by rewrite (Hiss p i) in K1.
    + intros L. by apply R3, Hsub.
  - intros sn p Hn. destruct (H3 sn p Hn) as (i & Hi & E1 & L & E3 & E4 & E5). exists i. do 2 (split; [done|]). split; [|done].
    destruct (decide (p ∈ insts' (threadNumber i))); [done|]. by rewrite (Hiss p i) in E4.
Qed.

Lemma handedBy_sub r l units insts insts' m p : (forall t p, p ∈ insts' t -> p ∈ insts t) ->
  handedBy r l units insts' m p -> handedBy r l units insts m p.
Proof.
  intros Hsub [H|[H|[H|(i & Hi & Hp & K)]]]; [by left|by right; left|by right; right; left|].
  do 3 right. exists i. split_and!; [done|by apply Hsub|done].
Qed.

(** An instruction without an entry has issued. *)
Lemma noHold_issued insts m count free entries p i : CountInv insts m count free entries ->
  p ∈ insts (threadNumber i) -> heap m !! p = Some i -> holds i = false -> isIssued i = true.
Proof.
  intros HC Hp Hi. unfold holds. destruct (isMemRef i) eqn:Em; intros H; apply negb_false_iff in H; [|done].
  by apply (ct_done _ _ _ _ _ HC p).
Qed.

Lemma noHold_absent insts m g sb count free entries p i f : WakeInv insts m g sb -> CountInv insts m count free entries ->
  p ∈ insts (threadNumber i) -> heap m !! p = Some i -> holds i = false -> 0 <= f -> p ∉ chainAt g f.
Proof.
  intros HW HC Hp Hi Hh Hf. eapply wk_absent; [done..| |done]. intros Ht.
  apply (wk_issue _ _ _ _ HW p i Hp Hi Ht). right. by eapply noHold_issued.
Qed.

Lemma IQInvOn_drop insts insts' s : IQInvOn insts s ->
  (forall t, insts' t `sublist_of` insts t) ->
  (forall t p, p ∈ insts t -> p ∉ insts' t -> holdsAt (iqmem s) p = false) -> IQInvOn insts' s.
Proof.
  intros [HW HC HR HU HE HQ HB] Hsub Hno.
  assert (Hin : forall t p, p ∈ insts' t -> p ∈ insts t).
  { intros t p Hp. eapply elem_of_submseteq; [done|]. by apply sublist_submseteq. }
  assert (Hno' : forall p i, heap (iqmem s) !! p = Some i -> p ∈ insts (threadNumber i) -> p ∉ insts' (threadNumber i) -> holds i = false).
  { intros p i Hi Hp Hn. specialize (Hno _ _ Hp Hn). unfold holdsAt in Hno. by rewrite Hi in Hno. }
  split; [..|done| |done].
  - apply (WakeInv_drop insts insts' (iqmem s) (iqmem s) (dependGraph (iq s))); try done.
    intros f q Hf Hq. split; [done|]. destruct (wk_chain _ _ _ _ HW f q Hf Hq) as (i & Hi & Hp & _).
    exists (threadNumber i). destruct (decide (q ∈ insts' (threadNumber i))); [done|]. exfalso.
    by apply (noHold_absent _ _ _ _ _ _ _ q i f HW HC Hp Hi (Hno' _ _ Hi Hp n) Hf).
  - apply (CountInv_same insts _ (iqmem s)); [done|..].
    + intros t. rewrite (used_at insts'), (used_at insts). specialize (Hno t). revert Hno. generalize (Hsub t).
      pose proof (iq_NoDup _ _ _ _ t HW) as Hnd. revert Hnd. generalize (insts t) (insts' t). clear. intros l l' Hnd Hs.
      induction Hs as [|x l' l Hs IH|x l' l Hs IH]; intros Hno; [done| |].
      * apply list_relations.list.NoDup_cons in Hnd as [Hx Hnd]. rewrite !used_cons, IH; [done|done|].
        intros p Hp Hn. apply Hno; [by right|]. intros [->|?]%elem_of_cons; done.
      * apply list_relations.list.NoDup_cons in Hnd as [Hx Hnd]. rewrite used_cons, IH; [|done|].
        -- rewrite Hno; [lia|by left|]. intros Hx'. apply Hx. eapply elem_of_submseteq; [done|]. by apply sublist_submseteq.
        -- intros p Hp Hn. apply Hno; [by right|done].
    + intros t Ht. specialize (Hsub t). rewrite (ct_threads _ _ _ _ _ HC) in Hsub by done. by apply sublist_nil_r in Hsub.
    + intros p i Hp. by apply (ct_done _ _ _ _ _ HC p), Hin.
  - eapply ReadyInv_drop; [done..|]. intros p i Hi Hp Hn. eapply noHold_issued; [done..|by apply Hno' with p].
  - eapply UnitInv_frame; [done|apply extends_refl|..].
    + intros p i Hp Hi _ Hd. exists i. split_and!; [done|by apply Hin|done|done].
    + intros p Hp. left. by eapply handedBy_sub.
  - intros t t' p q Hp Hq. by apply (HQ t t'); apply Hin.
Qed.

(** ** [commit] *)

Lemma commitLoop_ok m n l : Forall (fun p => is_Some (heap m !! p)) l ->
  StronglySorted (fun p q => seqOf m p < seqOf m q) l ->
  exists l1 l2, commitLoop m n l = Ok l2 /\ l = l1 ++ l2 /\
    (forall p, p ∈ l1 -> seqOf m p <= n) /\ (forall p, p ∈ l2 -> n < seqOf m p).
Proof.
  intros Hl Hs. induction Hs as [|p l Hs IH Hp]; [by exists [], []; split_and!; [done..|intros p ?%elem_of_nil|intros p ?%elem_of_nil]|].
  apply Forall_cons in Hl as [[i Hi] Hl]. cbn [commitLoop]. unfold getInst. rewrite Hi. cbn [deref mbind res_bind].
  assert (Es : seqOf m p = seqNum i) by (unfold seqOf; by rewrite Hi).
  destruct (Z.leb_spec (seqNum i) n).
  - destruct (IH Hl) as (l1 & l2 & E & -> & H1 & H2). exists (p :: l1), l2. split_and!; [done|done| |done].
    intros q [->|Hq]%elem_of_cons; [lia|by apply H1].
  - exists [], (p :: l). split_and!; [done..|by intros q ?%elem_of_nil|].
    rewrite list_relations.list.Forall_forall in Hp. intros q [->|Hq]%elem_of_cons; [lia|]. specialize (Hp _ Hq). lia.
Qed.

(** What the instructions that commit have done. *)
Lemma commit_inv n tid s : IQInv s ->
  (forall p, p ∈ iqInsts (iq s) tid -> seqOf (iqmem s) p <= n -> holdsAt (iqmem s) p = false) ->
  exists s', InstQueue.commit n tid s = Ok s' /\ IQInv s' /\
    iqInsts (iq s') = <[tid := filter (fun p => n < seqOf (iqmem s) p) (iqInsts (iq s) tid)]> (iqInsts (iq s)).
Proof.
  intros HI Hno. pose proof (iv_wake _ HI) as HW. unfold InstQueue.commit.
  destruct (commitLoop_ok (iqmem s) n (iqInsts (iq s) tid)) as (l1 & l2 & E & El & H1 & H2); [|apply HW|].
  { apply list_relations.list.Forall_forall. intros p Hp. destruct (wk_inst _ _ _ _ HW _ _ Hp) as (i & Hi & _). by exists i. }
  rewrite E. cbn [mbind res_bind].
  assert (HI' : IQInv (updIQ (fun q => q <| iqInsts := <[tid := l2]> (iqInsts q) |>) s)).
  { apply IQInvOn_self. cbn. pose proof (proj1 (IQInvOn_self s) HI) as HO.
    assert (HD : IQInvOn (<[tid := l2]> (iqInsts (iq s))) s).
    { apply (IQInvOn_drop (iqInsts (iq s))); [done|..].
      - intros t. destruct (decide (t = tid)) as [->|Hne]; [rewrite fn_lookup_insert, El; by apply sublist_inserts_l|].
        by rewrite fn_lookup_insert_ne.
      - intros t p Hp Hn. destruct (decide (t = tid)) as [->|Hne].
        + rewrite fn_lookup_insert in Hn. apply Hno; [done|]. rewrite El in Hp. apply elem_of_app in Hp as [Hp|Hp]; [|done]. by apply H1.
        + by rewrite fn_lookup_insert_ne in Hn. }
    destruct HD. by split. }
  eexists. split; [exact (checkCount_inv _ HI')|]. split; [done|]. cbn. f_equal. rewrite El, list_basics.list.filter_app.
  rewrite (filter_all _ l2), (filter_none _ l1); [done|intros p Hp|done]. specialize (H1 p Hp). lia.
Qed.

(** ** One squashed instruction *)

(** What a squash needs of an instruction that still holds its entry and is not in
    the graph: it waits for commit, or has a fault, or is a memory instruction.
    This is the assertion of [doSquash] on [getFault] and [isMemRef]. *)
Definition squashOK (ns : gmap Z InstPtr) (i : DynInst) : Prop :=
  holds i = true -> tracked i = false ->
  if isStoreConditional i && isCompleted i then ns !! seqNum i = None
  else is_Some (ns !! seqNum i) \/ fault i <> NoFault \/ isMemRef i = true.

(** The instruction once it is squashed. *)
Definition squashedInIQ (i : DynInst) : DynInst :=
  setStatus IqEntry false (setStatus CanCommit true (setStatus Issued true (setSquashedInIQ i))).

Section SquashOne.
Context (insts : ThreadID -> list InstPtr) (s : IQS) (p : InstPtr) (i : DynInst) (l : list InstPtr).
Hypothesis HO : IQInvOn insts s.
Hypothesis Hi : heap (iqmem s) !! p = Some i.
Hypothesis Hl : insts (threadNumber i) = l ++ [p].

Abbreviation T := (threadNumber i).
Abbreviation insts' := (<[threadNumber i := l]> insts).

Lemma sqIQ_live : p ∈ insts T.
Proof. rewrite Hl. set_solver. Qed.

Lemma sq_sub t q : q ∈ insts' t -> q ∈ insts t /\ q <> p.
Proof.
  pose proof (iq_NoDup _ _ _ _ T (on_wake _ _ HO)) as Hnd. rewrite Hl in Hnd.
  apply list_relations.list.NoDup_app in Hnd as (_ & Hd & _). destruct (decide (t = T)) as [->|Hne].
  - rewrite fn_lookup_insert, Hl. intros Hq. split; [set_solver|]. intros ->. apply (Hd p Hq). by left.
  - rewrite fn_lookup_insert_ne by done. intros Hq. split; [done|]. intros ->.
    destruct (wk_lookup _ _ _ _ _ _ _ (on_wake _ _ HO) Hq Hi) as [_ ?]. done.
Qed.

Lemma sq_sub_iff t q : q <> p -> q ∈ insts' t <-> q ∈ insts t.
Proof.
  intros Hne. destruct (decide (t = T)) as [->|Hne'].
  - rewrite fn_lookup_insert, Hl, elem_of_app, list_elem_of_singleton. tauto.
  - by rewrite fn_lookup_insert_ne.
Qed.

Lemma sq_sublist t : insts' t `sublist_of` insts t.
Proof.
  destruct (decide (t = T)) as [->|Hne]; [rewrite fn_lookup_insert, Hl; by apply sublist_inserts_r|].
  by rewrite fn_lookup_insert_ne.
Qed.

(** The instruction is in no list of the graph when it leaves. *)
Lemma sq_wake g' i' : length (graph g') = length (graph (dependGraph (iq s))) ->
  graphEntries g' = graphEntries (dependGraph (iq s)) ->
  (forall f, 0 <= f < Z.of_nat (length (regScoreboard (iq s))) -> (p ∉ chainAt g' f) /\
     exists n, chainAt (dependGraph (iq s)) f ≡ₚ replicate n p ++ chainAt g' f) ->
  WakeInv insts' (setHeap p i' (iqmem s)) g' (regScoreboard (iq s)).
Proof.
  intros L1 L2 Hch. pose proof (on_wake _ _ HO) as HW. destruct (wk_len _ _ _ _ HW) as [HL _].
  assert (Hout : forall f, 0 <= f -> ~ f < Z.of_nat (length (regScoreboard (iq s))) -> chainAt g' f = []).
  { intros f Hf Hn. unfold chainAt. rewrite lookup_ge_None_2; [done|]. lia. }
  apply (WakeInv_drop insts _ (iqmem s) _ (dependGraph (iq s))); [done|apply sq_sublist| |done|..].
  - intros t q Hq. rewrite setHeap_ne; [done|]. by apply sq_sub in Hq as [_ ?].
  - intros f q Hf Hq. destruct (decide (f < Z.of_nat (length (regScoreboard (iq s))))) as [Hr|Hr].
    2: { rewrite Hout in Hq by done. by apply elem_of_nil in Hq. }
    destruct (Hch f) as [Hn [n HP]]; [lia|].
    assert (Hq' : q ∈ chainAt (dependGraph (iq s)) f) by (rewrite HP; set_solver). split; [done|].
    destruct (wk_chain _ _ _ _ HW f q Hf Hq') as (j & Hj & Hin & _). exists (threadNumber j).
    apply sq_sub_iff; [by intros ->|done].
  - intros f t q Hf [Hq Hne]%sq_sub. destruct (decide (f < Z.of_nat (length (regScoreboard (iq s))))) as [Hr|Hr].
    + destruct (Hch f) as [Hn [n HP]]; [lia|]. rewrite (occ_perm _ _ _ HP), occ_app, occ_replicate, decide_False by congruence. lia.
    + rewrite Hout by done. unfold chainAt. rewrite lookup_ge_None_2; [done|]. lia.
Qed.

Lemma sq_uniq i' : sameInst i i' -> seqUniq insts' (setHeap p i' (iqmem s)).
Proof.
  intros Hs. eapply seqUniq_frame; [apply HO|apply HO|by eapply setHeap_extends|]. by intros t q [? _]%sq_sub.
Qed.

Lemma sq_unit i' ns' : sameInst i i' ->
  (forall q j, q <> p -> heap (iqmem s) !! q = Some j -> q ∈ insts (threadNumber j) ->
    ns' !! seqNum j = nonSpecInsts (iq s) !! seqNum j) ->
  UnitInv insts' (setHeap p i' (iqmem s)) (memDepUnit (iq s)) (misses (regScoreboard (iq s)) ns')
    (handedBy (ready (iq s)) (memLists (iq s)) (memDepUnit (iq s)) insts' (setHeap p i' (iqmem s))).
Proof.
  intros Hs Hns. eapply UnitInv_frame; [apply HO|by eapply setHeap_extends|..].
  - intros q j [Hq Hne]%sq_sub Hj Hm Hd. rewrite setHeap_ne in Hj by done. exists j. split_and!; [done..|].
    apply missKept_eq, misses_eq; [apply sameInst_refl|done|by rewrite (Hns q j)].
  - intros q [H|[H|[H|(j & Hj & [Hq Hne]%sq_sub & K)]]]; left; [by left|by right; left|by right; right; left|].
    do 3 right. rewrite setHeap_ne in Hj by done. by exists j.
Qed.

(** An instruction without an entry just leaves. *)
Lemma sq_done : holds i = false -> IQInvOn insts' s.
Proof.
  intros Hh. apply (IQInvOn_drop insts); [done|apply sq_sublist|]. intros t q Hq Hn.
  destruct (decide (q = p)) as [->|Hne]; [unfold holdsAt; by rewrite Hi|]. by rewrite sq_sub_iff in Hn.
Qed.

Lemma sq_count : holds i = true -> CountInv insts' (setHeap p (squashedInIQ i) (iqmem s))
  (<[T := u32 (count (iq s) T - 1)]> (count (iq s))) (u32 (freeEntries (iq s) + 1)) (iqEntries (iq s)).
Proof.
  intros Hh. pose proof (on_count _ _ HO) as HC. pose proof sqIQ_live as Hp.
  assert (Hmem : forall q, q <> p -> holdsAt (setHeap p (squashedInIQ i) (iqmem s)) q = holdsAt (iqmem s) q).
  { intros q Hne. unfold holdsAt. by rewrite setHeap_ne. }
  apply (CountInv_upd insts _ (iqmem s) _ _ _ _ HC T (-1)).
  - destruct (decide (T < MaxThreads)%nat); [done|]. rewrite (ct_threads _ _ _ _ _ HC) in Hp by lia. by apply elem_of_nil in Hp.
  - rewrite !(used_at _ _ T). rewrite fn_lookup_insert, Hl, used_app, used_cons.
    rewrite (used_mem l (iqmem s)).
    + unfold holdsAt at 1. rewrite Hi, Hh. unfold used at 3. cbn. lia.
    + intros q Hq. apply Hmem. apply (sq_sub T). by rewrite fn_lookup_insert.
  - intros t Hne. apply used_ext; [by rewrite fn_lookup_insert_ne|]. intros q Hq. apply Hmem. intros ->.
    destruct (wk_lookup _ _ _ _ _ _ _ (on_wake _ _ HO) Hq Hi) as [_ ?]. done.
  - intros t Ht. pose proof (sq_sublist t) as Hs. rewrite (ct_threads _ _ _ _ _ HC) in Hs by done. by apply sublist_nil_r in Hs.
  - pose proof (ct_range _ _ _ _ _ HC). lia.
  - intros q j [Hq Hne]%sq_sub Hj. rewrite setHeap_ne in Hj by done. by apply (ct_done _ _ _ _ _ HC q).
Qed.

(** Nothing of it is left among those that wait for commit. *)
Lemma sq_ready ns' : (forall q j, q <> p -> heap (iqmem s) !! q = Some j -> q ∈ insts (threadNumber j) ->
    ns' !! seqNum j = nonSpecInsts (iq s) !! seqNum j) ->
  (forall sn q, ns' !! sn = Some q -> nonSpecInsts (iq s) !! sn = Some q /\ q <> p) ->
  ReadyInv insts' (setHeap p (squashedInIQ i) (iqmem s)) (ready (iq s)) ns'.
Proof.
  intros Hns Hsub. pose proof (on_ready _ _ HO) as HR.
  apply (ReadyInv_at insts _ _ p _ (ready (iq s)) _ (nonSpecInsts (iq s))); try done.
  - by exists i.
  - eapply RLInv_extends; [by eapply (setHeap_extends p i)|apply HR].
  - intros q j Hne _. by apply sq_sub_iff.
  - intros q j Hne Hj _ Hq. by rewrite (Hns q j).
  - intros sn q [Hq _]%Hsub _. done.
  - intros sn [_ ?]%Hsub. done.
Qed.

End SquashOne.

(** What the squash of one instruction leaves alone. *)
Record squashFrame (insts : ThreadID -> list InstPtr) (s s' : IQS) : Prop := {
  sf_insts : iqInsts (iq s') = iqInsts (iq s);
  sf_units : memDepUnit (iq s') = memDepUnit (iq s);
  sf_sb : regScoreboard (iq s') = regScoreboard (iq s);
  sf_num : iqSquashedSeqNum (iq s') = iqSquashedSeqNum (iq s);
  sf_mem : extends (iqmem s) (iqmem s');
  sf_live : forall t p, p ∈ insts t -> heap (iqmem s') !! p = heap (iqmem s) !! p;
  sf_ns : forall t p, p ∈ insts t -> nonSpecInsts (iq s') !! seqOf (iqmem s) p = nonSpecInsts (iq s) !! seqOf (iqmem s) p
}.

Lemma squashFrame_trans insts insts' s1 s2 s3 : (forall t p, p ∈ insts' t -> p ∈ insts t) ->
  squashFrame insts s1 s2 -> squashFrame insts' s2 s3 -> squashFrame insts' s1 s3.
Proof.
  intros Hsub [A1 A2 A0 A3 A4 A5 A6] [B1 B2 B0 B3 B4 B5 B6]. split; [congruence..|by eapply extends_trans| |].
  - intros t p Hp. rewrite (B5 t p Hp). by apply (A5 t), Hsub.
  - intros t p Hp. rewrite <- (A6 t p) by by apply Hsub. specialize (B6 t p Hp). revert B6. unfold seqOf.
    by rewrite (A5 t p) by by apply Hsub.
Qed.

(** ** The registers it writes *)

Lemma clearDests_ok l : forall s, length (graph (dependGraph (iq s))) = length (regScoreboard (iq s)) -> Forall is_Some l ->
  (forall f, f ∈ omap destFlat l -> 0 <= f < Z.of_nat (length (regScoreboard (iq s))) /\ chainAt (dependGraph (iq s)) f = []) ->
  exists g', foldR clearDest s l = Ok (s <| iq := iq s <| dependGraph := g' |> |>) /\ chainsKept (dependGraph (iq s)) g'.
Proof.
  induction l as [|o l IH]; intros s HL Hl Hf; cbn [foldR].
  { exists (dependGraph (iq s)). split; [by destruct s as [[] ? ? ?]|done]. }
  apply Forall_cons_1 in Hl as [[r ->] Hl]. unfold clearDest at 2. cbn [deref mbind res_bind]. cbn [omap list_omap destFlat] in Hf.
  destruct (isFixedMapping r); cbn [mbind res_bind]; [by apply IH|].
  destruct (Hf (flatIndex r)) as [Hr Hc]; [by left|].
  rewrite emptyAt_ok by (unfold inGraph; lia). rewrite Hc. cbn [mbind res_bind]. rewrite bool_decide_eq_true_2 by done. cbn [mbind res_bind].
  destruct (clearInst_ok (flatIndex r) s HL Hr) as (g1 & -> & K1 & K2 & K3). cbn [mbind res_bind].
  destruct (IH (s <| iq := iq s <| dependGraph := g1 |> |>)) as (g2 & E & J1 & J2 & J3); [cbn; lia|done| |].
  { intros f Hin. destruct (Hf f) as [? Hcf]; [by right|]. cbn. split; [done|]. rewrite K3 by lia. done. }
  exists g2. split; [exact E|]. cbn in J1, J2, J3. split_and!; [lia|lia|]. intros f' Hf'. by rewrite J3, K3.
Qed.

Section SquashStep.
Context (insts : ThreadID -> list InstPtr) (s : IQS) (p : InstPtr) (i : DynInst) (l : list InstPtr).
Hypothesis HO : IQInvOn insts s.
Hypothesis Hi : heap (iqmem s) !! p = Some i.
Hypothesis Hl : insts (threadNumber i) = l ++ [p].
Abbreviation insts' := (<[threadNumber i := l]> insts).

Definition emptyDests (g : DependencyGraph) : Prop := forall f, f ∈ destFlats i -> chainAt g f = [].

(** The entry is given back, with graph [g'] and map [ns']. *)
Lemma sq_put g' ns' s1 : holds i = true ->
  s1 = s <| iq := iq s <| dependGraph := g' |> <| nonSpecInsts := ns' |> |> ->
  length (graph g') = length (graph (dependGraph (iq s))) -> graphEntries g' = graphEntries (dependGraph (iq s)) ->
  (forall f, 0 <= f < Z.of_nat (length (regScoreboard (iq s))) -> (p ∉ chainAt g' f) /\
     exists n, chainAt (dependGraph (iq s)) f ≡ₚ replicate n p ++ chainAt g' f) ->
  (forall q j, q <> p -> heap (iqmem s) !! q = Some j -> q ∈ insts (threadNumber j) ->
    ns' !! seqNum j = nonSpecInsts (iq s) !! seqNum j) ->
  (forall sn q, ns' !! sn = Some q -> nonSpecInsts (iq s) !! sn = Some q /\ q <> p) ->
  exists s', (s ← onInst p (fun i => setStatus IqEntry false (setStatus CanCommit true
                              (setStatus Issued true (setSquashedInIQ i)))) s1;
              Ok (updIQ (fun q => q <| count := <[threadNumber i := u32 (count q (threadNumber i) - 1)]> (count q) |>
                        <| freeEntries := u32 (freeEntries q + 1) |>) s)) = Ok s' /\
    IQInvOn insts' s' /\ squashFrame insts' s s' /\ emptyDests (dependGraph (iq s')).
Proof.
  intros Hh -> L1 L2 Hch Hns Hsub. erewrite (putInst_mem p); [|exact Hi]. cbn [mbind res_bind]. eexists. split; [reflexivity|].
  assert (Hsame : sameInst i (squashedInIQ i)) by by split_and!.
  split; [|split].
  - split.
    + exact (sq_wake insts s p i l HO Hi Hl g' _ L1 L2 Hch).
    + exact (sq_count insts s p i l HO Hi Hl Hh).
    + exact (sq_ready insts s p i l HO Hi Hl ns' Hns Hsub).
    + exact (sq_unit insts s p i l HO Hi Hl _ ns' Hsame Hns).
    + exact (on_exec _ _ HO).
    + exact (sq_uniq insts s p i l HO Hi Hl _ Hsame).
    + eapply memOnly_extends; [by eapply (setHeap_extends p i)|apply HO].
  - split; [done..| | |].
    + by eapply (setHeap_extends p i).
    + intros t q [_ Hne]%(sq_sub insts s p i l HO Hi Hl). by apply setHeap_ne.
    + intros t q [Hq Hne]%(sq_sub insts s p i l HO Hi Hl). unfold seqOf.
      destruct (wk_inst _ _ _ _ (on_wake _ _ HO) _ _ Hq) as (j & Hj & <- & _). rewrite Hj. by apply (Hns q).
  - intros f Hf. pose proof (wk_youngest _ _ _ _ _ _ _ f (on_wake _ _ HO) Hi Hl Hf) as E.
    destruct (wk_inst _ _ _ _ (on_wake _ _ HO) _ _ (sqIQ_live insts s p i l HO Hi Hl)) as (j & Hj & _ & _ & Hok).
    assert (j = i) as -> by congruence.
    destruct (Hch f) as [_ [n HP]]; [apply (rg_range _ _ Hok); by right|]. rewrite E in HP.
    apply Permutation_nil in HP. by apply app_eq_nil in HP as [_ ?].
Qed.

(** Its entry in the map of non-speculative instructions, if it has one. *)
Lemma sq_nsOff q j : q <> p -> heap (iqmem s) !! q = Some j -> q ∈ insts (threadNumber j) -> seqNum i <> seqNum j.
Proof.
  intros Hne Hj Hq E. apply Hne. apply (on_uniq _ _ HO (threadNumber j) (threadNumber i)); [done|by eapply sqIQ_live|].
  unfold seqOf. by rewrite Hi, Hj.
Qed.

Lemma sq_nsAt sn : nonSpecInsts (iq s) !! sn = Some p -> tracked i = false /\ sn = seqNum i.
Proof.
  intros Hn. destruct (rd_ns _ _ _ _ (on_ready _ _ HO) _ _ Hn) as (j & Hj & E & _ & Ht & _).
  assert (j = i) as -> by congruence. done.
Qed.

(** An instruction that waits gives its entry back. *)
Lemma squashWaiting_ok : holds i = true -> squashOK (nonSpecInsts (iq s)) i ->
  exists s', squashWaiting p i s = Ok s' /\ IQInvOn insts' s' /\ squashFrame insts' s s' /\ emptyDests (dependGraph (iq s')).
Proof.
  intros Hh Hok. pose proof (on_wake _ _ HO) as HW. pose proof (sqIQ_live insts s p i l HO Hi Hl) as Hp.
  destruct (wk_inst _ _ _ _ HW _ _ Hp) as (j & Hj & _ & _ & Hregs). assert (j = i) as -> by congruence.
  assert (Hself : forall q j, q <> p -> heap (iqmem s) !! q = Some j -> q ∈ insts (threadNumber j) ->
            nonSpecInsts (iq s) !! seqNum j = nonSpecInsts (iq s) !! seqNum j) by done.
  unfold squashWaiting. destruct (tracked i) eqn:Et.
  - destruct (wk_len _ _ _ _ HW) as [HL _].
    destruct (removeSrcs_ok p i (regScoreboard (iq s)) (numSrcRegs i) 0 s) as (g' & -> & L1 & L2 & Hch);
      [done|done|done|done|apply HW| |].
    { intros f Hf Hb. rewrite drop_0. by apply (wk_count _ _ _ _ HW). }
    cbn [mbind res_bind]. apply (sq_put g' (nonSpecInsts (iq s))); try done.
    intros sn q Hn. split; [done|]. intros ->. apply sq_nsAt in Hn as [? _]. congruence.
  - assert (Hout : forall f, 0 <= f < Z.of_nat (length (regScoreboard (iq s))) -> (p ∉ chainAt (dependGraph (iq s)) f) /\
        exists n, chainAt (dependGraph (iq s)) f ≡ₚ replicate n p ++ chainAt (dependGraph (iq s)) f).
    { intros f Hf. split; [|by exists 0%nat]. eapply wk_absent; [done..| |lia]. congruence. }
    specialize (Hok Hh Et).
    destruct (isStoreConditional i && isCompleted i) eqn:Ec.
    { apply andb_true_iff in Ec as [-> ->]. cbn [negb orb mbind res_bind].
      apply (sq_put (dependGraph (iq s)) (nonSpecInsts (iq s))); try done; [by destruct s as [[] ? ? ?]|].
      intros sn q Hn. split; [done|]. intros ->. pose proof (sq_nsAt _ Hn) as [_ ->]. congruence. }
    assert (negb (isStoreConditional i) || negb (isCompleted i) = true) as -> by (destruct (isStoreConditional i), (isCompleted i); done).
    destruct (nonSpecInsts (iq s) !! seqNum i) as [q0|] eqn:En; cbn [mbind res_bind].
    + apply (sq_put (dependGraph (iq s)) (delete (seqNum i) (nonSpecInsts (iq s)))); try done.
      * intros q j Hne Hj' Hq. apply lookup_delete_ne. by eapply sq_nsOff.
      * intros sn q [Hne Hn]%lookup_delete_Some. split; [done|]. intros ->. pose proof (sq_nsAt _ Hn) as [_ ->]. done.
    + assert (negb (bool_decide (fault i = NoFault)) || isMemRef i = true) as ->.
      { destruct Hok as [[? ?]|[Hf|Hm]]; [done| |by rewrite Hm, orb_true_r]. by rewrite bool_decide_eq_false_2. }
      cbn [mbind res_bind]. apply (sq_put (dependGraph (iq s)) (nonSpecInsts (iq s))); try done; [by destruct s as [[] ? ? ?]|].
      intros sn q Hn. split; [done|]. intros ->. pose proof (sq_nsAt _ Hn) as [_ ->]. congruence.
Qed.

(** Whether it waits, in the words of the code. *)
Lemma sq_test : negb (isIssued i) || (isMemRef i && negb (memOpDone i)) = holds i.
Proof.
  unfold holds. destruct (isMemRef i) eqn:Em; cbn; [|by rewrite orb_false_r]. destruct (memOpDone i) eqn:Ed; cbn; [|by rewrite orb_true_r].
  by rewrite (ct_done _ _ _ _ _ (on_count _ _ HO) p i (sqIQ_live insts s p i l HO Hi Hl) Hi Em Ed).
Qed.

Lemma IQInvOn_kept s1 g' : IQInvOn insts' s1 -> chainsKept (dependGraph (iq s1)) g' ->
  IQInvOn insts' (s1 <| iq := iq s1 <| dependGraph := g' |> |>).
Proof. intros [H1 H2 H3 H4 H5 H6 H7] HK. split; [|done..]. by apply (WakeInv_kept _ _ (dependGraph (iq s1))). Qed.

Lemma squashStep_ok : squashOK (nonSpecInsts (iq s)) i ->
  exists s', (s ← (if negb (isIssued i) || (isMemRef i && negb (memOpDone i)) then squashWaiting p i s else Ok s);
              foldR clearDest s (destIdx i)) = Ok s' /\ IQInvOn insts' s' /\ squashFrame insts' s s'.
Proof.
  intros Hok. rewrite sq_test.
  assert (exists s1, (if holds i then squashWaiting p i s else Ok s) = Ok s1 /\ IQInvOn insts' s1 /\
            squashFrame insts' s s1 /\ emptyDests (dependGraph (iq s1))) as (s1 & -> & HO1 & HF & He).
  { destruct (holds i) eqn:Eh; [by apply squashWaiting_ok|]. exists s. split; [done|]. split; [by apply (sq_done insts s p i l)|].
    split; [split; try done; apply extends_refl|]. intros f Hf. by eapply wk_youngest; [apply HO|..]. }
  cbn [mbind res_bind]. destruct (wk_inst _ _ _ _ (on_wake _ _ HO) _ _ (sqIQ_live insts s p i l HO Hi Hl)) as (j & Hj & _ & _ & Hregs).
  assert (j = i) as -> by congruence. destruct (wk_len _ _ _ _ (on_wake _ _ HO1)) as [HL1 _].
  assert (HLs : length (regScoreboard (iq s1)) = length (regScoreboard (iq s))).
  { by rewrite (sf_sb _ _ _ HF). }
  destruct (clearDests_ok (destIdx i) s1 HL1) as (g' & -> & HK); [apply Hregs| |].
  { intros f Hf. rewrite HLs. split; [apply (rg_range _ _ Hregs); by right|by apply He]. }
  eexists. split; [done|]. split; [by apply IQInvOn_kept|]. destruct HF. by split.
Qed.
End SquashStep.

(** ** The loop *)

Lemma IQInvOn_ext insts insts' s : (forall t, insts' t = insts t) -> IQInvOn insts s -> IQInvOn insts' s.
Proof.
  intros HE HO. apply (IQInvOn_drop insts); [done|intros t; by rewrite HE|]. intros t p Hp Hn. by rewrite HE in Hn.
Qed.

Lemma squashFrame_sub insts insts' s s' : (forall t p, p ∈ insts' t -> p ∈ insts t) ->
  squashFrame insts s s' -> squashFrame insts' s s'.
Proof. intros Hsub [A1 A2 A0 A3 A4 A5 A6]. split; try done; intros t p Hp; eauto. Qed.

Lemma squashFrame_refl insts s : squashFrame insts s s.
Proof. split; try done. apply extends_refl. Qed.

Lemma filter_sorted_all m n (l : list InstPtr) p : StronglySorted (fun p q => seqOf m p < seqOf m q) (l ++ [p]) ->
  seqOf m p <= n -> filter (fun q => seqOf m q <= n) (l ++ [p]) = l ++ [p].
Proof.
  intros Hs Hp. apply filter_all. intros q [Hq| ->%list_elem_of_singleton]%elem_of_app; [|done].
  pose proof (StronglySorted_app_1_elem_of _ _ _ q p Hs Hq (list_elem_of_here _ _)) as H. cbn in H. lia.
Qed.

Lemma insert_self (insts : ThreadID -> list InstPtr) tid l t : insts tid = l -> (<[tid := l]> insts) t = insts t.
Proof.
  intros <-. destruct (decide (t = tid)) as [->|Hne]; [by rewrite fn_lookup_insert|by rewrite fn_lookup_insert_ne].
Qed.

Lemma insert_over (insts : ThreadID -> list InstPtr) tid l l' t : (<[tid := l]> insts) t = (<[tid := l]> (<[tid := l']> insts)) t.
Proof.
  destruct (decide (t = tid)) as [->|Hne]; [by rewrite !fn_lookup_insert|by rewrite !fn_lookup_insert_ne].
Qed.

Lemma doSquashIQ_ok tid n l : forall insts s, IQInvOn insts s -> insts tid = reverse l ->
  (forall p i, p ∈ insts tid -> heap (iqmem s) !! p = Some i -> n < seqNum i -> squashOK (nonSpecInsts (iq s)) i) ->
  let l' := filter (fun p => seqOf (iqmem s) p <= n) (reverse l) in
  exists s', doSquashLoop tid n l [] s = Ok (l', s') /\ IQInvOn (<[tid := l']> insts) s' /\
    squashFrame (<[tid := l']> insts) s s'.
Proof.
  induction l as [|p l IH]; intros insts s HO Hl Hok; cbn [doSquashLoop].
  { exists s. split; [done|]. split; [|apply squashFrame_refl]. eapply IQInvOn_ext; [|done]. intros t. by apply insert_self. }
  rewrite reverse_cons in Hl |- *. assert (Hp : p ∈ insts tid) by (rewrite Hl; set_solver).
  pose proof (on_wake _ _ HO) as HW. destruct (wk_inst _ _ _ _ HW _ _ Hp) as (i & Hi & Ht & Hsq & _).
  assert (Es : seqOf (iqmem s) p = seqNum i) by (unfold seqOf; by rewrite Hi).
  pose proof (wk_order _ _ _ _ HW tid) as Hs. rewrite Hl in Hs.
  unfold getInst. rewrite Hi. cbn [deref mbind res_bind]. destruct (Z.ltb_spec n (seqNum i)) as [Hlt|Hge]; cbn [negb].
  - rewrite bool_decide_eq_true_2 by done. rewrite Hsq. cbn [negb orb]. subst tid.
    destruct (squashStep_ok insts s p i (reverse l) HO Hi Hl) as (s1 & E & HO1 & HF); [by apply (Hok p)|].
    match type of E with (x ← ?a; _) = _ => destruct a as [s0| |] end; try done. cbn [mbind res_bind] in E |- *.
    rewrite E. cbn [mbind res_bind].
    destruct (IH _ s1 HO1) as (s2 & E2 & HO2 & HF2).
    + by rewrite fn_lookup_insert.
    + intros q j Hq Hj Hn. pose proof (sq_sub insts s p i (reverse l) HO Hi Hl _ _ Hq) as [Hq' Hne].
      rewrite (sf_live _ _ _ HF _ _ Hq) in Hj. specialize (Hok q j Hq' Hj Hn). pose proof (sf_ns _ _ _ HF _ _ Hq) as En.
      unfold seqOf in En. rewrite Hj in En. unfold squashOK. by rewrite En.
    + assert (EF : filter (fun q : InstPtr => seqOf (iqmem s1) q <= n) (reverse l) = filter (fun q => seqOf (iqmem s) q <= n) (reverse l ++ [p])).
      { rewrite list_basics.list.filter_app, (filter_none _ [p]), app_nil_r by (intros q ->%list_elem_of_singleton; lia).
        apply list_filter_iff'. intros q Hq. unfold seqOf. rewrite (sf_live _ _ _ HF (threadNumber i) q); [done|].
        by rewrite fn_lookup_insert. }
      rewrite EF in E2, HO2, HF2. exists s2. split; [done|]. split.
      * eapply IQInvOn_ext; [|done]. intros t. apply insert_over.
      * eapply squashFrame_sub; [|eapply squashFrame_trans; [|exact HF|exact HF2]].
        -- intros t q. by rewrite (insert_over _ _ _ (reverse l)).
        -- intros t q. destruct (decide (t = threadNumber i)) as [->|Hne]; [|by rewrite !fn_lookup_insert_ne].
           rewrite !fn_lookup_insert. rewrite <- EF. by intros [_ ?]%list_elem_of_filter.
  - rewrite filter_sorted_all by (done || lia). rewrite app_nil_r, <- Hl. exists s. split; [done|].
    split; [|apply squashFrame_refl]. eapply IQInvOn_ext; [|done]. intros t. by apply insert_self.
Qed.

(** ** [squash] *)

(** The unit of the thread forgets the instructions too. *)
Lemma squashUnit_ok n T s : IQInv s -> (forall p, p ∈ iqInsts (iq s) T -> seqOf (iqmem s) p <= n) ->
  exists u' r', onUnit T (fun d => terminates (MemDep.squash n T d)) s = Ok (putUnit T u' r' (iqmem s) s) /\
    IQInv (putUnit T u' r' (iqmem s) s) /\
    (forall k w, waiting (absMD (mkMDS u' (iqmem s) [])) !! k = Some w -> k <= n).
Proof.
  intros HI Hold. pose proof HI as [HW HC HR HU HE HQ HB].
  destruct (onUnit_ok T (OSquash n) _ s ltac:(done) (rd_lists _ _ _ _ HR) (un_inv _ _ _ _ _ HU T) I)
    as (u' & m' & out & r' & E & HM & Hms & Hfree & [HS ->] & HP).
  destruct Hms as [->|(p & i & ? & _)]; [|done]. exists u', r'. split; [exact E|]. split.
  2: { intros k w. rewrite HS. cbn [waiting]. by intros [_ ?]%map_lookup_filter_Some. }
  assert (Hrep : forall p, p ∈ instsToReplay u' -> p ∈ instsToReplay (memDepUnit (iq s) T)).
  { intros p Hp. apply (f_equal replays) in HS. cbn [absMD replays mdu] in HS. rewrite HS in Hp. by apply list_elem_of_filter in Hp as [_ ?]. }
  assert (Hh : forall p, handedBy r' (memLists (iq s)) (<[T := u']> (memDepUnit (iq s))) (iqInsts (iq s)) (iqmem s) p ->
            handed (iq s) (iqmem s) p).
  { intros p [[c Hc]|[Hl|[[t Hr]|Hiss]]]; [|by right; left| |by do 3 right].
    - apply (pushed_in _ _ _ _ _ _ HP) in Hc as [Hc|Hc]; [by apply elem_of_nil in Hc|]. left. by exists c.
    - right; right; left. destruct (decide (t = T)) as [->|Hne]; [rewrite fn_lookup_insert in Hr; eauto|].
      rewrite fn_lookup_insert_ne in Hr by done. eauto. }
  split; cbn; [done..| | |done|done|done].
  - apply (ReadyInv_pushMem _ _ (ready (iq s)) _ _ []); [done..|]. by intros p i ?%elem_of_nil.
  - apply (UnitInv_op (iqInsts (iq s)) _ (iqmem s) _ _ T u' (iqMisses s) _
             (handed (iq s) (iqmem s)) _ []); [done|apply extends_refl|done|done|..].
    + intros p i Hp Hi Hm Hd _. by exists i.
    + intros p i Hp Hi Hm Hd Ht. destruct (un_look s p i HI Hi Hp Hm Hd) as (w & Hw & Ew & Er & Er'). rewrite Ht in Hw, Hp.
      exists w. split_and!; [|done|done|done|].
      * rewrite HS. cbn [waiting]. apply map_lookup_filter_Some. split; [done|]. cbn. specialize (Hold p Hp).
        unfold seqOf in Hold. by rewrite Hi in Hold.
      * intros Hp'%Hh. destruct (un_pool _ _ _ _ _ HU p Hp') as (j & Hj & Hz). assert (j = i) as -> by congruence.
        apply Hz; [done|by rewrite Ht|done].
    + intros p i Hp Hi. eapply (un_replay _ _ _ _ _ HU); [by apply Hrep|done].
    + intros p Hp. right. by apply Hh.
Qed.

(** Everything of the thread that is younger than [n] leaves, and nothing else. *)
Lemma squashIQ_inv n tid s : IQInv s ->
  (forall p i, p ∈ iqInsts (iq s) tid -> heap (iqmem s) !! p = Some i -> n < seqNum i -> squashOK (nonSpecInsts (iq s)) i) ->
  exists s', InstQueue.squash n tid s = Ok s' /\ IQInv s' /\
    iqInsts (iq s') = <[tid := filter (fun p => seqOf (iqmem s) p <= n) (iqInsts (iq s) tid)]> (iqInsts (iq s)) /\
    (forall k w, waiting (absMD (mkMDS (memDepUnit (iq s') tid) (iqmem s') [])) !! k = Some w -> k <= n).
Proof.
  intros HI Hok. unfold InstQueue.squash, doSquash. set (s0 := updIQ _ s).
  assert (HO : IQInvOn (iqInsts (iq s)) s0) by (destruct HI; by split).
  cbn [iqSquashedSeqNum]. change (iqSquashedSeqNum (iq s0) tid) with ((<[tid := n]> (iqSquashedSeqNum (iq s))) tid).
  rewrite fn_lookup_insert. change (iqInsts (iq s0)) with (iqInsts (iq s)).
  destruct (doSquashIQ_ok tid n (reverse (iqInsts (iq s) tid)) (iqInsts (iq s)) s0 HO) as (s1 & E & HO1 & HF);
    [by rewrite reverse_involutive|done|].
  rewrite reverse_involutive in E, HO1, HF. rewrite E. cbn [mbind res_bind].
  change (iqmem s0) with (iqmem s) in *. set (l' := filter _ (iqInsts (iq s) tid)) in *.
  set (s2 := updIQ (fun q => q <| iqInsts := <[tid := l']> (iqInsts q) |>) s1).
  assert (Ei : iqInsts (iq s2) = <[tid := l']> (iqInsts (iq s))) by (cbn; by rewrite (sf_insts _ _ _ HF)).
  assert (HI2 : IQInv s2).
  { apply IQInvOn_self. rewrite Ei. destruct HO1. by split. }
  change (iqSquashedSeqNum (iq s2)) with (iqSquashedSeqNum (iq s1)). rewrite (sf_num _ _ _ HF). cbn [s0 updIQ]. cbn.
  rewrite fn_lookup_insert.
  destruct (squashUnit_ok n tid s2 HI2) as (u' & r' & E2 & HI3 & Hw).
  { intros p. rewrite Ei, fn_lookup_insert. intros [Hp Hin]%list_elem_of_filter. unfold seqOf in Hp |- *. cbn.
    rewrite (sf_live _ _ _ HF tid p); [done|]. rewrite fn_lookup_insert. by apply list_elem_of_filter. }
  eexists. split; [exact E2|]. split; [done|]. split; [exact Ei|]. cbn. rewrite fn_lookup_insert. exact Hw.
Qed.
