(* ===== verification/InstQueueIssue.v ===== *)
(** * Issue in the instruction queue

    One call of [scheduleReadyInsts], and the completion of instructions that
    execute for more than one cycle. *)

From stdpp Require Import base numbers list gmap functions sorting.
From S2P Require Import Prelude Regs DynInst ROB TimeBuffer StoreSet FUPool MemDep MemDepSpec MemDepProps InstQueueUnit DepGraph ReadyList InstQueue InstQueueSpec InstQueueWake InstQueueInv InstQueueOps InstQueueInsert InstQueueWakeup InstQueueSquash.

#[local] Open Scope Z_scope.

(** ** Deferred and blocked instructions *)

(** A memory instruction of the lists moves to the ready queue of its class. *)
Lemma IQInv_toReady s p d b r r' : IQInv s -> p ∈ memLists (iq s) ->
  (forall q, q ∈ d ++ b ++ r -> q ∈ memLists (iq s)) -> pushed (iqmem s) [p] (ready (iq s)) r' ->
  IQInv (s <| iq := iq s <| deferredMemInsts := d |> <| blockedMemInsts := b |> <| retryMemInsts := r |> <| ready := r' |> |>).
Proof.
  intros HI Hp Hsub HP. pose proof HI as [HW HC HR HU HE HQ HB]. split; cbn; [done..| | |done|done|].
  - apply (ReadyInv_pushMem _ _ (ready (iq s)) _ _ [p]); [done..|]. intros q j ->%list_elem_of_singleton Hj.
    destruct (HB p Hp) as (i & Hi & Hm). congruence.
  - eapply UnitInv_frame; [exact HU|apply extends_refl|intros q j Hq Hj _ Hd; by exists j|]. intros q Hq. left.
    destruct Hq as [[c Hc]|[Hl|[Hr|Hiss]]]; [|by right; left; apply Hsub|by right; right; left|by do 3 right].
    apply (pushed_in _ _ _ _ _ _ HP) in Hc as [->%list_elem_of_singleton|Hc]; [by right; left|]. left. by exists c.
  - intros q Hq. by apply HB, Hsub.
Qed.

Lemma takeDeferred_ok m l : memOnly l m ->
  exists o l', takeDeferred m l = Ok (o, l') /\ match o with Some p => l ≡ₚ p :: l' | None => l' = l end.
Proof.
  induction l as [|p l IH]; intros Hl; cbn [takeDeferred]; [by exists None, []|].
  destruct (Hl p) as (i & Hi & _); [by left|]. unfold getInst. rewrite Hi. cbn [deref mbind res_bind].
  destruct (translationCompleted i || isSquashed i); [by exists (Some p), l|].
  destruct IH as (o & l' & -> & Ho); [intros q Hq; apply Hl; by right|]. cbn [mbind res_bind]. exists o, (p :: l'). split; [done|].
  destruct o as [q|]; [rewrite Ho; constructor|congruence].
Qed.

(** What stays when instructions join the ready queues. *)
Record joinFrame (s s' : IQS) : Prop := {
  jf_mem : iqmem s' = iqmem s;
  jf_events : events s' = events s;
  jf_exec : instsToExecute (iq s') = instsToExecute (iq s);
  jf_pool : fuPool (iq s') = fuPool (iq s);
  jf_width : totalWidth (iq s') = totalWidth (iq s);
  jf_insts : iqInsts (iq s') = iqInsts (iq s)
}.

Lemma joinFrame_trans s1 s2 s3 : joinFrame s1 s2 -> joinFrame s2 s3 -> joinFrame s1 s3.
Proof. intros [A1 A2 A3 A4 A5 A6] [B1 B2 B3 B4 B5 B6]. split; congruence. Qed.

Lemma addDeferred_ok fuel : forall s, IQInv s -> (length (deferredMemInsts (iq s)) <= fuel)%nat ->
  exists s', addDeferred fuel s = Ok s' /\ IQInv s' /\ joinFrame s s'.
Proof.
  induction fuel as [|fuel IH]; intros s HI Hlen; cbn [addDeferred]; unfold getDeferredMemInstToExecute;
    (destruct (takeDeferred_ok (iqmem s) (deferredMemInsts (iq s))) as (o & l & -> & Ho);
      [intros q Hq; apply (iv_lists _ HI); set_solver|]); cbn [mbind res_bind].
  - destruct o as [p|]; [apply Permutation_length in Ho; cbn in Ho; lia|]. subst l. exists s.
    split; [by destruct s as [[] ? ? ?]|done].
  - destruct o as [p|].
    2: { subst l. exists s. split; [by destruct s as [[] ? ? ?]|done]. }
    assert (Hp : p ∈ memLists (iq s)) by (rewrite Ho; by left).
    destruct (iv_lists _ HI p Hp) as (i & Hi & _).
    destruct (addReadyMemInst_ok p i (updIQ (fun q => q <| deferredMemInsts := l |>) s)) as (r' & E & HP); [apply HI|done|].
    rewrite E. cbn [mbind res_bind].
    destruct (IH (putReady r' (updIQ (fun q => q <| deferredMemInsts := l |>) s))) as (s' & E' & HI' & HF).
    + apply (IQInv_toReady s p l (blockedMemInsts (iq s)) (retryMemInsts (iq s)) r' HI Hp); [|done].
      intros q. rewrite Ho. set_solver.
    + cbn. apply Permutation_length in Ho. cbn in Ho. lia.
    + exists s'. split; [done|]. split; [done|]. eapply joinFrame_trans; [|done]. by split.
Qed.

Lemma addBlocked_ok fuel : forall s, IQInv s -> (length (retryMemInsts (iq s)) <= fuel)%nat ->
  exists s', addBlocked fuel s = Ok s' /\ IQInv s' /\ joinFrame s s'.
Proof.
  induction fuel as [|fuel IH]; intros s HI Hlen; cbn [addBlocked]; unfold getBlockedMemInstToExecute.
  - destruct (retryMemInsts (iq s)) as [|p l] eqn:El; [|cbn in Hlen; lia]. by exists s.
  - destruct (retryMemInsts (iq s)) as [|p l] eqn:El; [by exists s|].
    assert (Hp : p ∈ memLists (iq s)) by (rewrite El; set_solver). destruct (iv_lists _ HI p Hp) as (i & Hi & _).
    destruct (addReadyMemInst_ok p i (updIQ (fun q => q <| retryMemInsts := l |>) s)) as (r' & E & HP); [apply HI|done|].
    rewrite E. cbn [mbind res_bind].
    destruct (IH (putReady r' (updIQ (fun q => q <| retryMemInsts := l |>) s))) as (s' & E' & HI' & HF).
    + apply (IQInv_toReady s p (deferredMemInsts (iq s)) (blockedMemInsts (iq s)) l r' HI Hp); [|done].
      intros q. rewrite El. set_solver.
    + cbn in *. lia.
    + exists s'. split; [done|]. split; [done|]. eapply joinFrame_trans; [|done]. by split.
Qed.

(** ** Execution *)

(** The part of the state that execution changes. *)
Definition putExec (b : TimeBuffer Z) (x : list InstPtr) (pool : FUPool) (wb : Z) (ev : list FUCompletion) (s : IQS) : IQS :=
  s <| iq := iq s <| issueToExecute := b |> <| instsToExecute := x |> <| fuPool := pool |> <| wbOutstanding := wb |> |> <| events := ev |>.

Lemma IQInv_exec s b x pool wb ev : IQInv s -> ExecInv pool ev b -> IQInv (putExec b x pool wb ev s).
Proof. intros [H1 H2 H3 H4 H5 H6 H7] HE. by split. Qed.

(** What has started to execute and has not been taken by IEW. *)
Definition started (s : IQS) : list InstPtr := instsToExecute (iq s) ++ (fc_inst <$> events s).

Definition bufOK (b : TimeBuffer Z) : Prop := tb_wf b /\ 1 <= past b.

Lemma toExecute_ok idx p s : bufOK (issueToExecute (iq s)) -> idx = 0 \/ idx = -1 ->
  exists b, toExecute idx p s = Ok (updIQ (fun q => q <| issueToExecute := b |> <| instsToExecute := instsToExecute q ++ [p] |>) s) /\ bufOK b.
Proof.
  intros [Hb Hp] Hi. unfold toExecute. pose proof (tb_future _ Hb).
  destruct (access_ok idx _ Hb) as (v & -> & _); [lia|]. cbn [mbind res_bind].
  destruct (assign_ok idx (s32 (v + 1)) _ Hb) as (b & -> & Hb' & Ep & _); [lia|]. cbn [mbind res_bind]. exists b. split; [done|].
  split; [done|lia].
Qed.

(** ** Units *)

(** In a cycle units only get busy. *)
Definition poolGrows (p p' : FUPool) : Prop :=
  funcUnits p' = funcUnits p /\ forall k, unitBusy p !! k = Some true -> unitBusy p' !! k = Some true.

(** Instructions of the class need a unit, and there is none free. *)
Definition noneFree (c : OpClass) (p : FUPool) : Prop :=
  c <> No_OpClass /\ (exists k fu, funcUnits p !! k = Some fu /\ provides c fu = true) /\
  forall k fu, funcUnits p !! k = Some fu -> provides c fu = true -> unitBusy p !! k = Some true.

Lemma noneFree_grows c p p' : poolGrows p p' -> noneFree c p -> noneFree c p'.
Proof.
  intros [E HB] (Hc & Hex & Hall). split; [done|]. rewrite E. split; [done|]. intros k fu Hk Hp. by apply HB, (Hall k fu).
Qed.

Lemma poolGrows_trans p1 p2 p3 : poolGrows p1 p2 -> poolGrows p2 p3 -> poolGrows p1 p3.
Proof. intros [E1 H1] [E2 H2]. split; [congruence|auto]. Qed.

Lemma pool_inv_perm p h h' : h ≡ₚ h' -> pool_inv (p, h) -> pool_inv (p, h').
Proof. intros HP [H1 H2 H3]. split; cbn in *; [done|by rewrite <- HP|]. intros i. by rewrite H3, HP. Qed.

Definition withUnit (idx : Z) (h : list nat) : list nat := if 0 <=? idx then Z.to_nat idx :: h else h.

Lemma findUnit_ok c s h : pool_inv (fuPool (iq s), h) ->
  exists idx pool', findUnit c s = Ok (idx, updIQ (fun q => q <| fuPool := pool' |>) s) /\
    pool_inv (pool', withUnit idx h) /\ poolGrows (fuPool (iq s)) pool' /\
    (idx = NoFreeFU -> noneFree c pool').
Proof.
  intros HP. pose proof HP as [Hwf Hnd Hb]. cbn in Hwf, Hnd, Hb. unfold findUnit. destruct (decide (c = No_OpClass)) as [->|Hc].
  { exists NoCapableFU, (fuPool (iq s)). split; [by destruct s as [[] ? ? ?]|]. split_and!; done. }
  destruct (getUnit_ok c (fuPool (iq s)) Hwf) as (r & p' & E & Hwf' & Hspec & Ef & Efr).
  pose proof (get_inv c _ HP) as (s1 & E1 & HP1). cbn [runFU] in E1. rewrite E in E1. injection E1 as <-.
  rewrite E. cbn [terminates mbind res_bind]. exists r, p'. split; [done|].
  assert (Hcap : r = NoFreeFU -> capabilityList (fuPool (iq s)) c = true).
  { intros ->. unfold getUnit in E. destruct (capabilityList (fuPool (iq s)) c); [done|]. cbn in E. done. }
  destruct Hspec as [(-> & EB & _)|[(-> & EB & Hall)|(i & fu & -> & Hfu & Hpr & Hf & EB)]].
  - split_and!; [done|split; [done|by rewrite EB]|done].
  - split_and!; [done|split; [done|by rewrite EB]|]. intros _. split; [done|].
    rewrite Ef, EB. split; [|done]. specialize (Hcap eq_refl). apply (pw_cap _ Hwf) in Hcap.
    destruct (funcUnitsIdx _) as [|k l] eqn:El; [done|]. destruct (proj1 (pw_units _ Hwf c k)) as (fu & ? & ?); [rewrite El; by left|]. eauto.
  - split_and!; [|split; [done|]|unfold NoFreeFU; lia].
    + unfold withUnit. rewrite (proj2 (Z.leb_le _ _)) by lia. by rewrite (proj2 (Z.ltb_ge _ _)) in HP1 by lia.
    + intros k Hk. rewrite EB. destruct (decide (k = i)) as [->|Hne]; [congruence|]. by rewrite list_lookup_insert_ne.
Qed.

Lemma freeUnit_ok idx h s : 0 <= idx -> pool_inv (fuPool (iq s), Z.to_nat idx :: h) ->
  exists pool', onPool (freeUnitNextCycle (Z.to_nat idx)) s = Ok (updIQ (fun q => q <| fuPool := pool' |>) s) /\
    pool_inv (pool', h) /\ poolGrows (fuPool (iq s)) pool'.
Proof.
  intros Hi HP. destruct (free_inv (Z.to_nat idx) _ HP) as (s1 & E & HP1); [by left|]. cbn [runFU] in E. unfold onPool.
  destruct (freeUnitNextCycle _ _) as [pool'| |] eqn:Ef; try done. cbn [mbind res_bind] in E |- *. injection E as <-. exists pool'. split; [done|].
  destruct HP as [_ Hnd _]. cbn in Hnd. apply list_relations.list.NoDup_cons in Hnd as [Hn _].
  split.
  - rewrite filter_cons_False in HP1 by tauto. rewrite filter_all in HP1; [done|]. intros x Hx ->. apply Hn. set_solver.
  - unfold freeUnitNextCycle in Ef. inv_ok. by split.
Qed.

Lemma heldUnits_app ev p idx b d : heldUnits (ev ++ [mkCompletion p idx b d]) = heldUnits ev ++ (if b then [Z.to_nat idx] else []).
Proof. unfold heldUnits. rewrite list_basics.list.filter_app, fmap_app. by destruct b. Qed.

Definition withEvents (ev : list FUCompletion) (s : IQS) : IQS := s <| events := ev |>.

Lemma startExecution_ok p c idx s : bufOK (issueToExecute (iq s)) ->
  (forall e, e ∈ events s -> freeFU e = true -> 0 <= fuIdx e) ->
  pool_inv (fuPool (iq s), withUnit idx (heldUnits (events s))) ->
  exists b x pool wb ev, startExecution p c idx s = Ok (putExec b x pool wb ev s) /\
    ExecInv pool ev b /\ poolGrows (fuPool (iq s)) pool /\ x ++ (fc_inst <$> ev) ≡ₚ started s ++ [p].
Proof.
  intros Hbuf Hun HP. unfold startExecution. set (lat := opLatency c idx s). destruct (Z.eqb_spec lat 1) as [El|El].
  - destruct (toExecute_ok 0 p s Hbuf (or_introl eq_refl)) as (b & -> & Hb). cbn [mbind res_bind].
    assert (Hst : (instsToExecute (iq s) ++ [p]) ++ (fc_inst <$> events s) ≡ₚ started s ++ [p]).
    { unfold started. rewrite <- !app_assoc. apply Permutation_app_head, Permutation_app_comm. }
    unfold withUnit in HP. destruct (Z.leb_spec 0 idx) as [Hi|Hi].
    + set (s1 := updIQ _ s). destruct (freeUnit_ok idx (heldUnits (events s)) s1 Hi HP) as (pool & E & HP' & HG).
      exists b, (instsToExecute (iq s) ++ [p]), pool, (wbOutstanding (iq s)), (events s). split; [rewrite E; by destruct s as [[] ? ? ?]|].
      split; [by split|done].
    + exists b, (instsToExecute (iq s) ++ [p]), (fuPool (iq s)), (wbOutstanding (iq s)), (events s). split; [by destruct s as [[] ? ? ?]|].
      split; [by split|done].
  - assert (Hi : 0 <= idx).
    { unfold lat, opLatency in El. destruct (Z.ltb_spec NoFreeFU idx); [unfold NoFreeFU in *; lia|done]. }
    unfold withUnit in HP. rewrite (proj2 (Z.leb_le 0 idx)) in HP by done.
    set (s1 := updIQ _ s). change (fuPool (iq s1)) with (fuPool (iq s)).
    set (d := u64 (lat - 1)). set (pp := pipelined (fuPool (iq s)) c). change (events s1) with (events s).
    assert (Hst : instsToExecute (iq s) ++ (fc_inst <$> events s ++ [mkCompletion p idx (negb pp) d]) ≡ₚ started s ++ [p]).
    { unfold started. rewrite fmap_app. cbn. by rewrite app_assoc. }
    assert (Hev : forall e, e ∈ events s ++ [mkCompletion p idx (negb pp) d] -> freeFU e = true -> 0 <= fuIdx e).
    { intros e [He| ->%list_elem_of_singleton]%elem_of_app; [by apply Hun|done]. }
    assert (Hh : heldUnits (events s ++ [mkCompletion p idx (negb pp) d]) = heldUnits (events s) ++ if pp then [] else [Z.to_nat idx]).
    { rewrite heldUnits_app. by destruct pp. }
    revert Hst Hev Hh. generalize (events s ++ [mkCompletion p idx (negb pp) d]). intros ev Hst Hev Hh. destruct pp.
    + destruct (freeUnit_ok idx (heldUnits (events s)) (withEvents ev s1) Hi HP) as (pool & E & HP' & HG).
      exists (issueToExecute (iq s)), (instsToExecute (iq s)), pool, (s32 (wbOutstanding (iq s) + 1)), ev.
      split; [exact E|]. split; [|done]. split; [|done|done].
      rewrite Hh. by rewrite app_nil_r.
    + exists (issueToExecute (iq s)), (instsToExecute (iq s)), (fuPool (iq s)), (s32 (wbOutstanding (iq s) + 1)), ev.
      split; [by destruct s as [[] ? ? ?]|]. split; [|done]. split; [|done|done].
      eapply pool_inv_perm; [|exact HP]. rewrite Hh. apply Permutation_cons_append.
Qed.

(** ** One instruction issues *)

Section IssueOne.
Context (s : IQS) (p : InstPtr) (i : DynInst) (c : OpClass) (l : list InstPtr) (r : ReadyLists).
Hypothesis HI : IQInv s.
Hypothesis Hq : readyInsts (ready (iq s)) c = p :: l.
Hypothesis Hi : heap (iqmem s) !! p = Some i.
Hypothesis HR : RLInv (iqmem s) r.
Hypothesis Er : readyInsts r = <[c := l]> (readyInsts (ready (iq s))).

Lemma issue_sub c' x : x ∈ readyInsts r c' -> x ∈ readyInsts (ready (iq s)) c'.
Proof.
  rewrite Er. destruct (decide (c' = c)) as [->|Hne]; [rewrite fn_lookup_insert, Hq; by right|by rewrite fn_lookup_insert_ne].
Qed.

Lemma issue_class : instOpClass i = c.
Proof.
  destruct (rl_heap _ _ (rd_lists _ _ _ _ (iv_ready _ HI)) c p) as (j & Hj & E); [rewrite Hq; by left|]. congruence.
Qed.

Lemma issue_occ x c' : x <> p -> occ x (readyInsts r c') = occ x (readyInsts (ready (iq s)) c').
Proof.
  intros Hne. rewrite Er. destruct (decide (c' = c)) as [->|Hc]; [|by rewrite fn_lookup_insert_ne].
  by rewrite fn_lookup_insert, Hq, occ_cons, decide_False by congruence.
Qed.

Lemma issue_handed : handed (iq s) (iqmem s) p.
Proof. left. exists c. rewrite Hq. by left. Qed.

(** Without its head the queue has it no more, unless it is a memory instruction. *)
Lemma issue_gone c' : isMemRef i = false -> isSquashed i = false -> occ p (readyInsts r c') = 0%nat.
Proof.
  intros Hm Hsq. destruct (rd_each _ _ _ _ (iv_ready _ HI) p i Hi Hm Hsq) as [_ O _]. rewrite Er.
  destruct (decide (c' = c)) as [->|Hc].
  - rewrite fn_lookup_insert. specialize (O c). cbv beta in O. rewrite Hq, occ_cons, decide_True in O by done. lia.
  - rewrite fn_lookup_insert_ne by done. apply occ_zero. intros Hx.
    destruct (rl_heap _ _ (rd_lists _ _ _ _ (iv_ready _ HI)) c' p Hx) as (j & Hj & E). apply Hc. rewrite <- E, <- issue_class. congruence.
Qed.

(** A squashed instruction is just dropped. *)
Lemma dropSquashed_ok : isSquashed i = true -> IQInv (setReady r s).
Proof.
  intros Hsq. pose proof HI as [HW HC [H1 H2 H3] HU HE HQ HB]. split; cbn; [done..| | |done|done|done].
  - split; [done| |done]. intros x j Hj Hm Hs. assert (x <> p) by congruence.
    destruct (H2 x j Hj Hm Hs) as [O1 O2 O3]. split.
    + intros c'. rewrite issue_occ by done. apply O1.
    + intros c'. rewrite issue_occ by done. apply O2.
    + rewrite issue_occ by done. apply O3.
  - eapply UnitInv_frame; [exact HU|apply extends_refl|intros x j Hx Hj _ Hd; by exists j|]. intros x Hx. left.
    destruct Hx as [[c' Hc]|Hx]; [left; exists c'; by apply issue_sub|by right].
Qed.

Lemma issue_noWait : isSquashed i = false -> p ∈ iqInsts (iq s) (threadNumber i) ->
  (tracked i = true -> pend (regScoreboard (iq s)) i = []) /\ forall sn, nonSpecInsts (iq s) !! sn <> Some p.
Proof.
  intros Hsq Hl. pose proof HI as [HW HC HR' HU HE HQ HB]. destruct (isMemRef i) eqn:Hm.
  - destruct (un_pool _ _ _ _ _ HU p issue_handed) as (j & Hj & Hz). assert (j = i) as -> by congruence.
    destruct (Hz Hm) as [_ Hz']. destruct (memOpDone i) eqn:Hd.
    + pose proof (ct_done _ _ _ _ _ HC p i Hl Hi Hm Hd) as Hiss. split.
      * intros Ht. apply (wk_issue _ _ _ _ HW p i Hl Hi Ht). by right.
      * intros sn Hn. destruct (rd_ns _ _ _ _ HR' sn p Hn) as (j & Hj' & _ & _ & _ & ? & _). congruence.
    + specialize (Hz' Hl eq_refl). split.
      * intros Ht. rewrite misses_tracked in Hz' by done. by apply nil_length_0.
      * intros sn Hn. destruct (rd_ns _ _ _ _ HR' sn p Hn) as (j & Hj' & Es & _ & Ht & _). assert (j = i) as -> by congruence.
        unfold misses in Hz'. rewrite Ht, Es, decide_True in Hz' by done. done.
  - destruct (rd_each _ _ _ _ HR' p i Hi Hm Hsq) as [O1 _ _]. destruct (O1 c) as (_ & Hiss & Hri & Hw).
    { rewrite Hq, occ_cons, decide_True by done. lia. }
    split; [intros Ht; apply (wk_issue _ _ _ _ HW p i Hl Hi Ht); by left|].
    intros sn Hn. destruct (rd_ns _ _ _ _ HR' sn p Hn) as (j & Hj' & Es & _). assert (j = i) as -> by congruence.
    apply bool_decide_eq_false in Hw. rewrite Es, Hn in Hw. by destruct Hw.
Qed.

(** The instruction once it has issued. *)
Definition issuedAs (i' : DynInst) : Prop :=
  sameRegs i i' /\ isIssued i' = true /\ readyToIssue i' = readyToIssue i /\ isSquashed i' = isSquashed i /\
  memOpDone i' = memOpDone i.

Lemma issue_wake i' : isSquashed i = false -> issuedAs i' ->
  WakeInv (iqInsts (iq s)) (setHeap p i' (iqmem s)) (dependGraph (iq s)) (regScoreboard (iq s)).
Proof.
  intros Hsq (Hs & Hiss & Hri & _). pose proof (iv_wake _ HI) as HW. apply (WakeInv_mem _ (iqmem s)); [done|]. intros x j Hx Hj.
  destruct (decide (x = p)) as [->|Hne].
  - assert (j = i) as -> by congruence. exists i'. rewrite setHeap_eq. split_and!; [done..|].
    destruct (sameInst_tracked _ _ (proj1 Hs)) as (T1 & T2 & _). intros Ht. rewrite T1 in Ht.
    destruct (sameRegs_flats _ _ Hs) as (_ & _ & _ & _ & Hpe). rewrite Hpe, T2, Hri.
    destruct (issue_noWait Hsq Hx) as [Hp _]. rewrite (Hp Ht). split; [done|]. intros Hm _. apply (wk_issue _ _ _ _ HW p i Hx Hj Ht); [done|by apply Hp].
  - exists j. rewrite setHeap_ne by done. split_and!; [done|apply sameRegs_refl|]. intros Ht. by apply (wk_issue _ _ _ _ HW x j).
Qed.

Lemma issue_ready i' : isSquashed i = false -> issuedAs i' ->
  ReadyInv (iqInsts (iq s)) (setHeap p i' (iqmem s)) r (nonSpecInsts (iq s)).
Proof.
  intros Hsq (Hs & Hiss & Hri & Esq & _). destruct (sameInst_tracked _ _ (proj1 Hs)) as (_ & T2 & _).
  apply (ReadyInv_at (iqInsts (iq s)) _ _ p i' (ready (iq s)) _ (nonSpecInsts (iq s))); try done.
  - apply HI.
  - exists i. split; [done|apply Hs].
  - eapply RLInv_extends; [|done]. eapply setHeap_extends; [done|apply Hs].
  - intros x j c' Hne _ _ _. by apply issue_occ.
  - intros Hm _. split.
    + intros c'. rewrite issue_gone by congruence. lia.
    + intros c'. rewrite issue_gone by congruence. lia.
    + congruence.
  - intros sn Hn. exfalso. destruct (rd_ns _ _ _ _ (iv_ready _ HI) sn p Hn) as (j & Hj & _ & Hl & _).
    assert (j = i) as -> by congruence. destruct (issue_noWait Hsq Hl) as [_ Hno]. by apply (Hno sn).
Qed.

(** Only what was handed over before is in execution or ready. *)
Lemma issue_handedBy i' units x : issuedAs i' -> (forall t, instsToReplay (units t) = instsToReplay (memDepUnit (iq s) t)) ->
  handedBy r (memLists (iq s)) units (iqInsts (iq s)) (setHeap p i' (iqmem s)) x -> handed (iq s) (iqmem s) x.
Proof.
  intros Hia Hu [[c' Hc]|[Hl|[[t Hr]|(j & Hj & Hx & Hj')]]].
  - left. exists c'. by apply issue_sub.
  - by right; left.
  - right; right; left. exists t. by rewrite <- Hu.
  - destruct (decide (x = p)) as [->|Hne]; [apply issue_handed|]. rewrite setHeap_ne in Hj by done. do 3 right. by exists j.
Qed.

(** The dependence predictor of the thread hears of a memory instruction. *)
Lemma issue_unit i' T : T = threadNumber i -> isMemRef i = true -> issuedAs i' ->
  exists u', (forall r0, onUnit T (issue p) (setReady r0 (s <| iqmem := setHeap p i' (iqmem s) |>)) =
      Ok (putUnit T u' r0 (setHeap p i' (iqmem s)) s)) /\
    UnitInv (iqInsts (iq s)) (setHeap p i' (iqmem s)) (<[T := u']> (memDepUnit (iq s))) (iqMisses s)
      (handedBy r (memLists (iq s)) (<[T := u']> (memDepUnit (iq s))) (iqInsts (iq s)) (setHeap p i' (iqmem s))).
Proof.
  intros ET Hm Hia. pose proof Hia as (Hs & Hiss & Hri & Esq & Ed). pose proof (iv_unit _ HI) as HU.
  assert (Hext : extends (iqmem s) (setHeap p i' (iqmem s))) by (eapply setHeap_extends; [done|apply Hs]).
  destruct (un_env _ _ _ _ _ _ T HU Hext) as [HM Ea].
  destruct (unit_step T (memDepUnit (iq s) T) (setHeap p i' (iqmem s)) (OIssue p) HM) as (u' & m' & out & E & HM' & Hms & Hfree & ES & ->).
  { exists i'. apply setHeap_eq. }
  destruct Hms as [->|(p' & j & [=] & _)]. exists u'. split.
  { intros r0. unfold onUnit. cbn [runMD] in E. injection E as E. cbn [iq memDepUnit iqmem setReady updIQ]. cbn in E |- *. rewrite E. done. }
  change (mkMDS (memDepUnit (iq s) T) (setHeap p i' (iqmem s)) []) with (unitOf (setHeap p i' (iqmem s)) (memDepUnit (iq s)) T) in ES.
  rewrite Ea in ES.
  assert (Erep : forall t, instsToReplay ((<[T := u']> (memDepUnit (iq s))) t) = instsToReplay (memDepUnit (iq s) t)).
  { intros t. destruct (decide (t = T)) as [->|Hne]; [|by rewrite fn_lookup_insert_ne]. rewrite fn_lookup_insert. by injection ES. }
  assert (Hmiss : forall x j, heap (setHeap p i' (iqmem s)) !! x = Some j -> exists j0, heap (iqmem s) !! x = Some j0 /\ sameRegs j0 j /\ memOpDone j = memOpDone j0).
  { intros x j Hj. destruct (decide (x = p)) as [->|Hne].
    - rewrite setHeap_eq in Hj. injection Hj as <-. by exists i.
    - rewrite setHeap_ne in Hj by done. exists j. split_and!; [done|apply sameRegs_refl|done]. }
  apply (UnitInv_op (iqInsts (iq s)) _ (iqmem s) _ _ T u' (iqMisses s) _ (handed (iq s) (iqmem s)) _ []); [done..| | | |].
  - intros x j Hx Hj Hmj Hd Ht. destruct (Hmiss x j Hj) as (j0 & Hj0 & Hsj & Edj). exists j0.
    pose proof Hsj as [(_ & S2 & _) _]. split_and!; [done|by rewrite <- S2|congruence|by apply misses_same].
  - intros x j Hx Hj Hmj Hd Ht. destruct (Hmiss x j Hj) as (j0 & Hj0 & Hsj & Edj). pose proof Hsj as [HsI _].
    destruct (sameInst_tracked _ _ HsI) as (T1 & T2 & _). pose proof HsI as (S1 & S2 & _). rewrite S2 in Ht, Hx.
    destruct (un_look s x j0 HI Hj0 Hx) as (w & Hw & Ew & Er1 & Er2); [congruence|congruence|]. rewrite Ht in Hw. exists w.
    rewrite (misses_same _ _ _ _ _ Hsj), T1, S1, ES. split_and!; [done..|]. intros Hh.
    apply (issue_handedBy i' _ x Hia Erep) in Hh. destruct (un_pool _ _ _ _ _ HU x Hh) as (j1 & Hj1 & Hz).
    assert (j1 = j0) as -> by congruence. apply Hz; congruence || by rewrite Ht.
  - intros x j Hx Hj. specialize (Erep T). rewrite fn_lookup_insert in Erep. rewrite Erep in Hx. destruct (Hmiss x j Hj) as (j0 & Hj0 & Hsj & _).
    destruct (sameInst_tracked _ _ (proj1 Hsj)) as (_ & -> & _). by eapply (un_replay _ _ _ _ _ HU).
  - intros x Hx. right. by apply (issue_handedBy i' _ x Hia Erep).
Qed.

Lemma issuedAs_mem : issuedAs (setStatus Issued true i).
Proof. by split_and!. Qed.

Lemma issuedAs_entry : issuedAs (setStatus IqEntry false (setStatus Issued true i)).
Proof. by split_and!. Qed.

(** What issuing leaves alone. *)
Record leaveFrame (r0 : ReadyLists) (s' : IQS) : Prop := {
  lf_ready : ready (iq s') = r0;
  lf_exec : instsToExecute (iq s') = instsToExecute (iq s);
  lf_events : events s' = events s;
  lf_pool : fuPool (iq s') = fuPool (iq s);
  lf_width : totalWidth (iq s') = totalWidth (iq s);
  lf_insts : iqInsts (iq s') = iqInsts (iq s);
  lf_lists : memLists (iq s') = memLists (iq s)
}.

Lemma leaveQueue_ok r0 : isSquashed i = false ->
  exists s' i', leaveQueue p i (setReady r0 s) = Ok s' /\ IQInv (setReady r s') /\ leaveFrame r0 s' /\
    iqmem s' = setHeap p i' (iqmem s) /\ issuedAs i'.
Proof.
  intros Hsq. pose proof HI as [HW HC HR' HU HE HQ HB]. unfold leaveQueue.
  rewrite (putInst_mem p _ (setReady r0 s) i Hi). cbn [mbind res_bind].
  assert (Hlast : forall i', issuedAs i' -> seqUniq (iqInsts (iq s)) (setHeap p i' (iqmem s)) /\ memOnly (memLists (iq s)) (setHeap p i' (iqmem s))).
  { intros i' (Hs & _). assert (extends (iqmem s) (setHeap p i' (iqmem s))) by (eapply setHeap_extends; [done|apply Hs]).
    split; [by eapply seqUniq_frame|by eapply memOnly_extends]. }
  destruct (isMemRef i) eqn:Hm; cbn [negb].
  - destruct (issue_unit _ (threadNumber i) eq_refl Hm issuedAs_mem) as (u' & E & HU'). specialize (E r0).
    destruct (Hlast _ issuedAs_mem) as [HQ' HB'].
    eexists _, _. split; [exact E|]. split; [|split; [by split|split; [done|apply issuedAs_mem]]].
    split; cbn; [by apply (issue_wake _ Hsq issuedAs_mem)| |by apply (issue_ready _ Hsq issuedAs_mem)|exact HU'|done|exact HQ'|exact HB'].
    eapply CountInv_setHeap; [exact HC|exact Hi| |].
    { unfold holds. change (isMemRef (setStatus Issued true i)) with (isMemRef i). by rewrite Hm. }
    change (isMemRef i = true -> memOpDone i = true -> true = true). done.
  - destruct (Hlast _ issuedAs_entry) as [HQ' HB']. erewrite (putInst_mem p); [|apply setHeap_eq].
    eexists _, _. split; [reflexivity|]. split; [|split; [by split|split; [apply setHeap_twice|apply issuedAs_entry]]].
    destruct (rd_each _ _ _ _ HR' p i Hi Hm Hsq) as [O1 _ _]. destruct (O1 c) as (Hl & Hiss & _ & _).
    { rewrite Hq, occ_cons, decide_True by done. lia. }
    split; cbn; change (iqmem (setReady r0 s)) with (iqmem s); rewrite ?setHeap_twice;
      [by apply (issue_wake _ Hsq issuedAs_entry)| |by apply (issue_ready _ Hsq issuedAs_entry)| |done|exact HQ'|exact HB'].
    + eapply CountInv_release; try done.
      * unfold holds. by rewrite Hm, Hiss.
      * unfold holds. change (isMemRef (setStatus IqEntry false (setStatus Issued true i))) with (isMemRef i). by rewrite Hm.
    + eapply UnitInv_nonMem; [by left|done..|]. intros x Hx. left. by apply (issue_handedBy _ _ x issuedAs_entry) in Hx.
Qed.

End IssueOne.

(** ** The loop *)

Lemma popReady_perm m before it behind r behind' r' : popReady m before it behind r = Ok (behind', r') ->
  (behind' = behind \/ exists x, queueType (snd x) = queueType (snd it) /\ behind' ≡ₚ x :: behind) /\
  readyInsts r' = <[queueType (snd it) := tl (readyInsts r (queueType (snd it)))]> (readyInsts r).
Proof.
  unfold popReady. cbn [readyInsts upd_field eta_ready]. intros H. case_bool_decide; cbn [negb] in H.
  - injection H as <- <-. split; [by left|done].
  - unfold moveToYoungerInst in H. inv_ok. split; [|done]. right. eexists. split; [|apply orderInsertYounger_perm]. done.
Qed.

Lemma sum_list_with_perm {A} (f : A -> nat) l k : l ≡ₚ k -> sum_list_with f l = sum_list_with f k.
Proof. induction 1; cbn; lia. Qed.

Lemma issueFuel_pop m r n e behind before behind' r' p l : RLInv m r -> listOrder r = before ++ (n, e) :: behind ->
  readyInsts r (queueType e) = p :: l -> popReady m before (n, e) behind r = Ok (behind', r') ->
  (issueFuel r' behind' < issueFuel r ((n, e) :: behind))%nat.
Proof.
  intros HI HL Hq E. destruct (popReady_perm _ _ _ _ _ _ _ E) as [Hb Er]. cbn [snd] in Hb, Er. rewrite Hq in Er. cbn [tl] in Er.
  assert (Hsum : sum_list_with (fun x => S (length (readyInsts r' (queueType (snd x))))) behind =
                 sum_list_with (fun x => S (length (readyInsts r (queueType (snd x))))) behind).
  { assert (Hne : forall x, x ∈ behind -> queueType (snd x) <> queueType e).
    { intros [n' e'] Hx Ec. cbn in Ec. pose proof (rl_nodes _ _ HI) as Hnd. rewrite HL, fmap_app in Hnd. cbn in Hnd.
      apply list_relations.list.NoDup_app in Hnd as (_ & _ & [Hn _]%list_relations.list.NoDup_cons).
      destruct (rl_unique m r n' n e' e HI) as [-> _]; [rewrite HL; set_solver|rewrite HL; set_solver|done|].
      apply Hn, list_elem_of_fmap. by exists (n, e'). }
    clear E Hb HL. induction behind as [|x k IH]; cbn; [done|]. rewrite IH by (intros y Hy; apply Hne; by right).
    rewrite Er, fn_lookup_insert_ne; [done|]. intros Ex. apply (Hne x); [by left|done]. }
  unfold issueFuel. cbn [sum_list_with snd]. rewrite Hq. cbn [length]. destruct Hb as [->|(x & Ex & HP)]; [rewrite Hsum; lia|].
  rewrite (sum_list_with_perm _ _ _ HP). cbn [sum_list_with]. rewrite Hsum, Ex, Er, fn_lookup_insert. lia.
Qed.

(** The instructions [L] that a number of rounds issue. *)
Record issues (s s' : IQS) (L : list InstPtr) : Prop := {
  ig_mem : extends (iqmem s) (iqmem s');
  ig_other : forall x, x ∉ L -> heap (iqmem s') !! x = heap (iqmem s) !! x;
  ig_ready : forall c x, x ∈ readyInsts (ready (iq s')) c -> x ∈ readyInsts (ready (iq s)) c;
  ig_started : started s' ≡ₚ started s ++ L;
  ig_pool : poolGrows (fuPool (iq s)) (fuPool (iq s'));
  ig_width : totalWidth (iq s') = totalWidth (iq s);
  ig_insts : iqInsts (iq s') = iqInsts (iq s);
  ig_lists : memLists (iq s') = memLists (iq s);
  ig_issued : forall q, q ∈ L -> exists c i i', q ∈ readyInsts (ready (iq s)) c /\ heap (iqmem s) !! q = Some i /\
    isSquashed i = false /\ heap (iqmem s') !! q = Some i' /\ isIssued i' = true
}.

Lemma issues_refl s : issues s s [].
Proof.
  split; try done; [apply extends_refl|by rewrite app_nil_r|by intros q ?%elem_of_nil].
Qed.

Lemma issues_trans s1 s2 s3 L1 L2 : issues s1 s2 L1 -> issues s2 s3 L2 -> issues s1 s3 (L1 ++ L2).
Proof.
  intros [A1 A2 A3 A4 A5 A6 A7 A8 A9] [B1 B2 B3 B4 B5 B6 B7 B8 B9]. split; try congruence; eauto using extends_trans, poolGrows_trans.
  - intros x Hx. rewrite B2, A2 by set_solver. done.
  - by rewrite B4, A4, app_assoc.
  - intros q Hq. destruct (decide (q ∈ L1)) as [H1|H1].
    + destruct (A9 q H1) as (c & i & i' & K1 & K2 & K3 & K4 & K5). destruct (decide (q ∈ L2)) as [H2|H2].
      * destruct (B9 q H2) as (_ & _ & i2 & _ & _ & _ & J4 & J5). by exists c, i, i2.
      * exists c, i, i'. by rewrite B2.
    + apply elem_of_app in Hq as [?|Hq]; [done|]. destruct (B9 q Hq) as (c & i & i' & K1 & K2 & K3 & K4 & K5).
      exists c, i, i'. rewrite <- (A2 q H1). split_and!; try done. by apply A3.
Qed.

Section Round.
Context (s : IQS) (before behind : list (nat * ListOrderEntry)) (n : nat) (e : ListOrderEntry) (p : InstPtr) (i : DynInst) (l : list InstPtr).
Hypothesis HI : IQInv s.
Hypothesis HL : listOrder (ready (iq s)) = before ++ (n, e) :: behind.
Hypothesis Hq : readyInsts (ready (iq s)) (queueType e) = p :: l.
Hypothesis Hi : heap (iqmem s) !! p = Some i.

(** The oldest instruction of the class, squashed, is dropped. *)
Lemma round_squashed : isSquashed i = true ->
  exists behind' r, popReady (iqmem s) before (n, e) behind (ready (iq s)) = Ok (behind', r) /\
    let s' := eraseHere before behind' (setReady r s) in
    IQInv s' /\ issues s s' [] /\ listOrder (ready (iq s')) = before ++ behind' /\
    (issueFuel (ready (iq s')) behind' < issueFuel (ready (iq s)) ((n, e) :: behind))%nat /\ fuPool (iq s') = fuPool (iq s).
Proof.
  intros Hsq. pose proof (rd_lists _ _ _ _ (iv_ready _ HI)) as HR.
  destruct (popReady_ok (iqmem s) (ready (iq s)) before n e behind HR HL) as (behind' & r & E & HR' & Er & _).
  rewrite Hq in Er. cbn [list.tail] in Er. exists behind', r. split; [done|]. cbv zeta.
  pose proof (issueFuel_pop _ _ _ _ _ _ _ _ _ _ HR HL Hq E) as Hf.
  assert (HI' : IQInv (setReady (r <| listOrder := before ++ behind' |>) s)).
  { apply (dropSquashed_ok s p i (queueType e) l); done. }
  split; [exact HI'|]. split; [|done]. split; try done; [apply extends_refl| |by rewrite app_nil_r|by intros q ?%elem_of_nil].
  intros c x. cbn. by apply (issue_sub s p (queueType e) l).
Qed.

(** It issues: a unit is free, or it needs none. *)
Lemma round_issued idx pool : isSquashed i = false ->
  pool_inv (pool, withUnit idx (heldUnits (events s))) -> poolGrows (fuPool (iq s)) pool ->
  let s1 := updIQ (fun q => q <| fuPool := pool |>) s in
  exists s2 behind' r s3, startExecution p (queueType e) idx s1 = Ok s2 /\
    popReady (iqmem s2) before (n, e) behind (ready (iq s2)) = Ok (behind', r) /\
    leaveQueue p i (setReady r s2) = Ok s3 /\
    let s' := eraseHere before behind' s3 in
    IQInv s' /\ issues s s' [p] /\ listOrder (ready (iq s')) = before ++ behind' /\
    (issueFuel (ready (iq s')) behind' < issueFuel (ready (iq s)) ((n, e) :: behind))%nat.
Proof.
  intros Hsq HP HG s1. destruct (iv_exec _ HI) as [_ Hun Hbuf].
  destruct (startExecution_ok p (queueType e) idx s1) as (b & x & pool' & wb & ev & E1 & HE & HG' & Hst); [done..|].
  set (s2 := putExec b x pool' wb ev s). assert (HI2 : IQInv s2) by (by apply IQInv_exec).
  pose proof (rd_lists _ _ _ _ (iv_ready _ HI2)) as HR.
  destruct (popReady_ok (iqmem s2) (ready (iq s2)) before n e behind HR HL) as (behind' & r & E & HR' & Er & _).
  change (readyInsts (ready (iq s2)) (queueType e)) with (readyInsts (ready (iq s)) (queueType e)) in Er. rewrite Hq in Er. cbn [list.tail] in Er.
  destruct (leaveQueue_ok s2 p i (queueType e) l (r <| listOrder := before ++ behind' |>) HI2 Hq Hi HR' Er r Hsq)
    as (s3 & i' & E3 & HI3 & [F1 F2 F3 F4 F5 F6 F7] & Em & Hia).
  exists s2, behind', r, s3. split; [exact E1|]. split; [exact E|]. split; [exact E3|]. cbv zeta.
  pose proof (issueFuel_pop _ _ _ _ _ _ _ _ _ _ HR HL Hq E) as Hf.
  assert (Es : eraseHere before behind' s3 = setReady (r <| listOrder := before ++ behind' |>) s3) by (unfold eraseHere; by rewrite F1).
  rewrite Es. split; [done|]. split; [|split; [done|exact Hf]]. pose proof Hia as (Hs & Hiss & _).
  split; cbn; rewrite ?Em.
  - eapply setHeap_extends; [exact Hi|apply Hs].
  - intros y Hy. apply setHeap_ne. set_solver.
  - intros c y. by apply (issue_sub s p (queueType e) l).
  - unfold started. cbn. rewrite F2, F3. exact Hst.
  - rewrite F4. by eapply poolGrows_trans.
  - by rewrite F5.
  - by rewrite F6.
  - exact F7.
  - intros y ->%list_elem_of_singleton. exists (queueType e), i, i'. rewrite setHeap_eq. split_and!; [|done..]. rewrite Hq. by left.
Qed.
End Round.

(** Issue respects age: what stays ready is not older than anything that has
    issued, unless its class has no free unit. *)
Definition ageOrder (s : IQS) (L : list InstPtr) : Prop :=
  forall q c x, q ∈ L -> x ∈ readyInsts (ready (iq s)) c -> noneFree c (fuPool (iq s)) \/ seqOf (iqmem s) q <= seqOf (iqmem s) x.

(** A class that the loop has passed has no free unit. *)
Definition passed (s : IQS) (before : list (nat * ListOrderEntry)) : Prop :=
  forall x, x ∈ before -> noneFree (queueType (snd x)) (fuPool (iq s)).

Lemma issues_seqOf s s' L x c : IQInv s -> issues s s' L -> x ∈ readyInsts (ready (iq s)) c -> seqOf (iqmem s') x = seqOf (iqmem s) x.
Proof.
  intros HI Hg Hx. destruct (rl_heap _ _ (rd_lists _ _ _ _ (iv_ready _ HI)) c x Hx) as (i & Hi & _).
  by eapply seqOf_extends; [apply Hg|].
Qed.

Lemma ageOrder_issues s s' L L0 : IQInv s -> issues s s' L -> (forall q, q ∈ L0 -> is_Some (heap (iqmem s) !! q)) ->
  ageOrder s L0 -> ageOrder s' L0.
Proof.
  intros HI Hg Hin HA q c x Hq Hx. pose proof (ig_ready _ _ _ Hg c x Hx) as Hx'. destruct (HA q c x Hq Hx') as [Hn|Hle].
  - left. eapply noneFree_grows; [apply Hg|done].
  - right. rewrite (issues_seqOf _ _ _ _ _ HI Hg Hx'). destruct (Hin q Hq) as [j Hj].
    rewrite (seqOf_extends (iqmem s) (iqmem s') q j); [done|apply Hg|done].
Qed.

Lemma passed_issues s s' L before : issues s s' L -> passed s before -> passed s' before.
Proof. intros Hg Hp x Hx. eapply noneFree_grows; [apply Hg|]. by apply Hp. Qed.

(** The oldest of the classes that have not been passed. *)
Lemma ageOrder_head s before n e behind p l L : IQInv s -> listOrder (ready (iq s)) = before ++ (n, e) :: behind ->
  readyInsts (ready (iq s)) (queueType e) = p :: l -> passed s before -> ageOrder s L -> ageOrder s (L ++ [p]).
Proof.
  intros HI HL Hq Hp HA q c x [Hin| ->%list_elem_of_singleton]%elem_of_app Hx; [by apply HA|].
  pose proof (rd_lists _ _ _ _ (iv_ready _ HI)) as HR.
  destruct (rl_all _ _ HR c) as [k Hk]; [by intros E; rewrite E in Hx; apply elem_of_nil in Hx|].
  apply (rl_it _ _ HR) in Hk as (f & Hf & <-). destruct (rl_top _ _ HR _ _ Hf) as (y & l' & Ey & Ho).
  assert (Hyx : seqOf (iqmem s) y <= seqOf (iqmem s) x).
  { pose proof (rl_queue _ _ HR (queueType f)) as Hs. rewrite Ey in Hs, Hx. apply StronglySorted_inv in Hs as [_ Hs].
    rewrite list_relations.list.Forall_forall in Hs. apply elem_of_cons in Hx as [->|Hx]; [lia|by apply Hs]. }
  pose proof (rl_order _ _ HR) as Hord. rewrite HL in Hf, Hord. apply elem_of_app in Hf as [Hf|Hf]; [left; by apply (Hp (k, f))|].
  right. destruct (rl_top _ _ HR n e) as (y0 & l0 & E0 & Ho0); [rewrite HL; set_solver|]. rewrite Hq in E0. injection E0 as <- <-.
  assert (oldestInst e <= oldestInst f).
  { apply elem_of_cons in Hf as [[= -> ->]|Hf]; [lia|]. apply StronglySorted_app_1_r, StronglySorted_inv in Hord as [_ Hord].
    rewrite list_relations.list.Forall_forall in Hord. by apply (Hord (k, f)). }
  lia.
Qed.

(** At the end of the list every class with ready instructions has been passed. *)
Lemma passed_all s before c x : IQInv s -> listOrder (ready (iq s)) = before ++ [] -> passed s before ->
  x ∈ readyInsts (ready (iq s)) c -> noneFree c (fuPool (iq s)).
Proof.
  intros HI HL Hp Hx. pose proof (rd_lists _ _ _ _ (iv_ready _ HI)) as HR. rewrite app_nil_r in HL.
  destruct (rl_all _ _ HR c) as [k Hk]; [by intros E; rewrite E in Hx; apply elem_of_nil in Hx|].
  apply (rl_it _ _ HR) in Hk as (f & Hf & <-). rewrite HL in Hf. by apply (Hp (k, f)).
Qed.

(** A class without a free unit is passed. *)
Lemma round_blocked s pool : IQInv s -> pool_inv (pool, withUnit NoFreeFU (heldUnits (events s))) -> poolGrows (fuPool (iq s)) pool ->
  let s' := updIQ (fun q => q <| fuPool := pool |>) s in IQInv s' /\ issues s s' [].
Proof.
  intros HI HP HG s'. destruct (iv_exec _ HI) as [_ Hun Hbuf]. split.
  - apply (IQInv_exec s (issueToExecute (iq s)) (instsToExecute (iq s)) pool (wbOutstanding (iq s)) (events s) HI). by split.
  - split; try done; [apply extends_refl|by rewrite app_nil_r|by intros q ?%elem_of_nil].
Qed.

Lemma issueLoop_ok fuel : forall total before behind s L, IQInv s -> listOrder (ready (iq s)) = before ++ behind ->
  (issueFuel (ready (iq s)) behind <= fuel)%nat -> passed s before -> ageOrder s L ->
  (forall q, q ∈ L -> is_Some (heap (iqmem s) !! q)) ->
  exists s' L', issueLoop fuel total before behind s = Ok (total + Z.of_nat (length L'), s') /\
    IQInv s' /\ issues s s' L' /\ ageOrder s' (L ++ L') /\ total + Z.of_nat (length L') <= Z.max total (totalWidth (iq s)) /\
    (total + Z.of_nat (length L') < totalWidth (iq s) -> forall c x, x ∈ readyInsts (ready (iq s')) c -> noneFree c (fuPool (iq s'))).
Proof.
  induction fuel as [|fuel IH]; intros total before behind s L HI HL Hfuel Hp HA Hin; cbn [issueLoop];
    (destruct (Z.ltb_spec total (totalWidth (iq s))) as [Hw|Hw]; cbn [negb];
      [|exists s, []; rewrite app_nil_r; cbn; split; [f_equal; f_equal; lia|]; split_and!; [done|apply issues_refl|done|lia|lia]]).
  - destruct behind as [|x behind]; [|cbn in Hfuel; lia]. exists s, []. rewrite app_nil_r. cbn. split; [f_equal; f_equal; lia|].
    split_and!; [done|apply issues_refl|done|lia|]. intros _ c x. by apply (passed_all s before).
  - destruct behind as [|[n e] behind].
    { exists s, []. rewrite app_nil_r. cbn. split; [f_equal; f_equal; lia|]. split_and!; [done|apply issues_refl|done|lia|]. intros _ c x. by apply (passed_all s before). }
    pose proof (rd_lists _ _ _ _ (iv_ready _ HI)) as HR. cbn [snd].
    destruct (rl_top _ _ HR n e) as (p & l & Hq & Ho); [rewrite HL; set_solver|]. rewrite Hq.
    destruct (rl_heap _ _ HR (queueType e) p) as (i & Hi & _); [rewrite Hq; by left|].
    unfold getInst. rewrite Hi. cbn [deref mbind res_bind]. unfold seqOf in Ho. rewrite Hi in Ho. rewrite Ho, Z.eqb_refl. cbn [assertR mbind res_bind].
    destruct (isSquashed i) eqn:Hsq.
    + destruct (round_squashed s before behind n e p i l HI HL Hq Hi Hsq) as (behind' & r & E & HI' & Hg & HL' & Hf & Epool).
      rewrite E. cbn [mbind res_bind].
      destruct (IH total before behind' (eraseHere before behind' (setReady r s)) L HI' HL') as (s' & L' & E' & HI2 & Hg2 & HA2 & Hw2 & Hn2); [lia|..].
      * eapply passed_issues; [exact Hg|done].
      * eapply ageOrder_issues; [exact HI|exact Hg|done|done].
      * done.
      * exists s', L'. split; [exact E'|]. split; [done|]. split; [by apply (issues_trans _ _ _ [] L' Hg)|]. done.
    + destruct (findUnit_ok (queueType e) s (heldUnits (events s)) (ex_pool _ _ _ (iv_exec _ HI))) as (idx & pool & E & HP & HG & Hnf).
      rewrite E. cbn [mbind res_bind]. destruct (Z.eqb_spec idx NoFreeFU) as [->|Hidx]; cbn [negb].
      * specialize (Hnf eq_refl). destruct (round_blocked s pool HI HP HG) as [HI' Hg].
        destruct (IH total (before ++ [(n, e)]) behind (updIQ (fun q => q <| fuPool := pool |>) s) L HI') as (s' & L' & E' & HI2 & Hg2 & HA2 & Hw2 & Hn2).
        -- rewrite <- app_assoc. exact HL.
        -- cbn in *. unfold issueFuel in Hfuel |- *. cbn in Hfuel. lia.
        -- intros x [Hx| ->%list_elem_of_singleton]%elem_of_app; [|done]. by apply (passed_issues _ _ _ _ Hg Hp).
        -- eapply ageOrder_issues; [exact HI|exact Hg|done|done].
        -- done.
        -- exists s', L'. split; [exact E'|]. split; [done|]. split; [by apply (issues_trans _ _ _ [] L' Hg)|]. done.
      * destruct (round_issued s before behind n e p i l HI HL Hq Hi idx pool Hsq HP HG)
          as (s2 & behind' & r & s3 & E2 & Ep & El & HI' & Hg & HL' & Hf).
        rewrite E2. cbn [mbind res_bind]. rewrite Ep. cbn [mbind res_bind]. rewrite El. cbn [mbind res_bind].
        assert (HA' : ageOrder (eraseHere before behind' s3) (L ++ [p])).
        { eapply ageOrder_issues; [exact HI|exact Hg| |by eapply ageOrder_head].
          intros q [Hx| ->%list_elem_of_singleton]%elem_of_app; [by apply Hin|by exists i]. }
        destruct (IH (total + 1) before behind' _ (L ++ [p]) HI' HL') as (s' & L' & E' & HI2 & Hg2 & HA2 & Hw2 & Hn2); [lia|..].
        -- eapply passed_issues; [exact Hg|done].
        -- done.
        -- intros q Hx. assert (exists j, heap (iqmem s) !! q = Some j) as [j Hj].
           { apply elem_of_app in Hx as [Hx| ->%list_elem_of_singleton]; [by apply Hin|eauto]. }
           destruct (ig_mem _ _ _ Hg q j Hj) as (j' & -> & _). done.
        -- pose proof (ig_width _ _ _ Hg) as Ew. exists s', (p :: L'). rewrite E'. cbn [length]. split; [do 2 f_equal; lia|]. split; [done|].
           split; [exact (issues_trans _ _ _ [p] L' Hg Hg2)|]. rewrite <- app_assoc in HA2. split; [done|]. rewrite Ew in Hw2, Hn2.
           split; [lia|]. intros Hlt. apply Hn2. lia.
Qed.

(** ** [scheduleReadyInsts] *)

Lemma scheduleReadyInsts_inv s : IQInv s ->
  exists s' L, scheduleReadyInsts s = Ok s' /\ IQInv s' /\ ageOrder s' L /\ started s' ≡ₚ started s ++ L /\
    Z.of_nat (length L) <= Z.max 0 (totalWidth (iq s)) /\
    (Z.of_nat (length L) < totalWidth (iq s) -> forall c x, x ∈ readyInsts (ready (iq s')) c -> noneFree c (fuPool (iq s'))) /\
    extends (iqmem s) (iqmem s') /\
    (forall x, x ∉ L -> heap (iqmem s') !! x = heap (iqmem s) !! x) /\
    (forall q, q ∈ L -> exists i i', heap (iqmem s) !! q = Some i /\ isSquashed i = false /\
       heap (iqmem s') !! q = Some i' /\ isIssued i' = true).
Proof.
  intros HI. unfold scheduleReadyInsts.
  destruct (addDeferred_ok (length (deferredMemInsts (iq s))) s HI) as (s1 & -> & HI1 & HF1); [done|]. cbn [mbind res_bind].
  destruct (addBlocked_ok (length (retryMemInsts (iq s1))) s1 HI1) as (s2 & -> & HI2 & HF2); [done|]. cbn [mbind res_bind].
  pose proof (joinFrame_trans _ _ _ HF1 HF2) as [J1 J2 J3 J4 J5 J6].
  destruct (issueLoop_ok _ 0 [] (listOrder (ready (iq s2))) s2 [] HI2 eq_refl (le_n _)) as (s3 & L & E & HI3 & Hg & HA & Hw & Hn);
    [by intros x ?%elem_of_nil|by intros x c y ?%elem_of_nil|by intros x ?%elem_of_nil|].
  rewrite E. cbn [mbind res_bind]. rewrite J5 in Hw, Hn. destruct Hg as [G1 G2 G3 G4 G5 G6 G7 G8 G9].
  match goal with |- context [if ?b then _ else _] => set (a := b) end.
  assert (Hact : exists b, (if a then s3 <| activity := true |> else s3) = s3 <| activity := b |>).
  { destruct a; [by exists true|]. exists (activity s3). by destruct s3. }
  destruct Hact as [b ->]. exists (s3 <| activity := b |>), L. split; [done|].
  split; [destruct HI3; by split|]. split; [exact HA|].
  split; [change (started s3 ≡ₚ started s ++ L); rewrite G4; unfold started; by rewrite J2, J3|].
  split; [lia|]. split; [done|]. rewrite J1 in G1, G2, G9. split; [done|]. split; [done|].
  intros q Hq. destruct (G9 q Hq) as (c & i & i' & _ & K2 & K3 & K4 & K5). by exists i, i'.
Qed.

(** ** Completion *)

Lemma heldUnits_split l1 e l2 : heldUnits (l1 ++ e :: l2) ≡ₚ (if freeFU e then [Z.to_nat (fuIdx e)] else []) ++ heldUnits (l1 ++ l2).
Proof.
  unfold heldUnits. rewrite !list_basics.list.filter_app, filter_cons. destruct (freeFU e) eqn:Ef.
  - rewrite decide_True by done. rewrite !fmap_app. cbn. by rewrite Permutation_middle.
  - by rewrite decide_False.
Qed.

(** An instruction that executed for more than a cycle is done. *)
Lemma processCompletion_inv s l1 e l2 : IQInv s -> events s = l1 ++ e :: l2 ->
  exists s', processCompletion false e (withEvents (l1 ++ l2) s) = Ok s' /\ IQInv s' /\
    instsToExecute (iq s') = instsToExecute (iq s) ++ [fc_inst e] /\ events s' = l1 ++ l2.
Proof.
  intros HI Hev. destruct (iv_exec _ HI) as [HP Hun Hbuf]. rewrite Hev in HP, Hun.
  unfold processCompletion, processFUCompletion. cbn [negb assertR mbind res_bind]. set (s1 := updIQ _ _ <| activity := true |>).
  pose proof (pool_inv_perm _ _ _ (heldUnits_split l1 e l2) HP) as HP1.
  assert (Hx : exists pool, (if -1 <? (if freeFU e then fuIdx e else -1) then onPool (freeUnitNextCycle (Z.to_nat (if freeFU e then fuIdx e else -1))) s1 else Ok s1) =
            Ok (updIQ (fun q => q <| fuPool := pool |>) s1) /\ pool_inv (pool, heldUnits (l1 ++ l2))).
  { destruct (freeFU e) eqn:Ef.
    - assert (0 <= fuIdx e) by (apply (Hun e); [set_solver|done]). rewrite (proj2 (Z.ltb_lt _ _)) by lia.
      destruct (freeUnit_ok (fuIdx e) (heldUnits (l1 ++ l2)) s1) as (pool & E & HP2 & _); [done|done|]. eauto.
    - exists (fuPool (iq s)). split; [by destruct s as [[] ? ? ?]|done]. }
  destruct Hx as (pool & -> & HP2). cbn [mbind res_bind].
  destruct (toExecute_ok (-1) (fc_inst e) (updIQ (fun q => q <| fuPool := pool |>) s1)) as (b & E & Hb); [done|by right|].
  rewrite E. eexists. split; [reflexivity|]. split; [|done].
  assert (HE : ExecInv pool (l1 ++ l2) b).
  { split; [done| |done]. intros e' He'. apply Hun. set_solver. }
  destruct HI as [H1 H2 H3 H4 H5 H6 H7]. by split.
Qed.

(** ** The other steps of a cycle *)

(** Units are freed at the end of the cycle, and the buffer moves on. *)
Definition freeUnits (s : IQS) : res IQS := onPool processFreeUnits s.
Definition nextCycle (s : IQS) : IQS := updIQ (fun q => q <| issueToExecute := advance 0 (issueToExecute q) |>) s.

Lemma freeUnits_inv s : IQInv s -> exists s', freeUnits s = Ok s' /\ IQInv s'.
Proof.
  intros HI. destruct (iv_exec _ HI) as [HP Hun Hbuf]. destruct (process_inv _ HP) as ([pool h] & E & HP' & _ & Eh). cbn in E, Eh.
  unfold freeUnits, onPool. destruct (processFreeUnits _) as [pool'| |]; try done. cbn [mbind res_bind] in E |- *. injection E as -> <-.
  eexists. split; [done|]. destruct HI as [H1 H2 H3 H4 H5 H6 H7]. by split.
Qed.

Lemma nextCycle_inv s : IQInv s -> IQInv (nextCycle s).
Proof.
  intros HI. destruct (iv_exec _ HI) as [HP Hun [Hb Hp]]. destruct HI as [H1 H2 H3 H4 H5 H6 H7]. split; try done. cbn. split; [done..|].
  destruct (advance_ok 0 (issueToExecute (iq s)) Hb) as (Hb' & Ep & _). split; [done|]. by rewrite Ep.
Qed.

Lemma getInstToExecute_inv s : IQInv s -> instsToExecute (iq s) <> [] ->
  exists p s', getInstToExecute s = Ok (p, s') /\ IQInv s' /\ instsToExecute (iq s) = p :: instsToExecute (iq s').
Proof.
  intros HI Hne. unfold getInstToExecute. destruct (instsToExecute (iq s)) as [|p l] eqn:E; [done|]. eexists p, _. split; [done|].
  split; [|done]. destruct HI as [H1 H2 H3 H4 H5 H6 H7]. by split.
Qed.
