(* ===== verification/InstQueueProps.v ===== *)
(** * Properties of the instruction queue

    The sequences of calls that the other stages make, from the constructed queue
    on, and what holds in all of them. *)

From stdpp Require Import base numbers list gmap functions sorting.
From S2P Require Import Prelude Double Regs DynInst ROB TimeBuffer StoreSet FUPool MemDep MemDepSpec MemDepProps InstQueueUnit DepGraph ReadyList InstQueue InstQueueSpec InstQueueWake InstQueueInv InstQueueOps InstQueueInsert InstQueueWakeup InstQueueSquash InstQueueIssue.

#[local] Open Scope Z_scope.

(** ** Runs *)

(** The parameters of the constructor; the pool and the buffer are built by CPU and
    IEW. *)
Record IQConfig := mkIQConfig {
  cf_units : list FUDesc;
  cf_past : Z; cf_future : Z;                       (* of the issue to execute queue *)
  cf_policy : SMTQueuePolicy;
  cf_threads : nat;
  cf_active : list ThreadID;
  cf_entries : Z; cf_width : Z; cf_threshold : Z;
  cf_int : Z; cf_float : Z; cf_vec : Z; cf_vecPred : Z; cf_mat : Z; cf_cc : Z;
  cf_numRegs : RegClassType -> Z;
  cf_clear : Z; cf_SSIT : Z; cf_LFST : Z
}.

Definition makeIQ (cf : IQConfig) : res InstructionQueue :=
  pool ← FUPool_ctor (cf_units cf);
  b ← TimeBuffer_ctor 0 (cf_past cf) (cf_future cf);
  Ok (InstructionQueue_ctor pool b (cf_policy cf) (cf_threads cf) (cf_active cf) (cf_entries cf) (cf_width cf)
        (cf_threshold cf) (cf_int cf) (cf_float cf) (cf_vec cf) (cf_vecPred cf) (cf_mat cf) (cf_cc cf)
        (cf_numRegs cf) (cf_clear cf) (cf_SSIT cf) (cf_LFST cf)).

(** Each unit lists a class once; writeback comes at least a cycle after issue;
    the tables of the predictor have entries. *)
Record configOK (cf : IQConfig) : Prop := {
  co_units : Forall descOK (cf_units cf);
  co_buf : 1 <= cf_past cf /\ 0 <= cf_future cf /\ cf_past cf + cf_future cf + 1 < 2 ^ 30;
  co_entries : 0 <= cf_entries cf < 2 ^ 32;
  co_pred : 0 < cf_SSIT cf < 2 ^ 31 /\ 0 < cf_LFST cf < 2 ^ 31
}.

(** The calls of rename, IEW and commit, the events, and the two steps with which
    IEW ends a cycle. *)
Inductive IQOp :=
  | QInsert (p : InstPtr) | QInsertNonSpec (p : InstPtr) | QInsertBarrier (p : InstPtr)
  | QRecordProducer (p : InstPtr)
  | QGetInst | QCompletion (k : nat) | QSchedule | QScheduleNonSpec (sn : Z)
  | QCommit (sn : Z) (tid : ThreadID) | QWake (p : InstPtr)
  | QReschedule (p : InstPtr) | QReplay (p : InstPtr) | QDefer (p : InstPtr) | QBlock (p : InstPtr) | QUnblock
  | QViolation (st ld : InstPtr) | QSquash (sn : Z) (tid : ThreadID)
  | QFreeUnits | QAdvance.

Definition runIQ (s : IQS) (op : IQOp) : res IQS :=
  match op with
  | QInsert p => InstQueue.insert p s
  | QInsertNonSpec p => InstQueue.insertNonSpec p s
  | QInsertBarrier p => InstQueue.insertBarrier p s
  | QRecordProducer p => recordProducer p s
  | QGetInst => '(_, s) ← getInstToExecute s; Ok s
  | QCompletion k =>
      match events s !! k with
      | Some e => processCompletion false e (withEvents (take k (events s) ++ drop (S k) (events s)) s)
      | None => Undef
      end
  | QSchedule => scheduleReadyInsts s
  | QScheduleNonSpec sn => scheduleNonSpec sn s
  | QCommit sn tid => InstQueue.commit sn tid s
  | QWake p => '(_, s) ← InstQueue.wakeDependents p s; Ok s
  | QReschedule p => rescheduleMemInst p s
  | QReplay p => replayMemInst p s
  | QDefer p => Ok (deferMemInst p s)
  | QBlock p => blockMemInst p s
  | QUnblock => Ok (cacheUnblocked s)
  | QViolation st ld => InstQueue.violation st ld s
  | QSquash sn tid => InstQueue.squash sn tid s
  | QFreeUnits => freeUnits s
  | QAdvance => Ok (nextCycle s)
  end.

(** What the callers ensure: instructions are inserted once, in program order, and
    only while there are entries; only what executes is deferred, blocked or
    rescheduled; only what has executed writes back; only what has released its
    entry commits.  A squash has the condition that [doSquash] itself asserts: a
    non-speculative instruction that commit has already released and that still
    holds its entry has a fault or is a memory instruction ([squashOK]). *)
Definition allowedIQ (s : IQS) (op : IQOp) : Prop :=
  match op with
  | QInsert p => exists i, newInst s p i /\ insertable i
  | QInsertNonSpec p =>
      exists i, newInst s p i /\ tracked i = false /\ (isMemRef i = true -> speculative i = false)
  | QInsertBarrier p =>
      exists i, newInst s p i /\ tracked i = false /\ isMemRef i = false /\
        fresh (threadNumber i) (mkMDS (memDepUnit (iq s) (threadNumber i)) (iqmem s) []) i
  | QRecordProducer p =>
      exists i, heap (iqmem s) !! p = Some i /\ regsOK (length (regScoreboard (iq s))) i /\
        newRegs (iqInsts (iq s)) (iqmem s) i
  | QGetInst => instsToExecute (iq s) <> []
  | QCompletion k => is_Some (events s !! k)
  | QScheduleNonSpec sn => is_Some (nonSpecInsts (iq s) !! sn)
  | QCommit sn tid =>
      forall p, p ∈ iqInsts (iq s) tid -> seqOf (iqmem s) p <= sn -> holdsAt (iqmem s) p = false
  | QWake p => exists i, writingBack s p i
  | QReschedule p | QDefer p | QBlock p => executing s p
  | QReplay p => is_Some (heap (iqmem s) !! p)
  | QViolation st ld => is_Some (heap (iqmem s) !! st) /\ is_Some (heap (iqmem s) !! ld)
  | QSquash sn tid =>
      forall p i, p ∈ iqInsts (iq s) tid -> heap (iqmem s) !! p = Some i -> sn < seqNum i ->
        squashOK (nonSpecInsts (iq s)) i
  | QSchedule | QUnblock | QFreeUnits | QAdvance => True
  end.

(** The states of the queue.  Between its calls the other stages change the
    instructions: they do not touch what the queue decides. *)
Inductive reachIQ (cf : IQConfig) : IQS -> Prop :=
  | reachIQ_init q m : makeIQ cf = Ok q -> reachIQ cf (mkIQS q m [] false)
  | reachIQ_env s m' : reachIQ cf s -> calm (iqmem s) m' -> reachIQ cf (s <| iqmem := m' |>)
  | reachIQ_step s op s' : reachIQ cf s -> allowedIQ s op -> runIQ s op = Ok s' -> reachIQ cf s'.

(** ** The constructor *)

Lemma chainAt_nil n f : chainAt (resize n DependencyGraph_ctor) f = [].
Proof.
  unfold chainAt. destruct (graph _ !! _) as [d|] eqn:E; [|done].
  cbn in E. rewrite resize_nil in E. apply lookup_replicate in E as [-> _]. done.
Qed.

Lemma makeIQ_inv cf m : configOK cf -> exists q, makeIQ cf = Ok q /\ IQInv (mkIQS q m [] false) /\
  totalWidth q = cf_width cf /\ iqEntries q = cf_entries cf.
Proof.
  intros [Hu (Hb1 & Hb2 & Hb3) He [HS HL]]. unfold makeIQ.
  destruct (FUPool_ctor_ok _ Hu) as (pool & -> & HP). cbn [mbind res_bind].
  destruct (TimeBuffer_ctor_ok 0 (cf_past cf) (cf_future cf)) as (b & -> & Hwf & Ep & _); [lia..|]. cbn [mbind res_bind].
  eexists. split; [done|]. split; [|done]. set (q := InstructionQueue_ctor _ _ _ _ _ _ _ _ _ _ _ _ _ _ _ _ _ _).
  assert (Hno : forall (tid : ThreadID) (p : InstPtr), p ∉ iqInsts q tid) by (intros tid p; apply not_elem_of_nil).
  assert (Hch : forall f, chainAt (dependGraph q) f = []) by (intros f; apply chainAt_nil).
  assert (Hz : foldr (fun tid n => used (iqInsts q) m tid + n) 0 (seq 0 MaxThreads) = 0).
  { by vm_compute. }
  split; cbn [iq iqmem events].
  - split; try (by intros; exfalso; eapply Hno).
    + cbn. by rewrite resize_nil, !length_replicate.
    + intros tid. constructor.
    + intros f _ _. apply Hch.
    + intros f p _ Hp. rewrite Hch in Hp. by apply elem_of_nil in Hp.
  - split; [done|done| |cbn; lia|by intros p i Hp; apply Hno in Hp].
    rewrite Hz. cbn. lia.
  - split; [apply resetReady_inv| |by intros sn p Hn; cbn in Hn; apply lookup_empty_Some in Hn].
    intros p i Hi _ _. split; cbn; [intros c; rewrite occ_nil; lia|intros c; rewrite occ_nil; lia|].
    intros Hp. by apply elem_of_nil in Hp.
  - split.
    + intros tid. exact (init_inv (cf_clear cf) _ _ tid m HS HL).
    + intros p i Hp. by apply Hno in Hp.
    + intros tid p i Hp. by apply elem_of_nil in Hp.
    + intros p [[c Hc]|[Hl|[[t Ht]|(i & _ & Hp & _)]]]; exfalso; [by apply elem_of_nil in Hc|by apply elem_of_nil in Hl|by apply elem_of_nil in Ht|].
      by apply Hno in Hp.
  - change (ExecInv pool [] b). split; [exact HP|by intros e ?%elem_of_nil|]. split; [done|]. by rewrite Ep.
  - intros t t' p p' Hp. by apply Hno in Hp.
  - intros p Hp. by apply elem_of_nil in Hp.
Qed.

(** ** Every operation *)

Lemma runIQ_inv s op : IQInv s -> allowedIQ s op -> exists s', runIQ s op = Ok s' /\ IQInv s'.
Proof.
  intros HI. destruct op; cbn [runIQ allowedIQ].
  - intros (i & HN & Hb). by apply (insert_ok p i).
  - intros (i & HN & Ht & Hs). by apply (insertNonSpec_inv p i).
  - intros (i & HN & Ht & Hm & Hf). by apply (insertBarrier_inv p i).
  - intros (i & Hi & Hr & Hn). by apply (recordProducer_ok p i).
  - intros Hne. destruct (getInstToExecute_inv s HI Hne) as (p & s' & -> & HI' & _). eauto.
  - intros [e He]. rewrite He. destruct (processCompletion_inv s (take k (events s)) e (drop (S k) (events s)) HI) as (s' & -> & HI' & _); [|eauto].
    by rewrite take_drop_middle.
  - intros _. destruct (scheduleReadyInsts_inv s HI) as (s' & L & -> & HI' & _). eauto.
  - by apply scheduleNonSpec_ok.
  - intros Hc. destruct (commit_inv sn tid s HI Hc) as (s' & -> & HI' & _). eauto.
  - intros (i & Hw). destruct (wakeDependents_inv p i s HI Hw) as (n & s' & -> & HI'). eauto.
  - by apply rescheduleMemInst_ok.
  - by apply replayMemInst_ok.
  - intros He. eexists. split; [done|]. by apply deferMemInst_ok.
  - by apply blockMemInst_ok.
  - intros _. eexists. split; [done|]. by apply cacheUnblocked_ok.
  - intros [H1 H2]. by apply iqViolation_ok.
  - intros Hs. destruct (squashIQ_inv sn tid s HI Hs) as (s' & -> & HI' & _). eauto.
  - intros _. by apply freeUnits_inv.
  - intros _. eexists. split; [done|]. by apply nextCycle_inv.
Qed.

Lemma reachIQ_inv cf s : configOK cf -> reachIQ cf s -> IQInv s.
Proof.
  intros Hcf. induction 1 as [q m Hq|s m' _ IH Hc|s op s' _ IH Ho Hr].
  - destruct (makeIQ_inv cf m Hcf) as (q' & E & HI & _). congruence.
  - by apply IQInv_calm.
  - destruct (runIQ_inv s op IH Ho) as (s1 & E & HI). congruence.
Qed.

(** ** What holds in all runs *)

(** C22: In every reachable state of the instruction queue every operation that its
    callers may call succeeds: no assertion fails, no dangling pointer or iterator
    is followed, every loop ends, and the calls it makes of the memory dependence
    units, the dependency graph, the ready queues and the functional units stay
    within what those allow.  What the callers ensure is [allowedIQ]; for a squash
    it includes the assertion [doSquash] makes on released instructions. *)
Theorem iq_ops_safe cf s op : configOK cf -> reachIQ cf s -> allowedIQ s op ->
  exists s', runIQ s op = Ok s' /\ reachIQ cf s'.
Proof.
  intros Hcf Hs Ho. destruct (runIQ_inv s op (reachIQ_inv cf s Hcf Hs) Ho) as (s' & E & _). exists s'. split; [done|].
  by eapply reachIQ_step.
Qed.

(** Nothing is missing for instruction [i] to issue: its registers, or, outside the
    dependency graph, commit's permission. *)
Definition awake (s : IQS) (i : DynInst) : bool :=
  if tracked i then bool_decide (pend (regScoreboard (iq s)) i = [])
  else bool_decide (nonSpecInsts (iq s) !! seqNum i = None).

(** C23: Wake-up is exact: an instruction in the queue, other than a memory
    instruction, that is not squashed is in the ready queue of its class once if it
    has not issued and all its registers have been produced (or, outside the
    dependency graph, commit has let it go), and otherwise in none; it is in the
    ready queue of no other class. *)
Theorem iq_wakeup_exact cf s p i c : configOK cf -> reachIQ cf s ->
  heap (iqmem s) !! p = Some i -> p ∈ iqInsts (iq s) (threadNumber i) -> isMemRef i = false -> isSquashed i = false ->
  occ p (readyInsts (ready (iq s)) c) =
    if bool_decide (c = instOpClass i) && negb (isIssued i) && awake s i then 1%nat else 0%nat.
Proof.
  intros Hcf Hs Hi Hp Hm Hsq. pose proof (reachIQ_inv cf s Hcf Hs) as HI. pose proof (iv_wake _ HI) as HW.
  destruct (rd_each _ _ _ _ (iv_ready _ HI) p i Hi Hm Hsq) as [O1 O2 O3]. specialize (O2 c). cbv beta in O2.
  assert (Hw : (if tracked i then readyToIssue i = true else bool_decide (is_Some (nonSpecInsts (iq s) !! seqNum i)) = false) <->
            awake s i = true).
  { unfold awake. destruct (tracked i) eqn:Et; rewrite bool_decide_eq_true.
    - destruct (wk_issue _ _ _ _ HW p i Hp Hi Et) as [K1 K2]. split; [auto|]. by apply K2.
    - rewrite bool_decide_eq_false, eq_None_not_Some. done. }
  destruct (bool_decide (c = instOpClass i) && negb (isIssued i) && awake s i) eqn:Hc.
  - apply andb_true_iff in Hc as [[Ec Hiss]%andb_true_iff Ha]. apply bool_decide_eq_true in Ec. subst c. apply negb_true_iff in Hiss.
    specialize (O3 Hp Hiss (proj2 Hw Ha)). cbv beta in O3. lia.
  - destruct (occ p _) as [|n] eqn:E; [done|]. exfalso. destruct (O1 c) as (_ & Hiss & Hri & Hns); [lia|].
    assert (Hx : p ∈ readyInsts (ready (iq s)) c) by (apply occ_pos; lia).
    destruct (rl_heap _ _ (rd_lists _ _ _ _ (iv_ready _ HI)) c p Hx) as (j & Hj & <-). assert (j = i) as -> by congruence.
    rewrite bool_decide_eq_true_2 in Hc by done. rewrite Hiss in Hc. cbn in Hc.
    rewrite (proj1 Hw) in Hc; [done|]. by destruct (tracked i).
Qed.

(** C25: A memory instruction in a ready queue that is in the queue and has not
    completed has all its registers, does not wait for commit, and waits for no
    other instruction in the memory dependence unit of its thread. *)
Theorem iq_mem_ready cf s p i c : configOK cf -> reachIQ cf s ->
  p ∈ readyInsts (ready (iq s)) c -> heap (iqmem s) !! p = Some i -> p ∈ iqInsts (iq s) (threadNumber i) ->
  isMemRef i = true -> memOpDone i = false ->
  (tracked i = true -> pend (regScoreboard (iq s)) i = []) /\ (forall sn, nonSpecInsts (iq s) !! sn <> Some p) /\
  exists w, waiting (absMD (mkMDS (memDepUnit (iq s) (threadNumber i)) (iqmem s) [])) !! seqNum i = Some w /\
    w_inst w = p /\ w_on w = ∅.
Proof.
  intros Hcf Hs Hc Hi Hp Hm Hd. pose proof (reachIQ_inv cf s Hcf Hs) as HI. pose proof (iv_unit _ HI) as HU.
  assert (Hh : handed (iq s) (iqmem s) p) by (left; by exists c).
  destruct (un_pool _ _ _ _ _ HU p Hh) as (j & Hj & Hz). assert (j = i) as -> by congruence. destruct (Hz Hm) as [_ Hz'].
  specialize (Hz' Hp Hd). split; [|split].
  - intros Ht. rewrite misses_tracked in Hz' by done. by apply nil_length_0.
  - intros sn Hn. destruct (rd_ns _ _ _ _ (iv_ready _ HI) sn p Hn) as (j & Hj' & Es & _ & Ht & _). assert (j = i) as -> by congruence.
    unfold misses in Hz'. rewrite Ht, Es, decide_True in Hz' by done. done.
  - destruct (handed_inUnit s p i HI Hi Hp Hm Hd Hh) as (e & en & Hu & Hz0). pose proof (un_inv _ _ _ _ _ HU (threadNumber i)) as HM.
    destruct (inUnit_alive _ _ _ _ _ _ HM Hu) as (_ & Hmd & Hw). eexists. split; [exact Hw|]. split; [done|]. cbn.
    rewrite Hz0 in Hmd. apply leibniz_equiv, size_empty_iff. cbn in Hmd. lia.
Qed.

Lemma counts_used s l : IQInv s ->
  foldr (fun tid n => getCount tid (iq s) + n) 0 l = foldr (fun tid n => used (iqInsts (iq s)) (iqmem s) tid + n) 0 l.
Proof. intros HI. induction l as [|t l IH]; cbn; [done|]. rewrite IH. unfold getCount. by rewrite (ct_count _ _ _ _ _ (iv_count _ HI)). Qed.

(** C26: The entries of the queue are accounted for exactly: the count of a
    thread is the number of its instructions that still hold an entry, the
    counts and the free entries add up to the size of the queue, none of the
    unsigned counters has wrapped around, and the queue reports that it is full
    exactly when every entry is held. *)
Theorem iq_entries cf s : configOK cf -> reachIQ cf s ->
  (forall tid, getCount tid (iq s) = Z.of_nat (length (filter (fun p => holdsAt (iqmem s) p = true) (iqInsts (iq s) tid)))) /\
  numFreeEntries (iq s) + foldr (fun tid n => getCount tid (iq s) + n) 0 (seq 0 MaxThreads) = iqEntries (iq s) /\
  0 <= numFreeEntries (iq s) <= iqEntries (iq s) /\ iqEntries (iq s) < 2 ^ 32 /\
  (isFull (iq s) = true <-> foldr (fun tid n => getCount tid (iq s) + n) 0 (seq 0 MaxThreads) = iqEntries (iq s)).
Proof.
  intros Hcf Hs. pose proof (reachIQ_inv cf s Hcf Hs) as HI. pose proof (iv_count _ HI) as HC. pose proof (ct_range _ _ _ _ _ HC) as [Hf He].
  pose proof (ct_free _ _ _ _ _ HC) as Hfree. rewrite <- (counts_used s _ HI) in Hfree.
  assert (Hpos : 0 <= foldr (fun tid n => getCount tid (iq s) + n) 0 (seq 0 MaxThreads)).
  { clear -HC. induction (seq 0 MaxThreads) as [|t l IH]; cbn; [lia|]. unfold getCount in *. rewrite (ct_count _ _ _ _ _ HC). unfold used. lia. }
  unfold numFreeEntries, isFull. split; [|split; [|split; [|split]]]; [| |lia|lia|].
  - intros tid. apply (ct_count _ _ _ _ _ HC).
  - done.
  - rewrite Z.eqb_eq. lia.
Qed.

(** C24: A cycle of issue, from any reachable state: it issues at most [totalWidth]
    instructions, none of them squashed, each of which starts to execute once; and
    it takes the oldest that can go: an instruction that is still ready afterwards
    needs a functional unit and all units that provide its class are busy, or the
    whole width was used by instructions that are not younger. *)
Theorem iq_issue_oldest_first cf s : configOK cf -> reachIQ cf s ->
  exists s' L, runIQ s QSchedule = Ok s' /\ started s' ≡ₚ started s ++ L /\
    Z.of_nat (length L) <= Z.max 0 (totalWidth (iq s)) /\
    (forall q, q ∈ L -> exists i i', heap (iqmem s) !! q = Some i /\ isSquashed i = false /\
       heap (iqmem s') !! q = Some i' /\ isIssued i' = true) /\
    (forall c x, x ∈ readyInsts (ready (iq s')) c -> noneFree c (fuPool (iq s')) \/
       (totalWidth (iq s) <= Z.of_nat (length L) /\ forall q, q ∈ L -> seqOf (iqmem s') q <= seqOf (iqmem s') x)).
Proof.
  intros Hcf Hs. destruct (scheduleReadyInsts_inv s (reachIQ_inv cf s Hcf Hs)) as (s' & L & E & _ & HA & Hst & Hw & Hn & _ & _ & Hiss).
  exists s', L. split_and!; [done..|]. intros c x Hx. destruct (Z.lt_ge_cases (Z.of_nat (length L)) (totalWidth (iq s))) as [Hlt|Hge].
  { left. by apply (Hn Hlt c x). }
  destruct (decide (Forall (fun q => seqOf (iqmem s') q <= seqOf (iqmem s') x) L)) as [Hall|Hex].
  - right. split; [done|]. by rewrite list_relations.list.Forall_forall in Hall.
  - left. apply not_Forall_Exists in Hex; [|apply _]. apply Exists_exists in Hex as (q & Hq & Hlt).
    destruct (HA q c x Hq Hx) as [?|?]; [done|]. by destruct Hlt.
Qed.

(** C27: A squash removes from the queue exactly the instructions of the thread that
    are younger than the given one.  None of them is left on a list of the
    dependency graph or among those that wait for commit, and the memory dependence
    unit of the thread keeps only older ones. *)
Theorem iq_squash_exact cf s sn tid : configOK cf -> reachIQ cf s -> allowedIQ s (QSquash sn tid) ->
  exists s', runIQ s (QSquash sn tid) = Ok s' /\
    (forall t, iqInsts (iq s') t = if decide (t = tid) then filter (fun p => seqOf (iqmem s) p <= sn) (iqInsts (iq s) t) else iqInsts (iq s) t) /\
    (forall p, p ∈ iqInsts (iq s) tid -> sn < seqOf (iqmem s) p ->
       (forall f, 0 <= f -> p ∉ chainAt (dependGraph (iq s')) f) /\ forall k, nonSpecInsts (iq s') !! k <> Some p) /\
    (forall k w, waiting (absMD (mkMDS (memDepUnit (iq s') tid) (iqmem s') [])) !! k = Some w -> k <= sn).
Proof.
  intros Hcf Hs Ho. pose proof (reachIQ_inv cf s Hcf Hs) as HI. destruct (squashIQ_inv sn tid s HI Ho) as (s' & E & HI' & Hl & Hu).
  exists s'. split; [done|].
  assert (Hl' : forall t, iqInsts (iq s') t = if decide (t = tid) then filter (fun p => seqOf (iqmem s) p <= sn) (iqInsts (iq s) t) else iqInsts (iq s) t).
  { intros t. rewrite Hl. case_decide as Ht; [subst; by rewrite fn_lookup_insert|by rewrite fn_lookup_insert_ne]. }
  split; [exact Hl'|]. split; [|exact Hu]. intros p Hp Hlt.
  assert (Hgone : forall t, p ∉ iqInsts (iq s') t).
  { intros t. rewrite Hl'. case_decide as Ht; [subst; rewrite list_elem_of_filter; lia|]. intros Hp'.
    destruct (wk_inst _ _ _ _ (iv_wake _ HI) _ _ Hp) as (i & Hi & <- & _).
    destruct (wk_inst _ _ _ _ (iv_wake _ HI) _ _ Hp') as (j & Hj & Et & _). congruence. }
  split.
  - intros f Hf Hc. destruct (wk_chain _ _ _ _ (iv_wake _ HI') f p Hf Hc) as (i & _ & Hin & _). by apply Hgone in Hin.
  - intros k Hk. destruct (rd_ns _ _ _ _ (iv_ready _ HI') k p Hk) as (i & _ & _ & Hin & _). by apply Hgone in Hin.
Qed.

(** C28: Every structure of the queue holds instructions of the right kind: the
    list of a thread has instructions of that thread, in program order; the
    ready queue of a class has instructions of the class, the oldest first; the
    age list has one entry for each class with ready instructions, with the
    sequence number of its oldest one, in the order of age; the deferred,
    blocked and retried instructions are memory instructions; the map of those
    that wait for commit is keyed by their sequence numbers; and the dependency
    graph has an entry for each register of the scoreboard. *)
Theorem iq_well_formed cf s : configOK cf -> reachIQ cf s ->
  (forall tid p, p ∈ iqInsts (iq s) tid -> exists i, heap (iqmem s) !! p = Some i /\ threadNumber i = tid) /\
  (forall tid, StronglySorted (fun p q => seqOf (iqmem s) p < seqOf (iqmem s) q) (iqInsts (iq s) tid)) /\
  (forall c, StronglySorted (fun p q => seqOf (iqmem s) p <= seqOf (iqmem s) q) (readyInsts (ready (iq s)) c) /\
     forall p, p ∈ readyInsts (ready (iq s)) c -> exists i, heap (iqmem s) !! p = Some i /\ instOpClass i = c) /\
  StronglySorted older (listOrder (ready (iq s))) /\
  (forall c, match readyInsts (ready (iq s)) c with
     | [] => forall x, x ∈ listOrder (ready (iq s)) -> queueType (snd x) <> c
     | p :: _ => exists n, forall x, x ∈ listOrder (ready (iq s)) /\ queueType (snd x) = c <-> x = (n, mkOrder c (seqOf (iqmem s) p))
     end) /\
  (forall p, p ∈ memLists (iq s) -> exists i, heap (iqmem s) !! p = Some i /\ isMemRef i = true) /\
  (forall sn p, nonSpecInsts (iq s) !! sn = Some p -> exists i, heap (iqmem s) !! p = Some i /\ seqNum i = sn) /\
  length (graph (dependGraph (iq s))) = length (regScoreboard (iq s)).
Proof.
  intros Hcf Hs. pose proof (reachIQ_inv cf s Hcf Hs) as HI. pose proof HI as [HW _ HR _ _ _ HB].
  pose proof (rd_lists _ _ _ _ HR) as HL. split_and!.
  - intros tid p Hp. destruct (wk_inst _ _ _ _ HW _ _ Hp) as (i & Hi & Ht & _). eauto.
  - apply HW.
  - intros c. split; [apply HL|]. apply (rl_heap _ _ HL).
  - apply HL.
  - intros c. destruct (readyInsts (ready (iq s)) c) as [|p l] eqn:Eq.
    + intros [n e] Hx Ec. cbn in Ec. destruct (rl_top _ _ HL n e Hx) as (q & l & E & _). congruence.
    + destruct (rl_all _ _ HL c) as [n Hn]; [by rewrite Eq|]. apply (rl_it _ _ HL) in Hn as (e & He & Ec).
      destruct (rl_top _ _ HL n e He) as (q & l' & E & Eo). rewrite Ec, Eq in E. injection E as <- <-. exists n.
      assert (e = mkOrder c (seqOf (iqmem s) p)) as Ee by (destruct e; cbn in *; congruence). intros [n' e']. split.
      * intros [Hx Ex]. cbn in Ex. destruct (rl_unique _ _ n n' e e' HL He Hx) as [-> ->]; [congruence|]. by rewrite Ee.
      * intros [= -> ->]. rewrite <- Ee. split; [done|]. cbn. by rewrite Ee.
  - exact HB.
  - intros sn p Hn. destruct (rd_ns _ _ _ _ HR sn p Hn) as (i & Hi & E & _). eauto.
  - apply (wk_len _ _ _ _ HW).
Qed.

(** ** Misuse *)

(** A register that still has waiting instructions cannot get a new producer. *)
Lemma addDests_panic p l : forall s, Forall is_Some l -> length (graph (dependGraph (iq s))) = length (regScoreboard (iq s)) ->
  (forall f, f ∈ omap destFlat l -> 0 <= f < Z.of_nat (length (regScoreboard (iq s)))) ->
  (exists f, f ∈ omap destFlat l /\ chainAt (dependGraph (iq s)) f <> []) -> foldR (addDest p) s l = Panic.
Proof.
  induction l as [|o l IH]; intros s Hl HL Hr (f & Hf & Hc); [by apply elem_of_nil in Hf|].
  apply Forall_cons_1 in Hl as [[r ->] Hl]. cbn [foldR]. unfold addDest at 2. cbn [deref mbind res_bind].
  cbn [omap list_omap destFlat] in Hf, Hr. destruct (isFixedMapping r); cbn [mbind res_bind]; [apply IH; eauto|].
  specialize (Hr (flatIndex r) (list_elem_of_here _ _)) as Hr0.
  rewrite emptyAt_ok by (unfold inGraph; lia). cbn [mbind res_bind].
  case_bool_decide as Hnil; cbn [negb mbind res_bind]; [|done].
  destruct (headUpd_ok (dependGraph (iq s)) (flatIndex r) (fun d => d <| producer := Some p |>)) as (g1 & E1 & K1 & K2 & K3);
    [unfold inGraph; lia|done|]. unfold onGraph, setInst. rewrite E1. cbn [mbind res_bind].
  destruct (setRegReady_ok false r (updIQ (fun q => q <| dependGraph := g1 |>) s)) as (sb' & E2 & HL2 & _); [done|].
  rewrite E2. cbn [mbind res_bind]. apply IH; [done|cbn in *; lia| |].
  - intros f' Hf'. cbn in HL2 |- *. rewrite HL2. apply Hr. by right.
  - exists f. apply elem_of_cons in Hf as [->|Hf]; [by rewrite Hnil in Hc|]. split; [done|]. cbn. rewrite K3; [done|].
    destruct (Hr f); [by right|done].
Qed.

(** C29: Misuse of the queue is reported, in any reachable state: inserting an
    instruction, speculative or not, while all entries are held, taking an
    instruction to execute when there is none, releasing a non-speculative
    instruction that does not wait, waking the dependents of a squashed
    instruction, and giving a register a new producer while instructions still
    wait for the old one all stop at an assertion or panic. *)
Theorem iq_misuse_reported cf s p i : configOK cf -> reachIQ cf s -> heap (iqmem s) !! p = Some i ->
  (foldr (fun tid n => getCount tid (iq s) + n) 0 (seq 0 MaxThreads) = iqEntries (iq s) ->
     runIQ s (QInsert p) = Panic /\ runIQ s (QInsertNonSpec p) = Panic) /\
  (instsToExecute (iq s) = [] -> runIQ s QGetInst = Panic) /\
  (forall sn, nonSpecInsts (iq s) !! sn = None -> runIQ s (QScheduleNonSpec sn) = Panic) /\
  (isSquashed i = true -> runIQ s (QWake p) = Panic) /\
  (regsOK (length (regScoreboard (iq s))) i -> (exists f, f ∈ destFlats i /\ chainAt (dependGraph (iq s)) f <> []) ->
     runIQ s (QRecordProducer p) = Panic).
Proof.
  intros Hcf Hs Hi. pose proof (reachIQ_inv cf s Hcf Hs) as HI. cbn [runIQ]. split_and!.
  - intros Hfull. pose proof (iv_count _ HI) as HC.
    assert (Hz : freeEntries (iq s) = 0).
    { pose proof (ct_free _ _ _ _ _ HC) as Hf. rewrite (counts_used s _ HI) in Hfull. lia. }
    unfold InstQueue.insert, InstQueue.insertNonSpec, getInst. rewrite Hi. cbn [deref mbind res_bind updIQ iq]. cbn. by rewrite Hz.
  - intros He. unfold getInstToExecute. by rewrite He.
  - intros sn Hn. unfold scheduleNonSpec. by rewrite Hn.
  - intros Hsq. unfold InstQueue.wakeDependents, getInst. rewrite Hi. cbn [deref mbind res_bind]. by rewrite Hsq.
  - intros Hok Hf. unfold recordProducer, addToProducers, getInst. rewrite Hi. cbn [deref mbind res_bind].
    rewrite int8_small by apply Hok. unfold numDestRegs. rewrite firstn_all.
    apply addDests_panic; [apply Hok|apply (wk_len _ _ _ _ (iv_wake _ HI))| |done]. intros f Hf'. apply (rg_range _ _ Hok). by right.
Qed.

(** ** A run of the queue

    An instruction, one that reads its result, and a load, on a machine with one
    thread. *)

Definition atThread0 (m : InstMem) : bool :=
  forallb (fun kv : InstPtr * DynInst => bool_decide (threadNumber (snd kv) = 0%nat)) (map_to_list (heap m)).

Definition regsCheck (n : nat) (i : DynInst) : bool :=
  bool_decide (Forall is_Some (srcIdx i)) && bool_decide (Forall is_Some (destIdx i)) &&
  (length (readySrcIdx i) =? length (srcIdx i))%nat && (numSrcRegs i <? 128)%nat && (numDestRegs i <? 128)%nat &&
  forallb (fun f => (0 <=? f) && (f <? Z.of_nat n)) (unreadySrcs i ++ destFlats i).

(** The conditions for inserting [i], on a queue of which only thread 0 is used. *)
Definition newCheck (s : IQS) (p : InstPtr) (i : DynInst) : bool :=
  atThread0 (iqmem s) && bool_decide (p ∉ iqInsts (iq s) 0) &&
  forallb (fun q => seqOf (iqmem s) q <? seqNum i) (iqInsts (iq s) 0) &&
  negb (isIssued i) && negb (isSquashedInIQ i) && negb (memOpDone i) &&
  regsCheck (length (regScoreboard (iq s))) i &&
  forallb (fun q => match heap (iqmem s) !! q with
                    | Some j => forallb (fun f => bool_decide (f ∉ unreadySrcs j)) (destFlats i)
                    | None => true end) (iqInsts (iq s) 0) &&
  forallb (fun f => bool_decide (f ∉ unreadySrcs i)) (destFlats i) &&
  negb (freeEntries (iq s) =? 0) && (0 <? seqNum i) &&
  forallb (fun en => match heap (iqmem s) !! e_inst en with
                     | Some i' => seqNum i' <? seqNum i | None => true end) (entries (memDepUnit (iq s) 0)).

Definition insertCheck (i : DynInst) : bool :=
  tracked i && (negb (isMemRef i) || speculative i) &&
  eqb (readyToIssue i) (bool_decide (readyRegs i = Z.of_nat (numSrcRegs i))) &&
  (0 <=? readyRegs i) && (readyRegs i + Z.of_nat (length (unreadySrcs i)) =? Z.of_nat (numSrcRegs i)).

Ltac checks :=
  bool_to_prop; repeat match goal with
  | H : bool_decide _ = true |- _ => apply bool_decide_eq_true in H
  | H : (_ =? _)%nat = true |- _ => apply Nat.eqb_eq in H
  | H : (_ <? _)%nat = true |- _ => apply Nat.ltb_lt in H
  end.

Lemma regsCheck_ok n i : regsCheck n i = true -> regsOK n i.
Proof.
  unfold regsCheck. intros H. repeat (apply andb_true_iff in H as [H ?]). checks. split; try done.
  intros f Hf. assert (Hin : f ∈ unreadySrcs i ++ destFlats i) by set_solver.
  apply list_elem_of_In in Hin. eapply forallb_forall in Hin; [|eassumption]. cbv beta in Hin. bool_to_prop. lia.
Qed.

Lemma atThread0_ok m p i : atThread0 m = true -> heap m !! p = Some i -> threadNumber i = 0%nat.
Proof.
  intros Hall Hi. apply elem_of_map_to_list, list_elem_of_In in Hi. eapply forallb_forall in Hi; [|exact Hall]. cbn in Hi. by checks.
Qed.

Lemma newCheck_ok s p i : IQInv s -> heap (iqmem s) !! p = Some i -> newCheck s p i = true -> newInst s p i.
Proof.
  intros HI Hi H. unfold newCheck in H.
  apply andb_true_iff in H as [H Hfr]. apply andb_true_iff in H as [H Hpos]. apply andb_true_iff in H as [H Hroom].
  apply andb_true_iff in H as [H Hown]. apply andb_true_iff in H as [H Hoth]. apply andb_true_iff in H as [H Hrc].
  apply andb_true_iff in H as [H Hd]. apply andb_true_iff in H as [H Hsq]. apply andb_true_iff in H as [H Hiss].
  apply andb_true_iff in H as [H Hyoung]. apply andb_true_iff in H as [H Hout].
  assert (Hz : forall t q, q ∈ iqInsts (iq s) t -> q ∈ iqInsts (iq s) 0).
  { intros t q Hq. destruct (wk_inst _ _ _ _ (iv_wake _ HI) _ _ Hq) as (j & Hj & <- & _). by rewrite (atThread0_ok _ _ _ H Hj) in Hq. }
  assert (Ht : threadNumber i = 0%nat) by (by eapply atThread0_ok).
  assert (Hlt : forall q, q ∈ iqInsts (iq s) 0 -> seqOf (iqmem s) q < seqNum i).
  { intros q Hq%list_elem_of_In. eapply forallb_forall in Hq; [|exact Hyoung]. cbv beta in Hq. by bool_to_prop. }
  assert (Hregs : regsOK (length (regScoreboard (iq s))) i) by (by apply regsCheck_ok).
  split; rewrite ?Ht; checks; try done.
  - intros t Hp%Hz. done.
  - intros t q Hq%Hz%Hlt. lia.
  - unfold MaxThreads. lia.
  - split.
    + intros q j f Hq%Hz Hj Hf. apply list_elem_of_In in Hq. eapply forallb_forall in Hq; [|exact Hoth]. cbv beta in Hq. rewrite Hj in Hq.
      apply list_elem_of_In in Hf. eapply forallb_forall in Hf; [|exact Hq]. cbv beta in Hf. by checks.
    + intros f Hf%list_elem_of_In. eapply forallb_forall in Hf; [|exact Hown]. cbv beta in Hf. by checks.
    + intros q j f Hq Hj _ _. by rewrite Ht, (atThread0_ok _ _ _ H Hj).
  - intros _. by apply fresh_by.
Qed.

Lemma insertCheck_ok i : insertCheck i = true -> insertable i.
Proof.
  unfold insertCheck. intros H. repeat (apply andb_true_iff in H as [H ?]). split; try done.
  - intros Hm. by rewrite Hm in *.
  - unfold canOK. by apply eqb_prop.
  - bool_to_prop. lia.
Qed.

Definition sampleCfg : IQConfig :=
  mkIQConfig [mkFUDesc [mkOpDesc 1 1 true] 1; mkFUDesc [mkOpDesc 2 3 false] 1; mkFUDesc [mkOpDesc 50 1 true] 1] 5 0
    Dynamic 1 [0%nat] 4 2 100 8 8 8 8 1 8 (fun _ => 8) 1000 16 16.

Definition physInt (k : Z) : PhysRegId := mkPhys IntRegClass k k.

(** An instruction of class [c] that waits for [srcs] and writes [dests]. *)
Definition sampleInst (c : nat) (fl : StaticFlag -> bool) (sn : Z) (srcs dests : list Z) : DynInst :=
  let i := DynInst_ctor (mkStatic [] [] c fl) (64 + 4 * sn) sn 0 in
  setStatus CanIssue (bool_decide (srcs = []))
    (i <| srcIdx := (fun k => Some (physInt k)) <$> srcs |> <| readySrcIdx := (fun _ => false) <$> srcs |>
       <| destIdx := (fun k => Some (physInt k)) <$> dests |>).

Definition isLd (f : StaticFlag) : bool := match f with IsLoad => true | _ => false end.

Definition sampleIQMem : InstMem :=
  mkMem (<[1%positive := sampleInst 1 (fun _ => false) 1 [] [3]]>
        (<[2%positive := sampleInst 1 (fun _ => false) 2 [3] [4]]>
        (<[3%positive := sampleInst 50 isLd 3 [] [5]]> ∅))) ∅.

Definition nextIQ (s : IQS) (op : IQOp) : IQS := match runIQ s op with Ok s' => s' | _ => s end.

Definition sampleIQ0 : IQS :=
  match makeIQ sampleCfg with
  | Ok q => mkIQS q sampleIQMem [] false
  | _ => mkIQS (InstructionQueue_ctor (mkFUPool (fun _ => 0) (fun _ => true) (fun _ => false) [] [] (fun _ => FUIdxQueue_ctor) [])
           (mkTB 0 0 0 [] 0) Dynamic 0 [] 0 0 0 0 0 0 0 0 0 (fun _ => 0) 0 0 0) sampleIQMem [] false
  end.
Definition sampleIQ1 : IQS := nextIQ sampleIQ0 (QInsert 1).
Definition sampleIQ2 : IQS := nextIQ sampleIQ1 (QInsert 2).
Definition sampleIQ3 : IQS := nextIQ sampleIQ2 (QInsert 3).

Lemma sampleCfg_ok : configOK sampleCfg.
Proof.
  split; cbn; [|lia..]. repeat apply Forall_cons_2; try apply Forall_nil_2; (split; [apply NoDup_singleton|by repeat constructor]).
Qed.

Lemma sampleIQ0_reach : reachIQ sampleCfg sampleIQ0.
Proof.
  unfold sampleIQ0. destruct (makeIQ_inv sampleCfg sampleIQMem sampleCfg_ok) as (q & E & _). rewrite E. by apply reachIQ_init.
Qed.

(** One more instruction. *)
Lemma reachIQ_insert s p : reachIQ sampleCfg s ->
  match heap (iqmem s) !! p with Some i => newCheck s p i && insertCheck i | None => false end = true ->
  allowedIQ s (QInsert p) /\ reachIQ sampleCfg (nextIQ s (QInsert p)).
Proof.
  intros Hs H. pose proof (reachIQ_inv _ _ sampleCfg_ok Hs) as HI. destruct (heap (iqmem s) !! p) as [i|] eqn:Hi; [|done].
  apply andb_true_iff in H as [H1%newCheck_ok H2%insertCheck_ok]; [|done..].
  assert (Ho : allowedIQ s (QInsert p)) by (by exists i). split; [done|].
  destruct (runIQ_inv s (QInsert p) HI Ho) as (s' & E & _). unfold nextIQ. rewrite E. by eapply reachIQ_step.
Qed.

Lemma sampleIQ1_reach : allowedIQ sampleIQ0 (QInsert 1) /\ reachIQ sampleCfg sampleIQ1.
Proof. apply reachIQ_insert; [apply sampleIQ0_reach|by vm_compute]. Qed.
Lemma sampleIQ2_reach : reachIQ sampleCfg sampleIQ2.
Proof. apply reachIQ_insert; [apply sampleIQ1_reach|by vm_compute]. Qed.
Lemma sampleIQ3_reach : reachIQ sampleCfg sampleIQ3.
Proof. apply reachIQ_insert; [apply sampleIQ2_reach|by vm_compute]. Qed.

Definition instAt (s : IQS) (p : InstPtr) : DynInst :=
  match heap (iqmem s) !! p with Some i => i | None => DynInst_ctor (mkStatic [] [] 0 (fun _ => false)) 0 0 0 end.

Lemma instAt_ok s p : bool_decide (is_Some (heap (iqmem s) !! p)) = true -> heap (iqmem s) !! p = Some (instAt s p).
Proof. intros [j Hj]%bool_decide_eq_true. unfold instAt. by rewrite Hj. Qed.

Lemma squash_tracked s sn tid :
  forallb (fun p => match heap (iqmem s) !! p with Some i => tracked i | None => true end) (iqInsts (iq s) tid) = true ->
  allowedIQ s (QSquash sn tid).
Proof.
  intros H p i Hp%list_elem_of_In Hi _ _ Ht. eapply forallb_forall in Hp; [|exact H]. cbv beta in Hp. rewrite Hi in Hp. congruence.
Qed.

(** Witness for [iq_ops_safe]: the first instruction is inserted. *)
Lemma iq_ops_safe_witness : reachIQ sampleCfg sampleIQ0 /\ allowedIQ sampleIQ0 (QInsert 1) /\
  exists s', runIQ sampleIQ0 (QInsert 1) = Ok s' /\ reachIQ sampleCfg s'.
Proof.
  split; [exact sampleIQ0_reach|]. split; [exact (proj1 sampleIQ1_reach)|].
  exact (iq_ops_safe sampleCfg sampleIQ0 (QInsert 1) sampleCfg_ok sampleIQ0_reach (proj1 sampleIQ1_reach)).
Defined.

(** Witness for [iq_wakeup_exact]: the first instruction is ready, the second waits
    for its result. *)
Lemma iq_wakeup_exact_witness : reachIQ sampleCfg sampleIQ3 /\
  occ 1%positive (readyInsts (ready (iq sampleIQ3)) 1) = 1%nat /\ occ 2%positive (readyInsts (ready (iq sampleIQ3)) 1) = 0%nat.
Proof.
  split; [exact sampleIQ3_reach|]. split.
  - rewrite (iq_wakeup_exact sampleCfg sampleIQ3 1 (instAt sampleIQ3 1) 1 sampleCfg_ok sampleIQ3_reach); try (by vm_compute).
    apply list_elem_of_In. vm_compute. tauto.
  - rewrite (iq_wakeup_exact sampleCfg sampleIQ3 2 (instAt sampleIQ3 2) 1 sampleCfg_ok sampleIQ3_reach); try (by vm_compute).
    apply list_elem_of_In. vm_compute. tauto.
Defined.

(** Witness for [iq_mem_ready]: the load. *)
Lemma iq_mem_ready_witness : reachIQ sampleCfg sampleIQ3 /\ 3%positive ∈ readyInsts (ready (iq sampleIQ3)) 50 /\
  exists w, waiting (absMD (mkMDS (memDepUnit (iq sampleIQ3) 0) (iqmem sampleIQ3) [])) !! 3 = Some w /\ w_inst w = 3%positive /\ w_on w = ∅.
Proof.
  split; [exact sampleIQ3_reach|]. assert (H : 3%positive ∈ readyInsts (ready (iq sampleIQ3)) 50) by (apply list_elem_of_In; vm_compute; tauto).
  split; [exact H|].
  apply (iq_mem_ready sampleCfg sampleIQ3 3 (instAt sampleIQ3 3) 50 sampleCfg_ok sampleIQ3_reach H); try (by vm_compute).
  apply list_elem_of_In. vm_compute. tauto.
Defined.

(** Witness for [iq_entries]: three of four entries are held. *)
Lemma iq_entries_witness : getCount 0 (iq sampleIQ3) = 3 /\ numFreeEntries (iq sampleIQ3) = 1 /\
  0 <= numFreeEntries (iq sampleIQ3) <= iqEntries (iq sampleIQ3).
Proof.
  split; [by vm_compute|]. split; [by vm_compute|]. exact (proj1 (proj2 (proj2 (iq_entries sampleCfg sampleIQ3 sampleCfg_ok sampleIQ3_reach)))).
Defined.

(** Witness for [iq_issue_oldest_first]: the first instruction and the load
    issue. *)
Lemma iq_issue_oldest_first_witness : reachIQ sampleCfg sampleIQ3 /\
  exists s' L, runIQ sampleIQ3 QSchedule = Ok s' /\ started s' ≡ₚ started sampleIQ3 ++ L /\ Z.of_nat (length L) <= 2.
Proof.
  split; [exact sampleIQ3_reach|].
  destruct (iq_issue_oldest_first sampleCfg sampleIQ3 sampleCfg_ok sampleIQ3_reach) as (s' & L & H1 & H2 & H3 & _).
  exists s', L. split; [exact H1|]. split; [exact H2|]. exact H3.
Defined.

(** Witness for [iq_squash_exact]: everything younger than the first instruction. *)
Lemma iq_squash_exact_witness : allowedIQ sampleIQ3 (QSquash 1 0) /\
  exists s', runIQ sampleIQ3 (QSquash 1 0) = Ok s' /\ iqInsts (iq s') 0 = [1%positive].
Proof.
  assert (H : allowedIQ sampleIQ3 (QSquash 1 0)).
  { apply squash_tracked. by vm_compute. }
  split; [exact H|]. destruct (iq_squash_exact sampleCfg sampleIQ3 1 0 sampleCfg_ok sampleIQ3_reach H) as (s' & E & Hl & _).
  exists s'. split; [exact E|]. rewrite Hl. by vm_compute.
Defined.

(** Witness for [iq_well_formed]. *)
Lemma iq_well_formed_witness : reachIQ sampleCfg sampleIQ3 /\
  length (graph (dependGraph (iq sampleIQ3))) = length (regScoreboard (iq sampleIQ3)).
Proof.
  split; [exact sampleIQ3_reach|].
  destruct (iq_well_formed sampleCfg sampleIQ3 sampleCfg_ok sampleIQ3_reach) as (_ & _ & _ & _ & _ & _ & _ & H). exact H.
Defined.

(** Witness for [iq_misuse_reported]: the register of the first instruction
    cannot be given to another one while the second waits for it; and nothing
    has started. *)
Lemma iq_misuse_reported_witness : reachIQ sampleCfg sampleIQ3 /\
  runIQ sampleIQ3 (QRecordProducer 1) = Panic /\ runIQ sampleIQ3 QGetInst = Panic.
Proof.
  split; [exact sampleIQ3_reach|].
  destruct (iq_misuse_reported sampleCfg sampleIQ3 1 (instAt sampleIQ3 1) sampleCfg_ok sampleIQ3_reach) as (_ & H2 & _ & _ & H5).
  { by apply instAt_ok; vm_compute. }
  split; [|apply H2; by vm_compute]. apply H5.
  - apply regsCheck_ok. by vm_compute.
  - exists 3. split; [apply list_elem_of_In; vm_compute; tauto|]. by vm_compute.
Defined.
