(* ===== verification/Commit.v ===== *)
(** * The commit stage

    [src/src/cpu/o3/commit.cc] and [commit.hh]: the stage as a state machine
    that runs once per cycle ([tick]) over the reorder buffer, the CPU's list
    of instructions and the heap of instructions ([Core]).  What it reads from
    the time buffers and from the load/store queue this cycle is an input; what
    it writes back is part of the state, and so are, in order, the calls it
    makes on the CPU, on the event queue and on the probes.

    What an instruction set decides is the parameter [ISA]: the type of PC
    states, advancing a PC, invoking a fault, the interrupt controller, the PC
    events of the system.  Misc registers, tracing, statistics and the checker
    are left out. *)

From stdpp Require Import base numbers list gmap functions.
From S2P Require Import Prelude Adaptive Regs Monad RenameMap DynInst Stage ROB.

#[local] Open Scope Z_scope.

(** ** Data *)

(** [Commit::ThreadStatus]. *)
Inductive CommitStatus :=
  | CommitRunning | CommitIdle | CommitROBSquashing | TrapPending | FetchTrapPending
  | SquashAfterPending.

#[export] Instance CommitStatus_eq_dec : EqDecision CommitStatus.
Proof. solve_decision. Defined.

Inductive CommitPolicy := RoundRobin | OldestReady.

(** What the instruction set and the system provide. *)
Record ISA (PC Intr : Type) := {
  instAddr : PC -> Z;
  microPC : PC -> Z;
  newPCState : PC;
  advancePC : StaticInst -> PC -> PC;
  (* [fault->invoke(tc, inst)]: where the thread continues *)
  invoke : positive -> option StaticInst -> PC -> PC;
  isSyscallRetryFault : positive -> bool;
  isGenericHtmFailureFault : positive -> bool;
  (* a [GenericHtmFailureFault] for the transaction with this identifier *)
  genericHtmFailureFault : Z -> positive;
  (* [interrupts[0]] *)
  intr_checkInterrupts : Intr -> bool;
  intr_getInterrupt : Intr -> Fault;
  intr_clearAll : Intr -> Intr;
  intr_updateIntrInfo : Intr -> Intr;
  (* the PC events of the thread: where the event at this address, if there
     is one, moves the thread *)
  pcEvent : ThreadID -> Z -> option PC;
  numPCEvents : nat
}.
Arguments instAddr {PC Intr} i _.
Arguments microPC {PC Intr} i _.
Arguments newPCState {PC Intr} i.
Arguments advancePC {PC Intr} i _ _.
Arguments invoke {PC Intr} i _ _ _.
Arguments isSyscallRetryFault {PC Intr} i _.
Arguments isGenericHtmFailureFault {PC Intr} i _.
Arguments genericHtmFailureFault {PC Intr} i _.
Arguments intr_checkInterrupts {PC Intr} i _.
Arguments intr_getInterrupt {PC Intr} i _.
Arguments intr_clearAll {PC Intr} i _.
Arguments intr_updateIntrInfo {PC Intr} i _.
Arguments pcEvent {PC Intr} i _ _.
Arguments numPCEvents {PC Intr} i.

(** The calls the stage makes on the rest of the simulator. *)
Inductive CpuCall :=
  | Activity (a : ActivityCall)
  | ScheduleTrap (tid : ThreadID) (latency : Z)
  | ScheduleThreadExit (tid : ThreadID)
  | CommitDrained (tid : ThreadID)
  | SetLastRetiredHtmUid (tid : ThreadID) (uid : Z)
  | ProbeCommit (p : InstPtr)
  | ProbeSquash (p : InstPtr)
  | ProbeCommitStall (p : InstPtr).

Section Data.
Context {PC Intr : Type}.

(** [TimeStruct::CommitComm]: what commit tells the other stages of a thread. *)
Record CommitInfo := mkInfo {
  infoPC : option PC;
  mispredictInst : option InstPtr;
  squashInst : option InstPtr;
  strictlyOrderedLoad : option InstPtr;
  nonSpecSeqNum : Z;
  doneSeqNum : Z;
  freeROBEntries : Z;
  infoSquash : bool;
  robSquashing : bool;
  usedROB : bool;
  emptyROB : bool;
  branchTaken : bool;
  interruptPending : bool;
  clearInterrupt : bool;
  infoStrictlyOrdered : bool
}.

(** A slot of the time buffer before anything is written. *)
Definition noInfo : CommitInfo :=
  mkInfo None None None None 0 0 0 false false false false false false false false.

(** What IEW tells commit of a thread ([IEWStruct]). *)
Record IewSquash := {
  iewMispredictInst : option InstPtr;
  iewSquashedSeqNum : Z;
  iewPC : option PC;
  iewSquash : bool;
  iewBranchTaken : bool;
  iewIncludeSquashInst : bool
}.

Record CommitIn := {
  fromRename : list InstPtr;
  fromIEW : ThreadID -> IewSquash;
  iewInsts : list (option InstPtr);
  hasStoresToWB : ThreadID -> bool;
  isThreadExiting : ThreadID -> bool;
  pcState : InstPtr -> PC;
  htmUid : InstPtr -> Z
}.

Record CommitConfig := {
  commitPolicy : CommitPolicy;
  renameWidth : Z;
  commitWidth : Z;
  numThreads : nat;
  trapLatency : Z;
  syscallRetryLatency : Z;
  fullSystem : bool;
  commitActive : list ThreadID
}.

Record CommitS := mkCommit {
  core : Core;
  stage_status : StageStatus;
  nextStatus : StageStatus;
  commitStatus : ThreadID -> CommitStatus;
  wroteToTimeBuffer : bool;
  changedROBNumEntries : ThreadID -> bool;
  trapSquash : ThreadID -> bool;
  tcSquash : ThreadID -> bool;
  squashAfterInst : ThreadID -> option InstPtr;
  priority_list : list ThreadID;
  drainPending : bool;
  drainImminent : bool;
  interrupt : Fault;
  pcs : ThreadID -> PC;
  youngestSeqNum : ThreadID -> Z;
  lastCommitedSeqNum : ThreadID -> Z;
  trapInFlight : ThreadID -> bool;
  committedStores : ThreadID -> bool;
  checkEmptyROB : ThreadID -> bool;
  commitMaps : ThreadID -> list SimpleRenameMap.t;
  canHandleInterrupts : bool;
  avoidQuiesceLiveLock : bool;
  htmStarts : ThreadID -> Z;
  htmStops : ThreadID -> Z;
  (* of the [ThreadState] of each thread *)
  trapPending : ThreadID -> bool;
  noSquashFromTC : ThreadID -> bool;
  intr : Intr;
  adaptive : AdaptiveState;
  (* written this cycle *)
  toIEW : ThreadID -> CommitInfo;
  calls : list CpuCall
}.

#[export] Instance eta_info : Eta CommitInfo := fun i =>
  mkInfo (infoPC i) (mispredictInst i) (squashInst i) (strictlyOrderedLoad i) (nonSpecSeqNum i)
    (doneSeqNum i) (freeROBEntries i) (infoSquash i) (robSquashing i) (usedROB i) (emptyROB i)
    (branchTaken i) (interruptPending i) (clearInterrupt i) (infoStrictlyOrdered i).

#[export] Instance eta_commit : Eta CommitS := fun s =>
  mkCommit (core s) (stage_status s) (nextStatus s) (commitStatus s) (wroteToTimeBuffer s)
    (changedROBNumEntries s) (trapSquash s) (tcSquash s) (squashAfterInst s) (priority_list s)
    (drainPending s) (drainImminent s) (interrupt s) (pcs s) (youngestSeqNum s)
    (lastCommitedSeqNum s) (trapInFlight s) (committedStores s) (checkEmptyROB s) (commitMaps s)
    (canHandleInterrupts s) (avoidQuiesceLiveLock s) (htmStarts s) (htmStops s) (trapPending s)
    (noSquashFromTC s) (intr s) (adaptive s) (toIEW s) (calls s).

End Data.
Arguments CommitInfo : clear implicits.
Arguments IewSquash : clear implicits.
Arguments CommitIn : clear implicits.
Arguments CommitS : clear implicits.

(** ** Construction *)

(** The constructor, given the buffers and the thread states it is connected
    to, the PCs of the threads and the maps and, for the member it leaves
    uninitialised, what it holds. *)
Definition Commit_ctor {PC Intr} (isa : ISA PC Intr) (cfg : CommitConfig) (c : Core)
    (maps : ThreadID -> list SimpleRenameMap.t) (i : Intr) (a : AdaptiveState)
    (wrote0 : bool) : res (CommitS PC Intr) :=
  assert! negb (MaxWidth <? commitWidth cfg) ;;
  Ok {| core := c;
        stage_status := Active; nextStatus := Inactive;
        commitStatus := fun _ => CommitIdle;
        wroteToTimeBuffer := wrote0;
        changedROBNumEntries := fun _ => false;
        trapSquash := fun _ => false; tcSquash := fun _ => false;
        squashAfterInst := fun _ => None;
        priority_list := match commitPolicy cfg with
                         | RoundRobin => seq 0 (numThreads cfg)
                         | OldestReady => []
                         end;
        drainPending := false; drainImminent := false;
        interrupt := NoFault;
        pcs := fun _ => newPCState isa;
        youngestSeqNum := fun _ => 0; lastCommitedSeqNum := fun _ => 0;
        trapInFlight := fun _ => false; committedStores := fun _ => false;
        checkEmptyROB := fun _ => false;
        commitMaps := maps;
        canHandleInterrupts := true; avoidQuiesceLiveLock := false;
        htmStarts := fun _ => 0; htmStops := fun _ => 0;
        trapPending := fun _ => false; noSquashFromTC := fun _ => false;
        intr := i; adaptive := a;
        toIEW := fun _ => noInfo; calls := [] |}.

Section Stage.
Context {PC Intr : Type} (isa : ISA PC Intr).
Context (rf : PhysRegFile) (ac : AdaptiveConfig).
Context (cfg : CommitConfig) (inp : CommitIn PC).

Abbreviation S := (CommitS PC Intr).
Abbreviation R := (M S).

(** ** Access to the parts of the state *)

Definition onCore (f : Core -> res Core) : R unit :=
  c ← gets core;
  c ← lift (f c);
  modify (fun s => s <| core := c |>).

Definition instOf (p : InstPtr) : R DynInst :=
  c ← gets core; lift (getInst p (mem c)).

Definition updateInst (p : InstPtr) (f : DynInst -> DynInst) : R unit :=
  onCore (fun c => m ← updInst p f (mem c); Ok (c <| mem := m |>)).

Definition call (x : CpuCall) : R unit :=
  modify (fun s => s <| calls := calls s ++ [x] |>).

Definition tell (tid : ThreadID) (f : CommitInfo PC -> CommitInfo PC) : R unit :=
  modify (fun s => s <| toIEW := <[tid := f (toIEW s tid)]> (toIEW s) |>).

Definition setCommitStatus (tid : ThreadID) (st : CommitStatus) : R unit :=
  modify (fun s => s <| commitStatus := <[tid := st]> (commitStatus s) |>).

Definition setChanged (tid : ThreadID) (b : bool) : R unit :=
  modify (fun s => s <| changedROBNumEntries := <[tid := b]> (changedROBNumEntries s) |>).

Definition setNoSquashFromTC (tid : ThreadID) (b : bool) : R unit :=
  modify (fun s => s <| noSquashFromTC := <[tid := b]> (noSquashFromTC s) |>).

Definition wrote : R unit := modify (fun s => s <| wroteToTimeBuffer := true |>).

(** [CPU::checkInterrupts(0)]. *)
Definition checkInterrupts (s : S) : bool :=
  fullSystem cfg && intr_checkInterrupts isa (intr s).

(** ** Traps and thread contexts *)

(** The event [generateTrapEvent] schedules. *)
Definition processTrapEvent (tid : ThreadID) : R unit :=
  modify (fun s => s <| trapSquash := <[tid := true]> (trapSquash s) |>).

Definition generateTrapEvent (tid : ThreadID) (inst_fault : Fault) : R unit :=
  let retry := match inst_fault with Some f => isSyscallRetryFault isa f | None => false end in
  _ ← call (ScheduleTrap tid (if retry then syscallRetryLatency cfg else trapLatency cfg));
  modify (fun s => s <| trapInFlight := <[tid := true]> (trapInFlight s) |>
                     <| trapPending := <[tid := true]> (trapPending s) |>).

Definition generateTCEvent (tid : ThreadID) : R unit :=
  b ← gets (fun s => trapInFlight s tid);
  _ ← assertM (negb b);
  modify (fun s => s <| tcSquash := <[tid := true]> (tcSquash s) |>).

(** [CPU::squashFromTC]. *)
Definition cpuSquashFromTC (tid : ThreadID) : R unit :=
  _ ← setNoSquashFromTC tid true;
  generateTCEvent tid.

(** [ThreadContext::conditionalSquash], which every write through a thread
    context ends with. *)
Definition conditionalSquash (tid : ThreadID) : R unit :=
  s ← gets (fun s => s);
  when (negb (trapPending s tid) && negb (noSquashFromTC s tid)) (cpuSquashFromTC tid).

(** [ThreadContext::pcState(val)]. *)
Definition tcPcState (val : PC) (tid : ThreadID) : R unit :=
  _ ← modify (fun s => s <| pcs := <[tid := val]> (pcs s) |>);
  conditionalSquash tid.

(** [CPU::trap]. *)
Definition trap (fault : positive) (tid : ThreadID) (inst : option StaticInst) : R unit :=
  modify (fun s => s <| pcs := <[tid := invoke isa fault inst (pcs s tid)]> (pcs s) |>).

(** [CPU::processInterrupts]. *)
Definition processInterrupts (fault : Fault) : R unit :=
  _ ← assertM (bool_decide (fault <> NoFault));
  f ← lift (deref fault);
  _ ← modify (fun s => s <| intr := intr_updateIntrInfo isa (intr s) |>);
  trap f 0%nat None.

(** ** Squashing *)

Definition squashAll (tid : ThreadID) : R unit :=
  s ← gets (fun s => s);
  squashed_inst ←
    (if isEmptyOf tid (rob (core s)) then mret (lastCommitedSeqNum s tid)
     else o ← lift (readHeadInst tid (core s));
          p ← lift (deref o);
          i ← instOf p;
          mret (u64 (seqNum i - 1)));
  _ ← modify (fun s => s <| youngestSeqNum :=
                <[tid := lastCommitedSeqNum s tid]> (youngestSeqNum s) |>);
  _ ← onCore (ROB.squash (isThreadExiting inp tid) squashed_inst tid);
  _ ← setChanged tid true;
  s ← gets (fun s => s);
  tell tid (fun i => i <| doneSeqNum := squashed_inst |> <| infoSquash := true |>
                       <| robSquashing := true |> <| mispredictInst := None |>
                       <| squashInst := None |> <| infoPC := Some (pcs s tid) |>).

Definition squashFromTrap (tid : ThreadID) : R unit :=
  _ ← squashAll tid;
  _ ← modify (fun s => s <| trapPending := <[tid := false]> (trapPending s) |>);
  _ ← setNoSquashFromTC tid false;
  _ ← modify (fun s => s <| trapInFlight := <[tid := false]> (trapInFlight s) |>
                         <| trapSquash := <[tid := false]> (trapSquash s) |>);
  _ ← setCommitStatus tid CommitROBSquashing;
  call (Activity ActivityThisCycle).

Definition squashFromTC (tid : ThreadID) : R unit :=
  _ ← squashAll tid;
  _ ← setNoSquashFromTC tid false;
  b ← gets (fun s => trapPending s tid);
  _ ← assertM (negb b);
  _ ← setCommitStatus tid CommitROBSquashing;
  _ ← call (Activity ActivityThisCycle);
  modify (fun s => s <| tcSquash := <[tid := false]> (tcSquash s) |>).

Definition squashFromSquashAfter (tid : ThreadID) : R unit :=
  _ ← squashAll tid;
  s ← gets (fun s => s);
  _ ← tell tid (fun i => i <| squashInst := squashAfterInst s tid |>);
  _ ← modify (fun s => s <| squashAfterInst := <[tid := None]> (squashAfterInst s) |>);
  _ ← setCommitStatus tid CommitROBSquashing;
  call (Activity ActivityThisCycle).

Definition squashAfter (tid : ThreadID) (head_inst : InstPtr) : R unit :=
  o ← gets (fun s => squashAfterInst s tid);
  _ ← assertM (bool_decide (o = None) || bool_decide (o = Some head_inst));
  _ ← setCommitStatus tid SquashAfterPending;
  modify (fun s => s <| squashAfterInst := <[tid := Some head_inst]> (squashAfterInst s) |>).

(** The squash IEW asks for, once accepted. *)
Definition squashFromIEW (tid : ThreadID) : R unit :=
  let iew := fromIEW inp tid in
  _ ← setCommitStatus tid CommitROBSquashing;
  let squashed_inst :=
    if iewIncludeSquashInst iew then u64 (iewSquashedSeqNum iew - 1) else iewSquashedSeqNum iew in
  _ ← modify (fun s => s <| youngestSeqNum := <[tid := squashed_inst]> (youngestSeqNum s) |>);
  _ ← onCore (ROB.squash (isThreadExiting inp tid) squashed_inst tid);
  _ ← setChanged tid true;
  c ← gets core;
  o ← lift (findInst tid squashed_inst c);
  _ ← tell tid (fun i => i <| doneSeqNum := squashed_inst |> <| infoSquash := true |>
                           <| robSquashing := true |>
                           <| mispredictInst := iewMispredictInst iew |>
                           <| branchTaken := iewBranchTaken iew |>
                           <| squashInst := o |>);
  _ ← match iewMispredictInst iew with
      | Some p =>
          i ← instOf p;
          _ ← when (isUncondCtrl i) (tell tid (fun i => i <| branchTaken := true |>));
          modify (fun s => s <| adaptive := adaptiveNoteBranchMispredict ac 1 (adaptive s) |>)
      | None => mret tt
      end;
  tell tid (fun i => i <| infoPC := iewPC iew |>).

(** The squashes of one thread, in the order of their priority; the result is
    whether the thread is squashing. *)
Definition squashThread (tid : ThreadID) : R bool :=
  s ← gets (fun s => s);
  _ ← (if trapSquash s tid then
         _ ← assertM (negb (tcSquash s tid));
         _ ← squashFromTrap tid;
         when (isThreadExiting inp tid) (call (ScheduleThreadExit tid))
       else if tcSquash s tid then
         _ ← assertM (bool_decide (commitStatus s tid <> TrapPending));
         squashFromTC tid
       else if decide (commitStatus s tid = SquashAfterPending) then
         squashFromSquashAfter tid
       else mret tt);
  s ← gets (fun s => s);
  _ ← when (iewSquash (fromIEW inp tid) && bool_decide (commitStatus s tid <> TrapPending) &&
            (iewSquashedSeqNum (fromIEW inp tid) <=? youngestSeqNum s tid))
        (squashFromIEW tid);
  s ← gets (fun s => s);
  mret (bool_decide (commitStatus s tid = CommitROBSquashing)).

Fixpoint squashThreads (threads : list ThreadID) (num_squashing_threads : nat) : R nat :=
  match threads with
  | [] => mret num_squashing_threads
  | tid :: threads =>
      b ← squashThread tid;
      squashThreads threads (if b : bool then 1 + num_squashing_threads else num_squashing_threads)%nat
  end.

(** ** Interrupts *)

Definition handleInterrupt : R unit :=
  s ← gets (fun s => s);
  if negb (checkInterrupts s) then
    _ ← tell 0%nat (fun i => i <| clearInterrupt := true |>);
    modify (fun s => s <| interrupt := NoFault |> <| avoidQuiesceLiveLock := true |>)
  else if canHandleInterrupts s && bool_decide (cpuInstList (cpu (core s)) = []) then
    _ ← tell 0%nat (fun i => i <| clearInterrupt := true |>);
    _ ← assertM (negb (noSquashFromTC s 0%nat));
    _ ← setNoSquashFromTC 0%nat true;
    _ ← processInterrupts (intr_getInterrupt isa (intr s));
    _ ← setNoSquashFromTC 0%nat false;
    _ ← setCommitStatus 0%nat TrapPending;
    _ ← modify (fun s => s <| interrupt := NoFault |>);
    _ ← generateTrapEvent 0%nat NoFault;
    modify (fun s => s <| avoidQuiesceLiveLock := false |>)
  else mret tt.

Definition propagateInterrupt : R unit :=
  s ← gets (fun s => s);
  if bool_decide (commitStatus s 0%nat = TrapPending) || bool_decide (interrupt s <> NoFault) ||
     trapSquash s 0%nat || tcSquash s 0%nat || drainImminent s then mret tt
  else
    let f := intr_getInterrupt isa (intr s) in
    _ ← modify (fun s => s <| interrupt := f |>);
    when (bool_decide (f <> NoFault)) (tell 0%nat (fun i => i <| interruptPending := true |>)).

Definition executingHtmTransaction (tid : option ThreadID) (s : S) : bool :=
  match tid with Some tid => htmStops s tid <? htmStarts s tid | None => false end.

Definition resetHtmStartsStops (tid : option ThreadID) : R unit :=
  match tid with
  | Some tid => modify (fun s => s <| htmStarts := <[tid := 0]> (htmStarts s) |>
                                   <| htmStops := <[tid := 0]> (htmStops s) |>)
  | None => mret tt
  end.

(** The interrupts of the commit loop: inside a transaction they are
    postponed. *)
Definition pollInterrupt (commit_thread : option ThreadID) : R unit :=
  s ← gets (fun s => s);
  when (bool_decide (interrupt s <> NoFault))
    (if executingHtmTransaction commit_thread s then
       _ ← modify (fun s => s <| intr := intr_clearAll isa (intr s) |>);
       _ ← tell 0%nat (fun i => i <| clearInterrupt := true |>);
       modify (fun s => s <| interrupt := NoFault |> <| avoidQuiesceLiveLock := true |>)
     else handleInterrupt).

(** ** Which thread commits *)

Definition canCommitNow (st : CommitStatus) : bool :=
  match st with
  | CommitRunning | CommitIdle | FetchTrapPending => true
  | _ => false
  end.

(** The walk of [roundRobin] over the priority list: the threads passed over
    and those still to be looked at. *)
Fixpoint roundRobinLoop (passed rest : list ThreadID) : R (option ThreadID) :=
  match rest with
  | [] => mret None
  | tid :: rest =>
      s ← gets (fun s => s);
      ready ← (if canCommitNow (commitStatus s tid) then lift (isHeadReady tid (core s))
               else mret false);
      if ready : bool then
        _ ← modify (fun s => s <| priority_list := passed ++ rest ++ [tid] |>);
        mret (Some tid)
      else roundRobinLoop (passed ++ [tid]) rest
  end.

Definition roundRobin : R (option ThreadID) :=
  l ← gets priority_list; roundRobinLoop [] l.

(** One thread of [oldestReady]'s loop: the oldest so far, with its sequence
    number as the [unsigned] that holds it. *)
Definition oldestStep (s : S) (acc : option (ThreadID * Z)) (tid : ThreadID)
    : res (option (ThreadID * Z)) :=
  if negb (isEmptyOf tid (rob (core s))) && canCommitNow (commitStatus s tid) then
    ready ← isHeadReady tid (core s);
    if ready : bool then
      o ← readHeadInst tid (core s);
      p ← deref o;
      i ← getInst p (mem (core s));
      match acc with
      | None => Ok (Some (tid, u32 (seqNum i)))
      | Some (_, oldest_seq_num) =>
          if seqNum i <? oldest_seq_num then Ok (Some (tid, u32 (seqNum i))) else Ok acc
      end
    else Ok acc
  else Ok acc.

Definition oldestReady : R (option ThreadID) :=
  s ← gets (fun s => s);
  acc ← lift (foldR (oldestStep s) None (commitActive cfg));
  mret (fst <$> acc).

Definition getCommittingThread : R (option ThreadID) :=
  if (1 <? numThreads cfg)%nat then
    match commitPolicy cfg with
    | RoundRobin => roundRobin
    | OldestReady => oldestReady
    end
  else
    _ ← assertM (bool_decide (commitActive cfg <> []));
    tid ← lift (deref (list.head (commitActive cfg)));
    s ← gets (fun s => s);
    mret (if canCommitNow (commitStatus s tid) then Some tid else None).

(** ** Committing the head *)

(** An instruction at the head that has not been executed: tell the back end
    to execute it, once the stores before it are written back. *)
Definition commitUnexecuted (head_inst : InstPtr) (i : DynInst) (inst_num : Z) : R bool :=
  let tid := threadNumber i in
  _ ← assertM (isNonSpeculative i || isStoreConditional i || isReadBarrier i ||
               isWriteBarrier i || isAtomic i || (isLoad i && strictlyOrdered i));
  if (0 <? inst_num) || hasStoresToWB inp tid then mret false
  else
    _ ← tell tid (fun o => o <| nonSpecSeqNum := seqNum i |>);
    _ ← updateInst head_inst clearCanCommit;
    _ ← when (isLoad i && strictlyOrdered i)
          (tell tid (fun o => o <| infoStrictlyOrdered := true |>
                                <| strictlyOrderedLoad := Some head_inst |>));
    mret false.

(** [DynInst::getHtmTransactionUid]. *)
Definition getHtmTransactionUid (p : InstPtr) (i : DynInst) : R Z :=
  _ ← assertM (inHtmTransactionalState i);
  mret (htmUid inp p).

(** The fault the head raises: inside a transaction it becomes a failure of
    the transaction. *)
Definition headFault (head_inst : InstPtr) (i : DynInst) : R Fault :=
  match fault i with
  | Some f =>
      if inHtmTransactionalState i && negb (isGenericHtmFailureFault isa f) then
        uid ← getHtmTransactionUid head_inst i;
        mret (Some (genericHtmFailureFault isa uid))
      else mret (Some f)
  | None => mret NoFault
  end.

(** A fault at the head: once the stores before it are written back, execute
    the trap and schedule the squash. *)
Definition commitFault (head_inst : InstPtr) (i : DynInst) (f : positive) (inst_num : Z) : R bool :=
  let tid := threadNumber i in
  if hasStoresToWB inp tid || (0 <? inst_num) then mret false
  else
    _ ← updateInst head_inst setCompleted;
    b ← gets (fun s => noSquashFromTC s tid);
    _ ← assertM (negb b);
    _ ← setNoSquashFromTC tid true;
    _ ← trap f tid (if notAnInst i then None else Some (staticInst i));
    _ ← setNoSquashFromTC tid false;
    _ ← setCommitStatus tid TrapPending;
    _ ← generateTrapEvent tid (Some f);
    mret false.

(** One destination of the loop that updates the commit rename map. *)
Definition updateCommitMap (tid : ThreadID) (i : DynInst) (k : nat) : R unit :=
  arch_reg ← lift (deref (flatDestIdx i !! k));
  o ← lift (deref (destIdx i !! k));
  phys_reg ← lift (deref o);
  s ← gets (fun s => s);
  maps ← lift (setEntry rf arch_reg phys_reg (commitMaps s tid));
  modify (fun s => s <| commitMaps := <[tid := maps]> (commitMaps s) |>).

Definition commitHead (head_inst : InstPtr) (inst_num : Z) : R bool :=
  i ← instOf head_inst;
  let tid := threadNumber i in
  if negb (isExecuted i) then commitUnexecuted head_inst i inst_num
  else
    inst_fault ← headFault head_inst i;
    _ ← when (negb (isStore i) && bool_decide (inst_fault = NoFault))
          (updateInst head_inst setCompleted);
    match inst_fault with
    | Some f => commitFault head_inst i f inst_num
    | None =>
        _ ← forM (seq 0 (numDestRegs i)) (updateCommitMap tid i);
        _ ← when (isHtmStart i)
              (uid ← getHtmTransactionUid head_inst i;
               call (SetLastRetiredHtmUid tid uid));
        _ ← onCore (retireHead tid);
        _ ← when (isStore i || isAtomic i)
              (modify (fun s => s <| committedStores := <[tid := true]> (committedStores s) |>));
        mret true
    end.

(** The nesting of transactions, for a committed instruction. *)
Definition countHtm (tid : ThreadID) (i : DynInst) : R unit :=
  _ ← when (isHtmStart i)
        (modify (fun s => s <| htmStarts := <[tid := htmStarts s tid + 1]> (htmStarts s) |>));
  b ← gets (executingHtmTransaction (Some tid));
  _ ← assertM (if inHtmTransactionalState i then b else negb b);
  when (isHtmStop i)
    (modify (fun s => s <| htmStops := <[tid := htmStops s tid + 1]> (htmStops s) |>)).

(** The draining of the CPU: stop behind the last instruction that is complete. *)
Definition drainAfter (tid : ThreadID) (head_inst : InstPtr) : R unit :=
  s ← gets (fun s => s);
  when (drainPending s &&
        ((microPC isa (pcs s tid) =? 0) && bool_decide (interrupt s = NoFault) &&
         negb (trapPending s tid)))
    (_ ← squashAfter tid head_inst;
     _ ← call (CommitDrained tid);
     modify (fun s => s <| drainImminent := true |>)).

(** The loop that services the PC events; the result is how often it ran. *)
Fixpoint servicePCEvents (fuel : nat) (tid : ThreadID) (count : nat) : R nat :=
  match fuel with
  | O => lift Undef
  | Datatypes.S fuel =>
      oldpc ← gets (fun s => instAddr isa (pcs s tid));
      _ ← match pcEvent isa tid oldpc with
          | Some val => tcPcState val tid
          | None => mret tt
          end;
      newpc ← gets (fun s => instAddr isa (pcs s tid));
      if oldpc =? newpc then mret (Datatypes.S count)
      else servicePCEvents fuel tid (Datatypes.S count)
  end.

Definition onInstBoundary (i : DynInst) : bool :=
  negb (isMicroop i) || isLastMicroop i || negb (isDelayedCommit i).

(** The squashes a committed instruction asks for, and the PC events; the
    result is whether an event stops the loop. *)
Definition finishCommit (tid : ThreadID) (head_inst : InstPtr) (i : DynInst) : R bool :=
  _ ← when (isSquashAfter i) (squashAfter tid head_inst);
  _ ← drainAfter tid head_inst;
  stop ← (if onInstBoundary i then
            s ← gets (fun s => s);
            _ ← assertM (negb (noSquashFromTC s tid) && negb (trapPending s tid));
            count ← servicePCEvents (2 + numPCEvents isa) tid 0;
            mret (1 <? count)%nat
          else mret false);
  if stop : bool then mret true
  else
    s ← gets (fun s => s);
    _ ← when (bool_decide (interrupt s = NoFault) && avoidQuiesceLiveLock s &&
              onInstBoundary i && checkInterrupts s)
          (squashAfter tid head_inst);
    mret false.

(** What follows a successful [commitHead]. *)
Definition afterCommit (tid : ThreadID) (head_inst : InstPtr) : R bool :=
  _ ← modify (fun s => s <| adaptive := adaptiveNoteCommittedInst ac 1 (adaptive s) |>);
  _ ← call (ProbeCommit head_inst);
  i ← instOf head_inst;
  _ ← countHtm tid i;
  _ ← setChanged tid true;
  _ ← tell tid (fun o => o <| doneSeqNum := seqNum i |>);
  _ ← when (bool_decide (tid = 0%nat))
        (modify (fun s => s <| canHandleInterrupts := negb (isDelayedCommit i) |>));
  _ ← assertM (negb (isStoreConditional i) || isCompleted i || negb (readPredicate i));
  _ ← modify (fun s => s <| pcs := <[tid := advancePC isa (staticInst i) (pcs s tid)]> (pcs s) |>
                         <| lastCommitedSeqNum := <[tid := seqNum i]> (lastCommitedSeqNum s) |>);
  finishCommit tid head_inst i.

(** Removing a squashed head. *)
Definition retireSquashed (tid : ThreadID) (head_inst : InstPtr) : R unit :=
  _ ← onCore (retireHead tid);
  _ ← modify (fun s => s <| adaptive := adaptiveNoteSquashedInst ac 1 (adaptive s) |>);
  _ ← call (ProbeSquash head_inst);
  setChanged tid true.

(** The condition of [commitInsts]'s loop and its body: whether the loop goes on,
    and the number of instructions committed. *)
Definition commitRound (num_committed : Z) : R (bool * Z) :=
  if negb (num_committed <? commitWidth cfg) then mret (false, num_committed)
  else
    commit_thread ← getCommittingThread;
    _ ← pollInterrupt commit_thread;
    match commit_thread with
    | None => mret (false, num_committed)
    | Some tid =>
        c ← gets core;
        ready ← lift (isHeadReady tid c);
        if negb ready then mret (false, num_committed)
        else
          o ← lift (readHeadInst tid c);
          head_inst ← lift (deref o);
          i ← instOf head_inst;
          _ ← assertM (bool_decide (threadNumber i = tid));
          if isSquashed i then
            _ ← retireSquashed tid head_inst;
            mret (true, num_committed)
          else
            _ ← modify (fun s => s <| pcs := <[tid := pcState inp head_inst]> (pcs s) |>);
            commit_success ← commitHead head_inst num_committed;
            if commit_success : bool then
              stop ← afterCommit tid head_inst;
              mret (negb stop, num_committed + 1)
            else mret (false, num_committed)
    end.

(** The loop.  Squashed instructions do not count towards the width, so the
    fuel is one round for each instruction of the buffer, and one. *)
Fixpoint commitLoop (fuel : nat) (num_committed : Z) : R Z :=
  match fuel with
  | O => lift Undef
  | Datatypes.S fuel =>
      '(go, num_committed) ← commitRound num_committed;
      if go : bool then commitLoop fuel num_committed else mret num_committed
  end.

Definition commitInsts : R unit :=
  n ← gets (fun s => Z.to_nat (numInstsInROB (rob (core s))));
  _ ← commitLoop (Datatypes.S n) 0;
  mret tt.

(** ** The cycle *)

(** One instruction of [getInsts]'s loop. *)
Definition getInst1 (p : InstPtr) : R unit :=
  i ← instOf p;
  let tid := threadNumber i in
  s ← gets (fun s => s);
  when (negb (isSquashed i) && bool_decide (commitStatus s tid <> CommitROBSquashing) &&
        bool_decide (commitStatus s tid <> TrapPending))
    (_ ← setChanged tid true;
     _ ← onCore (insertInst p);
     r ← gets (fun s => rob (core s));
     _ ← assertM (threadEntries r tid <=? maxEntries r tid);
     modify (fun s => s <| youngestSeqNum := <[tid := seqNum i]> (youngestSeqNum s) |>)).

Definition getInsts : R unit :=
  forM (take (Z.to_nat (renameWidth cfg)) (fromRename inp)) getInst1.

Definition markCompletedInsts : R unit :=
  forM (iewInsts inp) (fun o =>
    _ ← assertM (bool_decide (is_Some o));
    p ← lift (deref o);
    i ← instOf p;
    when (negb (isSquashed i)) (updateInst p setCanCommit)).

(** Telling the other stages of the free entries, and of an empty buffer. *)
Definition reportEntries (tid : ThreadID) : R unit :=
  s ← gets (fun s => s);
  _ ← when (changedROBNumEntries s tid)
        (_ ← tell tid (fun o => o <| usedROB := true |>
                                  <| freeROBEntries := numFreeEntriesOf tid (rob (core s)) |>);
         _ ← wrote;
         _ ← setChanged tid false;
         when (isEmptyOf tid (rob (core s)))
           (modify (fun s => s <| checkEmptyROB := <[tid := true]> (checkEmptyROB s) |>)));
  s ← gets (fun s => s);
  when (checkEmptyROB s tid && isEmptyOf tid (rob (core s)) &&
        negb (hasStoresToWB inp tid) && negb (committedStores s tid))
    (_ ← modify (fun s => s <| checkEmptyROB := <[tid := false]> (checkEmptyROB s) |>);
     _ ← tell tid (fun o => o <| usedROB := true |> <| emptyROB := true |>
                              <| freeROBEntries := numFreeEntriesOf tid (rob (core s)) |>);
     wrote).

Definition commit : R unit :=
  s ← gets (fun s => s);
  _ ← when (checkInterrupts s) propagateInterrupt;
  num_squashing_threads ← squashThreads (commitActive cfg) 0;
  _ ← when (negb (num_squashing_threads =? 0)%nat)
        (modify (fun s => s <| nextStatus := Active |>));
  _ ← when (negb (num_squashing_threads =? numThreads cfg)%nat)
        (_ ← getInsts; commitInsts);
  forM (commitActive cfg) reportEntries.

(** The first loop of [tick]. *)
Definition continueSquash (tid : ThreadID) : R unit :=
  _ ← modify (fun s => s <| committedStores := <[tid := false]> (committedStores s) |>);
  s ← gets (fun s => s);
  when (bool_decide (commitStatus s tid = CommitROBSquashing))
    (if doneSquashing (rob (core s)) tid then setCommitStatus tid CommitRunning
     else
       _ ← onCore (ROB.doSquash (isThreadExiting inp tid) tid);
       _ ← tell tid (fun o => o <| robSquashing := true |>);
       wrote).

(** The second: whether there is more to commit. *)
Definition lookAtHead (tid : ThreadID) : R unit :=
  c ← gets core;
  if isEmptyOf tid (rob c) then mret tt
  else
    o ← lift (readHeadInst tid c);
    p ← lift (deref o);
    i ← instOf p;
    if readyToCommit i then modify (fun s => s <| nextStatus := Active |>)
    else call (ProbeCommitStall p).

Definition updateStatus : R unit :=
  _ ← forM (commitActive cfg) (fun tid =>
        _ ← setChanged tid false;
        s ← gets (fun s => s);
        when (bool_decide (commitStatus s tid = TrapPending) ||
              bool_decide (commitStatus s tid = FetchTrapPending))
          (modify (fun s => s <| nextStatus := Active |>)));
  s ← gets (fun s => s);
  _ ← (if decide (nextStatus s = Inactive /\ stage_status s = Active) then
         call (Activity DeactivateStage)
       else if decide (nextStatus s = Active /\ stage_status s = Inactive) then
         call (Activity ActivateStage)
       else mret tt);
  modify (fun s => s <| stage_status := nextStatus s |>).

Definition tick : R unit :=
  _ ← modify (fun s => s <| wroteToTimeBuffer := false |> <| nextStatus := Inactive |>
                         <| toIEW := fun _ => noInfo |> <| calls := [] |>);
  if decide (commitActive cfg = []) then mret tt
  else
    _ ← forM (commitActive cfg) continueSquash;
    _ ← commit;
    _ ← markCompletedInsts;
    _ ← forM (commitActive cfg) lookAtHead;
    w ← gets wroteToTimeBuffer;
    _ ← when w (call (Activity ActivityThisCycle));
    updateStatus.

(** ** Starting, draining, taking over *)

Definition startupStage : R unit :=
  _ ← onCore (fun c => Ok (c <| rob := resetEntries (rob c <| activeThreads := commitActive cfg |>) |>));
  _ ← forM (seq 0 (numThreads cfg)) (fun tid =>
        r ← gets (fun s => rob (core s));
        tell tid (fun o => o <| usedROB := true |> <| freeROBEntries := numFreeEntriesOf tid r |>
                             <| emptyROB := true |>));
  _ ← call (Activity ActivateStage);
  call (Activity ActivityThisCycle).

Definition clearStates (tid : ThreadID) : R unit :=
  modify (fun s =>
    s <| commitStatus := <[tid := CommitIdle]> (commitStatus s) |>
      <| changedROBNumEntries := <[tid := false]> (changedROBNumEntries s) |>
      <| checkEmptyROB := <[tid := false]> (checkEmptyROB s) |>
      <| trapInFlight := <[tid := false]> (trapInFlight s) |>
      <| committedStores := <[tid := false]> (committedStores s) |>
      <| trapSquash := <[tid := false]> (trapSquash s) |>
      <| tcSquash := <[tid := false]> (tcSquash s) |>
      <| pcs := <[tid := newPCState isa]> (pcs s) |>
      <| lastCommitedSeqNum := <[tid := 0]> (lastCommitedSeqNum s) |>
      <| squashAfterInst := <[tid := None]> (squashAfterInst s) |>).

Definition changedROBEntries (s : S) : bool := existsb (changedROBNumEntries s) (commitActive cfg).

Definition numROBFreeEntries (tid : ThreadID) (s : S) : Z := numFreeEntriesOf tid (rob (core s)).

Definition isSquashing (tid : ThreadID) (s : S) : bool :=
  bool_decide (commitStatus s tid = CommitROBSquashing).

Definition drain : R unit := modify (fun s => s <| drainPending := true |>).

Definition drainResume : R unit :=
  modify (fun s => s <| drainPending := false |> <| drainImminent := false |>).

Definition isDrained (s : S) : bool :=
  forallb (fun tid => microPC isa (pcs s tid) =? 0) (seq 0 (numThreads cfg)) &&
  isEmpty (rob (core s)) && bool_decide (interrupt s = NoFault).

Definition drainSanityCheck : R unit :=
  s ← gets (fun s => s);
  _ ← assertM (isDrained s);
  _ ← lift (ROB.drainSanityCheck (rob (core s)));
  assertM (negb (existsb (fun tid => executingHtmTransaction (Some tid) s)
                   (seq 0 (numThreads cfg)))).

Definition takeOverFrom : R unit :=
  _ ← modify (fun s => s <| stage_status := Active |> <| nextStatus := Inactive |>);
  _ ← forM (seq 0 (numThreads cfg)) (fun tid => modify (fun s =>
        s <| commitStatus := <[tid := CommitIdle]> (commitStatus s) |>
          <| changedROBNumEntries := <[tid := false]> (changedROBNumEntries s) |>
          <| trapSquash := <[tid := false]> (trapSquash s) |>
          <| tcSquash := <[tid := false]> (tcSquash s) |>
          <| squashAfterInst := <[tid := None]> (squashAfterInst s) |>));
  onCore (fun c => Ok (c <| rob := resetState (rob c) |>)).

Definition deactivateThread (tid : ThreadID) : R unit :=
  modify (fun s => match list_find (eq tid) (priority_list s) with
                   | Some (k, _) => s <| priority_list := delete k (priority_list s) |>
                   | None => s
                   end).

End Stage.
