(* ===== verification/CommitInv.v ===== *)
(** * The invariant of the commit stage

    What holds of the commit stage between its cycles, and how a squash of the
    reorder buffer, which all its squashes are made of, keeps it. *)

From stdpp Require Import base numbers list gmap functions sorting.
From S2P Require Import Prelude Adaptive Regs Monad RenameMap RenameHistory DynInst Stage ROB ROBProps Commit.

#[local] Open Scope Z_scope.

(** Read a field of an updated state, one update at a time: reducing the whole
    state would copy it once for each of its fields. *)
Ltac is_field p :=
  lazymatch p with
  | @core _ _ => idtac | @stage_status _ _ => idtac | @nextStatus _ _ => idtac |
  @commitStatus _ _ => idtac | @wroteToTimeBuffer _ _ => idtac | @changedROBNumEntries _ _
  => idtac | @trapSquash _ _ => idtac | @tcSquash _ _ => idtac | @squashAfterInst _ _ =>
  idtac | @priority_list _ _ => idtac | @drainPending _ _ => idtac | @drainImminent _ _ =>
  idtac | @interrupt _ _ => idtac | @pcs _ _ => idtac | @youngestSeqNum _ _ => idtac |
  @lastCommitedSeqNum _ _ => idtac | @trapInFlight _ _ => idtac | @committedStores _ _ =>
  idtac | @checkEmptyROB _ _ => idtac | @commitMaps _ _ => idtac | @canHandleInterrupts _ _
  => idtac | @avoidQuiesceLiveLock _ _ => idtac | @htmStarts _ _ => idtac | @htmStops _ _ =>
  idtac | @trapPending _ _ => idtac | @noSquashFromTC _ _ => idtac | @intr _ _ => idtac |
  @adaptive _ _ => idtac | @toIEW _ _ => idtac | @calls _ _ => idtac
  end.

Ltac read_field p R T f I v s :=
  let t := constr:(p (@upd_field R T f I v s)) in
  lazymatch f with
  | p =>
      let e := constr:((fun (w : T) (x : R) => eq_refl : p (@upd_field R T f I w x) = w) v s) in
      pattern t; lazymatch goal with |- ?P t => refine (@eq_ind_r _ v P _ t e) end
  | _ =>
      let e := constr:((fun (w : T) (x : R) => eq_refl : p (@upd_field R T f I w x) = p x) v s) in
      pattern t; lazymatch goal with |- ?P t => refine (@eq_ind_r _ (p s) P _ t e) end
  end; cbv beta.

Ltac fields :=
  repeat match goal with
  | |- context [?p (@upd_field ?R ?T ?f ?I ?v ?s)] => is_field p; read_field p R T f I v s
  end.

(** ** What a squash of the buffer changes *)

(** [squash] or [doSquash] of thread [tid]: the lists stay, instructions of the
    thread may be marked as squashed. *)
Definition squashMarks (l : list InstPtr) (m m' : InstMem) : Prop :=
  forall p, heap m' !! p = heap m !! p \/
    (p ∈ l /\ exists i i', heap m !! p = Some i /\ heap m' !! p = Some i' /\
       isSquashed i' = true /\ seqNum i' = seqNum i /\ threadNumber i' = threadNumber i).

(** Every younger instruction of the thread is squashed, or will be. *)
Definition squashReaches (c : Core) (tid : ThreadID) (sn : Z) : Prop :=
  forall p, p ∈ instList (rob c) tid -> sn < seqAt (mem c) p ->
    (exists i, heap (mem c) !! p = Some i /\ isSquashed i = true) \/
    (is_Some (squashIt (rob c) tid) /\ squashedSeqNum (rob c) tid < seqAt (mem c) p).

Record robFrame (r r' : ROB) (tid : ThreadID) : Prop := {
  rf_lists : instList r' = instList r;
  rf_entries : threadEntries r' = threadEntries r;
  rf_max : maxEntries r' = maxEntries r;
  rf_num : numInstsInROB r' = numInstsInROB r;
  rf_size : numEntries r' = numEntries r;
  rf_width : squashWidth r' = squashWidth r;
  rf_it : forall t, t <> tid -> squashIt r' t = squashIt r t;
  rf_sn : forall t, t <> tid -> squashedSeqNum r' t = squashedSeqNum r t
}.

Lemma robFrame_refl r tid : robFrame r r tid.
Proof. done. Qed.

Lemma robFrame_trans r r' r'' tid : robFrame r r' tid -> robFrame r' r'' tid -> robFrame r r'' tid.
Proof.
  intros [H1 H2 H3 H4 H5 H6 H7 H8] [K1 K2 K3 K4 K5 K6 K7 K8].
  split; try congruence; intros t Ht; [rewrite K7, H7|rewrite K8, H8]; done.
Qed.

Lemma updateTail_inv c c' :
  updateTail c = Ok c' -> exists t, c' = c <| rob := rob c <| tail := t |> |>.
Proof. unfold updateTail. intros H. inv_ok. eauto. Qed.

Lemma doneWith_frame tid r : robFrame r (doneWith tid r) tid.
Proof. split; try done. cbn. intros t Ht. by rewrite fn_lookup_insert_ne. Qed.

Lemma squashFinish_frame tid it tu c c' :
  squashFinish tid it tu c = Ok c' ->
  robFrame (rob c) (rob c') tid /\ squashedSeqNum (rob c') tid = squashedSeqNum (rob c) tid.
Proof.
  unfold squashFinish. intros H. inv_ok.
  set (r' := if _ <=? _ then _ else _) in H.
  assert (Hf : robFrame (rob c) r' tid /\ squashedSeqNum r' tid = squashedSeqNum (rob c) tid).
  { unfold r'. destruct (_ <=? _); split; try done; [apply doneWith_frame|].
    split; try done. cbn. intros t Ht. by rewrite fn_lookup_insert_ne. }
  clearbody r'. destruct tu; inv_ok; [|done].
  apply updateTail_inv in H as [t ->]. destruct Hf as [Hf Hs]. split; [|done].
  eapply robFrame_trans; [exact Hf|]. done.
Qed.

Lemma doSquash_frame e tid c c' :
  ROB.doSquash e tid c = Ok c' ->
  robFrame (rob c) (rob c') tid /\ squashedSeqNum (rob c') tid = squashedSeqNum (rob c) tid.
Proof.
  unfold ROB.doSquash. intros H. destruct (squashIt (rob c) tid) as [it|]; [|done].
  cbn [mbind res_bind] in H. inv_ok. case_match; inv_ok.
  { split; [apply doneWith_frame|done]. }
  match goal with x : SquashEnd * bool * InstMem |- _ => destruct x as [[[|it'] tu] m'] end; inv_ok.
  - split; [apply doneWith_frame|done].
  - apply squashFinish_frame in H. done.
Qed.

(** One call of [doSquash], as commit makes it. *)
Record squashStep (c c' : Core) (tid : ThreadID) : Prop := {
  ss_wf : rob_wf c';
  ss_cpu : cpu c' = cpu c;
  ss_frame : robFrame (rob c) (rob c') tid;
  ss_marks : squashMarks (instList (rob c) tid) (mem c) (mem c')
}.

Lemma squashedIn_marks l m m' dn :
  squashedIn m m' dn -> (forall p, p ∈ dn -> p ∈ l) -> squashMarks l m m'.
Proof.
  intros [H1 H2] Hl p. destruct (decide (p ∈ dn)) as [Hp|Hp]; [|left; auto]. right.
  destruct (H1 p Hp) as (i & i' & ? & ? & ? & ? & ? & ? & ? & ? & ?). eauto 10.
Qed.

Lemma marks_seqAt l m m' p : squashMarks l m m' -> seqAt m' p = seqAt m p.
Proof.
  intros H. unfold seqAt. destruct (H p) as [->|(_ & i & i' & -> & -> & _ & Hs & _)]; [done|].
  cbn. done.
Qed.

Lemma doSquash_step e tid c it :
  rob_wf c -> squashIt (rob c) tid = Some it -> 0 < squashBudget e (rob c) ->
  exists c', ROB.doSquash e tid c = Ok c' /\ squashStep c c' tid /\
    squashedSeqNum (rob c') tid = squashedSeqNum (rob c) tid /\
    squashReaches c' tid (squashedSeqNum (rob c) tid).
Proof.
  intros Hwf Hit Hb. destruct (robSquash_ok e tid c it Hwf Hit Hb) as (c' & l1 & l2 & Hl & H & Hc).
  pose proof (doSquash_frame e tid c c' H) as [Hf Hsn].
  destruct (sc_marked _ _ _ _ _ Hc) as (rest & dn & Hsplit & Hyoung & Hsq & Hend).
  assert (Hmarks : squashMarks (instList (rob c) tid) (mem c) (mem c')).
  { eapply squashedIn_marks; [exact Hsq|]. intros p Hp. rewrite Hl.
    change (it :: l2) with ([it] ++ l2). rewrite app_assoc, Hsplit, !elem_of_app. auto. }
  exists c'. split; [done|]. split_and!; [split; try done; apply Hc|done|].
  intros p Hp Hlt. rewrite (rf_lists _ _ _ Hf), Hl in Hp.
  change (it :: l2) with ([it] ++ l2) in Hp. rewrite app_assoc, Hsplit, !elem_of_app in Hp.
  rewrite (marks_seqAt _ _ _ _ Hmarks) in Hlt |- *. destruct Hp as [[Hp|Hp]|Hp].
  - destruct (doneSquashing (rob c') tid).
    + rewrite Forall_forall in Hend. specialize (Hend p Hp). cbn in Hend. lia.
    + right. destruct Hend as (_ & ? & ? & _ & ->). rewrite Hsn. eauto.
  - left. destruct Hsq as [Hsq _]. destruct (Hsq p Hp) as (i & i' & ? & ? & ? & ? & ? & ? & ? & ? & ?). eauto.
  - left. pose proof (rb_squash _ Hwf tid) as Hs. rewrite Hit in Hs.
    destruct Hs as (_ & k1 & k2 & Hk & Hall). rewrite Hl in Hk.
    assert (l1 = k1) as <-.
    { eapply app_split_unique; [|exact Hk]. rewrite <- Hl.
      eapply ordered_NoDup, (rb_order _ Hwf). }
    apply app_inv_head in Hk. injection Hk as <-.
    rewrite Forall_forall in Hall. destruct (Hall p Hp) as (i & Hi & Hs).
    destruct (Hmarks p) as [->|(_ & j & j' & _ & -> & ? & _)]; eauto.
Qed.

Lemma squash_step e sn tid c :
  rob_wf c -> 0 < squashBudget e (rob c) ->
  exists c', ROB.squash e sn tid c = Ok c' /\ squashStep c c' tid /\ squashReaches c' tid sn.
Proof.
  intros Hwf Hb. destruct (instList (rob c) tid) as [|p l _] eqn:El using rev_ind.
  { exists c. unfold ROB.squash, isEmptyOf. rewrite (rb_entries _ Hwf), El. cbn. split; [done|].
    split; [split; try done|].
    - intros p. by left.
    - intros p. rewrite El. by intros ?%elem_of_nil. }
  destruct (squash_start e sn tid p l c Hwf El) as [-> Hwf0].
  destruct (doSquash_step e tid (squashStart sn tid p c) p Hwf0) as (c' & H & [S1 S2 S3 S4] & Hsn & Hr).
  { cbn. by rewrite fn_lookup_insert. }
  { done. }
  cbn in Hsn, Hr. rewrite fn_lookup_insert in Hsn, Hr. exists c'. split; [done|]. split; [|done].
  split; try done. eapply robFrame_trans; [|exact S3]. split; try done.
  - cbn. intros t Ht. by rewrite fn_lookup_insert_ne.
  - cbn. intros t Ht. by rewrite fn_lookup_insert_ne.
Qed.

(** ** The invariant *)

Section Inv.
Context {PC Intr : Type}.
Abbreviation S := (CommitS PC Intr).

Abbreviation listOf s tid := (instList (rob (core s)) tid).
Abbreviation heapOf s := (heap (mem (core s))).

(** Every instruction of the thread younger than the youngest one the stage
    knows of is squashed, or will be. *)
Definition coveredBy (s : S) (tid : ThreadID) : Prop :=
  squashReaches (core s) tid (youngestSeqNum s tid).

(** The flags of a thread agree: a trap is pending exactly while its event is
    in flight, a squash from a thread context is not asked for meanwhile, an
    instruction to squash after is recorded only while that squash is pending,
    the buffer squashes only while the thread waits for it, and what is in the
    buffer has not been committed. *)
Record threadOK (s : S) (tid : ThreadID) : Prop := {
  th_trap : commitStatus s tid = TrapPending <-> trapInFlight s tid = true;
  th_pending : trapPending s tid = trapInFlight s tid;
  th_trapSquash : trapSquash s tid = true -> trapInFlight s tid = true;
  th_tc : tcSquash s tid = true ->
    trapInFlight s tid = false /\ commitStatus s tid <> SquashAfterPending;
  th_noSquash : noSquashFromTC s tid = tcSquash s tid;
  th_after : is_Some (squashAfterInst s tid) -> commitStatus s tid = SquashAfterPending;
  th_squashing : is_Some (squashIt (rob (core s)) tid) -> commitStatus s tid = CommitROBSquashing;
  th_young : coveredBy s tid;
  th_last : forall p, p ∈ listOf s tid -> lastCommitedSeqNum s tid < seqAt (mem (core s)) p
}.

Record CommitInv (s : S) : Prop := {
  ci_rob : rob_wf (core s);
  ci_width : 0 < squashWidth (rob (core s)) /\ 0 < numEntries (rob (core s));
  ci_seq : forall tid p, p ∈ listOf s tid -> 0 < seqAt (mem (core s)) p < 2 ^ 64;
  ci_cpu : forall tid p, p ∈ listOf s tid -> p ∈ cpuInstList (cpu (core s));
  ci_threads : forall tid, threadOK s tid;
  ci_intr : interrupt s <> NoFault -> commitStatus s 0%nat = TrapPending -> listOf s 0%nat <> [];
  ci_htm : forall tid, htmStarts s tid <= htmStops s tid
}.

Lemma squashBudget_pos s e : CommitInv s -> 0 < squashBudget e (rob (core s)).
Proof. intros [_ [H1 H2] _ _ _ _ _]. unfold squashBudget. by destruct e. Qed.

(** *** Squashing a thread *)

Lemma readHead_ok (s : S) tid p l :
  rob_wf (core s) -> listOf s tid = p :: l ->
  exists i, heapOf s !! p = Some i /\ threadNumber i = tid /\
    isEmptyOf tid (rob (core s)) = false /\
    readHeadInst tid (core s) = Ok (Some p) /\
    isHeadReady tid (core s) = Ok (readyToCommit i).
Proof.
  intros Hwf Hl. destruct (rb_insts _ Hwf tid p) as (i & Hi & Ht & Hr & _); [rewrite Hl; left|].
  exists i. unfold isEmptyOf, readHeadInst, isHeadReady. rewrite (rb_entries _ Hwf), Hl.
  cbn [length list.head hd_error]. rewrite (proj2 (Z.eqb_neq _ _)) by lia.
  cbn [negb deref mbind res_bind]. rewrite (getInst_ok _ _ _ Hi). cbn [mbind res_bind].
  rewrite Hr. done.
Qed.

Lemma readHead_nil (s : S) tid :
  rob_wf (core s) -> listOf s tid = [] ->
  isEmptyOf tid (rob (core s)) = true /\ isHeadReady tid (core s) = Ok false.
Proof.
  intros Hwf Hl. unfold isEmptyOf, isHeadReady. rewrite (rb_entries _ Hwf), Hl. done.
Qed.

Context (inp : CommitIn PC).

(** [squashAll]: the buffer squashes the whole thread. *)
Lemma squashAll_ok tid s :
  CommitInv s ->
  exists c' sn, squashStep (core s) c' tid /\ (forall n, squashReaches c' tid n) /\
    squashAll inp tid s = Ok (tt,
      s <| youngestSeqNum := <[tid := lastCommitedSeqNum s tid]> (youngestSeqNum s) |>
        <| core := c' |>
        <| changedROBNumEntries := <[tid := true]> (changedROBNumEntries s) |>
        <| toIEW := <[tid := (toIEW s tid) <| doneSeqNum := sn |> <| infoSquash := true |>
                      <| robSquashing := true |> <| mispredictInst := None |>
                      <| squashInst := None |> <| infoPC := Some (pcs s tid) |>]> (toIEW s) |>).
Proof.
  intros HI. pose proof (ci_rob _ HI) as Hwf.
  unfold squashAll, instOf, onCore, setChanged, tell. fwd.
  destruct (listOf s tid) as [|p l] eqn:El.
  - destruct (readHead_nil s tid Hwf El) as [-> _]. fwd. fields.
    destruct (squash_step (isThreadExiting inp tid) (lastCommitedSeqNum s tid) tid (core s))
      as (c' & -> & Hst & Hr); [done|by apply squashBudget_pos|].
    fwd. fields. exists c'. eexists. split; [done|]. split; [|reflexivity].
    intros n p. rewrite (rf_lists _ _ _ (ss_frame _ _ _ Hst)), El. by intros ?%elem_of_nil.
  - destruct (readHead_ok s tid p l Hwf El) as (i & Hi & Ht & -> & -> & _).
    fwd. cbn [deref]. fwd. rewrite (getInst_ok _ _ _ Hi). fwd. fields.
    destruct (ci_seq _ HI tid p) as [Hp1 Hp2]; [rewrite El; left|].
    assert (Hsi : seqAt (mem (core s)) p = seqNum i) by (unfold seqAt; by rewrite Hi).
    rewrite Hsi in Hp1, Hp2. rewrite u64_small by (unfold in_u64; lia).
    destruct (squash_step (isThreadExiting inp tid) (seqNum i - 1) tid (core s))
      as (c' & -> & Hst & Hr); [done|by apply squashBudget_pos|].
    fwd. fields. exists c'. eexists. split; [done|]. split; [|reflexivity].
    intros n q Hq _. apply (Hr q Hq).
    rewrite (marks_seqAt _ _ _ _ (ss_marks _ _ _ Hst)).
    rewrite (rf_lists _ _ _ (ss_frame _ _ _ Hst)), El in Hq.
    pose proof (rb_order _ Hwf tid) as Ho. rewrite El in Ho. apply StronglySorted_inv in Ho as [_ Ho].
    rewrite Forall_forall in Ho. apply elem_of_cons in Hq as [->|Hq]; [lia|].
    specialize (Ho q Hq). cbn in Ho. lia.
Qed.

(** *** Frames *)

(** Instructions stay, with their number, squashed or not. *)
Definition heapKeeps (m m' : InstMem) : Prop :=
  forall p i, heap m !! p = Some i ->
    exists i', heap m' !! p = Some i' /\ isSquashed i' = isSquashed i /\ seqNum i' = seqNum i.

Lemma heapKeeps_refl m : heapKeeps m m.
Proof. intros p i Hp. eauto. Qed.

Lemma heapKeeps_trans m1 m2 m3 : heapKeeps m1 m2 -> heapKeeps m2 m3 -> heapKeeps m1 m3.
Proof.
  intros H1 H2 p i Hp. destruct (H1 p i Hp) as (j & Hj & <- & <-). destruct (H2 p j Hj) as (k & ? & ? & ?). eauto.
Qed.

Lemma heapKeeps_insert m m' p i i' :
  heap m !! p = Some i -> heap m' = <[p := i']> (heap m) -> isSquashed i' = isSquashed i ->
  seqNum i' = seqNum i -> heapKeeps m m'.
Proof.
  intros Hi E H1 H2 q j Hq. rewrite E. destruct (decide (q = p)) as [->|Hne].
  - rewrite lookup_insert_eq. assert (j = i) as -> by congruence. eauto.
  - rewrite lookup_insert_ne by done. eauto.
Qed.

Lemma heapKeeps_live m m' p : heapKeeps m m' -> is_Some (heap m !! p) -> is_Some (heap m' !! p).
Proof. intros H [i Hi]. destruct (H p i Hi) as (i' & ? & _). eauto. Qed.

(** The probes a list of calls notifies, and whether of a commit. *)
Definition probesOf (l : list CpuCall) : list (InstPtr * bool) :=
  omap (fun c => match c with
                 | ProbeCommit p => Some (p, true)
                 | ProbeSquash p => Some (p, false)
                 | _ => None
                 end) l.

(** The threads whose traps it schedules. *)
Definition trapsOf (l : list CpuCall) : list ThreadID :=
  omap (fun c => match c with ScheduleTrap t _ => Some t | _ => None end) l.

Definition eventsOf (l : list CpuCall) : list (InstPtr * bool) * list ThreadID := (probesOf l, trapsOf l).

Lemma probesOf_app l k : probesOf (l ++ k) = probesOf l ++ probesOf k.
Proof. apply omap_app. Qed.

Lemma trapsOf_app l k : trapsOf (l ++ k) = trapsOf l ++ trapsOf k.
Proof. apply omap_app. Qed.

Lemma eventsOf_quiet l k : eventsOf k = ([], []) -> eventsOf (l ++ k) = eventsOf l.
Proof.
  intros [= E1 E2]. unfold eventsOf. by rewrite probesOf_app, trapsOf_app, E1, E2, !app_nil_r.
Qed.

(** The flags of thread [t] are the same. *)
Record sameThread (s s' : S) (t : ThreadID) : Prop := {
  sm_status : commitStatus s' t = commitStatus s t;
  sm_inFlight : trapInFlight s' t = trapInFlight s t;
  sm_pending : trapPending s' t = trapPending s t;
  sm_trapSquash : trapSquash s' t = trapSquash s t;
  sm_tcSquash : tcSquash s' t = tcSquash s t;
  sm_noSquash : noSquashFromTC s' t = noSquashFromTC s t;
  sm_after : squashAfterInst s' t = squashAfterInst s t;
  sm_young : youngestSeqNum s' t = youngestSeqNum s t;
  sm_last : lastCommitedSeqNum s' t = lastCommitedSeqNum s t;
  sm_it : squashIt (rob (core s')) t = squashIt (rob (core s)) t;
  sm_sn : squashedSeqNum (rob (core s')) t = squashedSeqNum (rob (core s)) t
}.

(** What the squashes before committing leave alone. *)
Record marksOnly (s s' : S) : Prop := {
  mo_lists : instList (rob (core s')) = instList (rob (core s));
  mo_entries : threadEntries (rob (core s')) = threadEntries (rob (core s));
  mo_max : maxEntries (rob (core s')) = maxEntries (rob (core s));
  mo_num : numInstsInROB (rob (core s')) = numInstsInROB (rob (core s));
  mo_size : numEntries (rob (core s')) = numEntries (rob (core s));
  mo_cpu : cpu (core s') = cpu (core s);
  mo_heap : forall p, heapOf s' !! p = heapOf s !! p \/
    exists t i i', p ∈ listOf s t /\ heapOf s !! p = Some i /\ heapOf s' !! p = Some i' /\
       isSquashed i' = true /\ seqNum i' = seqNum i /\ threadNumber i' = threadNumber i;
  mo_maps : commitMaps s' = commitMaps s;
  mo_prio : priority_list s' = priority_list s;
  mo_htm : htmStarts s' = htmStarts s /\ htmStops s' = htmStops s;
  mo_intr : interrupt s' = interrupt s;
  mo_events : eventsOf (calls s') = eventsOf (calls s);
  mo_last : lastCommitedSeqNum s' = lastCommitedSeqNum s
}.

Lemma marksOnly_refl s : marksOnly s s.
Proof. split; try done. auto. Qed.

Lemma marksOnly_trans s1 s2 s3 : marksOnly s1 s2 -> marksOnly s2 s3 -> marksOnly s1 s3.
Proof.
  intros [H1 H2 H3 H4 H5 H6 H7 H8 H9 [H10 H10'] H11 H12 H13] [K1 K2 K3 K4 K5 K6 K7 K8 K9 [K10 K10'] K11 K12 K13].
  split; try congruence; [|split; congruence].
  intros p. destruct (K7 p) as [->|(t & i & i' & Hp & Hi & Hi' & Hs & Hn & Ht)]; [done|].
  right. rewrite H1 in Hp. destruct (H7 p) as [E|(t' & j & j' & Hp' & Hj & Hj' & Hs' & Hn' & Ht')].
  - rewrite E in Hi. exists t, i, i'. done.
  - assert (i = j') as -> by congruence. exists t', j, i'. split_and!; try done; congruence.
Qed.

Lemma sameThread_refl s t : sameThread s s t.
Proof. done. Qed.

Lemma reaches_frame c c' tid t n :
  squashStep c c' tid -> t <> tid -> squashReaches c t n -> squashReaches c' t n.
Proof.
  intros [_ _ Hf Hm] Ht H p. rewrite (rf_lists _ _ _ Hf). intros Hp.
  rewrite (marks_seqAt _ _ _ _ Hm), (rf_it _ _ _ Hf t Ht), (rf_sn _ _ _ Hf t Ht). intros Hlt.
  destruct (Hm p) as [->|(_ & i & i' & Hi & Hi' & Hs & _)]; [by apply H|]. left. eauto.
Qed.

Lemma last_frame c c' tid t n :
  squashStep c c' tid -> (forall p, p ∈ instList (rob c) t -> n < seqAt (mem c) p) ->
  forall p, p ∈ instList (rob c') t -> n < seqAt (mem c') p.
Proof.
  intros Hst H p. rewrite (rf_lists _ _ _ (ss_frame _ _ _ Hst)).
  rewrite (marks_seqAt _ _ _ _ (ss_marks _ _ _ Hst)). auto.
Qed.

(** A thread whose flags stay, while another one is squashed. *)
Lemma threadOK_other s s' tid t :
  squashStep (core s) (core s') tid -> t <> tid -> sameThread s s' t ->
  threadOK s t -> threadOK s' t.
Proof.
  intros Hst Ht [E1 E2 E3 E4 E5 E6 E7 E8 E9 E10 E11] [H1 H2 H3 H4 H5 H6 H7 H8 H9].
  split; rewrite ?E1, ?E2, ?E3, ?E4, ?E5, ?E6, ?E7, ?E9; try done.
  - by rewrite (rf_it _ _ _ (ss_frame _ _ _ Hst) t Ht).
  - unfold coveredBy. rewrite E8. by eapply reaches_frame.
  - eapply last_frame; eauto.
Qed.

Lemma inv_squashStep s s' tid :
  CommitInv s -> squashStep (core s) (core s') tid -> threadOK s' tid ->
  (forall t, t <> tid -> sameThread s s' t) ->
  interrupt s' = interrupt s -> htmStarts s' = htmStarts s -> htmStops s' = htmStops s ->
  (commitStatus s' 0%nat = TrapPending -> commitStatus s 0%nat = TrapPending) ->
  CommitInv s'.
Proof.
  intros [H1 H2 H3 H4 H5 H6 H7] Hst Hok Hsame Ei Es Ep Hst0.
  pose proof (ss_frame _ _ _ Hst) as Hf. pose proof (ss_marks _ _ _ Hst) as Hm.
  split; rewrite ?(rf_lists _ _ _ Hf), ?(rf_width _ _ _ Hf), ?(rf_size _ _ _ Hf), ?(ss_cpu _ _ _ Hst),
    ?Ei, ?Es, ?Ep; try done.
  - apply Hst.
  - intros t p Hp. rewrite (marks_seqAt _ _ _ _ Hm). eauto.
  - intros t. destruct (decide (t = tid)) as [->|Ht]; [done|]. eapply threadOK_other; eauto.
  - auto.
Qed.

Lemma marksOnly_seqAt (s s' : S) p : marksOnly s s' -> seqAt (mem (core s')) p = seqAt (mem (core s)) p.
Proof.
  intros H. unfold seqAt.
  destruct (mo_heap _ _ H p) as [->|(t & i & i' & _ & -> & -> & _ & Hn & _)]; [done|]. cbn. done.
Qed.

Lemma reaches_same (s s' : S) t n :
  marksOnly s s' -> sameThread s s' t -> squashReaches (core s) t n -> squashReaches (core s') t n.
Proof.
  intros Hm Hs H p. rewrite (mo_lists _ _ Hm), (marksOnly_seqAt _ _ _ Hm), (sm_it _ _ _ Hs), (sm_sn _ _ _ Hs).
  intros Hp Hlt. destruct (mo_heap _ _ Hm p) as [->|(u & i & i' & _ & _ & Hi' & Hq & _)]; [by apply H|]. left. eauto.
Qed.

Lemma sameThread_trans (s1 s2 s3 : S) t : sameThread s1 s2 t -> sameThread s2 s3 t -> sameThread s1 s3 t.
Proof. intros [] []. split; congruence. Qed.

Lemma squashStep_refl c tid : rob_wf c -> squashStep c c tid.
Proof. intros H. split; try done. intros p. by left. Qed.

(** A change of fields the invariant does not read. *)
Lemma inv_ext (s s' : S) :
  CommitInv s -> core s' = core s -> commitStatus s' = commitStatus s ->
  trapInFlight s' = trapInFlight s -> trapPending s' = trapPending s ->
  trapSquash s' = trapSquash s -> tcSquash s' = tcSquash s ->
  noSquashFromTC s' = noSquashFromTC s -> squashAfterInst s' = squashAfterInst s ->
  youngestSeqNum s' = youngestSeqNum s -> lastCommitedSeqNum s' = lastCommitedSeqNum s ->
  interrupt s' = interrupt s -> htmStarts s' = htmStarts s -> htmStops s' = htmStops s ->
  CommitInv s'.
Proof.
  intros [H1 H2 H3 H4 H5 H6 H7] E1 E2 E3 E4 E5 E6 E7 E8 E9 E10 E11 E12 E13.
  split; rewrite ?E1, ?E2, ?E11, ?E12, ?E13; try done.
  intros t. destruct (H5 t). split; unfold coveredBy;
    rewrite ?E1, ?E2, ?E3, ?E4, ?E5, ?E6, ?E7, ?E8, ?E9, ?E10; done.
Qed.

(** A thread that has just been told to squash. *)
Lemma threadOK_squashing s tid :
  commitStatus s tid = CommitROBSquashing -> trapInFlight s tid = false ->
  trapPending s tid = false -> trapSquash s tid = false -> tcSquash s tid = false ->
  noSquashFromTC s tid = false -> squashAfterInst s tid = None -> coveredBy s tid ->
  (forall p, p ∈ listOf s tid -> lastCommitedSeqNum s tid < seqAt (mem (core s)) p) ->
  threadOK s tid.
Proof.
  intros E1 E2 E3 E4 E5 E6 E7 E8 E9. split; rewrite ?E1, ?E2, ?E3, ?E4, ?E5, ?E6, ?E7; try done.
Qed.

Lemma marksOnly_step s s' tid :
  squashStep (core s) (core s') tid -> commitMaps s' = commitMaps s ->
  priority_list s' = priority_list s -> htmStarts s' = htmStarts s -> htmStops s' = htmStops s ->
  interrupt s' = interrupt s -> eventsOf (calls s') = eventsOf (calls s) ->
  lastCommitedSeqNum s' = lastCommitedSeqNum s -> marksOnly s s'.
Proof.
  intros [H1 H2 [] H4] E1 E2 E3 E4 E5 E6 E7. split; try done.
  intros p. destruct (H4 p) as [?|(Hp & i & i' & ?)]; [by left|]. right. exists tid, i, i'. tauto.
Qed.

End Inv.
