(* ===== verification/CommitSquash.v ===== *)
(** * The squashes of the commit stage

    Every squash a thread may ask for (a trap, a write through its thread
    context, an instruction to squash after, a misprediction or an ordering
    violation found by IEW) keeps the invariant, changes the flags of no other
    thread, and only marks instructions of the buffer. *)

From stdpp Require Import base numbers list gmap functions sorting.
From S2P Require Import Prelude Adaptive Regs Monad RenameMap RenameHistory DynInst Stage ROB ROBProps Commit CommitInv.

#[local] Open Scope Z_scope.

Section Squash.
Context {PC Intr : Type} (ac : AdaptiveConfig) (cfg : CommitConfig) (inp : CommitIn PC).
Abbreviation S := (CommitS PC Intr).
Abbreviation listOf s tid := (instList (rob (core s)) tid).
Abbreviation heapOf s := (heap (mem (core s))).

(** The thread asks for no squash of its own. *)
Definition settled (s : S) (tid : ThreadID) : Prop :=
  trapSquash s tid = false /\ tcSquash s tid = false /\ squashAfterInst s tid = None.

(** What a squash of thread [tid] does to the stage. *)
Record squashedThread (s s' : S) (tid : ThreadID) : Prop := {
  sq_inv : CommitInv s';
  sq_marks : marksOnly s s';
  sq_same : forall t, t <> tid -> sameThread s s' t;
  sq_status : commitStatus s' tid = CommitROBSquashing;
  sq_settled : settled s' tid
}.

Lemma squashedThread_intro s s' tid :
  CommitInv s -> squashStep (core s) (core s') tid -> coveredBy s' tid ->
  commitStatus s' = <[tid := CommitROBSquashing]> (commitStatus s) ->
  trapInFlight s' tid = false -> trapPending s' tid = false -> settled s' tid ->
  lastCommitedSeqNum s' = lastCommitedSeqNum s ->
  noSquashFromTC s' tid = false -> (forall t, t <> tid -> sameThread s s' t) ->
  commitMaps s' = commitMaps s -> priority_list s' = priority_list s ->
  htmStarts s' = htmStarts s -> htmStops s' = htmStops s -> interrupt s' = interrupt s ->
  eventsOf (calls s') = eventsOf (calls s) -> squashedThread s s' tid.
Proof.
  intros HI Hst Hc E1 E2 E3 (E4 & E5 & E6) El E7 Hsame E8 E9 E10 E11 E12 E13.
  assert (Es : commitStatus s' tid = CommitROBSquashing) by (by rewrite E1, fn_lookup_insert).
  split; try done.
  - eapply inv_squashStep; eauto.
    + apply threadOK_squashing; try done. rewrite El. eapply last_frame; [done|].
      apply (th_last _ _ (ci_threads _ HI tid)).
    + rewrite E1. destruct (decide (0%nat = tid)) as [<-|Ht].
      * by rewrite fn_lookup_insert.
      * by rewrite fn_lookup_insert_ne by done.
  - by eapply marksOnly_step.
Qed.

(** Close what an explicit state makes plain. *)
Ltac other_thread := let t := fresh in let Ht := fresh in
  intros t Ht; split; fields; rewrite ?fn_lookup_insert_ne by done; try done;
  match goal with H : squashStep _ _ _ |- _ =>
    by first [apply (rf_it _ _ _ (ss_frame _ _ _ H)) | apply (rf_sn _ _ _ (ss_frame _ _ _ H))] end.

Lemma squashFromTrap_ok tid s :
  CommitInv s -> trapSquash s tid = true ->
  exists s', squashFromTrap inp tid s = Ok (tt, s') /\ squashedThread s s' tid /\
    youngestSeqNum s' tid = lastCommitedSeqNum s tid /\
    forall n, squashReaches (core s') tid n.
Proof.
  intros HI Hts. destruct (squashAll_ok inp tid s HI) as (c' & sn & Hst & Hr & E).
  destruct (ci_threads _ HI tid) as [T1 T2 T3 T4 T5 T6 T7 T8 T9].
  specialize (T3 Hts). pose proof (proj2 T1 T3) as Hs.
  assert (Htc : tcSquash s tid = false).
  { destruct (tcSquash s tid); [|done]. destruct T4 as [? _]; [done|]. congruence. }
  assert (Ha : squashAfterInst s tid = None).
  { destruct (squashAfterInst s tid); [|done]. rewrite T6 in Hs by eauto. done. }
  unfold squashFromTrap, setNoSquashFromTC, setCommitStatus, call.
  rewrite (bind_run _ _ _ _ _ E). fwd. fields. eexists. split; [reflexivity|].
  split; [|fields; by rewrite fn_lookup_insert].
  eapply squashedThread_intro; try done; fields; rewrite ?fn_lookup_insert; try done.
  - unfold coveredBy. fields. apply Hr.
  - split_and!; fields; rewrite ?fn_lookup_insert; done.
  - other_thread.
  - by rewrite eventsOf_quiet.
Qed.

Lemma status_flags (s : S) tid :
  CommitInv s -> commitStatus s tid <> TrapPending ->
  trapInFlight s tid = false /\ trapPending s tid = false /\ trapSquash s tid = false.
Proof.
  intros HI Hs. destruct (ci_threads _ HI tid) as [T1 T2 T3 T4 T5 T6 T7 T8 T9].
  assert (trapInFlight s tid = false) by (destruct (trapInFlight s tid); [tauto|done]).
  split_and!; [done|congruence|]. destruct (trapSquash s tid); [|done]. rewrite T3 in *; done.
Qed.

Lemma squashFromTC_ok (s : S) tid :
  CommitInv s -> tcSquash s tid = true -> commitStatus s tid <> TrapPending ->
  exists s', squashFromTC inp tid s = Ok (tt, s') /\ squashedThread s s' tid.
Proof.
  intros HI Htc Hs. destruct (squashAll_ok inp tid s HI) as (c' & sn & Hst & Hr & E).
  destruct (status_flags s tid HI Hs) as (F1 & F2 & F3).
  destruct (ci_threads _ HI tid) as [T1 T2 T3 T4 T5 T6 T7 T8 T9].
  assert (Ha : squashAfterInst s tid = None).
  { destruct (squashAfterInst s tid); [|done]. destruct (T4 Htc) as [_ []]. eauto. }
  unfold squashFromTC, setNoSquashFromTC, setCommitStatus, call.
  rewrite (bind_run _ _ _ _ _ E). fwd. fields. rewrite F2. cbn [negb]. fwd. fields.
  eexists. split; [reflexivity|].
  eapply squashedThread_intro; try done; fields; rewrite ?fn_lookup_insert; try done.
  - unfold coveredBy. fields. apply Hr.
  - split_and!; fields; rewrite ?fn_lookup_insert; done.
  - other_thread.
  - by rewrite eventsOf_quiet.
Qed.

Lemma squashFromSquashAfter_ok (s : S) tid :
  CommitInv s -> commitStatus s tid = SquashAfterPending ->
  exists s', squashFromSquashAfter inp tid s = Ok (tt, s') /\ squashedThread s s' tid.
Proof.
  intros HI Hs. destruct (squashAll_ok inp tid s HI) as (c' & sn & Hst & Hr & E).
  destruct (status_flags s tid HI) as (F1 & F2 & F3); [by rewrite Hs|].
  destruct (ci_threads _ HI tid) as [T1 T2 T3 T4 T5 T6 T7 T8 T9].
  assert (Htc : tcSquash s tid = false).
  { destruct (tcSquash s tid); [|done]. by destruct (T4 eq_refl) as [_ []]. }
  unfold squashFromSquashAfter, setCommitStatus, call, tell.
  rewrite (bind_run _ _ _ _ _ E). fwd. fields. eexists. split; [reflexivity|].
  eapply squashedThread_intro; try done; fields; rewrite ?fn_lookup_insert; try done.
  - unfold coveredBy. fields. apply Hr.
  - split_and!; fields; rewrite ?fn_lookup_insert; done.
  - congruence.
  - other_thread.
  - by rewrite eventsOf_quiet.
Qed.

Lemma findIn_ok l sn m :
  (forall p, p ∈ l -> is_Some (heap m !! p)) -> exists o, findIn l sn m = Ok o.
Proof.
  induction l as [|p l IH]; intros Hl; cbn [findIn]; [eauto|].
  destruct (Hl p) as [i Hi]; [left|]. rewrite (getInst_ok _ _ _ Hi). cbn.
  case_match; [eauto|]. apply IH. intros q Hq. apply Hl. by right.
Qed.

(** The sequence number IEW asks to squash to. *)
Definition iewTarget (tid : ThreadID) : Z :=
  let iew := fromIEW inp tid in
  if iewIncludeSquashInst iew then u64 (iewSquashedSeqNum iew - 1) else iewSquashedSeqNum iew.

Lemma marks_some l m m' p :
  squashMarks l m m' -> is_Some (heap m !! p) -> is_Some (heap m' !! p).
Proof. intros H Hp. destruct (H p) as [->|(_ & i & i' & _ & -> & _)]; eauto. Qed.

Lemma squashFromIEW_ok (s : S) tid :
  CommitInv s -> commitStatus s tid <> TrapPending -> settled s tid ->
  (forall p, iewMispredictInst (fromIEW inp tid) = Some p -> is_Some (heapOf s !! p)) ->
  exists s', squashFromIEW ac inp tid s = Ok (tt, s') /\ squashedThread s s' tid /\
    youngestSeqNum s' tid = iewTarget tid.
Proof.
  intros HI Hs (S1 & S2 & S3) Hmp. destruct (status_flags s tid HI Hs) as (F1 & F2 & F3).
  pose proof (th_noSquash _ _ (ci_threads _ HI tid)) as Hns. rewrite S2 in Hns.
  destruct (squash_step (isThreadExiting inp tid) (iewTarget tid) tid (core s))
    as (c' & E & Hst & Hr); [apply HI|by apply squashBudget_pos|].
  unfold squashFromIEW, setCommitStatus, onCore, setChanged, tell.
  change (if iewIncludeSquashInst _ then _ else _) with (iewTarget tid).
  fwd. fields. rewrite E. fwd. fields.
  destruct (findIn_ok (instList (rob c') tid) (iewTarget tid) (mem c')) as [o Ho].
  { intros p Hp. destruct (rb_insts _ (ss_wf _ _ _ Hst) tid p Hp) as (i & Hi & _). eauto. }
  unfold findInst. rewrite Ho. fwd. fields.
  assert (Hfin : forall s', core s' = c' ->
    commitStatus s' = <[tid := CommitROBSquashing]> (commitStatus s) ->
    trapInFlight s' = trapInFlight s -> trapPending s' = trapPending s ->
    trapSquash s' = trapSquash s -> tcSquash s' = tcSquash s ->
    squashAfterInst s' = squashAfterInst s -> noSquashFromTC s' = noSquashFromTC s ->
    youngestSeqNum s' = <[tid := iewTarget tid]> (youngestSeqNum s) ->
    commitMaps s' = commitMaps s -> priority_list s' = priority_list s ->
    htmStarts s' = htmStarts s -> htmStops s' = htmStops s -> interrupt s' = interrupt s ->
    calls s' = calls s -> lastCommitedSeqNum s' = lastCommitedSeqNum s -> squashedThread s s' tid /\ youngestSeqNum s' tid = iewTarget tid).
  { intros s' E1 E2 E3 E4 E5 E6 E7 E8 E9 E10 E11 E12 E13 E14 E15 E16.
    assert (Ey : youngestSeqNum s' tid = iewTarget tid) by (by rewrite E9, fn_lookup_insert).
    split; [|done]. eapply squashedThread_intro; try done; try congruence.
    - unfold coveredBy. by rewrite Ey, E1.
    - split_and!; congruence.
    - intros t Ht. split; try congruence; [rewrite E2|rewrite E9| |].
      1,2: by rewrite fn_lookup_insert_ne.
      all: rewrite E1; by apply (ss_frame _ _ _ Hst). }
  destruct (iewMispredictInst (fromIEW inp tid)) as [p|].
  - destruct (marks_some _ _ _ p (ss_marks _ _ _ Hst) (Hmp p eq_refl)) as [i Hi].
    unfold instOf. fwd. fields. rewrite (getInst_ok _ _ _ Hi). fwd.
    destruct (isUncondCtrl i); cbn [when]; fwd; eexists; (split; [reflexivity|]);
      apply Hfin; fields; done.
  - fwd. eexists. split; [reflexivity|]. apply Hfin; fields; done.
Qed.

(** *** All squashes of a thread *)

(** Sequence numbers start at one; the instruction a misprediction names is
    alive. *)
Definition iewOK (s : S) : Prop :=
  forall tid, iewSquash (fromIEW inp tid) = true ->
    0 < iewSquashedSeqNum (fromIEW inp tid) < 2 ^ 64 /\
    forall p, iewMispredictInst (fromIEW inp tid) = Some p -> is_Some (heapOf s !! p).

Lemma marksOnly_some (s s' : S) p : marksOnly s s' -> is_Some (heapOf s !! p) -> is_Some (heapOf s' !! p).
Proof. intros H Hp. destruct (mo_heap _ _ H p) as [->|(_ & i & i' & _ & _ & -> & _)]; eauto. Qed.

Lemma iewOK_marks (s s' : S) : marksOnly s s' -> iewOK s -> iewOK s'.
Proof.
  intros H Ho tid Ht. destruct (Ho tid Ht) as [? Hp]. split; [done|]. intros p Ep.
  eapply marksOnly_some; eauto.
Qed.

Lemma iewTarget_le (s : S) tid :
  iewOK s -> iewSquash (fromIEW inp tid) = true -> iewTarget tid <= iewSquashedSeqNum (fromIEW inp tid).
Proof.
  intros Ho Ht. destruct (Ho tid Ht) as [Hn _]. unfold iewTarget. case_match; [|lia].
  rewrite u64_small by (unfold in_u64; lia). lia.
Qed.

(** The squashes a thread asks for itself, in their order. *)
Lemma ownSquash_ok (s : S) tid :
  CommitInv s ->
  exists s', (if trapSquash s tid then
         _ ← assertM (negb (tcSquash s tid));
         _ ← squashFromTrap inp tid;
         when (isThreadExiting inp tid) (call (ScheduleThreadExit tid))
       else if tcSquash s tid then
         _ ← assertM (bool_decide (commitStatus s tid <> TrapPending));
         squashFromTC inp tid
       else if decide (commitStatus s tid = SquashAfterPending) then
         squashFromSquashAfter inp tid
       else mret tt) s = Ok (tt, s') /\
    CommitInv s' /\ marksOnly s s' /\ (forall t, t <> tid -> sameThread s s' t) /\
    settled s' tid /\
    (trapSquash s tid = true -> youngestSeqNum s' tid = lastCommitedSeqNum s tid /\
       forall n, squashReaches (core s') tid n) /\
    (commitStatus s' tid = commitStatus s tid \/ commitStatus s' tid = CommitROBSquashing).
Proof.
  intros HI. pose proof (ci_threads _ HI tid) as [T1 T2 T3 T4 T5 T6 T7 T8 T9].
  destruct (trapSquash s tid) eqn:Ets.
  { assert (tcSquash s tid = false) as ->.
    { destruct (tcSquash s tid); [|done]. destruct T4 as [? _]; [done|]. rewrite T3 in *; done. }
    destruct (squashFromTrap_ok tid s HI Ets) as (s' & E & Hq & Hy & Hr). destruct Hq as [Q1 Q2 Q3 Q4 Q5].
    cbn [negb]. fwd. rewrite (bind_run _ _ _ _ _ E).
    destruct (isThreadExiting inp tid); cbn [when]; unfold call; fwd.
    - eexists. split; [reflexivity|]. split_and!; try done; fields; try (by right).
      + destruct Q1 as [P1 P2 P3 P4 P5 P6 P7].
        split; fields; try done. intros t. destruct (P5 t). split; fields; done.
      + destruct Q2 as [P1 P2 P3 P4 P5 P6 P7 P8 P9 P10 P11 P12 P13]. split; fields; try done.
        by rewrite eventsOf_quiet.
      + intros t Ht. destruct (Q3 t Ht). split; fields; done.
    - exists s'. split_and!; try done. by right. }
  destruct (tcSquash s tid) eqn:Etc.
  { assert (Hs : commitStatus s tid <> TrapPending).
    { rewrite T1. destruct (T4 eq_refl) as [-> _]. done. }
    destruct (squashFromTC_ok s tid HI Etc Hs) as (s' & E & [Q1 Q2 Q3 Q4 Q5]).
    rewrite bool_decide_eq_true_2 by done. fwd. exists s'. split_and!; try done. by right. }
  destruct (decide (commitStatus s tid = SquashAfterPending)) as [Hs|Hs].
  { destruct (squashFromSquashAfter_ok s tid HI Hs) as (s' & E & [Q1 Q2 Q3 Q4 Q5]).
    exists s'. split_and!; try done. by right. }
  fwd. exists s. split_and!; try done.
  - apply marksOnly_refl.
  - split_and!; try done. destruct (squashAfterInst s tid) as [p|] eqn:Ea; [|done].
    destruct Hs. apply T6. by exists p.
  - by left.
Qed.

(** A squash IEW asks for is ignored when a trap is pending, or when it is
    younger than everything the thread still has. *)
Definition squashIgnored (s : S) (tid : ThreadID) : Prop :=
  iewSquash (fromIEW inp tid) = true ->
  commitStatus s tid = TrapPending \/ youngestSeqNum s tid < iewSquashedSeqNum (fromIEW inp tid).

Lemma squashThread_ok (s : S) tid :
  CommitInv s -> iewOK s ->
  exists s' b, squashThread ac inp tid s = Ok (b, s') /\
    CommitInv s' /\ marksOnly s s' /\ (forall t, t <> tid -> sameThread s s' t) /\
    settled s' tid /\ b = bool_decide (commitStatus s' tid = CommitROBSquashing) /\
    (squashIgnored s' tid \/ squashReaches (core s') tid (iewTarget tid)) /\
    (trapSquash s tid = true -> forall n, squashReaches (core s') tid n) /\
    (commitStatus s' tid = commitStatus s tid \/ commitStatus s' tid = CommitROBSquashing).
Proof.
  intros HI Ho. destruct (ownSquash_ok s tid HI) as (s1 & E & HI1 & Hm & Hsame & Hset & Htr & Hst).
  unfold squashThread. fwd. rewrite (bind_run _ _ _ _ _ E). fwd.
  destruct (iewSquash (fromIEW inp tid) && _ && _) eqn:Eg; cbn [when].
  - apply andb_prop in Eg as [[Hi Hs]%andb_prop Hle]. apply bool_decide_eq_true in Hs.
    apply Z.leb_le in Hle. pose proof (iewOK_marks _ _ Hm Ho) as Ho1.
    destruct (squashFromIEW_ok s1 tid HI1 Hs Hset) as (s2 & E2 & [Q1 Q2 Q3 Q4 Q5] & Ey).
    { apply (Ho1 tid Hi). }
    rewrite (bind_run _ _ _ _ _ E2). fwd. exists s2. eexists. split_and!; try done.
    + eapply marksOnly_trans; eauto.
    + intros t Ht. destruct (Hsame t Ht), (Q3 t Ht). split; congruence.
    + right. rewrite <- Ey. apply (th_young _ _ (ci_threads _ Q1 tid)).
    + intros Ht n p Hp _. apply (th_young _ _ (ci_threads _ Q1 tid)); [done|]. rewrite Ey.
      pose proof (iewTarget_le s1 tid Ho1 Hi). destruct (Htr Ht) as [Hy _].
      pose proof (th_last _ _ (ci_threads _ Q1 tid) p Hp) as Hl.
      rewrite (mo_last _ _ Q2), (mo_last _ _ Hm) in Hl. lia.
    + by right.
  - fwd. exists s1. eexists. split_and!; try done; [|naive_solver]. left. intros Hi. rewrite Hi in Eg. cbn in Eg.
    apply andb_false_iff in Eg as [Eg|Eg].
    + left. apply bool_decide_eq_false in Eg. by apply dec_stable.
    + right. lia.
Qed.

Lemma settled_same (s s' : S) t : sameThread s s' t -> settled s t -> settled s' t.
Proof. intros [] (?&?&?). split_and!; congruence. Qed.

(** What the squashes leave of a thread. *)
Definition afterSquash (s s' : S) (tid : ThreadID) : Prop :=
  settled s' tid /\
  (squashIgnored s' tid \/ squashReaches (core s') tid (iewTarget tid)) /\
  (trapSquash s tid = true -> forall n, squashReaches (core s') tid n) /\
  (commitStatus s' tid = commitStatus s tid \/ commitStatus s' tid = CommitROBSquashing).

Lemma afterSquash_later (s s' s'' : S) tid :
  afterSquash s s' tid -> marksOnly s' s'' -> sameThread s' s'' tid -> afterSquash s s'' tid.
Proof.
  intros (H1 & H2 & H3 & H4) Hm Hs. split_and!.
  - by eapply settled_same.
  - destruct H2 as [H2|H2]; [left|right; by eapply reaches_same].
    unfold squashIgnored in *. by rewrite (sm_status _ _ _ Hs), (sm_young _ _ _ Hs).
  - intros Ht n. eapply reaches_same; eauto.
  - by rewrite (sm_status _ _ _ Hs).
Qed.

Lemma afterSquash_earlier (s s' s'' : S) tid :
  sameThread s s' tid -> afterSquash s' s'' tid -> afterSquash s s'' tid.
Proof.
  intros Hs (H1 & H2 & H3 & H4). split_and!; try done.
  - by rewrite <- (sm_trapSquash _ _ _ Hs).
  - by rewrite <- (sm_status _ _ _ Hs).
Qed.

Lemma squashThreads_ok threads n (s : S) :
  CommitInv s -> iewOK s -> NoDup threads ->
  exists s' k, squashThreads ac inp threads n s = Ok (k, s') /\
    CommitInv s' /\ marksOnly s s' /\ (forall t, t ∉ threads -> sameThread s s' t) /\
    (forall t, t ∈ threads -> afterSquash s s' t) /\
    k = (n + length (filter (fun t => commitStatus s' t = CommitROBSquashing) threads))%nat.
Proof.
  revert n s. induction threads as [|tid threads IH]; intros n s HI Ho Hnd; cbn [squashThreads].
  - fwd. exists s, n. split_and!; try done; [apply marksOnly_refl|by intros t ?%elem_of_nil].
  - apply NoDup_cons in Hnd as [Hn Hnd].
    destruct (squashThread_ok s tid HI Ho) as (s1 & b & E & HI1 & Hm1 & Hs1 & A1 & -> & A2 & A3 & A4).
    rewrite (bind_run _ _ _ _ _ E).
    match goal with |- context [squashThreads _ _ threads ?k s1] =>
      destruct (IH k s1 HI1 (iewOK_marks _ _ Hm1 Ho) Hnd) as (s' & k' & -> & HI' & Hm & Hs & Ha & ->) end.
    exists s'. eexists. split; [reflexivity|]. split_and!; try done.
    + eapply marksOnly_trans; eauto.
    + intros t [Ht Ht']%not_elem_of_cons. eapply sameThread_trans; [by apply Hs1|by apply Hs].
    + intros t [->|Ht]%elem_of_cons.
      * eapply afterSquash_later; [|exact Hm|by apply Hs]. done.
      * eapply afterSquash_earlier; [|by apply Ha]. apply Hs1. by intros ->.
    + rewrite filter_cons, (sm_status _ _ _ (Hs tid Hn)).
      case_bool_decide; case_decide; try done; cbn [length]; lia.
Qed.

(** *** Continuing a squash *)

Lemma continueSquash_ok (s : S) tid :
  CommitInv s ->
  exists s', continueSquash inp tid s = Ok (tt, s') /\
    CommitInv s' /\ marksOnly s s' /\ (forall t, t <> tid -> sameThread s s' t) /\
    trapSquash s' = trapSquash s /\
    (commitStatus s' tid = commitStatus s tid \/
     commitStatus s tid = CommitROBSquashing /\ commitStatus s' tid = CommitRunning).
Proof.
  intros HI. pose proof (ci_rob _ HI) as Hwf.
  unfold continueSquash, setCommitStatus, onCore, tell, wrote. fwd. fields.
  destruct (bool_decide (_ = CommitROBSquashing)) eqn:Es; cbn [when].
  2: { fwd. eexists. split; [reflexivity|]. split_and!; fields; try done.
       - eapply inv_ext; [exact HI|..]; fields; done.
       - split; fields; try done. by left.
       - by left. }
  apply bool_decide_eq_true in Es.
  destruct (ci_threads _ HI tid) as [T1 T2 T3 T4 T5 T6 T7 T8 T9].
  destruct (status_flags s tid HI) as (F1 & F2 & F3); [by rewrite Es|].
  pose proof (rb_squash _ Hwf tid) as Hsq. destruct (doneSquashing (rob (core s)) tid) eqn:Ed.
  - assert (Hit : squashIt (rob (core s)) tid = None).
    { destruct (squashIt (rob (core s)) tid); [|done]. by destruct Hsq. }
    eexists. split; [reflexivity|]. split_and!; fields; try done.
    + eapply (inv_squashStep s _ tid); fields; try done.
      * by apply squashStep_refl.
      * split; fields; rewrite ?fn_lookup_insert, ?F1, ?F3, ?Hit; try done.
        intros Ha. rewrite T6 in Es; done.
      * intros t Ht. split; fields; rewrite ?fn_lookup_insert_ne by done; done.
      * destruct (decide (0%nat = tid)) as [<-|Ht]; [by rewrite fn_lookup_insert|].
        by rewrite fn_lookup_insert_ne by done.
    + split; fields; try done. by left.
    + intros t Ht. split; fields; rewrite ?fn_lookup_insert_ne by done; done.
    + right. by rewrite fn_lookup_insert.
  - destruct (squashIt (rob (core s)) tid) as [it|] eqn:Hit; [|done].
    destruct (doSquash_step (isThreadExiting inp tid) tid (core s) it) as (c' & E & Hst & Hsn & Hr);
      [done|done|by apply squashBudget_pos|].
    fwd. fields. rewrite E. fwd. fields. eexists. split; [reflexivity|].
    split_and!; fields; try done.
    + eapply (inv_squashStep s _ tid); fields; try done.
      * split; fields; rewrite ?F1, ?F3, ?Es; try done.
        -- intros Ha. rewrite T6 in Es; done.
        -- unfold coveredBy. fields. intros p Hp Hlt.
           assert (Hp0 : p ∈ listOf s tid) by (by rewrite <- (rf_lists _ _ _ (ss_frame _ _ _ Hst))).
           rewrite (marks_seqAt _ _ _ _ (ss_marks _ _ _ Hst)) in Hlt.
           destruct (T8 p Hp0 Hlt) as [(i & Hi & Hs)|[_ Hp2]].
           ++ left. destruct (ss_marks _ _ _ Hst p) as [->|(_ & j & j' & _ & -> & ? & _)]; eauto.
           ++ apply Hr; [done|]. by rewrite (marks_seqAt _ _ _ _ (ss_marks _ _ _ Hst)).
        -- eapply last_frame; eauto.
      * other_thread.
    + eapply marksOnly_step; fields; done.
    + other_thread.
    + by left.
Qed.

Lemma continueSquashes_ok threads (s : S) :
  CommitInv s -> NoDup threads ->
  exists s', forM threads (continueSquash inp) s = Ok (tt, s') /\
    CommitInv s' /\ marksOnly s s' /\ (forall t, t ∉ threads -> sameThread s s' t) /\
    trapSquash s' = trapSquash s /\
    (forall t, commitStatus s' t = commitStatus s t \/
      commitStatus s t = CommitROBSquashing /\ commitStatus s' t = CommitRunning).
Proof.
  revert s. induction threads as [|tid threads IH]; intros s HI Hnd; cbn [forM].
  - fwd. exists s. split_and!; try done; [apply marksOnly_refl|by left].
  - apply NoDup_cons in Hnd as [Hn Hnd].
    destruct (continueSquash_ok s tid HI) as (s1 & E & HI1 & Hm1 & Hs1 & A1 & A2).
    rewrite (bind_run _ _ _ _ _ E).
    destruct (IH s1 HI1 Hnd) as (s' & -> & HI' & Hm & Hs & B1 & B2).
    exists s'. split_and!; try done.
    + eapply marksOnly_trans; eauto.
    + intros t [Ht Ht']%not_elem_of_cons. eapply sameThread_trans; [by apply Hs1|by apply Hs].
    + congruence.
    + intros t. destruct (decide (t = tid)) as [->|Ht].
      * by rewrite (sm_status _ _ _ (Hs tid Hn)).
      * rewrite <- (sm_status _ _ _ (Hs1 t Ht)). apply B2.
Qed.
End Squash.
