(* ===== verification/CommitInsts.v ===== *)
(** * Inserting and retiring, as the commit stage does it

    Instructions coming from rename enter the reorder buffer ([getInsts]), the
    head of a thread leaves it: both keep the invariant of the stage. *)

From stdpp Require Import base numbers list gmap functions sorting.
From S2P Require Import Prelude Adaptive Regs Monad RenameMap RenameHistory DynInst Stage ROB ROBProps Commit CommitInv CommitSquash.

#[local] Open Scope Z_scope.

(** ** What the operations of the buffer change *)

Record listFrame (r r' : ROB) : Prop := {
  lf_it : squashIt r' = squashIt r;
  lf_sn : squashedSeqNum r' = squashedSeqNum r;
  lf_max : maxEntries r' = maxEntries r;
  lf_size : numEntries r' = numEntries r;
  lf_width : squashWidth r' = squashWidth r
}.

Lemma insertInst_frame p i c c' :
  heap (mem c) !! p = Some i -> insertInst p c = Ok c' ->
  listFrame (rob c) (rob c') /\ cpu c' = cpu c /\
  heap (mem c') = <[p := setStatus RobEntry true i]> (heap (mem c)) /\
  numInstsInROB (rob c') = numInstsInROB (rob c) + 1.
Proof.
  intros Hi H. unfold insertInst in H. inv_ok. unfold updInst in *.
  rewrite (getInst_ok _ _ _ Hi) in *. cbn [mbind res_bind] in *. inv_ok. done.
Qed.

Definition retiredInst (i : DynInst) : DynInst :=
  setStatus Committed true (setStatus RobEntry false i).

Lemma retireHead_frame tid p l i c c' :
  instList (rob c) tid = p :: l -> heap (mem c) !! p = Some i -> retireHead tid c = Ok c' ->
  listFrame (rob c) (rob c') /\
  heap (mem c') = <[p := retiredInst i]> (heap (mem c)) /\
  numInstsInROB (rob c') = numInstsInROB (rob c) - 1.
Proof.
  intros Hl Hi H. unfold retireHead in H. rewrite Hl in H.
  cbn [list.head hd_error deref mbind res_bind] in H. rewrite (getInst_ok _ _ _ Hi) in H. inv_ok.
  unfold updInst in *. rewrite (getInst_ok _ _ _ Hi) in *. cbn [mbind res_bind] in *. inv_ok.
  unfold updateHead in *. inv_ok. done.
Qed.

(** The thread behind a pointer. *)
Definition threadAt (m : InstMem) (p : InstPtr) : option ThreadID := threadNumber <$> heap m !! p.

(** Squashes reach as far in a part of the list. *)
Lemma reaches_sub c c' t n :
  (forall p, p ∈ instList (rob c') t -> p ∈ instList (rob c) t /\ heap (mem c') !! p = heap (mem c) !! p) ->
  squashIt (rob c') t = squashIt (rob c) t ->
  squashedSeqNum (rob c') t = squashedSeqNum (rob c) t ->
  squashReaches c t n -> squashReaches c' t n.
Proof.
  intros Hp E1 E2 H p Hin. destruct (Hp p Hin) as [Hin' Eh]. unfold seqAt. rewrite E1, E2, Eh.
  by apply H.
Qed.

Section Insts.
Context {PC Intr : Type}.
Abbreviation S := (CommitS PC Intr).
Abbreviation listOf s tid := (instList (rob (core s)) tid).
Abbreviation heapOf s := (heap (mem (core s))).

Lemma list_threads (s : S) t t' p :
  rob_wf (core s) -> p ∈ listOf s t -> p ∈ listOf s t' -> t = t'.
Proof.
  intros Hwf H1 H2. destruct (rb_insts _ Hwf _ _ H1) as (i & Hi & <- & _).
  destruct (rb_insts _ Hwf _ _ H2) as (j & Hj & <- & _). congruence.
Qed.

(** ** Retiring the head *)

(** The head of [tid] has left; the flags of the thread may have changed. *)
Record retired (s s' : S) (tid : ThreadID) (p : InstPtr) (l : list InstPtr) (i : DynInst) : Prop := {
  rt_wf : rob_wf (core s');
  rt_list : instList (rob (core s')) = <[tid := l]> (instList (rob (core s)));
  rt_frame : listFrame (rob (core s)) (rob (core s'));
  rt_heap : heapOf s' = <[p := retiredInst i]> (heapOf s);
  rt_num : numInstsInROB (rob (core s')) = numInstsInROB (rob (core s)) - 1;
  rt_cpu : cpuInstList (cpu (core s')) = cpuInstList (cpu (core s))
}.

Lemma retireHead_run (s : S) tid p l i :
  CommitInv s -> listOf s tid = p :: l -> heapOf s !! p = Some i -> readyToCommit i = true ->
  squashIt (rob (core s)) tid = None ->
  exists c', retireHead tid (core s) = Ok c' /\
    forall s', core s' = c' -> retired s s' tid p l i.
Proof.
  intros HI Hl Hi Hr Hit. pose proof (ci_rob _ HI) as Hwf.
  destruct (retireHead_ok tid (core s) Hwf) as (c' & p' & l' & Hl' & E & Hwf' & El & Ec & _).
  { exists p, i, l. rewrite Hit. done. }
  rewrite Hl in Hl'. injection Hl' as <- <-.
  destruct (retireHead_frame tid p l i (core s) c' Hl Hi E) as (F1 & F2 & F3).
  exists c'. split; [done|]. intros s' Es. split; rewrite ?Es; try done. by rewrite Ec.
Qed.

Section Retired.
Context (s s' : S) (tid : ThreadID) (p : InstPtr) (l : list InstPtr) (i i' : DynInst).
Context (HI : CommitInv s) (Hl : listOf s tid = p :: l) (Hi : heapOf s !! p = Some i).
Context (Hsn : seqNum i' = seqNum i) (Hr : retired s s' tid p l i').

Lemma retired_sub t q :
  q ∈ listOf s' t -> q ∈ listOf s t /\ heapOf s' !! q = heapOf s !! q.
Proof.
  rewrite (rt_list _ _ _ _ _ _ Hr), (rt_heap _ _ _ _ _ _ Hr). pose proof (ci_rob _ HI) as Hwf.
  assert (Hnd : NoDup (p :: l)) by (rewrite <- Hl; eapply ordered_NoDup, (rb_order _ Hwf)).
  apply NoDup_cons in Hnd as [Hn _]. assert (Hp : p ∈ listOf s tid) by (rewrite Hl; left).
  destruct (decide (t = tid)) as [->|Ht].
  - rewrite fn_lookup_insert. intros Hq. split; [rewrite Hl; by right|].
    rewrite lookup_insert_ne; [done|]. by intros ->.
  - rewrite fn_lookup_insert_ne by done. intros Hq. split; [done|].
    rewrite lookup_insert_ne; [done|]. intros ->. destruct Ht. by eapply list_threads.
Qed.

Lemma retired_seqAt q : seqAt (mem (core s')) q = seqAt (mem (core s)) q.
Proof.
  unfold seqAt. rewrite (rt_heap _ _ _ _ _ _ Hr). destruct (decide (q = p)) as [->|Hq].
  - rewrite lookup_insert_eq, Hi. cbn. done.
  - by rewrite lookup_insert_ne.
Qed.

Lemma retired_thread t :
  sameThread s s' t -> threadOK s' t.
Proof.
  intros [E1 E2 E3 E4 E5 E6 E7 E8 E9 E10 E11]. destruct (ci_threads _ HI t) as [T1 T2 T3 T4 T5 T6 T7 T8 T9].
  split; rewrite ?E1, ?E2, ?E3, ?E4, ?E5, ?E6, ?E7, ?E9, ?E10; try done.
  - unfold coveredBy. rewrite E8. eapply reaches_sub; [|done|done|done]. apply retired_sub.
  - intros q Hq. rewrite retired_seqAt. apply T9. by apply retired_sub.
Qed.

Lemma retired_inv :
  (forall t, t <> tid -> sameThread s s' t) -> threadOK s' tid ->
  interrupt s' = interrupt s -> htmStarts s' = htmStarts s -> htmStops s' = htmStops s ->
  commitStatus s' tid <> TrapPending -> CommitInv s'.
Proof.
  intros Hsame Hok Ei E1 E2 Hst. destruct Hr as [R1 R2 R3 R4 R5 R6]. pose proof HI as [H1 H2 H3 H4 H5 H6 H7].
  split; rewrite ?(lf_width _ _ R3), ?(lf_size _ _ R3), ?Ei, ?E1, ?E2; try done.
  - intros t q Hq. rewrite retired_seqAt. eapply H3. by apply retired_sub.
  - intros t q Hq. rewrite R6. eapply H4. by apply retired_sub.
  - intros t. destruct (decide (t = tid)) as [->|Ht]; [done|]. apply retired_thread. auto.
  - intros Hi0 Hs0. destruct (decide (0%nat = tid)) as [<-|Ht]; [done|].
    rewrite R2, fn_lookup_insert_ne by done. rewrite (sm_status _ _ _ (Hsame 0%nat Ht)) in Hs0. auto.
Qed.
End Retired.

(** ** Inserting *)

Context (cfg : CommitConfig) (inp : CommitIn PC).

(** The instructions rename hands over are live, in program order, younger than
    what the thread has, and fit. *)
Record incomingOK (s : S) (L : list InstPtr) : Prop := {
  in_insts : forall p, p ∈ L -> exists i, heapOf s !! p = Some i /\ squashable i /\
    (threadNumber i < MaxThreads)%nat /\ 0 < seqNum i < 2 ^ 64 /\
    lastCommitedSeqNum s (threadNumber i) < seqNum i /\
    p ∈ cpuInstList (cpu (core s)) /\
    forall q, q ∈ listOf s (threadNumber i) -> seqAt (mem (core s)) q < seqNum i;
  in_order : StronglySorted (fun p q => threadAt (mem (core s)) p = threadAt (mem (core s)) q ->
    seqAt (mem (core s)) p < seqAt (mem (core s)) q) L;
  in_room : forall t, Z.of_nat (length (listOf s t)) +
    Z.of_nat (length (filter (fun p => threadAt (mem (core s)) p = Some t) L))
      <= maxEntries (rob (core s)) t;
  in_size : numInstsInROB (rob (core s)) + Z.of_nat (length L) <= numEntries (rob (core s))
}.

(** An instruction that is taken into the buffer. *)
Definition accepted (s : S) (p : InstPtr) : bool :=
  match heapOf s !! p with
  | Some i => negb (isSquashed i) &&
      bool_decide (commitStatus s (threadNumber i) <> CommitROBSquashing) &&
      bool_decide (commitStatus s (threadNumber i) <> TrapPending)
  | None => false
  end.

(** The effect of taking the instructions of [L]. *)
Record inserted (s s' : S) (L : list InstPtr) : Prop := {
  is_inv : CommitInv s';
  is_list : forall t, listOf s' t =
    listOf s t ++ filter (fun p => threadAt (mem (core s)) p = Some t /\ accepted s p = true) L;
  is_heap : forall p, heapOf s' !! p = heapOf s !! p \/
    (p ∈ L /\ exists i, heapOf s !! p = Some i /\ heapOf s' !! p = Some (setStatus RobEntry true i));
  is_status : commitStatus s' = commitStatus s;
  is_flags : trapSquash s' = trapSquash s /\ tcSquash s' = tcSquash s /\
    squashAfterInst s' = squashAfterInst s;
  is_maps : commitMaps s' = commitMaps s;
  is_prio : priority_list s' = priority_list s;
  is_cpu : cpu (core s') = cpu (core s);
  is_calls : calls s' = calls s;
  is_last : lastCommitedSeqNum s' = lastCommitedSeqNum s;
  is_intr : interrupt s' = interrupt s;
  is_it : squashIt (rob (core s')) = squashIt (rob (core s));
  is_sn : squashedSeqNum (rob (core s')) = squashedSeqNum (rob (core s))
}.

Lemma filter_single {A} (P : A -> Prop) `{forall x, Decision (P x)} x :
  filter P [x] = if decide (P x) then [x] else [].
Proof. by rewrite filter_cons. Qed.

Section InsertOne.
Context (s : S) (p : InstPtr) (L : list InstPtr) (i : DynInst).
Context (HI : CommitInv s) (Hin : incomingOK s (p :: L)) (Hi : heapOf s !! p = Some i).
Abbreviation tid := (threadNumber i).

Lemma incoming_head :
  squashable i /\ (tid < MaxThreads)%nat /\ 0 < seqNum i < 2 ^ 64 /\
  lastCommitedSeqNum s tid < seqNum i /\ p ∈ cpuInstList (cpu (core s)) /\
  forall q, q ∈ listOf s tid -> seqAt (mem (core s)) q < seqNum i.
Proof.
  destruct (in_insts _ _ Hin p) as (j & Hj & H); [left|]. assert (j = i) as -> by congruence. done.
Qed.

Lemma incoming_seq : seqAt (mem (core s)) p = seqNum i.
Proof. unfold seqAt. by rewrite Hi. Qed.

Lemma incoming_fresh t : p ∉ listOf s t.
Proof.
  intros Hp. destruct (rb_insts _ (ci_rob _ HI) _ _ Hp) as (j & Hj & Ht & _).
  assert (j = i) as -> by congruence. rewrite <- Ht in Hp. apply incoming_head in Hp.
  rewrite incoming_seq in Hp. lia.
Qed.

Context (s' : S) (c' : Core).
Context (Ec : core s' = c') (E : insertInst p (core s) = Ok c') (Hwf' : rob_wf c').
Context (El : instList (rob c') = <[tid := listOf s tid ++ [p]]> (instList (rob (core s)))).

Lemma inserted_seqAt q : seqAt (mem (core s')) q = seqAt (mem (core s)) q.
Proof.
  unfold seqAt. rewrite Ec. destruct (insertInst_frame p i _ _ Hi E) as (_ & _ & -> & _).
  destruct (decide (q = p)) as [->|Hq]; [by rewrite lookup_insert_eq, Hi|by rewrite lookup_insert_ne].
Qed.

Lemma inserted_threadAt q : threadAt (mem (core s')) q = threadAt (mem (core s)) q.
Proof.
  unfold threadAt. rewrite Ec. destruct (insertInst_frame p i _ _ Hi E) as (_ & _ & -> & _).
  destruct (decide (q = p)) as [->|Hq]; [by rewrite lookup_insert_eq, Hi|by rewrite lookup_insert_ne].
Qed.

Lemma inserted_elem t q : q ∈ listOf s' t -> q ∈ listOf s t \/ (q = p /\ t = tid).
Proof.
  rewrite Ec, El. destruct (decide (t = tid)) as [->|Ht].
  - rewrite fn_lookup_insert, elem_of_app, list_elem_of_singleton. naive_solver.
  - rewrite fn_lookup_insert_ne by done. auto.
Qed.

Lemma inserted_inv :
  (forall t, t <> tid -> sameThread s s' t) ->
  commitStatus s' tid = commitStatus s tid -> trapInFlight s' tid = trapInFlight s tid ->
  trapPending s' tid = trapPending s tid -> trapSquash s' tid = trapSquash s tid ->
  tcSquash s' tid = tcSquash s tid -> noSquashFromTC s' tid = noSquashFromTC s tid ->
  squashAfterInst s' tid = squashAfterInst s tid -> youngestSeqNum s' tid = seqNum i ->
  lastCommitedSeqNum s' = lastCommitedSeqNum s -> interrupt s' = interrupt s ->
  htmStarts s' = htmStarts s -> htmStops s' = htmStops s -> CommitInv s'.
Proof.
  intros Hsame E1 E2 E3 E4 E5 E6 E7 E8 E9 E10 E11 E12.
  destruct (insertInst_frame p i _ _ Hi E) as (F & Fc & Fh & Fn). rewrite <- Ec in F, Fc, Fh.
  assert (Hwf2 : rob_wf (core s')) by (by rewrite Ec).
  destruct incoming_head as (I1 & I2 & I3 & I4 & I5 & I6). pose proof HI as [H1 H2 H3 H4 H5 H6 H7].
  assert (Hst : commitStatus s' 0%nat = commitStatus s 0%nat).
  { destruct (decide (0%nat = tid)) as [->|Ht]; [done|]. apply (Hsame _ Ht). }
  split; rewrite ?(lf_width _ _ F), ?(lf_size _ _ F), ?E10, ?E11, ?E12, ?Fc, ?Hst; try done.
  - intros t q Hq. rewrite inserted_seqAt. destruct (inserted_elem t q Hq) as [?|[-> ->]]; [eauto|].
    by rewrite incoming_seq.
  - intros t q Hq. destruct (inserted_elem t q Hq) as [?|[-> ->]]; eauto.
  - intros t. destruct (H5 t) as [T1 T2 T3 T4 T5 T6 T7 T8 T9].
    destruct (decide (t = tid)) as [->|Ht].
    + split; rewrite ?E1, ?E2, ?E3, ?E4, ?E5, ?E6, ?E7, ?E9, ?(lf_it _ _ F); try done.
      * intros q Hq. rewrite inserted_seqAt, E8.
        destruct (inserted_elem _ q Hq) as [Hq'|[-> _]]; [specialize (I6 q Hq'); lia|].
        rewrite incoming_seq. lia.
      * intros q Hq. rewrite inserted_seqAt.
        destruct (inserted_elem _ q Hq) as [Hq'|[-> _]]; [auto|]. by rewrite incoming_seq.
    + destruct (Hsame t Ht) as [D1 D2 D3 D4 D5 D6 D7 D8 D9 D10 D11].
      assert (Hlt : listOf s' t = listOf s t) by (by rewrite Ec, El, fn_lookup_insert_ne).
      split; rewrite ?D1, ?D2, ?D3, ?D4, ?D5, ?D6, ?D7, ?D9, ?D10; try done.
      * unfold coveredBy. rewrite D8. eapply reaches_sub; [|done|done|exact T8].
        intros q. rewrite Hlt. intros Hq. split; [done|]. rewrite Fh, lookup_insert_ne; [done|].
        intros <-. by eapply incoming_fresh.
      * intros q Hq. rewrite inserted_seqAt. apply T9. by rewrite <- Hlt.
  - intros ?? Hnil. rewrite Ec, El in Hnil. destruct (decide (0%nat = tid)) as [E0|Ht].
    + rewrite <- E0, fn_lookup_insert in Hnil. by destruct (listOf s 0%nat).
    + rewrite fn_lookup_insert_ne in Hnil by done. by apply H6.
Qed.

Lemma inserted_incoming :
  commitStatus s' = commitStatus s -> lastCommitedSeqNum s' = lastCommitedSeqNum s ->
  incomingOK s' L.
Proof.
  intros E1 E2. destruct Hin as [H1 H2 H3 H4].
  destruct (insertInst_frame p i _ _ Hi E) as (F & Fc & Fh & Fn). rewrite <- Ec in F, Fc, Fh, Fn.
  apply StronglySorted_inv in H2 as [H2 Hp]. rewrite Forall_forall in Hp. split.
  - intros q Hq. destruct (H1 q) as (j & Hj & J1 & J2 & J3 & J4 & J5 & J6); [by right|].
    assert (Hpq : tid = threadNumber j -> seqNum i < seqNum j).
    { intros Et. specialize (Hp q Hq). unfold threadAt, seqAt in Hp. rewrite Hi, Hj in Hp. cbn in Hp.
      apply Hp. by rewrite Et. }
    exists (if decide (q = p) then setStatus RobEntry true j else j).
    rewrite Fh, Fc, E2. destruct (decide (q = p)) as [->|Hne].
    { assert (j = i) as -> by congruence. lia. }
    rewrite lookup_insert_ne by done. split_and!; try done; try apply J3.
    intros x Hx. rewrite inserted_seqAt.
    destruct (inserted_elem _ x Hx) as [Hx'|[-> Et]]; [by apply J6|].
    rewrite incoming_seq. auto.
  - eapply StronglySorted_weaken; [|exact H2]. intros x y.
    by rewrite !inserted_threadAt, !inserted_seqAt.
  - intros t. specialize (H3 t). rewrite (lf_max _ _ F).
    rewrite (list_filter_iff' _ (fun q => threadAt (mem (core s)) q = Some t))
      by (intros x _; by rewrite inserted_threadAt).
    assert (Eth : threadAt (mem (core s)) p = Some tid) by (unfold threadAt; by rewrite Hi).
    rewrite Ec, El. rewrite filter_cons in H3.
    destruct (decide (t = tid)) as [->|Ht].
    + rewrite fn_lookup_insert, length_app. rewrite decide_True in H3 by done. cbn in H3 |- *. lia.
    + rewrite fn_lookup_insert_ne by done. rewrite decide_False in H3 by congruence. lia.
  - rewrite Fn, (lf_size _ _ F). cbn [length] in H4. lia.
Qed.
End InsertOne.

Lemma getInst1_ok (s : S) p L :
  CommitInv s -> incomingOK s (p :: L) ->
  exists s', getInst1 p s = Ok (tt, s') /\ inserted s s' [p] /\ incomingOK s' L /\
    (forall q, q <> p -> heapOf s' !! q = heapOf s !! q).
Proof.
  intros HI Hin. destruct (in_insts _ _ Hin p) as (i & Hi & _); [left|].
  destruct (incoming_head s p L i Hin Hi) as (I1 & I2 & I3 & I4 & I5 & I6).
  assert (Eth : threadAt (mem (core s)) p = Some (threadNumber i)) by (unfold threadAt; by rewrite Hi).
  unfold getInst1, instOf, setChanged, onCore. fwd. rewrite (getInst_ok _ _ _ Hi). fwd.
  assert (Eacc : negb (isSquashed i) &&
      bool_decide (commitStatus s (threadNumber i) <> CommitROBSquashing) &&
      bool_decide (commitStatus s (threadNumber i) <> TrapPending) = accepted s p)
    by (unfold accepted; by rewrite Hi).
  rewrite Eacc.
  destruct (accepted s p) eqn:Ea; cbn [when].
  - assert (Hst : commitStatus s (threadNumber i) <> CommitROBSquashing).
    { unfold accepted in Ea. rewrite Hi in Ea. apply andb_prop in Ea as [[_ Ea]%andb_prop _].
      by apply bool_decide_eq_true in Ea. }
    assert (Hit : squashIt (rob (core s)) (threadNumber i) = None).
    { destruct (squashIt _ _) as [it|] eqn:Hit; [|done]. destruct Hst.
      apply (th_squashing _ _ (ci_threads _ HI _)). by exists it. }
    destruct (insertInst_ok p (core s) (ci_rob _ HI)) as (c' & i' & Hi' & E & Hwf' & El).
    { exists i. split_and!; try done.
      - pose proof (in_size _ _ Hin) as Hn. cbn [length] in Hn. lia.
      - rewrite Forall_forall. intros q Hq. by apply I6. }
    assert (i' = i) as -> by congruence. fwd. fields. rewrite E. fwd. fields.
    destruct (insertInst_frame p i _ _ Hi E) as (F & Fc & Fh & Fn).
    assert (Hroom : (threadEntries (rob c') (threadNumber i) <=? maxEntries (rob c') (threadNumber i)) = true).
    { apply Z.leb_le. rewrite (rb_entries _ Hwf'), El, fn_lookup_insert, length_app, (lf_max _ _ F).
      pose proof (in_room _ _ Hin (threadNumber i)) as Hroom. rewrite filter_cons_True in Hroom by done.
      cbn [length] in *. lia. }
    rewrite Hroom. fwd. fields. eexists. split; [reflexivity|].
    split; [split; fields; try done|split; [|fields; intros q Hq; by rewrite Fh, lookup_insert_ne]].
    + eapply (inserted_inv s p L i HI Hin Hi _ c'); fields; rewrite ?fn_lookup_insert; try done.
      intros t Ht. split; fields; rewrite ?fn_lookup_insert_ne by done; try done;
        [by rewrite (lf_it _ _ F)|by rewrite (lf_sn _ _ F)].
    + intros t. rewrite El, filter_single. destruct (decide (t = threadNumber i)) as [->|Ht].
      * by rewrite fn_lookup_insert, decide_True.
      * rewrite fn_lookup_insert_ne, decide_False, app_nil_r; [done| |done].
        intros [Hx _]. congruence.
    + intros q. rewrite Fh. destruct (decide (q = p)) as [->|Hq].
      * right. split; [left|]. exists i. by rewrite lookup_insert_eq.
      * left. by rewrite lookup_insert_ne.
    + apply F.
    + apply F.
    + eapply (inserted_incoming s p L i Hin Hi _ c'); fields; done.
  - exists s. split; [done|]. split_and!; try done.
    + split; try done; [|auto]. intros t. rewrite filter_single, decide_False, app_nil_r; [done|].
      intros [_ Hx]. congruence.
    + destruct Hin as [H1 H2 H3 H4]. apply StronglySorted_inv in H2 as [H2 _]. split; try done.
      * intros q Hq. apply H1. by right.
      * intros t. specialize (H3 t). rewrite filter_cons in H3. case_decide; cbn [length] in H3; lia.
      * cbn [length] in H4. lia.
Qed.
(** Taking the instructions one by one. *)
Lemma inserted_trans (s s1 s2 : S) p L :
  p ∉ L -> inserted s s1 [p] -> (forall q, q <> p -> heapOf s1 !! q = heapOf s !! q) ->
  inserted s1 s2 L -> inserted s s2 (p :: L).
Proof.
  intros Hp [A1 A2 A3 A4 (A5 & A5' & A5'') A6 A7 A8 A9 A10 A11 A12 A13] Hh
    [B1 B2 B3 B4 (B5 & B5' & B5'') B6 B7 B8 B9 B10 B11 B12 B13].
  split; try done; try congruence; [| |split_and!; congruence].
  - intros t. rewrite B2, A2, <- app_assoc. f_equal.
    rewrite filter_single, filter_cons. case_decide; [cbn; f_equal|]; apply list_filter_iff'.
    all: intros q Hq; unfold threadAt, accepted; rewrite Hh, A4; [done|by intros ->].
  - intros q. destruct (decide (q = p)) as [->|Hq].
    + destruct (B3 p) as [->|[? _]]; [|done]. destruct (A3 p) as [?|(_ & H)]; [by left|right].
      split; [left|done].
    + rewrite <- (Hh q Hq). destruct (B3 q) as [?|(? & H)]; [by left|right]. split; [by right|done].
Qed.

Lemma getInsts_ok (s : S) L :
  CommitInv s -> incomingOK s L -> exists s', forM L getInst1 s = Ok (tt, s') /\ inserted s s' L.
Proof.
  revert s. induction L as [|p L IH]; intros s HI Hin; cbn [forM].
  - fwd. exists s. split; [done|]. split; try done; [|auto]. intros t. by rewrite app_nil_r.
  - destruct (getInst1_ok s p L HI Hin) as (s1 & E & Hs1 & Hin1 & Hh).
    rewrite (bind_run _ _ _ _ _ E). destruct (IH s1 (is_inv _ _ _ Hs1) Hin1) as (s2 & -> & Hs2).
    exists s2. split; [done|]. eapply inserted_trans; eauto.
    intros Hp. pose proof (in_order _ _ Hin) as Ho. apply StronglySorted_inv in Ho as [_ Ho].
    rewrite Forall_forall in Ho. specialize (Ho p Hp eq_refl). lia.
Qed.
End Insts.
