(* ===== verification/CommitChoose.v ===== *)
(** * Choosing the thread that commits

    [Commit::getCommittingThread] and its two policies.  Round robin takes the
    first thread of the priority list that can commit and moves it to the end,
    so no thread that can commit waits longer than the list is long; the other
    policy takes the thread with the oldest head. *)

From stdpp Require Import base numbers list gmap functions sorting.
From S2P Require Import Prelude Adaptive Regs Monad RenameMap RenameHistory DynInst Stage ROB ROBProps Commit CommitInv.

#[local] Open Scope Z_scope.

Section Choose.
Context {PC Intr : Type} (cfg : CommitConfig).
Abbreviation S := (CommitS PC Intr).
Abbreviation listOf s tid := (instList (rob (core s)) tid).
Abbreviation heapOf s := (heap (mem (core s))).

(** The head of the thread, and whether it is ready. *)
Definition headOf (s : S) (t : ThreadID) : option DynInst :=
  p ← list.head (listOf s t); heapOf s !! p.
Definition headReady (s : S) (t : ThreadID) : bool :=
  match headOf s t with Some i => readyToCommit i | None => false end.

(** The thread could commit now. *)
Definition canCommitFrom (s : S) (t : ThreadID) : bool :=
  canCommitNow (commitStatus s t) && headReady s t.

(** The threads the policy chooses among. *)
Definition candidates (s : S) : list ThreadID :=
  if (1 <? numThreads cfg)%nat then
    match commitPolicy cfg with RoundRobin => priority_list s | OldestReady => commitActive cfg end
  else take 1 (commitActive cfg).

Lemma isHeadReady_run (s : S) t : rob_wf (core s) -> isHeadReady t (core s) = Ok (headReady s t).
Proof.
  intros Hwf. unfold headReady, headOf. destruct (listOf s t) as [|p l] eqn:El.
  - by destruct (readHead_nil s t Hwf El) as [_ ->].
  - destruct (readHead_ok s t p l Hwf El) as (i & Hi & _ & _ & _ & ->). cbn. by rewrite Hi.
Qed.

(** ** Round robin *)

Lemma roundRobinLoop_run (s : S) passed rest :
  rob_wf (core s) ->
  roundRobinLoop passed rest s =
    match list_find (fun t => canCommitFrom s t = true) rest with
    | Some (k, t) => Ok (Some t, s <| priority_list := passed ++ delete k rest ++ [t] |>)
    | None => Ok (None, s)
    end.
Proof.
  intros Hwf. revert passed. induction rest as [|t rest IH]; intros passed; cbn [roundRobinLoop list_find].
  - by fwd.
  - fwd.
    assert (E : (if canCommitNow (commitStatus s t) then lift (isHeadReady t (core s)) else mret false) s =
                Ok (canCommitFrom s t, s)).
    { unfold canCommitFrom. destruct (canCommitNow _); [|done]. by rewrite (isHeadReady_run s t Hwf). }
    rewrite (bind_run _ _ _ _ _ E). destruct (canCommitFrom s t) eqn:Ec.
    + by fwd.
    + rewrite IH. case_decide; [done|].
      destruct (list_find _ rest) as [[k t']|]; cbn; [|done]. by rewrite <- app_assoc.
Qed.

Lemma roundRobin_run (s : S) :
  rob_wf (core s) ->
  roundRobin s =
    match list_find (fun t => canCommitFrom s t = true) (priority_list s) with
    | Some (k, t) => Ok (Some t, s <| priority_list := delete k (priority_list s) ++ [t] |>)
    | None => Ok (None, s)
    end.
Proof. intros Hwf. unfold roundRobin. fwd. by rewrite roundRobinLoop_run. Qed.

(** A thread that can commit is chosen, or moves towards the front. *)
Lemma roundRobin_advances (s : S) t k :
  rob_wf (core s) -> priority_list s !! k = Some t -> canCommitFrom s t = true ->
  exists o s', roundRobin s = Ok (o, s') /\
    (o = Some t \/ exists k', k = Datatypes.S k' /\ priority_list s' !! k' = Some t).
Proof.
  intros Hwf Hk Hc. rewrite (roundRobin_run s Hwf).
  destruct (list_find _ (priority_list s)) as [[j u]|] eqn:Ef.
  - eexists _, _. split; [reflexivity|]. fields.
    apply list_find_Some in Ef as (Hj & Hu & Hmin).
    destruct (decide (j = k)) as [->|Hne]; [left; congruence|right].
    assert (Hlt : (j < k)%nat).
    { destruct (decide (k < j)%nat) as [Hkj|]; [|lia]. by destruct (Hmin k t Hk Hkj). }
    destruct k as [|k']; [lia|]. exists k'. split; [done|].
    rewrite lookup_app_l.
    + rewrite list_lookup_delete_ge by lia. done.
    + apply lookup_lt_Some in Hk. rewrite length_delete by (by apply lookup_lt_is_Some_2 with (i := j); lia). lia.
  - apply list_find_None in Ef. rewrite Forall_forall in Ef. apply list_elem_of_lookup_2 in Hk.
    by destruct (Ef t Hk).
Qed.

(** ** Oldest first *)

Definition headSeq (s : S) (t : ThreadID) : Z := from_option seqNum 0 (headOf s t).

(** One thread looked at. *)
Lemma oldestStep_run (s : S) acc t :
  rob_wf (core s) ->
  oldestStep s acc t = Ok
    (if canCommitFrom s t then
       match acc with
       | None => Some (t, u32 (headSeq s t))
       | Some (_, n) => if headSeq s t <? n then Some (t, u32 (headSeq s t)) else acc
       end
     else acc).
Proof.
  intros Hwf. unfold oldestStep, canCommitFrom, headReady, headSeq, headOf.
  destruct (listOf s t) as [|p k] eqn:El.
  - destruct (readHead_nil s t Hwf El) as [-> _]. cbn. by rewrite andb_false_r.
  - destruct (readHead_ok s t p k Hwf El) as (i & Hi & _ & -> & -> & ->). cbn. rewrite Hi. cbn.
    destruct (canCommitNow (commitStatus s t)); [|done]. cbn.
    destruct (readyToCommit i); [|done]. cbn. rewrite (getInst_ok _ _ _ Hi). cbn.
    destruct acc as [[t' n]|]; [by case_match|done].
Qed.

(** What the loop knows having looked at the threads of [l]. *)
Definition oldestOf (s : S) (l : list ThreadID) (acc : option (ThreadID * Z)) : Prop :=
  match acc with
  | None => forall t, t ∈ l -> canCommitFrom s t = false
  | Some (t, n) => t ∈ l /\ canCommitFrom s t = true /\ n = u32 (headSeq s t) /\
      ((forall u, u ∈ l -> canCommitFrom s u = true -> in_u32 (headSeq s u)) ->
       forall u, u ∈ l -> canCommitFrom s u = true -> headSeq s t <= headSeq s u)
  end.

Lemma oldestOf_step (s : S) l acc t :
  rob_wf (core s) -> oldestOf s l acc ->
  exists acc', oldestStep s acc t = Ok acc' /\ oldestOf s (l ++ [t]) acc'.
Proof.
  intros Hwf Hacc. rewrite (oldestStep_run s acc t Hwf). eexists. split; [reflexivity|].
  destruct (canCommitFrom s t) eqn:Ec.
  - destruct acc as [[u n]|]; cbn in Hacc.
    + destruct Hacc as (H1 & H2 & -> & H3). destruct (Z.ltb_spec (headSeq s t) (u32 (headSeq s u))) as [Hlt|Hge].
      * split_and!; [set_solver|done|done|]. intros Hr v [Hv| ->%list_elem_of_singleton]%elem_of_app Hcv; [|lia].
        rewrite u32_small in Hlt by (apply Hr; [set_solver|done]).
        specialize (H3 ltac:(intros; apply Hr; set_solver) v Hv Hcv). lia.
      * split_and!; [set_solver|done|done|]. intros Hr v [Hv| ->%list_elem_of_singleton]%elem_of_app Hcv.
        -- apply H3; [intros; apply Hr; set_solver|done|done].
        -- by rewrite u32_small in Hge by (apply Hr; [set_solver|done]).
    + split_and!; [set_solver|done|done|]. intros _ v [Hv| ->%list_elem_of_singleton]%elem_of_app Hcv; [|lia].
      by rewrite Hacc in Hcv.
  - destruct acc as [[u n]|]; cbn in Hacc |- *.
    + destruct Hacc as (H1 & H2 & H3 & H4). split_and!; [set_solver|done|done|].
      intros Hr v [Hv| ->%list_elem_of_singleton]%elem_of_app Hcv; [|congruence].
      apply H4; [intros; apply Hr; set_solver|done|done].
    + intros v [Hv| ->%list_elem_of_singleton]%elem_of_app; auto.
Qed.

Lemma oldestOf_fold (s : S) l k acc :
  rob_wf (core s) -> oldestOf s l acc ->
  exists acc', foldR (oldestStep s) acc k = Ok acc' /\ oldestOf s (l ++ k) acc'.
Proof.
  intros Hwf. revert l acc. induction k as [|t k IH]; intros l acc Hacc; cbn [foldR].
  - rewrite app_nil_r. eauto.
  - destruct (oldestOf_step s l acc t Hwf Hacc) as (acc1 & -> & H1). cbn [mbind res_bind].
    destruct (IH _ _ H1) as (acc' & -> & H2). exists acc'. by rewrite <- app_assoc in H2.
Qed.

Lemma oldestReady_run (s : S) :
  rob_wf (core s) ->
  exists acc, oldestReady cfg s = Ok (fst <$> acc, s) /\ oldestOf s (commitActive cfg) acc.
Proof.
  intros Hwf. unfold oldestReady. fwd.
  destruct (oldestOf_fold s [] (commitActive cfg) None Hwf) as (acc & -> & Hacc).
  { by intros t ?%elem_of_nil. }
  fwd. by exists acc.
Qed.

(** ** Either way *)

(** Only the priority list may have changed. *)
Definition samePrio (s s' : S) : Prop := s' = s \/ exists l, s' = s <| priority_list := l |>.

Lemma getCommittingThread_ok (s : S) :
  rob_wf (core s) -> commitActive cfg <> [] ->
  exists o s', getCommittingThread cfg s = Ok (o, s') /\ samePrio s s' /\
    match o with
    | None => s' = s /\ forall t, t ∈ candidates s -> canCommitFrom s t = false
    | Some t => t ∈ candidates s /\ canCommitNow (commitStatus s t) = true /\
        (headReady s t = false -> s' = s /\ candidates s = [t])
    end.
Proof.
  intros Hwf Hne. unfold getCommittingThread, candidates. case_match.
  - destruct (commitPolicy cfg).
    + rewrite (roundRobin_run s Hwf). destruct (list_find _ _) as [[k t]|] eqn:Ef.
      * eexists _, _. split; [reflexivity|]. split; [right; eauto|].
        apply list_find_Some in Ef as (Hk & [Hc Hr]%andb_prop & _).
        split_and!; [by eapply list_elem_of_lookup_2|done|by rewrite Hr].
      * eexists _, _. split; [reflexivity|]. split; [by left|]. split; [done|].
        apply list_find_None in Ef. rewrite Forall_forall in Ef. intros t Ht.
        apply not_true_is_false. by apply Ef.
    + destruct (oldestReady_run s Hwf) as (acc & E & Hacc). eexists _, _. split; [exact E|].
      split; [by left|]. destruct acc as [[t n]|]; cbn in *; [|done].
      destruct Hacc as (H1 & [H2 H3]%andb_prop & _). split_and!; [done|done|by rewrite H3].
  - rewrite bool_decide_eq_true_2 by done. fwd. destruct (commitActive cfg) as [|t l]; [done|].
    cbn [list.head hd_error deref take]. fwd. eexists _, s. split; [reflexivity|]. split; [by left|].
    destruct (canCommitNow (commitStatus s t)) eqn:E; cbn.
    + split_and!; [set_solver|done|]. rewrite take_0. done.
    + split; [done|]. rewrite take_0. intros u ->%list_elem_of_singleton. unfold canCommitFrom. by rewrite E.
Qed.

Lemma samePrio_inv (s s' : S) : samePrio s s' -> CommitInv s -> CommitInv s'.
Proof. intros [->|[l ->]] HI; [done|]. eapply inv_ext; [exact HI|..]; fields; done. Qed.

End Choose.
