(* ===== verification/CommitHead.v ===== *)
(** * Committing the head of a thread

    The parts of one round of the commit loop: the status bits the stage sets,
    the interrupts of thread 0, the commit rename map, and [commitHead] with
    what follows it. *)

From stdpp Require Import base numbers list gmap functions sorting.
From S2P Require Import Prelude Adaptive Regs Monad RenameMap RenameHistory DynInst Stage ROB ROBProps Commit CommitInv CommitSquash CommitInsts CommitChoose.

#[local] Open Scope Z_scope.

(** ** Changing status bits of an instruction *)

(** [i'] is [i] but for what the invariant does not read. *)
Definition bitsOnly (i i' : DynInst) : Prop :=
  seqNum i' = seqNum i /\ threadNumber i' = threadNumber i /\ isInROB i' = isInROB i /\
  isSquashed i' = isSquashed i /\ (squashable i -> squashable i').

Lemma setStatus_bitsOnly b v i :
  b <> RobEntry -> b <> Squashed -> b <> PinnedRegsRenamed -> bitsOnly i (setStatus b v i).
Proof.
  intros H1 H2 H3. unfold bitsOnly, isInROB, isSquashed, squashable. cbn.
  by rewrite !fn_lookup_insert_ne by done.
Qed.

Lemma rob_wf_bits c p i i' m' :
  rob_wf c -> heap (mem c) !! p = Some i -> bitsOnly i i' ->
  heap m' = <[p := i']> (heap (mem c)) -> rob_wf (c <| mem := m' |>).
Proof.
  intros [H1 H2 H3 H4 H5 H6 H7] Hi (B1 & B2 & B3 & B4 & B5) Eh.
  assert (Hb : bitChange (mem c) m' p).
  { split.
    - intros q Hq. by rewrite Eh, lookup_insert_ne.
    - intros j Hj. assert (j = i) as -> by congruence. exists i'. by rewrite Eh, lookup_insert_eq. }
  split; try done; cbn [mem rob upd_field].
  - intros t q Hq. destruct (H5 t q Hq) as (j & Hj & J1 & J2 & J3). unfold robInst. rewrite Eh.
    destruct (decide (q = p)) as [->|Hne].
    + assert (j = i) as -> by congruence. exists i'. rewrite lookup_insert_eq.
      split_and!; [done|congruence|congruence|auto].
    + exists j. by rewrite lookup_insert_ne.
  - intros t. eapply ordered_ext; [|apply H6]. intros q _. eapply bitChange_seqAt; eauto.
  - intros t. eapply squashing_ok_change; eauto.
Qed.

Section Heads.
Context {PC Intr : Type} (isa : ISA PC Intr).
Context (rf : PhysRegFile) (ac : AdaptiveConfig) (cfg : CommitConfig) (inp : CommitIn PC).
Abbreviation S := (CommitS PC Intr).
Abbreviation listOf s tid := (instList (rob (core s)) tid).
Abbreviation heapOf s := (heap (mem (core s))).

(** The instruction behind [p] changed in the stage's state. *)
Record bitsStep (s s' : S) (p : InstPtr) (i i' : DynInst) : Prop := {
  bs_rob : rob (core s') = rob (core s);
  bs_cpu : cpu (core s') = cpu (core s);
  bs_heap : heapOf s' = <[p := i']> (heapOf s)
}.

Section Bits.
Context (s s' : S) (p : InstPtr) (i i' : DynInst).
Context (HI : CommitInv s) (Hi : heapOf s !! p = Some i) (Hb : bitsOnly i i').
Context (Hs : bitsStep s s' p i i').

Lemma bits_seqAt q : seqAt (mem (core s')) q = seqAt (mem (core s)) q.
Proof.
  unfold seqAt. rewrite (bs_heap _ _ _ _ _ Hs). destruct (decide (q = p)) as [->|Hq].
  - rewrite lookup_insert_eq, Hi. cbn. apply Hb.
  - by rewrite lookup_insert_ne.
Qed.

Lemma bits_reaches t n : squashReaches (core s) t n -> squashReaches (core s') t n.
Proof.
  intros H q. rewrite (bs_rob _ _ _ _ _ Hs), bits_seqAt. intros Hq Hlt.
  destruct (H q Hq Hlt) as [(j & Hj & Hsq)|?]; [left|by right].
  rewrite (bs_heap _ _ _ _ _ Hs). destruct (decide (q = p)) as [->|Hne].
  - exists i'. rewrite lookup_insert_eq. assert (j = i) as -> by congruence.
    destruct Hb as (_ & _ & _ & -> & _). done.
  - exists j. by rewrite lookup_insert_ne.
Qed.

Lemma bits_wf : rob_wf (core s').
Proof.
  pose proof (rob_wf_bits (core s) p i i' (mem (core s')) (ci_rob _ HI) Hi Hb (bs_heap _ _ _ _ _ Hs)) as H.
  destruct Hs as [E1 E2 _]. destruct (core s) as [r u m], (core s') as [r' u' m']. cbn in *. by subst.
Qed.

Lemma bits_thread t :
  commitStatus s' t = commitStatus s t -> trapInFlight s' t = trapInFlight s t ->
  trapPending s' t = trapPending s t -> trapSquash s' t = trapSquash s t ->
  tcSquash s' t = tcSquash s t -> noSquashFromTC s' t = noSquashFromTC s t ->
  squashAfterInst s' t = squashAfterInst s t -> youngestSeqNum s' t = youngestSeqNum s t ->
  lastCommitedSeqNum s' t = lastCommitedSeqNum s t -> threadOK s' t.
Proof.
  intros E1 E2 E3 E4 E5 E6 E7 E8 E9. destruct (ci_threads _ HI t) as [T1 T2 T3 T4 T5 T6 T7 T8 T9].
  split; rewrite ?E1, ?E2, ?E3, ?E4, ?E5, ?E6, ?E7, ?E9, ?(bs_rob _ _ _ _ _ Hs); try done.
  - unfold coveredBy. rewrite E8. by apply bits_reaches.
  - intros q Hq. rewrite bits_seqAt. auto.
Qed.

Lemma bits_inv :
  (forall t, threadOK s' t) -> interrupt s' = interrupt s -> htmStarts s' = htmStarts s ->
  htmStops s' = htmStops s ->
  (commitStatus s' 0%nat = TrapPending -> commitStatus s 0%nat = TrapPending \/ listOf s 0%nat <> []) ->
  CommitInv s'.
Proof.
  intros Hok E1 E2 E3 E4. pose proof HI as [H1 H2 H3 H4 H5 H6 H7].
  split; rewrite ?E1, ?E2, ?E3, ?(bs_rob _ _ _ _ _ Hs), ?(bs_cpu _ _ _ _ _ Hs); try done.
  - apply bits_wf.
  - intros t q Hq. rewrite bits_seqAt. eauto.
  - intros Hi0 [?|?]%E4; auto.
Qed.
End Bits.

Lemma updateInst_run (s : S) p i f :
  heapOf s !! p = Some i ->
  exists c', updateInst p f s = Ok (tt, s <| core := c' |>) /\
    rob c' = rob (core s) /\ cpu c' = cpu (core s) /\ heap (mem c') = <[p := f i]> (heapOf s).
Proof.
  intros Hi. unfold updateInst, onCore, updInst. fwd. rewrite (getInst_ok _ _ _ Hi). cbn [mbind res_bind].
  fwd. eexists. split; [reflexivity|]. done.
Qed.

(** Changing the bits of one instruction of the machine. *)
Lemma updateInst_ok (s : S) p i f :
  CommitInv s -> heapOf s !! p = Some i -> bitsOnly i (f i) ->
  exists c', updateInst p f s = Ok (tt, s <| core := c' |>) /\
    bitsStep s (s <| core := c' |>) p i (f i) /\ CommitInv (s <| core := c' |>).
Proof.
  intros HI Hi Hb. destruct (updateInst_run s p i f Hi) as (c' & E & E1 & E2 & E3).
  exists c'. split; [done|]. assert (Hs : bitsStep s (s <| core := c' |>) p i (f i)).
  { split; fields; done. }
  split; [done|]. eapply (bits_inv s _ p i (f i)); try done; fields; try done; [|by left].
  intros t. eapply (bits_thread s _ p i (f i)); fields; done.
Qed.

(** ** Interrupts *)

(** The interrupt controller has an interrupt to give when it says so. *)
Context (Hintr : forall x, intr_checkInterrupts isa x = true -> intr_getInterrupt isa x <> NoFault).

(** Thread 0 can take an interrupt: it waits for no squash of its own unless
    instructions are in flight. *)
Definition zeroOK (s : S) : Prop :=
  interrupt s <> NoFault -> tcSquash s 0%nat = false /\
    (is_Some (squashAfterInst s 0%nat) -> cpuInstList (cpu (core s)) <> []).

Record polled (s s' : S) : Prop := {
  po_inv : CommitInv s';
  po_core : core s' = core s;
  po_maps : commitMaps s' = commitMaps s;
  po_prio : priority_list s' = priority_list s;
  po_probes : probesOf (calls s') = probesOf (calls s);
  po_others : forall t, t <> 0%nat -> sameThread s s' t;
  po_squash : trapSquash s' = trapSquash s /\ tcSquash s' = tcSquash s /\
    squashAfterInst s' = squashAfterInst s;
  po_zero : zeroOK s';
  po_last : lastCommitedSeqNum s' = lastCommitedSeqNum s;
  po_taken : (sameThread s s' 0%nat /\ trapsOf (calls s') = trapsOf (calls s)) \/
    (cpuInstList (cpu (core s)) = [] /\ commitStatus s' 0%nat = TrapPending /\
     trapsOf (calls s') = trapsOf (calls s) ++ [0%nat])
}.

Lemma polled_refl (s : S) : CommitInv s -> zeroOK s -> polled s s.
Proof. intros HI Hz. split; try done. by left. Qed.

Lemma rob_empty (s : S) : CommitInv s -> cpuInstList (cpu (core s)) = [] -> forall t, listOf s t = [].
Proof.
  intros HI He t. destruct (listOf s t) as [|p l] eqn:El; [done|].
  assert (Hp : p ∈ cpuInstList (cpu (core s))) by (apply (ci_cpu _ HI t); rewrite El; left).
  rewrite He in Hp. by apply elem_of_nil in Hp.
Qed.

Lemma inv_noInterrupt (s : S) : CommitInv s -> CommitInv (s <| interrupt := NoFault |>).
Proof.
  intros [H1 H2 H3 H4 H5 H6 H7]. split; fields; try done.
  intros t. destruct (H5 t). split; fields; done.
Qed.

(** Thread 0 takes an interrupt when nothing is in flight. *)
Lemma inv_interrupted (s s' : S) :
  CommitInv s -> cpuInstList (cpu (core s)) = [] -> tcSquash s 0%nat = false ->
  squashAfterInst s 0%nat = None -> core s' = core s -> interrupt s' = NoFault ->
  (forall t, t <> 0%nat -> sameThread s s' t) -> commitStatus s' 0%nat = TrapPending ->
  trapInFlight s' 0%nat = true -> trapPending s' 0%nat = true -> tcSquash s' 0%nat = false ->
  noSquashFromTC s' 0%nat = false -> squashAfterInst s' 0%nat = None ->
  htmStarts s' = htmStarts s -> htmStops s' = htmStops s -> CommitInv s'.
Proof.
  intros HI He Hz1 Hz2 Ec Ei Hs E1 E2 E3 E4 E5 E6 E7 E8.
  pose proof (rob_empty s HI He) as Hnil. pose proof HI as [H1 H2 H3 H4 H5 H6 H7].
  assert (Hit : squashIt (rob (core s)) 0%nat = None).
  { pose proof (rb_squash _ H1 0%nat) as Hq. destruct (squashIt _ _); [|done].
    destruct Hq as (_ & [|] & l2 & Hl & _); rewrite Hnil in Hl; done. }
  split; rewrite ?Ec, ?Ei, ?E7, ?E8; try done.
  intros t. destruct (decide (t = 0%nat)) as [->|Ht].
  - split; rewrite ?Ec, ?E1, ?E2, ?E3, ?E4, ?E5, ?E6, ?Hit; try done.
    + intros p. rewrite Ec, Hnil. by intros ?%elem_of_nil.
    + intros p. rewrite Hnil. by intros ?%elem_of_nil.
  - eapply (threadOK_other s s' 0%nat); auto. rewrite Ec. by apply squashStep_refl.
Qed.

Lemma handleInterrupt_ok (s : S) :
  CommitInv s -> zeroOK s -> interrupt s <> NoFault ->
  exists s', handleInterrupt isa cfg s = Ok (tt, s') /\ polled s s'.
Proof.
  intros HI Hz Hi. destruct (Hz Hi) as [Z1 Z2].
  pose proof (th_noSquash _ _ (ci_threads _ HI 0%nat)) as Hns. rewrite Z1 in Hns.
  unfold handleInterrupt. fwd. destruct (checkInterrupts isa cfg s) eqn:Ec; cbn [negb].
  2: { unfold tell. fwd. eexists. split; [reflexivity|]. split; fields; try done; [|by left].
       eapply inv_ext; [exact (inv_noInterrupt s HI)|..]; fields; done. }
  destruct (canHandleInterrupts s && _) eqn:Eh.
  2: { fwd. exists s. split; [done|]. by apply polled_refl. }
  apply andb_prop in Eh as [_ He]. apply bool_decide_eq_true in He.
  unfold checkInterrupts in Ec. apply andb_prop in Ec as [_ Ec]. apply Hintr in Ec.
  destruct (intr_getInterrupt isa (intr s)) as [f|] eqn:Ef; [|done].
  assert (Ha : squashAfterInst s 0%nat = None).
  { destruct (squashAfterInst s 0%nat) eqn:Ea; [|done]. by destruct Z2. }
  unfold tell, setNoSquashFromTC, processInterrupts, setCommitStatus, generateTrapEvent, trap, call.
  fwd. rewrite Hns. cbn [negb]. fwd. cbn [deref]. fwd. fields.
  eexists. split; [reflexivity|]. split; fields; try done.
  - eapply (inv_interrupted s); fields; rewrite ?fn_lookup_insert; try done.
    intros t Ht. split; fields; rewrite ?fn_lookup_insert_ne by done; done.
  - by rewrite probesOf_app, app_nil_r.
  - intros t Ht. split; fields; rewrite ?fn_lookup_insert_ne by done; done.
  - right. split; [done|]. by rewrite fn_lookup_insert, trapsOf_app.
Qed.

Lemma pollInterrupt_ok (s : S) o :
  CommitInv s -> zeroOK s -> exists s', pollInterrupt isa cfg o s = Ok (tt, s') /\ polled s s'.
Proof.
  intros HI Hz. unfold pollInterrupt. fwd. destruct (bool_decide _) eqn:Ei; cbn [when].
  2: { fwd. exists s. split; [done|]. by apply polled_refl. }
  apply bool_decide_eq_true in Ei.
  assert (executingHtmTransaction o s = false) as ->; [|by apply handleInterrupt_ok].
  unfold executingHtmTransaction. destruct o as [t|]; [|done]. apply Z.ltb_ge, (ci_htm _ HI).
Qed.

(** ** The commit rename map *)

(** A destination the commit map can take. *)
Definition entryOK (maps : list SimpleRenameMap.t) (x : RegId * PhysRegId) : Prop :=
  p_class x.2 = classValue x.1 /\
  match classValue x.1 with
  | InvalidRegClass => x.2 = invalidPhysRegId
  | MiscRegClass => getMiscRegId rf (index x.1) = Ok x.2
  | _ => is_Some (mapGet maps x.1)
  end.

Definition commitEntries (l : list (RegId * PhysRegId)) (maps : list SimpleRenameMap.t)
    : res (list SimpleRenameMap.t) :=
  foldR (fun m x => setEntry rf x.1 x.2 m) maps l.

(** The renamed destinations of an instruction. *)
Definition destsAre (i : DynInst) (l : list (RegId * PhysRegId)) : Prop :=
  length l = numDestRegs i /\
  forall k x, l !! k = Some x -> flatDestIdx i !! k = Some x.1 /\ destIdx i !! k = Some (Some x.2).

(** The map keeps an entry for every register it has one for. *)
Definition mapKeeps (m m' : list SimpleRenameMap.t) : Prop :=
  forall a, is_Some (mapGet m a) -> is_Some (mapGet m' a).

Lemma setEntry_run maps x :
  entryOK maps x -> exists maps', setEntry rf x.1 x.2 maps = Ok maps' /\ mapKeeps maps maps'.
Proof.
  intros [Hc Hx]. destruct (isRenameable x.1) eqn:Er.
  - assert (Hg : is_Some (mapGet maps x.1)).
    { unfold isRenameable in Er. by destruct (classValue x.1). }
    destruct Hg as [old Hold]. exists (mapSet maps x.1 x.2). split; [by eapply setEntry_ok|].
    intros a Ha. by apply mapGet_mapSet_some.
  - exists maps. split; [|by intros a Ha]. unfold setEntry. rewrite Er. cbn [negb].
    rewrite bool_decide_eq_true_2 by done. cbn [assertR mbind res_bind]. unfold lookup.
    unfold isRenameable in Er. destruct (classValue x.1); try done.
    + rewrite Hx. cbn. by rewrite bool_decide_eq_true_2.
    + rewrite Hx. cbn. by rewrite bool_decide_eq_true_2.
Qed.

Lemma entryOK_keeps maps maps' x : mapKeeps maps maps' -> entryOK maps x -> entryOK maps' x.
Proof. intros H [Hc Hx]. split; [done|]. destruct (classValue x.1); auto. Qed.

Lemma commitEntries_ok l maps :
  Forall (entryOK maps) l -> exists maps', commitEntries l maps = Ok maps' /\ mapKeeps maps maps'.
Proof.
  unfold commitEntries. revert maps. induction l as [|x l IH]; intros maps Hl; cbn [foldR].
  - exists maps. split; [done|]. by intros a Ha.
  - inversion_clear Hl as [|? ? Hx Hl']. destruct (setEntry_run maps x Hx) as (m1 & -> & H1).
    cbn [mbind res_bind]. destruct (IH m1) as (m2 & -> & H2).
    { eapply Forall_impl; [exact Hl'|]. intros y. by apply entryOK_keeps. }
    exists m2. split; [done|]. intros a Ha. auto.
Qed.

(** The loop over the destinations. *)
Lemma updateCommitMaps_run (s : S) tid i k l m :
  (forall j x, l !! j = Some x ->
     flatDestIdx i !! (k + j)%nat = Some x.1 /\ destIdx i !! (k + j)%nat = Some (Some x.2)) ->
  commitEntries l (commitMaps s tid) = Ok m ->
  exists f, forM (seq k (length l)) (updateCommitMap rf tid i) s = Ok (tt, s <| commitMaps := f |>) /\
    f tid = m /\ forall t, t <> tid -> f t = commitMaps s t.
Proof.
  revert s k. induction l as [|x l IH]; intros s k Hl Hm; cbn [length seq forM].
  - fwd. injection Hm as <-. exists (commitMaps s). split; [by destruct s|]. done.
  - unfold commitEntries in Hm. cbn [foldR] in Hm. destruct (setEntry _ _ _ _) as [m1| |] eqn:E1; try done.
    cbn [mbind res_bind] in Hm. destruct (Hl 0%nat x eq_refl) as [D1 D2]. rewrite Nat.add_0_r in D1, D2.
    assert (E0 : updateCommitMap rf tid i k s =
      Ok (tt, s <| commitMaps := <[tid := m1]> (commitMaps s) |>)).
    { unfold updateCommitMap. rewrite D1, D2. fwd. rewrite E1. by fwd. }
    rewrite (bind_run _ _ _ _ _ E0).
    destruct (IH (s <| commitMaps := <[tid := m1]> (commitMaps s) |>) (Datatypes.S k)) as (f & E & Ef & Eo).
    { intros j y Hj. rewrite Nat.add_succ_l, <- Nat.add_succ_r. by apply Hl. }
    { fields. by rewrite fn_lookup_insert. }
    exists f. rewrite E. split; [by destruct s|]. split; [done|]. intros t Ht. rewrite Eo by done.
    fields. by rewrite fn_lookup_insert_ne.
Qed.

(** ** Committing the head *)

(** What the other stages ensure of an instruction that is ready to commit: it
    is not part of a transaction; when it has not been executed it is one of
    those that wait for the head; its destinations have been renamed; a store
    conditional has completed. *)
Record committable (maps : list SimpleRenameMap.t) (i : DynInst) : Prop := {
  cm_htm : isHtmStart i = false /\ isHtmStop i = false /\ inHtmTransactionalState i = false;
  cm_waits : isExecuted i = false ->
    isNonSpeculative i || isStoreConditional i || isReadBarrier i ||
    isWriteBarrier i || isAtomic i || (isLoad i && strictlyOrdered i) = true;
  cm_dests : isExecuted i = true -> fault i = None ->
    exists l, destsAre i l /\ Forall (entryOK maps) l;
  cm_sc : isExecuted i = true -> fault i = None -> isStore i = true ->
    negb (isStoreConditional i) || isCompleted i || negb (readPredicate i) = true
}.

Lemma committable_keeps maps maps' i : mapKeeps maps maps' -> committable maps i -> committable maps' i.
Proof.
  intros Hk [H1 H2 H3 H4]. split; try done. intros Hx Hf. destruct (H3 Hx Hf) as (l & Hl & Hall).
  exists l. split; [done|]. eapply Forall_impl; [exact Hall|]. intros x. by apply entryOK_keeps.
Qed.

Section Head.
Context (s : S) (tid : ThreadID) (p : InstPtr) (l : list InstPtr) (i : DynInst).
Context (HI : CommitInv s) (Hl : listOf s tid = p :: l) (Hi : heapOf s !! p = Some i).
Context (Hready : readyToCommit i = true) (Hcm : committable (commitMaps s tid) i).
Context (Hst : canCommitNow (commitStatus s tid) = true) (Htc : tcSquash s tid = false).

Lemma head_thread : threadNumber i = tid.
Proof.
  destruct (rb_insts _ (ci_rob _ HI) tid p) as (j & Hj & Ht & _); [rewrite Hl; left|]. congruence.
Qed.

Lemma head_squashIt : squashIt (rob (core s)) tid = None.
Proof.
  destruct (squashIt (rob (core s)) tid) eqn:E; [|done].
  rewrite (th_squashing _ _ (ci_threads _ HI tid)) in Hst by eauto. done.
Qed.

Lemma head_flags :
  trapInFlight s tid = false /\ trapPending s tid = false /\ trapSquash s tid = false /\
  noSquashFromTC s tid = false /\ squashAfterInst s tid = None.
Proof.
  assert (Hs : commitStatus s tid <> TrapPending) by (intros E; by rewrite E in Hst).
  destruct (status_flags s tid HI Hs) as (? & ? & ?). split_and!; try done.
  - by rewrite (th_noSquash _ _ (ci_threads _ HI tid)).
  - destruct (squashAfterInst s tid) eqn:E; [|done].
    rewrite (th_after _ _ (ci_threads _ HI tid)) in Hst by eauto. done.
Qed.

Lemma when_completed :
  isExecuted i = true -> fault i = None ->
  exists c1 i', (when (negb (isStore i) && bool_decide (fault i = NoFault)) (updateInst p setCompleted)) s
      = Ok (tt, s <| core := c1 |>) /\
    CommitInv (s <| core := c1 |>) /\ rob c1 = rob (core s) /\ cpu c1 = cpu (core s) /\
    heap (mem c1) = <[p := i']> (heapOf s) /\
    (i' = i \/ i' = setCompleted i) /\
    negb (isStoreConditional i') || isCompleted i' || negb (readPredicate i') = true.
Proof.
  intros Hx Hf. rewrite bool_decide_eq_true_2 by done. destruct (isStore i) eqn:Es; cbn [negb andb when].
  - exists (core s), i. split; [by destruct s|]. split; [by destruct s|]. split_and!; try done.
    + by rewrite insert_id.
    + by left.
    + by apply (cm_sc _ _ Hcm).
  - destruct (updateInst_ok s p i setCompleted HI Hi) as (c1 & E & [B1 B2 B3] & HI1).
    { by apply setStatus_bitsOnly. }
    exists c1, (setCompleted i). split_and!; try done; [by right|].
    replace (isCompleted (setCompleted i)) with true; [by rewrite orb_true_r|].
    unfold isCompleted, setCompleted. cbn. by rewrite fn_lookup_insert.
Qed.

(** An executed head without a fault leaves the buffer. *)
Lemma commitHead_commits n :
  isExecuted i = true -> fault i = None ->
  exists c' f g i', commitHead isa rf cfg inp p n s =
      Ok (true, s <| core := c' |> <| commitMaps := f |> <| committedStores := g |>) /\
    (forall s', core s' = c' -> retired s s' tid p l i') /\
    (i' = i \/ i' = setCompleted i) /\
    negb (isStoreConditional i') || isCompleted i' || negb (readPredicate i') = true /\
    mapKeeps (commitMaps s tid) (f tid) /\ (forall t, t <> tid -> f t = commitMaps s t) /\
    exists d, destsAre i d /\ commitEntries d (commitMaps s tid) = Ok (f tid).
Proof.
  intros Hx Hf. pose proof head_thread as Ht. destruct Hcm as [(C1 & C2 & C3) C4 C5 C6].
  destruct (when_completed Hx Hf) as (c1 & i' & E1 & HI1 & R1 & R2 & R3 & R4 & R5).
  destruct (C5 Hx Hf) as (d & [Hd1 Hd2] & Hd3).
  destruct (commitEntries_ok d (commitMaps s tid) Hd3) as (m & Em & Hk).
  unfold commitHead, instOf. fwd. rewrite (getInst_ok _ _ _ Hi). fwd. rewrite Hx. cbn [negb].
  unfold headFault. rewrite Hf. fwd. rewrite Hf in E1. rewrite (bind_run _ _ _ _ _ E1).
  rewrite Ht, <- Hd1.
  destruct (updateCommitMaps_run (s <| core := c1 |>) tid i 0 d m) as (f & E2 & Ef & Eo).
  { intros j x Hj. by apply Hd2. }
  { fields. done. }
  rewrite (bind_run _ _ _ _ _ E2). fields. rewrite C1. cbn [when]. fwd. unfold onCore. fwd. fields.
  destruct (retireHead_run (s <| core := c1 |>) tid p l i') as (c' & E3 & Hret); fields; try done.
  { by rewrite R1. }
  { rewrite R3. by rewrite lookup_insert_eq. }
  { by destruct R4 as [-> | ->]. }
  { rewrite R1. apply head_squashIt. }
  revert E3. fields. intros E3. rewrite E3. fwd.
  exists c', f, (if isStore i || isAtomic i then <[tid := true]> (committedStores s) else committedStores s), i'.
  split.
  { destruct (isStore i || isAtomic i); cbn [when]; fwd; fields; by destruct s. }
  split_and!; try done.
  - intros s' Es. destruct (Hret s' Es) as [A1 A2 A3 A4 A5 A6]. revert A2 A3 A4 A5 A6. fields.
    rewrite R1, R2, R3. intros A2 A3 A4 A5 A6. split; try done. by rewrite A4, insert_insert_eq.
  - by rewrite Ef.
  - exists d. by rewrite Ef.
Qed.

(** The head stays: it waits, is sent to execute, or raises its trap. *)
Record held (n : Z) (s' : S) : Prop := {
  he_inv : CommitInv s';
  he_rob : rob (core s') = rob (core s);
  he_cpu : cpu (core s') = cpu (core s);
  he_heap : heapKeeps (mem (core s)) (mem (core s'));
  he_maps : commitMaps s' = commitMaps s;
  he_probes : probesOf (calls s') = probesOf (calls s);
  he_flags : trapSquash s' = trapSquash s /\ tcSquash s' = tcSquash s /\
    squashAfterInst s' = squashAfterInst s /\ interrupt s' = interrupt s;
  he_last : lastCommitedSeqNum s' = lastCommitedSeqNum s;
  he_others : forall t, t <> tid -> commitStatus s' t = commitStatus s t;
  he_traps : (trapsOf (calls s') = trapsOf (calls s) /\ commitStatus s' tid = commitStatus s tid) \/
    (trapsOf (calls s') = trapsOf (calls s) ++ [tid] /\ commitStatus s' tid = TrapPending /\
     n <= 0 /\ hasStoresToWB inp tid = false /\ isExecuted i = true /\ is_Some (fault i))
}.

Lemma held_refl n : held n s.
Proof. split; try done; [apply heapKeeps_refl|by left]. Qed.

Lemma commitUnexecuted_ok n :
  isExecuted i = false ->
  exists s', commitUnexecuted inp p i n s = Ok (false, s') /\ held n s'.
Proof.
  intros Hx. unfold commitUnexecuted. rewrite (cm_waits _ _ Hcm Hx). fwd.
  destruct (_ || _); [fwd; eauto using held_refl|]. unfold tell. fwd.
  rewrite head_thread. set (s1 := s <| toIEW := _ |>).
  assert (HI1 : CommitInv s1) by (eapply inv_ext; [exact HI|..]; unfold s1; fields; done).
  destruct (updateInst_ok s1 p i clearCanCommit HI1) as (c' & E & [B1 B2 B3] & HI2).
  { unfold s1. fields. done. }
  { by apply setStatus_bitsOnly. }
  rewrite (bind_run _ _ _ _ _ E). revert B1 B2 B3. unfold s1. fields. intros B1 B2 B3.
  assert (Hh : forall o, held n (s1 <| core := c' |> <| toIEW := o |>)).
  { intros o. split; unfold s1; fields; try done; [| |by left].
    - eapply inv_ext; [exact HI2|..]; unfold s1; fields; done.
    - by eapply heapKeeps_insert. }
  destruct (isLoad i && strictlyOrdered i); cbn [when]; fwd.
  - eexists. split; [reflexivity|]. apply Hh.
  - eexists. split; [reflexivity|]. specialize (Hh (toIEW (s1 <| core := c' |>))). unfold s1 in *.
    by destruct s.
Qed.

Lemma commitFault_ok f n :
  isExecuted i = true -> is_Some (fault i) ->
  exists s', commitFault isa cfg inp p i f n s = Ok (false, s') /\ held n s'.
Proof.
  intros Hx Hf. unfold commitFault. rewrite head_thread.
  destruct head_flags as (F1 & F2 & F3 & F4 & F5).
  destruct (hasStoresToWB inp tid || (0 <? n)) eqn:Ew; [fwd; eauto using held_refl|].
  apply orb_false_elim in Ew as [Ew En]. apply Z.ltb_ge in En.
  destruct (updateInst_ok s p i setCompleted HI Hi) as (c' & E & Hb & HI1).
  { by apply setStatus_bitsOnly. }
  rewrite (bind_run _ _ _ _ _ E).
  unfold setNoSquashFromTC, trap, setCommitStatus, generateTrapEvent, call. fwd. fields. rewrite F4.
  cbn [negb]. fwd. fields. pose proof Hb as [B1 B2 B3]. revert B1 B2 B3. fields. intros B1 B2 B3.
  assert (Hbits : bitsOnly i (setCompleted i)) by (by apply setStatus_bitsOnly).
  match goal with |- context [Ok (false, ?x)] => set (s' := x) end. exists s'. split; [done|].
  assert (Hs' : bitsStep s s' p i (setCompleted i)) by (split; unfold s'; fields; done).
  split; try (unfold s'; fields; done).
  - pose proof (ci_threads _ HI tid) as [T1 T2 T3 T4 T5 T6 T7 T8 T9].
    apply (bits_inv s s' p i (setCompleted i) HI Hi Hbits Hs'); try (unfold s'; fields; done).
    + intros t. destruct (decide (t = tid)) as [->|Ht].
      * split; try (unfold s'; fields; rewrite ?fn_lookup_insert, ?Htc, ?F5, ?B1, ?head_squashIt; done).
        -- apply (bits_reaches s s' p i (setCompleted i) Hi Hbits Hs') in T8.
           unfold coveredBy. unfold s' at 2. fields. done.
        -- intros q Hq. rewrite (bits_seqAt s s' p i (setCompleted i) Hi Hbits Hs').
           rewrite (bs_rob _ _ _ _ _ Hs') in Hq. specialize (T9 q Hq). unfold s'. fields. done.
      * apply (bits_thread s s' p i (setCompleted i) HI Hi Hbits Hs');
          unfold s'; fields; rewrite ?fn_lookup_insert_ne by done; done.
    + unfold s'. fields. destruct (decide (0%nat = tid)) as [<-|Ht].
      * intros _. right. by rewrite Hl.
      * rewrite fn_lookup_insert_ne by done. by left.
  - by eapply heapKeeps_insert; [exact Hi|exact (bs_heap _ _ _ _ _ Hs')|..].
  - unfold s'. fields. by rewrite probesOf_app, app_nil_r.
  - intros t Ht. unfold s'. fields. by rewrite fn_lookup_insert_ne.
  - right. unfold s'. fields. rewrite trapsOf_app, fn_lookup_insert. done.
Qed.

Lemma commitHead_holds n :
  isExecuted i = false \/ is_Some (fault i) ->
  exists s', commitHead isa rf cfg inp p n s = Ok (false, s') /\ held n s'.
Proof.
  intros Hx. unfold commitHead, instOf. fwd. rewrite (getInst_ok _ _ _ Hi). fwd.
  destruct (isExecuted i) eqn:Ex; cbn [negb]; [|by apply commitUnexecuted_ok].
  destruct Hx as [|[f Hf]]; [done|]. unfold headFault. rewrite Hf.
  destruct (cm_htm _ _ Hcm) as (_ & _ & ->). cbn [andb]. fwd.
  rewrite bool_decide_eq_false_2, andb_false_r by done. cbn [when]. fwd.
  apply commitFault_ok; eauto.
Qed.
End Head.

(** ** After a commit *)

(** No PC events are registered. *)
Context (Hev : forall t a, pcEvent isa t a = None).

(** What the end of an iteration leaves alone; the thread may wait for a squash
    after [p]. *)
Record near (tid : ThreadID) (p : InstPtr) (s s' : S) : Prop := {
  nr_core : core s' = core s;
  nr_maps : commitMaps s' = commitMaps s;
  nr_traps : trapsOf (calls s') = trapsOf (calls s);
  nr_probes : probesOf (calls s') = probesOf (calls s);
  nr_intr : interrupt s' = interrupt s;
  nr_htm : htmStarts s' = htmStarts s /\ htmStops s' = htmStops s;
  nr_inFlight : trapInFlight s' = trapInFlight s;
  nr_pending : trapPending s' = trapPending s;
  nr_trapSquash : trapSquash s' = trapSquash s;
  nr_tcSquash : tcSquash s' = tcSquash s;
  nr_noSquash : noSquashFromTC s' = noSquashFromTC s;
  nr_young : youngestSeqNum s' = youngestSeqNum s;
  nr_last : lastCommitedSeqNum s' = lastCommitedSeqNum s;
  nr_others : forall t, t <> tid -> commitStatus s' t = commitStatus s t /\
    squashAfterInst s' t = squashAfterInst s t;
  nr_status : (commitStatus s' tid = commitStatus s tid /\ squashAfterInst s' tid = squashAfterInst s tid) \/
    (commitStatus s' tid = SquashAfterPending /\ squashAfterInst s' tid = Some p)
}.

Lemma near_refl tid p s : near tid p s s.
Proof. split; try done. by left. Qed.

Lemma near_trans tid p s1 s2 s3 : near tid p s1 s2 -> near tid p s2 s3 -> near tid p s1 s3.
Proof.
  intros [A1 A2 A3 A4 A5 [A6 A6'] A7 A8 A9 A10 A11 A12 A13 A14 A15]
    [B1 B2 B3 B4 B5 [B6 B6'] B7 B8 B9 B10 B11 B12 B13 B14 B15].
  split; try congruence; [split; congruence| |].
  - intros t Ht. destruct (A14 t Ht), (B14 t Ht). split; congruence.
  - destruct B15 as [[-> ->]|?]; [done|by right].
Qed.

Definition mayWait (tid : ThreadID) (p : InstPtr) (s : S) : Prop :=
  squashAfterInst s tid = None \/ squashAfterInst s tid = Some p.

Lemma near_mayWait tid p s s' : near tid p s s' -> mayWait tid p s -> mayWait tid p s'.
Proof. intros H Hw. unfold mayWait. destruct (nr_status _ _ _ _ H) as [[_ ->]|[_ ->]]; [done|by right]. Qed.

Lemma squashAfter_near tid p s :
  mayWait tid p s -> exists s', squashAfter tid p s = Ok (tt, s') /\ near tid p s s'.
Proof.
  intros Hw. unfold squashAfter, setCommitStatus. fwd.
  assert (bool_decide (squashAfterInst s tid = None) || bool_decide (squashAfterInst s tid = Some p) = true) as ->.
  { destruct Hw as [-> | ->]; [done|]. by rewrite (bool_decide_eq_true_2 (Some p = Some p)), orb_true_r. }
  fwd. eexists. split; [reflexivity|]. split; fields; try done.
  - intros t Ht. by rewrite !fn_lookup_insert_ne.
  - right. by rewrite !fn_lookup_insert.
Qed.

Lemma when_squashAfter tid p b s :
  mayWait tid p s -> exists s', when b (squashAfter tid p) s = Ok (tt, s') /\ near tid p s s'.
Proof.
  intros Hw. destruct b; cbn [when]; [by apply squashAfter_near|].
  exists s. split; [done|apply near_refl].
Qed.

Lemma drainAfter_near tid p s :
  mayWait tid p s -> exists s', drainAfter isa tid p s = Ok (tt, s') /\ near tid p s s'.
Proof.
  intros Hw. unfold drainAfter. fwd. destruct (_ && _); cbn [when].
  - destruct (squashAfter_near tid p s Hw) as (s1 & E & Hn). rewrite (bind_run _ _ _ _ _ E).
    unfold call. fwd. eexists. split; [reflexivity|]. eapply near_trans; [exact Hn|].
    split; fields; try done; [by rewrite trapsOf_app, app_nil_r|by rewrite probesOf_app, app_nil_r|by left].
  - fwd. exists s. split; [done|apply near_refl].
Qed.

Lemma countHtm_run tid i (s : S) :
  isHtmStart i = false -> isHtmStop i = false -> inHtmTransactionalState i = false ->
  htmStarts s tid <= htmStops s tid -> countHtm tid i s = Ok (tt, s).
Proof.
  intros H1 H2 H3 H4. unfold countHtm. rewrite H1, H2, H3. cbn [when]. fwd.
  unfold executingHtmTransaction. rewrite (proj2 (Z.ltb_ge _ _) H4). cbn [negb]. by fwd.
Qed.

Lemma servicePCEvents_run fuel tid k (s : S) :
  servicePCEvents isa (Datatypes.S fuel) tid k s = Ok (Datatypes.S k, s).
Proof. cbn [servicePCEvents]. fwd. rewrite Hev. fwd. rewrite Z.eqb_refl. by fwd. Qed.

(** The state with the commit of [p] noted. *)
Definition noted (tid : ThreadID) (p : InstPtr) (sn : Z) (s : S) : S :=
  s <| calls := calls s ++ [ProbeCommit p] |>
    <| lastCommitedSeqNum := <[tid := sn]> (lastCommitedSeqNum s) |>.

(** What a noted commit leaves. *)
Lemma near_noted tid p sn (s s' : S) :
  near tid p (noted tid p sn s) s' ->
  core s' = core s /\ commitMaps s' = commitMaps s /\ trapsOf (calls s') = trapsOf (calls s) /\
  probesOf (calls s') = probesOf (calls s) ++ [(p, true)] /\ interrupt s' = interrupt s /\
  htmStarts s' = htmStarts s /\ htmStops s' = htmStops s /\
  trapInFlight s' = trapInFlight s /\ trapPending s' = trapPending s /\
  trapSquash s' = trapSquash s /\ tcSquash s' = tcSquash s /\
  noSquashFromTC s' = noSquashFromTC s /\ youngestSeqNum s' = youngestSeqNum s /\
  lastCommitedSeqNum s' = <[tid := sn]> (lastCommitedSeqNum s) /\
  (forall t, t <> tid -> commitStatus s' t = commitStatus s t /\ squashAfterInst s' t = squashAfterInst s t) /\
  ((commitStatus s' tid = commitStatus s tid /\ squashAfterInst s' tid = squashAfterInst s tid) \/
   (commitStatus s' tid = SquashAfterPending /\ squashAfterInst s' tid = Some p)).
Proof.
  intros [N1 N2 N3 N4 N5 [N6 N16] N7 N8 N9 N10 N11 N12 N13 N14 N15].
  rewrite N1, N2, N3, N4, N5, N6, N16, N7, N8, N9, N10, N11, N12, N13.
  revert N14 N15. unfold noted. fields. intros N14 N15.
  rewrite trapsOf_app, probesOf_app, app_nil_r. done.
Qed.

(** The steps that follow the bookkeeping. *)
Lemma finishCommit_ok tid p i (s : S) :
  noSquashFromTC s tid = false -> trapPending s tid = false -> mayWait tid p s ->
  exists s', finishCommit isa cfg tid p i s = Ok (false, s') /\ near tid p s s'.
Proof.
  intros Hns Htp Hw. unfold finishCommit.
  destruct (when_squashAfter tid p (isSquashAfter i) s Hw) as (s1 & E1 & N1).
  rewrite (bind_run _ _ _ _ _ E1). pose proof (near_mayWait _ _ _ _ N1 Hw) as Hw1.
  destruct (drainAfter_near tid p s1 Hw1) as (s2 & E2 & N2).
  rewrite (bind_run _ _ _ _ _ E2). pose proof (near_mayWait _ _ _ _ N2 Hw1) as Hw2.
  pose proof (near_trans _ _ _ _ _ N1 N2) as N12.
  match goal with |- context [((if onInstBoundary i then ?m else ?m') ≫= _) s2] =>
    assert (E3 : (if onInstBoundary i then m else m') s2 = Ok (false, s2)) end.
  { destruct (onInstBoundary i); [|done]. fwd.
    rewrite (nr_noSquash _ _ _ _ N12), (nr_pending _ _ _ _ N12), Hns, Htp. cbn [negb andb]. fwd.
    rewrite (bind_run _ _ _ _ _ (servicePCEvents_run (1 + numPCEvents isa) tid 0 s2)). done. }
  rewrite (bind_run _ _ _ _ _ E3). fwd.
  match goal with |- context [when ?b _ ≫= _] =>
    destruct (when_squashAfter tid p b s2 Hw2) as (s3 & E4 & N3) end.
  rewrite (bind_run _ _ _ _ _ E4). fwd. exists s3. split; [done|]. eapply near_trans; eauto.
Qed.

Lemma finish_noted tid p i (s x : S) :
  near tid p (noted tid p (seqNum i) s) x ->
  noSquashFromTC s tid = false -> trapPending s tid = false -> mayWait tid p s ->
  exists s', finishCommit isa cfg tid p i x = Ok (false, s') /\ near tid p (noted tid p (seqNum i) s) s'.
Proof.
  intros Hn Hns Htp Hw. destruct (finishCommit_ok tid p i x) as (s' & E & Hn').
  - rewrite (nr_noSquash _ _ _ _ Hn). unfold noted. fields. done.
  - rewrite (nr_pending _ _ _ _ Hn). unfold noted. fields. done.
  - eapply near_mayWait; [exact Hn|]. unfold mayWait, noted. fields. done.
  - exists s'. split; [done|]. eapply near_trans; eauto.
Qed.

Lemma afterCommit_ok tid p i (s : S) :
  heapOf s !! p = Some i -> isHtmStart i = false -> isHtmStop i = false ->
  inHtmTransactionalState i = false -> htmStarts s tid <= htmStops s tid ->
  negb (isStoreConditional i) || isCompleted i || negb (readPredicate i) = true ->
  noSquashFromTC s tid = false -> trapPending s tid = false -> mayWait tid p s ->
  exists s', afterCommit isa ac cfg tid p s = Ok (false, s') /\ near tid p (noted tid p (seqNum i) s) s'.
Proof.
  intros Hi H1 H2 H3 H4 Hsc Hns Htp Hw. unfold afterCommit, call, instOf. fwd. fields.
  rewrite (getInst_ok _ _ _ Hi). fwd.
  match goal with |- context [(countHtm tid i ≫= _) ?x] => set (y := x);
    assert (Hy : htmStarts y tid <= htmStops y tid) by (unfold y; fields; exact H4);
    rewrite (bind_run _ _ _ _ _ (countHtm_run tid i y H1 H2 H3 Hy)); unfold y end.
  clear y Hy. unfold setChanged, tell. fwd. fields. rewrite Hsc.
  destruct (bool_decide (tid = 0%nat)); cbn [when]; fwd; fields; apply finish_noted; try done;
    (split; unfold noted; fields; try done; by left).
Qed.
End Heads.
