(* ===== verification/CommitLoop.v ===== *)
(** * The commit loop

    One cycle commits from the heads of the threads until the width is used up
    or no head can commit.  The loop ends, fails no assertion and keeps the
    invariant; what it retires is a prefix of each thread's list. *)

From stdpp Require Import base numbers list gmap functions sorting.
From S2P Require Import Prelude Adaptive Regs Monad RenameMap RenameHistory DynInst Stage ROB ROBProps Commit CommitInv CommitSquash CommitInsts CommitChoose CommitHead.

#[local] Open Scope Z_scope.

Section Loop.
Context {PC Intr : Type} (isa : ISA PC Intr).
Context (rf : PhysRegFile) (ac : AdaptiveConfig) (cfg : CommitConfig) (inp : CommitIn PC).
Abbreviation S := (CommitS PC Intr).
Abbreviation listOf s tid := (instList (rob (core s)) tid).
Abbreviation heapOf s := (heap (mem (core s))).
Context (Hintr : forall x, intr_checkInterrupts isa x = true -> intr_getInterrupt isa x <> NoFault).
Context (Hev : forall t a, pcEvent isa t a = None).

Section Round.
Context (s0 : S).
Abbreviation thread0 p := (threadAt (mem (core s0)) p).

(** An instruction that left the buffer: it was ready; committed, it had been
    executed without a fault, otherwise it was squashed. *)
Definition leftOK (x : InstPtr * bool) : Prop :=
  exists i, heapOf s0 !! x.1 = Some i /\ readyToCommit i = true /\
    if x.2 then isSquashed i = false /\ isExecuted i = true /\ fault i = None
    else isSquashed i = true.

(** Those of thread [t], in order; and how many of them all committed. *)
Definition leftOf (t : ThreadID) (done : list (InstPtr * bool)) : list InstPtr :=
  fst <$> filter (fun x => thread0 x.1 = Some t) done.
Definition numCommitted (done : list (InstPtr * bool)) : Z :=
  Z.of_nat (length (filter (fun x => x.2 = true) done)).

(** The last sequence number a thread has committed. *)
Definition lastOf (t : ThreadID) (done : list (InstPtr * bool)) : Z :=
  foldl (fun n x => if decide (x.2 = true /\ thread0 x.1 = Some t) then seqAt (mem (core s0)) x.1 else n)
    (lastCommitedSeqNum s0 t) done.

(** Those a thread committed, and the map their destinations lead to. *)
Definition committedOf (t : ThreadID) (done : list (InstPtr * bool)) : list InstPtr :=
  fst <$> filter (fun x => x.2 = true /\ thread0 x.1 = Some t) done.
Definition mapsTo (t : ThreadID) (l : list InstPtr) (m : list SimpleRenameMap.t) : Prop :=
  exists ds, Forall2 (fun p d => exists i, heapOf s0 !! p = Some i /\ destsAre i d) l ds /\
    commitEntries rf (concat ds) (commitMaps s0 t) = Ok m.

(** Where the loop stands, having retired [done]. *)
Record loopAt (s : S) (done : list (InstPtr * bool)) : Prop := {
  lo_inv : CommitInv s;
  lo_settled : forall t, t ∈ commitActive cfg -> tcSquash s t = false;
  lo_zero : zeroOK s;
  lo_probes : probesOf (calls s) = probesOf (calls s0) ++ done;
  lo_lists : forall t, listOf s0 t = leftOf t done ++ listOf s t;
  lo_left : Forall leftOK done;
  lo_last : forall t, lastCommitedSeqNum s t = lastOf t done;
  lo_maps : forall t, mapKeeps (commitMaps s0 t) (commitMaps s t);
  lo_stuck : forall t, canCommitNow (commitStatus s0 t) = false ->
    listOf s t = listOf s0 t /\ canCommitNow (commitStatus s t) = false;
  lo_commits : forall t, mapsTo t (committedOf t done) (commitMaps s t);
  lo_heap : heapKeeps (mem (core s0)) (mem (core s));
  lo_squashing : squashIt (rob (core s)) = squashIt (rob (core s0)) /\
    squashedSeqNum (rob (core s)) = squashedSeqNum (rob (core s0))
}.

(** Until its last round the loop leaves what is in the buffer alone. *)
Definition loopGoes (s : S) : Prop :=
  (forall t q, q ∈ listOf s t -> heapOf s !! q = heapOf s0 !! q) /\
  trapsOf (calls s) = trapsOf (calls s0).

(** A trap the loop raised: of a head that faulted before anything committed,
    or an interrupt when nothing was in flight. *)
Definition trapRaised (s : S) (done : list (InstPtr * bool)) : Prop :=
  exists t, trapsOf (calls s) = trapsOf (calls s0) ++ [t] /\ commitStatus s t = TrapPending /\
    ((numCommitted done = 0 /\ hasStoresToWB inp t = false /\
      exists p l i, listOf s t = p :: l /\ heapOf s0 !! p = Some i /\ isSquashed i = false /\
        isExecuted i = true /\ is_Some (fault i)) \/
     (t = 0%nat /\ cpuInstList (cpu (core s)) = [])).

Definition loopEnd (s : S) (done : list (InstPtr * bool)) : Prop :=
  loopAt s done /\ (trapsOf (calls s) = trapsOf (calls s0) \/ trapRaised s done).

Lemma leftOf_snoc t done x :
  leftOf t (done ++ [x]) = leftOf t done ++ (if decide (thread0 x.1 = Some t) then [x.1] else []).
Proof.
  unfold leftOf. rewrite filter_app, fmap_app. f_equal. rewrite filter_cons. by case_decide.
Qed.

Lemma numCommitted_snoc done x :
  numCommitted (done ++ [x]) = numCommitted done + (if x.2 then 1 else 0).
Proof.
  unfold numCommitted. rewrite filter_app, length_app, filter_cons, filter_nil.
  destruct x as [p b]. cbn [snd]. destruct b; case_decide; cbn [length]; try done; lia.
Qed.

Lemma lastOf_snoc t done x :
  lastOf t (done ++ [x]) =
    if decide (x.2 = true /\ thread0 x.1 = Some t) then seqAt (mem (core s0)) x.1 else lastOf t done.
Proof. unfold lastOf. by rewrite foldl_app. Qed.

Lemma committedOf_snoc t done x :
  committedOf t (done ++ [x]) =
    committedOf t done ++ (if decide (x.2 = true /\ thread0 x.1 = Some t) then [x.1] else []).
Proof.
  unfold committedOf. rewrite filter_app, fmap_app. f_equal. rewrite filter_cons. by case_decide.
Qed.

Lemma mapsTo_snoc t l p i d m m' :
  mapsTo t l m -> heapOf s0 !! p = Some i -> destsAre i d -> commitEntries rf d m = Ok m' ->
  mapsTo t (l ++ [p]) m'.
Proof.
  intros (ds & H1 & H2) Hi Hd Hm. exists (ds ++ [d]). split.
  - apply Forall2_app; [done|]. constructor; [eauto|constructor].
  - unfold commitEntries in *. rewrite concat_app, foldR_app, H2. cbn. by rewrite app_nil_r.
Qed.

(** One more instruction retired. *)
Lemma loopAt_retire (s s' : S) done tid p l i i' (b : bool) :
  loopAt s done -> loopGoes s -> listOf s tid = p :: l -> heapOf s !! p = Some i ->
  readyToCommit i = true -> canCommitNow (commitStatus s tid) = true ->
  (if b then isSquashed i = false /\ isExecuted i = true /\ fault i = None else isSquashed i = true) ->
  seqNum i' = seqNum i ->
  (i' = i \/ i' = setCompleted i) ->
  retired s s' tid p l i' -> (forall t, t <> tid -> sameThread s s' t) -> threadOK s' tid ->
  commitStatus s' tid <> TrapPending ->
  interrupt s' = interrupt s -> htmStarts s' = htmStarts s -> htmStops s' = htmStops s ->
  probesOf (calls s') = probesOf (calls s) ++ [(p, b)] -> trapsOf (calls s') = trapsOf (calls s) ->
  tcSquash s' = tcSquash s ->
  lastCommitedSeqNum s' tid = (if b then seqNum i else lastCommitedSeqNum s tid) ->
  (forall t, mapKeeps (commitMaps s t) (commitMaps s' t)) ->
  (forall t, t <> tid \/ b = false -> commitMaps s' t = commitMaps s t) ->
  (b = true -> exists d, destsAre i d /\ commitEntries rf d (commitMaps s tid) = Ok (commitMaps s' tid)) ->
  loopAt s' (done ++ [(p, b)]) /\ loopGoes s' /\
  numInstsInROB (rob (core s')) = numInstsInROB (rob (core s)) - 1.
Proof.
  intros [L1 L2 L3 L4 L5 L6 L7 L8 L9 L10 L11 [L12 L13]] [G1 G2] Hl Hi Hr Hcan Hb Hsn Hi' Hret Hsame Hok Hst E1 E2 E3 E4 E5 E6 E7 E8 E9 E10.
  assert (Hp : p ∈ listOf s tid) by (rewrite Hl; left).
  assert (Hi0 : heapOf s0 !! p = Some i) by (by rewrite <- (G1 tid p Hp)).
  assert (Hth : thread0 p = Some tid).
  { unfold threadAt. rewrite Hi0. cbn. f_equal.
    destruct (rb_insts _ (ci_rob _ L1) tid p Hp) as (j & Hj & Ht & _). congruence. }
  assert (Hsq : seqAt (mem (core s0)) p = seqNum i) by (unfold seqAt; by rewrite Hi0).
  split; [|split; [split|apply Hret]].
  - split; try done.
    + eapply (retired_inv s s' tid p l i i' L1 Hl Hi Hsn Hret); done.
    + intros t Ht. rewrite E6. auto.
    + unfold zeroOK. rewrite E1, E6, (rt_cpu _ _ _ _ _ _ Hret). intros Hn.
      split; [by apply L3|]. intros _ He. apply (ci_cpu _ L1 tid) in Hp. rewrite He in Hp.
      by apply elem_of_nil in Hp.
    + by rewrite E4, L4, <- app_assoc.
    + intros t. rewrite L5, leftOf_snoc, (rt_list _ _ _ _ _ _ Hret), <- app_assoc. f_equal. cbn [fst].
      destruct (decide (t = tid)) as [->|Ht].
      * rewrite decide_True by done. by rewrite fn_lookup_insert, Hl.
      * rewrite decide_False by congruence. by rewrite fn_lookup_insert_ne.
    + apply Forall_app. split; [done|]. constructor; [|done]. exists i. done.
    + intros t. rewrite lastOf_snoc. cbn [fst snd]. destruct (decide (t = tid)) as [->|Ht].
      * rewrite E7, L7. destruct b; [by rewrite decide_True, Hsq|by rewrite decide_False by naive_solver].
      * rewrite decide_False by naive_solver congruence.
        rewrite (sm_last _ _ _ (Hsame t Ht)). apply L7.
    + intros t a Ha. by apply E8, L8.
    + intros t Ht. destruct (L9 t Ht) as [Ha Hc]. assert (Hne : t <> tid) by congruence.
      rewrite (rt_list _ _ _ _ _ _ Hret), fn_lookup_insert_ne by done.
      by rewrite (sm_status _ _ _ (Hsame t Hne)).
    + intros t. rewrite committedOf_snoc. cbn [fst snd]. case_decide as Hd.
      * destruct Hd as [-> Ht]. assert (t = tid) as -> by congruence. destruct (E10 eq_refl) as (d & Hd & Em).
        eapply mapsTo_snoc; eauto.
      * rewrite app_nil_r, E9; [done|]. destruct b; [left; intros ->; by destruct Hd|by right].
    + eapply heapKeeps_trans; [exact L11|]. eapply heapKeeps_insert; [exact Hi|apply Hret|..];
        by destruct Hi' as [-> | ->].
    + by rewrite (lf_it _ _ (rt_frame _ _ _ _ _ _ Hret)), (lf_sn _ _ (rt_frame _ _ _ _ _ _ Hret)).
  - intros t q Hq. destruct (retired_sub s s' tid p l i i' L1 Hl Hi Hret t q Hq) as [Hq' ->]. eauto.
  - congruence.
Qed.

(** A committed head: the thread goes on, or waits for a squash after it. *)
Lemma threadOK_committed (s s' : S) tid p l i i' :
  CommitInv s -> listOf s tid = p :: l -> heapOf s !! p = Some i -> seqNum i' = seqNum i ->
  retired s s' tid p l i' -> canCommitNow (commitStatus s tid) = true -> tcSquash s tid = false ->
  trapInFlight s' tid = trapInFlight s tid -> trapPending s' tid = trapPending s tid ->
  trapSquash s' tid = trapSquash s tid -> tcSquash s' tid = tcSquash s tid ->
  noSquashFromTC s' tid = noSquashFromTC s tid -> youngestSeqNum s' tid = youngestSeqNum s tid ->
  lastCommitedSeqNum s' tid = seqNum i ->
  ((commitStatus s' tid = commitStatus s tid /\ squashAfterInst s' tid = squashAfterInst s tid) \/
   (commitStatus s' tid = SquashAfterPending /\ squashAfterInst s' tid = Some p)) ->
  threadOK s' tid /\ commitStatus s' tid <> TrapPending.
Proof.
  intros HI Hl Hi Hsn Hret Hcan Htc E1 E2 E3 E4 E5 E6 E7 Hst.
  pose proof (head_squashIt s tid HI Hcan) as Hit.
  destruct (head_flags s tid HI Hcan Htc) as (F1 & F2 & F3 & F4 & F5).
  pose proof (ci_threads _ HI tid) as [T1 T2 T3 T4 T5 T6 T7 T8 T9].
  assert (Hnt : commitStatus s' tid <> TrapPending).
  { destruct Hst as [[-> _]|[-> _]]; [|done]. intros E. by rewrite E in Hcan. }
  split; [|done]. pose proof (retired_sub s s' tid p l i i' HI Hl Hi Hret) as Hsub.
  split; rewrite ?E1, ?E2, ?E3, ?E4, ?E5, ?E7, ?(lf_it _ _ (rt_frame _ _ _ _ _ _ Hret)), ?F1, ?F2, ?F3, ?F4, ?Htc, ?Hit; try done.
  - destruct Hst as [[_ ->]|[-> _]]; [|done]. rewrite F5. by intros [? [=]].
  - unfold coveredBy. rewrite E6. eapply reaches_sub; [apply Hsub|..|exact T8].
    + by rewrite (lf_it _ _ (rt_frame _ _ _ _ _ _ Hret)).
    + by rewrite (lf_sn _ _ (rt_frame _ _ _ _ _ _ Hret)).
  - intros q Hq. rewrite (retired_seqAt s s' tid p l i i' Hi Hsn Hret).
    rewrite (rt_list _ _ _ _ _ _ Hret), fn_lookup_insert in Hq.
    pose proof (rb_order _ (ci_rob _ HI) tid) as Ho. rewrite Hl in Ho.
    apply StronglySorted_inv in Ho as [_ Ho]. rewrite Forall_forall in Ho. specialize (Ho q Hq).
    cbn in Ho. unfold seqAt at 1 in Ho. by rewrite Hi in Ho.
Qed.

(** Choosing a thread and looking for interrupts: the loop stands where it was,
    unless nothing is in flight and thread 0 takes an interrupt. *)
Lemma loopAt_polled (s s1 s2 : S) done :
  loopAt s done -> loopGoes s -> samePrio s s1 -> polled s1 s2 ->
  loopAt s2 done /\ core s2 = core s /\ priority_list s2 = priority_list s1 /\
  ((loopGoes s2 /\ forall t, commitStatus s2 t = commitStatus s t) \/
   ((forall t, listOf s2 t = []) /\ trapRaised s2 done)).
Proof.
  intros [L1 L2 L3 L4 L5 L6 L7 L8 L9 L10 L11 [L12 L13]] [G1 G2] Hp [P1 P2 P3 P10 P4 P5 (P6 & P6' & P6'') P7 P8 P9].
  assert (Hs : core s1 = core s /\ commitMaps s1 = commitMaps s /\ calls s1 = calls s /\
    lastCommitedSeqNum s1 = lastCommitedSeqNum s /\ commitStatus s1 = commitStatus s /\
    tcSquash s1 = tcSquash s /\ (forall t, sameThread s1 s2 t -> commitStatus s2 t = commitStatus s t)).
  { destruct Hp as [->|[l ->]]; split_and!; try done; intros t [E _ _ _ _ _ _ _ _ _ _]; exact E. }
  destruct Hs as (Ec & Em & Ek & El & Est & Etc & Hsame).
  assert (Hstuck : forall t, canCommitNow (commitStatus s2 t) = false \/ commitStatus s2 t = commitStatus s t).
  { intros t. destruct (decide (t = 0%nat)) as [->|Ht]; [|right; auto].
    destruct P9 as [[H _]|(_ & -> & _)]; [right; auto|by left]. }
  split; [|split; [congruence|split; [done|]]].
  - split; rewrite ?P2, ?P3, ?P4, ?P8, ?Ec, ?Em, ?Ek, ?El; try done.
    + intros t Ht. rewrite P6', Etc. auto.
    + intros t Ht. destruct (L9 t Ht) as [-> Hc]. split; [done|].
      destruct (Hstuck t) as [?|E]; [done|by rewrite E].
  - destruct P9 as [[H Ht]|(He & Hst & Ht)].
    + left. split; [split|].
      * intros t q. rewrite P2, Ec. by apply G1.
      * congruence.
      * intros t. destruct (decide (t = 0%nat)) as [->|Hne]; auto.
    + right. rewrite Ec in He. split.
      * intros t. rewrite P2, Ec. by apply rob_empty.
      * exists 0%nat. split; [congruence|]. split; [done|]. right. split; [done|]. by rewrite P2, Ec.
Qed.

Lemma retireSquashed_ok (s : S) done tid p l i :
  loopAt s done -> loopGoes s -> listOf s tid = p :: l -> heapOf s !! p = Some i ->
  readyToCommit i = true -> canCommitNow (commitStatus s tid) = true -> isSquashed i = true ->
  exists s', retireSquashed ac tid p s = Ok (tt, s') /\
    loopAt s' (done ++ [(p, false)]) /\ loopGoes s' /\
    numInstsInROB (rob (core s')) = numInstsInROB (rob (core s)) - 1.
Proof.
  intros L G Hl Hi Hr Hcan Hsq. pose proof (lo_inv _ _ L) as HI.
  destruct (retireHead_run s tid p l i HI Hl Hi Hr) as (c' & E & Hret); [by apply head_squashIt|].
  unfold retireSquashed, onCore, call, setChanged. fwd. rewrite E. fwd. fields.
  eexists. split; [reflexivity|].
  match goal with |- loopAt ?x _ /\ _ => set (s' := x) end.
  assert (Hret' : retired s s' tid p l i) by (apply Hret; unfold s'; fields; done).
  assert (Hsame : forall t, sameThread s s' t).
  { intros t. split; try (unfold s'; fields; done).
    - by rewrite (lf_it _ _ (rt_frame _ _ _ _ _ _ Hret')).
    - by rewrite (lf_sn _ _ (rt_frame _ _ _ _ _ _ Hret')). }
  apply (loopAt_retire s s' done tid p l i i false L G Hl Hi Hr Hcan); auto;
    try (unfold s'; fields; done).
  - by apply (retired_thread s s' tid p l i i HI Hl Hi).
  - rewrite (sm_status _ _ _ (Hsame tid)). intros E'. by rewrite E' in Hcan.
  - unfold s'. fields. by rewrite probesOf_app.
  - unfold s'. fields. by rewrite trapsOf_app, app_nil_r.
  - intros t a. unfold s'. fields. done.
Qed.

(** The head commits. *)
Lemma commitOne_ok (s : S) done tid p l i pc n :
  loopAt s done -> loopGoes s -> listOf s tid = p :: l -> heapOf s !! p = Some i ->
  readyToCommit i = true -> canCommitNow (commitStatus s tid) = true -> tcSquash s tid = false ->
  isSquashed i = false -> isExecuted i = true -> fault i = None ->
  committable rf (commitMaps s tid) i ->
  exists s1 s', commitHead isa rf cfg inp p n (s <| pcs := pc |>) = Ok (true, s1) /\
    afterCommit isa ac cfg tid p s1 = Ok (false, s') /\
    loopAt s' (done ++ [(p, true)]) /\ loopGoes s' /\
    numInstsInROB (rob (core s')) = numInstsInROB (rob (core s)) - 1.
Proof.
  intros L G Hl Hi Hr Hcan Htc Hsq Hx Hf Hcm. pose proof (lo_inv _ _ L) as HI.
  set (s_ := s <| pcs := pc |>).
  assert (HI_ : CommitInv s_) by (eapply inv_ext; [exact HI|..]; unfold s_; fields; done).
  destruct (commitHead_commits isa rf cfg inp s_ tid p l i) with (n := n) as (c' & f & g & i' & E & Hret & Hi' & Hsc & Hk & Ho & d & Hd & Em);
    try (unfold s_; fields; done); try done.
  destruct (head_flags s tid HI Hcan Htc) as (F1 & F2 & F3 & F4 & F5).
  assert (Hsn : seqNum i' = seqNum i) by (by destruct Hi' as [-> | ->]).
  revert E Hret Hk Ho Em. unfold s_. fields. intros E Hret Hk Ho Em.
  match type of E with _ = Ok (true, ?x) => set (s1 := x) in * end.
  assert (Hret1 : retired s s1 tid p l i').
  { destruct (Hret s1) as [A1 A2 A3 A4 A5 A6]; [unfold s1; fields; done|].
    revert A2 A3 A4 A5 A6. unfold s_. fields. done. }
  assert (Hh1 : heapOf s1 !! p = Some (retiredInst i')).
  { rewrite (rt_heap _ _ _ _ _ _ Hret1). by rewrite lookup_insert_eq. }
  destruct (cm_htm rf _ _ Hcm) as (C1 & C2 & C3).
  destruct (afterCommit_ok isa ac cfg Hev tid p (retiredInst i') s1 Hh1) as (s' & E2 & Hn).
  { by destruct Hi' as [-> | ->]. }
  { by destruct Hi' as [-> | ->]. }
  { by destruct Hi' as [-> | ->]. }
  { unfold s1. fields. apply (ci_htm _ HI). }
  { exact Hsc. }
  { unfold s1. fields. done. }
  { unfold s1. fields. done. }
  { left. unfold s1. fields. done. }
  exists s1, s'. split; [done|]. split; [done|].
  apply near_noted in Hn as (N1 & N2 & N3 & N4 & N5 & N6 & N16 & N7 & N8 & N9 & N10 & N11 & N12 & N13 & N14 & N15).
  revert N2 N3 N4 N5 N6 N16 N7 N8 N9 N10 N11 N12 N13 N14 N15. unfold s1. fields.
  intros N2 N3 N4 N5 N6 N16 N7 N8 N9 N10 N11 N12 N13 N14 N15.
  assert (Hret' : retired s s' tid p l i').
  { destruct Hret1 as [A1 A2 A3 A4 A5 A6]. split; rewrite N1; done. }
  assert (Hok : threadOK s' tid /\ commitStatus s' tid <> TrapPending).
  { apply (threadOK_committed s s' tid p l i i' HI Hl Hi Hsn Hret' Hcan Htc); try congruence.
    rewrite N13, fn_lookup_insert. exact Hsn. }
  apply (loopAt_retire s s' done tid p l i i' true L G Hl Hi Hr Hcan); try done; try apply Hok.
  - intros t Ht. destruct (N14 t Ht) as [Q1 Q2]. split; try congruence.
    + by rewrite N13, fn_lookup_insert_ne.
    + by rewrite (lf_it _ _ (rt_frame _ _ _ _ _ _ Hret')).
    + by rewrite (lf_sn _ _ (rt_frame _ _ _ _ _ _ Hret')).
  - rewrite N13, fn_lookup_insert. exact Hsn.
  - intros t. rewrite N2. destruct (decide (t = tid)) as [->|Ht]; [done|]. rewrite Ho by done. by intros a.
  - intros t [Ht|?]; [|done]. rewrite N2. auto.
  - intros _. exists d. by rewrite N2.
Qed.

(** The head stays, and the loop ends. *)
Lemma holdOne_ok (s : S) done tid p l i pc n :
  loopAt s done -> loopGoes s -> listOf s tid = p :: l -> heapOf s !! p = Some i ->
  readyToCommit i = true -> canCommitNow (commitStatus s tid) = true -> tcSquash s tid = false ->
  isSquashed i = false -> isExecuted i = false \/ is_Some (fault i) -> n = numCommitted done ->
  committable rf (commitMaps s tid) i ->
  exists s', commitHead isa rf cfg inp p n (s <| pcs := pc |>) = Ok (false, s') /\ loopEnd s' done /\
    listOf s' tid = p :: l.
Proof.
  intros L G Hl Hi Hr Hcan Htc Hsq Hx Hn Hcm. pose proof (lo_inv _ _ L) as HI. destruct G as [G1 G2].
  set (s_ := s <| pcs := pc |>).
  assert (HI_ : CommitInv s_) by (eapply inv_ext; [exact HI|..]; unfold s_; fields; done).
  destruct (commitHead_holds isa rf cfg inp s_ tid p l i) with (n := n) as (s' & E & Hh);
    try (unfold s_; fields; done); try done.
  exists s'. split; [done|].
  destruct Hh as [H1 H2 H3 H10 H4 H5 (H6 & F1 & F2 & F3) H7 H8 H9].
  revert H2 H3 H10 H4 H5 H6 F1 F2 F3 H7 H8 H9. unfold s_. fields.
  intros H2 H3 H10 H4 H5 H6 F1 F2 F3 H7 H8 H9. destruct L as [L1 L2 L3 L4 L5 L6 L7 L8 L9 L10 L11 [L12 L13]].
  split; [split|by rewrite H2].
  - split; rewrite ?H2, ?H4, ?H5, ?H7; try done.
    + intros t Ht. rewrite F1. auto.
    + unfold zeroOK. by rewrite F3, F1, F2, H3.
    + intros t Ht. destruct (L9 t Ht) as [E1 E2]. split; [done|].
      rewrite H8; [done|]. congruence.
    + by eapply heapKeeps_trans.
  - destruct H9 as [[H9 _]|(H9 & H15 & H11 & H12 & H13 & H14)]; [left; congruence|right].
    assert (Hp : p ∈ listOf s tid) by (rewrite Hl; left).
    exists tid. rewrite H9, G2. split; [done|]. split; [done|]. left. split.
    { unfold numCommitted in *. lia. }
    split; [done|]. exists p, l, i. rewrite H2. split_and!; try done. by rewrite <- (G1 tid p Hp).
Qed.

(** ** The whole loop *)

(** What the stages promised of the instructions the loop may meet. *)
Context (Hne : commitActive cfg <> []).
Context (Hactive : forall t, t ∈ commitActive cfg \/ listOf s0 t = []).
Context (Hcommit : forall t p i, p ∈ listOf s0 t -> heapOf s0 !! p = Some i -> isSquashed i = false ->
  readyToCommit i = true -> committable rf (commitMaps s0 t) i).

Lemma rob_nonempty (s : S) tid p : rob_wf (core s) -> p ∈ listOf s tid -> 0 < numInstsInROB (rob (core s)).
Proof.
  intros Hwf Hp. destruct (decide (tid < MaxThreads)%nat) as [Ht|Ht].
  - rewrite (rb_total _ Hwf). pose proof (thread_le_total (rob (core s)) tid Ht).
    destruct (instList (rob (core s)) tid); [by apply elem_of_nil in Hp|cbn in *; lia].
  - rewrite (rb_threads _ Hwf) in Hp by lia. by apply elem_of_nil in Hp.
Qed.

Lemma loopEnd_here (s : S) done : loopAt s done -> loopGoes s -> loopEnd s done.
Proof. intros L [_ G]. split; [done|by left]. Qed.

(** Why a round that starts in [s] with [n] instructions committed, and leaves
    [s'], is the last: the width is used up, the policy finds no thread that can
    commit, the only thread there is has no head that is ready, or the head of
    the thread the policy chose, which stays where it is, has not been executed
    or has a fault. *)
Definition roundStops (s : S) (n : Z) (s' : S) : Prop :=
  (commitWidth cfg <= n /\ s' = s) \/
  (n < commitWidth cfg /\ exists o s1, getCommittingThread cfg s = Ok (o, s1) /\
   match o with
   | None => forall t, t ∈ candidates cfg s -> canCommitFrom s t = false
   | Some t =>
       (candidates cfg s = [t] /\ headReady s t = false) \/
       (t ∈ candidates cfg s /\ canCommitFrom s t = true /\
        exists p l i, listOf s t = p :: l /\ listOf s' t = p :: l /\ heapOf s !! p = Some i /\
          isSquashed i = false /\ (isExecuted i = false \/ is_Some (fault i)))
   end).

(** A round that chooses a thread with a head that is ready, or ends the loop. *)
Definition roundChoice (s : S) (done : list (InstPtr * bool)) (o : option ThreadID) (s2 : S) : Prop :=
  (exists t, o = Some t /\ t ∈ candidates cfg s /\ canCommitFrom s t = true /\ headReady s2 t = true /\
     canCommitNow (commitStatus s2 t) = true /\ loopGoes s2) \/
  (loopEnd s2 done /\
   match o with
   | None => forall t, t ∈ candidates cfg s -> canCommitFrom s t = false
   | Some t => candidates cfg s = [t] /\ headReady s t = false /\ headReady s2 t = false
   end).

Lemma round_ok (s : S) done :
  loopAt s done -> loopGoes s ->
  exists o s1 s2, getCommittingThread cfg s = Ok (o, s1) /\ pollInterrupt isa cfg o s1 = Ok (tt, s2) /\
    loopAt s2 done /\ core s2 = core s /\ roundChoice s done o s2.
Proof.
  intros L G. destruct (getCommittingThread_ok cfg s) as (o & s1 & E1 & Hp & Ho); [apply L|done|].
  assert (Hz1 : zeroOK s1).
  { pose proof (lo_zero _ _ L) as Hz. destruct Hp as [->|[k ->]]; [done|]. unfold zeroOK. fields. done. }
  destruct (pollInterrupt_ok isa cfg Hintr s1 o (samePrio_inv _ _ Hp (lo_inv _ _ L)) Hz1) as (s2 & E2 & Hpo).
  destruct (loopAt_polled s s1 s2 done L G Hp Hpo) as (L2 & Ec & Ep & Hcases).
  exists o, s1, s2. split_and!; try done.
  assert (Hhr : forall t, headReady s2 t = headReady s t) by (intros t; unfold headReady, headOf; by rewrite Ec).
  assert (Hends : loopEnd s2 done -> (forall t, o = Some t -> headReady s t = false) -> roundChoice s done o s2).
  { intros Hend Hn. right. split; [done|]. destruct o as [t|]; [|apply Ho].
    specialize (Hn t eq_refl). rewrite Hhr. destruct Ho as (_ & _ & Ho). by destruct (Ho Hn). }
  destruct Hcases as [[G2 Hst]|[Hnil Ht]].
  - destruct o as [t|]; [|apply Hends; [by apply loopEnd_here|done]].
    destruct (headReady s t) eqn:Er.
    + left. exists t. destruct Ho as (Ho1 & Ho2 & _). rewrite Hhr, Hst. unfold canCommitFrom. rewrite Ho2, Er. done.
    + apply Hends; [by apply loopEnd_here|]. by intros u [= <-].
  - apply Hends; [split; [done|by right]|]. intros t _. rewrite <- Hhr. unfold headReady, headOf. by rewrite Hnil.
Qed.

(** What a round leaves: the loop goes on with one instruction less in the
    buffer, or ends. *)
Definition roundDone (s : S) (n : Z) (go : bool) (n' : Z) (s' : S) (done' : list (InstPtr * bool)) : Prop :=
  n' = numCommitted done' /\ n' <= Z.max 0 (commitWidth cfg) /\
  if go then loopAt s' done' /\ loopGoes s' /\
    (Z.to_nat (numInstsInROB (rob (core s'))) < Z.to_nat (numInstsInROB (rob (core s))))%nat
  else loopEnd s' done' /\ roundStops s n s'.

Lemma commitRound_ok (s : S) done n :
  loopAt s done -> loopGoes s -> n = numCommitted done -> n <= Z.max 0 (commitWidth cfg) ->
  exists go n' s' done', commitRound isa rf ac cfg inp n s = Ok ((go, n'), s') /\ roundDone s n go n' s' done'.
Proof.
  intros L G Hn Hw. unfold commitRound. destruct (n <? commitWidth cfg) eqn:Elt; cbn [negb].
  2: { fwd. exists false, n, s, done. apply Z.ltb_ge in Elt. split; [done|]. split_and!; try done; [by apply loopEnd_here|].
       by left. }
  apply Z.ltb_lt in Elt.
  destruct (round_ok s done L G) as (o & s1 & s2 & E1 & E2 & L2 & Ec & Hround).
  rewrite (bind_run _ _ _ _ _ E1), (bind_run _ _ _ _ _ E2).
  pose proof (lo_inv _ _ L2) as HI2. pose proof (ci_rob _ HI2) as Hwf2.
  destruct Hround as [(tid & -> & Hcd & Hcf & Hrd & Hcan & G2)|(Hend & Ho)].
  2: { destruct o as [tid|].
       - destruct Ho as (Ho1 & Ho2 & Ho3). fwd. rewrite (isHeadReady_run s2 tid Hwf2), Ho3. fwd. cbn [negb]. fwd.
         exists false, n, s2, done. split; [done|]. split_and!; try done. right. split; [done|].
         exists (Some tid), s1. split; [done|]. by left.
       - fwd. exists false, n, s2, done. split; [done|]. split_and!; try done. right. split; [done|]. eauto. }
  fwd. destruct (listOf s2 tid) as [|p l] eqn:El; [by unfold headReady, headOf in Hrd; rewrite El in Hrd|].
  destruct (readHead_ok s2 tid p l Hwf2 El) as (i & Hi & Ht & _ & E3 & E4).
  assert (Er : readyToCommit i = true).
  { unfold headReady, headOf in Hrd. rewrite El in Hrd. cbn in Hrd. by rewrite Hi in Hrd. }
  rewrite E4, Er. fwd. cbn [negb].
  rewrite E3. fwd. cbn [deref]. fwd. unfold instOf. fwd. rewrite (getInst_ok _ _ _ Hi). fwd.
  rewrite bool_decide_eq_true_2 by done. fwd.
  assert (Hp2 : p ∈ listOf s2 tid) by (rewrite El; left).
  assert (Hless : forall s3 : S, numInstsInROB (rob (core s3)) = numInstsInROB (rob (core s2)) - 1 ->
    (Z.to_nat (numInstsInROB (rob (core s3))) < Z.to_nat (numInstsInROB (rob (core s))))%nat).
  { intros s3 E5. pose proof (rob_nonempty s2 tid p Hwf2 Hp2). rewrite E5, Ec. rewrite Ec in *. lia. }
  destruct (isSquashed i) eqn:Esq.
  { destruct (retireSquashed_ok s2 done tid p l i L2 G2 El Hi Er Hcan Esq) as (s3 & E5 & L3 & G3 & E6).
    rewrite (bind_run _ _ _ _ _ E5). fwd. exists true, n, s3, (done ++ [(p, false)]). split; [done|].
    split_and!; auto. rewrite numCommitted_snoc. cbn. lia. }
  assert (Hp0 : p ∈ listOf s0 tid) by (rewrite (lo_lists _ _ L2); set_solver).
  assert (Hi0 : heapOf s0 !! p = Some i) by (by rewrite <- (proj1 G2 tid p Hp2)).
  assert (Htc : tcSquash s2 tid = false).
  { apply (lo_settled _ _ L2). destruct (Hactive tid) as [?|E0]; [done|]. rewrite E0 in Hp0. by apply elem_of_nil in Hp0. }
  assert (Hcm : committable rf (commitMaps s2 tid) i).
  { apply (committable_keeps rf _ _ _ (lo_maps _ _ L2 tid)). by apply (Hcommit tid p). }
  fwd. destruct (isExecuted i) eqn:Ex; [destruct (fault i) as [f|] eqn:Ef|].
  2: { destruct (commitOne_ok s2 done tid p l i (<[tid := pcState inp p]> (pcs s2)) n L2 G2 El Hi Er Hcan Htc Esq Ex Ef Hcm)
         as (s3 & s4 & E5 & E6 & L3 & G3 & E7).
       rewrite (bind_run _ _ _ _ _ E5), (bind_run _ _ _ _ _ E6). fwd.
       exists true, (n + 1), s4, (done ++ [(p, true)]). split; [done|].
       split_and!; auto; [|lia]. rewrite numCommitted_snoc. cbn. lia. }
  all: destruct (holdOne_ok s2 done tid p l i (<[tid := pcState inp p]> (pcs s2)) n L2 G2 El Hi Er Hcan Htc Esq)
         as (s3 & E5 & Hend & El3); [rewrite ?Ex, ?Ef; eauto|done|done|];
    rewrite (bind_run _ _ _ _ _ E5); fwd; exists false, n, s3, done; (split; [done|]); split_and!; try done;
    right; (split; [done|]); exists (Some tid), s1; (split; [done|]); right; (split; [done|]); (split; [done|]);
    exists p, l, i; rewrite <- Ec; rewrite ?Ex, ?Ef; split_and!; eauto.
Qed.

(** The rounds of the loop: from [s] with [n] instructions committed it comes,
    going on all the time, to [s'] with [n']. *)
Inductive roundsTo : S -> Z -> S -> Z -> Prop :=
  | RT_here s n : roundsTo s n s n
  | RT_round s n s1 n1 s2 n2 :
      commitRound isa rf ac cfg inp n s = Ok ((true, n1), s1) -> roundsTo s1 n1 s2 n2 -> roundsTo s n s2 n2.

(** The loop as it ends: the last round, what it leaves, and why it is the last. *)
Definition loopStops (s : S) (n : Z) (s' : S) : Prop :=
  exists sl nl n', roundsTo s n sl nl /\ commitRound isa rf ac cfg inp nl sl = Ok ((false, n'), s') /\
    roundStops sl nl s'.

Lemma stageLoop_ok fuel (s : S) done n :
  loopAt s done -> loopGoes s -> n = numCommitted done -> n <= Z.max 0 (commitWidth cfg) ->
  (Z.to_nat (numInstsInROB (rob (core s))) < fuel)%nat ->
  exists s' done' n', commitLoop isa rf ac cfg inp fuel n s = Ok (n', s') /\
    loopEnd s' done' /\ loopStops s n s' /\ n' = numCommitted done' /\ n' <= Z.max 0 (commitWidth cfg).
Proof.
  revert s done n. induction fuel as [|fuel IH]; intros s done n L G Hn Hw Hfuel; [lia|].
  cbn [commitLoop]. destruct (commitRound_ok s done n L G Hn Hw) as (go & n1 & s1 & done1 & E & H1 & H2 & H3).
  rewrite (bind_run _ _ _ _ _ E). destruct go.
  - destruct H3 as (L1 & G1 & Hless).
    destruct (IH s1 done1 n1 L1 G1 H1 H2 ltac:(lia)) as (s' & done' & n' & E' & Hend & (sl & nl & nl' & R & El & Hs) & ? & ?).
    exists s', done', n'. split_and!; try done. exists sl, nl, nl'. split_and!; try done. by eapply RT_round.
  - fwd. destruct H3 as [Hend Hs]. exists s1, done1, n1. split_and!; try done. exists s, n, n1.
    split_and!; try done. apply RT_here.
Qed.

End Round.
End Loop.
