(* ===== verification/CommitCycle.v ===== *)
(** * A cycle of the commit stage

    [Commit::tick] from the squashes that go on, through interrupts, squashes,
    insertion and the commit loop, to the status it leaves: it fails no
    assertion and keeps the invariant, and what it did to each thread is
    recorded. *)

From stdpp Require Import base numbers list gmap functions sorting.
From S2P Require Import Prelude Adaptive Regs Monad RenameMap RenameHistory DynInst Stage ROB ROBProps Commit CommitInv CommitSquash CommitInsts CommitChoose CommitHead CommitLoop.

#[local] Open Scope Z_scope.

Lemma Forall2_impl_elem {A B} (P Q : A -> B -> Prop) l k :
  Forall2 P l k -> (forall x y, x ∈ l -> P x y -> Q x y) -> Forall2 Q l k.
Proof.
  induction 1 as [|x y l k Hxy _ IH]; intros H; constructor.
  - apply H; [left|done].
  - apply IH. intros x' y' Hx. apply H. by right.
Qed.

Lemma filter_all_length {A} (P : A -> Prop) `{forall x, Decision (P x)} (l : list A) :
  (length l <= length (filter P l))%nat -> Forall P l.
Proof.
  induction l as [|x l IH]; intros Hl; [constructor|]. rewrite filter_cons in Hl.
  pose proof (length_filter P l) as Hle. case_decide; cbn in Hl; [|lia].
  constructor; [done|]. apply IH. lia.
Qed.

Section Cycle.
Context {PC Intr : Type} (isa : ISA PC Intr).
Context (rf : PhysRegFile) (ac : AdaptiveConfig) (cfg : CommitConfig) (inp : CommitIn PC).
Abbreviation S := (CommitS PC Intr).
Abbreviation listOf s tid := (instList (rob (core s)) tid).
Abbreviation heapOf s := (heap (mem (core s))).

(** ** The end of the cycle *)

(** What happens after the loop: status bits of instructions, reports. *)
Record quietStep (s s' : S) : Prop := {
  ts_inv : CommitInv s';
  ts_rob : rob (core s') = rob (core s);
  ts_cpu : cpu (core s') = cpu (core s);
  ts_heap : heapKeeps (mem (core s)) (mem (core s'));
  ts_status : commitStatus s' = commitStatus s;
  ts_maps : commitMaps s' = commitMaps s;
  ts_prio : priority_list s' = priority_list s;
  ts_last : lastCommitedSeqNum s' = lastCommitedSeqNum s;
  ts_events : eventsOf (calls s') = eventsOf (calls s)
}.

Lemma quietStep_refl (s : S) : CommitInv s -> quietStep s s.
Proof. intros HI. split; try done. apply heapKeeps_refl. Qed.

Lemma quietStep_trans (s1 s2 s3 : S) : quietStep s1 s2 -> quietStep s2 s3 -> quietStep s1 s3.
Proof.
  intros [A1 A2 A3 A4 A5 A6 A7 A8 A9] [B1 B2 B3 B4 B5 B6 B7 B8 B9].
  split; try congruence. by eapply heapKeeps_trans.
Qed.

Lemma forM_tail {A} (l : list A) (f : A -> M S unit) (ok : A -> S -> Prop) (s : S) :
  (forall x s, x ∈ l -> CommitInv s -> ok x s -> exists s', f x s = Ok (tt, s') /\ quietStep s s') ->
  (forall x s s', quietStep s s' -> ok x s -> ok x s') ->
  CommitInv s -> (forall x, x ∈ l -> ok x s) ->
  exists s', forM l f s = Ok (tt, s') /\ quietStep s s'.
Proof.
  intros Hf Hok. revert s. induction l as [|x l IH]; intros s HI Hl; cbn [forM].
  - fwd. exists s. split; [done|]. by apply quietStep_refl.
  - destruct (Hf x s) as (s1 & E & T1); [left|done|apply Hl; left|].
    rewrite (bind_run _ _ _ _ _ E).
    destruct (IH ltac:(intros y t Hy; apply Hf; by right) s1 (ts_inv _ _ T1)) as (s2 & -> & T2).
    { intros y Hy. eapply Hok; [exact T1|]. apply Hl. by right. }
    exists s2. split; [done|]. by eapply quietStep_trans.
Qed.

(** A change of fields none of this reads. *)
Lemma quietStep_ext (s s' : S) :
  CommitInv s -> core s' = core s -> commitStatus s' = commitStatus s ->
  trapInFlight s' = trapInFlight s -> trapPending s' = trapPending s ->
  trapSquash s' = trapSquash s -> tcSquash s' = tcSquash s ->
  noSquashFromTC s' = noSquashFromTC s -> squashAfterInst s' = squashAfterInst s ->
  youngestSeqNum s' = youngestSeqNum s -> lastCommitedSeqNum s' = lastCommitedSeqNum s ->
  interrupt s' = interrupt s -> htmStarts s' = htmStarts s -> htmStops s' = htmStops s ->
  commitMaps s' = commitMaps s -> priority_list s' = priority_list s ->
  eventsOf (calls s') = eventsOf (calls s) -> quietStep s s'.
Proof.
  intros HI Ec E1 E2 E3 E4 E5 E6 E7 E8 E9 E10 E11 E12 E13 E14 E15.
  split; rewrite ?Ec; try done; [by eapply (inv_ext s)|apply heapKeeps_refl].
Qed.

Ltac quiet_step := eapply quietStep_ext; fields; first [done | by rewrite eventsOf_quiet].

Lemma reportEntries_ok (s : S) tid :
  CommitInv s -> exists s', reportEntries inp tid s = Ok (tt, s') /\ quietStep s s'.
Proof.
  intros HI. unfold reportEntries, tell, wrote, setChanged. fwd.
  destruct (changedROBNumEntries s tid); cbn [when]; [|fwd].
  - fwd. fields. destruct (isEmptyOf tid (rob (core s))) eqn:Ee; cbn [when]; fwd; fields; rewrite ?Ee.
    + destruct (_ && _ && _ && _); cbn [when]; fwd; eexists; (split; [reflexivity|quiet_step]).
    + destruct (_ && _ && _ && _); cbn [when]; fwd; eexists; (split; [reflexivity|quiet_step]).
  - destruct (_ && _ && _ && _); cbn [when]; fwd; eexists; (split; [reflexivity|]); [quiet_step|].
    by apply quietStep_refl.
Qed.

Lemma setCanCommit_bitsOnly i : bitsOnly i (setCanCommit i).
Proof. by apply setStatus_bitsOnly. Qed.

Lemma markCompleted_ok (s : S) :
  CommitInv s -> (forall o, o ∈ iewInsts inp -> exists p, o = Some p /\ is_Some (heapOf s !! p)) ->
  exists s', markCompletedInsts inp s = Ok (tt, s') /\ quietStep s s'.
Proof.
  intros HI Hl. unfold markCompletedInsts.
  apply (forM_tail _ _ (fun o s => exists p, o = Some p /\ is_Some (heapOf s !! p))); try done.
  - intros o s1 _ HI1 (p & -> & i & Hi). rewrite bool_decide_eq_true_2 by done. fwd. cbn [deref]. fwd.
    unfold instOf. fwd. rewrite (getInst_ok _ _ _ Hi). fwd.
    destruct (isSquashed i); cbn [negb when]; [fwd; exists s1; split; [done|by apply quietStep_refl]|].
    destruct (updateInst_ok s1 p i setCanCommit HI1 Hi (setCanCommit_bitsOnly i)) as (c' & E & [B1 B2 B3] & HI2).
    exists (s1 <| core := c' |>). split; [done|]. revert B1 B2 B3. fields. intros B1 B2 B3.
    split; fields; try done. by eapply heapKeeps_insert.
  - intros o s1 s2 T (p & -> & Hp). exists p. split; [done|]. by apply (heapKeeps_live _ _ _ (ts_heap _ _ T)).
Qed.

Lemma lookAtHead_ok (s : S) tid :
  CommitInv s -> exists s', lookAtHead tid s = Ok (tt, s') /\ quietStep s s'.
Proof.
  intros HI. pose proof (ci_rob _ HI) as Hwf. unfold lookAtHead. fwd.
  destruct (listOf s tid) as [|p l] eqn:El.
  - destruct (readHead_nil s tid Hwf El) as [-> _]. fwd. exists s. split; [done|]. by apply quietStep_refl.
  - destruct (readHead_ok s tid p l Hwf El) as (i & Hi & _ & -> & -> & _). fwd. cbn [deref]. fwd.
    unfold instOf, call. fwd. rewrite (getInst_ok _ _ _ Hi). fwd.
    destruct (readyToCommit i); fwd; eexists; (split; [reflexivity|quiet_step]).
Qed.

Lemma updateStatus_ok (s : S) :
  CommitInv s -> exists s', updateStatus cfg s = Ok (tt, s') /\ quietStep s s'.
Proof.
  intros HI. unfold updateStatus, setChanged, call.
  match goal with |- context [forM (commitActive cfg) ?f] =>
    destruct (forM_tail (commitActive cfg) f (fun _ _ => True) s) as (s1 & E & T1) end; try done.
  { intros t s1 _ HI1 _. fwd. fields. destruct (_ || _); cbn [when]; fwd; eexists; (split; [reflexivity|quiet_step]). }
  rewrite (bind_run _ _ _ _ _ E). fwd. pose proof (ts_inv _ _ T1) as HI1.
  case_decide; [|case_decide]; fwd; eexists; (split; [reflexivity|]);
    (eapply quietStep_trans; [exact T1|quiet_step]).
Qed.

(** ** What the cycle relies on *)

(** The instructions rename hands over this cycle, and those of a thread that
    have not been squashed on the way. *)
Definition incoming : list InstPtr := take (Z.to_nat (renameWidth cfg)) (fromRename inp).
Definition squashedAt (s : S) (p : InstPtr) : bool := from_option isSquashed false (heapOf s !! p).
Definition incomingOf (s : S) (t : ThreadID) : list InstPtr :=
  filter (fun p => threadAt (mem (core s)) p = Some t /\ squashedAt s p = false) incoming.

(** The active threads are threads of the machine, every thread with
    instructions in the buffer is one of them, and so is thread 0 when it may
    have to take an interrupt.  The stages around keep to their part: what rename
    hands over fits the buffer ([in_room], [in_size], asserted by [getInsts] and
    [insertInst]), and what is ready is [committable], which includes what
    [commitHead] and [commitInsts] assert of an unexecuted head ([cm_waits]) and
    of a store conditional ([cm_sc]). *)
Record cycleOK (s : S) : Prop := {
  cy_nodup : NoDup (commitActive cfg);
  cy_threads : forall t, t ∈ commitActive cfg -> (t < numThreads cfg)%nat;
  cy_zero : fullSystem cfg = true \/ interrupt s <> NoFault -> 0%nat ∈ commitActive cfg;
  cy_lists : forall t, t ∈ commitActive cfg \/ listOf s t = [];
  cy_iew : iewOK inp s;
  cy_incoming : incomingOK s incoming;
  cy_inActive : forall p t, p ∈ incoming -> threadAt (mem (core s)) p = Some t -> t ∈ commitActive cfg;
  cy_insts : forall o, o ∈ iewInsts inp -> exists p, o = Some p /\ is_Some (heapOf s !! p);
  cy_commit : forall t p i, p ∈ listOf s t \/ p ∈ incoming -> heapOf s !! p = Some i -> threadNumber i = t ->
    isSquashed i = false -> readyToCommit i = true -> committable rf (commitMaps s t) i
}.

(** The interrupt controller has an interrupt to give when it says so; no PC
    event is registered. *)
Context (Hintr : forall x, intr_checkInterrupts isa x = true -> intr_getInterrupt isa x <> NoFault).
Context (Hev : forall t a, pcEvent isa t a = None).

(** ** The squashes *)

Record propagated (s s' : S) : Prop := {
  pr_inv : CommitInv s';
  pr_core : core s' = core s;
  pr_same : forall t, sameThread s s' t;
  pr_maps : commitMaps s' = commitMaps s;
  pr_prio : priority_list s' = priority_list s;
  pr_htm : htmStarts s' = htmStarts s /\ htmStops s' = htmStops s;
  pr_last : lastCommitedSeqNum s' = lastCommitedSeqNum s;
  pr_calls : calls s' = calls s;
  pr_intr : interrupt s' <> NoFault -> fullSystem cfg = true \/ interrupt s <> NoFault
}.

Lemma propagate_ok (s : S) :
  CommitInv s ->
  exists s', when (checkInterrupts isa cfg s) (propagateInterrupt isa) s = Ok (tt, s') /\ propagated s s'.
Proof.
  intros HI. destruct (checkInterrupts isa cfg s) eqn:Ec; cbn [when].
  2: { fwd. exists s. split; [done|]. split; auto. intros t. apply sameThread_refl. }
  unfold checkInterrupts in Ec. apply andb_prop in Ec as [Ef _].
  unfold propagateInterrupt, tell. fwd. destruct (_ || _ || _ || _ || _) eqn:Eg; fwd.
  { exists s. split; [done|]. split; auto. intros t. apply sameThread_refl. }
  rewrite !orb_false_iff in Eg. destruct Eg as ((((E1 & _) & _) & _) & _). apply bool_decide_eq_false in E1.
  assert (Hinv : forall s' : S, core s' = core s -> (forall t, sameThread s s' t) ->
    htmStarts s' = htmStarts s -> htmStops s' = htmStops s -> CommitInv s').
  { intros s' E2 E3 E4 E5. destruct HI as [H1 H2 H3 H4 H5 H6 H7]. split; rewrite ?E2, ?E4, ?E5; try done.
    - intros t. destruct (H5 t) as [T1 T2 T3 T4 T5 T6 T7 T8 T9], (E3 t) as [D1 D2 D3 D4 D5 D6 D7 D8 D9 D10 D11].
      split; rewrite ?D1, ?D2, ?D3, ?D4, ?D5, ?D6, ?D7, ?D9, ?E2; try done.
      unfold coveredBy. by rewrite D8, E2.
    - intros _. by rewrite (sm_status _ _ _ (E3 0%nat)). }
  destruct (bool_decide _); cbn [when]; fwd; eexists; (split; [reflexivity|]);
    (split; fields; try done; [apply Hinv; fields; try done|by left]);
    intros t; split; fields; done.
Qed.

(** Where the cycle starts, and with which interrupt. *)
Definition start (s : S) (x : Fault) : S :=
  s <| wroteToTimeBuffer := false |> <| nextStatus := Inactive |>
    <| toIEW := fun _ => noInfo |> <| calls := [] |> <| interrupt := x |>.

Lemma marksOnly_propagated (s s1 s2 s3 : S) :
  marksOnly s s1 -> propagated s1 s2 -> marksOnly s2 s3 -> marksOnly (s <| interrupt := interrupt s2 |>) s3.
Proof.
  intros H [P1 P2 P3 P4 P5 [P6 P6'] P7 P8 P9] K. eapply marksOnly_trans; [|exact K]. 
  destruct H as [H1 H2 H3 H4 H5 H6 H7 H8 H9 [H10 H10'] H11 H12 H13].
  split; fields; rewrite ?P2, ?P4, ?P5, ?P6, ?P6', ?P7, ?P8; try done.
Qed.

Record squashPhase (s s2 : S) : Prop := {
  sp_inv : CommitInv s2;
  sp_marks : exists x, marksOnly (start s x) s2;
  sp_zero : zeroOK s2;
  sp_settled : forall t, t ∈ commitActive cfg -> settled s2 t;
  sp_status : forall t, commitStatus s2 t = commitStatus s t \/ commitStatus s2 t = CommitROBSquashing \/
    (commitStatus s t = CommitROBSquashing /\ commitStatus s2 t = CommitRunning);
  sp_trap : forall t n, t ∈ commitActive cfg -> trapSquash s t = true -> squashReaches (core s2) t n;
  sp_iew : forall t, t ∈ commitActive cfg -> squashIgnored inp s2 t \/ squashReaches (core s2) t (iewTarget inp t)
}.

Lemma squashPhase_ok (s : S) :
  CommitInv s -> cycleOK s ->
  exists s1 sP s2 k, forM (commitActive cfg) (continueSquash inp) (start s (interrupt s)) = Ok (tt, s1) /\
    when (checkInterrupts isa cfg s1) (propagateInterrupt isa) s1 = Ok (tt, sP) /\
    squashThreads ac inp (commitActive cfg) 0%nat sP = Ok (k, s2) /\
    squashPhase s s2 /\
    k = length (filter (fun t => commitStatus s2 t = CommitROBSquashing) (commitActive cfg)).
Proof.
  intros HI C.
  assert (HIa : CommitInv (start s (interrupt s))) by (eapply inv_ext; [exact HI|..]; unfold start; fields; done).
  destruct (continueSquashes_ok inp (commitActive cfg) _ HIa (cy_nodup _ C)) as (s1 & E1 & HI1 & Hm1 & Hs1 & Ht1 & Hst1).
  destruct (propagate_ok s1 HI1) as (sP & E2 & P).
  assert (HoP : iewOK inp sP).
  { intros t Ht. rewrite (pr_core _ _ P). apply (iewOK_marks inp _ s1 Hm1); [|done].
    unfold iewOK, start. fields. apply C. }
  destruct (squashThreads_ok ac inp (commitActive cfg) 0%nat sP (pr_inv _ _ P) HoP (cy_nodup _ C))
    as (s2 & k & E3 & HI2 & Hm2 & Hs2 & Ha2 & Hk).
  exists s1, sP, s2, k. split_and!; try done. split; try done.
  - exists (interrupt sP). pose proof (marksOnly_propagated _ _ _ _ Hm1 P Hm2) as H. revert H. unfold start. done.
  - intros Hi. rewrite (mo_intr _ _ Hm2) in Hi. apply (pr_intr _ _ P) in Hi. rewrite (mo_intr _ _ Hm1) in Hi.
    apply (cy_zero _ C) in Hi. destruct (Ha2 _ Hi) as [(S1 & S2 & S3) _]. split; [done|]. rewrite S3. by intros [].
  - intros t Ht. by destruct (Ha2 t Ht).
  - intros t. pose proof (Hst1 t) as H1. rewrite <- (sm_status _ _ _ (pr_same _ _ P t)) in H1.
    revert H1. unfold start. fields. intros H1.
    destruct (decide (t ∈ commitActive cfg)) as [Ht|Ht].
    + destruct (Ha2 t Ht) as (_ & _ & _ & [->|?]); [|auto]. destruct H1; auto.
    + rewrite (sm_status _ _ _ (Hs2 t Ht)). destruct H1; auto.
  - intros t n Ht Hts. destruct (Ha2 t Ht) as (_ & _ & Htr & _). apply Htr.
    rewrite (sm_trapSquash _ _ _ (pr_same _ _ P t)), Ht1. unfold start. by fields.
  - intros t Ht. by destruct (Ha2 t Ht) as (_ & ? & _).
Qed.

(** ** Taking instructions, and the loop *)

(** Whether a thread takes instructions. *)
Definition takes (st : CommitStatus) : bool :=
  match st with CommitROBSquashing | TrapPending => false | _ => true end.

Section Middle.
Context (s s2 : S) (HI : CommitInv s) (C : cycleOK s) (Q : squashPhase s s2).

Lemma phase_lists : instList (rob (core s2)) = instList (rob (core s)).
Proof. destruct (sp_marks _ _ Q) as [x H]. apply (mo_lists _ _ H). Qed.

Lemma phase_maps : commitMaps s2 = commitMaps s.
Proof. destruct (sp_marks _ _ Q) as [x H]. rewrite (mo_maps _ _ H). unfold start. by fields. Qed.

Lemma phase_last : lastCommitedSeqNum s2 = lastCommitedSeqNum s.
Proof. destruct (sp_marks _ _ Q) as [x H]. rewrite (mo_last _ _ H). unfold start. by fields. Qed.

Lemma phase_events : eventsOf (calls s2) = ([], []).
Proof. destruct (sp_marks _ _ Q) as [x H]. rewrite (mo_events _ _ H). unfold start. by fields. Qed.

Lemma phase_heap p :
  heapOf s2 !! p = heapOf s !! p \/
  exists t i i', p ∈ listOf s t /\ heapOf s !! p = Some i /\ heapOf s2 !! p = Some i' /\
    isSquashed i' = true /\ seqNum i' = seqNum i /\ threadNumber i' = threadNumber i.
Proof. destruct (sp_marks _ _ Q) as [x H]. apply (mo_heap _ _ H p). Qed.

Lemma phase_seqAt p : seqAt (mem (core s2)) p = seqAt (mem (core s)) p.
Proof. destruct (sp_marks _ _ Q) as [x H]. apply (marksOnly_seqAt _ _ p H). Qed.

Lemma phase_threadAt p : threadAt (mem (core s2)) p = threadAt (mem (core s)) p.
Proof.
  unfold threadAt. destruct (phase_heap p) as [->|(t & i & i' & _ & -> & -> & _ & _ & E)]; [done|].
  cbn. by rewrite E.
Qed.

Lemma incoming_notIn p t : p ∈ incoming -> p ∉ listOf s t.
Proof.
  intros Hp Ht. destruct (in_insts _ _ (cy_incoming _ C) p Hp) as (i & Hi & _ & _ & _ & _ & _ & H).
  destruct (rb_insts _ (ci_rob _ HI) _ _ Ht) as (j & Hj & E & _). assert (j = i) as -> by congruence.
  rewrite E in H. specialize (H p Ht). unfold seqAt in H. rewrite Hi in H. cbn in H. lia.
Qed.

Lemma incoming_heap p : p ∈ incoming -> heapOf s2 !! p = heapOf s !! p.
Proof.
  intros Hp. destruct (phase_heap p) as [?|(t & _ & _ & Ht & _)]; [done|]. by destruct (incoming_notIn p t Hp).
Qed.

Lemma phase_incoming : incomingOK s2 incoming.
Proof.
  pose proof (cy_incoming _ C) as [H1 H2 H3 H4]. destruct (sp_marks _ _ Q) as [x M].
  pose proof (mo_max _ _ M) as E1. pose proof (mo_num _ _ M) as E2.
  pose proof (mo_size _ _ M) as E3. pose proof (mo_cpu _ _ M) as E4.
  revert E1 E2 E3 E4. unfold start. fields. intros E1 E2 E3 E4. split.
  - intros p Hp. rewrite (incoming_heap p Hp), E4, phase_last, phase_lists.
    destruct (H1 p Hp) as (i & ? & ? & ? & ? & ? & ? & H). exists i. split_and!; try done; try lia.
    intros q Hq. rewrite phase_seqAt. auto.
  - eapply StronglySorted_weaken; [|exact H2]. intros p q. by rewrite !phase_threadAt, !phase_seqAt.
  - intros t. rewrite E1, phase_lists.
    rewrite (list_filter_iff' _ (fun q => threadAt (mem (core s)) q = Some t))
      by (intros q _; by rewrite phase_threadAt). apply H3.
  - by rewrite E2, E3.
Qed.

Lemma phase_accepted t :
  filter (fun p => threadAt (mem (core s2)) p = Some t /\ accepted s2 p = true) incoming =
  if takes (commitStatus s2 t) then incomingOf s t else [].
Proof.
  destruct (takes (commitStatus s2 t)) eqn:Et.
  - apply list_filter_iff'. intros p Hp. rewrite phase_threadAt. unfold accepted, squashedAt.
    rewrite (incoming_heap p Hp). unfold threadAt. destruct (heapOf s !! p) as [i|]; [|naive_solver].
    cbn. split; intros [[= <-] H]; (split; [done|]).
    + apply andb_prop in H as [[H _]%andb_prop _]. by apply negb_true_iff in H.
    + rewrite H. by destruct (commitStatus s2 (threadNumber i)).
  - rewrite (list_filter_iff' _ (fun _ => False)); [by induction incoming|].
    intros p Hp. split; [|done]. intros [H1 H2]. unfold accepted, threadAt in *.
    destruct (heapOf s2 !! p) as [i|]; [|done]. injection H1 as <-.
    apply andb_prop in H2 as [[_ H2]%andb_prop H3]. apply bool_decide_eq_true in H2, H3.
    by destruct (commitStatus s2 (threadNumber i)).
Qed.

(** Between the squashes and the loop. *)
Context (s3 : S) (J : inserted s2 s3 incoming).

Lemma middle_heap p i :
  heapOf s3 !! p = Some i -> isSquashed i = false ->
  exists j, heapOf s !! p = Some j /\ (i = j \/ (p ∈ incoming /\ i = setStatus RobEntry true j)).
Proof.
  intros Hi Hs. destruct (is_heap _ _ _ J p) as [E|(Hp & j & Hj & Hj')].
  - rewrite E in Hi. destruct (phase_heap p) as [E2|(t & j & j' & _ & _ & Hj & Hsq & _)].
    + rewrite E2 in Hi. eauto.
    + congruence.
  - rewrite (incoming_heap p Hp) in Hj. exists j. split; [done|]. right. split; [done|]. congruence.
Qed.

Lemma middle_seqAt p : seqAt (mem (core s3)) p = seqAt (mem (core s)) p.
Proof.
  rewrite <- phase_seqAt. unfold seqAt. by destruct (is_heap _ _ _ J p) as [->|(_ & j & -> & ->)].
Qed.

Lemma middle_threadAt p : threadAt (mem (core s3)) p = threadAt (mem (core s)) p.
Proof.
  rewrite <- phase_threadAt. unfold threadAt. by destruct (is_heap _ _ _ J p) as [->|(_ & j & -> & ->)].
Qed.

Lemma middle_list t :
  listOf s3 t = listOf s t ++ (if takes (commitStatus s2 t) then incomingOf s t else []).
Proof. by rewrite (is_list _ _ _ J), phase_lists, phase_accepted. Qed.

Lemma middle_active t : t ∈ commitActive cfg \/ listOf s3 t = [].
Proof.
  rewrite middle_list. destruct (cy_lists _ C t) as [?| ->]; [by left|]. cbn.
  destruct (takes _); [|by right]. destruct (incomingOf s t) as [|p l] eqn:El; [by right|left].
  assert (Hp : p ∈ incomingOf s t) by (rewrite El; left). apply list_elem_of_filter in Hp as [[Ht _] Hp].
  by apply (cy_inActive _ C p).
Qed.

Lemma committable_inserted maps i : committable rf maps i -> committable rf maps (setStatus RobEntry true i).
Proof. intros [H1 H2 H3 H4]. split; try done. Qed.

Lemma middle_committable t p i :
  p ∈ listOf s3 t -> heapOf s3 !! p = Some i -> isSquashed i = false -> readyToCommit i = true ->
  committable rf (commitMaps s3 t) i.
Proof.
  intros Hp Hi Hs Hr. rewrite (is_maps _ _ _ J), phase_maps.
  destruct (rb_insts _ (ci_rob _ (is_inv _ _ _ J)) _ _ Hp) as (i' & Hi' & Ht & _).
  assert (i' = i) as -> by congruence. destruct (middle_heap p i Hi Hs) as (j & Hj & [->|[Hin ->]]).
  - eapply (cy_commit _ C t p); try done. rewrite middle_list in Hp.
    apply elem_of_app in Hp as [?|Hp]; [by left|right]. destruct (takes _); [|by apply elem_of_nil in Hp].
    by apply list_elem_of_filter in Hp as [_ ?].
  - apply committable_inserted. eapply (cy_commit _ C t p); eauto.
Qed.

Lemma phase_live p : is_Some (heapOf s !! p) -> is_Some (heapOf s2 !! p).
Proof. destruct (phase_heap p) as [->|(_ & _ & i' & _ & _ & -> & _)]; eauto. Qed.

Lemma middle_live p : is_Some (heapOf s !! p) -> is_Some (heapOf s3 !! p).
Proof.
  intros Hp%phase_live. destruct (is_heap _ _ _ J p) as [->|(_ & j & _ & ->)]; eauto.
Qed.

Lemma middle_loopAt : loopAt rf cfg s3 s3 [].
Proof.
  destruct (is_flags _ _ _ J) as (F1 & F2 & F3). split; try done.
  - apply J.
  - intros t Ht. rewrite F2. apply (sp_settled _ _ Q t Ht).
  - unfold zeroOK. rewrite (is_intr _ _ _ J), F2, F3, (is_cpu _ _ _ J). apply Q.
  - by rewrite app_nil_r.
  - by intros t a.
  - intros t. by exists [].
  - apply heapKeeps_refl.
Qed.
End Middle.

(** ** The cycle *)

(** The instruction did not commit; if it is still in the buffer it is squashed,
    or the buffer is on its way to squash it. *)
Definition squashedOut (s' : S) (done : list (InstPtr * bool)) (t : ThreadID) (p : InstPtr) : Prop :=
  ((p, true) ∉ done) /\
  (p ∈ listOf s' t ->
    (exists i, heapOf s' !! p = Some i /\ isSquashed i = true) \/
    (is_Some (squashIt (rob (core s')) t) /\ squashedSeqNum (rob (core s')) t < seqAt (mem (core s')) p)).

(** What a cycle did: the status [st] each thread had after the squashes, and
    what left the buffer, with [true] for an instruction that committed. *)
Record cycleDone (s : S) (st : ThreadID -> CommitStatus) (done : list (InstPtr * bool)) (s' : S) : Prop := {
  cd_inv : CommitInv s';
  cd_status : forall t, st t = commitStatus s t \/ st t = CommitROBSquashing \/
    (commitStatus s t = CommitROBSquashing /\ st t = CommitRunning);
  cd_probes : probesOf (calls s') = done;
  cd_lists : forall t, listOf s t ++ (if takes (st t) then incomingOf s t else []) =
    leftOf s t done ++ listOf s' t;
  cd_left : forall p, (p, true) ∈ done -> exists i, heapOf s !! p = Some i /\ readyToCommit i = true /\
    isSquashed i = false /\ isExecuted i = true /\ fault i = None;
  cd_stuck : forall t, canCommitNow (st t) = false -> leftOf s t done = [];
  cd_width : numCommitted done <= Z.max 0 (commitWidth cfg);
  cd_last : forall t, lastCommitedSeqNum s' t = lastOf s t done;
  cd_maps : forall t, mapsTo rf s t (committedOf s t done) (commitMaps s' t);
  cd_live : forall p, is_Some (heapOf s !! p) -> is_Some (heapOf s' !! p);
  cd_trap : forall t p, t ∈ commitActive cfg -> trapSquash s t = true -> p ∈ listOf s t -> squashedOut s' done t p;
  cd_iew : forall t p, t ∈ commitActive cfg -> iewSquash (fromIEW inp t) = true -> st t <> TrapPending ->
    p ∈ listOf s t -> iewTarget inp t < seqAt (mem (core s)) p -> squashedOut s' done t p;
  cd_traps : trapsOf (calls s') = [] \/
    exists t, trapsOf (calls s') = [t] /\ commitStatus s' t = TrapPending /\
      ((numCommitted done = 0 /\ hasStoresToWB inp t = false /\
        exists p l i, listOf s' t = p :: l /\ heapOf s !! p = Some i /\ isSquashed i = false /\
          isExecuted i = true /\ is_Some (fault i)) \/
       (t = 0%nat /\ cpuInstList (cpu (core s')) = []))
}.

(** A squash IEW asks for reaches everything younger, unless a trap is pending. *)
Lemma phase_iew (s s2 : S) t :
  cycleOK s -> squashPhase s s2 -> t ∈ commitActive cfg -> iewSquash (fromIEW inp t) = true ->
  commitStatus s2 t <> TrapPending -> squashReaches (core s2) t (iewTarget inp t).
Proof.
  intros C Q Ht Hs Hst. destruct (sp_iew _ _ Q t Ht) as [Hi|?]; [|done].
  destruct (Hi Hs) as [?|Hlt]; [done|]. intros p Hp Hlt'.
  apply (th_young _ _ (ci_threads _ (sp_inv _ _ Q) t) p Hp).
  destruct (cy_iew _ C t Hs) as [Hr _]. revert Hlt'. unfold iewTarget. case_match; [|lia].
  rewrite u64_small by (unfold in_u64; lia). lia.
Qed.

Lemma leftOf_elem (s : S) t p b done :
  (p, b) ∈ done -> threadAt (mem (core s)) p = Some t -> p ∈ leftOf s t done.
Proof.
  intros Hp Ht. unfold leftOf. apply list_elem_of_fmap. exists (p, b). split; [done|].
  by apply list_elem_of_filter.
Qed.

Lemma leftOf_same (s s3 : S) t done :
  (forall p, threadAt (mem (core s3)) p = threadAt (mem (core s)) p) -> leftOf s3 t done = leftOf s t done.
Proof. intros H. unfold leftOf. f_equal. apply list_filter_iff'. intros x _. by rewrite H. Qed.

Lemma lastOf_same (s s3 : S) t done :
  (forall p, threadAt (mem (core s3)) p = threadAt (mem (core s)) p) ->
  (forall p, seqAt (mem (core s3)) p = seqAt (mem (core s)) p) ->
  lastCommitedSeqNum s3 = lastCommitedSeqNum s -> lastOf s3 t done = lastOf s t done.
Proof.
  intros H1 H2 H3. unfold lastOf. rewrite H3. generalize (lastCommitedSeqNum s t).
  induction done as [|x done IH]; intros n; cbn; [done|]. rewrite H1, H2. apply IH.
Qed.

Lemma mapsTo_same (s s3 : S) t done m :
  (forall p, threadAt (mem (core s3)) p = threadAt (mem (core s)) p) -> commitMaps s3 = commitMaps s ->
  (forall p i, (p, true) ∈ done -> heapOf s3 !! p = Some i ->
     exists j, heapOf s !! p = Some j /\ forall d, destsAre i d -> destsAre j d) ->
  mapsTo rf s3 t (committedOf s3 t done) m -> mapsTo rf s t (committedOf s t done) m.
Proof.
  intros H1 H2 H3 (ds & Hds & E). exists ds. rewrite H2 in E. split; [|done].
  assert (Ec : committedOf s t done = committedOf s3 t done).
  { unfold committedOf. f_equal. apply list_filter_iff'. intros x _. by rewrite H1. }
  rewrite Ec. eapply Forall2_impl_elem; [exact Hds|]. intros p d Hp (i & Hi & Hd).
  apply list_elem_of_fmap in Hp as ([q b] & -> & [[Hb _] Hq]%list_elem_of_filter). cbn in Hb, Hi |- *. subst b.
  destruct (H3 q i Hq Hi) as (j & Hj & Hdj). eauto.
Qed.

(** What a squash reached does not commit in the loop. *)
Lemma reaches_out (s s2 s3 s4 : S) done t p n :
  rob_wf (core s) -> squashPhase s s2 -> inserted s2 s3 incoming ->
  (forall p, (p, true) ∈ done -> exists i, heapOf s3 !! p = Some i /\ readyToCommit i = true /\
    isSquashed i = false /\ isExecuted i = true /\ fault i = None) ->
  (forall t, canCommitNow (commitStatus s2 t) = false -> leftOf s t done = []) ->
  heapKeeps (mem (core s3)) (mem (core s4)) ->
  squashIt (rob (core s4)) = squashIt (rob (core s3)) ->
  squashedSeqNum (rob (core s4)) = squashedSeqNum (rob (core s3)) ->
  p ∈ listOf s t -> n < seqAt (mem (core s)) p -> squashReaches (core s2) t n -> squashedOut s4 done t p.
Proof.
  intros Hwf Q J Hok Hstuck Hk E1 E2 Hp Hlt Hr.
  destruct (Hr p) as [(i & Hi & Hsq)|[Hit Hn]].
  { by rewrite (phase_lists s s2 Q). }
  { by rewrite (phase_seqAt s s2 Q). }
  - assert (Hi3 : exists i3, heapOf s3 !! p = Some i3 /\ isSquashed i3 = true).
    { destruct (is_heap _ _ _ J p) as [E|(_ & j & Hj & Hj')]; [rewrite E; eauto|].
      rewrite Hj in Hi. injection Hi as ->. eauto. }
    destruct Hi3 as (i3 & Hi3 & Hs3). split.
    + intros Hd. destruct (Hok p Hd) as (i' & Hi' & _ & H2 & _). congruence.
    + intros _. left. destruct (Hk p i3 Hi3) as (i4 & Hi4 & Hs4 & _). exists i4. split; [done|congruence].
  - pose proof (th_squashing _ _ (ci_threads _ (sp_inv _ _ Q) t) Hit) as Hst.
    destruct (rb_insts _ Hwf _ _ Hp) as (i & Hi & Ht & _). split.
    + intros Hd. assert (Hin : p ∈ leftOf s t done).
      { eapply leftOf_elem; [exact Hd|]. unfold threadAt. rewrite Hi. cbn. by rewrite Ht. }
      rewrite Hstuck in Hin by (by rewrite Hst). by apply elem_of_nil in Hin.
    + intros _. right. rewrite E1, E2, (is_it _ _ _ J), (is_sn _ _ _ J). split; [done|].
      destruct (middle_live s s2 Q s3 J p) as [i3 Hi3]; [eauto|]. destruct (Hk p i3 Hi3) as (i4 & Hi4 & _ & Hs4).
      assert (E : seqAt (mem (core s4)) p = seqAt (mem (core s2)) p); [|by rewrite E].
      rewrite (phase_seqAt s s2 Q), <- (middle_seqAt s s2 Q s3 J). unfold seqAt. by rewrite Hi3, Hi4.
Qed.

(** Instructions are taken and committed unless every thread squashes. *)
Lemma loopPhase_ok (s s2 s3 s4 : S) done :
  CommitInv s -> cycleOK s -> squashPhase s s2 -> inserted s2 s3 incoming ->
  loopEnd rf cfg inp s3 s4 done -> numCommitted done <= Z.max 0 (commitWidth cfg) ->
  cycleDone s (commitStatus s2) done s4.
Proof.
  intros HI C Q J [[L1 L2 L3 L4 L5 L6 L7 L8 L9 L10 L11 [L12 L13]] Ht] Hw.
  pose proof (middle_threadAt s s2 Q s3 J) as Hth. pose proof (middle_seqAt s s2 Q s3 J) as Hsn.
  pose proof (phase_events s s2 Q) as [= Ep Et]. pose proof (is_calls _ _ _ J) as Ec.
  assert (Hleft : forall t, leftOf s3 t done = leftOf s t done) by (intros t; by apply leftOf_same).
  assert (Hstuck : forall t, canCommitNow (commitStatus s2 t) = false -> leftOf s t done = []).
  { intros t Hc. rewrite <- (is_status _ _ _ J) in Hc. destruct (L9 t Hc) as [E _].
    specialize (L5 t). rewrite E, Hleft in L5. symmetry. by apply (app_inv_tail (listOf s3 t)). }
  assert (Hok : forall p, (p, true) ∈ done -> exists i, heapOf s3 !! p = Some i /\ readyToCommit i = true /\
    isSquashed i = false /\ isExecuted i = true /\ fault i = None).
  { intros p Hp. rewrite Forall_forall in L6. exact (L6 _ Hp). }
  assert (Hout : forall t p n, p ∈ listOf s t -> n < seqAt (mem (core s)) p -> squashReaches (core s2) t n ->
    squashedOut s4 done t p).
  { intros t p n Hp Hlt Hr. eapply (reaches_out s s2 s3 s4); try done. by apply HI. }
  split; try done.
  - apply Q.
  - by rewrite L4, Ec, Ep.
  - intros t. by rewrite <- (middle_list s s2 HI C Q s3 J t), L5, Hleft.
  - intros p Hp. destruct (Hok p Hp) as (i & Hi & H1 & H2 & H3 & H4).
    destruct (middle_heap s s2 HI C Q s3 J p i Hi H2) as (j & Hj & [->|[_ ->]]); eauto 10.
  - intros t. rewrite L7. apply lastOf_same; [done|done|]. by rewrite (is_last _ _ _ J), (phase_last s s2 Q).
  - intros t. eapply mapsTo_same; [exact Hth|by rewrite (is_maps _ _ _ J), (phase_maps s s2 Q)| |apply L10].
    intros p i Hp Hi. destruct (Hok p Hp) as (i' & Hi' & _ & H2 & _). assert (i' = i) as -> by congruence.
    destruct (middle_heap s s2 HI C Q s3 J p i Hi H2) as (j & Hj & [->|[_ ->]]); eauto.
  - intros p Hp. apply (heapKeeps_live _ _ _ L11). by apply (middle_live s s2 Q s3 J).
  - intros t p Ha Hs Hp. apply (Hout t p (-1)); [done| |by apply (sp_trap _ _ Q)].
    pose proof (ci_seq _ HI t p Hp). lia.
  - intros t p Ha Hs Hst Hp Hlt. by apply (Hout t p _ Hp Hlt), (phase_iew s s2 t C Q).
  - rewrite Ec, Et in Ht. destruct Ht as [Ht|(t & E & Hst & H)]; [by left|right].
    rewrite Ec, Et in E. exists t. split_and!; try done.
    destruct H as [(H1 & H2 & p & l & i & El & Hi & H3 & H4 & H5)|?]; [left|by right].
    split_and!; try done. destruct (middle_heap s s2 HI C Q s3 J p i Hi H3) as (j & Hj & [->|[_ ->]]); eauto 10.
Qed.

(** When every thread squashes, nothing is taken and nothing leaves. *)
Lemma allSquash_ok (s s2 : S) :
  CommitInv s -> cycleOK s -> squashPhase s s2 ->
  length (filter (fun t => commitStatus s2 t = CommitROBSquashing) (commitActive cfg)) = numThreads cfg ->
  cycleDone s (commitStatus s2) [] s2.
Proof.
  intros HI C Q Hk. pose proof (phase_events s s2 Q) as [= Ep Et].
  assert (Hall : forall t, t ∈ commitActive cfg -> commitStatus s2 t = CommitROBSquashing).
  { assert (Hle : (length (commitActive cfg) <= numThreads cfg)%nat).
    { rewrite <- (length_seq (numThreads cfg) 0). apply submseteq_length, NoDup_submseteq; [apply C|].
      intros t Ht. apply elem_of_seq. pose proof (cy_threads _ C t Ht). lia. }
    intros t Ht. revert t Ht. apply Forall_forall. eapply filter_all_length. rewrite Hk. done. }
  split; try done.
  - apply Q.
  - apply Q.
  - intros t. cbn. rewrite (phase_lists s s2 Q). destruct (takes (commitStatus s2 t)) eqn:Et'; [|by rewrite app_nil_r].
    destruct (incomingOf s t) as [|p l] eqn:El; [by rewrite app_nil_r|].
    assert (Hp : p ∈ incomingOf s t) by (rewrite El; left). apply list_elem_of_filter in Hp as [[Ht _] Hp].
    rewrite Hall in Et' by (by apply (cy_inActive _ C p)). done.
  - by intros p ?%elem_of_nil.
  - change (0 <= Z.max 0 (commitWidth cfg)). lia.
  - intros t. by rewrite (phase_last s s2 Q).
  - intros t. exists []. by rewrite (phase_maps s s2 Q).
  - apply (phase_live s s2 Q).
  - intros t p Ha Hs Hp. split; [by intros ?%elem_of_nil|]. intros Hp2.
    apply (sp_trap _ _ Q t (-1) Ha Hs p Hp2). pose proof (ci_seq _ (sp_inv _ _ Q) t p Hp2). lia.
  - intros t p Ha Hs Hst Hp Hlt. split; [by intros ?%elem_of_nil|]. intros Hp2.
    apply (phase_iew s s2 t C Q Ha Hs Hst p Hp2). by rewrite (phase_seqAt s s2 Q).
  - by left.
Qed.

(** What comes after the loop does not change what the cycle did. *)
Lemma squashedOut_tail (s4 s5 : S) done t p :
  quietStep s4 s5 -> squashedOut s4 done t p -> squashedOut s5 done t p.
Proof.
  intros [T1 T2 T3 T4 T5 T6 T7 T8 T9] [H1 H2]. split; [done|]. rewrite T2. intros Hp.
  destruct (rb_insts _ (ci_rob _ T1) t p) as (j' & Hj' & _); [by rewrite T2|].
  destruct (H2 Hp) as [(i & Hi & Hs)|[Hit Hn]].
  - left. destruct (T4 p i Hi) as (i' & Hi' & Hs' & _). exists i'. split; [done|congruence].
  - right. split; [done|]. unfold seqAt in Hn |- *.
    destruct (heapOf s4 !! p) as [i|] eqn:Hi.
    + destruct (T4 p i Hi) as (i' & -> & _ & E). cbn in *. lia.
    + rewrite Hj'. cbn in *. pose proof (ci_seq _ T1 t p) as Hq. rewrite T2 in Hq. specialize (Hq Hp).
      unfold seqAt in Hq. rewrite Hj' in Hq. cbn in Hq. lia.
Qed.

Lemma cycleDone_tail (s s4 s5 : S) st done :
  cycleDone s st done s4 -> quietStep s4 s5 -> cycleDone s st done s5.
Proof.
  intros [C1 C2 C3 C4 C5 C6 C7 C8 C9 C12 C10 C13 C11] T. pose proof T as [T1 T2 T3 T4 T5 T6 T7 T8 [= T9 T10]].
  split; rewrite ?T2, ?T3, ?T5, ?T6, ?T8, ?T9, ?T10; try done; try (intros; eapply squashedOut_tail; eauto).
  - intros p Hp. by apply (heapKeeps_live _ _ _ T4), C12.
Qed.

(** Marking the stage active before taking instructions. *)
Lemma squashPhase_next (s s2 : S) n : squashPhase s s2 -> squashPhase s (s2 <| nextStatus := n |>).
Proof.
  intros [Q1 [x Q2] Q3 Q4 Q5 Q6 Q7]. split; fields; try done.
  - eapply inv_ext; [exact Q1|..]; fields; done.
  - exists x. destruct Q2. split; fields; done.
Qed.

Lemma start_eq (s : S) :
  s <| wroteToTimeBuffer := false |> <| nextStatus := Inactive |> <| toIEW := fun _ => noInfo |> <| calls := [] |>
  = start s (interrupt s).
Proof. by destruct s. Qed.

(** What is left of [commit] once the squashes are done. *)
Lemma commitRest_ok (s s2 : S) k :
  CommitInv s -> cycleOK s -> commitActive cfg <> [] -> squashPhase s s2 ->
  k = length (filter (fun t => commitStatus s2 t = CommitROBSquashing) (commitActive cfg)) ->
  exists done s', when (negb (k =? numThreads cfg)%nat) (_ ← getInsts cfg inp; commitInsts isa rf ac cfg inp) s2 =
      Ok (tt, s') /\ cycleDone s (commitStatus s2) done s'.
Proof.
  intros HI C Hne Q Hk. destruct (k =? numThreads cfg)%nat eqn:Ek; cbn [negb when].
  { apply Nat.eqb_eq in Ek. fwd. exists [], s2. split; [done|]. apply allSquash_ok; try done. congruence. }
  destruct (getInsts_ok s2 incoming (sp_inv _ _ Q) (phase_incoming s s2 HI C Q)) as (s3 & E & J).
  unfold getInsts. fold incoming. rewrite (bind_run _ _ _ _ _ E).
  unfold commitInsts. fwd.
  destruct (stageLoop_ok isa rf ac cfg inp Hintr Hev s3 Hne (middle_active s s2 HI C Q s3 J)
    (middle_committable s s2 HI C Q s3 J) (Datatypes.S (Z.to_nat (numInstsInROB (rob (core s3))))) s3 [] 0)
    as (s4 & done & n & E4 & Hend & _ & -> & Hw); try done.
  - by apply (middle_loopAt s s2).
  - by split.
  - reflexivity.
  - lia.
  - lia.
  - rewrite (bind_run _ _ _ _ _ E4). fwd. exists done, s4. split; [done|]. by apply (loopPhase_ok s s2 s3).
Qed.

Lemma tick_ok (s : S) :
  CommitInv s -> cycleOK s -> commitActive cfg <> [] ->
  exists st done s', tick isa rf ac cfg inp s = Ok (tt, s') /\ cycleDone s st done s'.
Proof.
  intros HI C Hne. destruct (squashPhase_ok s HI C) as (s1 & sP & s2 & k & E1 & E2 & E3 & Q & Hk).
  unfold tick. fwd. rewrite decide_False by done. rewrite (start_eq s).
  rewrite (bind_run _ _ _ _ _ E1). unfold commit. fwd. rewrite (bind_run _ _ _ _ _ E2). fwd. rewrite (bind_run _ _ _ _ _ E3). fwd.
  assert (Hn : exists sn, when (negb (k =? 0)%nat) (modify (fun s => s <| nextStatus := Active |>)) s2 = Ok (tt, sn) /\
    squashPhase s sn /\ commitStatus sn = commitStatus s2).
  { destruct (k =? 0)%nat; cbn [negb when]; fwd; eexists; (split; [reflexivity|]); [done|].
    split; [by apply squashPhase_next|by fields]. }
  destruct Hn as (sn & En & Qn & Est). rewrite (bind_run _ _ _ _ _ En). fwd. clear En.
  destruct (commitRest_ok s sn k HI C Hne Qn) as (done & s4 & E4 & D); [by rewrite Est|].
  rewrite (bind_run _ _ _ _ _ E4). fwd.
  destruct (forM_tail (commitActive cfg) (reportEntries inp) (fun _ _ => True) s4) as (s5 & E5 & T5); try done.
  { intros t x _ Hx _. by apply reportEntries_ok. }
  { apply D. }
  rewrite (bind_run _ _ _ _ _ E5).
  assert (Hlive : forall o, o ∈ iewInsts inp -> exists p, o = Some p /\ is_Some (heapOf s5 !! p)).
  { intros o Ho. destruct (cy_insts _ C o Ho) as (p & -> & Hp). exists p. split; [done|].
    apply (heapKeeps_live _ _ _ (ts_heap _ _ T5)), (cd_live _ _ _ _ D), Hp. }
  destruct (markCompleted_ok s5 (ts_inv _ _ T5) Hlive) as (s6 & E6 & T6). rewrite (bind_run _ _ _ _ _ E6).
  destruct (forM_tail (commitActive cfg) lookAtHead (fun _ _ => True) s6) as (s7 & E7 & T7); try done.
  { intros t x _ Hx _. by apply lookAtHead_ok. }
  { apply T6. }
  rewrite (bind_run _ _ _ _ _ E7). fwd.
  assert (Hw : exists s8, when (wroteToTimeBuffer s7) (call (Activity ActivityThisCycle)) s7 = Ok (tt, s8) /\ quietStep s7 s8).
  { pose proof (ts_inv _ _ T7) as HI7. unfold call. destruct (wroteToTimeBuffer s7); cbn [when]; fwd; eexists; (split; [reflexivity|]).
    - quiet_step.
    - by apply quietStep_refl. }
  destruct Hw as (s8 & E8 & T8). rewrite (bind_run _ _ _ _ _ E8).
  destruct (updateStatus_ok s8 (ts_inv _ _ T8)) as (s9 & E9 & T9).
  exists (commitStatus s2), done, s9. split; [done|]. rewrite Est in D.
  do 5 (eapply cycleDone_tail; [|eassumption]). exact D.
Qed.

End Cycle.
