(* ===== verification/CommitProps.v ===== *)
(** * The commit stage as a transition system

    Cycles, trap events, drains and writes through thread contexts (other than
    over a pending squash-after), in any order, with the rest of the machine
    changing the instructions in between. The invariant holds in every reachable
    state, so every cycle completes; what a cycle does is stated for every
    reachable state. *)

From stdpp Require Import base numbers list gmap functions sorting.
From S2P Require Import Prelude Adaptive Regs Monad RenameMap RenameHistory DynInst Stage ROB ROBProps Commit CommitInv CommitSquash CommitInsts CommitChoose CommitHead CommitLoop CommitCycle RenameInit AdaptiveProps.


#[local] Open Scope Z_scope.

Lemma ok_inj {A} (x y : A) : Ok (tt, x) = Ok (tt, y) -> y = x.
Proof. by intros [= ->]. Qed.

Section System.
Context {PC Intr : Type} (isa : ISA PC Intr) (rf : PhysRegFile) (ac : AdaptiveConfig).
Abbreviation S := (CommitS PC Intr).
Abbreviation listOf s tid := (instList (rob (core s)) tid).
Abbreviation heapOf s := (heap (mem (core s))).

(** What the other stages may do to the instructions between two steps: those
    in the buffer keep their identity, stay squashed once they are, and stay in
    the list of the CPU. *)
Definition outside (c : Core) (u : CpuInsts) (m : InstMem) : Prop :=
  forall t p, p ∈ instList (rob c) t -> p ∈ cpuInstList u /\
    exists i i', heap (mem c) !! p = Some i /\ heap m !! p = Some i' /\
      seqNum i' = seqNum i /\ threadNumber i' = threadNumber i /\ isInROB i' = isInROB i /\
      squashable i' /\ (isSquashed i = true -> isSquashed i' = true).

(** The states of the stage.  A write through a thread context is taken only
    while the thread has no squash-after pending: the source has no such guard,
    and [Machine.stale_squashAfter] shows an assertion failing after such a
    write. *)
Inductive commitReach : S -> Prop :=
  | CR_init cfg c maps x a w s :
      Commit_ctor isa cfg c maps x a w = Ok s -> rob_wf c -> (forall t, instList (rob c) t = []) ->
      0 < squashWidth (rob c) -> 0 < numEntries (rob c) -> commitReach s
  | CR_outside s u m x :
      commitReach s -> outside (core s) u m ->
      commitReach (s <| core := core s <| cpu := u |> <| mem := m |> |> <| intr := x |>)
  | CR_cycle cfg inp s s' :
      commitReach s -> cycleOK rf cfg inp s -> commitActive cfg <> [] ->
      tick isa rf ac cfg inp s = Ok (tt, s') -> commitReach s'
  | CR_trap tid s s' :
      commitReach s -> trapInFlight s tid = true -> processTrapEvent tid s = Ok (tt, s') -> commitReach s'
  | CR_tc tid s s' :
      commitReach s -> commitStatus s tid <> SquashAfterPending ->
      conditionalSquash tid s = Ok (tt, s') -> commitReach s'
  | CR_drain s s' : commitReach s -> drain s = Ok (tt, s') -> commitReach s'
  | CR_resume s s' : commitReach s -> drainResume s = Ok (tt, s') -> commitReach s'.

(** ** The steps keep the invariant *)

Lemma ctor_inv cfg c maps x a w (s : S) :
  Commit_ctor isa cfg c maps x a w = Ok s -> rob_wf c -> (forall t, instList (rob c) t = []) ->
  0 < squashWidth (rob c) -> 0 < numEntries (rob c) -> CommitInv s.
Proof.
  unfold Commit_ctor. intros H Hwf Hnil Hw Hn. inv_ok. split; cbn; try done.
  - intros t p. rewrite Hnil. by intros ?%elem_of_nil.
  - intros t p. rewrite Hnil. by intros ?%elem_of_nil.
  - intros t. split; cbn; try done.
    + intros [it Hit]. pose proof (rb_squash _ Hwf t) as Hs. rewrite Hit, Hnil in Hs.
      by destruct Hs as (_ & [|] & l2 & ? & _).
    + intros p. cbn. rewrite Hnil. by intros ?%elem_of_nil.
    + intros p. rewrite Hnil. by intros ?%elem_of_nil.
Qed.

Lemma outside_seqAt c u m t p :
  outside c u m -> p ∈ instList (rob c) t -> seqAt m p = seqAt (mem c) p.
Proof.
  intros Ho Hp. destruct (Ho t p Hp) as (_ & i & i' & Hi & Hi' & Hs & _). unfold seqAt. by rewrite Hi, Hi'.
Qed.

Lemma outside_wf c u m :
  rob_wf c -> outside c u m -> rob_wf (c <| cpu := u |> <| mem := m |>).
Proof.
  intros [H1 H2 H3 H4 H5 H6 H7] Ho. split; cbn; try done.
  - intros t p Hp. destruct (Ho t p Hp) as (_ & i & i' & Hi & Hi' & Hs & Ht & Hr & Hq & _).
    destruct (H5 t p Hp) as (j & Hj & J1 & J2 & _). assert (j = i) as -> by congruence.
    exists i'. split_and!; try done; congruence.
  - intros t. eapply ordered_ext; [|apply H6]. intros p Hp. by eapply outside_seqAt.
  - intros t. specialize (H7 t). unfold squashing_ok in *. destruct (squashIt (rob c) t) as [it|]; [|done].
    destruct H7 as (Hd & l1 & l2 & Hl & Hall). split; [done|]. exists l1, l2. split; [done|].
    rewrite Forall_forall in Hall |- *. intros p Hp.
    destruct (Ho t p) as (_ & i & i' & Hi & Hi' & _ & _ & _ & _ & Hsq); [rewrite Hl; set_solver|].
    destruct (Hall p Hp) as (j & Hj & Hs). assert (j = i) as -> by congruence. eauto.
Qed.

Lemma outside_inv (s : S) u m x :
  CommitInv s -> outside (core s) u m ->
  CommitInv (s <| core := core s <| cpu := u |> <| mem := m |> |> <| intr := x |>).
Proof.
  intros [H1 H2 H3 H4 H5 H6 H7] Ho. split; fields; cbn [rob cpu mem upd_field]; try done.
  - by apply outside_wf.
  - intros t p Hp. rewrite (outside_seqAt _ u m t p Ho Hp). eauto.
  - intros t p Hp. apply (Ho t p Hp).
  - intros t. destruct (H5 t) as [T1 T2 T3 T4 T5 T6 T7 T8 T9].
    split; fields; cbn [rob cpu mem upd_field]; try done.
    + unfold coveredBy. fields. intros p Hp Hlt. cbn in *. rewrite (outside_seqAt _ u m t p Ho Hp) in *.
      destruct (T8 p Hp Hlt) as [(i & Hi & Hs)|?]; [left|by right].
      destruct (Ho t p Hp) as (_ & j & j' & Hj & Hj' & _ & _ & _ & _ & Hsq).
      assert (j = i) as -> by congruence. eauto.
    + intros p. fields. cbn. intros Hp. rewrite (outside_seqAt _ u m t p Ho Hp). auto.
Qed.

(** Flags of one thread change. *)
Lemma flags_inv (s s' : S) tid :
  CommitInv s -> core s' = core s -> (forall t, t <> tid -> sameThread s s' t) -> threadOK s' tid ->
  interrupt s' = interrupt s -> htmStarts s' = htmStarts s -> htmStops s' = htmStops s ->
  commitStatus s' = commitStatus s -> CommitInv s'.
Proof.
  intros HI Ec Hs Hok E1 E2 E3 E4. eapply (inv_squashStep s s' tid); try done.
  - rewrite Ec. apply squashStep_refl, HI.
  - by rewrite E4.
Qed.

Lemma trapEvent_inv tid (s s' : S) :
  CommitInv s -> trapInFlight s tid = true -> processTrapEvent tid s = Ok (tt, s') -> CommitInv s'.
Proof.
  unfold processTrapEvent. fwd. intros HI Ht ->%ok_inj.
  destruct (ci_threads _ HI tid) as [T1 T2 T3 T4 T5 T6 T7 T8 T9].
  eapply (flags_inv s _ tid); fields; try done.
  intros t Hne. split; fields; rewrite ?fn_lookup_insert_ne by done; done.
Qed.

Lemma conditionalSquash_ok tid (s : S) :
  CommitInv s -> commitStatus s tid <> SquashAfterPending ->
  exists s', conditionalSquash tid s = Ok (tt, s') /\ CommitInv s'.
Proof.
  intros HI Hst. destruct (ci_threads _ HI tid) as [T1 T2 T3 T4 T5 T6 T7 T8 T9].
  unfold conditionalSquash. fwd. destruct (negb (trapPending s tid) && negb (noSquashFromTC s tid)) eqn:Eg;
    cbn [when]; [|fwd; eauto].
  apply andb_prop in Eg as [E1%negb_true_iff E2%negb_true_iff]. rewrite T2 in E1.
  unfold cpuSquashFromTC, setNoSquashFromTC, generateTCEvent. fwd. fields. rewrite E1. cbn [negb]. fwd.
  eexists. split; [reflexivity|]. eapply (flags_inv s _ tid); fields; try done.
  - intros t Hne. split; fields; rewrite ?fn_lookup_insert_ne by done; done.
  - split; fields; rewrite ?fn_lookup_insert; try done.
Qed.

Context (Hintr : forall x, intr_checkInterrupts isa x = true -> intr_getInterrupt isa x <> NoFault).
Context (Hev : forall t a, pcEvent isa t a = None).

Lemma reach_inv (s : S) : commitReach s -> CommitInv s.
Proof.
  induction 1 as [cfg c maps x a w s E Hwf Hnil Hw Hn|s u m x _ IH Ho|cfg inp s s' _ IH C Hne E|
    tid s s' _ IH Ht E|tid s s' _ IH Ht E|s s' _ IH E|s s' _ IH E].
  - by eapply ctor_inv.
  - by apply outside_inv.
  - destruct (tick_ok isa rf ac cfg inp Hintr Hev s IH C Hne) as (st & done & s1 & E1 & D).
    assert (s1 = s') as -> by congruence. apply D.
  - by eapply trapEvent_inv.
  - destruct (conditionalSquash_ok tid s IH Ht) as (s1 & E1 & D). congruence.
  - revert E. unfold drain. fwd. intros ->%ok_inj. eapply inv_ext; [exact IH|..]; fields; done.
  - revert E. unfold drainResume. fwd. intros ->%ok_inj. eapply inv_ext; [exact IH|..]; fields; done.
Qed.

(** ** The order of what leaves *)

Lemma ordered_app_intro m (l k : list InstPtr) :
  ordered m l -> ordered m k -> (forall p q, p ∈ l -> q ∈ k -> seqAt m p < seqAt m q) -> ordered m (l ++ k).
Proof. intros H1 H2 H3. by apply StronglySorted_app_2. Qed.

Lemma ordered_prefix m (l k : list InstPtr) : ordered m (l ++ k) -> ordered m l.
Proof. apply StronglySorted_app_1_l. Qed.

Section Incoming.
Context (cfg : CommitConfig) (inp : CommitIn PC) (s : S) (C : cycleOK rf cfg inp s).

Lemma incomingOf_elem t p :
  p ∈ incomingOf cfg inp s t ->
  exists i, heapOf s !! p = Some i /\ threadNumber i = t /\ lastCommitedSeqNum s t < seqNum i /\
    forall q, q ∈ listOf s t -> seqAt (mem (core s)) q < seqNum i.
Proof.
  intros [[Ht _] Hp]%list_elem_of_filter.
  destruct (in_insts _ _ (cy_incoming _ _ _ _ C) p Hp) as (i & Hi & _ & _ & _ & Hl & _ & Hq).
  unfold threadAt in Ht. rewrite Hi in Ht. injection Ht as <-. eauto.
Qed.

Lemma incomingOf_ordered t : ordered (mem (core s)) (incomingOf cfg inp s t).
Proof.
  pose proof (in_order _ _ (cy_incoming _ _ _ _ C)) as Ho.
  pose proof (StronglySorted_filter _ (fun p => threadAt (mem (core s)) p = Some t /\ squashedAt s p = false) _ Ho) as H.
  unfold ordered, incomingOf. revert H. generalize (incoming cfg inp). intros l.
  induction l as [|p l IH]; [constructor|]. rewrite filter_cons. case_decide as Hd; [|done].
  intros [H1 H2]%StronglySorted_inv. constructor; [by apply IH|]. rewrite Forall_forall in H2 |- *.
  intros q Hq. apply (H2 q Hq). apply list_elem_of_filter in Hq as [[Hq _] _]. destruct Hd. congruence.
Qed.

(** A thread's instructions, with those that come, are in program order and
    younger than what it committed. *)
Lemma stream_ordered t (b : bool) :
  CommitInv s ->
  let l := listOf s t ++ (if b then incomingOf cfg inp s t else []) in
  ordered (mem (core s)) l /\ Forall (fun p => lastCommitedSeqNum s t < seqAt (mem (core s)) p) l.
Proof.
  intros HI l. unfold l. pose proof (th_last _ _ (ci_threads _ HI t)) as Hl. destruct b.
  - split.
    + apply ordered_app_intro; [apply (rb_order _ (ci_rob _ HI))|apply incomingOf_ordered|].
      intros p q Hp Hq. destruct (incomingOf_elem t q Hq) as (i & Hi & _ & _ & H).
      specialize (H p Hp). unfold seqAt at 2. by rewrite Hi.
    + apply Forall_app. split; apply Forall_forall; [done|]. intros q Hq.
      destruct (incomingOf_elem t q Hq) as (i & Hi & _ & H & _). unfold seqAt. by rewrite Hi.
  - rewrite app_nil_r. split; [apply (rb_order _ (ci_rob _ HI))|]. by apply Forall_forall.
Qed.
End Incoming.

Lemma tick_done cfg inp (s s' : S) :
  commitReach s -> cycleOK rf cfg inp s -> commitActive cfg <> [] -> tick isa rf ac cfg inp s = Ok (tt, s') ->
  CommitInv s /\ exists st, cycleDone rf cfg inp s st (probesOf (calls s')) s'.
Proof.
  intros Hr C Hne E. pose proof (reach_inv s Hr) as HI. split; [done|].
  destruct (tick_ok isa rf ac cfg inp Hintr Hev s HI C Hne) as (st & done & s1 & E1 & D).
  assert (s1 = s') as -> by congruence. exists st. by rewrite (cd_probes _ _ _ _ _ _ _ D).
Qed.

(** ** A thread that left the priority list *)

(** Under round robin a thread that was deactivated is never chosen again. *)
Lemma deactivated_never_chosen t (s s' : S) :
  rob_wf (core s) -> t ∉ priority_list s ->
  forall o, roundRobin s = Ok (o, s') -> o <> Some t /\ t ∉ priority_list s'.
Proof.
  intros Hwf Ht o. rewrite (roundRobin_run s Hwf).
  destruct (list_find _ (priority_list s)) as [[k u]|] eqn:Ef.
  - intros E. injection E as <- E. subst s'. fields. apply list_find_Some in Ef as (Hk & _ & _).
    apply list_elem_of_lookup_2 in Hk as Hu. split; [intros [= ->]; done|].
    intros [Hd|Hd%list_elem_of_singleton]%elem_of_app; [|by subst u].
    apply Ht. apply list_elem_of_lookup in Hd as [j Hj].
    destruct (decide (j < k)%nat).
    + rewrite list_lookup_delete_lt in Hj by done. by eapply list_elem_of_lookup_2.
    + rewrite list_lookup_delete_ge in Hj by lia. by eapply list_elem_of_lookup_2.
  - intros E. injection E as <- E. by subst s'.
Qed.

(** ** The theorems *)

(** C7: The bookkeeping of the commit stage never fails, provided the stages around
    it keep their part ([cycleOK]): rename hands over live instructions in
    program order for which the buffer has room; a ready instruction that has
    not been executed is of a kind that waits for commit, a ready store
    conditional has completed, renamed destinations are mapped, and no
    transaction is in flight.  These conditions include three assertions of the
    stage itself (the room for what rename hands over, the kind of an unexecuted
    head, the completed store conditional), which only the other stages can
    ensure.  Then, in every state reached by cycles, trap events, drains and
    writes through thread contexts that do not fall on a pending squash-after, a
    cycle runs to its end: the assertions on pending traps, on squashes from
    traps, thread contexts and squash-afters, on interrupts, on the squash
    iterators and on retiring hold, no null pointer is followed, and the loop
    over the heads stops within one round for each instruction in the buffer.  A
    write through a thread context without a pending squash-after then completes
    as well. *)
Theorem commit_cycle_safe cfg inp (s : S) :
  commitReach s -> cycleOK rf cfg inp s -> commitActive cfg <> [] ->
  exists s', tick isa rf ac cfg inp s = Ok (tt, s') /\ commitReach s' /\
    forall tid, commitStatus s' tid <> SquashAfterPending ->
      exists s'', conditionalSquash tid s' = Ok (tt, s'').
Proof.
  intros Hr C Hne. pose proof (reach_inv s Hr) as HI.
  destruct (tick_ok isa rf ac cfg inp Hintr Hev s HI C Hne) as (st & done & s' & E & D).
  exists s'. split_and!; [done|by eapply CR_cycle|]. intros tid Hst.
  destruct (conditionalSquash_ok tid s' (cd_inv _ _ _ _ _ _ _ D) Hst) as (s'' & ? & _). eauto.
Qed.

(** C6: Commit is in order.  What leaves the buffer in a cycle is, for each thread,
    a prefix of what it had in the buffer followed by what rename handed over;
    it is in program order and younger than everything committed before.  An
    instruction that commits was ready, executed, free of faults and not
    squashed; no more than [commitWidth] commit; the last sequence number of
    the thread is that of its last commit.  What rename handed over is dropped
    only when squashed, or when the thread squashes or waits for a trap. *)
Theorem commit_in_order cfg inp (s s' : S) :
  commitReach s -> cycleOK rf cfg inp s -> commitActive cfg <> [] -> tick isa rf ac cfg inp s = Ok (tt, s') ->
  numCommitted (probesOf (calls s')) <= Z.max 0 (commitWidth cfg) /\
  (forall p, (p, true) ∈ probesOf (calls s') -> exists i, heapOf s !! p = Some i /\
     readyToCommit i = true /\ isSquashed i = false /\ isExecuted i = true /\ fault i = None) /\
  forall t, exists st,
    (st = commitStatus s t \/ st = CommitROBSquashing \/ (commitStatus s t = CommitROBSquashing /\ st = CommitRunning)) /\
    listOf s t ++ (if takes st then incomingOf cfg inp s t else []) =
      leftOf s t (probesOf (calls s')) ++ listOf s' t /\
    ordered (mem (core s)) (leftOf s t (probesOf (calls s'))) /\
    Forall (fun p => lastCommitedSeqNum s t < seqAt (mem (core s)) p) (leftOf s t (probesOf (calls s'))) /\
    lastCommitedSeqNum s' t = lastOf s t (probesOf (calls s')).
Proof.
  intros Hr C Hne E. destruct (tick_done cfg inp s s' Hr C Hne E) as (HI & st & D).
  split_and!; [apply D|apply D|]. intros t. exists (st t).
  destruct (stream_ordered cfg inp s C t (takes (st t)) HI) as [H1 H2].
  rewrite (cd_lists _ _ _ _ _ _ _ D t) in H1, H2. apply Forall_app in H2 as [H2 _].
  split_and!; [apply D|apply D|by eapply ordered_prefix|done|apply D].
Qed.

(** C8: Traps are precise. While a trap of a thread is pending its part of the
    buffer does not change; when the event of the trap has come, everything of
    the thread that is in the buffer is squashed, or reached by the squash in
    progress, and nothing of it commits. A cycle schedules at most one trap: for
    the head of a thread, executed with a fault, when nothing committed in this
    cycle before it and no store of the thread waits to be written back, or for
    an interrupt of thread 0, when no instruction is in flight at all. *)
Theorem commit_precise_traps cfg inp (s s' : S) :
  commitReach s -> cycleOK rf cfg inp s -> commitActive cfg <> [] -> tick isa rf ac cfg inp s = Ok (tt, s') ->
  (forall t, commitStatus s t = TrapPending -> listOf s' t = listOf s t) /\
  (forall t p, t ∈ commitActive cfg -> trapSquash s t = true -> p ∈ listOf s t ->
     squashedOut s' (probesOf (calls s')) t p) /\
  (trapsOf (calls s') = [] \/
   exists t, trapsOf (calls s') = [t] /\ commitStatus s' t = TrapPending /\
     ((numCommitted (probesOf (calls s')) = 0 /\ hasStoresToWB inp t = false /\
       exists p l i, listOf s' t = p :: l /\ heapOf s !! p = Some i /\ isSquashed i = false /\
         isExecuted i = true /\ is_Some (fault i)) \/
      (t = 0%nat /\ cpuInstList (cpu (core s')) = []))).
Proof.
  intros Hr C Hne E. destruct (tick_done cfg inp s s' Hr C Hne E) as (HI & st & D).
  split_and!; [|apply D|apply D]. intros t Ht.
  assert (Hst : st t = TrapPending \/ st t = CommitROBSquashing).
  { destruct (cd_status _ _ _ _ _ _ _ D t) as [?|[?|[? _]]]; [left|right|]; congruence. }
  pose proof (cd_lists _ _ _ _ _ _ _ D t) as Hl. rewrite (cd_stuck _ _ _ _ _ _ _ D t) in Hl by (by destruct Hst as [-> | ->]).
  destruct Hst as [Hst|Hst]; rewrite Hst in Hl; cbn in Hl; by rewrite app_nil_r in Hl.
Qed.

(** C9: A squash the back end asks for (a mispredicted branch, a memory order
    violation) takes effect in the cycle it arrives: whatever the thread had in
    the buffer that is younger than the squash does not commit, and is squashed
    or about to be reached by the squash in progress.  Only a pending trap, which
    squashes everything anyway, takes precedence. *)
Theorem commit_obeys_squash cfg inp (s s' : S) t p :
  commitReach s -> cycleOK rf cfg inp s -> commitActive cfg <> [] -> tick isa rf ac cfg inp s = Ok (tt, s') ->
  t ∈ commitActive cfg -> iewSquash (fromIEW inp t) = true -> commitStatus s t <> TrapPending ->
  p ∈ listOf s t -> iewTarget inp t < seqAt (mem (core s)) p -> squashedOut s' (probesOf (calls s')) t p.
Proof.
  intros Hr C Hne E Ht Hs Hst. destruct (tick_done cfg inp s s' Hr C Hne E) as (HI & st & D).
  apply (cd_iew _ _ _ _ _ _ _ D t p Ht Hs).
  destruct (cd_status _ _ _ _ _ _ _ D t) as [->|[->|[_ ->]]]; done.
Qed.

(** C10: The commit rename map follows the instructions that commit, in order, and
    nothing else: after a cycle it is the map before with the renamed
    destinations of what the thread committed set one after the other. *)
Theorem commit_map_follows cfg inp (s s' : S) t :
  commitReach s -> cycleOK rf cfg inp s -> commitActive cfg <> [] -> tick isa rf ac cfg inp s = Ok (tt, s') ->
  mapsTo rf s t (committedOf s t (probesOf (calls s'))) (commitMaps s' t).
Proof. intros Hr C Hne E. destruct (tick_done cfg inp s s' Hr C Hne E) as (HI & st & D). apply D. Qed.

(** C11: The commit loop leaves nothing undone.  It ends within one round for each
    instruction in the buffer, and a round is the last only when the commit
    width is used up, when the policy finds no thread that can commit, when the
    only thread there is has no head that is ready, or when the head of the
    thread the policy chose in this very round, ready and not squashed, has not
    been executed or has a fault; that head then stays in the buffer.  This is
    for a machine without PC events, in a state that satisfies the stage's
    invariant. *)
Theorem commitInsts_maximal cfg inp (s : S) :
  CommitInv s -> zeroOK s -> (forall t, t ∈ commitActive cfg -> tcSquash s t = false) ->
  commitActive cfg <> [] -> (forall t, t ∈ commitActive cfg \/ listOf s t = []) ->
  (forall t p i, p ∈ listOf s t -> heapOf s !! p = Some i -> isSquashed i = false ->
     readyToCommit i = true -> committable rf (commitMaps s t) i) ->
  exists s', commitInsts isa rf ac cfg inp s = Ok (tt, s') /\ loopStops isa rf ac cfg inp s 0 s'.
Proof.
  intros HI Hz Htc Hne Ha Hc. unfold commitInsts. fwd.
  destruct (stageLoop_ok isa rf ac cfg inp Hintr Hev s Hne Ha Hc
    (Datatypes.S (Z.to_nat (numInstsInROB (rob (core s))))) s [] 0) as (s' & done & n & E & _ & Hstop & _); try done.
  - split; try done; [by rewrite app_nil_r|by intros t a|intros t; by exists []|apply heapKeeps_refl].
  - by split.
  - reflexivity.
  - lia.
  - lia.
  - rewrite (bind_run _ _ _ _ _ E). fwd. eauto.
Qed.

(** C12: Round robin is fair: a thread at position [k] of the priority list that
    can commit whenever a thread is chosen is chosen after at most [k] others,
    whatever happens to the stage in between. *)
Theorem roundRobin_fair (at_ after_ : nat -> S) (pick : nat -> option ThreadID) t k :
  (forall n, rob_wf (core (at_ n))) ->
  (forall n, roundRobin (at_ n) = Ok (pick n, after_ n)) ->
  (forall n, priority_list (at_ (1 + n)%nat) = priority_list (after_ n)) ->
  priority_list (at_ 0%nat) !! k = Some t ->
  (forall n, (n <= k)%nat -> canCommitFrom (at_ n) t = true) ->
  exists n, (n <= k)%nat /\ pick n = Some t.
Proof.
  revert at_ after_ pick. induction k as [|k IH]; intros at_ after_ pick Hwf Hr Hp Hk Hc.
  - destruct (roundRobin_advances (at_ 0%nat) t 0 (Hwf 0%nat) Hk (Hc 0%nat ltac:(lia))) as (o & s' & E & [->|(k' & ? & _)]);
      [|done]. rewrite Hr in E. exists 0%nat. split; [lia|congruence].
  - destruct (roundRobin_advances (at_ 0%nat) t _ (Hwf 0%nat) Hk (Hc 0%nat ltac:(lia))) as (o & s' & E & [->|(k' & [= <-] & Hk')]).
    { rewrite Hr in E. exists 0%nat. split; [lia|congruence]. }
    destruct (IH (fun n => at_ (1 + n)%nat) (fun n => after_ (1 + n)%nat) (fun n => pick (1 + n)%nat)) as (n & Hn & Hpick); auto.
    + rewrite Hp. rewrite Hr in E. by injection E as _ ->.
    + intros n Hn. apply Hc. lia.
    + exists (1 + n)%nat. split; [lia|done].
Qed.

(** C13: The other policy takes the oldest: among the active threads whose head can
    commit it chooses one with the least sequence number, as long as these
    numbers fit the 32 bits it keeps them in. *)
Theorem oldestReady_oldest cfg (s : S) :
  rob_wf (core s) ->
  (forall t, t ∈ commitActive cfg -> canCommitFrom s t = true -> in_u32 (headSeq s t)) ->
  exists o, oldestReady cfg s = Ok (o, s) /\
    match o with
    | None => forall t, t ∈ commitActive cfg -> canCommitFrom s t = false
    | Some t => t ∈ commitActive cfg /\ canCommitFrom s t = true /\
        forall u, u ∈ commitActive cfg -> canCommitFrom s u = true -> headSeq s t <= headSeq s u
    end.
Proof.
  intros Hwf Hs. destruct (oldestReady_run cfg s Hwf) as (acc & E & Hacc). exists (fst <$> acc). split; [done|].
  destruct acc as [[t n]|]; [|done]. destruct Hacc as (H1 & H2 & _ & H3). cbn. split_and!; auto.
Qed.

End System.

(** ** A machine of two threads *)

Module Machine.

Definition isa : ISA Z bool :=
  {| instAddr := fun pc => pc; microPC := fun _ => 0; newPCState := 0;
     advancePC := fun _ pc => pc + 4; invoke := fun _ _ _ => 256;
     isSyscallRetryFault := fun _ => false; isGenericHtmFailureFault := fun _ => false;
     genericHtmFailureFault := fun _ => 1%positive;
     intr_checkInterrupts := fun b => b; intr_getInterrupt := fun b => if b then Some 2%positive else NoFault;
     intr_clearAll := fun _ => false; intr_updateIntrInfo := fun b => b;
     pcEvent := fun _ _ => None; numPCEvents := 0%nat |}.

Lemma isa_interrupts x : intr_checkInterrupts isa x = true -> intr_getInterrupt isa x <> NoFault.
Proof. by destruct x. Qed.

Lemma isa_noEvents (t : ThreadID) (a : Z) : pcEvent isa t a = None.
Proof. done. Qed.

Definition config : CommitConfig :=
  {| commitPolicy := RoundRobin; renameWidth := 8; commitWidth := 4; numThreads := 2;
     trapLatency := 13; syscallRetryLatency := 10000; fullSystem := false;
     commitActive := [0%nat; 1%nat] |}.

Definition ac : AdaptiveConfig := AdaptiveProps.Witness.c.

(** Thread 0 runs instructions 1, 2 and 4, thread 1 runs 3 and 5; the first
    writes integer register 1, renamed to the last physical one. *)
Definition static (dests : list RegId) : StaticInst := mkStatic [] dests 0 (fun _ => false).
Definition plain (sn : Z) (tid : ThreadID) : DynInst := DynInst_ctor (static []) 64 sn tid.
Definition adds : DynInst :=
  DynInst_ctor (static [RenameInit.r 1]) 64 1 0
    <| flatDestIdx := [RenameInit.r 1] |> <| destIdx := [last (intRegIds sampleFile)] |>.

Definition mem0 : InstMem :=
  mkMem (<[1%positive := adds]> (<[2%positive := plain 2 0]> (<[3%positive := plain 3 1]>
        (<[4%positive := plain 4 0]> (<[5%positive := plain 5 1]> ∅))))) ∅.

Definition inFlight : list InstPtr := [1%positive; 2%positive; 3%positive; 4%positive; 5%positive].

Definition core0 : Core :=
  mkCore (ROB_ctor Dynamic 8 1 0 2 [0%nat; 1%nat] (fun _ => ROBRunning)) (mkCpuInsts inFlight [] false) mem0.

Definition quiet : IewSquash Z :=
  {| iewMispredictInst := None; iewSquashedSeqNum := 0; iewPC := None; iewSquash := false;
     iewBranchTaken := false; iewIncludeSquashInst := false |}.

Definition input (l : list InstPtr) (iew : ThreadID -> IewSquash Z) : CommitIn Z :=
  {| fromRename := l; fromIEW := iew; iewInsts := []; hasStoresToWB := fun _ => false;
     isThreadExiting := fun _ => false; pcState := fun _ => 64; htmUid := fun _ => 0 |}.

(** The first cycle takes the instructions; then the back end executes 1, 2,
    3 and 5, and 2 faults; meanwhile thread 1 is told to squash what follows 3. *)
Definition taking : CommitIn Z := input inFlight (fun _ => quiet).
Definition idle : CommitIn Z := input [] (fun _ => quiet).
Definition squashing : CommitIn Z :=
  input [] (fun t => if decide (t = 1%nat)
    then {| iewMispredictInst := Some 3%positive; iewSquashedSeqNum := 3; iewPC := Some 128; iewSquash := true;
            iewBranchTaken := true; iewIncludeSquashInst := false |} else quiet).

Definition completes {A} (x : res A) : bool := match x with Ok _ => true | _ => false end.
Definition outcome {A} (x : res (unit * A)) (d : A) : A := match x with Ok (_, a) => a | _ => d end.

Lemma completes_outcome {A} (x : res (unit * A)) d : completes x = true -> x = Ok (tt, outcome x d).
Proof. by destruct x as [[[] a]| |]. Qed.

Definition maps : ThreadID -> list SimpleRenameMap.t := fun _ => renameMaps (env sampleState).

Definition ctor : res (CommitS Z bool) :=
  Commit_ctor isa config core0 maps false (initialState AdaptiveProps.Witness.params) false.
Definition s0 : CommitS Z bool :=
  match ctor with Ok s => s | _ =>
    mkCommit core0 Active Active (fun _ => CommitIdle) false (fun _ => false) (fun _ => false) (fun _ => false)
      (fun _ => None) [] false false None (fun _ => 0) (fun _ => 0) (fun _ => 0) (fun _ => false) (fun _ => false)
      (fun _ => false) maps false false (fun _ => 0) (fun _ => 0) (fun _ => false) (fun _ => false) false
      (initialState AdaptiveProps.Witness.params) (fun _ => noInfo) []
  end.

Definition run1 (inp : CommitIn Z) (s : CommitS Z bool) : CommitS Z bool :=
  outcome (tick isa sampleFile ac config inp s) s.

Definition executed (i : DynInst) : DynInst := setCanCommit (setStatus Executed true (setStatus RobEntry true i)).
Definition mem1 : InstMem :=
  mkMem (<[1%positive := executed adds]> (<[2%positive := executed (plain 2 0 <| fault := Some 7%positive |>)]>
        (<[3%positive := executed (plain 3 1)]> (<[4%positive := setStatus RobEntry true (plain 4 0)]>
        (<[5%positive := executed (plain 5 1)]> ∅))))) ∅.

Definition s1 : CommitS Z bool := run1 taking s0.
Definition s2 : CommitS Z bool :=
  s1 <| core := core s1 <| cpu := mkCpuInsts inFlight [] false |> <| mem := mem1 |> |> <| intr := false |>.
Definition s3 : CommitS Z bool := run1 squashing s2.
Definition s4 : CommitS Z bool := run1 idle s3.
Definition s5 : CommitS Z bool := run1 idle s4.
Definition s6 : CommitS Z bool := outcome (processTrapEvent 0%nat s5) s5.
Definition s7 : CommitS Z bool := run1 idle s6.

(** The instructions in the buffer at each of them. *)
Ltac elems H := repeat (apply elem_of_cons in H as [->|H]); [..|destruct (not_elem_of_nil _ H)].

Lemma lists1 t : instList (rob (core s1)) t =
  match t with 0%nat => [1%positive; 2%positive; 4%positive] | 1%nat => [3%positive; 5%positive] | _ => [] end.
Proof. destruct t as [|[|t]]; vm_compute; reflexivity. Qed.
Lemma lists3 t : instList (rob (core s3)) t =
  match t with 0%nat => [2%positive; 4%positive] | 1%nat => [3%positive; 5%positive] | _ => [] end.
Proof. destruct t as [|[|t]]; vm_compute; reflexivity. Qed.
Lemma lists4 t : instList (rob (core s4)) t =
  match t with 0%nat => [2%positive; 4%positive] | 1%nat => [5%positive] | _ => [] end.
Proof. destruct t as [|[|t]]; vm_compute; reflexivity. Qed.
Lemma lists6 t : instList (rob (core s6)) t =
  match t with 0%nat => [2%positive; 4%positive] | _ => [] end.
Proof. destruct t as [|[|t]]; vm_compute; reflexivity. Qed.

(** An instruction without destinations, executed or not ready. *)
Lemma plain_committable ms i :
  isHtmStart i = false -> isHtmStop i = false -> inHtmTransactionalState i = false ->
  isExecuted i = true -> isStore i = false ->
  (exists l, destsAre i l /\ Forall (entryOK sampleFile ms) l) -> committable sampleFile ms i.
Proof. intros H1 H2 H3 H4 H5 H6. split; try done; congruence. Qed.

Lemma noDests i : numDestRegs i = 0%nat -> forall ms, exists l, destsAre i l /\ Forall (entryOK sampleFile ms) l.
Proof. intros H ms. exists []. split; [split; [done|]|constructor]. by intros k x Hk. Qed.

Lemma adds_dests ms :
  is_Some (mapGet ms (RenameInit.r 1)) ->
  exists l, destsAre (executed adds) l /\ Forall (entryOK sampleFile ms) l.
Proof.
  intros H. destruct (last (intRegIds sampleFile)) as [q|] eqn:E; [|vm_compute in E; discriminate E].
  exists [(RenameInit.r 1, q)]. split; [split|].
  - unfold executed, adds. rewrite E. reflexivity.
  - unfold executed, adds. rewrite E. intros [|k] x; cbn; [intros [= <-]; done|]. by destruct k.
  - constructor; [|constructor]. split; [|done]. cbn. vm_compute in E. injection E as <-. reflexivity.
Qed.

(** A cycle with nothing new. *)
Lemma cycleOK_idle (inp : CommitIn Z) (s : CommitS Z bool) :
  fromRename inp = [] -> iewInsts inp = [] -> interrupt s = NoFault -> iewOK inp s ->
  (forall t, t = 0%nat \/ t = 1%nat \/ instList (rob (core s)) t = []) ->
  rob_wf (core s) ->
  (forall t, Z.of_nat (length (instList (rob (core s)) t)) <= maxEntries (rob (core s)) t) ->
  (forall t p i, p ∈ instList (rob (core s)) t -> heap (mem (core s)) !! p = Some i -> threadNumber i = t ->
     isSquashed i = false -> readyToCommit i = true -> committable sampleFile (commitMaps s t) i) ->
  cycleOK sampleFile config inp s.
Proof.
  intros E1 E2 E3 Hiew Hl Hwf Hm Hc.
  assert (Einc : incoming config inp = []) by (unfold incoming; by rewrite E1, take_nil).
  split; rewrite ?Einc.
  - by apply (bool_decide_unpack _).
  - cbn. intros t Ht. set_solver by lia.
  - intros _. left.
  - intros t. destruct (Hl t) as [->|[->|?]]; [left; left|left; right; left|by right].
  - done.
  - split.
    + by intros p ?%elem_of_nil.
    + constructor.
    + intros t. cbn. rewrite Z.add_0_r. apply Hm.
    + cbn. rewrite Z.add_0_r, (rb_total _ Hwf). apply Hwf.
  - by intros p t ?%elem_of_nil.
  - rewrite E2. by intros o ?%elem_of_nil.
  - intros t p i [Hp| ?%elem_of_nil]; [by apply Hc|done].
Qed.

Lemma cycle0 : cycleOK sampleFile config taking s0.
Proof.
  split.
  - by apply (bool_decide_unpack _).
  - cbn. intros t Ht. set_solver by lia.
  - intros _. left.
  - intros t. by right.
  - intros t [=].
  - split.
    + intros p Hp. elems Hp; (eexists; split; [vm_compute; reflexivity|]);
        (split; [intros [=]|]); (split; [vm_compute; lia|]); (split; [done|]); (split; [done|]);
        (split; [vm_compute; set_solver|]); by intros q ?%elem_of_nil.
    + repeat constructor.
    + intros [|[|t]]; vm_compute; congruence.
    + vm_compute. congruence.
  - intros p t Hp. elems Hp; intros [= <-]; set_solver.
  - by intros o ?%elem_of_nil.
  - intros t p i [Hp|Hp]; [by apply elem_of_nil in Hp|]. elems Hp; by intros [= <-].
Qed.

Abbreviation reached := (commitReach isa sampleFile ac).

Lemma reached_wf s : reached s -> rob_wf (core s).
Proof. intros H. exact (ci_rob _ (reach_inv isa sampleFile ac isa_interrupts isa_noEvents s H)). Qed.

Lemma reach0 : reached s0.
Proof. by eapply (CR_init isa sampleFile ac config core0 maps false); [reflexivity|apply rob_ctor_wf|..]. Qed.

Lemma run_ok inp s :
  completes (tick isa sampleFile ac config inp s) = true ->
  tick isa sampleFile ac config inp s = Ok (tt, run1 inp s).
Proof. apply completes_outcome. Qed.

Lemma run_reach inp s :
  reached s -> cycleOK sampleFile config inp s -> completes (tick isa sampleFile ac config inp s) = true ->
  reached (run1 inp s).
Proof. intros Hr C E. by eapply CR_cycle; [exact Hr|exact C| |apply run_ok]. Qed.

Lemma reach1 : reached s1.
Proof. apply (run_reach taking s0 reach0 cycle0). vm_compute. reflexivity. Qed.

Lemma reach2 : reached s2.
Proof.
  unfold s2. apply CR_outside; [exact reach1|]. intros t p Hp. rewrite lists1 in Hp.
  destruct t as [|[|t]]; elems Hp; (split; [set_solver|]);
    eexists _, _; (split; [vm_compute; reflexivity|]); (split; [vm_compute; reflexivity|]);
    split_and!; try reflexivity; intros Hx; vm_compute in Hx; discriminate Hx.
Qed.

(** The ready instructions of a list can commit. *)
Ltac can_commit :=
  apply plain_committable; try reflexivity; first [by apply noDests | apply adds_dests; vm_compute; by eexists].
Ltac ready_ones L := let t := fresh "t" in let p := fresh "p" in let i := fresh "i" in let Hp := fresh "Hp" in
  let Hi := fresh "Hi" in let Hs := fresh "Hs" in let Hr := fresh "Hr" in
  intros t p i Hp; rewrite L in Hp; destruct t as [|[|t]]; elems Hp;
  intros Hi _ Hs Hr; vm_compute in Hi; injection Hi as <-;
  first [discriminate Hr | discriminate Hs | can_commit].

Lemma lists2 t : instList (rob (core s2)) t =
  match t with 0%nat => [1%positive; 2%positive; 4%positive] | 1%nat => [3%positive; 5%positive] | _ => [] end.
Proof. destruct t as [|[|t]]; vm_compute; reflexivity. Qed.

Lemma cycle2 : cycleOK sampleFile config squashing s2.
Proof.
  apply cycleOK_idle; try reflexivity; [| |exact (reached_wf s2 reach2)|..].
  - intros [|[|t]]; [intros [=]| |intros [=]]. intros _. split; [done|]. intros p [= <-]. by eexists.
  - intros [|[|t]]; [by left|right; by left|]. right. right. exact (lists2 _).
  - intros [|[|t]]; vm_compute; congruence.
  - ready_ones lists2.
Qed.

Lemma reach3 : reached s3.
Proof. apply (run_reach squashing s2 reach2 cycle2). vm_compute. reflexivity. Qed.

Lemma idle_iew (s : CommitS Z bool) : iewOK idle s.
Proof. intros t [=]. Qed.

Lemma cycle3 : cycleOK sampleFile config idle s3.
Proof.
  apply cycleOK_idle; try reflexivity; [exact (idle_iew s3)| |exact (reached_wf s3 reach3)|..].
  - intros [|[|t]]; [by left|right; by left|]. right. right. exact (lists3 _).
  - intros [|[|t]]; vm_compute; congruence.
  - ready_ones lists3.
Qed.

Lemma reach4 : reached s4.
Proof. apply (run_reach idle s3 reach3 cycle3). vm_compute. reflexivity. Qed.

Lemma cycle4 : cycleOK sampleFile config idle s4.
Proof.
  apply cycleOK_idle; try reflexivity; [exact (idle_iew s4)| |exact (reached_wf s4 reach4)|..].
  - intros [|[|t]]; [by left|right; by left|]. right. right. exact (lists4 _).
  - intros [|[|t]]; vm_compute; congruence.
  - ready_ones lists4.
Qed.

Lemma reach5 : reached s5.
Proof. apply (run_reach idle s4 reach4 cycle4). vm_compute. reflexivity. Qed.

Lemma reach6 : reached s6.
Proof.
  eapply (CR_trap isa sampleFile ac 0%nat s5 s6 reach5); [vm_compute; reflexivity|].
  apply completes_outcome. vm_compute. reflexivity.
Qed.

Lemma cycle6 : cycleOK sampleFile config idle s6.
Proof.
  apply cycleOK_idle; try reflexivity; [exact (idle_iew s6)| |exact (reached_wf s6 reach6)|..].
  - intros [|[|t]]; [by left|right; by left|]. right. right. exact (lists6 _).
  - intros [|[|t]]; vm_compute; congruence.
  - ready_ones lists6.
Qed.

Lemma run2 : tick isa sampleFile ac config squashing s2 = Ok (tt, s3).
Proof. apply run_ok. vm_compute. reflexivity. Qed.

Lemma run6 : tick isa sampleFile ac config idle s6 = Ok (tt, s7).
Proof. apply run_ok. vm_compute. reflexivity. Qed.

(** Threads 0 and 1 taking turns. *)
Definition turns (n : nat) : list ThreadID := if Nat.even n then [0%nat; 1%nat] else [1%nat; 0%nat].
Definition turnAt (n : nat) : CommitS Z bool := s2 <| priority_list := turns n |>.
Definition turnAfter (n : nat) : CommitS Z bool := turnAt n <| priority_list := turns (1 + n) |>.
Definition turnPick (n : nat) : option ThreadID := Some (if Nat.even n then 0%nat else 1%nat).

Lemma turn_picks n : roundRobin (turnAt n) = Ok (turnPick n, turnAfter n).
Proof.
  unfold turnAt, turnAfter, turnAt, turnPick, turns. rewrite Nat.even_add. destruct (Nat.even n); vm_compute; reflexivity.
Qed.

(** A squash through a thread context that overtakes a pending squash-after leaves
    the instruction the squash was pending for: the next instruction of the thread
    that asks to squash after itself fails the assertion. *)
Lemma stale_squashAfter :
  (_ ← squashAfter 0%nat 1%positive; _ ← conditionalSquash 0%nat;
   _ ← squashThread ac idle 0%nat; squashAfter 0%nat 2%positive) s2 = Panic.
Proof. vm_compute. reflexivity. Qed.

End Machine.

Lemma commit_cycle_safe_witness :
  commitStatus Machine.s2 1%nat <> TrapPending /\
  exists s', tick Machine.isa sampleFile Machine.ac Machine.config Machine.squashing Machine.s2 = Ok (tt, s') /\
    commitReach Machine.isa sampleFile Machine.ac s' /\
    forall tid, commitStatus s' tid <> SquashAfterPending -> exists s'', conditionalSquash tid s' = Ok (tt, s'').
Proof.
  split; [vm_compute; congruence|].
  apply (commit_cycle_safe Machine.isa sampleFile Machine.ac Machine.isa_interrupts Machine.isa_noEvents
    Machine.config Machine.squashing Machine.s2 Machine.reach2 Machine.cycle2). discriminate.
Defined.

(** Instruction 1 commits; instruction 2, which faults, does not. *)
Lemma commit_in_order_witness :
  probesOf (calls Machine.s3) = [(1%positive, true)] /\ instList (rob (core Machine.s3)) 0%nat = [2%positive; 4%positive] /\
  numCommitted (probesOf (calls Machine.s3)) <= 4 /\
  lastCommitedSeqNum Machine.s3 0%nat = lastOf Machine.s2 0%nat (probesOf (calls Machine.s3)).
Proof.
  split; [vm_compute; reflexivity|]. split; [exact (Machine.lists3 0%nat)|].
  destruct (commit_in_order Machine.isa sampleFile Machine.ac Machine.isa_interrupts Machine.isa_noEvents
    Machine.config Machine.squashing Machine.s2 Machine.s3 Machine.reach2 Machine.cycle2 ltac:(discriminate) Machine.run2)
    as (H1 & _ & H2).
  split; [exact H1|]. destruct (H2 0%nat) as (st & _ & _ & _ & _ & H). exact H.
Defined.

(** The trap of instruction 2 has come. *)
Lemma commit_precise_traps_witness :
  trapsOf (calls Machine.s5) = [0%nat] /\ commitStatus Machine.s6 0%nat = TrapPending /\
  instList (rob (core Machine.s7)) 0%nat = instList (rob (core Machine.s6)) 0%nat /\
  squashedOut Machine.s7 (probesOf (calls Machine.s7)) 0%nat 4%positive.
Proof.
  split; [vm_compute; reflexivity|]. split; [vm_compute; reflexivity|].
  destruct (commit_precise_traps Machine.isa sampleFile Machine.ac Machine.isa_interrupts Machine.isa_noEvents
    Machine.config Machine.idle Machine.s6 Machine.s7 Machine.reach6 Machine.cycle6 ltac:(discriminate) Machine.run6)
    as (H1 & H2 & _).
  split; [apply H1; vm_compute; reflexivity|]. apply H2; [left|vm_compute; reflexivity|].
  rewrite (Machine.lists6 0%nat). right. left.
Defined.

Lemma commit_obeys_squash_witness :
  readyToCommit (Machine.executed (Machine.plain 5 1)) = true /\
  squashedOut Machine.s3 (probesOf (calls Machine.s3)) 1%nat 5%positive.
Proof.
  split; [reflexivity|].
  apply (commit_obeys_squash Machine.isa sampleFile Machine.ac Machine.isa_interrupts Machine.isa_noEvents
    Machine.config Machine.squashing Machine.s2 Machine.s3 1%nat 5%positive Machine.reach2 Machine.cycle2
    ltac:(discriminate) Machine.run2).
  - right. left.
  - reflexivity.
  - vm_compute. congruence.
  - rewrite (Machine.lists2 1%nat). right. left.
  - vm_compute. reflexivity.
Defined.

Lemma commit_map_follows_witness :
  mapGet (commitMaps Machine.s3 0%nat) (RenameInit.r 1) <> mapGet (commitMaps Machine.s2 0%nat) (RenameInit.r 1) /\
  committedOf Machine.s2 0%nat (probesOf (calls Machine.s3)) = [1%positive] /\
  mapsTo sampleFile Machine.s2 0%nat (committedOf Machine.s2 0%nat (probesOf (calls Machine.s3))) (commitMaps Machine.s3 0%nat).
Proof.
  split; [vm_compute; congruence|]. split; [vm_compute; reflexivity|].
  apply (commit_map_follows Machine.isa sampleFile Machine.ac Machine.isa_interrupts Machine.isa_noEvents
    Machine.config Machine.squashing Machine.s2 Machine.s3 0%nat Machine.reach2 Machine.cycle2 ltac:(discriminate) Machine.run2).
Defined.

Lemma commitInsts_maximal_witness :
  interrupt Machine.s2 = NoFault /\
  exists s', commitInsts Machine.isa sampleFile Machine.ac Machine.config Machine.idle Machine.s2 = Ok (tt, s') /\
    loopStops Machine.isa sampleFile Machine.ac Machine.config Machine.idle Machine.s2 0 s'.
Proof.
  split; [vm_compute; reflexivity|].
  apply (commitInsts_maximal Machine.isa sampleFile Machine.ac Machine.isa_interrupts Machine.isa_noEvents
    Machine.config Machine.idle Machine.s2).
  - exact (reach_inv Machine.isa sampleFile Machine.ac Machine.isa_interrupts Machine.isa_noEvents _ Machine.reach2).
  - intros H. destruct H. vm_compute. reflexivity.
  - intros t _. destruct t as [|[|t]]; vm_compute; reflexivity.
  - discriminate.
  - exact (cy_lists _ _ _ _ Machine.cycle2).
  - intros t p i Hp Hi Hs Hr. apply (cy_commit _ _ _ _ Machine.cycle2 t p i (or_introl Hp) Hi); try done.
    destruct (rb_insts _ (Machine.reached_wf _ Machine.reach2) t p Hp) as (j & Hj & Ht & _). congruence.
Defined.

Lemma roundRobin_fair_witness :
  priority_list (Machine.turnAt 0) = [0%nat; 1%nat] /\ exists n, (n <= 1)%nat /\ Machine.turnPick n = Some 1%nat.
Proof.
  split; [reflexivity|].
  apply (roundRobin_fair Machine.turnAt Machine.turnAfter Machine.turnPick 1%nat 1).
  - intros n. unfold Machine.turnAt. fields. exact (Machine.reached_wf _ Machine.reach2).
  - exact Machine.turn_picks.
  - intros n. unfold Machine.turnAfter, Machine.turnAt. fields. reflexivity.
  - reflexivity.
  - intros n _. unfold Machine.turnAt, Machine.turns. destruct (Nat.even n); vm_compute; reflexivity.
Defined.

Lemma oldestReady_oldest_witness :
  canCommitFrom Machine.s2 1%nat = true /\
  exists o, oldestReady Machine.config Machine.s2 = Ok (o, Machine.s2) /\
    match o with
    | None => forall t, t ∈ commitActive Machine.config -> canCommitFrom Machine.s2 t = false
    | Some t => t ∈ commitActive Machine.config /\ canCommitFrom Machine.s2 t = true /\
        forall u, u ∈ commitActive Machine.config -> canCommitFrom Machine.s2 u = true ->
          headSeq Machine.s2 t <= headSeq Machine.s2 u
    end.
Proof.
  split; [vm_compute; reflexivity|].
  apply (oldestReady_oldest Machine.config Machine.s2 (Machine.reached_wf _ Machine.reach2)).
  intros t Ht _. apply elem_of_cons in Ht as [->|Ht%list_elem_of_singleton]; [|subst]; split; vm_compute; congruence.
Defined.
