(* ===== verification/Decode.v ===== *)
(** * The decode stage

    [src/src/cpu/o3/decode.cc] and [decode.hh]: the stage as a state machine
    that runs once per cycle ([tick]).  What it reads from the time buffers this
    cycle (fetch's instructions, rename's and commit's signals) is an input;
    what it writes (to rename and back to fetch) is part of the state.  The
    program counters are of a type given by the instruction set, which also
    gives the target of a direct branch: both are parameters.  Statistics are
    left out. *)

From stdpp Require Import base numbers list gmap functions.
From S2P Require Import Prelude Regs Monad DynInst Stage ROB.

#[local] Open Scope Z_scope.

(** ** State *)

Inductive ThreadStatus :=
  | Running | Idle | StartSquash | Squashing | Blocked | Unblocking.

#[export] Instance ThreadStatus_eq_dec : EqDecision ThreadStatus.
Proof. solve_decision. Defined.

(** [TimeStruct::DecodeComm]: what a misprediction found here tells fetch. *)
Record DecodeComm {PC : Type} := mkComm {
  nextPC : option PC;
  mispredictInst : option InstPtr;
  dc_squashInst : option InstPtr;
  doneSeqNum : Z;
  dc_squash : bool;
  predIncorrect : bool;
  branchMispredict : bool;
  branchTaken : bool
}.
Arguments DecodeComm : clear implicits.

(** A fresh slot of the time buffer. *)
Definition noComm {PC} : DecodeComm PC := mkComm _ None None None 0 false false false false.

Record Decode {PC : Type} := mkDecode {
  stage_status : StageStatus;
  decodeStatus : ThreadID -> ThreadStatus;
  insts : ThreadID -> list InstPtr;
  skidBuffer : ThreadID -> list InstPtr;
  wroteToTimeBuffer : bool;
  stalls_rename : ThreadID -> bool;
  toRenameIndex : Z;
  bdelayDoneSeqNum : ThreadID -> Z;
  squashInst : ThreadID -> option InstPtr;
  squashAfterDelaySlot : ThreadID -> bool;
  (* shared with the rest of the processor *)
  core : Core;
  predPC : InstPtr -> PC;
  (* written this cycle *)
  toRename : list InstPtr;
  decodeBlock : ThreadID -> bool;
  decodeUnblock : ThreadID -> bool;
  decodeInfo : ThreadID -> DecodeComm PC;
  activity : list ActivityCall
}.
Arguments Decode : clear implicits.

#[export] Instance eta_decode {PC} : Eta (Decode PC) := fun s =>
  mkDecode _ (stage_status s) (decodeStatus s) (insts s) (skidBuffer s) (wroteToTimeBuffer s)
    (stalls_rename s) (toRenameIndex s) (bdelayDoneSeqNum s) (squashInst s)
    (squashAfterDelaySlot s) (core s) (predPC s) (toRename s) (decodeBlock s)
    (decodeUnblock s) (decodeInfo s) (activity s).

(** What the time buffers show the stage this cycle. *)
Record DecodeIn := {
  fromFetch : list InstPtr;
  renameBlock : ThreadID -> bool;
  renameUnblock : ThreadID -> bool;
  commit_squash : ThreadID -> bool
}.

(** What the constructor fixes. *)
Record DecodeConfig := {
  decodeWidth : Z;
  numThreads : nat;
  skidBufferMax : Z;
  activeThreads : list ThreadID;
  FullSystem : bool
}.

Section Decode.
Context {PC : Type} `{EqDecision PC}.

(** [inst->branchTarget()]: the static instruction's target, at the
    instruction's own program counter. *)
Context (branchTarget : InstPtr -> PC).

#[local] Abbreviation D := (M (Decode PC)).

(** ** Construction *)

(** The constructor: the checks and derived parameters, and the stage before
    [startupStage]. *)
Definition Decode_config (decodeWidth fetchToDecodeDelay : Z) (numThreads : nat)
    (active : list ThreadID) (fs : bool) : res DecodeConfig :=
  assert! negb (MaxWidth <? decodeWidth) ;;
  Ok {| decodeWidth := decodeWidth; numThreads := numThreads;
        skidBufferMax := u32 ((fetchToDecodeDelay + 1) * decodeWidth);
        activeThreads := active; FullSystem := fs |}.

Definition Decode_ctor (st : StageStatus) (c : Core) (pp : InstPtr -> PC) : Decode PC :=
  mkDecode _ st (fun _ => Idle) (fun _ => []) (fun _ => []) false (fun _ => false) 0
    (fun _ => 0) (fun _ => None) (fun _ => false) c pp [] (fun _ => false) (fun _ => false)
    (fun _ => noComm) [].

Definition clearStates (tid : ThreadID) (s : Decode PC) : Decode PC :=
  s <| decodeStatus := <[tid := Idle]> (decodeStatus s) |>
    <| stalls_rename := <[tid := false]> (stalls_rename s) |>.

Definition resetStage (cfg : DecodeConfig) (s : Decode PC) : Decode PC :=
  foldl (fun s tid => s <| decodeStatus := <[tid := Idle]> (decodeStatus s) |>
                        <| stalls_rename := <[tid := false]> (stalls_rename s) |>)
    (s <| stage_status := Inactive |>) (seq 0 (numThreads cfg)).

Definition startupStage (cfg : DecodeConfig) (s : Decode PC) : Decode PC := resetStage cfg s.

Definition drainSanityCheck (cfg : DecodeConfig) (s : Decode PC) : res unit :=
  assert! forallb (fun tid => bool_decide (insts s tid = []) && bool_decide (skidBuffer s tid = []))
    (seq 0 (numThreads cfg)) ;;
  Ok tt.

Definition isDrained (cfg : DecodeConfig) (s : Decode PC) : bool :=
  forallb (fun tid => bool_decide (insts s tid = []) && bool_decide (skidBuffer s tid = []) &&
                      bool_decide (decodeStatus s tid = Running \/ decodeStatus s tid = Idle))
    (seq 0 (numThreads cfg)).

(** ** A cycle *)

Section Cycle.
Context (cfg : DecodeConfig) (inp : DecodeIn).

Definition instOf (p : InstPtr) : D DynInst := s ← gets core; lift (getInst p (mem s)).

Definition setMem (f : InstMem -> res InstMem) : D unit :=
  c ← gets core;
  m ← lift (f (mem c));
  modify (fun s => s <| core := core s <| mem := m |> |>).

Definition setThreadStatus (tid : ThreadID) (st : ThreadStatus) : D unit :=
  modify (fun s => s <| decodeStatus := <[tid := st]> (decodeStatus s) |>).

Definition setDecodeBlock (tid : ThreadID) (b : bool) : D unit :=
  modify (fun s => s <| decodeBlock := <[tid := b]> (decodeBlock s) |>).

Definition setDecodeUnblock (tid : ThreadID) (b : bool) : D unit :=
  modify (fun s => s <| decodeUnblock := <[tid := b]> (decodeUnblock s) |>).

Definition wrote : D unit := modify (fun s => s <| wroteToTimeBuffer := true |>).

Definition checkStall (tid : ThreadID) : D bool := gets (fun s => stalls_rename s tid).

Definition fetchInstsValid : bool := negb (bool_decide (fromFetch inp = [])).

(** [while (!insts[tid].empty())]: the loop ends with the queue it empties. *)
Definition skidInsert (tid : ThreadID) : D unit :=
  l ← gets (fun s => insts s tid);
  _ ← forM l (fun p =>
        _ ← modify (fun s => s <| insts := <[tid := drop 1 (insts s tid)]> (insts s) |>);
        i ← instOf p;
        _ ← assertM (bool_decide (tid = threadNumber i));
        modify (fun s => s <| skidBuffer := <[tid := skidBuffer s tid ++ [p]]> (skidBuffer s) |>));
  n ← gets (fun s => Z.of_nat (length (skidBuffer s tid)));
  assertM (n <=? skidBufferMax cfg).

Definition block (tid : ThreadID) : D bool :=
  _ ← skidInsert tid;
  st ← gets (fun s => decodeStatus s tid);
  if decide (st = Blocked) then mret false else
  _ ← setThreadStatus tid Blocked;
  u ← gets (fun s => decodeUnblock s tid);
  _ ← (if (u : bool) then setDecodeUnblock tid false
       else _ ← setDecodeBlock tid true; wrote);
  mret true.

Definition unblock (tid : ThreadID) : D bool :=
  q ← gets (fun s => skidBuffer s tid);
  if decide (q = []) then
    _ ← setDecodeUnblock tid true;
    _ ← wrote;
    _ ← setThreadStatus tid Running;
    mret true
  else mret false.

(** The loops that empty the two queues of a thread. *)
Definition clearQueues (tid : ThreadID) : D unit :=
  modify (fun s => s <| insts := <[tid := []]> (insts s) |>
                     <| skidBuffer := <[tid := []]> (skidBuffer s) |>).

(** [squash(inst, tid)]: a misprediction found in this stage. *)
Definition squash_inst (p : InstPtr) (tid : ThreadID) : D unit :=
  i ← instOf p;
  _ ← modify (fun s => s <| decodeInfo := <[tid :=
        mkComm _ (Some (branchTarget p)) (Some p) (Some p) (seqNum i) true true true
          (readPredTaken i || isUncondCtrl i)]> (decodeInfo s) |>);
  st ← gets (fun s => decodeStatus s tid);
  _ ← when (bool_decide (st = Blocked \/ st = Unblocking)) (setDecodeUnblock tid true);
  _ ← setThreadStatus tid Squashing;
  _ ← forM (fromFetch inp) (fun q =>
        j ← instOf q;
        when (bool_decide (threadNumber j = tid) && (seqNum i <? seqNum j)) (setMem (setSquashed q)));
  _ ← clearQueues tid;
  c ← gets core;
  c ← lift (removeInstsUntil (seqNum i) tid c);
  modify (fun s => s <| core := c |>).

(** Squash the thread's instructions among those coming from fetch. *)
Fixpoint squashIncoming (tid : ThreadID) (l : list InstPtr) (squash_count : Z) : D Z :=
  match l with
  | [] => mret squash_count
  | q :: l =>
      j ← instOf q;
      if decide (threadNumber j = tid) then
        _ ← setMem (setSquashed q);
        squashIncoming tid l (u32 (squash_count + 1))
      else squashIncoming tid l squash_count
  end.

(** [squash(tid)]: a squash from commit; returns how many instructions coming
    from fetch it squashed. *)
Definition squash (tid : ThreadID) : D Z :=
  st ← gets (fun s => decodeStatus s tid);
  _ ← when (bool_decide (st = Blocked \/ st = Unblocking))
        (if FullSystem cfg then setDecodeUnblock tid true else
         b ← gets (fun s => decodeBlock s tid);
         if (b : bool) then setDecodeBlock tid false else setDecodeUnblock tid true);
  _ ← setThreadStatus tid Squashing;
  squash_count ← squashIncoming tid (fromFetch inp) 0;
  _ ← clearQueues tid;
  mret squash_count.

Definition skidsEmpty (s : Decode PC) : bool :=
  forallb (fun tid => bool_decide (skidBuffer s tid = [])) (activeThreads cfg).

Definition updateStatus : D unit :=
  s ← gets (fun s => s);
  if existsb (fun tid => bool_decide (decodeStatus s tid = Unblocking)) (activeThreads cfg) then
    when (bool_decide (stage_status s = Inactive))
      (modify (fun s => s <| stage_status := Active |> <| activity := activity s ++ [ActivateStage] |>))
  else
    when (bool_decide (stage_status s = Active))
      (modify (fun s => s <| stage_status := Inactive |>
                          <| activity := activity s ++ [DeactivateStage] |>)).

Definition sortInsts : D unit :=
  forM (fromFetch inp) (fun p =>
    i ← instOf p;
    modify (fun s => s <| insts :=
      <[threadNumber i := insts s (threadNumber i) ++ [p]]> (insts s) |>)).

Definition readStallSignals (tid : ThreadID) : D unit :=
  _ ← when (renameBlock inp tid)
        (modify (fun s => s <| stalls_rename := <[tid := true]> (stalls_rename s) |>));
  when (renameUnblock inp tid)
    (b ← gets (fun s => stalls_rename s tid);
     _ ← assertM b;
     modify (fun s => s <| stalls_rename := <[tid := false]> (stalls_rename s) |>)).

Definition checkSignalsAndUpdate (tid : ThreadID) : D bool :=
  _ ← readStallSignals tid;
  if commit_squash inp tid then _ ← squash tid; mret true else
  stall ← checkStall tid;
  if (stall : bool) then block tid else
  st ← gets (fun s => decodeStatus s tid);
  if decide (st = Blocked) then
    _ ← setThreadStatus tid Unblocking;
    _ ← unblock tid;
    mret true
  else if decide (st = Squashing) then
    _ ← setThreadStatus tid Running;
    mret false
  else mret false.

(** *** Decoding *)

(** [insts_to_decode]: the queue the instructions come from. *)
Definition queueOf (skid : bool) (tid : ThreadID) (s : Decode PC) : list InstPtr :=
  if skid then skidBuffer s tid else insts s tid.

Definition setQueue (skid : bool) (tid : ThreadID) (q : list InstPtr) (s : Decode PC) : Decode PC :=
  if skid then s <| skidBuffer := <[tid := q]> (skidBuffer s) |>
  else s <| insts := <[tid := q]> (insts s) |>.

(** Add the instruction to the decode queue. *)
Definition sendToRename (p : InstPtr) : D unit :=
  k ← gets toRenameIndex;
  _ ← lift (if k <? MaxWidth then Ok tt else Undef);
  modify (fun s => s <| toRename := toRename s ++ [p] |>
                     <| toRenameIndex := u32 (toRenameIndex s + 1) |>).

(** The body of the loop for an instruction taken off the queue: whether to go
    on with the next one. *)
Definition decodeOne (p : InstPtr) : D bool :=
  i ← instOf p;
  if isSquashed i then mret true else
  _ ← when (numSrcRegs i =? 0)%nat (setMem (updInst p setCanIssue));
  _ ← sendToRename p;
  if readPredTaken i && negb (isControl i) then panic else
  if isDirectCtrl i && (isUncondCtrl i || readPredTaken i) then
    targ ← gets (fun s => predPC s p);
    if decide (branchTarget p = targ) then mret true else
    _ ← squash_inst p (threadNumber i);
    _ ← modify (fun s => s <| predPC := <[p := branchTarget p]> (predPC s) |>);
    mret false
  else mret true.

Fixpoint decodeLoop (skid : bool) (tid : ThreadID) (insts_available : nat) : D unit :=
  match insts_available with
  | O => mret tt
  | S n =>
      k ← gets toRenameIndex;
      if negb (k <? decodeWidth cfg) then mret tt else
      q ← gets (queueOf skid tid);
      match q with
      | [] => panic
      | p :: q =>
          _ ← modify (setQueue skid tid q);
          go_on ← decodeOne p;
          if (go_on : bool) then decodeLoop skid tid n else mret tt
      end
  end.

Definition decodeInsts (tid : ThreadID) : D unit :=
  skid ← gets (fun s => bool_decide (decodeStatus s tid = Unblocking));
  insts_available ← gets (fun s => length (queueOf skid tid s));
  if (insts_available =? 0)%nat then mret tt else
  _ ← decodeLoop skid tid insts_available;
  q ← gets (queueOf skid tid);
  _ ← when (negb (bool_decide (q = []))) (_ ← block tid; mret tt);
  k ← gets toRenameIndex;
  when (negb (k =? 0)) wrote.

(** *** The stage *)

(** [decode]: returns the new [status_change]. *)
Definition decode (status_change : bool) (tid : ThreadID) : D bool :=
  st ← gets (fun s => decodeStatus s tid);
  if decide (st = Running \/ st = Idle) then
    _ ← decodeInsts tid;
    mret status_change
  else if decide (st = Unblocking) then
    e ← gets skidsEmpty;
    _ ← assertM (negb e);
    _ ← decodeInsts tid;
    _ ← when fetchInstsValid (skidInsert tid);
    u ← unblock tid;
    mret (u || status_change)
  else mret status_change.

(** The loop of [tick] over the active threads. *)
Fixpoint tickThreads (l : list ThreadID) (status_change : bool) : D bool :=
  match l with
  | [] => mret status_change
  | tid :: l =>
      c ← checkSignalsAndUpdate tid;
      status_change ← decode (c || status_change) tid;
      tickThreads l status_change
  end.

Definition tick : D unit :=
  _ ← modify (fun s => s <| wroteToTimeBuffer := false |> <| toRenameIndex := 0 |>);
  _ ← sortInsts;
  status_change ← tickThreads (activeThreads cfg) false;
  _ ← when status_change updateStatus;
  w ← gets wroteToTimeBuffer;
  when w (modify (fun s => s <| activity := activity s ++ [ActivityThisCycle] |>)).

(** A cycle, the time buffers having been advanced: their current slots are
    empty. *)
Definition cpuTick : D unit :=
  _ ← modify (fun s => s <| toRename := [] |> <| decodeBlock := fun _ => false |>
                         <| decodeUnblock := fun _ => false |>
                         <| decodeInfo := fun _ => noComm |>);
  tick.

End Cycle.
End Decode.
