(* ===== verification/DecodeInv.v ===== *)
(** * What decode does to the instructions in flight

    The stage changes the shared instructions in two ways only: it marks
    instructions ready to issue and it squashes.  [marks f m m'] says that the
    memory went from [m] to [m'] by setting status bits, and that exactly the
    instructions of [f] became squashed. *)

From stdpp Require Import base numbers list gmap functions.
From S2P Require Import Prelude Regs Monad DynInst Stage ROB ROBProps Decode.

#[local] Open Scope Z_scope.

(** ** Definitions *)

Definition squashedAt (m : InstMem) (p : InstPtr) : bool := from_option isSquashed false (heap m !! p).

(** [i'] is [i] but for status bits; a squash is for good, and the registers
    renamed are what they were. *)
Definition agesTo (i i' : DynInst) : Prop :=
  i' = i <| status := status i' |> /\ (isSquashed i = true -> isSquashed i' = true) /\
  status i' PinnedRegsRenamed = status i PinnedRegsRenamed.

Definition evolves (m m' : InstMem) : Prop :=
  forall p, match heap m !! p with
            | Some i => exists i', heap m' !! p = Some i' /\ agesTo i i'
            | None => heap m' !! p = None
            end.

Definition marks (f : InstPtr -> bool) (m m' : InstMem) : Prop :=
  evolves m m' /\ forall p, squashedAt m' p = squashedAt m p || f p.

Definition nothing : InstPtr -> bool := fun _ => false.

(** An instruction that a queue of thread [t] may hold: it is the thread's, it
    can be squashed, only a control instruction is predicted taken, and the CPU
    still lists it unless it is squashed. *)
Definition good (c : Core) (t : ThreadID) (p : InstPtr) : Prop :=
  exists i, heap (mem c) !! p = Some i /\ threadNumber i = t /\ squashable i /\
    (readPredTaken i = true -> isControl i = true) /\
    (isSquashed i = false -> p ∈ cpuInstList (cpu c)).

(** What the stage needs of the shared state: the CPU's list is in order, and
    what comes from fetch may be queued. *)
Definition coreOK (inp : DecodeIn) (c : Core) : Prop :=
  cpu_list_ok (mem c) (cpuInstList (cpu c)) /\ forall p, p ∈ fromFetch inp -> exists t, good c t p.

(** The shared state changed by [marks f]; the CPU's list is what it was. *)
Definition coreMarks (f : InstPtr -> bool) (c c' : Core) : Prop :=
  marks f (mem c) (mem c') /\ cpuInstList (cpu c') = cpuInstList (cpu c).

(** ** Ageing *)

Lemma agesTo_refl i : agesTo i i.
Proof. split_and!; [by destruct i|done..]. Qed.

Lemma agesTo_trans i j k : agesTo i j -> agesTo j k -> agesTo i k.
Proof.
  intros (E1 & H1 & P1) (E2 & H2 & P2). split_and!; [|auto|congruence].
  rewrite E2, E1. done.
Qed.

Lemma evolves_refl m : evolves m m.
Proof. intros p. destruct (heap m !! p); eauto using agesTo_refl. Qed.

Lemma evolves_trans m1 m2 m3 : evolves m1 m2 -> evolves m2 m3 -> evolves m1 m3.
Proof.
  intros H1 H2 p. specialize (H1 p). specialize (H2 p). destruct (heap m1 !! p) as [i|].
  - destruct H1 as (j & E & Hj). rewrite E in H2. destruct H2 as (k & ? & ?).
    eauto using agesTo_trans.
  - by rewrite H1 in H2.
Qed.

Lemma evolves_lookup m m' p i :
  evolves m m' -> heap m !! p = Some i -> exists i', heap m' !! p = Some i' /\ agesTo i i'.
Proof. intros H E. specialize (H p). by rewrite E in H. Qed.

Lemma evolves_insert m m' p i i' :
  heap m !! p = Some i -> agesTo i i' -> heap m' = <[p := i']> (heap m) -> evolves m m'.
Proof.
  intros Hp Hi E q. rewrite E. destruct (decide (q = p)) as [->|Hq].
  - rewrite Hp, lookup_insert_eq. eauto.
  - rewrite lookup_insert_ne by done. destruct (heap m !! q); eauto using agesTo_refl.
Qed.

(** What does not change. *)
Lemma evolves_seqAt m m' p : evolves m m' -> seqAt m' p = seqAt m p.
Proof.
  intros H. specialize (H p). unfold seqAt. destruct (heap m !! p).
  - destruct H as (i' & -> & -> & _). done.
  - by rewrite H.
Qed.

Lemma evolves_doomed m m' sn t p : evolves m m' -> doomed m' sn t p <-> doomed m sn t p.
Proof.
  intros H. unfold doomed. rewrite (evolves_seqAt _ _ _ H). specialize (H p).
  destruct (heap m !! p).
  - by destruct H as (i' & -> & -> & _).
  - by rewrite H.
Qed.

Lemma agesTo_squashable i i' : agesTo i i' -> squashable i -> squashable i'.
Proof. intros (-> & _ & H) Hi Hr. apply Hi. by rewrite <- H. Qed.

Lemma evolves_list m m' l : evolves m m' -> cpu_list_ok m l -> cpu_list_ok m' l.
Proof.
  intros H [Ho Hl]. split.
  - unfold ordered in *. clear Hl. induction Ho as [|p l Ho IH Hp]; [constructor|].
    constructor; [done|]. eapply Forall_impl; [|exact Hp]. intros q. cbn.
    by rewrite !(evolves_seqAt _ _ _ H).
  - intros p (i & Hi & Hs)%Hl. destruct (evolves_lookup _ _ _ _ H Hi) as (i' & ? & ?).
    eauto using agesTo_squashable.
Qed.

Lemma evolves_good c c' t p :
  evolves (mem c) (mem c') -> cpuInstList (cpu c') = cpuInstList (cpu c) ->
  good c t p -> good c' t p.
Proof.
  intros H Hl (i & Hi & Ht & Hs & Hc & Hm).
  destruct (evolves_lookup _ _ _ _ H Hi) as (i' & Hi' & Ha).
  pose proof Ha as (E & Hsq & _). exists i'. split_and!.
  - done.
  - by rewrite E.
  - eauto using agesTo_squashable.
  - by rewrite E.
  - intros Hn. rewrite Hl. apply Hm. destruct (isSquashed i); [|done]. by rewrite Hsq in Hn.
Qed.

(** ** Marking *)

Lemma marks_refl m : marks nothing m m.
Proof. split; [apply evolves_refl|]. intros p. by rewrite orb_false_r. Qed.

Lemma marks_trans f g m1 m2 m3 :
  marks f m1 m2 -> marks g m2 m3 -> marks (fun p => f p || g p) m1 m3.
Proof.
  intros [E1 H1] [E2 H2]. split; [by eapply evolves_trans|].
  intros p. by rewrite H2, H1, orb_assoc.
Qed.

Lemma marks_ext f g m m' : (forall p, f p = g p) -> marks f m m' -> marks g m m'.
Proof. intros E [H1 H2]. split; [done|]. intros p. by rewrite <- E. Qed.

Lemma coreMarks_refl c : coreMarks nothing c c.
Proof. split; [apply marks_refl|done]. Qed.

Lemma coreMarks_trans f g c1 c2 c3 :
  coreMarks f c1 c2 -> coreMarks g c2 c3 -> coreMarks (fun p => f p || g p) c1 c3.
Proof. intros [H1 E1] [H2 E2]. split; [by eapply marks_trans|congruence]. Qed.

Lemma coreMarks_ext f g c c' : (forall p, f p = g p) -> coreMarks f c c' -> coreMarks g c c'.
Proof. intros E [H1 H2]. split; [by eapply marks_ext|done]. Qed.

Lemma coreMarks_good f c c' t p : coreMarks f c c' -> good c t p -> good c' t p.
Proof. intros [[H _] E]. by apply evolves_good. Qed.

Lemma coreMarks_ok inp f c c' : coreMarks f c c' -> coreOK inp c -> coreOK inp c'.
Proof.
  intros H [Hl Hf]. split.
  - destruct H as [[H _] ->]. by eapply evolves_list.
  - intros p [t Ht]%Hf. exists t. by eapply coreMarks_good.
Qed.

(** Setting [CanIssue]. *)
Lemma updInst_marks p i b m :
  b <> Squashed -> b <> PinnedRegsRenamed -> heap m !! p = Some i ->
  exists m', updInst p (setStatus b true) m = Ok m' /\ marks nothing m m'.
Proof.
  intros Hb Hb' Hp. unfold updInst, getInst. rewrite Hp. cbn. eexists. split; [done|]. split.
  - eapply evolves_insert; [exact Hp| |done]. unfold agesTo, isSquashed. cbn.
    rewrite !fn_lookup_insert_ne by done. done.
  - intros q. unfold squashedAt. cbn. rewrite orb_false_r.
    destruct (decide (q = p)) as [->|Hq]; [|by rewrite lookup_insert_ne].
    rewrite lookup_insert_eq, Hp. cbn. unfold isSquashed. cbn. by rewrite fn_lookup_insert_ne.
Qed.

(** Squashing one instruction. *)
Lemma setSquashed_marks p i m :
  heap m !! p = Some i -> squashable i ->
  exists m', setSquashed p m = Ok m' /\ marks (fun q => bool_decide (q = p)) m m'.
Proof.
  intros Hp Hi. destruct (setSquashed_ok p i m Hp Hi) as (i' & ps & -> & E & Hsq & Hb).
  eexists. split; [done|]. split.
  - eapply evolves_insert; [exact Hp| |done]. split_and!; [done|done|]. by apply Hb.
  - intros q. unfold squashedAt. cbn. destruct (decide (q = p)) as [->|Hq].
    + rewrite lookup_insert_eq, bool_decide_eq_true_2 by done. cbn. unfold isSquashed.
      by rewrite Hsq, orb_true_r.
    + rewrite lookup_insert_ne, bool_decide_eq_false_2 by done. by rewrite orb_false_r.
Qed.

(** The walk of a squash over the CPU's list only ages instructions. *)
Lemma squashUntil_evolves sn tid l c c' :
  (forall p, p ∈ l -> exists i, heap (mem c) !! p = Some i /\ squashable i) ->
  squashUntil l sn tid c = Ok c' -> evolves (mem c) (mem c').
Proof.
  revert c. induction l as [|p l IH]; intros c Hl H; cbn in H.
  - injection H as <-. apply evolves_refl.
  - destruct (Hl p) as (i & Hi & Hs); [by left|]. unfold getInst in H. rewrite Hi in H. cbn in H.
    destruct (sn <? seqNum i); [|injection H as <-; apply evolves_refl].
    unfold squashInstIt, getInst in H. rewrite Hi in H. cbn in H. case_decide.
    + destruct (setSquashed_marks p i (mem c) Hi Hs) as (m' & Em & Hm & _).
      rewrite Em in H. cbn in H. eapply evolves_trans; [exact Hm|]. eapply IH in H; [exact H|].
      intros q Hq. destruct (Hl q) as (j & Hj & Hsj); [by right|].
      destruct (evolves_lookup _ _ _ _ Hm Hj) as (j' & ? & ?). cbn.
      eauto using agesTo_squashable.
    + eapply IH; [|done]. intros q Hq. apply Hl. by right.
Qed.

(** [removeInstsUntil] squashes the younger instructions of the thread. *)
Lemma removeInstsUntil_marks sn tid c :
  cpu_list_ok (mem c) (cpuInstList (cpu c)) -> cpuInstList (cpu c) <> [] ->
  exists c', removeInstsUntil sn tid c = Ok c' /\
    coreMarks (fun p => bool_decide (p ∈ cpuInstList (cpu c) /\ doomed (mem c) sn tid p)) c c'.
Proof.
  intros [Hord Hin] Hne. unfold removeInstsUntil. rewrite bool_decide_eq_false_2 by done.
  cbn [negb assertR mbind res_bind].
  set (c1 := c <| cpu := cpu c <| removeInstsThisCycle := true |> |>).
  assert (Hl : forall p, p ∈ reverse (cpuInstList (cpu c)) ->
    exists i, heap (mem c1) !! p = Some i /\ squashable i).
  { intros p Hp. apply Hin. by rewrite elem_of_reverse in Hp. }
  destruct (squashUntil_ok sn tid (reverse (cpuInstList (cpu c))) c1) as (m' & E & Hsq & Hun);
    [by apply ordered_reverse|done|].
  rewrite E. eexists. split; [done|]. apply squashUntil_evolves in E; [|done].
  split; [|done]. split; [exact E|]. intros p. unfold squashedAt. cbn [mem].
  case_bool_decide as Hp.
  - destruct (Hsq p) as (i & -> & Hi); rewrite ?elem_of_reverse; [tauto..|].
    cbn. by rewrite Hi, orb_true_r.
  - rewrite Hun; [by rewrite orb_false_r|]. rewrite elem_of_reverse.
    destruct (decide (p ∈ cpuInstList (cpu c))); [right|left]; tauto.
Qed.
