(* ===== verification/DecodeStep.v ===== *)
(** * The operations of the decode stage

    What a cycle of the stage should do for one thread ([threadSpec], a function
    of the thread's queues and signals), and that each operation of the stage
    runs to the end and does its part of it. *)

From stdpp Require Import base numbers list gmap functions.
From S2P Require Import Prelude Regs Monad DynInst Stage ROB ROBProps Decode DecodeInv.

#[local] Open Scope Z_scope.

(** ** Specification *)

(** What becomes of a thread's queue in a cycle: the instructions sent to
    rename, those kept for the next cycle, and the branch found mispredicted. *)
Record Outcome := mkOut {
  o_sent : list InstPtr;
  o_rest : list InstPtr;
  o_branch : option InstPtr
}.

Section Spec.
Context {PC : Type} `{EqDecision PC} (branchTarget : InstPtr -> PC).

(** A direct branch that is taken for sure, or predicted taken, to a place that
    is not its target. *)
Definition mispredicted (m : InstMem) (pp : InstPtr -> PC) (p : InstPtr) : bool :=
  match heap m !! p with
  | Some i => isDirectCtrl i && (isUncondCtrl i || readPredTaken i) &&
              negb (bool_decide (branchTarget p = pp p))
  | None => false
  end.

(** Decode a queue with room for [room] instructions: squashed instructions take
    no room, and a mispredicted branch is the last one sent. *)
Fixpoint decodeSpec (m : InstMem) (pp : InstPtr -> PC) (room : nat) (q : list InstPtr) : Outcome :=
  match q with
  | [] => mkOut [] [] None
  | p :: q' =>
      match room with
      | O => mkOut [] q None
      | S room' =>
          if squashedAt m p then decodeSpec m pp room q'
          else if mispredicted m pp p then mkOut [p] [] (Some p)
          else let o := decodeSpec m pp room' q' in
               mkOut (p :: o_sent o) (o_rest o) (o_branch o)
      end
  end.

(** A cycle of a thread: a squash empties its queues; a stall keeps everything;
    the skid buffer is decoded before what just came in. *)
Definition threadSpec (m : InstMem) (pp : InstPtr -> PC) (room : nat) (squash stalled : bool)
    (skid ins : list InstPtr) : Outcome :=
  if squash then mkOut [] [] None
  else if stalled then mkOut [] (skid ++ ins) None
  else match skid with
       | [] => decodeSpec m pp room ins
       | _ => let o := decodeSpec m pp room skid in
              match o_branch o with
              | Some _ => o
              | None => mkOut (o_sent o) (o_rest o ++ ins) None
              end
       end.

(** The instructions a thread's cycle squashes. *)
Definition squashSet (inp : DecodeIn) (c : Core) (tid : ThreadID) (o : Outcome) (p : InstPtr) : bool :=
  if commit_squash inp tid then
    bool_decide (p ∈ fromFetch inp /\ threadNumber <$> heap (mem c) !! p = Some tid)
  else match o_branch o with
       | Some b => bool_decide ((p ∈ fromFetch inp \/ p ∈ cpuInstList (cpu c)) /\
                                doomed (mem c) (seqAt (mem c) b) tid p)
       | None => false
       end.

(** What the stage tells fetch about a mispredicted branch. *)
Definition branchInfo (m : InstMem) (b : InstPtr) : DecodeComm PC :=
  mkComm _ (Some (branchTarget b)) (Some b) (Some b) (seqAt m b) true true true
    (match heap m !! b with Some i => readPredTaken i || isUncondCtrl i | None => false end).

End Spec.

(** Fetch has been told to stop while the thread is in one of these. *)
Definition blocked (st : ThreadStatus) : bool := bool_decide (st = Blocked \/ st = Unblocking).

(** ** Operations *)

(** Compute the fields of an updated state. *)
Ltac flat :=
  cbn [stage_status decodeStatus insts skidBuffer wroteToTimeBuffer stalls_rename toRenameIndex
       bdelayDoneSeqNum squashInst squashAfterDelaySlot core predPC toRename decodeBlock
       decodeUnblock decodeInfo activity upd_field eta_decode] in *.

Section Operations.
Context {PC : Type} `{EqDecision PC} (branchTarget : InstPtr -> PC).
Context (cfg : DecodeConfig) (inp : DecodeIn).

#[local] Abbreviation St := (Decode PC).

Lemma bind_instOf {A} p i (f : DynInst -> M St A) (s : St) :
  heap (mem (core s)) !! p = Some i -> (instOf p ≫= f) s = f i s.
Proof. intros H. unfold instOf. fwd. unfold getInst. by rewrite H. Qed.

Lemma good_core c t p : good c t p -> exists i, heap (mem c) !! p = Some i /\ threadNumber i = t.
Proof. intros (i & ? & ? & _). eauto. Qed.

(** *** Queues *)

(** The state with the two queues of thread [tid] replaced. *)
Definition withQueues (tid : ThreadID) (q l : list InstPtr) (s s' : St) : Prop :=
  exists f g, s' = s <| skidBuffer := f |> <| insts := g |> /\ f tid = q /\ g tid = l /\
    forall t, t <> tid -> f t = skidBuffer s t /\ g t = insts s t.

Lemma skidLoop_ok tid l (s : St) :
  insts s tid = l -> (forall p, p ∈ l -> good (core s) tid p) ->
  exists s', forM l (fun p =>
      _ ← modify (fun s => s <| insts := <[tid := drop 1 (insts s tid)]> (insts s) |>);
      i ← instOf p;
      _ ← assertM (bool_decide (tid = threadNumber i));
      modify (fun s => s <| skidBuffer := <[tid := skidBuffer s tid ++ [p]]> (skidBuffer s) |>)) s
    = Ok (tt, s') /\ withQueues tid (skidBuffer s tid ++ l) [] s s'.
Proof.
  revert s. induction l as [|p l IH]; intros s El Hg; cbn [forM].
  - exists s. split; [done|]. exists (skidBuffer s), (insts s). rewrite app_nil_r.
    split; [by destruct s|]. done.
  - destruct (good_core _ _ _ (Hg p ltac:(by left))) as (i & Hi & Ht). fwd.
    rewrite (bind_instOf p i) by exact Hi. cbv beta. rewrite bool_decide_eq_true_2 by done. fwd.
    edestruct (IH (s <| insts := <[tid := drop 1 (insts s tid)]> (insts s) |>
      <| skidBuffer := <[tid := skidBuffer s tid ++ [p]]> (skidBuffer s) |>)) as (s' & E & f & g & -> & Hf & Hg' & Ho).
    + cbn. by rewrite fn_lookup_insert, El.
    + intros q Hq. apply Hg. by right.
    + exists (s <| skidBuffer := f |> <| insts := g |>). split; [exact E|].
      exists f, g. cbn in Hf, Ho. rewrite fn_lookup_insert, <- app_assoc in Hf.
      split_and!; try done. intros t Ht'. destruct (Ho t Ht') as [-> ->].
      by rewrite !fn_lookup_insert_ne.
Qed.

Lemma skidInsert_ok tid (s : St) :
  (forall p, p ∈ insts s tid -> good (core s) tid p) ->
  Z.of_nat (length (skidBuffer s tid ++ insts s tid)) <= skidBufferMax cfg ->
  exists s', skidInsert cfg tid s = Ok (tt, s') /\
    withQueues tid (skidBuffer s tid ++ insts s tid) [] s s'.
Proof.
  intros Hg Hn. unfold skidInsert. fwd.
  destruct (skidLoop_ok tid _ s eq_refl Hg) as (s' & E & W). rewrite (bind_run _ _ _ _ _ E). fwd.
  exists s'. split; [|done]. destruct W as (f & g & -> & Hf & _). cbn. rewrite Hf.
  assert ((Z.of_nat (length (skidBuffer s tid ++ insts s tid)) <=? skidBufferMax cfg) = true) as ->
    by lia. done.
Qed.

(** Too many instructions fail its assertion. *)
Lemma skidInsert_overflows tid (s : St) :
  (forall p, p ∈ insts s tid -> good (core s) tid p) ->
  skidBufferMax cfg < Z.of_nat (length (skidBuffer s tid ++ insts s tid)) ->
  skidInsert cfg tid s = Panic.
Proof.
  intros Hg Hn. unfold skidInsert. fwd.
  destruct (skidLoop_ok tid _ s eq_refl Hg) as (s' & E & W). rewrite (bind_run _ _ _ _ _ E). fwd.
  destruct W as (f & g & -> & Hf & _). cbn. rewrite Hf.
  assert ((Z.of_nat (length (skidBuffer s tid ++ insts s tid)) <=? skidBufferMax cfg) = false) as ->
    by lia. done.
Qed.

(** *** Squashing what comes from fetch *)

(** A test of an instruction that does not look at its status bits. *)
Definition ageless (P : DynInst -> bool) : Prop := forall i i', agesTo i i' -> P i' = P i.

Definition testAt (P : DynInst -> bool) (m : InstMem) (p : InstPtr) : bool :=
  from_option P false (heap m !! p).

Lemma testAt_evolves P m m' p : ageless P -> evolves m m' -> testAt P m' p = testAt P m p.
Proof.
  intros HP H. specialize (H p). unfold testAt. destruct (heap m !! p).
  - destruct H as (i' & -> & Ha). cbn. by apply HP.
  - by rewrite H.
Qed.

(** Squashing one instruction in the shared memory. *)
Lemma setMem_squash p t (s : St) :
  good (core s) t p ->
  exists c', setMem (setSquashed p) s = Ok (tt, s <| core := c' |>) /\
    coreMarks (fun q => bool_decide (q = p)) (core s) c'.
Proof.
  intros (i & Hi & _ & Hs & _). destruct (setSquashed_marks p i _ Hi Hs) as (m' & E & Hm).
  unfold setMem. fwd. rewrite E. fwd. eexists. split; [done|]. by split.
Qed.

(** The set squashed by a loop over [l]: those that pass the test. *)
Lemma marks_cons P m p l :
  forall q, bool_decide (q = p) && testAt P m p || bool_decide (q ∈ l) && testAt P m q =
            bool_decide (q ∈ p :: l) && testAt P m q.
Proof.
  intros q. destruct (decide (q = p)) as [->|Hq].
  - rewrite (bool_decide_eq_true_2 (p = p)), (bool_decide_eq_true_2 (p ∈ p :: l)) by (done || by left).
    cbn. destruct (testAt P m p); [done|]. by rewrite andb_false_r.
  - rewrite (bool_decide_eq_false_2 (q = p)) by done. cbn.
    rewrite (bool_decide_ext (q ∈ p :: l) (q ∈ l)); [done|]. rewrite elem_of_cons. tauto.
Qed.

Lemma squashLoop_step P p l (c c1 c' : Core) :
  ageless P ->
  coreMarks (fun q => bool_decide (q = p) && testAt P (mem c) p) c c1 ->
  coreMarks (fun q => bool_decide (q ∈ l) && testAt P (mem c1) q) c1 c' ->
  coreMarks (fun q => bool_decide (q ∈ p :: l) && testAt P (mem c) q) c c'.
Proof.
  intros HP H1 H2. eapply coreMarks_ext; [|exact (coreMarks_trans _ _ _ _ _ H1 H2)].
  intros q. cbn. rewrite (testAt_evolves P _ _ _ HP (proj1 (proj1 H1))). apply marks_cons.
Qed.

Lemma coreMarks_same (s : St) f : (forall q, f q = false) -> coreMarks f (core s) (core s).
Proof. intros H. eapply coreMarks_ext; [|apply coreMarks_refl]. intros q. by rewrite H. Qed.

Lemma squashLoop_ok P l (s : St) :
  ageless P -> (forall p, p ∈ l -> exists t, good (core s) t p) ->
  exists c', forM l (fun q => j ← instOf q; when (P j) (setMem (setSquashed q))) s
      = Ok (tt, s <| core := c' |>) /\
    coreMarks (fun q => bool_decide (q ∈ l) && testAt P (mem (core s)) q) (core s) c'.
Proof.
  intros HP. revert s. induction l as [|p l IH]; intros s Hg; cbn [forM].
  - exists (core s). split; [by destruct s|]. by apply coreMarks_same.
  - destruct (Hg p ltac:(by left)) as [t Ht]. destruct (good_core _ _ _ Ht) as (i & Hi & _).
    fwd. rewrite (bind_instOf p i) by exact Hi. cbv beta.
    assert (Et : testAt P (mem (core s)) p = P i) by (unfold testAt; by rewrite Hi).
    destruct (P i); cbn [when].
    + destruct (setMem_squash p t s Ht) as (c1 & E1 & M1). rewrite (bind_run _ _ _ _ _ E1).
      destruct (IH (s <| core := c1 |>)) as (c' & E & Mc).
      { intros q Hq. destruct (Hg q ltac:(by right)) as [t' Ht']. exists t'.
        by eapply coreMarks_good. }
      rewrite E. exists c'. split; [done|]. eapply squashLoop_step; [done| |exact Mc].
      eapply coreMarks_ext; [|exact M1]. intros q. by rewrite Et, andb_true_r.
    + fwd. destruct (IH s) as (c' & E & Mc). { intros q Hq. apply Hg. by right. }
      exists c'. split; [done|]. eapply squashLoop_step; [done| |exact Mc].
      apply coreMarks_same. intros q. by rewrite Et, andb_false_r.
Qed.

Lemma squashIncoming_ok tid l n (s : St) :
  (forall p, p ∈ l -> exists t, good (core s) t p) ->
  exists k c', squashIncoming tid l n s = Ok (k, s <| core := c' |>) /\
    coreMarks (fun q => bool_decide (q ∈ l) &&
      testAt (fun j => bool_decide (threadNumber j = tid)) (mem (core s)) q) (core s) c'.
Proof.
  set (P := fun j : DynInst => bool_decide (threadNumber j = tid)).
  assert (HP : ageless P) by (intros i i' [-> _]; done).
  revert n s. induction l as [|p l IH]; intros n s Hg; cbn [squashIncoming].
  - exists n, (core s). split; [by destruct s|]. by apply coreMarks_same.
  - destruct (Hg p ltac:(by left)) as [t Ht]. destruct (good_core _ _ _ Ht) as (i & Hi & _).
    rewrite (bind_instOf p i) by exact Hi. cbv beta.
    assert (Et : testAt P (mem (core s)) p = P i) by (unfold testAt; by rewrite Hi).
    destruct (decide (threadNumber i = tid)) as [Hd|Hd].
    + rewrite (bool_decide_eq_true_2 _ Hd : P i = true) in Et.
      destruct (setMem_squash p t s Ht) as (c1 & E1 & M1). rewrite (bind_run _ _ _ _ _ E1).
      destruct (IH (u32 (n + 1)) (s <| core := c1 |>)) as (k & c' & E & Mc).
      { intros q Hq. destruct (Hg q ltac:(by right)) as [t' Ht']. exists t'.
        by eapply coreMarks_good. }
      rewrite E. exists k, c'. split; [done|]. eapply squashLoop_step; [done| |exact Mc].
      eapply coreMarks_ext; [|exact M1]. intros q. by rewrite Et, andb_true_r.
    + rewrite (bool_decide_eq_false_2 _ Hd : P i = false) in Et.
      destruct (IH n s) as (k & c' & E & Mc). { intros q Hq. apply Hg. by right. }
      exists k, c'. split; [done|]. eapply squashLoop_step; [done| |exact Mc].
      apply coreMarks_same. intros q. by rewrite Et, andb_false_r.
Qed.

(** *** The two squashes *)

Definition younger (inp : DecodeIn) (c : Core) (sn : Z) (tid : ThreadID) (q : InstPtr) : bool :=
  bool_decide ((q ∈ fromFetch inp \/ q ∈ cpuInstList (cpu c)) /\ doomed (mem c) sn tid q).

Lemma branchInfo_evolves m m' b :
  evolves m m' -> branchInfo branchTarget m' b = branchInfo branchTarget m b.
Proof.
  intros H. unfold branchInfo. rewrite (evolves_seqAt _ _ _ H). specialize (H b).
  destruct (heap m !! b).
  - by destruct H as (i' & -> & -> & _).
  - by rewrite H.
Qed.

Lemma younger_coreMarks f c c' sn tid q :
  coreMarks f c c' -> younger inp c' sn tid q = younger inp c sn tid q.
Proof.
  intros [[H _] El]. unfold younger. apply bool_decide_ext. rewrite El.
  by rewrite (evolves_doomed _ _ _ _ _ H).
Qed.

Lemma younger_split c sn tid q :
  (forall p, p ∈ fromFetch inp -> exists t, good c t p) ->
  bool_decide (q ∈ fromFetch inp) &&
    testAt (fun j => bool_decide (threadNumber j = tid) && (sn <? seqNum j)) (mem c) q ||
  bool_decide (q ∈ cpuInstList (cpu c) /\ doomed (mem c) sn tid q) = younger inp c sn tid q.
Proof.
  intros Hg. apply eq_true_iff_eq. unfold younger.
  rewrite orb_true_iff, andb_true_iff, !bool_decide_eq_true. unfold testAt, doomed, seqAt.
  split.
  - intros [[Hq Ht]|[Hq Hd]]; [|tauto]. split; [by left|].
    destruct (heap (mem c) !! q) as [j|]; [|done]. cbn in *.
    rewrite andb_true_iff, bool_decide_eq_true in Ht. intuition lia.
  - intros [[Hq|Hq] Hd]; [|tauto]. left. split; [done|].
    destruct (Hg q Hq) as (t & j & Hj & _). rewrite Hj in *. cbn in *.
    rewrite andb_true_iff, bool_decide_eq_true. intuition lia.
Qed.

(** The state after a misprediction has been signalled. *)
Definition squashedAtBranch (p : InstPtr) (tid : ThreadID) (c' : Core) (s : St) : St :=
  s <| decodeInfo := <[tid := branchInfo branchTarget (mem (core s)) p]> (decodeInfo s) |>
    <| decodeUnblock := if blocked (decodeStatus s tid) then <[tid := true]> (decodeUnblock s)
                        else decodeUnblock s |>
    <| decodeStatus := <[tid := Squashing]> (decodeStatus s) |>
    <| insts := <[tid := []]> (insts s) |>
    <| skidBuffer := <[tid := []]> (skidBuffer s) |>
    <| core := c' |>.

Lemma squash_inst_ok p i tid (s : St) :
  heap (mem (core s)) !! p = Some i -> coreOK inp (core s) -> cpuInstList (cpu (core s)) <> [] ->
  exists c', squash_inst branchTarget inp p tid s = Ok (tt, squashedAtBranch p tid c' s) /\
    coreMarks (younger inp (core s) (seqAt (mem (core s)) p) tid) (core s) c'.
Proof.
  intros Hp Hc Hne. unfold squash_inst, setThreadStatus, setDecodeUnblock, clearQueues.
  rewrite (bind_instOf p i) by exact Hp. cbv beta.
  set (P := fun j => bool_decide (threadNumber j = tid) && (seqNum i <? seqNum j)).
  assert (HP : ageless P) by (intros j j' [-> _]; done).
  assert (Hs : forall s1 : St, core s1 = core s -> exists c1 c',
    forM (fromFetch inp) (fun q => j ← instOf q; when (P j) (setMem (setSquashed q))) s1 =
      Ok (tt, s1 <| core := c1 |>) /\
    removeInstsUntil (seqNum i) tid c1 = Ok c' /\
    coreMarks (younger inp (core s) (seqAt (mem (core s)) p) tid) (core s) c').
  { intros s1 E. destruct (squashLoop_ok P (fromFetch inp) s1 HP) as (c1 & E1 & M1).
    { rewrite E. apply Hc. }
    rewrite E in M1. destruct (removeInstsUntil_marks (seqNum i) tid c1) as (c' & E2 & M2).
    - eapply coreMarks_ok; [exact M1|exact Hc].
    - by rewrite (proj2 M1).
    - exists c1, c'. split_and!; [done|done|].
      eapply coreMarks_ext; [|exact (coreMarks_trans _ _ _ _ _ M1 M2)].
      intros q. cbn. rewrite (proj2 M1).
      rewrite (bool_decide_ext
        (q ∈ cpuInstList (cpu (core s)) /\ doomed (mem c1) (seqNum i) tid q)
        (q ∈ cpuInstList (cpu (core s)) /\ doomed (mem (core s)) (seqNum i) tid q))
        by (by rewrite (evolves_doomed _ _ _ _ _ (proj1 (proj1 M1)))).
      etransitivity; [exact (younger_split (core s) (seqNum i) tid q (proj2 Hc))|].
      unfold seqAt. by rewrite Hp. }
  assert (Ei : branchInfo branchTarget (mem (core s)) p =
    mkComm _ (Some (branchTarget p)) (Some p) (Some p) (seqNum i) true true true
      (readPredTaken i || isUncondCtrl i)) by (unfold branchInfo, seqAt; by rewrite Hp).
  unfold squashedAtBranch, blocked. rewrite Ei. destruct s. fwd. flat.
  destruct (bool_decide (_ = Blocked \/ _ = Unblocking)); cbn [when]; fwd; flat.
  all: match goal with |- context [(forM _ _ ≫= _) ?s1] =>
    destruct (Hs s1 eq_refl) as (c1 & c' & E1 & E2 & Mc) end.
  all: rewrite (bind_run _ _ _ _ _ E1); fwd; flat; rewrite E2; fwd.
  all: exists c'; split; [reflexivity|exact Mc].
Qed.

(** The state after a squash from commit: fetch is told to go on, if it was
    told to stop. *)
Lemma commitSquash_ok tid (s : St) :
  coreOK inp (core s) -> decodeBlock s tid = false ->
  exists k c', squash cfg inp tid s = Ok (k,
      s <| decodeUnblock := if blocked (decodeStatus s tid) then <[tid := true]> (decodeUnblock s)
                            else decodeUnblock s |>
        <| decodeStatus := <[tid := Squashing]> (decodeStatus s) |>
        <| core := c' |>
        <| insts := <[tid := []]> (insts s) |>
        <| skidBuffer := <[tid := []]> (skidBuffer s) |>) /\
    coreMarks (fun p => bool_decide (p ∈ fromFetch inp /\
      threadNumber <$> heap (mem (core s)) !! p = Some tid)) (core s) c'.
Proof.
  intros [_ Hg] Hb. unfold squash, setThreadStatus, setDecodeBlock, setDecodeUnblock, clearQueues.
  fwd.
  assert (Hs : forall s1 : St, core s1 = core s -> exists k c',
    squashIncoming tid (fromFetch inp) 0 s1 = Ok (k, s1 <| core := c' |>) /\
    coreMarks (fun p => bool_decide (p ∈ fromFetch inp /\
      threadNumber <$> heap (mem (core s)) !! p = Some tid)) (core s) c').
  { intros s1 E. destruct (squashIncoming_ok tid (fromFetch inp) 0 s1) as (k & c' & E1 & M1).
    { by rewrite E. }
    exists k, c'. split; [done|]. rewrite E in M1. eapply coreMarks_ext; [|exact M1].
    intros q. cbn. apply eq_true_iff_eq. rewrite andb_true_iff, !bool_decide_eq_true.
    unfold testAt. destruct (heap (mem (core s)) !! q) as [j|]; cbn; [|by intuition].
    rewrite bool_decide_eq_true. naive_solver. }
  unfold blocked. destruct s. flat.
  destruct (bool_decide (_ = Blocked \/ _ = Unblocking));
    cbn [when]; [destruct (FullSystem cfg)|]; fwd; flat; rewrite ?Hb; fwd; flat.
  all: match goal with |- context [(squashIncoming _ _ _ ≫= _) ?s1] =>
    destruct (Hs s1 eq_refl) as (k & c' & E1 & Mc) end.
  all: rewrite (bind_run _ _ _ _ _ E1); fwd.
  all: exists k, c'; split; [reflexivity|exact Mc].
Qed.

End Operations.
