(* ===== verification/DecodeLoop.v ===== *)
(** * The loop of the decode stage

    [decodeInsts] takes instructions off a queue while rename has room: it does
    what [decodeSpec] says, on every queue. *)

From stdpp Require Import base numbers list gmap functions.
From S2P Require Import Prelude Regs Monad DynInst Stage ROB ROBProps Decode DecodeInv DecodeStep.

#[local] Open Scope Z_scope.

Section Loop.
Context {PC : Type} `{EqDecision PC} (branchTarget : InstPtr -> PC).
Context (cfg : DecodeConfig) (inp : DecodeIn).

#[local] Abbreviation St := (Decode PC).
#[local] Abbreviation mispred := (mispredicted branchTarget).
#[local] Abbreviation spec := (decodeSpec branchTarget).

(** ** Definitions *)

(** The index into the slot for rename is the number of instructions there. *)
Definition slotOK (s : St) : Prop :=
  toRenameIndex s = Z.of_nat (length (toRename s)) /\
  Z.of_nat (length (toRename s)) <= decodeWidth cfg /\ decodeWidth cfg <= MaxWidth.

Definition roomIn (s : St) : nat := Z.to_nat (decodeWidth cfg) - length (toRename s).

(** The state with more instructions sent. *)
Definition sentTo (l : list InstPtr) (s : St) : St :=
  s <| toRename := toRename s ++ l |>
    <| toRenameIndex := Z.of_nat (length (toRename s ++ l)) |>.

(** The loop ended with the queue, or with the room. *)
Definition goneOn (skid : bool) (tid : ThreadID) (o : Outcome) (s s' : St) : Prop :=
  exists f g m', s' = sentTo (o_sent o) (s <| skidBuffer := f |> <| insts := g |>
                                           <| core := core s <| mem := m' |> |>) /\
    (if skid then f tid = o_rest o /\ g tid = insts s tid
     else f tid = skidBuffer s tid /\ g tid = o_rest o) /\
    (forall t, t <> tid -> f t = skidBuffer s t /\ g t = insts s t) /\
    marks nothing (mem (core s)) m'.

(** The loop ended with a mispredicted branch. *)
Definition tookBack (tid : ThreadID) (b : InstPtr) (o : Outcome) (s s' : St) : Prop :=
  exists f g c', s' = squashedAtBranch branchTarget b tid c' (sentTo (o_sent o) s)
      <| skidBuffer := f |> <| insts := g |> <| predPC := <[b := branchTarget b]> (predPC s) |> /\
    f tid = [] /\ g tid = [] /\
    (forall t, t <> tid -> f t = skidBuffer s t /\ g t = insts s t) /\
    coreMarks (younger inp (core s) (seqAt (mem (core s)) b) tid) (core s) c'.

Definition loopDone (skid : bool) (tid : ThreadID) (o : Outcome) (s s' : St) : Prop :=
  match o_branch o with
  | None => goneOn skid tid o s s'
  | Some b => tookBack tid b o s s'
  end.

(** ** The specification looks at what does not change *)

Lemma mispredicted_evolves m m' pp p : evolves m m' -> mispred m' pp p = mispred m pp p.
Proof.
  intros H. specialize (H p). unfold mispredicted. destruct (heap m !! p).
  - by destruct H as (i' & -> & -> & _).
  - by rewrite H.
Qed.

Lemma decodeSpec_marks m m' pp room q :
  evolves m m' -> (forall p, p ∈ q -> squashedAt m' p = squashedAt m p) ->
  spec m' pp room q = spec m pp room q.
Proof.
  intros H. revert room. induction q as [|p q IH]; intros room Hq; cbn; [done|].
  destruct room as [|room]; [done|].
  rewrite (Hq p) by (by left). rewrite (mispredicted_evolves _ _ _ _ H).
  assert (Hq' : forall r, spec m' pp r q = spec m pp r q).
  { intros r. apply IH. intros x Hx. apply Hq. by right. }
  by rewrite !Hq'.
Qed.

(** ** One instruction *)

Lemma squashedAt_lookup m p i : heap m !! p = Some i -> squashedAt m p = isSquashed i.
Proof. intros H. unfold squashedAt. by rewrite H. Qed.

Lemma sendToRename_ok p (s : St) :
  slotOK s -> (0 < roomIn s)%nat -> sendToRename p s = Ok (tt, sentTo [p] s).
Proof.
  intros (Ei & Hw & Hm) Hr. unfold roomIn in Hr. unfold sendToRename. fwd. rewrite Ei.
  assert ((Z.of_nat (length (toRename s)) <? MaxWidth) = true) as -> by lia. fwd.
  unfold sentTo. rewrite length_app. unfold MaxWidth in Hm.
  assert (u32 (toRenameIndex s + 1) = Z.of_nat (length (toRename s) + length [p])) as E.
  { rewrite Ei. cbn. unfold u32, wrap. rewrite Z.mod_small by (cbn; lia). lia. }
  destruct s. flat. by rewrite E.
Qed.

(** [setCanIssue] on an instruction without sources. *)
Lemma canIssue_ok (b : bool) p i (s : St) :
  heap (mem (core s)) !! p = Some i ->
  exists m', when b (setMem (updInst p setCanIssue)) s = Ok (tt, s <| core := core s <| mem := m' |> |>) /\
    marks nothing (mem (core s)) m'.
Proof.
  intros Hp. destruct b; cbn [when].
  - destruct (updInst_marks p i CanIssue (mem (core s))) as (m' & E & Hm); [done..|].
    exists m'. split; [|done]. unfold setMem. fwd. change setCanIssue with (setStatus CanIssue true). by rewrite E.
  - exists (mem (core s)). split; [|apply marks_refl]. destruct s as [????? ????? [? ? ?]]. done.
Qed.

Lemma decodeOne_skip p i (s : St) :
  heap (mem (core s)) !! p = Some i -> isSquashed i = true ->
  decodeOne branchTarget inp p s = Ok (true, s).
Proof. intros Hp Hs. unfold decodeOne. rewrite (bind_instOf p i) by exact Hp. by rewrite Hs. Qed.

Lemma predTaken_control i :
  (readPredTaken i = true -> isControl i = true) -> readPredTaken i && negb (isControl i) = false.
Proof. intros Hc. destruct (readPredTaken i); [by rewrite Hc|done]. Qed.

Lemma decodeOne_next tid p (s : St) :
  good (core s) tid p -> squashedAt (mem (core s)) p = false ->
  mispred (mem (core s)) (predPC s) p = false -> slotOK s -> (0 < roomIn s)%nat ->
  exists m', decodeOne branchTarget inp p s =
      Ok (true, sentTo [p] (s <| core := core s <| mem := m' |> |>)) /\
    marks nothing (mem (core s)) m'.
Proof.
  intros (i & Hi & Ht & _ & Hc & _) Hs Hm Hsl Hr. unfold decodeOne.
  rewrite (bind_instOf p i) by exact Hi. rewrite (squashedAt_lookup _ _ _ Hi) in Hs.
  cbv beta. rewrite Hs.
  destruct (canIssue_ok (numSrcRegs i =? 0)%nat p i s Hi) as (m' & E & M).
  rewrite (bind_run _ _ _ _ _ E). cbv beta.
  set (s1 := s <| core := core s <| mem := m' |> |>).
  pose proof (sendToRename_ok p s1 Hsl Hr) as E1. rewrite (bind_run _ _ _ _ _ E1).
  cbv beta. exists m'. split; [|done].
  unfold mispredicted in Hm. rewrite Hi in Hm.
  rewrite (predTaken_control i Hc).
  destruct (isDirectCtrl i && (isUncondCtrl i || readPredTaken i)); [|done].
  fwd. cbn in Hm. case_bool_decide as Hb; [|done]. by rewrite decide_True.
Qed.

Lemma decodeOne_branch tid p (s : St) :
  good (core s) tid p -> coreOK inp (core s) -> squashedAt (mem (core s)) p = false ->
  mispred (mem (core s)) (predPC s) p = true -> slotOK s -> (0 < roomIn s)%nat ->
  exists c', decodeOne branchTarget inp p s =
      Ok (false, squashedAtBranch branchTarget p tid c' (sentTo [p] s)
                   <| predPC := <[p := branchTarget p]> (predPC s) |>) /\
    coreMarks (younger inp (core s) (seqAt (mem (core s)) p) tid) (core s) c'.
Proof.
  intros (i & Hi & Ht & _ & Hc & Hl) Hco Hs Hm Hsl Hr. unfold decodeOne.
  rewrite (bind_instOf p i) by exact Hi. rewrite (squashedAt_lookup _ _ _ Hi) in Hs.
  cbv beta. rewrite Hs.
  destruct (canIssue_ok (numSrcRegs i =? 0)%nat p i s Hi) as (m' & E & M).
  rewrite (bind_run _ _ _ _ _ E). cbv beta.
  set (s1 := s <| core := core s <| mem := m' |> |>).
  assert (M1 : coreMarks nothing (core s) (core s1)) by done.
  rewrite (bind_run _ _ _ _ _ (sendToRename_ok p s1 Hsl Hr)). cbv beta.
  unfold mispredicted in Hm. rewrite Hi in Hm. rewrite !andb_true_iff in Hm.
  destruct Hm as [Ed Hb]. apply negb_true_iff, bool_decide_eq_false in Hb.
  rewrite (predTaken_control i Hc), (proj2 (andb_true_iff _ _) Ed). fwd. rewrite decide_False by exact Hb.
  destruct (evolves_lookup _ _ _ _ (proj1 M) Hi) as (i' & Hi' & _).
  destruct (squash_inst_ok branchTarget inp p i' (threadNumber i) (sentTo [p] s1)) as (c' & E' & M').
  - exact Hi'.
  - by eapply coreMarks_ok.
  - intros El. specialize (Hl Hs). change (cpuInstList (cpu (core s)) = []) in El.
    rewrite El in Hl. by apply not_elem_of_nil in Hl.
  - rewrite Ht in *. rewrite (bind_run _ _ _ _ _ E'). fwd. exists c'. split.
    + unfold squashedAtBranch. change (mem (core (sentTo [p] s1))) with m'.
      rewrite (branchInfo_evolves branchTarget _ _ p (proj1 M)).
      destruct s. reflexivity.
    + eapply coreMarks_ext; [|exact (coreMarks_trans _ _ _ _ _ M1 M')]. intros q. cbn [orb nothing].
      change (core (sentTo [p] s1)) with (core s1). rewrite (younger_coreMarks inp _ _ _ _ _ _ M1).
      by rewrite (evolves_seqAt _ _ _ (proj1 M : evolves (mem (core s)) (mem (core s1)))).
Qed.

(** ** The loop *)

(** A step that takes the first instruction off the queue and sends [l]. *)
Definition stepped (skid : bool) (tid : ThreadID) (q : list InstPtr) (l : list InstPtr)
    (m' : InstMem) (s : St) : St :=
  sentTo l ((setQueue skid tid q s) <| core := core s <| mem := m' |> |>).

Lemma stepped_done skid tid q l m' o (s s' : St) :
  marks nothing (mem (core s)) m' -> loopDone skid tid o (stepped skid tid q l m' s) s' ->
  loopDone skid tid (mkOut (l ++ o_sent o) (o_rest o) (o_branch o)) s s'.
Proof.
  intros M. unfold loopDone. cbn [o_branch]. destruct (o_branch o) as [b|].
  - intros (f & g & c' & -> & Hf & Hg & Ho & Mc). exists f, g, c'. cbn [o_sent].
    assert (M1 : coreMarks nothing (core s) (core s <| mem := m' |>)) by done.
    split_and!; [|done|done| |].
    + assert (Ei : branchInfo branchTarget (mem (core (sentTo (o_sent o) (stepped skid tid q l m' s)))) b =
                   branchInfo branchTarget (mem (core (sentTo (l ++ o_sent o) s))) b).
      { apply branchInfo_evolves. destruct skid; apply M1. }
      unfold squashedAtBranch. rewrite Ei.
      unfold stepped, sentTo, setQueue. destruct s, skid; flat; by rewrite <- app_assoc.
    + intros t Ht. destruct (Ho t Ht) as [-> ->].
      destruct skid; cbn; by rewrite ?fn_lookup_insert_ne.
    + replace (core (stepped skid tid q l m' s)) with (core s <| mem := m' |>) in Mc
        by (by destruct skid).
      eapply coreMarks_ext; [|exact (coreMarks_trans _ _ _ _ _ M1 Mc)]. intros x. cbn [orb nothing].
      rewrite (younger_coreMarks inp _ _ _ _ _ _ M1). cbn [mem upd_field].
      by rewrite (evolves_seqAt _ _ _ (proj1 M)).
  - intros (f & g & m2 & -> & Hq & Ho & M2). exists f, g, m2. cbn [o_sent o_rest].
    split_and!.
    + unfold stepped, sentTo, setQueue. destruct s, skid; flat; by rewrite <- app_assoc.
    + destruct skid; cbn in *; tauto.
    + intros t Ht. destruct (Ho t Ht) as [-> ->].
      destruct skid; cbn; by rewrite ?fn_lookup_insert_ne.
    + replace (mem (core (stepped skid tid q l m' s))) with m' in M2 by (by destruct skid).
      by eapply marks_trans in M2; [eapply marks_ext; [|exact M2]|exact M].
Qed.

Lemma loopDone_end skid tid q (s : St) :
  slotOK s -> queueOf skid tid s = q -> loopDone skid tid (mkOut [] q None) s s.
Proof.
  intros (Ei & _) <-. exists (skidBuffer s), (insts s), (mem (core s)).
  split_and!; [|by destruct skid|done|apply marks_refl].
  unfold sentTo. cbn [o_sent]. destruct s as [????? ?????[]]. flat. by rewrite app_nil_r, Ei.
Qed.

(** A step that sends nothing. *)
Lemma stepped_skip skid tid q (s : St) :
  slotOK s -> setQueue skid tid q s = stepped skid tid q [] (mem (core s)) s.
Proof.
  intros (Ei & _). unfold stepped, sentTo, setQueue.
  destruct s as [????? ?????[]], skid; flat; by rewrite app_nil_r, Ei.
Qed.

Lemma stepped_slot skid tid q l m' (s : St) :
  slotOK s -> (length l <= roomIn s)%nat ->
  slotOK (stepped skid tid q l m' s) /\
  roomIn (stepped skid tid q l m' s) = (roomIn s - length l)%nat.
Proof.
  intros (Ei & Hw & Hm) Hl. unfold slotOK, roomIn in *.
  replace (toRename (stepped skid tid q l m' s)) with (toRename s ++ l) by (by destruct skid).
  replace (toRenameIndex (stepped skid tid q l m' s)) with (Z.of_nat (length (toRename s ++ l)))
    by (by destruct skid).
  rewrite length_app. lia.
Qed.

(** What the loop does with a queue. *)
Definition loopOK (skid : bool) (tid : ThreadID) (q : list InstPtr) : Prop :=
  forall s : St, queueOf skid tid s = q -> coreOK inp (core s) ->
    (forall p, p ∈ q -> good (core s) tid p) -> slotOK s ->
    exists s', decodeLoop branchTarget cfg inp skid tid (length q) s = Ok (tt, s') /\
      loopDone skid tid (spec (mem (core s)) (predPC s) (roomIn s) q) s s'.

(** The rest of the loop, after a step. *)
Lemma loopOK_stepped skid tid q l m' (s : St) :
  loopOK skid tid q -> coreOK inp (core s) -> (forall p, p ∈ q -> good (core s) tid p) ->
  slotOK s -> marks nothing (mem (core s)) m' -> (length l <= roomIn s)%nat ->
  exists s', decodeLoop branchTarget cfg inp skid tid (length q) (stepped skid tid q l m' s)
      = Ok (tt, s') /\
    let o := spec (mem (core s)) (predPC s) (roomIn s - length l) q in
    loopDone skid tid (mkOut (l ++ o_sent o) (o_rest o) (o_branch o)) s s'.
Proof.
  intros IH Hc Hg Hs M Hl. set (s1 := stepped skid tid q l m' s).
  assert (M1 : coreMarks nothing (core s) (core s1)) by (by destruct skid).
  destruct (stepped_slot skid tid q l m' s Hs Hl) as [Hsl Hrm].
  destruct (IH s1) as (s' & E & L).
  - destruct skid; cbn; by rewrite fn_lookup_insert.
  - by eapply coreMarks_ok.
  - intros x Hx. eapply coreMarks_good; [exact M1|]. by apply Hg.
  - exact Hsl.
  - exists s'. split; [done|]. apply (stepped_done skid tid q l m' _ s s' M).
    rewrite (decodeSpec_marks (mem (core s)) (mem (core s1))) in L.
    + replace (predPC s1) with (predPC s) in L by (by destruct skid).
      unfold s1 in L. rewrite Hrm in L. by destruct (spec _ _ _ _).
    + apply M1.
    + intros x _. by rewrite (proj2 (proj1 M1)), orb_false_r.
Qed.

(** The loop with a mispredicted branch at the front of the queue. *)
Lemma branch_done skid tid q p c' (s : St) :
  coreMarks (younger inp (core s) (seqAt (mem (core s)) p) tid) (core s) c' ->
  loopDone skid tid (mkOut [p] [] (Some p)) s
    (squashedAtBranch branchTarget p tid c' (sentTo [p] (setQueue skid tid q s))
       <| predPC := <[p := branchTarget p]> (predPC (setQueue skid tid q s)) |>).
Proof.
  intros Mc. unfold loopDone. cbn [o_branch]. set (s0 := setQueue skid tid q s).
  exists (<[tid := []]> (skidBuffer s0)), (<[tid := []]> (insts s0)), c'.
  split_and!; [|by rewrite fn_lookup_insert..| |exact Mc].
  - destruct s, skid; reflexivity.
  - intros t Ht. destruct skid; cbn; by rewrite !fn_lookup_insert_ne.
Qed.

Lemma loopOK_cons skid tid p q : loopOK skid tid q -> loopOK skid tid (p :: q).
Proof.
  intros IH s Eq Hc Hg Hs. cbn [decodeLoop length decodeSpec]. fwd.
  destruct (roomIn s) as [|room] eqn:Er.
  { assert ((toRenameIndex s <? decodeWidth cfg) = false) as ->.
    { destruct Hs as (-> & ? & ?). unfold roomIn in Er. lia. }
    exists s. split; [done|]. by apply loopDone_end. }
  assert ((toRenameIndex s <? decodeWidth cfg) = true) as ->.
  { destruct Hs as (-> & ? & ?). unfold roomIn in Er. lia. }
  cbn [negb]. fwd. rewrite Eq. fwd.
  pose proof (Hg p ltac:(by left)) as Hp. pose proof Hp as (i & Hi & _).
  pose proof (fun l m' => loopOK_stepped skid tid q l m' s IH Hc
    (fun x Hx => Hg x (list_elem_of_further _ _ _ Hx)) Hs) as Hrec. rewrite Er in Hrec.
  set (s0 := setQueue skid tid q s).
  assert (Ec : core s0 = core s) by (by destruct skid).
  assert (Epp : predPC s0 = predPC s) by (by destruct skid).
  assert (Er0 : roomIn s0 = S room) by (rewrite <- Er; by destruct skid).
  assert (Hs0 : slotOK s0) by (unfold slotOK in *; by destruct skid).
  destruct (squashedAt (mem (core s)) p) eqn:Esq.
  - rewrite (bind_run _ _ _ _ _ (decodeOne_skip p i s0 ltac:(by rewrite Ec)
               ltac:(by rewrite (squashedAt_lookup _ _ _ Hi) in Esq))).
    unfold s0. rewrite (stepped_skip skid tid q s Hs).
    destruct (Hrec [] (mem (core s)) (marks_refl _)) as (s' & E & L); [cbn; lia|].
    exists s'. split; [exact E|]. cbn in L. by destruct (spec _ _ _ _).
  - destruct (mispred (mem (core s)) (predPC s) p) eqn:Em.
    + destruct (decodeOne_branch tid p s0) as (c' & E & Mc); rewrite ?Ec, ?Epp; try done; [lia|].
      rewrite (bind_run _ _ _ _ _ E). eexists. split; [done|]. apply branch_done. by rewrite Ec in Mc.
    + destruct (decodeOne_next tid p s0) as (m' & E & Mc); rewrite ?Ec, ?Epp; try done; [lia|].
      rewrite (bind_run _ _ _ _ _ E). rewrite Ec in *.
      destruct (Hrec [p] m' Mc) as (s' & E' & L); [cbn; lia|].
      exists s'. split; [exact E'|]. cbn in L. by rewrite Nat.sub_0_r in L.
Qed.

Lemma decodeLoop_ok skid tid q : loopOK skid tid q.
Proof.
  induction q as [|p q IH]; [|by apply loopOK_cons].
  intros s Eq _ _ Hs. exists s. split; [done|]. by apply loopDone_end.
Qed.

End Loop.
