(* ===== verification/DecodeThread.v ===== *)
(** * A cycle of the decode stage for one thread

    [checkSignalsAndUpdate] and [decode] for a thread, composed: they run to the
    end, leave the other threads alone, do with the thread's queues what
    [threadSpec] says, and keep fetch informed of whether it may send. *)

From stdpp Require Import base numbers list gmap functions.
From S2P Require Import Prelude Regs Monad DynInst Stage ROB ROBProps Decode DecodeInv DecodeStep DecodeLoop.

#[local] Open Scope Z_scope.

(** ** Definitions *)

(** Whether fetch takes itself to be blocked, after the two signals. *)
Definition told (b block unblock : bool) : bool :=
  if block then true else if unblock then false else b.

Section Thread.
Context {PC : Type} `{EqDecision PC} (branchTarget : InstPtr -> PC).
Context (cfg : DecodeConfig) (inp : DecodeIn).

#[local] Abbreviation St := (Decode PC).
#[local] Abbreviation spec := (decodeSpec branchTarget).

(** The stall signal from rename, as of this cycle. *)
Definition stallNow (s : St) (tid : ThreadID) : bool :=
  if renameUnblock inp tid then false else stalls_rename s tid || renameBlock inp tid.

(** What a thread's cycle needs. *)
Record threadReady (s : St) (tid : ThreadID) : Prop := {
  tr_good : forall p, p ∈ skidBuffer s tid ++ insts s tid -> good (core s) tid p;
  tr_fetch : forall p, p ∈ insts s tid -> p ∈ fromFetch inp;
  tr_status : decodeStatus s tid <> StartSquash;
  tr_skid : skidBuffer s tid <> [] -> blocked (decodeStatus s tid) = true;
  tr_unblocking : decodeStatus s tid = Unblocking -> skidBuffer s tid <> [];
  tr_room : Z.of_nat (length (skidBuffer s tid ++ insts s tid)) <= skidBufferMax cfg;
  tr_signals : decodeBlock s tid = false /\ decodeUnblock s tid = false;
  tr_info : decodeInfo s tid = noComm;
  tr_stall : renameUnblock inp tid = true -> stalls_rename s tid || renameBlock inp tid = true
}.

(** Nothing of another thread changed. *)
Record othersSame (tid : ThreadID) (s s' : St) : Prop := {
  os_status : forall t, t <> tid -> decodeStatus s' t = decodeStatus s t;
  os_insts : forall t, t <> tid -> insts s' t = insts s t;
  os_skid : forall t, t <> tid -> skidBuffer s' t = skidBuffer s t;
  os_stalls : forall t, t <> tid -> stalls_rename s' t = stalls_rename s t;
  os_block : forall t, t <> tid -> decodeBlock s' t = decodeBlock s t;
  os_unblock : forall t, t <> tid -> decodeUnblock s' t = decodeUnblock s t;
  os_info : forall t, t <> tid -> decodeInfo s' t = decodeInfo s t
}.

(** The signals to fetch agree with the status: fetch, which took itself to be
    blocked or not ([b]), is told what the thread's status now says; it is not
    told to go on and to stop at once, nor to go on when it has not stopped. *)
Definition signalled (b : bool) (tid : ThreadID) (s' : St) : Prop :=
  told b (decodeBlock s' tid) (decodeUnblock s' tid) = blocked (decodeStatus s' tid) /\
  (decodeUnblock s' tid = true -> decodeBlock s' tid = false /\ b = true).

(** The thread's state after the outcome [o]. *)
Record threadDone (b : bool) (tid : ThreadID) (f : InstPtr -> bool) (o : Outcome) (s s' : St) : Prop := {
  td_others : othersSame tid s s';
  td_sent : toRename s' = toRename s ++ o_sent o;
  td_slot : slotOK cfg s';
  td_skid : skidBuffer s' tid = o_rest o;
  td_insts : insts s' tid = [];
  td_core : coreMarks f (core s) (core s');
  td_info : decodeInfo s' tid =
    match o_branch o with Some br => branchInfo branchTarget (mem (core s)) br | None => noComm end;
  td_pred : predPC s' =
    match o_branch o with Some br => <[br := branchTarget br]> (predPC s) | None => predPC s end;
  td_status : decodeStatus s' tid <> StartSquash;
  td_blocked : skidBuffer s' tid <> [] -> blocked (decodeStatus s' tid) = true;
  td_unblocking : decodeStatus s' tid = Unblocking -> skidBuffer s' tid <> [];
  td_signalled : signalled b tid s'
}.

(** What a mispredicted branch, if any, squashes. *)
Definition branchSet (c : Core) (tid : ThreadID) (o : Outcome) (p : InstPtr) : bool :=
  match o_branch o with
  | Some b => younger inp c (seqAt (mem c) b) tid p
  | None => false
  end.

(** ** Blocking *)

(** The state [block] leaves, but for the queues. *)
Definition blockedState (f g : ThreadID -> list InstPtr) (tid : ThreadID) (s : St) : St :=
  s <| skidBuffer := f |> <| insts := g |>
    <| decodeStatus := <[tid := Blocked]> (decodeStatus s) |>
    <| decodeUnblock := if decodeUnblock s tid then <[tid := false]> (decodeUnblock s)
                        else decodeUnblock s |>
    <| decodeBlock := if decodeUnblock s tid then decodeBlock s
                      else <[tid := true]> (decodeBlock s) |>
    <| wroteToTimeBuffer := if decodeUnblock s tid then wroteToTimeBuffer s else true |>.

Lemma block_ok tid (s : St) :
  (forall p, p ∈ insts s tid -> good (core s) tid p) ->
  Z.of_nat (length (skidBuffer s tid ++ insts s tid)) <= skidBufferMax cfg ->
  exists b f g, block cfg tid s = Ok (b,
      if decide (decodeStatus s tid = Blocked) then s <| skidBuffer := f |> <| insts := g |>
      else blockedState f g tid s) /\
    f tid = skidBuffer s tid ++ insts s tid /\ g tid = [] /\
    (forall t, t <> tid -> f t = skidBuffer s t /\ g t = insts s t).
Proof.
  intros Hg Hn. destruct (skidInsert_ok cfg tid s Hg Hn) as (s' & E & f & g & -> & W).
  unfold block. rewrite (bind_run _ _ _ _ _ E). fwd.
  change (decodeStatus (s <| skidBuffer := f |> <| insts := g |>)) with (decodeStatus s).
  unfold setThreadStatus, setDecodeUnblock, setDecodeBlock, wrote, blockedState.
  case_decide.
  - exists false, f, g. done.
  - fwd. exists true, f, g. split; [|done]. destruct s. flat. by destruct (decodeUnblock tid).
Qed.

Lemma unblock_ok tid (s : St) :
  exists b, unblock tid s = Ok (b,
    if decide (skidBuffer s tid = []) then
      s <| decodeUnblock := <[tid := true]> (decodeUnblock s) |> <| wroteToTimeBuffer := true |>
        <| decodeStatus := <[tid := Running]> (decodeStatus s) |>
    else s).
Proof.
  unfold unblock, setDecodeUnblock, wrote, setThreadStatus. fwd. case_decide; fwd; by eexists.
Qed.

(** ** The frame *)

Lemma othersSame_refl tid s : othersSame tid s s.
Proof. by split. Qed.

Lemma othersSame_trans tid s1 s2 s3 :
  othersSame tid s1 s2 -> othersSame tid s2 s3 -> othersSame tid s1 s3.
Proof.
  intros [A1 A2 A3 A4 A5 A6 A7] [B1 B2 B3 B4 B5 B6 B7].
  split; intros t Ht; [rewrite B1, A1|rewrite B2, A2|rewrite B3, A3|rewrite B4, A4
    |rewrite B5, A5|rewrite B6, A6|rewrite B7, A7]; done.
Qed.

(** Prove that another thread's entry of an updated array is what it was. *)
Ltac other_thread :=
  split; intros t Ht; cbn;
  repeat match goal with |- context [if ?b then _ else _] => destruct b end;
  rewrite ?fn_lookup_insert_ne by done;
  match goal with
  | Ho : forall t, t <> _ -> _ /\ _ |- _ => try (by destruct (Ho t Ht)); done
  | _ => done
  end.

(** ** The specification takes a prefix of the queue *)

Definition live (m : InstMem) (p : InstPtr) : Prop := squashedAt m p = false.

#[export] Instance live_dec m p : Decision (live m p).
Proof. unfold live. apply _. Defined.

Lemma decodeSpec_split m pp room q :
  exists taken rest, q = taken ++ rest /\ o_sent (spec m pp room q) = filter (live m) taken /\
    match o_branch (spec m pp room q) with
    | None => o_rest (spec m pp room q) = rest
    | Some b => o_rest (spec m pp room q) = [] /\
                (exists l, o_sent (spec m pp room q) = l ++ [b]) /\
                mispredicted branchTarget m pp b = true
    end.
Proof.
  revert room. induction q as [|p q IH]; intros room; cbn; [by exists [], []|].
  destruct room as [|room]; [by exists [], (p :: q)|].
  destruct (squashedAt m p) eqn:Es.
  - destruct (IH (S room)) as (tk & rest & -> & Et & Hb). exists (p :: tk), rest.
    split_and!; [done| |done]. rewrite filter_cons_False by (unfold live; congruence). done.
  - destruct (mispredicted branchTarget m pp p) eqn:Em; cbn.
    + exists [p], q. split_and!; [done|by rewrite filter_cons_True|done|by exists []|done].
    + destruct (IH room) as (tk & rest & -> & Et & Hb). exists (p :: tk), rest.
      split_and!; [done|rewrite filter_cons_True by done; by rewrite Et|].
      destruct (o_branch _); [|done]. destruct Hb as (? & (l & ->) & ?).
      split_and!; [done|by exists (p :: l)|done].
Qed.

Lemma decodeSpec_rest m pp room q p :
  p ∈ o_rest (spec m pp room q) -> p ∈ q.
Proof.
  destruct (decodeSpec_split m pp room q) as (tk & rest & E & _ & Hb). rewrite E at 2.
  destruct (o_branch _); [|rewrite Hb; set_solver]. destruct Hb as [-> _]. set_solver.
Qed.

Lemma decodeSpec_rest_length m pp room q :
  (length (o_rest (spec m pp room q)) <= length q)%nat.
Proof.
  destruct (decodeSpec_split m pp room q) as (tk & rest & E & _ & Hb). rewrite E at 2.
  rewrite length_app. destruct (o_branch _); [|rewrite Hb; lia]. destruct Hb as [-> _]. cbn. lia.
Qed.

Lemma decodeSpec_sent_length m pp room q :
  (length (o_sent (spec m pp room q)) <= room)%nat.
Proof.
  revert room. induction q as [|p q IH]; intros room; cbn; [lia|].
  destruct room as [|room]; cbn; [lia|]. destruct (squashedAt m p); [apply IH|].
  destruct (mispredicted branchTarget m pp p); cbn; [lia|]. specialize (IH room). lia.
Qed.

(** ** Decoding a queue *)

(** The end of [decodeInsts]. *)
Definition wroteSlot (w : bool) (s : St) : St := s <| wroteToTimeBuffer := w |>.

Lemma wrote_end (k : bool) (s : St) : exists w, when k wrote s = Ok (tt, wroteSlot w s).
Proof.
  destruct k; cbn [when].
  - by exists true.
  - exists (wroteToTimeBuffer s). by destruct s.
Qed.

Lemma loopDone_queue skid tid o (s s1 : St) :
  loopDone branchTarget inp skid tid o s s1 ->
  match o_branch o with
  | Some _ => queueOf skid tid s1 = []
  | None => queueOf skid tid s1 = o_rest o
  end.
Proof.
  unfold loopDone. destruct (o_branch o).
  - intros (f & g & c' & -> & Hf & Hg & _). by destruct skid.
  - intros (f & g & m' & -> & Hq & _). destruct skid; cbn; tauto.
Qed.

(** [decodeInsts], when there is something to decode: the loop, and [block] if
    it left something. *)
Lemma decodeInsts_ok tid (s : St) :
  let skid := bool_decide (decodeStatus s tid = Unblocking) in
  let q := queueOf skid tid s in
  let o := spec (mem (core s)) (predPC s) (roomIn cfg s) q in
  coreOK inp (core s) -> (forall p, p ∈ skidBuffer s tid ++ insts s tid -> good (core s) tid p) ->
  slotOK cfg s -> q <> [] -> decodeStatus s tid <> Blocked ->
  Z.of_nat (length (skidBuffer s tid ++ insts s tid)) <= skidBufferMax cfg ->
  exists s1 s' w, loopDone branchTarget inp skid tid o s s1 /\
    decodeInsts branchTarget cfg inp tid s = Ok (tt, wroteSlot w s') /\
    match o_branch o, o_rest o with
    | None, _ :: _ => exists f g, s' = blockedState f g tid s1 /\
        f tid = skidBuffer s1 tid ++ insts s1 tid /\ g tid = [] /\
        (forall t, t <> tid -> f t = skidBuffer s1 t /\ g t = insts s1 t)
    | _, _ => s' = s1
    end.
Proof.
  intros skid q o Hc Hg Hs Hq Hb Hn.
  destruct (decodeLoop_ok branchTarget cfg inp skid tid q s eq_refl Hc) as (s1 & E & L); [|done|].
  { intros p Hp. apply Hg. unfold q, queueOf in Hp. rewrite elem_of_app.
    destruct skid; [by left|by right]. }
  fold o in L. exists s1. unfold decodeInsts. fwd. fold skid. fold q.
  assert ((length q =? 0)%nat = false) as -> by (destruct q; done).
  rewrite (bind_run _ _ _ _ _ E). fwd. pose proof (loopDone_queue _ _ _ _ _ L) as Eq.
  destruct (o_branch o) eqn:Eb; [|destruct (o_rest o) as [|r rest] eqn:Er].
  1-2: rewrite Eq, bool_decide_eq_true_2 by done; cbn [negb]; fwd;
    match goal with |- context [when ?k wrote _] => destruct (wrote_end k s1) as [w Ew] end;
    exists s1, w; done.
  rewrite Eq, bool_decide_eq_false_2 by done. match goal with |- context [when (negb false) ?x] => change (when (negb false) x) with x end.
  fwd.
  unfold loopDone in L. rewrite Eb in L. pose proof L as (f & g & m' & E1 & Hfg & Ho & Mm).
  assert (M1 : coreMarks nothing (core s) (core s1)) by (by rewrite E1).
  assert (Hrest : forall p, p ∈ o_rest o -> p ∈ q) by apply decodeSpec_rest.
  assert (Hlen : (length (o_rest o) <= length q)%nat) by apply decodeSpec_rest_length.
  destruct (block_ok tid s1) as (b & f' & g' & E' & Hf' & Hg' & Ho').
  - intros p Hp. eapply coreMarks_good; [exact M1|]. apply Hg. rewrite E1 in Hp. cbn in Hp.
    rewrite elem_of_app. unfold q, queueOf in *. destruct skid, Hfg as [Ef Eg]; rewrite Eg in Hp;
      [by right|right; by apply Hrest].
  - replace (skidBuffer s1 tid) with (f tid) by (by rewrite E1).
    replace (insts s1 tid) with (g tid) by (by rewrite E1).
    rewrite length_app in *. unfold q, queueOf in *. destruct skid, Hfg as [-> ->]; lia.
  - replace (decodeStatus s1 tid) with (decodeStatus s tid) in E' by (by rewrite E1).
    rewrite decide_False in E' by done. rewrite (bind_run _ _ _ _ _ E'). fwd.
    match goal with |- context [when ?k wrote ?x] => destruct (wrote_end k x) as [w Ew] end.
    exists (blockedState f' g' tid s1), w. split_and!; [|exact Ew|by exists f', g'].
    unfold loopDone. by rewrite Eb.
Qed.

End Thread.
