(* ===== verification/DecodePath.v ===== *)
(** * The two ways a thread decodes

    A running thread decodes what just came in; an unblocking one decodes its
    skid buffer first, and keeps what came in meanwhile. *)

From stdpp Require Import base numbers list gmap functions.
From S2P Require Import Prelude Regs Monad DynInst Stage ROB ROBProps Decode DecodeInv DecodeStep DecodeLoop DecodeThread.

#[local] Open Scope Z_scope.

(** Prove that another thread's entries of an updated state are what they were. *)
Ltac other_thread :=
  split; intros t Ht; cbn;
  repeat match goal with |- context [if ?b then _ else _] => destruct b end;
  rewrite ?fn_lookup_insert_ne by done;
  first [done | match goal with
                | Ho : forall t, t <> _ -> _ /\ _ |- _ => by destruct (Ho t Ht)
                end].

Section Path.
Context {PC : Type} `{EqDecision PC} (branchTarget : InstPtr -> PC).
Context (cfg : DecodeConfig) (inp : DecodeIn).

#[local] Abbreviation St := (Decode PC).
#[local] Abbreviation spec := (decodeSpec branchTarget).

(** What decoding needs. *)
Record pathReady (s : St) (tid : ThreadID) : Prop := {
  pr_core : coreOK inp (core s);
  pr_slot : slotOK cfg s;
  pr_good : forall p, p ∈ skidBuffer s tid ++ insts s tid -> good (core s) tid p;
  pr_fetch : forall p, p ∈ insts s tid -> p ∈ fromFetch inp;
  pr_room : Z.of_nat (length (skidBuffer s tid ++ insts s tid)) <= skidBufferMax cfg;
  pr_block : decodeBlock s tid = false;
  pr_info : decodeInfo s tid = noComm
}.

Lemma slotOK_sent l (s s' : St) :
  slotOK cfg s -> (length l <= roomIn cfg s)%nat -> toRename s' = toRename s ++ l ->
  toRenameIndex s' = Z.of_nat (length (toRename s ++ l)) -> slotOK cfg s'.
Proof.
  unfold slotOK, roomIn. intros (Ei & Hw & Hm) Hl -> ->. rewrite length_app in *. lia.
Qed.

(** The parts of [threadDone] a loop without a misprediction settles. *)
Lemma goneOn_core skid tid o (s s1 : St) :
  goneOn skid tid o s s1 -> coreMarks nothing (core s) (core s1).
Proof. intros (f & g & m' & -> & _ & _ & M). done. Qed.

(** ** Running *)

(** The conclusions about the shared state. *)
Lemma branchSet_some c c' tid o br :
  o_branch o = Some br -> coreMarks (younger inp c (seqAt (mem c) br) tid) c c' ->
  coreMarks (branchSet inp c tid o) c c'.
Proof.
  intros Eb Mc. eapply coreMarks_ext; [|exact Mc]. intros p. unfold branchSet. by rewrite Eb.
Qed.

Lemma branchSet_none c c' tid o :
  o_branch o = None -> coreMarks nothing c c' -> coreMarks (branchSet inp c tid o) c c'.
Proof.
  intros Eb Mc. eapply coreMarks_ext; [|exact Mc]. intros p. unfold branchSet. by rewrite Eb.
Qed.

(** ... with a mispredicted branch. *)
Lemma running_branch b tid o br w (s s1 : St) :
  tookBack branchTarget inp tid br o s s1 -> o_branch o = Some br -> o_rest o = [] ->
  pathReady s tid -> (length (o_sent o) <= roomIn cfg s)%nat ->
  blocked (decodeStatus s tid) = false -> decodeUnblock s tid = b ->
  threadDone branchTarget cfg b tid (branchSet inp (core s) tid o) o s (wroteSlot w s1).
Proof.
  intros (f & g & c' & -> & Ef & Eg & Ho & Mc) Eb Er [Hc Hs Hg Hf Hr Hbl Hi] Hsl Hnb Hu.
  split; cbn; rewrite ?Eb, ?Er, ?fn_lookup_insert; try done; [other_thread|..].
  - by eapply slotOK_sent.
  - by eapply branchSet_some.
  - unfold signalled. cbn. rewrite fn_lookup_insert, Hnb, Hbl, Hu. by destruct b.
Qed.

(** ... to the end of the queue. *)
Lemma running_through b tid o w (s s1 : St) :
  goneOn false tid o s s1 -> o_branch o = None -> o_rest o = [] ->
  pathReady s tid -> (length (o_sent o) <= roomIn cfg s)%nat ->
  decodeStatus s tid = Running \/ decodeStatus s tid = Idle -> skidBuffer s tid = [] ->
  decodeUnblock s tid = b ->
  threadDone branchTarget cfg b tid (branchSet inp (core s) tid o) o s (wroteSlot w s1).
Proof.
  intros (f & g & m' & -> & [Ef Eg] & Ho & Mm) Eb Er [Hc Hs Hg Hf Hr Hbl Hi] Hsl Hst Hsk Hu.
  split; cbn; rewrite ?Eb, ?Ef, ?Eg, ?Hsk, ?Er; try done; [other_thread|..].
  - by eapply slotOK_sent.
  - by apply branchSet_none.
  - by destruct Hst as [->| ->].
  - by destruct Hst as [->| ->].
  - unfold signalled. cbn. rewrite Hbl, Hu. by destruct b, Hst as [->| ->].
Qed.

(** ... until there is no room. *)
Lemma running_full b tid o w f' g' (s s1 : St) :
  goneOn false tid o s s1 -> o_branch o = None -> pathReady s tid ->
  (length (o_sent o) <= roomIn cfg s)%nat -> skidBuffer s tid = [] -> decodeUnblock s tid = b ->
  f' tid = skidBuffer s1 tid ++ insts s1 tid /\ g' tid = [] /\
    (forall t, t <> tid -> f' t = skidBuffer s1 t /\ g' t = insts s1 t) ->
  threadDone branchTarget cfg b tid (branchSet inp (core s) tid o) o s
    (wroteSlot w (blockedState f' g' tid s1)).
Proof.
  intros (f & g & m' & -> & [Ef Eg] & Ho & Mm) Eb [Hc Hs Hg Hf Hr Hbl Hi] Hsl Hsk Hu
    (Hf' & Hg' & Ho'). cbn in Hf', Ho'. rewrite Ef, Eg, Hsk in Hf'.
  split; cbn; rewrite ?Eb, ?Hf', ?Hg', ?fn_lookup_insert; try done; [|..].
  - split; intros t Ht; cbn; rewrite ?Hu; destruct b; rewrite ?fn_lookup_insert_ne by done;
      try done; destruct (Ho' t Ht) as [A B]; destruct (Ho t Ht); congruence.
  - by eapply slotOK_sent.
  - by apply branchSet_none.
  - unfold signalled. cbn. rewrite !fn_lookup_insert, Hu. destruct b; cbn.
    + by rewrite fn_lookup_insert, Hbl.
    + by rewrite fn_lookup_insert, Hu.
Qed.

(** What the specification leaves after a misprediction. *)
Lemma decodeSpec_branch m pp room q br :
  o_branch (spec m pp room q) = Some br -> o_rest (spec m pp room q) = [].
Proof.
  intros Eb. destruct (decodeSpec_split branchTarget m pp room q) as (tk & rest & _ & _ & H).
  rewrite Eb in H. tauto.
Qed.

Lemma running_ok b tid (s : St) :
  let o := spec (mem (core s)) (predPC s) (roomIn cfg s) (insts s tid) in
  pathReady s tid -> decodeStatus s tid = Running \/ decodeStatus s tid = Idle ->
  skidBuffer s tid = [] -> decodeUnblock s tid = b ->
  exists s', decodeInsts branchTarget cfg inp tid s = Ok (tt, s') /\
    threadDone branchTarget cfg b tid (branchSet inp (core s) tid o) o s s'.
Proof.
  intros o [Hc Hs Hg Hf Hr Hbl Hi] Hst Hsk Hu.
  assert (Hub : decodeStatus s tid <> Unblocking) by (destruct Hst as [->| ->]; done).
  assert (Hnb : blocked (decodeStatus s tid) = false) by (destruct Hst as [->| ->]; done).
  assert (Hsl : (length (o_sent o) <= roomIn cfg s)%nat) by apply decodeSpec_sent_length.
  destruct (decide (insts s tid = [])) as [Ei|Ei].
  { exists s. unfold decodeInsts. fwd. rewrite bool_decide_eq_false_2 by done.
    unfold queueOf. rewrite Ei. split; [done|]. subst o. rewrite Ei. split; cbn; try done.
    - by rewrite app_nil_r.
    - eapply coreMarks_ext; [|apply coreMarks_refl]. done.
    - by destruct Hst as [->| ->].
    - unfold signalled. rewrite Hbl, Hu, Hnb. by destruct b. }
  pose proof (decodeInsts_ok branchTarget cfg inp tid s) as D. cbv zeta in D.
  rewrite bool_decide_eq_false_2 in D by done. unfold queueOf in D. fold o in D.
  destruct D as (s1 & s' & w & L & E & Hend); try done.
  { intros Ebl. rewrite Ebl in Hnb. done. }
  exists (wroteSlot w s'). split; [done|]. unfold loopDone in L.
  destruct (o_branch o) as [br|] eqn:Eb; [subst s'; eapply running_branch; eauto using decodeSpec_branch; by split|].
  destruct (o_rest o) eqn:Er; [subst s'; eapply running_through; eauto; by split|].
  destruct Hend as (f & g & -> & Hend). eapply running_full; eauto. by split.
Qed.

(** ** Unblocking *)

(** The end of an unblocking cycle. *)
Definition unblockTail (tid : ThreadID) : M St bool :=
  _ ← when (fetchInstsValid inp) (skidInsert cfg tid);
  unblock tid.

Definition drainedState (tid : ThreadID) (s : St) : St :=
  s <| decodeUnblock := <[tid := true]> (decodeUnblock s) |> <| wroteToTimeBuffer := true |>
    <| decodeStatus := <[tid := Running]> (decodeStatus s) |>.

Lemma unblockTail_ok tid (s : St) :
  (forall p, p ∈ insts s tid -> good (core s) tid p) ->
  (forall p, p ∈ insts s tid -> p ∈ fromFetch inp) ->
  Z.of_nat (length (skidBuffer s tid ++ insts s tid)) <= skidBufferMax cfg ->
  exists u f g, unblockTail tid s = Ok (u,
      let s1 := s <| skidBuffer := f |> <| insts := g |> in
      if decide (f tid = []) then drainedState tid s1 else s1) /\
    f tid = skidBuffer s tid ++ insts s tid /\ g tid = [] /\
    (forall t, t <> tid -> f t = skidBuffer s t /\ g t = insts s t).
Proof.
  intros Hg Hf Hn. unfold unblockTail, fetchInstsValid.
  assert (exists s1, when (negb (bool_decide (fromFetch inp = []))) (skidInsert cfg tid) s = Ok (tt, s1) /\
    withQueues tid (skidBuffer s tid ++ insts s tid) [] s s1) as (s1 & E & f & g & -> & W).
  { case_bool_decide as Hfe; cbn [negb when].
    - exists s. split; [done|]. exists (skidBuffer s), (insts s). split; [by destruct s|].
      destruct (insts s tid) as [|p l]; [by rewrite app_nil_r|].
      specialize (Hf p ltac:(by left)). rewrite Hfe in Hf. by apply not_elem_of_nil in Hf.
    - destruct (skidInsert_ok cfg tid s Hg Hn) as (s1 & E & W). eauto. }
  rewrite (bind_run _ _ _ _ _ E). destruct (unblock_ok tid (s <| skidBuffer := f |> <| insts := g |>)) as [u Eu].
  exists u, f, g. split; [exact Eu|]. tauto.
Qed.

(** The outcome for an unblocking thread. *)
Definition unblockOut (o : Outcome) (ins : list InstPtr) : Outcome :=
  match o_branch o with
  | Some _ => o
  | None => mkOut (o_sent o) (o_rest o ++ ins) None
  end.

Lemma unblocking_branch tid o br w (s s1 : St) :
  tookBack branchTarget inp tid br o s s1 -> o_branch o = Some br -> o_rest o = [] ->
  pathReady s tid -> (length (o_sent o) <= roomIn cfg s)%nat ->
  decodeStatus s tid = Unblocking ->
  exists u s', unblockTail tid (wroteSlot w s1) = Ok (u, s') /\
    threadDone branchTarget cfg true tid (branchSet inp (core s) tid o) o s s'.
Proof.
  intros (f & g & c' & -> & Ef & Eg & Ho & Mc) Eb Er [Hc Hs Hg Hf Hr Hbl Hi] Hsl Hst.
  edestruct (unblockTail_ok tid) as (u & f2 & g2 & E & Hf2 & Hg2 & Ho2); [..|rewrite E].
  1-2: cbn; rewrite Eg; intros p []%not_elem_of_nil.
  { cbn. rewrite Ef, Eg. cbn in *. lia. }
  cbn in Hf2, Ho2. rewrite Ef, Eg in Hf2. cbn in Hf2. cbv zeta. rewrite decide_True by done.
  do 2 eexists. split; [done|]. clear E. split; cbn; rewrite ?Eb, ?Hf2, ?Hg2, ?Er, ?fn_lookup_insert; try done.
  - assert (Hbb : blocked (decodeStatus s tid) = true) by (by rewrite Hst).
    split; intros t Ht; cbn; rewrite ?Hbb; rewrite ?fn_lookup_insert_ne by done; try done;
      destruct (Ho2 t Ht); destruct (Ho t Ht); congruence.
  - by eapply slotOK_sent.
  - by eapply branchSet_some.
  - unfold signalled. cbn. by rewrite !fn_lookup_insert, Hbl.
Qed.

Lemma unblocking_through tid o w (s s1 : St) :
  goneOn true tid o s s1 -> o_branch o = None -> o_rest o = [] ->
  pathReady s tid -> (length (o_sent o) <= roomIn cfg s)%nat ->
  decodeStatus s tid = Unblocking -> decodeUnblock s tid = false ->
  exists u s', unblockTail tid (wroteSlot w s1) = Ok (u, s') /\
    threadDone branchTarget cfg true tid (branchSet inp (core s) tid o) (unblockOut o (insts s tid)) s s'.
Proof.
  intros (f & g & m' & -> & [Ef Eg] & Ho & Mm) Eb Er [Hc Hs Hg Hf Hr Hbl Hi] Hsl Hst Hu.
  rewrite length_app in Hr.
  assert (M1 : coreMarks nothing (core s) (core s <| mem := m' |>)) by done.
  edestruct (unblockTail_ok tid) as (u & f2 & g2 & E & Hf2 & Hg2 & Ho2); [..|rewrite E].
  - cbn. rewrite Eg. intros p Hp. eapply coreMarks_good; [exact M1|]. apply Hg. set_solver.
  - cbn. by rewrite Eg.
  - cbn. rewrite Ef, Eg, Er. cbn. lia.
  - cbn in Hf2, Ho2. rewrite Ef, Eg, Er in Hf2. cbn in Hf2. cbv zeta. clear E.
    unfold unblockOut. rewrite Eb. do 2 eexists. split; [done|].
    case_decide as Hfe; split; cbn; rewrite ?Hf2, ?Hg2, ?Er, ?fn_lookup_insert; try done.
    1,6: split; intros t Ht; cbn; rewrite ?fn_lookup_insert_ne by done; try done;
      destruct (Ho2 t Ht); destruct (Ho t Ht); congruence.
    1,5: by eapply slotOK_sent.
    1,4: by apply branchSet_none.
    + by rewrite <- Hf2, Hfe.
    + unfold signalled. cbn. by rewrite !fn_lookup_insert, Hbl.
    + by rewrite Hst.
    + by rewrite Hst.
    + by rewrite <- Hf2.
    + unfold signalled. cbn. by rewrite Hbl, Hu, Hst.
Qed.

Lemma unblocking_full tid o w f' g' (s s1 : St) :
  goneOn true tid o s s1 -> o_branch o = None -> o_rest o <> [] ->
  (forall p, p ∈ o_rest o -> p ∈ skidBuffer s tid) ->
  (length (o_rest o) <= length (skidBuffer s tid))%nat ->
  pathReady s tid -> (length (o_sent o) <= roomIn cfg s)%nat -> decodeUnblock s tid = false ->
  f' tid = skidBuffer s1 tid ++ insts s1 tid /\ g' tid = [] /\
    (forall t, t <> tid -> f' t = skidBuffer s1 t /\ g' t = insts s1 t) ->
  exists u s', unblockTail tid (wroteSlot w (blockedState f' g' tid s1)) = Ok (u, s') /\
    threadDone branchTarget cfg true tid (branchSet inp (core s) tid o) (unblockOut o (insts s tid)) s s'.
Proof.
  intros (f & g & m' & -> & [Ef Eg] & Ho & Mm) Eb Er Hin Hlen [Hc Hs Hg Hf Hr Hbl Hi] Hsl Hu
    (Hf' & Hg' & Ho'). cbn in Hf', Ho'. rewrite Ef, Eg in Hf'. rewrite length_app in Hr.
  edestruct (unblockTail_ok tid) as (u & f2 & g2 & E & Hf2 & Hg2 & Ho2); [..|rewrite E].
  1-2: cbn; rewrite Hg'; intros p []%not_elem_of_nil.
  { cbn. rewrite Hf', Hg', !length_app. cbn. lia. }
  cbn in Hf2, Ho2. rewrite Hf', Hg', app_nil_r in Hf2. cbv zeta. clear E.
  assert (Hne : o_rest o ++ insts s tid <> []) by (destruct (o_rest o); done).
  rewrite decide_False by (by rewrite Hf2). unfold unblockOut. rewrite Eb.
  do 2 eexists. split; [done|].
  split; cbn; rewrite ?Hf2, ?Hg2, ?fn_lookup_insert; try done.
  - split; intros t Ht; cbn; rewrite ?Hu; rewrite ?fn_lookup_insert_ne by done; try done;
      destruct (Ho2 t Ht); destruct (Ho' t Ht); destruct (Ho t Ht); congruence.
  - by eapply slotOK_sent.
  - by apply branchSet_none.
  - unfold signalled. cbn. by rewrite Hu, !fn_lookup_insert, Hu.
Qed.

Lemma unblocking_ok tid (s : St) :
  let o := spec (mem (core s)) (predPC s) (roomIn cfg s) (skidBuffer s tid) in
  pathReady s tid -> decodeStatus s tid = Unblocking ->
  skidBuffer s tid <> [] -> decodeUnblock s tid = false ->
  exists u s', (decodeInsts branchTarget cfg inp tid ≫= λ _, unblockTail tid) s = Ok (u, s') /\
    threadDone branchTarget cfg true tid (branchSet inp (core s) tid o) (unblockOut o (insts s tid)) s s'.
Proof.
  intros o Hp Hst Hsk Hu. pose proof Hp as [Hc Hs Hg Hf Hr Hbl Hi].
  assert (Hsl : (length (o_sent o) <= roomIn cfg s)%nat) by apply decodeSpec_sent_length.
  pose proof (decodeInsts_ok branchTarget cfg inp tid s) as D. cbv zeta in D.
  rewrite bool_decide_eq_true_2 in D by done. unfold queueOf in D. fold o in D.
  destruct D as (s1 & s' & w & L & E & Hend); try done.
  { by rewrite Hst. }
  rewrite (bind_run _ _ _ _ _ E). unfold loopDone in L.
  destruct (o_branch o) as [br|] eqn:Eb.
  - subst s'. replace (unblockOut o (insts s tid)) with o by (unfold unblockOut; by rewrite Eb).
    eapply unblocking_branch; eauto using decodeSpec_branch.
  - destruct (o_rest o) as [|r rest] eqn:Er; [subst s'; by eapply unblocking_through|].
    destruct Hend as (f & g & -> & Hend). eapply unblocking_full; eauto.
    + by rewrite Er.
    + apply decodeSpec_rest.
    + apply decodeSpec_rest_length.
Qed.

End Path.
