(* ===== verification/DecodeCycle.v ===== *)
(** * A cycle of the decode stage

    The stage over all active threads: a cycle runs to the end, and each thread
    ends up as [threadSpec] says, with the room the threads before it left. *)

From stdpp Require Import base numbers list gmap functions.
From S2P Require Import Prelude Regs Monad DynInst Stage ROB ROBProps Decode DecodeInv DecodeStep DecodeLoop DecodeThread DecodePath.

#[local] Open Scope Z_scope.

Section Cycle.
Context {PC : Type} `{EqDecision PC} (branchTarget : InstPtr -> PC).
Context (cfg : DecodeConfig) (inp : DecodeIn).

#[local] Abbreviation St := (Decode PC).
#[local] Abbreviation spec := (decodeSpec branchTarget).

(** ** What no operation but [readStallSignals] touches *)

Lemma decodeOne_stalls v p :
  keeps (fun s : St => stalls_rename s = v) (decodeOne branchTarget inp p).
Proof.
  unfold decodeOne, squash_inst, clearQueues, sendToRename, setMem, setThreadStatus,
    setDecodeUnblock, instOf. keeps_auto; done.
Qed.

Lemma skidInsert_stalls v tid : keeps (fun s : St => stalls_rename s = v) (skidInsert cfg tid).
Proof. unfold skidInsert, instOf. keeps_auto; done. Qed.

Lemma block_stalls v tid : keeps (fun s : St => stalls_rename s = v) (block cfg tid).
Proof.
  unfold block, setThreadStatus, setDecodeUnblock, setDecodeBlock, wrote. pose proof skidInsert_stalls.
  keeps_auto; try done; auto.
Qed.

Lemma decodeLoop_stalls v skid tid n :
  keeps (fun s : St => stalls_rename s = v) (decodeLoop branchTarget cfg inp skid tid n).
Proof.
  pose proof (decodeOne_stalls v). induction n as [|n IH]; cbn; keeps_auto; auto.
  by destruct skid.
Qed.

Lemma decode_stalls v sc tid :
  keeps (fun s : St => stalls_rename s = v) (decode branchTarget cfg inp sc tid).
Proof.
  unfold decode, decodeInsts, unblock, setDecodeUnblock, wrote, setThreadStatus.
  pose proof (decodeLoop_stalls v). pose proof (block_stalls v). pose proof (skidInsert_stalls v).
  keeps_auto; try done; auto.
Qed.

(** ** The signals *)

Lemma readStallSignals_ok tid (s : St) :
  (renameUnblock inp tid = true -> stalls_rename s tid || renameBlock inp tid = true) ->
  exists f, readStallSignals inp tid s = Ok (tt, s <| stalls_rename := f |>) /\
    f tid = stallNow inp s tid /\ forall t, t <> tid -> f t = stalls_rename s t.
Proof.
  intros Hu. unfold readStallSignals, stallNow.
  destruct (renameBlock inp tid), (renameUnblock inp tid); cbn [when]; fwd.
  - flat. rewrite fn_lookup_insert. fwd. eexists. split; [done|]. cbn. rewrite fn_lookup_insert.
    split; [done|]. intros t Ht. by rewrite !fn_lookup_insert_ne.
  - eexists. split; [done|]. rewrite fn_lookup_insert, orb_true_r. split; [done|].
    intros t Ht. by rewrite fn_lookup_insert_ne.
  - rewrite orb_false_r in Hu. rewrite Hu by done. fwd. eexists. split; [done|].
    rewrite fn_lookup_insert. split; [done|]. intros t Ht. by rewrite fn_lookup_insert_ne.
  - exists (stalls_rename s). rewrite orb_false_r. split; [by destruct s|done].
Qed.

(** [threadDone] is about what the cycle started from; what changed before
    decoding is not seen in it. *)
Lemma threadDone_from b tid f o (s s1 s' : St) :
  othersSame tid s s1 -> core s1 = core s -> predPC s1 = predPC s -> toRename s1 = toRename s ->
  threadDone branchTarget cfg b tid f o s1 s' -> threadDone branchTarget cfg b tid f o s s'.
Proof.
  intros Ho Ec Ep Et [T1 T2 T3 T4 T5 T6 T7 T8 T9 T10 T11 T12]. rewrite Ec in *. rewrite Ep, Et in *.
  split; try done. by eapply othersSame_trans.
Qed.

Lemma threadDone_set b tid f f' o (s s' : St) :
  (forall p, f p = f' p) -> threadDone branchTarget cfg b tid f o s s' ->
  threadDone branchTarget cfg b tid f' o s s'.
Proof.
  intros E [T1 T2 T3 T4 T5 T6 T7 T8 T9 T10 T11 T12]. split; try done. by eapply coreMarks_ext.
Qed.

(** The rest of the thread's cycle, from the status after the signals. *)
Lemma decode_running b sc tid (s : St) :
  let o := spec (mem (core s)) (predPC s) (roomIn cfg s) (insts s tid) in
  pathReady cfg inp s tid -> decodeStatus s tid = Running \/ decodeStatus s tid = Idle ->
  skidBuffer s tid = [] -> decodeUnblock s tid = b ->
  exists sc' s', decode branchTarget cfg inp sc tid s = Ok (sc', s') /\
    threadDone branchTarget cfg b tid (branchSet inp (core s) tid o) o s s'.
Proof.
  intros o Hp Hst Hsk Hu. unfold decode. fwd. rewrite decide_True by done.
  destruct (running_ok branchTarget cfg inp b tid s Hp Hst Hsk Hu) as (s' & E & T).
  rewrite (bind_run _ _ _ _ _ E). fwd. eauto.
Qed.

Lemma decode_unblocking sc tid (s : St) :
  let o := spec (mem (core s)) (predPC s) (roomIn cfg s) (skidBuffer s tid) in
  tid ∈ activeThreads cfg ->
  pathReady cfg inp s tid -> decodeStatus s tid = Unblocking ->
  skidBuffer s tid <> [] -> decodeUnblock s tid = false ->
  exists sc' s', decode branchTarget cfg inp sc tid s = Ok (sc', s') /\
    threadDone branchTarget cfg true tid (branchSet inp (core s) tid o)
      (unblockOut o (insts s tid)) s s'.
Proof.
  intros o Ha Hp Hst Hsk Hu. unfold decode. fwd. rewrite Hst.
  rewrite decide_False by (intros [?|?]; done). rewrite decide_True by done. fwd.
  assert (skidsEmpty cfg s = false) as ->.
  { unfold skidsEmpty. apply not_true_is_false. rewrite forallb_forall. intros H.
    apply list_elem_of_In in Ha. specialize (H tid Ha). by apply bool_decide_eq_true in H. }
  cbn [negb]. fwd.
  destruct (unblocking_ok branchTarget cfg inp tid s Hp Hst Hsk Hu) as (u & s' & E & T).
  unfold unblockTail in E. apply bind_ok in E as (u1 & s1 & E1 & E).
  apply bind_ok in E as (u2 & s2 & E2 & E3).
  rewrite (bind_run _ _ _ _ _ E1). rewrite (bind_run _ _ _ _ _ E2).
  rewrite (bind_run _ _ _ _ _ E3). fwd. eauto.
Qed.

Lemma decode_waiting sc tid (s : St) :
  decodeStatus s tid = Blocked \/ decodeStatus s tid = Squashing ->
  decode branchTarget cfg inp sc tid s = Ok (sc, s).
Proof. intros [E|E]; unfold decode; fwd; rewrite E; done. Qed.

(** ** A thread *)

(** The thread's cycle: its signals, then decoding. *)
Definition threadStep (sc : bool) (tid : ThreadID) : M St bool :=
  c ← checkSignalsAndUpdate cfg inp tid;
  decode branchTarget cfg inp (c || sc) tid.

Definition threadOut (s : St) (tid : ThreadID) : Outcome :=
  threadSpec branchTarget (mem (core s)) (predPC s) (roomIn cfg s) (commit_squash inp tid)
    (stallNow inp s tid) (skidBuffer s tid) (insts s tid).

Lemma thread_squash sc tid (s : St) :
  commit_squash inp tid = true -> coreOK inp (core s) -> slotOK cfg s -> threadReady cfg inp s tid ->
  exists sc' s', threadStep sc tid s = Ok (sc', s') /\
    threadDone branchTarget cfg (blocked (decodeStatus s tid)) tid
      (squashSet inp (core s) tid (threadOut s tid)) (threadOut s tid) s s' /\
    stalls_rename s' tid = stallNow inp s tid.
Proof.
  intros Hcs Hc Hs [Hg Hf Hst Hsk Hub Hr [Hbl Hu] Hi Hstall].
  destruct (readStallSignals_ok tid s Hstall) as (f & E & Ef & Hof).
  match type of E with _ = Ok (_, ?x) => set (s0 := x) in E end.
  destruct (commitSquash_ok branchTarget cfg inp tid s0 Hc Hbl) as (k & c' & Ek & Mc).
  unfold threadStep, checkSignalsAndUpdate. fwd. rewrite (bind_run _ _ _ _ _ E).
  cbv beta. rewrite Hcs. cbv iota. fwd. rewrite (bind_run _ _ _ _ _ Ek). fwd.
  rewrite decode_waiting by (right; cbn; by rewrite fn_lookup_insert).
  do 2 eexists. split; [done|]. split; [|exact Ef].
  unfold threadOut, threadSpec. rewrite Hcs.
  split; cbn; rewrite ?fn_lookup_insert; try done.
  - split; intros t Ht; cbn; destruct (blocked _); rewrite ?fn_lookup_insert_ne by done;
      try done; by apply Hof.
  - by rewrite app_nil_r.
  - eapply coreMarks_ext; [|exact Mc]. intros p. unfold squashSet. by rewrite Hcs.
  - unfold signalled. cbn. rewrite fn_lookup_insert, Hbl.
    destruct (blocked _); cbn; by rewrite ?fn_lookup_insert, ?Hu.
Qed.

Lemma thread_stalled sc tid (s : St) :
  commit_squash inp tid = false -> stallNow inp s tid = true ->
  coreOK inp (core s) -> slotOK cfg s -> threadReady cfg inp s tid ->
  exists sc' s', threadStep sc tid s = Ok (sc', s') /\
    threadDone branchTarget cfg (blocked (decodeStatus s tid)) tid
      (squashSet inp (core s) tid (threadOut s tid)) (threadOut s tid) s s' /\
    stalls_rename s' tid = stallNow inp s tid.
Proof.
  intros Hcs Hsn Hc Hs [Hg Hf Hst Hsk Hub Hr [Hbl Hu] Hi Hstall].
  destruct (readStallSignals_ok tid s Hstall) as (f & E & Ef & Hof).
  match type of E with _ = Ok (_, ?x) => set (s0 := x) in E end.
  destruct (block_ok cfg tid s0) as (b & f' & g' & Eb & Hf' & Hg' & Ho').
  { intros p Hp. apply Hg. cbn in Hp. set_solver. }
  { exact Hr. }
  unfold threadStep, checkSignalsAndUpdate, checkStall. fwd. rewrite (bind_run _ _ _ _ _ E).
  cbv beta. rewrite Hcs. cbv iota. fwd.
  change (stalls_rename s0 tid) with (f tid). rewrite Ef, Hsn. cbv iota.
  rewrite (bind_run _ _ _ _ _ Eb).
  rewrite decode_waiting by (left; case_decide; [done|]; cbn; by rewrite fn_lookup_insert).
  do 2 eexists. split; [done|]. unfold threadOut, threadSpec. rewrite Hcs, Hsn.
  cbn in Hf', Ho'. clear Eb E.
  split; [|by case_decide; cbn; rewrite Ef].
  case_decide as Hd; cbn in Hd; split; cbn; rewrite ?Hf', ?Hg', ?fn_lookup_insert; try done.
  all: try first
    [ by rewrite app_nil_r | by rewrite Hd
    | eapply coreMarks_ext; [|apply coreMarks_refl]; intros p; unfold squashSet; by rewrite Hcs
    | split; intros t Ht; cbn; rewrite ?Hu, ?fn_lookup_insert_ne by done; try done;
      first [by apply Hof | by destruct (Ho' t Ht)]].
  - unfold signalled. cbn. by rewrite Hbl, Hu, Hd.
  - unfold signalled. cbn. by rewrite Hu, !fn_lookup_insert, Hu.
Qed.

(** The state after the signals, as far as decoding is concerned. *)
Record agrees (tid : ThreadID) (s s1 : St) : Prop := {
  ag_others : othersSame tid s s1;
  ag_core : core s1 = core s;
  ag_pred : predPC s1 = predPC s;
  ag_sent : toRename s1 = toRename s;
  ag_index : toRenameIndex s1 = toRenameIndex s;
  ag_skid : skidBuffer s1 tid = skidBuffer s tid;
  ag_insts : insts s1 tid = insts s tid;
  ag_block : decodeBlock s1 tid = decodeBlock s tid;
  ag_info : decodeInfo s1 tid = decodeInfo s tid
}.

Lemma agrees_ready tid (s s1 : St) :
  agrees tid s s1 -> coreOK inp (core s) -> slotOK cfg s -> threadReady cfg inp s tid ->
  pathReady cfg inp s1 tid /\ roomIn cfg s1 = roomIn cfg s.
Proof.
  intros [_ Ec _ Et Ei Es En Eb Ef] Hc (S1 & S2 & S3) [Hg Hf _ _ _ Hr [Hbl _] Hi _].
  split; [|unfold roomIn; by rewrite Et].
  split; rewrite ?Ec, ?Es, ?En, ?Eb, ?Ef; try done. unfold slotOK. by rewrite Ei, Et.
Qed.

Lemma going_running sc tid (s s1 : St) :
  commit_squash inp tid = false -> stallNow inp s tid = false ->
  agrees tid s s1 -> coreOK inp (core s) -> slotOK cfg s -> threadReady cfg inp s tid ->
  decodeStatus s1 tid = Running \/ decodeStatus s1 tid = Idle -> skidBuffer s tid = [] ->
  decodeUnblock s1 tid = blocked (decodeStatus s tid) ->
  exists sc' s', decode branchTarget cfg inp sc tid s1 = Ok (sc', s') /\
    threadDone branchTarget cfg (blocked (decodeStatus s tid)) tid
      (squashSet inp (core s) tid (threadOut s tid)) (threadOut s tid) s s'.
Proof.
  intros Hcs Hsn Ha Hc Hs Ht Hst Hsk Hu. destruct (agrees_ready tid s s1 Ha Hc Hs Ht) as [Hp Hr].
  destruct Ha as [Ho Ec Ep Et Ei Es En Eb Ef].
  destruct (decode_running (blocked (decodeStatus s tid)) sc tid s1) as (sc' & s' & E & T);
    [done|done|by rewrite Es|done|].
  exists sc', s'. split; [done|]. apply (threadDone_from _ tid _ _ s s1); try done.
  rewrite Hr, Ec, Ep, En in T. unfold threadOut, threadSpec. rewrite Hcs, Hsn, Hsk.
  eapply threadDone_set; [|exact T]. intros p. unfold squashSet, branchSet. by rewrite Hcs.
Qed.

Lemma going_unblocking sc tid (s s1 : St) :
  tid ∈ activeThreads cfg ->
  commit_squash inp tid = false -> stallNow inp s tid = false ->
  agrees tid s s1 -> coreOK inp (core s) -> slotOK cfg s -> threadReady cfg inp s tid ->
  decodeStatus s1 tid = Unblocking -> skidBuffer s tid <> [] -> decodeUnblock s1 tid = false ->
  exists sc' s', decode branchTarget cfg inp sc tid s1 = Ok (sc', s') /\
    threadDone branchTarget cfg (blocked (decodeStatus s tid)) tid
      (squashSet inp (core s) tid (threadOut s tid)) (threadOut s tid) s s'.
Proof.
  intros Hact Hcs Hsn Ha Hc Hs Ht Hst Hsk Hu.
  destruct (agrees_ready tid s s1 Ha Hc Hs Ht) as [Hp Hr].
  destruct Ha as [Ho Ec Ep Et Ei Es En Eb Ef].
  destruct (decode_unblocking sc tid s1) as (sc' & s' & E & T); [done|done|done|by rewrite Es|done|].
  exists sc', s'. split; [done|]. apply (threadDone_from _ tid _ _ s s1); try done.
  rewrite Hr, Ec, Ep, En, Es in T. unfold threadOut, threadSpec. rewrite Hcs, Hsn.
  rewrite (tr_skid _ _ _ _ Ht Hsk).
  destruct (skidBuffer s tid) as [|q l]; [done|]. eapply threadDone_set; [|exact T].
  intros p. unfold squashSet, branchSet, unblockOut. rewrite Hcs.
  by destruct (o_branch (spec _ _ _ _)) eqn:Eo; rewrite ?Eo.
Qed.

(** The signals, when the thread is to decode: it is running, or unblocking
    with something in its skid buffer. *)
Lemma signals_going tid (s : St) :
  commit_squash inp tid = false -> stallNow inp s tid = false -> threadReady cfg inp s tid ->
  exists c s1, checkSignalsAndUpdate cfg inp tid s = Ok (c, s1) /\
    stalls_rename s1 tid = stallNow inp s tid /\ agrees tid s s1 /\
    if decide (skidBuffer s tid = []) then
      (decodeStatus s1 tid = Running \/ decodeStatus s1 tid = Idle) /\
      decodeUnblock s1 tid = blocked (decodeStatus s tid)
    else decodeStatus s1 tid = Unblocking /\ decodeUnblock s1 tid = false.
Proof.
  intros Hcs Hsn [_ _ Hst Hsk Hub _ [Hbl Hu] Hi Hstall].
  destruct (readStallSignals_ok tid s Hstall) as (f & E & Ef & Hof).
  match type of E with _ = Ok (_, ?x) => set (s0 := x) in E end.
  unfold checkSignalsAndUpdate, checkStall, setThreadStatus. rewrite (bind_run _ _ _ _ _ E). cbv beta.
  rewrite Hcs. cbv iota. fwd. change (stalls_rename s0 tid) with (f tid). rewrite Ef, Hsn. cbv iota.
  fwd. change (decodeStatus s0) with (decodeStatus s).
  assert (Eff : f tid = false) by congruence.
  assert (Ho : agrees tid s s0) by (by split; [split|..]).
  case_decide as Hb; [|case_decide as Hq].
  - fwd. match goal with |- context [(unblock tid ≫= _) ?x] =>
      destruct (unblock_ok tid x) as [u Eu] end.
    rewrite (bind_run _ _ _ _ _ Eu). fwd. do 2 eexists. split; [done|]. clear Eu.
    change (skidBuffer _ tid) with (skidBuffer s tid).
    case_decide; cbn; rewrite ?fn_lookup_insert, ?Hb; (split_and!; try done; try exact Eff); try (by left);
      (split; cbn; try done); split; intros t Ht; cbn; rewrite ?fn_lookup_insert_ne by done;
      try done; by apply Hof.
  - fwd. do 2 eexists. split; [done|].
    assert (skidBuffer s tid = []) as Hn.
    { destruct (decide (skidBuffer s tid = [])) as [|Hn]; [done|]. apply Hsk in Hn. by rewrite Hq in Hn. }
    rewrite decide_True by done. cbn. rewrite fn_lookup_insert, Hq.
    split_and!; [exact Eff| |by left|done]. split; cbn; try done.
    split; intros t Ht; cbn; rewrite ?fn_lookup_insert_ne by done; try done; by apply Hof.
  - fwd. do 2 eexists. split_and!; [done|exact Eff|done|]. cbn. case_decide as Hn.
    + destruct (decodeStatus s tid) eqn:Est; try done; [by auto..|]. by destruct (Hub eq_refl).
    + specialize (Hsk Hn). by destruct (decodeStatus s tid).
Qed.

Lemma thread_going sc tid (s : St) :
  tid ∈ activeThreads cfg -> commit_squash inp tid = false -> stallNow inp s tid = false ->
  coreOK inp (core s) -> slotOK cfg s -> threadReady cfg inp s tid ->
  exists sc' s', threadStep sc tid s = Ok (sc', s') /\
    threadDone branchTarget cfg (blocked (decodeStatus s tid)) tid
      (squashSet inp (core s) tid (threadOut s tid)) (threadOut s tid) s s' /\
    stalls_rename s' tid = stallNow inp s tid.
Proof.
  intros Hact Hcs Hsn Hc Hs Ht.
  destruct (signals_going tid s Hcs Hsn Ht) as (c & s1 & E1 & Es1 & Ha & H1).
  assert (exists sc' s', decode branchTarget cfg inp (c || sc) tid s1 = Ok (sc', s') /\
    threadDone branchTarget cfg (blocked (decodeStatus s tid)) tid
      (squashSet inp (core s) tid (threadOut s tid)) (threadOut s tid) s s') as (sc' & s' & E2 & T).
  { case_decide; destruct H1 as [Hst Hu]; [by eapply going_running|by eapply going_unblocking]. }
  exists sc', s'. unfold threadStep. rewrite (bind_run _ _ _ _ _ E1). split_and!; [done..|].
  by rewrite (decode_stalls _ _ _ _ _ _ eq_refl E2).
Qed.

Lemma thread_ok sc tid (s : St) :
  tid ∈ activeThreads cfg -> coreOK inp (core s) -> slotOK cfg s -> threadReady cfg inp s tid ->
  exists sc' s', threadStep sc tid s = Ok (sc', s') /\
    threadDone branchTarget cfg (blocked (decodeStatus s tid)) tid
      (squashSet inp (core s) tid (threadOut s tid)) (threadOut s tid) s s' /\
    stalls_rename s' tid = stallNow inp s tid.
Proof.
  intros Ha Hc Hs Ht. destruct (commit_squash inp tid) eqn:E1; [by apply thread_squash|].
  destruct (Sumbool.sumbool_of_bool (stallNow inp s tid)) as [E2|E2];
    [by apply thread_stalled|by apply thread_going].
Qed.

End Cycle.
