(* ===== verification/DecodeTick.v ===== *)
(** * The decode stage over its threads

    The loop of [tick] over the active threads, and the cycle around it: the
    threads take their turns on what room is left, and do not disturb each
    other. *)

From stdpp Require Import base numbers list gmap functions.
From S2P Require Import Prelude Regs Monad DynInst Stage ROB ROBProps Decode DecodeInv DecodeStep DecodeLoop DecodeThread DecodePath DecodeCycle.

#[local] Open Scope Z_scope.

Section Tick.
Context {PC : Type} `{EqDecision PC} (branchTarget : InstPtr -> PC).
Context (cfg : DecodeConfig) (inp : DecodeIn).

#[local] Abbreviation St := (Decode PC).

(** ** Definitions *)

(** What becomes of a thread with room for [room] instructions. *)
Definition outWith (s : St) (t : ThreadID) (room : nat) : Outcome :=
  threadSpec branchTarget (mem (core s)) (predPC s) room (commit_squash inp t)
    (stallNow inp s t) (skidBuffer s t) (insts s t).

(** The threads take turns. *)
Fixpoint outs (s : St) (l : list ThreadID) (room : nat) : list (ThreadID * Outcome) :=
  match l with
  | [] => []
  | t :: l => let o := outWith s t room in (t, o) :: outs s l (room - length (o_sent o))
  end.

(** How a thread ends the cycle. *)
Record threadEnd (s s' : St) (t : ThreadID) (o : Outcome) : Prop := {
  te_skid : skidBuffer s' t = o_rest o;
  te_insts : insts s' t = [];
  te_info : decodeInfo s' t =
    match o_branch o with Some br => branchInfo branchTarget (mem (core s)) br | None => noComm end;
  te_status : decodeStatus s' t <> StartSquash;
  te_blocked : skidBuffer s' t <> [] -> blocked (decodeStatus s' t) = true;
  te_unblocking : decodeStatus s' t = Unblocking -> skidBuffer s' t <> [];
  te_signalled : signalled (blocked (decodeStatus s t)) t s';
  te_stall : stalls_rename s' t = stallNow inp s t
}.

(** A thread that was left alone. *)
Record threadSame (s s' : St) (t : ThreadID) : Prop := {
  sm_status : decodeStatus s' t = decodeStatus s t;
  sm_insts : insts s' t = insts s t;
  sm_skid : skidBuffer s' t = skidBuffer s t;
  sm_stalls : stalls_rename s' t = stalls_rename s t;
  sm_block : decodeBlock s' t = decodeBlock s t;
  sm_unblock : decodeUnblock s' t = decodeUnblock s t;
  sm_info : decodeInfo s' t = decodeInfo s t
}.

Definition squashedBy (c : Core) (l : list (ThreadID * Outcome)) (p : InstPtr) : bool :=
  existsb (fun '(t, o) => squashSet inp c t o p) l.

Definition branchOf (l : list (ThreadID * Outcome)) (p : InstPtr) : bool :=
  existsb (fun '(_, o) => bool_decide (o_branch o = Some p)) l.

Definition allSent (l : list (ThreadID * Outcome)) : list InstPtr :=
  concat (map (fun '(_, o) => o_sent o) l).

Record threadsDone (l : list (ThreadID * Outcome)) (s s' : St) : Prop := {
  ts_end : forall t o, (t, o) ∈ l -> threadEnd s s' t o;
  ts_same : forall t, t ∉ l.*1 -> threadSame s s' t;
  ts_sent : toRename s' = toRename s ++ allSent l;
  ts_slot : slotOK cfg s';
  ts_core : coreMarks (squashedBy (core s) l) (core s) (core s');
  ts_pred : forall p, predPC s' p = if branchOf l p then branchTarget p else predPC s p
}.

(** ** Threads do not disturb each other *)

Lemma othersSame_same tid (s s' : St) t : othersSame tid s s' -> t <> tid -> threadSame s s' t.
Proof. intros [] Ht. split; auto. Qed.

Lemma threadSame_ready f (s s' : St) t :
  threadSame s s' t -> coreMarks f (core s) (core s') -> threadReady cfg inp s t ->
  threadReady cfg inp s' t.
Proof.
  intros [Est Ein Esk Esl Ebl Eub Eif] Mc [R1 R2 R3 R4 R5 R6 R7 R8 R9].
  split; rewrite ?Est, ?Ein, ?Esk, ?Esl, ?Ebl, ?Eub, ?Eif; try done.
  intros p Hp. eapply coreMarks_good; [exact Mc|]. by apply R1.
Qed.

Lemma threadSame_end (s s1 s2 : St) t o :
  threadSame s1 s2 t -> threadEnd s s1 t o -> threadEnd s s2 t o.
Proof.
  intros [Est Ein Esk Esl Ebl Eub Eif] [T1 T2 T3 T4 T5 T6 T7 T8].
  split; rewrite ?Est, ?Ein, ?Esk, ?Esl, ?Eif; try done.
  unfold signalled. by rewrite Est, Ebl, Eub.
Qed.

Lemma threadSame_trans (s1 s2 s3 : St) t :
  threadSame s1 s2 t -> threadSame s2 s3 t -> threadSame s1 s3 t.
Proof. intros [] []. split; congruence. Qed.

Lemma stallNow_same (s s1 : St) t : threadSame s s1 t -> stallNow inp s1 t = stallNow inp s t.
Proof. intros Hsm. unfold stallNow. by rewrite (sm_stalls _ _ _ Hsm). Qed.

(** Starting from the state another thread left. *)
Lemma threadEnd_from f (s s1 s' : St) t o :
  threadSame s s1 t -> coreMarks f (core s) (core s1) ->
  threadEnd s1 s' t o -> threadEnd s s' t o.
Proof.
  intros Hsm [[Hev _] _] [T1 T2 T3 T4 T5 T6 T7 T8].
  split; try done.
  - rewrite T3. destruct (o_branch o); [|done]. by apply branchInfo_evolves.
  - by rewrite (sm_status _ _ _ Hsm) in T7.
  - by rewrite T8, (stallNow_same _ _ _ Hsm).
Qed.

(** The specification of a thread looks at its own instructions. *)
Lemma decodeSpec_ext m m' pp pp' room q :
  evolves m m' -> (forall p, p ∈ q -> squashedAt m' p = squashedAt m p /\ pp' p = pp p) ->
  decodeSpec branchTarget m' pp' room q = decodeSpec branchTarget m pp room q.
Proof.
  intros Hev. revert room. induction q as [|p q IH]; intros room Hq; [done|]. cbn.
  destruct room as [|room]; [done|]. destruct (Hq p ltac:(by left)) as [-> Epp].
  assert (Em : mispredicted branchTarget m' pp' p = mispredicted branchTarget m pp p).
  { rewrite (mispredicted_evolves branchTarget _ _ _ _ Hev). unfold mispredicted. by rewrite Epp. }
  rewrite Em, !IH by (intros x Hx; apply Hq; by right). done.
Qed.

Lemma threadSpec_ext m m' pp pp' room cs st skid ins :
  evolves m m' -> (forall p, p ∈ skid ++ ins -> squashedAt m' p = squashedAt m p /\ pp' p = pp p) ->
  threadSpec branchTarget m' pp' room cs st skid ins =
  threadSpec branchTarget m pp room cs st skid ins.
Proof.
  intros Hev Hq. unfold threadSpec. destruct cs, st; try done. destruct skid as [|x skid].
  - by apply decodeSpec_ext.
  - rewrite (decodeSpec_ext m m' pp pp' room (x :: skid)); [done..|].
    intros p Hp. apply Hq. rewrite elem_of_app. by left.
Qed.

(** A mispredicted branch is one of the thread's own instructions. *)
Lemma decodeSpec_branch_in m pp room q br :
  o_branch (decodeSpec branchTarget m pp room q) = Some br -> br ∈ q.
Proof.
  intros Eb. destruct (decodeSpec_split branchTarget m pp room q) as (tk & rest & -> & Es & H).
  rewrite Eb in H. destruct H as (_ & (l & El) & _). rewrite El in Es.
  assert (br ∈ filter (live m) tk) as Hin by (rewrite <- Es; set_solver).
  apply list_elem_of_filter in Hin. set_solver.
Qed.

Lemma threadSpec_branch_in m pp room cs st skid ins br :
  o_branch (threadSpec branchTarget m pp room cs st skid ins) = Some br -> br ∈ skid ++ ins.
Proof.
  unfold threadSpec. destruct cs, st; try done. destruct skid as [|x skid].
  - apply decodeSpec_branch_in.
  - destruct (o_branch (decodeSpec _ _ _ _ _)) eqn:E; [|done].
    intros Eb. apply decodeSpec_branch_in in Eb. set_solver.
Qed.

(** A thread squashes its own instructions only. *)
Lemma squashSet_thread c tid o p t :
  good c t p -> t <> tid -> squashSet inp c tid o p = false.
Proof.
  intros (i & Hi & Hti & _) Ht. unfold squashSet. destruct (commit_squash inp tid).
  - apply bool_decide_eq_false_2. intros [_ E]. rewrite Hi in E. cbn in E. congruence.
  - destruct (o_branch o); [|done]. apply bool_decide_eq_false_2. intros [_ [E _]].
    rewrite Hi in E. cbn in E. congruence.
Qed.

(** ... the same ones before and after another thread's turn. *)
Lemma squashSet_marks f c c' t o p :
  coreMarks f c c' -> squashSet inp c' t o p = squashSet inp c t o p.
Proof.
  intros Mc. pose proof Mc as [[Hev _] Hl]. unfold squashSet. destruct (commit_squash inp t).
  - apply bool_decide_ext. specialize (Hev p). destruct (heap (mem c) !! p).
    + by destruct Hev as (i' & -> & -> & _).
    + by rewrite Hev.
  - destruct (o_branch o) as [b|]; [|done].
    rewrite (evolves_seqAt _ _ _ Hev). by apply (younger_coreMarks inp f).
Qed.

Lemma good_unique c t t' p : good c t p -> good c t' p -> t = t'.
Proof. intros (i & Hi & <- & _) (j & Hj & <- & _). congruence. Qed.

Lemma outWith_other b tid room (s s1 : St) t :
  threadReady cfg inp s tid -> threadReady cfg inp s t -> t <> tid ->
  threadDone branchTarget cfg b tid (squashSet inp (core s) tid (threadOut branchTarget cfg inp s tid))
    (threadOut branchTarget cfg inp s tid) s s1 ->
  outWith s1 t room = outWith s t room.
Proof.
  intros Hr0 Hr Ht T. pose proof (othersSame_same _ _ _ t (td_others _ _ _ _ _ _ _ _ T) Ht) as Hsm.
  unfold outWith. rewrite (stallNow_same _ _ _ Hsm), (sm_insts _ _ _ Hsm), (sm_skid _ _ _ Hsm).
  destruct (td_core _ _ _ _ _ _ _ _ T) as [[Hev Hsq] _].
  apply threadSpec_ext; [done|]. intros p Hp. apply (tr_good _ _ _ _ Hr) in Hp. split.
  - by rewrite Hsq, (squashSet_thread _ _ _ _ _ Hp Ht), orb_false_r.
  - rewrite (td_pred _ _ _ _ _ _ _ _ T). destruct (o_branch _) as [br|] eqn:Eb; [|done].
    apply fn_lookup_insert_ne. intros ->. apply threadSpec_branch_in in Eb.
    apply (tr_good _ _ _ _ Hr0) in Eb. apply Ht. by eapply good_unique.
Qed.

Lemma outs_other b tid l room (s s1 : St) :
  threadReady cfg inp s tid -> (forall t, t ∈ l -> threadReady cfg inp s t) -> tid ∉ l ->
  threadDone branchTarget cfg b tid (squashSet inp (core s) tid (threadOut branchTarget cfg inp s tid))
    (threadOut branchTarget cfg inp s tid) s s1 ->
  outs s1 l room = outs s l room.
Proof.
  intros Hr0 Hl Hn T. revert room. induction l as [|t l IH]; intros room; [done|]. cbn.
  rewrite (outWith_other b tid room s s1 t); [|done|apply Hl; by left|set_solver|done].
  f_equal. apply IH; [|set_solver]. intros x Hx. apply Hl. by right.
Qed.

Lemma outs_threads (s : St) l room : (outs s l room).*1 = l.
Proof. revert room. induction l as [|t l IH]; intros room; cbn; [done|]. by rewrite IH. Qed.

(** ** The loop over the threads *)

(** A thread's cycle before the rest. *)
Lemma threadsDone_cons b tid o l (s s1 s' : St) :
  tid ∉ l.*1 ->
  threadDone branchTarget cfg b tid (squashSet inp (core s) tid o) o s s1 ->
  b = blocked (decodeStatus s tid) -> stalls_rename s1 tid = stallNow inp s tid ->
  threadsDone l s1 s' -> threadsDone ((tid, o) :: l) s s'.
Proof.
  intros Hn T Hb Hst [E1 E2 E3 E4 E5 E6]. pose proof T as [T1 T2 T3 T4 T5 T6 T7 T8 T9 T10 T11 T12].
  assert (Hoth : forall t, t <> tid -> threadSame s s1 t) by (intros t; by apply othersSame_same).
  split.
  - intros t o' [[= -> ->]|Hin]%elem_of_cons.
    + eapply threadSame_end; [by apply E2|]. split; try done. by rewrite <- Hb.
    + assert (t <> tid) as Hne.
      { intros ->. apply Hn. apply list_elem_of_fmap. by exists (tid, o'). }
      eapply threadEnd_from; [by apply Hoth|exact T6|]. by apply E1.
  - cbn. intros t Ht. eapply threadSame_trans; [apply Hoth; set_solver|]. apply E2. set_solver.
  - rewrite E3, T2. unfold allSent. cbn. by rewrite app_assoc.
  - done.
  - eapply coreMarks_ext; [|exact (coreMarks_trans _ _ _ _ _ T6 E5)]. intros p. cbn. f_equal.
    unfold squashedBy. clear -T6. induction l as [|[t o'] l IH]; [done|]. cbn. rewrite IH. f_equal.
    apply squashSet_marks with (1 := T6).
  - intros p. rewrite E6, T8.
    change (branchOf ((tid, o) :: l) p) with (bool_decide (o_branch o = Some p) || branchOf l p).
    destruct (branchOf l p); [by rewrite orb_true_r|].
    rewrite orb_false_r. destruct (o_branch o) as [br|]; [|done].
    case_bool_decide as Hbr; [injection Hbr as ->; by rewrite fn_lookup_insert|].
    rewrite fn_lookup_insert_ne; [done|]. congruence.
Qed.

Lemma tickThreads_ok l sc (s : St) :
  NoDup l -> (forall t, t ∈ l -> t ∈ activeThreads cfg) ->
  coreOK inp (core s) -> slotOK cfg s -> (forall t, t ∈ l -> threadReady cfg inp s t) ->
  exists sc' s', tickThreads branchTarget cfg inp l sc s = Ok (sc', s') /\
    threadsDone (outs s l (roomIn cfg s)) s s'.
Proof.
  intros Hnd. revert sc s. induction Hnd as [|tid l Hn Hnd IH]; intros sc s Hact Hc Hs Hr.
  { exists sc, s. split; [done|]. split; try done.
    - intros t o []%not_elem_of_nil.
    - cbn. by rewrite app_nil_r.
    - eapply coreMarks_ext; [|apply coreMarks_refl]. done. }
  pose proof (Hr tid ltac:(by left)) as Hr0.
  destruct (thread_ok branchTarget cfg inp sc tid s) as (sc1 & s1 & E & T & Est);
    [apply Hact; by left|done..|].
  assert (Hrl : forall t, t ∈ l -> threadReady cfg inp s t) by (intros t Ht; apply Hr; by right).
  destruct (IH sc1 s1) as (sc' & s' & E' & D).
  - intros t Ht. apply Hact. by right.
  - eapply coreMarks_ok; [exact (td_core _ _ _ _ _ _ _ _ T)|done].
  - exact (td_slot _ _ _ _ _ _ _ _ T).
  - intros t Ht. eapply threadSame_ready; [|exact (td_core _ _ _ _ _ _ _ _ T)|by apply Hrl].
    eapply othersSame_same; [exact (td_others _ _ _ _ _ _ _ _ T)|]. set_solver.
  - exists sc', s'. split.
    + cbn [tickThreads]. unfold threadStep in E. apply bind_ok in E as (c & s2 & E1 & E2).
      rewrite (bind_run _ _ _ _ _ E1). by rewrite (bind_run _ _ _ _ _ E2).
    + cbn [outs]. rewrite (outs_other _ tid l _ s s1 Hr0 Hrl Hn T) in D.
      change (outWith s tid (roomIn cfg s)) with (threadOut branchTarget cfg inp s tid).
      assert (roomIn cfg s1 = (roomIn cfg s - length (o_sent (threadOut branchTarget cfg inp s tid)))%nat)
        as Er.
      { unfold roomIn. rewrite (td_sent _ _ _ _ _ _ _ _ T), length_app. lia. }
      rewrite Er in D. eapply threadsDone_cons; [by rewrite outs_threads|exact T|done|done|exact D].
Qed.

(** ** The cycle *)

(** The instructions of a thread coming from fetch. *)
Definition incoming (m : InstMem) (t : ThreadID) : list InstPtr :=
  filter (fun p => threadNumber <$> heap m !! p = Some t) (fromFetch inp).

Lemma sortInsts_ok (s : St) :
  (forall p, p ∈ fromFetch inp -> exists t, good (core s) t p) ->
  exists g, sortInsts inp s = Ok (tt, s <| insts := g |>) /\
    forall t, g t = insts s t ++ incoming (mem (core s)) t.
Proof.
  unfold sortInsts, incoming. revert s. induction (fromFetch inp) as [|p l IH]; intros s Hg.
  - exists (insts s). split; [by destruct s|]. intros t. by rewrite app_nil_r.
  - cbn [forM]. destruct (Hg p ltac:(by left)) as [t0 Ht0].
    destruct (good_core _ _ _ Ht0) as (i & Hi & Hti). fwd.
    rewrite (bind_instOf p i) by exact Hi. cbv beta. fwd.
    match goal with |- context [forM l _ ?x] => destruct (IH x) as (g & E & Hgt) end.
    { intros q Hq. apply Hg. by right. }
    exists g. split; [exact E|]. intros t. rewrite Hgt, filter_cons. cbn. rewrite Hi. cbn.
    destruct (decide (threadNumber i = t)) as [<-|Hne].
    + rewrite fn_lookup_insert, decide_True by done. by rewrite <- app_assoc.
    + rewrite fn_lookup_insert_ne, decide_False; [done|congruence|congruence].
Qed.

(** The threads' turns in a cycle. *)
Definition turnOf (s : St) (t : ThreadID) (room : nat) : Outcome :=
  threadSpec branchTarget (mem (core s)) (predPC s) room (commit_squash inp t)
    (stallNow inp s t) (skidBuffer s t) (incoming (mem (core s)) t).

Fixpoint turns (s : St) (l : list ThreadID) (room : nat) : list (ThreadID * Outcome) :=
  match l with
  | [] => []
  | t :: l => let o := turnOf s t room in (t, o) :: turns s l (room - length (o_sent o))
  end.

Definition cycleTurns (s : St) : list (ThreadID * Outcome) :=
  turns s (activeThreads cfg) (Z.to_nat (decodeWidth cfg)).

(** A thread between two cycles. *)
Record threadRest (s : St) (t : ThreadID) : Prop := {
  rs_insts : insts s t = [];
  rs_good : forall p, p ∈ skidBuffer s t -> good (core s) t p;
  rs_status : decodeStatus s t <> StartSquash;
  rs_skid : skidBuffer s t <> [] -> blocked (decodeStatus s t) = true;
  rs_unblocking : decodeStatus s t = Unblocking -> skidBuffer s t <> []
}.

(** What a cycle needs from outside: instructions as fetch makes them; room in
    the skid buffers, which [skidInsert] asserts and fetch has to respect; and
    that rename unblocks only what it blocked, which [readStallSignals]
    asserts. *)
Record cycleIn (s : St) : Prop := {
  ci_core : coreOK inp (core s);
  ci_room : forall t, t ∈ activeThreads cfg ->
    Z.of_nat (length (skidBuffer s t ++ incoming (mem (core s)) t)) <= skidBufferMax cfg;
  ci_stall : forall t, t ∈ activeThreads cfg ->
    renameUnblock inp t = true -> stalls_rename s t || renameBlock inp t = true
}.

Record cfgOK : Prop := {
  ck_active : NoDup (activeThreads cfg);
  ck_width : 0 <= decodeWidth cfg <= MaxWidth
}.

Record cycleDone (s s' : St) : Prop := {
  cd_end : forall t o, (t, o) ∈ cycleTurns s -> threadEnd s s' t o;
  cd_sent : toRename s' = allSent (cycleTurns s);
  cd_slot : slotOK cfg s';
  cd_core : coreMarks (squashedBy (core s) (cycleTurns s)) (core s) (core s');
  cd_pred : forall p, predPC s' p = if branchOf (cycleTurns s) p then branchTarget p else predPC s p;
  cd_others : forall t, t ∉ activeThreads cfg -> skidBuffer s' t = skidBuffer s t
}.

Lemma outs_turns (s s1 : St) l room :
  core s1 = core s -> predPC s1 = predPC s -> stalls_rename s1 = stalls_rename s ->
  skidBuffer s1 = skidBuffer s ->
  (forall t, t ∈ l -> insts s1 t = incoming (mem (core s)) t) ->
  outs s1 l room = turns s l room.
Proof.
  intros Ec Ep Es Ek. revert room. induction l as [|t l IH]; intros room Hi; [done|]. cbn.
  assert (outWith s1 t room = turnOf s t room) as ->.
  { unfold outWith, turnOf, stallNow. by rewrite Ec, Ep, Es, Ek, Hi by (by left). }
  f_equal. apply IH. intros x Hx. apply Hi. by right.
Qed.

(** The end of [tick]: the activity of the stage. *)
Lemma tickEnd_ok (sc : bool) (s : St) :
  exists st a, (_ ← when sc (updateStatus cfg);
                w ← gets wroteToTimeBuffer;
                when w (modify (fun s => s <| activity := activity s ++ [ActivityThisCycle] |>))) s
    = Ok (tt, s <| stage_status := st |> <| activity := a |>).
Proof.
  assert (exists st a, when sc (updateStatus cfg) s = Ok (tt, s <| stage_status := st |> <| activity := a |>))
    as (st & a & E).
  { destruct sc; cbn [when]; [|exists (stage_status s), (activity s); by destruct s].
    unfold updateStatus. fwd. destruct (existsb _ _), (bool_decide _); cbn [when]; fwd;
      first [by eexists _, _ | exists (stage_status s), (activity s); by destruct s]. }
  rewrite (bind_run _ _ _ _ _ E). fwd. destruct (wroteToTimeBuffer _); cbn [when]; fwd;
    by eexists _, _.
Qed.

Lemma cycle_runs (s : St) :
  cfgOK -> (forall t, t ∈ activeThreads cfg -> threadRest s t) -> cycleIn s ->
  exists s', cpuTick branchTarget cfg inp s = Ok (tt, s') /\ cycleDone s s'.
Proof.
  intros [Hnd Hw] Hrest [Hc Hroom Hstall]. unfold cpuTick, tick. fwd.
  match goal with |- context [(sortInsts inp ≫= _) ?x] => set (s0 := x) end.
  destruct (sortInsts_ok s0 (proj2 Hc)) as (g & E & Hg). rewrite (bind_run _ _ _ _ _ E).
  match type of E with _ = Ok (_, ?x) => set (s1 := x) in * end.
  assert (Hin : forall t, t ∈ activeThreads cfg -> insts s1 t = incoming (mem (core s)) t).
  { intros t Ht. change (insts s1 t) with (g t). rewrite Hg.
    by rewrite (rs_insts _ _ (Hrest t Ht) : insts s0 t = []). }
  destruct (tickThreads_ok (activeThreads cfg) false s1 Hnd) as (sc' & s2 & E2 & D).
  { done. }
  { exact Hc. }
  { split_and!; [done|apply Hw|apply Hw]. }
  { intros t Ht. destruct (Hrest t Ht) as [R1 R2 R3 R4 R5].
    split; rewrite ?(Hin t Ht); try done; [| |by apply Hroom|by apply Hstall].
    - intros p [Hp|Hp]%elem_of_app; [by apply R2|]. apply list_elem_of_filter in Hp as [Hp Hf].
      destruct (proj2 Hc p Hf) as (t' & Ht'). destruct (good_core _ _ _ Ht') as (i & Hi & <-).
      rewrite Hi in Hp. by injection Hp as <-.
    - intros p Hp. by apply list_elem_of_filter in Hp as [_ Hp]. }
  rewrite (bind_run _ _ _ _ _ E2). destruct (tickEnd_ok sc' s2) as (st & a & E3).
  eexists. split; [exact E3|].
  assert (Hoth : forall t, t ∉ activeThreads cfg -> skidBuffer s2 t = skidBuffer s t).
  { intros t Ht. apply (sm_skid s1 s2 t), (ts_same _ _ _ D). by rewrite outs_threads. }
  rewrite (outs_turns s s1 _ _ eq_refl eq_refl eq_refl eq_refl Hin) in D.
  assert (roomIn cfg s1 = Z.to_nat (decodeWidth cfg)) as Er by (unfold roomIn; cbn; lia).
  rewrite Er in D. destruct D as [D1 D2 D3 D4 D5 D6]. split; try done.
  intros t o Ht. destruct (D1 t o Ht). by split.
Qed.

End Tick.
