(* ===== verification/DecodeProps.v ===== *)
(** * Correctness of the decode stage

    A cycle of the stage passes each thread's instructions on in order, loses
    none but those behind a branch it finds mispredicted and those of a thread
    that commit squashes, and squashes exactly the younger instructions of that
    branch's thread.  The theorems are about cycles with room in the skid buffers
    and sound signals from rename ([cycleIn]). *)

From stdpp Require Import base numbers list gmap functions sorting.
From S2P Require Import Prelude Regs Monad DynInst Stage ROB ROBProps Decode DecodeInv DecodeStep DecodeLoop DecodeThread DecodePath DecodeCycle DecodeTick.

#[local] Open Scope Z_scope.

Section Props.
Context {PC : Type} `{EqDecision PC} (branchTarget : InstPtr -> PC).
Context (cfg : DecodeConfig) (inp : DecodeIn).

#[local] Abbreviation St := (Decode PC).

(** ** Definitions *)

(** The stage between two cycles. *)
Definition stageRest (s : St) : Prop := forall t, t ∈ activeThreads cfg -> threadRest s t.

(** The instructions of a thread. *)
Definition ofThread (m : InstMem) (t : ThreadID) (p : InstPtr) : Prop :=
  threadNumber <$> heap m !! p = Some t.

#[export] Instance ofThread_dec m t p : Decision (ofThread m t p).
Proof. unfold ofThread. apply _. Defined.

(** What a thread has for the stage this cycle, oldest first, and what the stage
    passed on for it. *)
Definition due (s : St) (t : ThreadID) : list InstPtr :=
  skidBuffer s t ++ incoming inp (mem (core s)) t.

Definition passed (s s' : St) (t : ThreadID) : list InstPtr :=
  filter (ofThread (mem (core s)) t) (toRename s').

(** [b], a live instruction of [t], is the branch the stage found mispredicted:
    it was passed on last, nothing of the thread is left, and fetch is told to
    go on at its target. *)
Definition foundMispredicted (s s' : St) (t : ThreadID) (b : InstPtr) : Prop :=
  mispredicted branchTarget (mem (core s)) (predPC s) b = true /\
  (exists l, passed s s' t = l ++ [b]) /\ skidBuffer s' t = [] /\
  decodeInfo s' t = branchInfo branchTarget (mem (core s)) b /\ predPC s' b = branchTarget b.

(** ** Lemmas *)

Lemma turns_threads (s : St) l room : (turns branchTarget inp s l room).*1 = l.
Proof. revert room. induction l as [|t l IH]; intros room; cbn; [done|]. by rewrite IH. Qed.

Lemma turns_of (s : St) l room t o :
  (t, o) ∈ turns branchTarget inp s l room -> exists room', o = turnOf branchTarget inp s t room'.
Proof.
  revert room. induction l as [|t' l IH]; intros room; cbn; [set_solver|].
  intros [[= -> ->]|Hin]%elem_of_cons; eauto.
Qed.

Lemma cycleTurns_active (s : St) t :
  t ∈ activeThreads cfg -> exists o, (t, o) ∈ cycleTurns branchTarget cfg inp s.
Proof.
  intros Ht. unfold cycleTurns. rewrite <- (turns_threads s (activeThreads cfg)
    (Z.to_nat (decodeWidth cfg))) in Ht.
  apply list_elem_of_fmap in Ht as ([t' o] & -> & Hin). eauto.
Qed.

(** The specification takes a prefix of the live instructions. *)
Lemma threadSpec_split m pp room st skid ins :
  let o := threadSpec branchTarget m pp room false st skid ins in
  exists dropped, filter (live m) (skid ++ ins) = o_sent o ++ filter (live m) (o_rest o) ++ dropped /\
    match o_branch o with
    | None => dropped = []
    | Some b => o_rest o = [] /\ (exists l, o_sent o = l ++ [b]) /\ mispredicted branchTarget m pp b = true
    end.
Proof.
  unfold threadSpec. destruct st; cbn.
  { exists []. by rewrite app_nil_r. }
  assert (Hq : forall q ins, let o := decodeSpec branchTarget m pp room q in
    exists dropped, filter (live m) (q ++ ins) =
        o_sent o ++ filter (live m) (o_rest o ++ match o_branch o with Some _ => [] | None => ins end) ++ dropped /\
      match o_branch o with
      | None => dropped = []
      | Some b => o_rest o = [] /\ (exists l, o_sent o = l ++ [b]) /\ mispredicted branchTarget m pp b = true
      end).
  { clear. intros q ins o.
    destruct (decodeSpec_split branchTarget m pp room q) as (tk & rest & E & Es & H).
    fold o in Es, H.
    assert (filter (live m) (q ++ ins) = o_sent o ++ filter (live m) (rest ++ ins)) as ->
      by (by rewrite E, <- app_assoc, filter_app, <- Es).
    destruct (o_branch o).
    - exists (filter (live m) (rest ++ ins)). destruct H as (Hr & Hl & Hm). by rewrite Hr.
    - exists []. by rewrite H, app_nil_r. }
  destruct skid as [|x skid].
  - destruct (Hq ins []) as (d & E & H). exists d. rewrite app_nil_r in E. cbn [app].
    rewrite E. split; [|done]. destruct (o_branch _); by rewrite app_nil_r.
  - destruct (Hq (x :: skid) ins) as (d & E & H). exists d.
    destruct (o_branch (decodeSpec _ _ _ _ (x :: skid))) eqn:Eb.
    + rewrite app_nil_r in E. by rewrite Eb.
    + done.
Qed.

Lemma threadSpec_sent m pp room cs st skid ins p :
  p ∈ o_sent (threadSpec branchTarget m pp room cs st skid ins) -> p ∈ skid ++ ins.
Proof.
  destruct cs; [by intros ?%not_elem_of_nil|]. intros Hp.
  destruct (threadSpec_split m pp room st skid ins) as (d & E & _).
  assert (p ∈ filter (live m) (skid ++ ins)) as Hin by (rewrite E; set_solver).
  by apply list_elem_of_filter in Hin as [_ Hin].
Qed.

(** Every turn sends instructions of its own thread. *)
Definition ownSent (m : InstMem) (l : list (ThreadID * Outcome)) : Prop :=
  forall t o p, (t, o) ∈ l -> p ∈ o_sent o -> ofThread m t p.

Lemma passed_none m l t : ownSent m l -> t ∉ l.*1 -> filter (ofThread m t) (allSent l) = [].
Proof.
  intros Hof Hn. apply filter_none. intros p Hp Ht. unfold allSent in Hp.
  apply list_elem_of_In, in_concat in Hp as (k & Hk & Hp).
  apply in_map_iff in Hk as ([t' o] & <- & Hin). apply list_elem_of_In in Hin, Hp.
  pose proof (Hof t' o p Hin Hp) as Ht'. unfold ofThread in *.
  assert (t' = t) as -> by congruence. apply Hn, list_elem_of_fmap. by exists (t, o).
Qed.

(** What was sent for a thread is what its turn sent. *)
Lemma passed_turn m l t o :
  NoDup l.*1 -> ownSent m l -> (t, o) ∈ l -> filter (ofThread m t) (allSent l) = o_sent o.
Proof.
  induction l as [|[t1 o1] l IH]; intros Hnd Hof Hin; [by apply not_elem_of_nil in Hin|].
  cbn in Hnd. apply NoDup_cons in Hnd as [Hn Hnd]. 
  change (allSent ((t1, o1) :: l)) with (o_sent o1 ++ allSent l). rewrite filter_app.
  assert (Hof' : ownSent m l) by (intros t' o' p H; apply Hof; by right).
  apply elem_of_cons in Hin as [[= <- <-]|Hin].
  - rewrite (passed_none m l t Hof' Hn), app_nil_r. apply filter_all.
    intros p Hp. apply (Hof t o p); [by left|done].
  - rewrite (IH Hnd Hof' Hin). rewrite filter_none; [done|]. intros p Hp Ht.
    pose proof (Hof t1 o1 p ltac:(by left) Hp) as Ht1. unfold ofThread in *.
    assert (t1 = t) as -> by congruence. apply Hn, list_elem_of_fmap. by exists (t, o).
Qed.

Lemma due_own (s : St) t p :
  threadRest s t -> p ∈ due s t -> ofThread (mem (core s)) t p.
Proof.
  intros Hr [Hp|Hp]%elem_of_app.
  - apply (rs_good _ _ Hr) in Hp as (i & Hi & <- & _). unfold ofThread. by rewrite Hi.
  - by apply list_elem_of_filter in Hp as [Hp _].
Qed.

(** What the stage passed on for a thread. *)
Lemma passed_sent (s s' : St) t o :
  cfgOK cfg -> stageRest s -> cycleDone branchTarget cfg inp s s' ->
  (t, o) ∈ cycleTurns branchTarget cfg inp s -> passed s s' t = o_sent o.
Proof.
  intros Hcfg Hr D Hin. unfold passed. rewrite (cd_sent _ _ _ _ _ D).
  apply passed_turn; [| |done].
  - unfold cycleTurns. rewrite turns_threads. apply Hcfg.
  - intros t' o' p Hin' Hp. pose proof (turns_of _ _ _ _ _ Hin') as (r & ->).
    apply threadSpec_sent in Hp. apply due_own; [|exact Hp]. apply Hr.
    apply (list_elem_of_fmap_2 fst) in Hin'. unfold cycleTurns in Hin'. by rewrite turns_threads in Hin'.
Qed.

(** The mispredicted branch of a turn is the one found. *)
Lemma turn_branch (s s' : St) t o b :
  cfgOK cfg -> stageRest s -> cycleDone branchTarget cfg inp s s' ->
  (t, o) ∈ cycleTurns branchTarget cfg inp s -> commit_squash inp t = false ->
  o_branch o = Some b <-> foundMispredicted s s' t b.
Proof.
  intros Hcfg Hr D Hin Hcs. pose proof (cd_end _ _ _ _ _ D t o Hin) as [E1 E2 E3 _ _ _ _ _].
  split.
  - intros Eb. pose proof (turns_of _ _ _ _ _ Hin) as (r & Eo).
    destruct (threadSpec_split (mem (core s)) (predPC s) r (stallNow inp s t) (skidBuffer s t)
      (incoming inp (mem (core s)) t)) as (d & _ & H).
    unfold turnOf in Eo. rewrite Hcs in Eo. rewrite <- Eo, Eb in H. destruct H as (Hrest & Hl & Hm).
    rewrite Eb in E3. split_and!; [done| |by rewrite E1|done|].
    + by rewrite (passed_sent s s' t o).
    + rewrite (cd_pred _ _ _ _ _ D). unfold branchOf.
      assert (existsb (fun '(_, o) => bool_decide (o_branch o = Some b))
        (cycleTurns branchTarget cfg inp s) = true) as ->; [|done].
      apply existsb_exists. exists (t, o). split; [by apply list_elem_of_In|]. by case_bool_decide.
  - intros (_ & _ & _ & Ei & _). rewrite E3 in Ei. destruct (o_branch o) as [b'|]; [|done].
    by injection Ei as _ ->.
Qed.

Lemma cycleTurns_in (s : St) t o :
  (t, o) ∈ cycleTurns branchTarget cfg inp s -> t ∈ activeThreads cfg.
Proof.
  intros Hin. apply (list_elem_of_fmap_2 fst) in Hin. unfold cycleTurns in Hin.
  by rewrite turns_threads in Hin.
Qed.

Lemma threadSpec_rest m pp room cs st skid ins p :
  p ∈ o_rest (threadSpec branchTarget m pp room cs st skid ins) -> p ∈ skid ++ ins.
Proof.
  unfold threadSpec. destruct cs; [by intros ?%not_elem_of_nil|]. destruct st; [done|].
  destruct skid as [|x skid]; [apply decodeSpec_rest|].
  destruct (o_branch _); cbn [o_rest].
  - intros Hp%decodeSpec_rest. rewrite elem_of_app. by left.
  - rewrite !elem_of_app. intros [Hp%decodeSpec_rest|Hp]; auto.
Qed.

Lemma due_good (s : St) t p :
  threadRest s t -> coreOK inp (core s) -> p ∈ due s t -> good (core s) t p.
Proof.
  intros Hr [_ Hf] [Hp|Hp]%elem_of_app; [by apply (rs_good _ _ Hr)|].
  apply list_elem_of_filter in Hp as [Ht Hp]. destruct (Hf p Hp) as [t' Hg].
  pose proof Hg as (i & Hi & <- & _). rewrite Hi in Ht. by injection Ht as <-.
Qed.

(** What is dropped is younger than the branch. *)
Lemma dropped_younger m q l b rest d p :
  ordered m q -> filter (live m) q = (l ++ [b]) ++ rest ++ d -> p ∈ d -> seqAt m b < seqAt m p.
Proof.
  intros Ho E Hp. apply (StronglySorted_filter _ (live m)) in Ho. rewrite E in Ho.
  eapply ordered_app; [exact Ho| |]; rewrite elem_of_app; [right; by left|by right].
Qed.

(** The outcome of a run. *)
Lemma cycle_inv (s s' : St) :
  cfgOK cfg -> stageRest s -> cycleIn cfg inp s -> cpuTick branchTarget cfg inp s = Ok (tt, s') ->
  cycleDone branchTarget cfg inp s s'.
Proof.
  intros Hcfg Hr Hi E. destruct (cycle_runs branchTarget cfg inp s Hcfg Hr Hi) as (s1 & E1 & D).
  rewrite E1 in E. by injection E as ->.
Qed.

Lemma cycle_rest (s s' : St) :
  stageRest s -> coreOK inp (core s) -> cycleDone branchTarget cfg inp s s' -> stageRest s'.
Proof.
  intros Hr Hc D t Ht. destruct (cycleTurns_active s t Ht) as (o & Hin).
  destruct (cd_end _ _ _ _ _ D t o Hin) as [E1 E2 E3 E4 E5 E6 E7 E8]. split; try done.
  intros p Hp. rewrite E1 in Hp. eapply coreMarks_good; [exact (cd_core _ _ _ _ _ D)|].
  apply due_good; [by apply Hr|done|]. pose proof (turns_of _ _ _ _ _ Hin) as (r & ->).
  by apply threadSpec_rest in Hp.
Qed.

(** A thread that commit squashes. *)
Lemma commit_drops (s s' : St) t o :
  cfgOK cfg -> stageRest s -> cycleDone branchTarget cfg inp s s' ->
  (t, o) ∈ cycleTurns branchTarget cfg inp s -> commit_squash inp t = true ->
  passed s s' t = [] /\ skidBuffer s' t = [] /\
  forall p, p ∈ incoming inp (mem (core s)) t -> squashedAt (mem (core s')) p = true.
Proof.
  intros Hcfg Hr D Hin Hcs. pose proof (turns_of _ _ _ _ _ Hin) as (r & Eo).
  unfold turnOf in Eo. rewrite Hcs in Eo.
  destruct (cd_end _ _ _ _ _ D t o Hin) as [E1 _ _ _ _ _ _ _].
  rewrite (passed_sent s s' t o Hcfg Hr D Hin), E1, Eo. split_and!; [done..|].
  intros p [Hth Hp]%list_elem_of_filter. rewrite (proj2 (proj1 (cd_core _ _ _ _ _ D))).
  apply orb_true_iff. right. apply existsb_exists. exists (t, o). split; [by apply list_elem_of_In|].
  unfold squashSet. rewrite Hcs. by apply bool_decide_eq_true.
Qed.

(** A thread that it does not. *)
Lemma decode_keeps (s s' : St) t o :
  cfgOK cfg -> stageRest s -> cycleIn cfg inp s -> cycleDone branchTarget cfg inp s s' ->
  (t, o) ∈ cycleTurns branchTarget cfg inp s -> t ∈ activeThreads cfg ->
  commit_squash inp t = false -> ordered (mem (core s)) (due s t) ->
  exists dropped,
    filter (live (mem (core s))) (due s t) =
      passed s s' t ++ filter (live (mem (core s))) (skidBuffer s' t) ++ dropped /\
    (dropped = [] \/ exists b, foundMispredicted s s' t b /\
       forall p, p ∈ dropped -> squashedAt (mem (core s')) p = true).
Proof.
  intros Hcfg Hr Hi D Hin Ht Hcs Hord.
  pose proof (turn_branch s s' t o) as Hb. pose proof (passed_sent s s' t o Hcfg Hr D Hin) as Ep.
  pose proof (turns_of _ _ _ _ _ Hin) as (r & Eo).
  destruct (cd_end _ _ _ _ _ D t o Hin) as [E1 E2 _ _ _ _ _ _].
  destruct (threadSpec_split (mem (core s)) (predPC s) r (stallNow inp s t) (skidBuffer s t)
      (incoming inp (mem (core s)) t)) as (d & Ed & H).
  unfold turnOf in Eo. rewrite Hcs in Eo. rewrite <- Eo in *.
  exists d. rewrite Ep, E1. split; [done|].
  destruct (o_branch o) as [b|] eqn:Eb; [right|by left]. exists b. split; [by apply Hb|].
  intros p Hp. destruct H as (_ & (l & Hl) & _). rewrite Hl in Ed.
  assert (Hpd : p ∈ filter (live (mem (core s))) (due s t))
    by (unfold due; rewrite Ed, !elem_of_app; auto).
  pose proof Hpd as [Hpl Hpq]%list_elem_of_filter.
  destruct (due_good s t p (Hr t Ht) (ci_core _ _ _ Hi) Hpq) as (i & Hip & Hti & _ & _ & Hlist).
  rewrite (proj2 (proj1 (cd_core _ _ _ _ _ D))). apply orb_true_iff. right.
  unfold squashedBy. apply existsb_exists. exists (t, o). split; [by apply list_elem_of_In|].
  unfold squashSet. rewrite Hcs, Eb. apply bool_decide_eq_true. split.
  - right. apply Hlist. unfold live, squashedAt in Hpl. by rewrite Hip in Hpl.
  - split; [by rewrite Hip|]. by eapply dropped_younger.
Qed.

(** ** Properties *)

(** A cycle runs to the end and leaves the stage fit for the next one, if what
    arrives fits the skid buffers and rename unblocks only what it blocked: the
    assertions of [skidInsert] and [readStallSignals], which are up to the other
    stages ([FrontEndProps] shows that fetch respects the first). *)
Lemma decode_cycle_safe (s : St) :
  cfgOK cfg -> stageRest s -> cycleIn cfg inp s ->
  exists s', cpuTick branchTarget cfg inp s = Ok (tt, s') /\ stageRest s' /\
    coreOK inp (core s') /\ Z.of_nat (length (toRename s')) <= decodeWidth cfg.
Proof.
  intros Hcfg Hr Hi. destruct (cycle_runs branchTarget cfg inp s Hcfg Hr Hi) as (s' & E & D).
  exists s'. split_and!; [done|by eapply cycle_rest; [|apply Hi|]| |apply (cd_slot _ _ _ _ _ D)].
  eapply coreMarks_ok; [exact (cd_core _ _ _ _ _ D)|apply Hi].
Qed.

(** C14: decode is in order and loses nothing, given room for what arrives and
    legal stall signals ([cycleIn]) and instructions in program order. When
    commit does not squash the thread, then of the thread's live instructions,
    those that waited in the skid buffer and after them those just fetched, it
    passes on the first ones and keeps the next ones, in order; it drops the
    rest only when the last one passed on is a branch it found mispredicted, and
    they are then squashed. When commit squashes the thread, all of them go:
    nothing is passed on, nothing is kept, and what was just fetched is
    squashed. *)
Theorem decode_in_order (s s' : St) t :
  cfgOK cfg -> stageRest s -> cycleIn cfg inp s -> cpuTick branchTarget cfg inp s = Ok (tt, s') ->
  t ∈ activeThreads cfg -> ordered (mem (core s)) (due s t) ->
  insts s' t = [] /\
  if commit_squash inp t then
    passed s s' t = [] /\ skidBuffer s' t = [] /\
    forall p, p ∈ incoming inp (mem (core s)) t -> squashedAt (mem (core s')) p = true
  else exists dropped,
    filter (live (mem (core s))) (due s t) =
      passed s s' t ++ filter (live (mem (core s))) (skidBuffer s' t) ++ dropped /\
    (dropped = [] \/ exists b, foundMispredicted s s' t b /\
       forall p, p ∈ dropped -> squashedAt (mem (core s')) p = true).
Proof.
  intros Hcfg Hr Hi E Ht Hord. pose proof (cycle_inv s s' Hcfg Hr Hi E) as D.
  destruct (cycleTurns_active s t Ht) as (o & Hin).
  destruct (cd_end _ _ _ _ _ D t o Hin) as [E1 E2 _ _ _ _ _ _]. split; [done|].
  destruct (commit_squash inp t) eqn:Hcs.
  - by eapply commit_drops.
  - by eapply decode_keeps.
Qed.

(** C17: a squash in decode is exact.  After a cycle, an instruction is squashed
    if and only if it was before, or it was coming in from fetch for a thread
    that commit squashes, or it is younger than a branch of its thread that the
    stage found mispredicted and is still in flight. *)
Theorem decode_squashes_exactly (s s' : St) p :
  cfgOK cfg -> stageRest s -> cycleIn cfg inp s -> cpuTick branchTarget cfg inp s = Ok (tt, s') ->
  squashedAt (mem (core s')) p = true <->
  squashedAt (mem (core s)) p = true \/
  (exists t, t ∈ activeThreads cfg /\ commit_squash inp t = true /\
     p ∈ incoming inp (mem (core s)) t) \/
  (exists t b, t ∈ activeThreads cfg /\ commit_squash inp t = false /\ foundMispredicted s s' t b /\
     doomed (mem (core s)) (seqAt (mem (core s)) b) t p /\
     (p ∈ fromFetch inp \/ p ∈ cpuInstList (cpu (core s)))).
Proof.
  intros Hcfg Hr Hi E. pose proof (cycle_inv s s' Hcfg Hr Hi E) as D.
  rewrite (proj2 (proj1 (cd_core _ _ _ _ _ D))), orb_true_iff. apply or_iff_compat_l.
  unfold squashedBy. rewrite existsb_exists. split.
  - intros ([t o] & Hin%list_elem_of_In & Hsq). pose proof (cycleTurns_in s t o Hin) as Ht.
    unfold squashSet in Hsq. destruct (commit_squash inp t) eqn:Ecs.
    + left. exists t. apply bool_decide_eq_true in Hsq as [Hf Hth].
      split_and!; [done..|]. by apply list_elem_of_filter.
    + right. destruct (o_branch o) as [b|] eqn:Eb; [|done]. exists t, b.
      apply bool_decide_eq_true in Hsq as [Hf Hd]. split_and!; try done. by eapply turn_branch.
  - intros [(t & Ht & Hcs & Hp)|(t & b & Ht & Hcs & Hb & Hd & Hp)];
      destruct (cycleTurns_active s t Ht) as (o & Hin); exists (t, o);
      (split; [by apply list_elem_of_In|]); unfold squashSet; rewrite Hcs.
    + apply bool_decide_eq_true. apply list_elem_of_filter in Hp as [? ?]. done.
    + eapply turn_branch in Hb; [|done..]. rewrite Hb. by apply bool_decide_eq_true.
Qed.

End Props.

(** ** A concrete cycle *)

Module Sample.

(** Three instructions of thread 0; the second one is a direct jump to 64 that
    was predicted to go on at 8. *)
Definition plain : StaticInst := mkStatic [] [] 0 (fun _ => false).
Definition jump : StaticInst := mkStatic [] [] 0 (fun f =>
  match f with IsControl | IsDirectControl | IsUncondControl => true | _ => false end).

Definition theCore : Core :=
  mkCore (ROB_ctor Dynamic 8 2 0 1 [0%nat] (fun _ => ROBRunning))
    (mkCpuInsts [1%positive; 2%positive; 3%positive] [] false)
    (mkMem (<[1%positive := DynInst_ctor plain 0 1 0]> (<[2%positive := DynInst_ctor jump 4 2 0]>
              (<[3%positive := DynInst_ctor plain 8 3 0]> ∅))) ∅).

Definition target (p : InstPtr) : Z := 64.

Definition theCfg : DecodeConfig :=
  {| decodeWidth := 4; numThreads := 1; skidBufferMax := 8; activeThreads := [0%nat];
     FullSystem := false |}.

Definition s0 : Decode Z := startupStage theCfg (Decode_ctor Inactive theCore (fun _ => 8)).

Definition theIn : DecodeIn :=
  {| fromFetch := [1%positive; 2%positive; 3%positive]; renameBlock := fun _ => false;
     renameUnblock := fun _ => false; commit_squash := fun _ => false |}.

Definition s1 : Decode Z :=
  match cpuTick target theCfg theIn s0 with Ok (_, s) => s | _ => s0 end.

(** Go through the members of a concrete list. *)
Ltac members H :=
  repeat (apply elem_of_cons in H as [->|H]); [..|by apply not_elem_of_nil in H].

Lemma theCfg_ok : cfgOK theCfg.
Proof. split; [apply NoDup_singleton|cbn; unfold MaxWidth; lia]. Qed.

Lemma s0_rest : stageRest theCfg s0.
Proof.
  intros t Ht. members Ht. split; [reflexivity|intros p []%not_elem_of_nil|..]; vm_compute; congruence.
Qed.

Lemma sample_good p : p ∈ fromFetch theIn -> good (core s0) 0 p.
Proof.
  intros Hp. members Hp; (eexists; split_and!; [reflexivity|reflexivity|done|done|]);
    intros _; cbn; set_solver.
Qed.

Lemma theIn_ok : cycleIn theCfg theIn s0.
Proof.
  split.
  - split.
    + split; [repeat (constructor; [|repeat constructor]); constructor|].
      intros p Hp. destruct (sample_good p Hp) as (i & Hi & _ & Hs & _). eauto.
    + intros p Hp. exists 0%nat. by apply sample_good.
  - intros t Ht. members Ht. vm_compute. discriminate.
  - done.
Qed.

Lemma s1_run : cpuTick target theCfg theIn s0 = Ok (tt, s1).
Proof.
  destruct (cycle_runs target theCfg theIn s0 theCfg_ok s0_rest theIn_ok) as (s' & E & _).
  unfold s1. by rewrite E.
Qed.

End Sample.
Import Sample.

Lemma decode_in_order_witness :
  due theIn s0 0 = [1%positive; 2%positive; 3%positive] /\ toRename s1 = [1%positive; 2%positive] /\
  insts s1 0%nat = [] /\
  exists dropped,
    filter (live (mem (core s0))) (due theIn s0 0) =
      passed s0 s1 0 ++ filter (live (mem (core s0))) (skidBuffer s1 0%nat) ++ dropped /\
    (dropped = [] \/ exists b, foundMispredicted target s0 s1 0 b /\
       forall p, p ∈ dropped -> squashedAt (mem (core s1)) p = true).
Proof.
  split; [vm_compute; reflexivity|]. split; [vm_compute; reflexivity|].
  apply (decode_in_order target theCfg theIn s0 s1 0 theCfg_ok s0_rest theIn_ok s1_run); [by left|].
  change (due theIn s0 0) with [1%positive; 2%positive; 3%positive].
  repeat (constructor; [|repeat constructor]); constructor.
Defined.

Lemma decode_squashes_exactly_witness :
  squashedAt (mem (core s1)) 3 = true /\
  (squashedAt (mem (core s1)) 3 = true <->
   squashedAt (mem (core s0)) 3 = true \/
   (exists t, t ∈ activeThreads theCfg /\ commit_squash theIn t = true /\
      3%positive ∈ incoming theIn (mem (core s0)) t) \/
   (exists t b, t ∈ activeThreads theCfg /\ commit_squash theIn t = false /\
      foundMispredicted target s0 s1 t b /\
      doomed (mem (core s0)) (seqAt (mem (core s0)) b) t 3 /\
      (3%positive ∈ fromFetch theIn \/ 3%positive ∈ cpuInstList (cpu (core s0))))).
Proof.
  split; [vm_compute; reflexivity|].
  exact (decode_squashes_exactly target theCfg theIn s0 s1 3 theCfg_ok s0_rest theIn_ok s1_run).
Defined.
