(* ===== verification/FrontEnd.v ===== *)
(** * Fetch and decode, joined

    The part of [src/src/cpu/o3/fetch.cc] that talks to decode (its stall flag,
    its queue and the loop that hands instructions over), the time buffers
    between the two stages, and a cycle of both.  Where fetch's queue gets its
    instructions from, and what the rest of the processor does to the
    instructions in flight, are inputs of each cycle. *)

From stdpp Require Import base numbers list gmap functions.
From S2P Require Import Prelude Regs Monad DynInst Stage ROB Decode.

#[local] Open Scope Z_scope.

(** ** Fetch's side *)

(** What decode writes to fetch about blocking. *)
Record Signals := mkSignals {
  sig_block : ThreadID -> bool;
  sig_unblock : ThreadID -> bool
}.

Definition noSignals : Signals := mkSignals (fun _ => false) (fun _ => false).

(** The beginning of [Fetch::checkSignalsAndUpdate]. *)
Definition readDecodeSignals (sg : Signals) (tid : ThreadID) (stalls : ThreadID -> bool)
    : res (ThreadID -> bool) :=
  let stalls := if sig_block sg tid then <[tid := true]> stalls else stalls in
  if sig_unblock sg tid then
    assert! stalls tid ;;
    assert! negb (sig_block sg tid) ;;
    Ok (<[tid := false]> stalls)
  else Ok stalls.

(** The end of [Fetch::tick]: the instructions of threads that are not stalled. *)
Definition availableInsts (active : list ThreadID) (stalls : ThreadID -> bool)
    (fetchQueue : ThreadID -> list InstPtr) : nat :=
  sum_list (map (fun tid => if stalls tid then O else length (fetchQueue tid)) active).

(** The loop: [it] is what is left of the list of active threads from the
    iterator on, [out] the slot for decode. *)
Fixpoint sendLoop (fuel : nat) (decodeWidth : Z) (active : list ThreadID) (stalls : ThreadID -> bool)
    (it : list ThreadID) (available_insts : nat) (fetchQueue : ThreadID -> list InstPtr)
    (out : list InstPtr) : res ((ThreadID -> list InstPtr) * list InstPtr) :=
  if (available_insts =? 0)%nat || (decodeWidth <=? Z.of_nat (length out)) then Ok (fetchQueue, out)
  else match fuel, it with
  | S fuel, tid :: it =>
      let next := match it with [] => active | _ => it end in
      match (if stalls tid then [] else fetchQueue tid) with
      | [] => sendLoop fuel decodeWidth active stalls next available_insts fetchQueue out
      | p :: q =>
          if MaxWidth <=? Z.of_nat (length out) then Undef else
          sendLoop fuel decodeWidth active stalls next (available_insts - 1)
            (<[tid := q]> fetchQueue) (out ++ [p])
      end
  | _, _ => Undef
  end.

(** The hand-over, starting from the active thread number [start], which the
    code picks at random. *)
Definition sendToDecode (decodeWidth : Z) (active : list ThreadID) (stalls : ThreadID -> bool)
    (start : nat) (fetchQueue : ThreadID -> list InstPtr)
    : res ((ThreadID -> list InstPtr) * list InstPtr) :=
  let available_insts := availableInsts active stalls fetchQueue in
  sendLoop (2 * length active * available_insts) decodeWidth active stalls
    (drop start active) available_insts fetchQueue [].

(** ** Both stages *)

Record FrontEnd {PC : Type} := mkFrontEnd {
  fe_decode : Decode PC;
  fetchQueue : ThreadID -> list InstPtr;
  stalls_decode : ThreadID -> bool;
  toDecodeWire : list (list InstPtr);     (* oldest first, [fetchToDecodeDelay] slots *)
  toFetchWire : list Signals              (* oldest first, [decodeToFetchDelay] slots *)
}.
Arguments FrontEnd : clear implicits.

(** What a cycle gets from outside. *)
Record FrontIn {PC : Type} := mkFrontIn {
  fi_clear : ThreadID -> bool;            (* fetch squashes the thread's queue *)
  fi_new : ThreadID -> list InstPtr;      (* fetched this cycle *)
  fi_start : nat;                         (* the random number *)
  fi_core : Core;                         (* the instructions in flight *)
  fi_predPC : InstPtr -> PC;
  fi_renameBlock : ThreadID -> bool;
  fi_renameUnblock : ThreadID -> bool;
  fi_commitSquash : ThreadID -> bool
}.
Arguments FrontIn : clear implicits.

#[export] Instance eta_frontIn {PC} : Eta (FrontIn PC) := fun i =>
  mkFrontIn _ (fi_clear i) (fi_new i) (fi_start i) (fi_core i) (fi_predPC i) (fi_renameBlock i)
    (fi_renameUnblock i) (fi_commitSquash i).

Section FrontEnd.
Context {PC : Type} `{EqDecision PC} (branchTarget : InstPtr -> PC) (cfg : DecodeConfig).

(** The time buffers at the start: [fetchToDecodeDelay] and [decodeToFetchDelay]
    empty slots. *)
Definition FrontEnd_init (fetchToDecodeDelay decodeToFetchDelay : nat) (s : Decode PC) : FrontEnd PC :=
  mkFrontEnd _ s (fun _ => []) (fun _ => false)
    (replicate fetchToDecodeDelay []) (replicate decodeToFetchDelay noSignals).

(** What decode sees. *)
Definition decodeIn (i : FrontIn PC) (arriving : list InstPtr) : DecodeIn :=
  {| fromFetch := arriving; renameBlock := fi_renameBlock i; renameUnblock := fi_renameUnblock i;
     commit_squash := fi_commitSquash i |}.

(** Decode's state with the instructions as the rest of the processor left them. *)
Definition enterDecode (i : FrontIn PC) (s : Decode PC) : Decode PC :=
  s <| core := fi_core i |> <| predPC := fi_predPC i |>.

(** Fetch, then decode, then the time buffers advance. *)
Definition feCycle (i : FrontIn PC) (s : FrontEnd PC) : res (FrontEnd PC) :=
  match toFetchWire s, toDecodeWire s with
  | sg :: sigs, arriving :: wire =>
      stalls ← foldR (fun st tid => readDecodeSignals sg tid st) (stalls_decode s) (activeThreads cfg);
      let q := fun tid => (if fi_clear i tid then [] else fetchQueue s tid) ++ fi_new i tid in
      '(q, out) ← sendToDecode (decodeWidth cfg) (activeThreads cfg) stalls (fi_start i) q;
      '(_, d) ← cpuTick branchTarget cfg (decodeIn i arriving) (enterDecode i (fe_decode s));
      Ok (mkFrontEnd _ d q stalls (wire ++ [out])
            (sigs ++ [mkSignals (decodeBlock d) (decodeUnblock d)]))
  | _, _ => Undef
  end.

Definition feRun (l : list (FrontIn PC)) (s : FrontEnd PC) : res (FrontEnd PC) :=
  foldR (fun s i => feCycle i s) s l.

End FrontEnd.
