(* ===== verification/FrontEndSend.v ===== *)
(** * The hand-over from fetch to decode

    The loop at the end of [Fetch::tick] terminates, whatever thread it starts
    with, and takes from the queues of the threads that are not stalled. *)

From stdpp Require Import base numbers list gmap functions sorting.
From S2P Require Import Prelude Regs Monad DynInst Stage ROB Decode FrontEnd.

#[local] Open Scope Z_scope.

Section Send.
Context (decodeWidth : Z) (active : list ThreadID) (stalls : ThreadID -> bool).

#[local] Abbreviation Queues := (ThreadID -> list InstPtr).
#[local] Abbreviation avail := (availableInsts active stalls).

(** ** Definitions *)

(** The thread can send. *)
Definition sendable (q : Queues) (t : ThreadID) : Prop := stalls t = false /\ q t <> [].

(** The loop's work on queues [q] adds [sent] to the slot and leaves [q']. *)
Record handed (owner : InstPtr -> ThreadID) (q q' : Queues) (sent : list InstPtr) : Prop := {
  hd_order : forall t, q t = filter (fun p => owner p = t) sent ++ q' t;
  hd_stalled : forall t, stalls t = true -> q' t = q t
}.

Definition owned (owner : InstPtr -> ThreadID) (q : Queues) : Prop :=
  forall t p, p ∈ q t -> owner p = t.

(** ** The count of available instructions *)

Lemma sum_list_zero l : sum_list l = O <-> forall n, n ∈ l -> n = O.
Proof.
  induction l as [|x l IH]; cbn; [split; [intros _ n []%not_elem_of_nil|done]|].
  split.
  - intros H n [->|Hn]%elem_of_cons; [lia|]. apply IH; [lia|done].
  - intros H. rewrite (H x) by (by left). apply IH. intros n Hn. apply H. by right.
Qed.

Lemma avail_pos (q : Queues) : avail q <> O -> exists t, t ∈ active /\ sendable q t.
Proof.
  intros H. destruct (decide (Exists (sendable q) active)) as [He|He].
  - rewrite Exists_exists in He. destruct He as (t & ? & ?). eauto.
  - destruct H. unfold availableInsts. apply sum_list_zero. intros n Hn.
    apply list_elem_of_In, in_map_iff in Hn as (t & <- & Ht%list_elem_of_In).
    destruct (stalls t) eqn:Es; [done|]. destruct (q t) eqn:Eq; [done|]. destruct He.
    apply Exists_exists. exists t. split; [done|]. split; [done|]. by rewrite Eq.
Qed.

Lemma avail_zero (q : Queues) t : avail q = O -> t ∈ active -> ~ sendable q t.
Proof.
  unfold availableInsts. rewrite sum_list_zero. intros H Ht [Hs Hq].
  assert (E : length (q t) = O).
  { apply H. apply list_elem_of_In, in_map_iff. exists t. rewrite Hs.
    split; [done|by apply list_elem_of_In]. }
  by destruct (q t).
Qed.

(** Sending one instruction. *)
Lemma avail_send (q : Queues) t p q0 :
  NoDup active -> t ∈ active -> stalls t = false -> q t = p :: q0 ->
  avail q = S (avail (<[t := q0]> q)).
Proof.
  intros Hnd Ht Hs Hq. unfold availableInsts. induction Hnd as [|x l Hn Hnd IH]; [by apply not_elem_of_nil in Ht|].
  cbn. apply elem_of_cons in Ht as [<-|Ht].
  - rewrite Hs, fn_lookup_insert, Hq. cbn. f_equal. f_equal. f_equal. apply map_ext_in.
    intros y Hy. rewrite fn_lookup_insert_ne; [done|]. intros ->. apply Hn. by apply list_elem_of_In.
  - rewrite (IH Ht), fn_lookup_insert_ne; [lia|]. by intros ->.
Qed.

(** ** The loop *)

(** The iterator after a step. *)
Definition nextIt (it : list ThreadID) : list ThreadID := match it with [] => active | _ => it end.

(** The iterator meets a thread that can send within [n] steps. *)
Definition meets (q : Queues) (it : list ThreadID) (n : nat) : Prop :=
  exists pre t post, it ++ active = pre ++ t :: post /\ sendable q t /\ (length pre < n)%nat.

Lemma meets_any (q : Queues) it :
  avail q <> O -> (length it <= length active)%nat -> meets q it (2 * length active).
Proof.
  intros (t & Ht & Hs)%avail_pos Hl. apply list_elem_of_split in Ht as (l1 & l2 & E).
  exists (it ++ l1), t, l2. split_and!; [by rewrite <- app_assoc, <- E|done|].
  rewrite E in *. rewrite !length_app in *. cbn in *. lia.
Qed.

Lemma meets_next (q : Queues) x it n :
  meets q (x :: it) n -> ~ sendable q x -> exists n', n = S n' /\ meets q (nextIt it) n'.
Proof.
  intros (pre & t & post & E & Hs & Hl) Hx. destruct pre as [|y pre]; cbn in E.
  { injection E as -> _. done. }
  injection E as -> E. cbn in Hl. destruct n as [|n']; [lia|]. exists n'. split; [done|].
  exists pre, t. unfold nextIt. destruct it as [|z it].
  - exists (post ++ active). split_and!; [|done|lia]. cbn in E. rewrite E. by rewrite <- app_assoc.
  - exists post. split_and!; [done..|lia].
Qed.

Lemma handed_refl owner (q : Queues) : handed owner q q [].
Proof. by split. Qed.

Lemma handed_cons owner (q q' : Queues) t p q0 sent :
  owned owner q -> stalls t = false -> q t = p :: q0 ->
  handed owner (<[t := q0]> q) q' sent -> handed owner q q' (p :: sent).
Proof.
  intros Hown Hs Hq [H1 H2]. assert (Hp : owner p = t) by (apply Hown; rewrite Hq; by left).
  split.
  - intros t'. rewrite filter_cons. destruct (decide (t' = t)) as [->|Ht].
    + rewrite decide_True by done. specialize (H1 t). rewrite fn_lookup_insert in H1.
      cbn. by rewrite <- H1.
    + rewrite decide_False by congruence. specialize (H1 t'). by rewrite fn_lookup_insert_ne in H1.
  - intros t' Ht'. rewrite H2 by done. rewrite fn_lookup_insert_ne; [done|]. congruence.
Qed.

Lemma sendLoop_ok owner fuel it (q : Queues) out :
  NoDup active -> decodeWidth <= MaxWidth -> owned owner q ->
  it <> [] -> (forall t, t ∈ it -> t ∈ active) -> (length it <= length active)%nat ->
  (avail q <> O -> exists n, meets q it n /\ (n + 2 * length active * (avail q - 1) <= fuel)%nat) ->
  exists q' sent, sendLoop fuel decodeWidth active stalls it (avail q) q out = Ok (q', out ++ sent) /\
    handed owner q q' sent /\
    (sent = [] \/ Z.of_nat (length (out ++ sent)) <= decodeWidth) /\
    (avail q' = O \/ decodeWidth <= Z.of_nat (length (out ++ sent))).
Proof.
  intros Hnd Hw. revert it q out. induction fuel as [|fuel IH]; intros it q out Hown Hne Hin Hlen Hf.
  all: cbn [sendLoop]; destruct (avail q) as [|a] eqn:Ea; cbn [Nat.eqb orb];
    [exists q, []; rewrite app_nil_r; auto using handed_refl|].
  all: destruct (Z.leb_spec decodeWidth (Z.of_nat (length out)));
    [exists q, []; rewrite app_nil_r; auto using handed_refl|].
  all: destruct (Hf ltac:(done)) as (n & Hm & Hn).
  { destruct Hm as (pre & t & post & _ & _ & Hl). nia. }
  destruct it as [|x it]; [done|]. fold (nextIt it).
  assert (Hx : x ∈ active) by (apply Hin; by left).
  assert (Hnx : nextIt it <> [] /\ (forall t, t ∈ nextIt it -> t ∈ active) /\
    (length (nextIt it) <= length active)%nat).
  { unfold nextIt. destruct it as [|y it]; [split_and!; [|done|lia]; by destruct active; [apply not_elem_of_nil in Hx|]|].
    split_and!; [done| |cbn in *; lia]. intros t Ht. apply Hin. by right. }
  destruct Hnx as (Hn1 & Hn2 & Hn3).
  destruct (if stalls x then [] else q x) as [|p q0] eqn:Eq.
  - (* nothing to send from this thread *)
    destruct (meets_next q x it n Hm) as (n' & -> & Hm').
    { intros [Hs Hq]. by rewrite Hs in Eq. }
    rewrite <- Ea. apply IH; try done. intros _. exists n'. split; [done|]. rewrite Ea. lia.
  - destruct (stalls x) eqn:Es; [done|].
    assert ((MaxWidth <=? Z.of_nat (length out)) = false) as -> by lia.
    pose proof (avail_send q x p q0 Hnd Hx Es Eq) as Ha. rewrite Ea in Ha. injection Ha as Ha.
    replace (S a - 1)%nat with (avail (<[x := q0]> q)) by lia.
    destruct (IH (nextIt it) (<[x := q0]> q) (out ++ [p])) as (q' & sent & E & Hh & Hl & Hend); try done.
    + intros t y Hy. destruct (decide (t = x)) as [->|Ht].
      * rewrite fn_lookup_insert in Hy. apply Hown. rewrite Eq. by right.
      * rewrite fn_lookup_insert_ne in Hy by done. by apply Hown.
    + intros Hne'. exists (2 * length active)%nat. split; [by apply meets_any|].
      rewrite <- Ha in *. destruct Hm as (pre & _ & _ & _ & _ & Hl).
      replace (S a - 1)%nat with a in Hn by lia. destruct a as [|a]; [done|].
      replace (S a - 1)%nat with a by lia. nia.
    + exists q', (p :: sent). rewrite <- app_assoc in E, Hl, Hend. cbn in E, Hl, Hend.
      split_and!; [done|by eapply handed_cons| |done]. right.
      destruct Hl as [->|Hl]; [|done]. rewrite length_app. cbn. lia.
Qed.

End Send.
