(* ===== verification/FrontEndInv.v ===== *)
(** * Flow control between fetch and decode

    Decode tells fetch to stop and to go on; fetch hears of it some cycles later,
    and what fetch sent meanwhile arrives later still.  The invariant counts, for
    a thread that decode has blocked, what is in its skid buffer, what is on the
    wire and what fetch may still send before it hears: together they fit. *)

From stdpp Require Import base numbers list gmap functions sorting.
From S2P Require Import Prelude Regs Monad DynInst Stage ROB ROBProps Decode DecodeInv DecodeStep DecodeLoop DecodeThread DecodePath DecodeCycle DecodeTick DecodeProps FrontEnd FrontEndSend.

#[local] Open Scope Z_scope.

(** ** Definitions *)

Definition heard (b : bool) (sg : Signals) (t : ThreadID) : bool :=
  told b (sig_block sg t) (sig_unblock sg t).

(** Fetch's assertions hold of the signals on the wire, and in the end fetch
    knows that the thread is blocked, or is not ([final]). *)
Fixpoint legal (b : bool) (l : list Signals) (t : ThreadID) (final : bool) : Prop :=
  match l with
  | [] => b = final
  | sg :: l => (sig_unblock sg t = true -> sig_block sg t = false /\ b = true) /\
               legal (heard b sg t) l t final
  end.

(** In how many cycles to come fetch takes itself to be free to send. *)
Fixpoint opens (b : bool) (l : list Signals) (t : ThreadID) : nat :=
  match l with
  | [] => O
  | sg :: l => (if heard b sg t then 0 else 1) + opens (heard b sg t) l t
  end%nat.

(** The instructions of a thread on the wire. *)
Definition onWire (owner : InstPtr -> ThreadID) (t : ThreadID) (wire : list (list InstPtr)) : nat :=
  length (filter (fun p => owner p = t) (concat wire)).

Section Flow.
Context {PC : Type} `{EqDecision PC} (branchTarget : InstPtr -> PC) (cfg : DecodeConfig).

(** The thread of each instruction, and the two delays. *)
Context (owner : InstPtr -> ThreadID) (d e : nat).

#[local] Abbreviation width := (Z.to_nat (decodeWidth cfg)).

(** What a cycle relies on from the rest of the processor: the CPU's list is in
    order and lists what is not squashed; what fetch queues for a thread is the
    thread's; the random number is in range; rename unblocks what it blocked. *)
Record envOK (s : FrontEnd PC) (i : FrontIn PC) : Prop := {
  en_list : cpu_list_ok (mem (fi_core i)) (cpuInstList (cpu (fi_core i)));
  en_wire : forall l p, l ∈ toDecodeWire s -> p ∈ l -> good (fi_core i) (owner p) p;
  en_skid : forall t p, p ∈ skidBuffer (fe_decode s) t -> good (fi_core i) t p;
  en_new : forall t p, p ∈ fi_new i t -> owner p = t;
  en_start : (fi_start i < length (activeThreads cfg))%nat;
  en_stall : forall t, t ∈ activeThreads cfg -> fi_renameUnblock i t = true ->
    stalls_rename (fe_decode s) t || fi_renameBlock i t = true
}.

(** The invariant, for a thread. *)
Record threadFlow (s : FrontEnd PC) (t : ThreadID) : Prop := {
  tf_insts : insts (fe_decode s) t = [];
  tf_status : decodeStatus (fe_decode s) t <> StartSquash;
  tf_skid : skidBuffer (fe_decode s) t <> [] -> blocked (decodeStatus (fe_decode s) t) = true;
  tf_unblocking : decodeStatus (fe_decode s) t = Unblocking -> skidBuffer (fe_decode s) t <> [];
  tf_legal : legal (stalls_decode s t) (toFetchWire s) t (blocked (decodeStatus (fe_decode s) t));
  tf_credit : blocked (decodeStatus (fe_decode s) t) = true ->
    (length (skidBuffer (fe_decode s) t) + onWire owner t (toDecodeWire s) +
     width * opens (stalls_decode s t) (toFetchWire s) t <= (d + e) * width)%nat
}.

Record feInv (s : FrontEnd PC) : Prop := {
  fv_wire : length (toDecodeWire s) = d;
  fv_slots : Forall (fun l => (length l <= width)%nat) (toDecodeWire s);
  fv_sigs : length (toFetchWire s) = e;
  fv_queue : owned owner (fetchQueue s);
  fv_thread : forall t, t ∈ activeThreads cfg -> threadFlow s t
}.

(** ** Signals *)

Lemma legal_snoc b l t final sg final' :
  legal b l t final -> (sig_unblock sg t = true -> sig_block sg t = false /\ final = true) ->
  heard final sg t = final' -> legal b (l ++ [sg]) t final'.
Proof.
  revert b. induction l as [|x l IH]; cbn; intros b Hl Hs Hf.
  - subst b. done.
  - destruct Hl as [H1 H2]. split; [done|]. by apply IH.
Qed.

Lemma opens_snoc b l t final sg :
  legal b l t final ->
  opens b (l ++ [sg]) t = (opens b l t + if heard final sg t then 0 else 1)%nat.
Proof.
  revert b. induction l as [|x l IH]; cbn; intros b Hl.
  - subst b. lia.
  - destruct Hl as [_ Hl]. rewrite (IH _ Hl). lia.
Qed.

Lemma opens_length b l t : (opens b l t <= length l)%nat.
Proof. revert b. induction l as [|x l IH]; cbn; intros b; [done|]. specialize (IH (heard b x t)). case_match; lia. Qed.

(** Fetch reads the signals of all its threads. *)
Lemma readSignals_ok sg l (st : ThreadID -> bool) :
  NoDup l ->
  (forall t, t ∈ l -> sig_unblock sg t = true -> sig_block sg t = false /\ st t = true) ->
  exists st', foldR (fun st tid => readDecodeSignals sg tid st) st l = Ok st' /\
    (forall t, t ∈ l -> st' t = heard (st t) sg t) /\ (forall t, t ∉ l -> st' t = st t).
Proof.
  intros Hnd. revert st. induction Hnd as [|x l Hn Hnd IH]; intros st Hl.
  { exists st. split_and!; [done|by intros t []%not_elem_of_nil|done]. }
  assert (exists st1, readDecodeSignals sg x st = Ok st1 /\ st1 x = heard (st x) sg x /\
    forall t, t <> x -> st1 t = st t) as (st1 & E & Ex & Eo).
  { unfold readDecodeSignals, heard, told. specialize (Hl x ltac:(by left)).
    destruct (sig_block sg x), (sig_unblock sg x); cbn.
    - by destruct (Hl eq_refl).
    - eexists. split; [done|]. rewrite fn_lookup_insert. split; [done|].
      intros t Ht. by rewrite fn_lookup_insert_ne.
    - destruct (Hl eq_refl) as [_ ->]. cbn. eexists. split; [done|]. rewrite fn_lookup_insert.
      split; [done|]. intros t Ht. by rewrite fn_lookup_insert_ne.
    - by exists st. }
  destruct (IH st1) as (st' & E' & H1 & H2).
  { intros t Ht. rewrite Eo by (by intros ->). apply Hl. by right. }
  exists st'. split_and!.
  - cbn. rewrite E. cbn. exact E'.
  - intros t [->|Ht]%elem_of_cons; [by rewrite H2, Ex|]. rewrite H1, Eo by (done || by intros ->). done.
  - intros t Ht. apply not_elem_of_cons in Ht as [Ht Ht']. by rewrite H2, Eo.
Qed.

(** ** The wire *)

Lemma onWire_cons t l wire :
  onWire owner t (l :: wire) = (length (filter (fun p => owner p = t) l) + onWire owner t wire)%nat.
Proof. unfold onWire. cbn. by rewrite filter_app, length_app. Qed.

Lemma onWire_snoc t l wire :
  onWire owner t (wire ++ [l]) = (onWire owner t wire + length (filter (fun p => owner p = t) l))%nat.
Proof. unfold onWire. rewrite concat_app, filter_app, length_app. cbn. by rewrite app_nil_r. Qed.

Lemma onWire_bound t wire w :
  Forall (fun l => (length l <= w)%nat) wire -> (onWire owner t wire <= length wire * w)%nat.
Proof.
  induction 1 as [|l wire Hl _ IH]; [done|]. rewrite onWire_cons. cbn.
  pose proof (length_filter (fun p => owner p = t) l). lia.
Qed.

(** ** Fetch's part of a cycle *)

Lemma send_ok (st : ThreadID -> bool) start q :
  cfgOK cfg -> owned owner q -> (start < length (activeThreads cfg))%nat ->
  exists q' out, sendToDecode (decodeWidth cfg) (activeThreads cfg) st start q = Ok (q', out) /\
    handed st owner q q' out /\ (length out <= width)%nat /\
    (availableInsts (activeThreads cfg) st q' = O \/ decodeWidth cfg <= Z.of_nat (length out)).
Proof.
  intros [Hnd Hw] Hown Hst. unfold sendToDecode.
  destruct (sendLoop_ok (decodeWidth cfg) (activeThreads cfg) st owner
    (2 * length (activeThreads cfg) * availableInsts (activeThreads cfg) st q)
    (drop start (activeThreads cfg)) q []) as (q' & out & E & Hh & Hl & Hend); try done.
  - lia.
  - intros Hd. apply (f_equal length) in Hd. rewrite length_drop in Hd. cbn in Hd. lia.
  - intros t Ht. rewrite <- (take_drop start (activeThreads cfg)). rewrite elem_of_app. by right.
  - rewrite length_drop. lia.
  - intros Ha. exists (2 * length (activeThreads cfg))%nat. split; [apply meets_any; [done|rewrite length_drop; lia]|].
    destruct (availableInsts _ _ _); [done|]. nia.
  - cbn in *. exists q', out. split_and!; try done. destruct Hl as [->|Hl]; cbn; lia.
Qed.

(** A stalled thread sends nothing. *)
Lemma handed_stalled st q q' out t :
  handed st owner q q' out -> st t = true -> filter (fun p => owner p = t) out = [].
Proof.
  intros [H1 H2] Ht. specialize (H1 t). rewrite (H2 t Ht) in H1.
  apply (f_equal length) in H1. rewrite length_app in H1. apply nil_length_inv. lia.
Qed.

End Flow.
