(* ===== verification/FrontEndProps.v ===== *)
(** * Correctness of the front end's flow control

    Fetch and decode together never fail: the signals between them agree with
    decode's status, and the skid buffers never overflow when they are sized for
    the delays in both directions. *)

From stdpp Require Import base numbers list gmap functions sorting.
From S2P Require Import Prelude Regs Monad DynInst Stage ROB ROBProps Decode DecodeInv DecodeStep DecodeLoop DecodeThread DecodePath DecodeCycle DecodeTick DecodeProps FrontEnd FrontEndSend FrontEndInv.

#[local] Open Scope Z_scope.

Section Props.
Context {PC : Type} `{EqDecision PC} (branchTarget : InstPtr -> PC) (cfg : DecodeConfig).
Context (owner : InstPtr -> ThreadID) (d e : nat).

#[local] Abbreviation width := (Z.to_nat (decodeWidth cfg)).
#[local] Abbreviation Inv := (feInv cfg owner d e).

(** ** Definitions *)

(** The skid buffers are sized for the delays. *)
Record sized : Prop := {
  sz_cfg : cfgOK cfg;
  sz_forward : (1 <= d)%nat;
  sz_back : (1 <= e)%nat;
  sz_skid : Z.of_nat ((d + e) * width) <= skidBufferMax cfg
}.

(** The states the front end reaches from the start, in an environment that
    keeps its side. *)
Inductive feReach : FrontEnd PC -> Prop :=
  | reach_start st c pp : feReach (FrontEnd_init d e (startupStage cfg (Decode_ctor st c pp)))
  | reach_cycle s i s' :
      feReach s -> envOK cfg owner s i -> feCycle branchTarget cfg i s = Ok s' -> feReach s'.

(** ** Lemmas *)

Lemma threadSpec_rest_length m pp room cs st skid ins :
  (length (o_rest (threadSpec branchTarget m pp room cs st skid ins)) <= length skid + length ins)%nat.
Proof.
  unfold threadSpec. destruct cs; cbn; [lia|]. destruct st; cbn; [by rewrite length_app|].
  destruct skid as [|x skid]; [apply decodeSpec_rest_length|].
  pose proof (decodeSpec_rest_length branchTarget m pp room (x :: skid)).
  destruct (o_branch _); cbn [o_rest]; [cbn in *; lia|]. rewrite length_app. lia.
Qed.

(** What arrives for a thread. *)
Lemma incoming_owner (i : FrontIn PC) arriving t :
  (forall p, p ∈ arriving -> good (fi_core i) (owner p) p) ->
  incoming (decodeIn i arriving) (mem (fi_core i)) t = filter (fun p => owner p = t) arriving.
Proof.
  intros Hg. unfold incoming. cbn. apply list_filter_iff'. intros p Hp.
  destruct (Hg p Hp) as (j & Hj & Ht & _). rewrite Hj. cbn. rewrite Ht. naive_solver.
Qed.

(** The credit of a thread over a cycle: [b] fetch's stall flag before, [sg] the
    signal it reads, [sg'] the one decode writes. *)
Lemma credit_step t b sg sigs sg' arriving wire out k k' old :
  (1 <= d)%nat -> length (sg :: sigs) = e -> length (arriving :: wire) = d ->
  Forall (fun l => (length l <= width)%nat) (arriving :: wire) -> (length out <= width)%nat ->
  (heard b sg t = true -> filter (fun p => owner p = t) out = []) ->
  legal b (sg :: sigs) t old -> heard old sg' t = true ->
  (k' <= k + length (filter (fun p => owner p = t) arriving))%nat ->
  (old = false -> k = 0%nat) ->
  (old = true -> k + onWire owner t (arriving :: wire) + width * opens b (sg :: sigs) t
                 <= (d + e) * width)%nat ->
  (k' + onWire owner t (wire ++ [out]) + width * opens (heard b sg t) (sigs ++ [sg']) t
     <= (d + e) * width)%nat.
Proof.
  intros Hd He Hw Hsl Hout Hst [_ Hl] Hnew Hk Hidle Hold.
  rewrite onWire_snoc, (opens_snoc _ _ _ _ _ Hl), Hnew, Nat.add_0_r.
  pose proof (length_filter (fun p => owner p = t) out) as Hfo.
  apply Forall_cons in Hsl as [Ha Hsl]. destruct old.
  - specialize (Hold eq_refl). rewrite onWire_cons in Hold.
    change (opens b (sg :: sigs) t) with
      ((if heard b sg t then 0 else 1) + opens (heard b sg t) sigs t)%nat in Hold.
    rewrite Nat.mul_add_distr_l in Hold. destruct (heard b sg t) eqn:Eh.
    + rewrite (Hst eq_refl). cbn [length]. lia.
    + lia.
  - rewrite (Hidle eq_refl) in Hk. pose proof (length_filter (fun p => owner p = t) arriving).
    pose proof (onWire_bound owner t wire _ Hsl) as Hb.
    assert (width * opens (heard b sg t) sigs t <= width * length sigs)%nat
      by apply Nat.mul_le_mono_l, opens_length.
    cbn [length] in He, Hw. rewrite <- He, <- Hw. nia.
Qed.

(** Decode's part of a cycle. *)
Lemma decode_part (s : FrontEnd PC) i arriving wire :
  sized -> Inv s -> envOK cfg owner s i -> toDecodeWire s = arriving :: wire ->
  exists s', cpuTick branchTarget cfg (decodeIn i arriving) (enterDecode i (fe_decode s)) = Ok (tt, s') /\
    cycleDone branchTarget cfg (decodeIn i arriving) (enterDecode i (fe_decode s)) s'.
Proof.
  intros [Hcfg Hd He Hsz] Hinv [Hl Hw Hsk Hnew Hst Hstall] Ew. pose proof Hinv as [I1 I2 I3 I4 I5].
  assert (Hg : forall p, p ∈ arriving -> good (fi_core i) (owner p) p).
  { intros p Hp. apply (Hw arriving); [|done]. rewrite Ew. by left. }
  apply cycle_runs; [done| |].
  - intros t Ht. destruct (I5 t Ht) as [T1 T2 T3 T4 _ _]. split; try done.
    intros p Hp. by apply Hsk.
  - split; [|intros t Ht|done].
    + split; [done|]. intros p Hp. exists (owner p). by apply Hg.
    + cbn [core enterDecode skidBuffer upd_field].
      rewrite (incoming_owner i arriving t Hg). etransitivity; [|exact Hsz]. apply inj_le.
      rewrite length_app. destruct (I5 t Ht) as [_ _ T3 _ _ T6]. rewrite Ew in I2, T6.
      rewrite onWire_cons in T6. destruct (blocked (decodeStatus (fe_decode s) t)) eqn:Eb.
      * specialize (T6 eq_refl). lia.
      * destruct (skidBuffer (fe_decode s) t); [|by specialize (T3 ltac:(done))].
        apply Forall_cons in I2 as [I2 _].
        pose proof (length_filter (fun p => owner p = t) arriving). cbn [length]. nia.
Qed.

Lemma owned_queue (s : FrontEnd PC) i :
  Inv s -> envOK cfg owner s i ->
  owned owner (fun tid => (if fi_clear i tid then [] else fetchQueue s tid) ++ fi_new i tid).
Proof.
  intros Hinv Henv t p. destruct (fi_clear i t); cbn.
  - apply (en_new _ _ _ _ Henv).
  - rewrite elem_of_app. intros [Hp|Hp]; [by apply (fv_queue _ _ _ _ _ Hinv)|].
    by apply (en_new _ _ _ _ Henv).
Qed.

Lemma feCycle_ok (s : FrontEnd PC) i :
  sized -> Inv s -> envOK cfg owner s i ->
  exists s', feCycle branchTarget cfg i s = Ok s' /\ Inv s'.
Proof.
  intros Hsz Hinv Henv. pose proof Hsz as [Hcfg Hd He Hsk]. pose proof Hinv as [I1 I2 I3 I4 I5].
  unfold feCycle.
  destruct (toFetchWire s) as [|sg sigs] eqn:Es; [cbn in I3; lia|].
  destruct (toDecodeWire s) as [|arriving wire] eqn:Ew; [cbn in I1; lia|].
  destruct (readSignals_ok sg (activeThreads cfg) (stalls_decode s)) as (st & E1 & Hst & _).
  { apply Hcfg. }
  { intros t Ht. destruct (I5 t Ht) as [_ _ _ _ T5 _]. rewrite Es in T5. apply T5. }
  rewrite E1. cbn [mbind res_bind].
  destruct (send_ok cfg owner st (fi_start i) _ Hcfg (owned_queue s i Hinv Henv)
    (en_start _ _ _ _ Henv)) as (q' & out & E2 & Hh & Hlen & _).
  rewrite E2. cbn [mbind res_bind].
  destruct (decode_part s i arriving wire Hsz Hinv Henv Ew) as (d' & E3 & D).
  rewrite E3. cbn [mbind res_bind]. eexists. split; [done|].
  split; cbn.
  - rewrite length_app. cbn in *. lia.
  - apply Forall_app. split; [by apply Forall_cons in I2 as [_ ?]|]. by constructor.
  - rewrite length_app. cbn in *. lia.
  - intros t p Hp. apply (owned_queue s i Hinv Henv t). rewrite (hd_order _ _ _ _ _ Hh t).
    rewrite elem_of_app. by right.
  - intros t Ht. destruct (I5 t Ht) as [T1 T2 T3 T4 T5 T6]. rewrite Es, Ew in *.
    destruct (cycleTurns_active branchTarget cfg (decodeIn i arriving) (enterDecode i (fe_decode s)) t Ht)
      as (o & Hin).
    destruct (cd_end _ _ _ _ _ D t o Hin) as [X1 X2 _ X4 X5 X6 [X7 X7'] _].
    pose proof T5 as [_ T5']. rewrite <- (Hst t Ht) in T5'.
    split; cbn; try done.
    + by eapply legal_snoc.
    + intros Hb. rewrite (Hst t Ht). rewrite X1.
      eapply credit_step with (old := blocked (decodeStatus (fe_decode s) t))
        (k := length (skidBuffer (fe_decode s) t)); try done.
      * intros Hs. rewrite <- (Hst t Ht) in Hs. by eapply handed_stalled.
      * unfold heard. etransitivity; [exact X7|exact Hb].
      * pose proof (turns_of _ _ _ _ _ _ _ Hin) as (r & ->).
        etransitivity; [apply threadSpec_rest_length|].
        cbn [core enterDecode skidBuffer upd_field]. rewrite (incoming_owner i arriving t); [done|].
        intros p Hp. apply (en_wire _ _ _ _ Henv arriving); [|done]. rewrite Ew. by left.
      * intros Hn. destruct (skidBuffer (fe_decode s) t); [done|]. by rewrite T3 in Hn.
Qed.

(** ** The start *)

Lemma startup_threads st c pp t :
  let s := startupStage cfg (Decode_ctor st c pp : Decode PC) in
  decodeStatus s t = Idle /\ insts s t = [] /\ skidBuffer s t = [] /\ stalls_rename s t = false.
Proof.
  unfold startupStage, resetStage.
  set (s0 := Decode_ctor st c pp <| stage_status := Inactive |>).
  assert (H0 : decodeStatus s0 t = Idle /\ insts s0 t = [] /\ skidBuffer s0 t = [] /\
    stalls_rename s0 t = false) by done.
  revert H0. generalize s0. induction (seq 0 (numThreads cfg)) as [|x l IH]; intros s H0; [done|].
  cbn. apply IH. destruct H0 as (H1 & H2 & H3 & H4). cbn.
  destruct (decide (t = x)) as [->|Hx]; [by rewrite !fn_lookup_insert|by rewrite !fn_lookup_insert_ne].
Qed.

Lemma start_inv st c pp :
  Inv (FrontEnd_init d e (startupStage cfg (Decode_ctor st c pp : Decode PC))).
Proof.
  split; cbn.
  - apply length_replicate.
  - apply Forall_replicate. cbn. lia.
  - apply length_replicate.
  - intros t p []%not_elem_of_nil.
  - intros t _. pose proof (startup_threads st c pp t) as (H1 & H2 & H3 & _). cbn in H1, H2, H3.
    split; cbn; rewrite ?H1, ?H2, ?H3; try done.
    induction e as [|n IH]; cbn; [done|]. by split.
Qed.

Lemma feReach_inv (s : FrontEnd PC) : sized -> feReach s -> Inv s.
Proof.
  intros Hsz. induction 1 as [st c pp|s i s' _ IH Henv E]; [apply start_inv|].
  destruct (feCycle_ok s i Hsz IH Henv) as (s1 & E1 & H1). rewrite E1 in E. by injection E as <-.
Qed.

(** ** Properties *)

(** C15: fetch and decode together never fail.  From any state they reach, a
    cycle runs to the end: the hand-over loop terminates, neither of fetch's
    assertions on the signals fails, and the skid buffers do not overflow, if
    they have room for a full width of instructions per cycle of delay from
    fetch to decode and back. *)
Theorem frontEnd_never_fails (s : FrontEnd PC) i :
  sized -> feReach s -> envOK cfg owner s i ->
  exists s', feCycle branchTarget cfg i s = Ok s' /\
    forall t, t ∈ activeThreads cfg ->
      (length (skidBuffer (fe_decode s') t) <= (d + e) * width)%nat.
Proof.
  intros Hsz Hr Henv. destruct (feCycle_ok s i Hsz (feReach_inv s Hsz Hr) Henv) as (s' & E & Hinv).
  exists s'. split; [done|]. intros t Ht. destruct (fv_thread _ _ _ _ _ Hinv t Ht) as [_ _ T3 _ _ T6].
  destruct (blocked _); [specialize (T6 eq_refl); lia|].
  destruct (skidBuffer (fe_decode s') t); [cbn; lia|]. by specialize (T3 ltac:(done)).
Qed.

(** C16: the two stages agree, if the skid buffers are sized for the delays in
    both directions. In every reachable state, when fetch has read the signals
    that are still on their way, its stall flag for a thread is set exactly if
    decode is blocked or unblocking; on the way there, it is never told to go on
    when it was not stalled, nor to stop and go on at once. *)
Theorem frontEnd_handshake (s : FrontEnd PC) t :
  sized -> feReach s -> t ∈ activeThreads cfg ->
  foldl (fun b sg => heard b sg t) (stalls_decode s t) (toFetchWire s) =
    blocked (decodeStatus (fe_decode s) t) /\
  legal (stalls_decode s t) (toFetchWire s) t (blocked (decodeStatus (fe_decode s) t)).
Proof.
  intros Hsz Hr Ht. destruct (fv_thread _ _ _ _ _ (feReach_inv s Hsz Hr) t Ht) as [_ _ _ _ T5 _].
  split; [|done]. revert T5. generalize (stalls_decode s t).
  induction (toFetchWire s) as [|sg l IH]; intros b; cbn; [done|]. intros [_ T5]. by apply IH.
Qed.

(** C18: the hand-over from fetch to decode terminates whatever thread it starts
    from, sends at most [decodeWidth] instructions, takes them off the front of
    each queue in order, takes none of a stalled thread, and only stops when the
    width is used up or no thread that may send has anything left. *)
Theorem fetch_handoff (st : ThreadID -> bool) start q :
  cfgOK cfg -> owned owner q -> (start < length (activeThreads cfg))%nat ->
  exists q' out, sendToDecode (decodeWidth cfg) (activeThreads cfg) st start q = Ok (q', out) /\
    (length out <= width)%nat /\
    (forall t, q t = filter (fun p => owner p = t) out ++ q' t) /\
    (forall t, st t = true -> q' t = q t) /\
    (length out = width \/ forall t, t ∈ activeThreads cfg -> st t = false -> q' t = []).
Proof.
  intros Hcfg Hown Hst. destruct (send_ok cfg owner st start q Hcfg Hown Hst)
    as (q' & out & E & [H1 H2] & Hl & Hend).
  exists q', out. split_and!; try done. destruct Hend as [Ha|Ha]; [right|left; lia].
  intros t Ht Hs. destruct (q' t) eqn:Eq; [done|].
  destruct (avail_zero (activeThreads cfg) st q' t Ha Ht). split; [done|]. by rewrite Eq.
Qed.

End Props.

(** ** Concrete runs *)

Module Link.
Import DecodeProps.Sample.

(** Everything belongs to thread 0; the delays are one cycle each way. *)
Definition own (p : InstPtr) : ThreadID := 0%nat.

Definition linkCfg : DecodeConfig :=
  {| decodeWidth := 4; numThreads := 1; skidBufferMax := 8; activeThreads := [0%nat];
     FullSystem := false |}.

Definition inWith (new : list InstPtr) (block : bool) : FrontIn Z :=
  mkFrontIn _ (fun _ => false) (fun t => match t with O => new | _ => [] end) 0 theCore
    (fun _ => 8) (fun _ => block) (fun _ => false) (fun _ => false).

Definition f0 : FrontEnd Z :=
  FrontEnd_init 1 1 (startupStage linkCfg (Decode_ctor Inactive theCore (fun _ => 8))).

Definition i0 : FrontIn Z := inWith [1%positive; 2%positive; 3%positive] false.
Definition i1 : FrontIn Z := inWith [] false.

Definition f1 : FrontEnd Z := match feCycle target linkCfg i0 f0 with Ok s => s | _ => f0 end.

Lemma link_sized : sized linkCfg 1 1.
Proof.
  split; [|done|done|vm_compute; discriminate].
  split; [apply NoDup_singleton|cbn; unfold MaxWidth; lia].
Qed.

Lemma the_good p : p ∈ [1%positive; 2%positive; 3%positive] -> good theCore 0 p.
Proof. apply sample_good. Qed.

Lemma link_env (s : FrontEnd Z) (i : FrontIn Z) :
  fi_core i = theCore -> fi_start i = 0%nat -> (forall t, fi_renameUnblock i t = false) ->
  (forall t p, p ∈ fi_new i t -> t = 0%nat) ->
  (forall l p, l ∈ toDecodeWire s -> p ∈ l -> p ∈ [1%positive; 2%positive; 3%positive]) ->
  (forall t, skidBuffer (fe_decode s) t = []) -> envOK linkCfg own s i.
Proof.
  intros Ec Es Hu Hn Hw Hk. split; rewrite ?Ec, ?Es.
  - apply theIn_ok.
  - intros l p Hl Hp. apply the_good. by eapply Hw.
  - intros t p. rewrite Hk. by intros []%not_elem_of_nil.
  - intros t p Hp. by rewrite (Hn t p Hp).
  - cbn. lia.
  - intros t _. by rewrite Hu.
Qed.

Lemma f0_reach : feReach target linkCfg own 1 1 f0.
Proof. apply reach_start. Qed.

Lemma i0_env : envOK linkCfg own f0 i0.
Proof.
  apply link_env; try done.
  - intros [|t] p; [done|]. intros []%not_elem_of_nil.
  - intros l p Hl Hp. cbn in Hl. apply list_elem_of_singleton in Hl as ->. by apply not_elem_of_nil in Hp.
Qed.

Lemma f1_reach : feReach target linkCfg own 1 1 f1.
Proof.
  apply (reach_cycle target linkCfg own 1 1 f0 i0 f1 f0_reach i0_env).
  destruct (feCycle_ok target linkCfg own 1 1 f0 i0 link_sized (start_inv _ _ _ _ _ _ _) i0_env)
    as (s' & E & _).
  unfold f1. by rewrite E.
Qed.

Lemma i1_env : envOK linkCfg own f1 i1.
Proof.
  apply link_env; try done.
  - intros [|t] p; intros []%not_elem_of_nil.
  - intros l p Hl Hp. assert (E : toDecodeWire f1 = [[1%positive; 2%positive; 3%positive]])
      by (vm_compute; reflexivity).
    rewrite E in Hl. by apply list_elem_of_singleton in Hl as ->.
Qed.

End Link.
Import Link DecodeProps.Sample.

(** ** Witnesses *)

Lemma frontEnd_never_fails_witness :
  toDecodeWire f1 = [[1%positive; 2%positive; 3%positive]] /\
  exists s', feCycle target linkCfg i1 f1 = Ok s' /\
    forall t, t ∈ activeThreads linkCfg ->
      (length (skidBuffer (fe_decode s') t) <= (1 + 1) * Z.to_nat (decodeWidth linkCfg))%nat.
Proof.
  split; [vm_compute; reflexivity|].
  exact (frontEnd_never_fails target linkCfg own 1 1 f1 i1 link_sized f1_reach i1_env).
Defined.

Lemma frontEnd_handshake_witness :
  0%nat ∈ activeThreads linkCfg /\
  foldl (fun b sg => heard b sg 0) (stalls_decode f1 0%nat) (toFetchWire f1) =
    blocked (decodeStatus (fe_decode f1) 0%nat) /\
  legal (stalls_decode f1 0%nat) (toFetchWire f1) 0 (blocked (decodeStatus (fe_decode f1) 0%nat)).
Proof.
  split; [by left|].
  apply (frontEnd_handshake target linkCfg own 1 1 f1 0 link_sized f1_reach). by left.
Defined.

Lemma fetch_handoff_witness :
  (0 < 1)%nat /\
  exists q' out, sendToDecode (decodeWidth linkCfg) (activeThreads linkCfg) (fun _ => false) 0
      (fi_new i0) = Ok (q', out) /\
    (length out <= Z.to_nat (decodeWidth linkCfg))%nat /\
    (forall t, fi_new i0 t = filter (fun p => own p = t) out ++ q' t) /\
    (forall t, false = true -> q' t = fi_new i0 t) /\
    (length out = Z.to_nat (decodeWidth linkCfg) \/
     forall t, t ∈ activeThreads linkCfg -> false = false -> q' t = []).
Proof.
  split; [lia|].
  apply (fetch_handoff linkCfg own (fun _ => false) 0 (fi_new i0)).
  - apply link_sized.
  - intros [|t] p; [done|]. intros []%not_elem_of_nil.
  - cbn. lia.
Defined.
