(* ===== verification/FrontEndTight.v ===== *)
(** * How large the skid buffers have to be

    [FrontEndProps] shows that skid buffers with room for a full width of
    instructions per cycle of delay, from fetch to decode and back, never
    overflow.  Here the converse: with any less room there is a run in which
    rename blocks as the first instructions arrive, fetch goes on until it hears
    of it, and the assertion of [Decode::skidInsert] fails. *)

From stdpp Require Import base numbers list gmap functions sorting.
From S2P Require Import Prelude Regs Monad DynInst Stage ROB ROBProps Decode DecodeInv DecodeStep DecodeLoop DecodeThread DecodePath DecodeCycle DecodeTick DecodeProps FrontEnd FrontEndSend FrontEndInv FrontEndProps.

#[local] Open Scope Z_scope.

(** ** Two cycles of decode *)

Section Decode.
Context {PC : Type} `{EqDecision PC} (branchTarget : InstPtr -> PC).
Context (cfg : DecodeConfig) (inp : DecodeIn).

#[local] Abbreviation St := (Decode PC).

(** The only thread is told to stall and has too much to keep. *)
Lemma cycle_overflows (s : St) t :
  activeThreads cfg = [t] -> threadRest s t -> coreOK inp (core s) ->
  commit_squash inp t = false -> stallNow inp s t = true ->
  skidBufferMax cfg < Z.of_nat (length (skidBuffer s t ++ incoming inp (mem (core s)) t)) ->
  cpuTick branchTarget cfg inp s = Panic.
Proof.
  intros Ha [R1 R2 _ _ _] [_ Hf] Hcs Hst Hlen. unfold cpuTick, tick. fwd.
  match goal with |- context [(sortInsts inp ≫= _) ?x] => set (s0 := x) end.
  destruct (sortInsts_ok inp s0 Hf) as (g & E & Hg). rewrite (bind_run _ _ _ _ _ E).
  match type of E with _ = Ok (_, ?x) => set (s1 := x) in * end.
  assert (Hin : insts s1 t = incoming inp (mem (core s)) t).
  { change (insts s1 t) with (g t). rewrite Hg. by rewrite (R1 : insts s0 t = []). }
  assert (Hu : renameUnblock inp t = true -> stalls_rename s1 t || renameBlock inp t = true).
  { intros Hu. unfold stallNow in Hst. by rewrite Hu in Hst. }
  destruct (readStallSignals_ok inp t s1 Hu) as (f & E2 & Ef & _).
  apply bind_panic. rewrite Ha. cbn [tickThreads]. apply bind_panic.
  unfold checkSignalsAndUpdate. rewrite (bind_run _ _ _ _ _ E2), Hcs. unfold checkStall. fwd.
  change (stalls_rename _ t) with (f t). rewrite Ef. change (stallNow inp s1 t) with (stallNow inp s t).
  rewrite Hst. apply bind_panic. apply skidInsert_overflows.
  - intros p. change (insts _ t) with (insts s1 t). rewrite Hin. intros [Hth Hp]%list_elem_of_filter.
    destruct (Hf p Hp) as (t' & Hgd). pose proof Hgd as (i & Hi & <- & _). rewrite Hi in Hth.
    by injection Hth as <-.
  - change (insts _ t) with (insts s1 t). by rewrite Hin.
Qed.

(** Nothing to do. *)
Lemma cycle_idles (s : St) t :
  activeThreads cfg = [t] -> fromFetch inp = [] -> decodeStatus s t = Idle ->
  insts s t = [] -> stalls_rename s t = false ->
  renameBlock inp t = false -> renameUnblock inp t = false -> commit_squash inp t = false ->
  exists s', cpuTick branchTarget cfg inp s = Ok (tt, s') /\
    decodeStatus s' = decodeStatus s /\ insts s' = insts s /\ skidBuffer s' = skidBuffer s /\
    stalls_rename s' = stalls_rename s /\ decodeBlock s' t = false /\ decodeUnblock s' t = false.
Proof.
  intros Ha Hf Hst Hin Hsl Hb Hu Hcs. unfold cpuTick, tick, sortInsts. rewrite Hf, Ha. fwd.
  cbn [forM tickThreads]. unfold checkSignalsAndUpdate, readStallSignals, checkStall, decode, decodeInsts, queueOf.
  rewrite Hb, Hu, Hcs. cbn [when]. destruct s. fwd. flat. rewrite Hsl. fwd. flat. rewrite Hst.
  repeat (rewrite decide_False by done). fwd. flat. rewrite Hst. rewrite decide_True by auto. fwd. flat.
  rewrite Hst, bool_decide_eq_false_2 by done. fwd. flat. rewrite Hin. cbn [length Nat.eqb].
  fwd. cbn [orb when]. fwd. flat. cbn [when]. eexists. split; [done|]. done.
Qed.

End Decode.

(** ** The run *)

Section Press.
Context {PC : Type} `{EqDecision PC} (branchTarget : InstPtr -> PC) (pp : InstPtr -> PC).
Context (cfg : DecodeConfig) (d e : nat).

#[local] Abbreviation width := (Z.to_nat (decodeWidth cfg)).
#[local] Abbreviation St := (FrontEnd PC).

(** Instructions of thread 0, numbered from one, and the ones fetch gets in each
    of the first [d + e] cycles. *)
Definition stream (n : nat) : list InstPtr := Pos.of_succ_nat <$> seq 0 n.
Definition batch (k : nat) : list InstPtr := Pos.of_succ_nat <$> seq (k * width) width.

Definition pressCore : Core :=
  mkCore (ROB_ctor Dynamic 8 2 0 1 [0%nat] (fun _ => ROBRunning))
    (mkCpuInsts (stream ((d + e) * width)) [] false)
    (mkMem (list_to_map ((fun p => (p, DynInst_ctor Sample.plain 0 (Z.pos p) 0)) <$>
              stream ((d + e) * width))) ∅).

(** Rename blocks in the cycle the first instructions arrive in. *)
Definition pressIn (k : nat) : FrontIn PC :=
  mkFrontIn _ (fun _ => false)
    (fun t => match t with O => if decide (k < d + e)%nat then batch k else [] | _ => [] end)
    0 pressCore pp (fun _ => bool_decide (k = d)) (fun _ => false) (fun _ => false).

(** What arrives in decode in cycle [n]. *)
Definition arrives (n : nat) : list InstPtr :=
  if decide (d <= n < 2 * d + e)%nat then batch (n - d) else [].

Definition zeroOwner (p : InstPtr) : ThreadID := 0%nat.

(** The front end before cycle [k]. *)
Record pressed (k : nat) (s : St) : Prop := {
  pr_reach : feReach branchTarget cfg zeroOwner d e s;
  pr_wire : toDecodeWire s = arrives <$> seq k d;
  pr_sigs : length (toFetchWire s) = e;
  pr_quiet : forall i sg, toFetchWire s !! i = Some sg ->
    sig_unblock sg 0%nat = false /\ (sig_block sg 0%nat = true -> d + e <= k + i)%nat;
  pr_stall : stalls_decode s 0%nat = true -> (d + e < k)%nat;
  pr_queue : fetchQueue s 0%nat = [];
  pr_owned : owned zeroOwner (fetchQueue s);
  pr_others : forall t, t <> 0%nat -> skidBuffer (fe_decode s) t = [];
  pr_skid : skidBuffer (fe_decode s) 0%nat = concat (arrives <$> seq 0 k);
  pr_insts : insts (fe_decode s) 0%nat = [];
  pr_start : decodeStatus (fe_decode s) 0%nat <> StartSquash;
  pr_blocked : skidBuffer (fe_decode s) 0%nat <> [] -> blocked (decodeStatus (fe_decode s) 0%nat) = true;
  pr_unblocking : decodeStatus (fe_decode s) 0%nat = Unblocking -> skidBuffer (fe_decode s) 0%nat <> [];
  pr_before : (k <= d)%nat -> decodeStatus (fe_decode s) 0%nat = Idle /\ stalls_rename (fe_decode s) 0%nat = false;
  pr_after : (d < k)%nat -> stalls_rename (fe_decode s) 0%nat = true
}.

Context (Hactive : activeThreads cfg = [0%nat]) (Hw : 1 <= decodeWidth cfg <= MaxWidth).
Context (Hd : (1 <= d)%nat) (He : (1 <= e)%nat).

Lemma press_cfg : cfgOK cfg.
Proof. split; [rewrite Hactive; apply NoDup_singleton|lia]. Qed.

(** *** The instructions *)

Lemma seq_sorted a n : StronglySorted lt (seq a n).
Proof.
  revert a. induction n as [|n IH]; intros a; cbn; constructor; [done|].
  apply Forall_forall. intros x Hx%elem_of_seq. lia.
Qed.

Lemma stream_elem n p : p ∈ stream n <-> (Pos.to_nat p <= n)%nat.
Proof.
  unfold stream. rewrite list_elem_of_fmap. setoid_rewrite elem_of_seq. split.
  - intros (k & -> & Hk). rewrite SuccNat2Pos.id_succ. lia.
  - intros Hp. exists (pred (Pos.to_nat p)). pose proof (Pos2Nat.is_pos p). split; [|lia].
    apply Pos2Nat.inj. rewrite SuccNat2Pos.id_succ. lia.
Qed.

Lemma stream_NoDup n : NoDup (stream n).
Proof. apply NoDup_fmap; [|apply NoDup_seq]. intros x y Hxy. by apply SuccNat2Pos.inj in Hxy. Qed.

Lemma press_heap p :
  p ∈ stream ((d + e) * width) -> heap (mem pressCore) !! p = Some (DynInst_ctor Sample.plain 0 (Z.pos p) 0).
Proof.
  intros Hp. cbn. apply elem_of_list_to_map_1.
  - rewrite <- list_fmap_compose. rewrite (list_fmap_ext _ id), list_fmap_id; [apply stream_NoDup|done].
  - apply list_elem_of_fmap. eauto.
Qed.

Lemma press_good p : p ∈ stream ((d + e) * width) -> good pressCore 0 p.
Proof.
  intros Hp. eexists. split; [by apply press_heap|]. split_and!; try done.
Qed.

Lemma arrives_good n p : p ∈ arrives n -> good pressCore 0 p.
Proof.
  intros Hp. apply press_good, stream_elem. unfold arrives in Hp. case_decide; [|by apply not_elem_of_nil in Hp].
  unfold batch in Hp. apply list_elem_of_fmap in Hp as (x & -> & Hx%elem_of_seq). rewrite SuccNat2Pos.id_succ.
  nia.
Qed.

Lemma press_list : cpu_list_ok (mem pressCore) (cpuInstList (cpu pressCore)).
Proof.
  split.
  - change (cpuInstList (cpu pressCore)) with (stream ((d + e) * width)). unfold ordered, stream.
    assert (Hs : forall l, StronglySorted lt l -> (forall x, x ∈ l -> (x < (d + e) * width)%nat) ->
      StronglySorted (fun p q => seqAt (mem pressCore) p < seqAt (mem pressCore) q) (Pos.of_succ_nat <$> l)).
    { induction 1 as [|x l Hl IH Hx]; intros Hb; [constructor|]. cbn. constructor.
      - apply IH. intros y Hy. apply Hb. by right.
      - apply Forall_fmap. rewrite Forall_forall in Hx |- *. intros y Hy. specialize (Hx y Hy).
        pose proof (Hb x ltac:(by left)). pose proof (Hb y ltac:(by right)). cbn.
        unfold seqAt. rewrite !press_heap by (apply stream_elem; rewrite SuccNat2Pos.id_succ; lia). cbn. lia. }
    apply Hs; [apply seq_sorted|]. intros x Hx%elem_of_seq. lia.
  - intros p Hp. destruct (press_good p Hp) as (i & ? & _ & ? & _). eauto.
Qed.

Lemma batch_length k : length (batch k) = width.
Proof. unfold batch. by rewrite length_fmap, length_seq. Qed.

Lemma pressed_total n : (n <= d + e)%nat -> length (concat (arrives <$> seq 0 (d + n))) = (n * width)%nat.
Proof.
  intros Hn. induction n as [|n IH].
  - rewrite Nat.add_0_r. replace (concat (arrives <$> seq 0 d)) with (@nil InstPtr); [done|].
    symmetry. apply concat_nil_Forall, Forall_fmap, Forall_forall. intros x Hx%elem_of_seq. cbn.
    unfold arrives. by rewrite decide_False by lia.
  - rewrite Nat.add_succ_r, seq_S, fmap_app, concat_app, length_app, IH by lia. cbn.
    rewrite app_nil_r. unfold arrives. rewrite decide_True by lia. rewrite batch_length. lia.
Qed.

(** *** A cycle *)

Lemma zeroOwner_filter (l : list InstPtr) : filter (fun p => zeroOwner p = 0%nat) l = l.
Proof. apply filter_all. done. Qed.

Lemma press_env k (s : St) : pressed k s -> envOK cfg zeroOwner s (pressIn k).
Proof.
  intros P. split.
  - apply press_list.
  - intros l p Hl Hp. rewrite (pr_wire _ _ P) in Hl. apply list_elem_of_fmap in Hl as (n & -> & _).
    by eapply arrives_good.
  - intros t p Hp. destruct t as [|t]; [|rewrite (pr_others _ _ P) in Hp by done; by apply not_elem_of_nil in Hp].
    rewrite (pr_skid _ _ P) in Hp. apply list_elem_of_In, in_concat in Hp as (l & Hl & Hp).
    apply list_elem_of_In in Hl, Hp. apply list_elem_of_fmap in Hl as (n & -> & _). by eapply arrives_good.
  - intros [|t] p; [done|]. by intros []%not_elem_of_nil.
  - rewrite Hactive. cbn. lia.
  - done.
Qed.

(** Fetch sends what it has got until it hears of the block. *)
Lemma press_fetch k (s : St) sg sigs :
  pressed k s -> toFetchWire s = sg :: sigs ->
  exists st q', foldR (fun st tid => readDecodeSignals sg tid st) (stalls_decode s) (activeThreads cfg) = Ok st /\
    (st 0%nat = true -> d + e <= k)%nat /\
    sendToDecode (decodeWidth cfg) (activeThreads cfg) st (fi_start (pressIn k))
      (fun t => (if fi_clear (pressIn k) t then [] else fetchQueue s t) ++ fi_new (pressIn k) t) =
      Ok (q', arrives (k + d)) /\ q' 0%nat = [] /\ owned zeroOwner q'.
Proof.
  intros P Es. destruct (pr_quiet _ _ P 0 sg) as [Hu Hb]; [by rewrite Es|].
  destruct (readSignals_ok sg (activeThreads cfg) (stalls_decode s)) as (st & E1 & Hst & _).
  { apply press_cfg. }
  { intros t Ht. rewrite Hactive in Ht. apply list_elem_of_singleton in Ht as ->. by rewrite Hu. }
  specialize (Hst 0%nat). rewrite Hactive in Hst. specialize (Hst ltac:(by left)).
  assert (Hst' : st 0%nat = true -> (d + e <= k)%nat).
  { rewrite Hst. unfold heard, told. rewrite Hu. destruct (sig_block sg 0%nat); [intros _; specialize (Hb eq_refl); lia|].
    intros H. apply (pr_stall _ _ P) in H. lia. }
  set (q := fun t => fetchQueue s t ++ fi_new (pressIn k) t).
  assert (Hown : owned zeroOwner q).
  { intros t p [Hp|Hp]%elem_of_app; [by apply (pr_owned _ _ P)|]. destruct t; [done|by apply not_elem_of_nil in Hp]. }
  destruct (send_ok cfg zeroOwner st 0 q press_cfg Hown) as (q' & out & E2 & [Hh1 Hh2] & Hlen & Hmax).
  { rewrite Hactive. cbn. lia. }
  exists st, q'. split; [done|]. split; [done|].
  pose proof (Hh1 0%nat) as Hq. rewrite zeroOwner_filter in Hq. unfold q in Hq.
  rewrite (pr_queue _ _ P) in Hq. cbn [app fi_new pressIn] in Hq.
  assert (Hown' : owned zeroOwner q').
  { intros t p Hp. apply (Hown t). rewrite Hh1, elem_of_app. by right. }
  assert (out = arrives (k + d) /\ q' 0%nat = []) as [-> Hq'].
  { unfold arrives. destruct (decide (k < d + e)%nat) as [Hk|Hk].
    - rewrite decide_True by lia. replace (k + d - d)%nat with k by lia.
      assert (q' 0%nat = []) as E0; [|by rewrite E0, app_nil_r in Hq].
      destruct Hmax as [Ha|Ha].
      + destruct (q' 0%nat) eqn:Eq; [done|]. destruct (avail_zero (activeThreads cfg) st q' 0 Ha).
        * rewrite Hactive. by left.
        * split; [|by rewrite Eq]. destruct (st 0%nat) eqn:Est; [|done]. specialize (Hst' eq_refl). lia.
      + apply (f_equal length) in Hq. rewrite length_app, batch_length in Hq. apply nil_length_inv. lia.
    - rewrite decide_False by lia. symmetry in Hq. by apply app_eq_nil in Hq. }
  done.
Qed.

(** What decode sees in cycle [k]. *)
#[local] Abbreviation seen k := (decodeIn (pressIn k) (arrives k)).
#[local] Abbreviation entered k s := (enterDecode (pressIn k) (fe_decode s)).

Lemma press_incoming k : incoming (seen k) (mem pressCore) 0 = arrives k.
Proof.
  etransitivity; [apply (incoming_owner branchTarget zeroOwner (pressIn k)), arrives_good|].
  apply zeroOwner_filter.
Qed.

Lemma press_core k : coreOK (seen k) pressCore.
Proof. split; [apply press_list|]. intros p Hp. exists 0%nat. exact (arrives_good k p Hp). Qed.

Lemma press_rest k (s : St) : pressed k s -> threadRest (entered k s) 0.
Proof.
  intros P. pose proof (press_env k s P) as Henv. destruct P. split; try done.
  intros p Hp. by apply (en_skid _ _ _ _ Henv).
Qed.

Lemma press_stalls k (s : St) : pressed k s -> (d <= k)%nat -> stallNow (seen k) (entered k s) 0 = true.
Proof.
  intros P Hk. unfold stallNow. cbn. destruct (decide (k = d)) as [->|Hne].
  - by rewrite bool_decide_eq_true_2, orb_true_r.
  - rewrite (pr_after _ _ P) by lia. done.
Qed.

(** How the skid buffer of thread 0, its status and its signals come out. *)
Record pressedDecode (k : nat) (s : St) (s' : Decode PC) : Prop := {
  pd_skid : skidBuffer s' 0%nat = skidBuffer (fe_decode s) 0%nat ++ arrives k;
  pd_others : forall t, t <> 0%nat -> skidBuffer s' t = skidBuffer (fe_decode s) t;
  pd_insts : insts s' 0%nat = [];
  pd_start : decodeStatus s' 0%nat <> StartSquash;
  pd_blocked : skidBuffer s' 0%nat <> [] -> blocked (decodeStatus s' 0%nat) = true;
  pd_unblocking : decodeStatus s' 0%nat = Unblocking -> skidBuffer s' 0%nat <> [];
  pd_before : (k < d)%nat -> decodeStatus s' 0%nat = Idle /\ stalls_rename s' 0%nat = false;
  pd_after : (d <= k)%nat -> stalls_rename s' 0%nat = true;
  pd_unblock : decodeUnblock s' 0%nat = false;
  pd_block : (k < d)%nat -> decodeBlock s' 0%nat = false
}.

(** Before the instructions arrive decode idles. *)
Lemma press_idle k (s : St) :
  pressed k s -> (k < d)%nat ->
  exists s', cpuTick branchTarget cfg (seen k) (entered k s) = Ok (tt, s') /\ pressedDecode k s s'.
Proof.
  intros P Hk. assert (Ea : arrives k = []) by (unfold arrives; by rewrite decide_False by lia).
  destruct (pr_before _ _ P ltac:(lia)) as [H1 H2].
  destruct (cycle_idles branchTarget cfg (seen k) (entered k s) 0 Hactive) as (s' & E & E1 & E2 & E3 & E4 & E5 & E6);
    try done; [apply P|cbn; by rewrite bool_decide_eq_false_2 by lia|].
  cbn in E1, E2, E3, E4. exists s'. split; [done|]. destruct P.
  split; rewrite ?E1, ?E2, ?E3, ?E4, ?Ea, ?app_nil_r; try done. lia.
Qed.

(** Then it keeps everything. *)
Lemma press_blocks k (s : St) :
  pressed k s -> (d <= k < 2 * d + e)%nat ->
  Z.of_nat (length (skidBuffer (fe_decode s) 0%nat ++ arrives k)) <= skidBufferMax cfg ->
  exists s', cpuTick branchTarget cfg (seen k) (entered k s) = Ok (tt, s') /\ pressedDecode k s s'.
Proof.
  intros P Hk Hroom.
  assert (Hact : forall t, t ∈ activeThreads cfg -> t = 0%nat)
    by (intros t; rewrite Hactive; by intros ?%list_elem_of_singleton).
  destruct (cycle_runs branchTarget cfg (seen k) (entered k s) press_cfg) as (s' & E & D).
  { intros t ->%Hact. by apply press_rest. }
  { split; [apply press_core| |done]. intros t ->%Hact. cbn [core enterDecode upd_field skidBuffer fi_core pressIn].
    by rewrite press_incoming. }
  exists s'. split; [done|].
  destruct (cycleTurns_active branchTarget cfg (seen k) (entered k s) 0) as (o & Hin); [rewrite Hactive; by left|].
  destruct (cd_end _ _ _ _ _ D 0 o Hin) as [X1 X2 _ X4 X5 X6 [X7 X8] X9].
  pose proof (turns_of _ _ _ _ _ _ _ Hin) as (r & Eo). unfold turnOf in Eo.
  rewrite (press_stalls k s P) in Eo, X9 by lia. cbn [commit_squash decodeIn fi_commitSquash pressIn threadSpec] in Eo.
  cbn [core enterDecode upd_field skidBuffer fi_core pressIn] in Eo. rewrite press_incoming in Eo.
  rewrite Eo in X1. cbn [o_rest] in X1.
  assert (Hne : skidBuffer s' 0%nat <> []).
  { rewrite X1. unfold arrives. rewrite decide_True by lia. intros [_ Hn]%app_eq_nil.
    apply (f_equal length) in Hn. rewrite batch_length in Hn. cbn in Hn. lia. }
  split; try done; [|lia| |lia].
  - intros t Ht. apply (cd_others _ _ _ _ _ D). rewrite Hactive. by intros ?%list_elem_of_singleton.
  - destruct (decodeUnblock s' 0%nat) eqn:Eu; [|done]. destruct (X8 eq_refl) as [Eb _].
    rewrite Eb, (X5 Hne) in X7. done.
Qed.

(** The wires before the cycle. *)
Lemma press_wires k (s : St) :
  pressed k s -> exists sg sigs wire, toFetchWire s = sg :: sigs /\ toDecodeWire s = arrives k :: wire /\
    wire ++ [arrives (k + d)] = arrives <$> seq (S k) d.
Proof.
  intros P. pose proof (pr_sigs _ _ P) as Hs. destruct (toFetchWire s) as [|sg sigs]; [cbn in Hs; lia|].
  rewrite (pr_wire _ _ P). destruct d as [|n]; [lia|]. eexists sg, sigs, _. split; [done|]. split; [done|].
  rewrite seq_S, fmap_app. cbn. do 3 f_equal. lia.
Qed.

Lemma press_step k (s : St) s' :
  pressed k s -> (k < 2 * d + e)%nat ->
  cpuTick branchTarget cfg (seen k) (entered k s) = Ok (tt, s') -> pressedDecode k s s' ->
  exists s1, pressed (S k) s1.
Proof.
  intros P Hk E D. destruct (press_wires k s P) as (sg & sigs & wire & Es & Ew & Enext).
  destruct (press_fetch k s sg sigs P Es) as (st & q' & E1 & Hst & E2 & Hq & Hown).
  assert (Ec : feCycle branchTarget cfg (pressIn k) s =
    Ok (mkFrontEnd _ s' q' st (wire ++ [arrives (k + d)])
          (sigs ++ [mkSignals (decodeBlock s') (decodeUnblock s')]))).
  { unfold feCycle. rewrite Es, Ew, E1. cbn [mbind res_bind]. rewrite E2. cbn [mbind res_bind]. by rewrite E. }
  eexists. split; [exact (reach_cycle _ _ _ _ _ _ _ _ (pr_reach _ _ P) (press_env k s P) Ec)|..];
    cbn [toDecodeWire toFetchWire stalls_decode fetchQueue fe_decode].
  - done.
  - rewrite length_app. pose proof (pr_sigs _ _ P) as Hs. rewrite Es in Hs. cbn in *. lia.
  - intros i x [Hi|(Hi & Hx)]%lookup_app_Some.
    + destruct (pr_quiet _ _ P (S i) x) as [? Hb]; [by rewrite Es|]. split; [done|]. intros Hx. specialize (Hb Hx). lia.
    + apply list_lookup_singleton_Some in Hx as [Hx <-]. cbn. split; [apply D|]. intros Hb.
      destruct (decide (k < d)%nat) as [Hkd|]; [by rewrite (pd_block _ _ _ D Hkd) in Hb|].
      pose proof (pr_sigs _ _ P) as Hs. rewrite Es in Hs. cbn in Hs. lia.
  - intros H. specialize (Hst H). lia.
  - done.
  - done.
  - intros t Ht. rewrite (pd_others _ _ _ D t Ht). by apply (pr_others _ _ P).
  - rewrite (pd_skid _ _ _ D), (pr_skid _ _ P), seq_S, fmap_app, concat_app. cbn. by rewrite app_nil_r.
  - apply D.
  - apply D.
  - apply D.
  - apply D.
  - intros H. apply (pd_before _ _ _ D). lia.
  - intros H. apply (pd_after _ _ _ D). lia.
Qed.

(** *** The overflow *)

(** A state the front end reaches, and a cycle of a sound environment in which
    the thread has more than its skid buffer holds, and the assertion fails. *)
Definition overflows : Prop :=
  exists (s : St) i arriving wire, feReach branchTarget cfg zeroOwner d e s /\ envOK cfg zeroOwner s i /\
    toDecodeWire s = arriving :: wire /\
    skidBufferMax cfg < Z.of_nat (length (skidBuffer (fe_decode s) 0%nat ++ arriving)) /\
    cpuTick branchTarget cfg (decodeIn i arriving) (enterDecode i (fe_decode s)) = Panic /\
    feCycle branchTarget cfg i s = Panic.

Lemma press_overflow k (s : St) :
  pressed k s -> (d <= k)%nat ->
  skidBufferMax cfg < Z.of_nat (length (skidBuffer (fe_decode s) 0%nat ++ arrives k)) -> overflows.
Proof.
  intros P Hk Hlen. destruct (press_wires k s P) as (sg & sigs & wire & Es & Ew & _).
  destruct (press_fetch k s sg sigs P Es) as (st & q' & E1 & _ & E2 & _).
  assert (Ed : cpuTick branchTarget cfg (seen k) (entered k s) = Panic).
  { apply (cycle_overflows branchTarget cfg (seen k) (entered k s) 0); try done.
    - by apply press_rest.
    - apply press_core.
    - by apply press_stalls.
    - cbn [core enterDecode upd_field skidBuffer fi_core pressIn]. by rewrite press_incoming. }
  exists s, (pressIn k), (arrives k), wire. split_and!; try done; [apply P|by apply press_env|].
  unfold feCycle. rewrite Es, Ew, E1. cbn [mbind res_bind]. rewrite E2. cbn [mbind res_bind]. by rewrite Ed.
Qed.

Lemma press_start : exists s, pressed 0 s.
Proof.
  exists (FrontEnd_init d e (startupStage cfg (Decode_ctor Inactive pressCore pp))).
  pose proof (startup_threads cfg Inactive pressCore pp) as Hst.
  destruct (Hst 0%nat) as (H1 & H2 & H3 & H4). cbn zeta in *.
  split; cbn [toDecodeWire toFetchWire stalls_decode fetchQueue fe_decode FrontEnd_init]; rewrite ?H1, ?H2, ?H3, ?H4; try done.
  - apply reach_start.
  - apply list_eq_same_length with d; rewrite ?length_fmap, ?length_replicate, ?length_seq; try done.
    intros i x y Hi. rewrite lookup_replicate_2 by done. intros [= <-].
    rewrite list_lookup_fmap, lookup_seq_lt by done. cbn. intros [= <-]. unfold arrives.
    by rewrite decide_False by lia.
  - by rewrite length_replicate.
  - intros i sg [-> _]%lookup_replicate. done.
  - intros t p []%not_elem_of_nil.
  - intros t _. apply Hst.
  - lia.
Qed.

Lemma press_waits : exists s, pressed d s.
Proof.
  assert (H : forall k, (k <= d)%nat -> exists s, pressed k s); [|by apply H].
  induction k as [|k IH]; intros Hk; [apply press_start|].
  destruct (IH ltac:(lia)) as (s & P). destruct (press_idle k s P ltac:(lia)) as (s' & E & D).
  eapply press_step; [exact P|lia|exact E|exact D].
Qed.

Lemma press_fills n :
  (n <= d + e)%nat -> overflows \/ exists s, pressed (d + n) s /\ (n = 0%nat \/ Z.of_nat (n * width) <= skidBufferMax cfg).
Proof.
  induction n as [|n IH]; intros Hn.
  { right. destruct press_waits as (s & P). exists s. rewrite Nat.add_0_r. auto. }
  destruct IH as [?|(s & P & _)]; [lia|by left|].
  assert (El : length (skidBuffer (fe_decode s) 0%nat ++ arrives (d + n)) = (S n * width)%nat).
  { rewrite (pr_skid _ _ P), length_app, pressed_total by lia. unfold arrives. rewrite decide_True by lia.
    rewrite batch_length. lia. }
  destruct (decide (Z.of_nat (S n * width) <= skidBufferMax cfg)) as [Hle|Hgt].
  - right. destruct (press_blocks (d + n) s P) as (s' & E & D); [lia|by rewrite El|].
    destruct (press_step (d + n) s s' P ltac:(lia) E D) as (s1 & P1). exists s1.
    rewrite Nat.add_succ_r. auto.
  - left. eapply press_overflow; [exact P|lia|]. rewrite El. lia.
Qed.

End Press.

(** ** The theorem *)

(** C19: the size [FrontEndProps.frontEnd_never_fails] asks for is exact.  Whatever
    the width and the delays from fetch to decode and back, a machine with one
    thread whose skid buffer has room for less than a full width of instructions
    per cycle of delay in both directions can be brought to fail: it reaches a
    state, in an environment that keeps all that is asked of it, in which the
    instructions waiting and arriving are more than the skid buffer holds, and
    the next cycle ends in the assertion of [skidInsert].  The constructor gives
    the buffer [fetchToDecodeDelay + 1] widths, which is too little as soon as
    [decodeToFetchDelay] is more than one. *)
Theorem skid_size_exact {PC : Type} `{EqDecision PC} (branchTarget pp : InstPtr -> PC)
    (cfg : DecodeConfig) (d e : nat) :
  activeThreads cfg = [0%nat] -> 1 <= decodeWidth cfg <= MaxWidth -> (1 <= d)%nat -> (1 <= e)%nat ->
  skidBufferMax cfg < Z.of_nat ((d + e) * Z.to_nat (decodeWidth cfg)) \/
    (Decode_config (decodeWidth cfg) (Z.of_nat d) (numThreads cfg) [0%nat] (FullSystem cfg) = Ok cfg /\ (2 <= e)%nat) ->
  exists (s : FrontEnd PC) i arriving wire,
    feReach branchTarget cfg zeroOwner d e s /\ envOK cfg zeroOwner s i /\
    toDecodeWire s = arriving :: wire /\
    skidBufferMax cfg < Z.of_nat (length (skidBuffer (fe_decode s) 0%nat ++ arriving)) /\
    cpuTick branchTarget cfg (decodeIn i arriving) (enterDecode i (fe_decode s)) = Panic /\
    feCycle branchTarget cfg i s = Panic.
Proof.
  intros Ha Hw Hd He Hsz.
  assert (Hlt : skidBufferMax cfg < Z.of_nat ((d + e) * Z.to_nat (decodeWidth cfg))).
  { destruct Hsz as [?|[Hc He2]]; [done|]. unfold Decode_config in Hc. inv_ok.
    pose proof (f_equal skidBufferMax Hc) as E. cbn in E. rewrite <- E.
    pose proof (Z.mod_le ((Z.of_nat d + 1) * decodeWidth cfg) (2 ^ 32)). unfold wrap. nia. }
  destruct (press_fills branchTarget pp cfg d e Ha Hw Hd He (d + e)) as [H|(s & _ & [?|?])]; [done|done|lia|lia].
Qed.

(** Width 4, and one cycle more back than the constructor allows for. *)
Definition slowCfg : DecodeConfig :=
  {| decodeWidth := 4; numThreads := 1; skidBufferMax := 8; activeThreads := [0%nat]; FullSystem := false |}.

Lemma skid_size_exact_witness :
  Decode_config 4 1 1 [0%nat] false = Ok slowCfg /\
  exists (s : FrontEnd Z) i arriving wire,
    feReach Sample.target slowCfg zeroOwner 1 2 s /\ envOK slowCfg zeroOwner s i /\
    toDecodeWire s = arriving :: wire /\
    skidBufferMax slowCfg < Z.of_nat (length (skidBuffer (fe_decode s) 0%nat ++ arriving)) /\
    cpuTick Sample.target slowCfg (decodeIn i arriving) (enterDecode i (fe_decode s)) = Panic /\
    feCycle Sample.target slowCfg i s = Panic.
Proof.
  split; [reflexivity|].
  apply (skid_size_exact Sample.target (fun _ => 8) slowCfg 1 2); [reflexivity|vm_compute; split; discriminate|lia|lia|].
  right. split; [reflexivity|lia].
Defined.
